(* ===== verification/_CoqProject ===== *)
-Q . S2P
Prelude.v
Bytes.v
StaticTls.v
TlsCalc.v
Sheep.v
Lock.v
Demux.v
Shmcache.v
ShmcacheInv.v
ShmcacheProcs.v
Requestors.v
Cobo.v
Message.v
Msgbundle.v
CrashHandler.v
CrashTree.v
Cache.v
GlobalName.v
Pathfn.v
Parseloc.v
Config.v
ConfigArgs.v
ElfRead.v
Mounts.v
Server.v
Handlers.v
Truth.v
TruthLoad.v
TruthHandlers.v
TruthAnswers.v
TruthMessages.v
Network.v
RootAnswers.v
ClientApi.v
Lookup.v
LookupProcs.v
Intercept.v
Application.v
Exec.v
ExecEnv.v
ExecTun.v
ExecProcs.v
Exit.v
Alive.v
TlsTree.v
TlsAnswers.v
SlurmArgs.v
SlurmHosts.v
SlurmLaunch.v
