(* ===== verification/Prelude.v ===== *)
(** * Spindle: a verification development

    Spindle loads the libraries, programs and other files of a parallel application through a
    tree of servers, one per node, so that the shared file system is asked once and not once
    per process.  A process of the application has a client in it, which intercepts the calls
    that open, look at or execute files.  The client asks the cache that the processes of its
    node share, and then the server of the node; the server answers from its cache, reads the
    file when it is the root of the tree, or asks its parent.  Files that were read are sent
    down the tree and stored in a local file system, and the application opens the copies.

    All paths below are under [src/src/].

    ** The files, and what they model

    Foundations.
    - [Prelude]: tactics, the hint databases, facts on lists.
    - [Bytes]: buffers as lists of [ascii], C strings, little-endian integers of 16, 32 and 64
      bits and their wrap-around.

    Shared memory of the processes of a node.
    - [Sheep]: [biter/sheep.c], malloc and free in shared memory, on packed headers.
    - [Lock]: the lock of [biter/shmutil.c], every access to memory being a step.
    - [Demux]: [biter/demultiplex.c] and [biter/client_queue.c], many processes on one pipe.
    - [Shmcache], [ShmcacheInv], [ShmcacheProcs]: [client/shm_cache/shmcache.c], its hash table
      and order of use on memory that is allocated and freed; the invariant; the processes that
      call it.  It uses the heap through the interface [Shmcache.SharedHeap].

    The tree of servers.
    - [Cobo]: [cobo/cobo.c], the tree that the ranks compute and the collectives over it.  The
      interface [Cobo.RankTree] is what the protocols below need of a tree.
    - [Message]: [include/ldcs_api.h], [cobo/cobo_comm.c] and the reading of messages in
      [server/auditserver/ldcs_audit_server_md_cobo.c].
    - [Msgbundle]: [server/auditserver/msgbundle.c] and [handle_msgbundle], with the timer.
    - [CrashHandler], [CrashTree]: the crash handler and crash log of
      [server/auditserver]; the election of one core dump per crash site over the tree.
    - [Exit]: the exit protocol of [ldcs_audit_server_handlers.c] over the tree.

    The data of a server.
    - [Requestors]: [ldcs_audit_server_requestors.c], with the interface [RequestorStore].
    - [Cache]: [server/cache/ldcs_cache.cc] and [stat_cache.cc].
    - [GlobalName]: [server/cache/global_name.c] and [filemngt_calc_localname].
    - [Pathfn], [Parseloc], [StaticTls]: the files of these names in [utils/].
    - [ElfRead]: [ldcs_elf_read.c].  [Mounts]: [parse_mounts.cc].

    The handlers of a server.
    - [Server]: [ldcs_process_data_t], local files and the state monad of the handlers.
    - [Handlers]: [ldcs_audit_server_handlers.c] and the parts of [ldcs_audit_server_filemngt.c]
      that it calls, one definition per C function.
    - [Truth], [TruthLoad], [TruthHandlers], [TruthAnswers], [TruthMessages]: what it means
      that a server tells the truth about the file system, and that every handler keeps it so.
    - [Network]: the servers on their tree.  [RootAnswers]: the root answers every query.

    The client.
    - [ClientApi]: [client/client_comlib/client_api.c], put together with [Handlers].
    - [Lookup], [LookupProcs]: [client/client/lookup.c] as programs over the shared cache and
      the server, and the processes that run them interleaved.
    - [Intercept], [Application]: [should_intercept.c], [intercept_open.c], [intercept_stat.c],
      [intercept_readlink.c], [intercept_spindleapi.c] and [client_library_load]; what an
      application sees.
    - [Exec], [ExecEnv], [ExecTun], [ExecProcs]: [exec_util.c] and [intercept_exec.c]; the
      program, arguments and environment that are executed.

    ** How the code is modelled

    Definitions have the names of the C functions and follow them line by line.  A failing
    assertion, an access outside a buffer or to memory that was freed, and the use of a null
    pointer have no result: [None], [Stuck] in programs of a client, [Crash] in [Demux].  Error
    codes of the code are ordinary results.  Results of the operating system (contents of files,
    [stat], [readdir], [getenv], chunks that [read] and [write] transfer, whether memory is
    there) are arguments.  Machine integers are [Z] with their wrap-around written out where the
    code can reach it.  Systems of servers or processes are step relations whose steps run these
    definitions; the theorems are about all reachable states.

    ** What the theorems show

    - Truth: in every reachable state of the tree of servers all answers to clients and all
      messages are true of the file system ([Network]); at the root every query for a file is
      answered exactly once and the client gets what is true of its path ([ClientApi]).
    - Applications: calls of the processes of a node through the client, interleaved in any way
      over the shared cache, have the results that they would have without Spindle, and end
      ([LookupProcs], [Application], [ExecProcs]).
    - Shared memory: the allocator, the lock, the shared cache and the shared pipe are safe for
      all interleavings, and requests that can be served are ([Sheep], [Lock], [ShmcacheProcs],
      [Demux]).
    - Protocols over the tree: the ranks agree on one tree, collectives compute what they
      should, bundles are delivered in order, one process per crash site dumps core and every
      report is answered, servers exit when and only when all clients have ended ([Cobo],
      [Msgbundle], [CrashTree], [Exit]).
    - Formats: what is encoded is decoded to the same, and parsers stay within their buffers
      ([Message], [Cache], [CrashHandler], [StaticTls], [Parseloc], [Pathfn], [GlobalName]).
    - Environments and tunables of programs that are executed ([ExecEnv], [ExecTun]).
    Lemmas that are named in the findings of the project show what the code does where it does
    not do what it should; theorems exclude these cases by their hypotheses.

    ** Bounds and fuel

    Loops that are not structural have fuel.  For [handle_client_progress]
    [RootAnswers] proves that six rounds are enough at the root; the truth of the answers holds for
    every fuel.  [cobo_compute_children] has as
    much fuel as there are ranks, which [Cobo] proves to be enough.  Lookups of a client take at
    most seven accesses ([LookupProcs]).  The loops of [Sheep], [Shmcache] and [Parseloc] have
    the number of blocks, entries or bytes as fuel; their invariants show that it does not run
    out.  Sizes of buffers are those of the code.

    ** Not modelled

    - Interaction with the operating system: sockets and their set-up, the handshake of
      connections ([cobo/handshake.c]), pipes and their polling ([server/comlib]), processes
      and signals, mapping of shared memory, clean-up of directories, logging.
    - The patching of the linker and of loaded code ([client/auditclient], [client/subaudit],
      [patch_interception.c], [remap_exec.c]) and the bootstrapping of a process ([beboot]):
      they change machine code and link maps, for which there is no model of the hardware here.
    - The front end ([fe]), the plugins for resource managers ([slurm_plugin], [flux]) and the
      launching of servers: command lines, environments and processes of other programs.
    - NUMA replication, and the computation of thread-local storage by reading ELF files and
      running the loader ([filemngt_calc_static_tls.c]).
    - Time: sleeping, timeouts and statistics. *)

From Stdlib Require Import Ascii String ZArith Lia.
From stdpp Require Import strings numbers gmap list.

(** ** Notations and automation *)

Declare Scope spindle_scope.
Delimit Scope spindle_scope with spindle.
Open Scope Z_scope.

Create HintDb spindle.
Create Rewrite HintDb spindle.

(** Case analysis on the scrutinee of a [match] or an [if], with its equation. *)
Ltac case_match_goal :=
  match goal with
  | |- context [match ?x with _ => _ end] => destruct x eqn:?
  | H : context [match ?x with _ => _ end] |- _ => destruct x eqn:?
  end.

(** Discharges what is left after a case analysis: equations between
    constructors, linear arithmetic, and the lemmas of the [spindle] database. *)
Ltac finish := simplify_eq/=; try done; try lia; eauto with spindle.

(** Boolean comparisons of the code's conditions turned into propositions. *)
Ltac bool_to_prop :=
  repeat match goal with
  | H : andb _ _ = true |- _ => apply andb_true_iff in H as [? ?]
  | H : orb _ _ = false |- _ => apply orb_false_iff in H as [? ?]
  | H : negb _ = true |- _ => apply negb_true_iff in H
  | H : negb _ = false |- _ => apply negb_false_iff in H
  | H : (_ <? _) = true |- _ => apply Z.ltb_lt in H
  | H : (_ <? _) = false |- _ => apply Z.ltb_ge in H
  | H : (_ <=? _) = true |- _ => apply Z.leb_le in H
  | H : (_ <=? _) = false |- _ => apply Z.leb_gt in H
  | H : (_ =? _) = true |- _ => apply Z.eqb_eq in H
  | H : (_ =? _) = false |- _ => apply Z.eqb_neq in H
  | H : Nat.eqb _ _ = true |- _ => apply Nat.eqb_eq in H
  | H : Nat.eqb _ _ = false |- _ => apply Nat.eqb_neq in H
  | H : Nat.ltb _ _ = true |- _ => apply Nat.ltb_lt in H
  | H : Nat.ltb _ _ = false |- _ => apply Nat.ltb_ge in H
  | H : Nat.leb _ _ = true |- _ => apply Nat.leb_le in H
  | H : Nat.leb _ _ = false |- _ => apply Nat.leb_gt in H
  | H : bool_decide _ = true |- _ => apply bool_decide_eq_true in H
  | H : bool_decide _ = false |- _ => apply bool_decide_eq_false in H
  end.

(** ** Generic list facts *)

Section lists.
  Context {A : Type}.
  Implicit Types (l k : list A) (P : A → Prop).

Lemma take_app_exact l k n : n = length l → take n (l ++ k) = l.
Proof. intros ->. apply take_app_length. Qed.

Lemma drop_app_exact l k n : n = length l → drop n (l ++ k) = k.
Proof. intros ->. apply drop_app_length. Qed.

Lemma find_app (f : A → bool) l k :
  List.find f (l ++ k) =
    match List.find f l with Some x => Some x | None => List.find f k end.
Proof. induction l as [|x l IH]; simpl; [done|]. by destruct (f x). Qed.

Lemma find_none_iff (f : A → bool) l :
  List.find f l = None ↔ Forall (λ x, f x = false) l.
Proof.
  rewrite List.Forall_forall. split.
  - intros H x Hx. by apply (List.find_none _ _ H).
  - induction l as [|x l IH]; simpl; [done|]. intros H.
    rewrite (H x) by auto. auto.
Qed.
End lists.

#[export] Hint Rewrite @length_app @length_take @length_drop @length_map : spindle.
