(* ===== verification/Bytes.v ===== *)
(** * Bytes, C strings and little-endian machine integers

    The buffers of the C code are lists of [ascii]; a C string inside a buffer
    is the prefix up to the first NUL.  Integers are kept in [Z] and written to
    and read from buffers in the little-endian layout of the targets the code
    supports (x86-64, aarch64, ppc64le). *)

From Stdlib Require Import Ascii String ZArith Lia.
From stdpp Require Import strings numbers gmap list.
From S2P Require Import Prelude.

Abbreviation bytes := (list ascii).

Definition NUL : ascii := Ascii.zero.

(** A literal of the source as a byte string, without its terminator. *)
Definition lit (s : string) : bytes := list_ascii_of_string s.

Definition byte_val (c : ascii) : Z := Z.of_N (N_of_ascii c).
Definition byte_of (z : Z) : ascii := ascii_of_N (Z.to_N (z mod 256)).

(** [char] is signed on the targets the code is built for. *)
Definition schar_val (c : ascii) : Z :=
  let v := byte_val c in if v <? 128 then v else v - 256.

(** ** C strings *)

Definition is_nul (c : ascii) : bool := Ascii.eqb c NUL.
Definition no_nul (s : bytes) : bool := forallb (λ c, negb (is_nul c)) s.

(** The C string at the start of a buffer: what [strlen], [strcpy] or [%s] sees. *)
Fixpoint cstr (b : bytes) : bytes :=
  match b with
  | [] => []
  | c :: b' => if is_nul c then [] else c :: cstr b'
  end.

(** Whether a terminator is found within the buffer ([memchr (b, 0, len)]). *)
Definition has_nul (b : bytes) : bool := negb (no_nul b).

(** ** Little-endian integers *)

Fixpoint le_encode (n : nat) (z : Z) : bytes :=
  match n with
  | O => []
  | S n' => byte_of z :: le_encode n' (z / 256)
  end.

Fixpoint le_decode (b : bytes) : Z :=
  match b with
  | [] => 0
  | c :: b' => byte_val c + 256 * le_decode b'
  end.

(** Two's complement reading of a [w]-bit value. *)
Definition to_signed (w : Z) (z : Z) : Z :=
  let m := z mod 2 ^ w in if m <? 2 ^ (w - 1) then m else m - 2 ^ w.

Definition wrap32 (z : Z) : Z := z mod 2 ^ 32.
Definition wrap64 (z : Z) : Z := z mod 2 ^ 64.

Definition le32 (z : Z) : bytes := le_encode 4 z.
Definition le64 (z : Z) : bytes := le_encode 8 z.

(** [memcpy (&x, buf + pos, n)] for an unsigned and a signed [x]. *)
Definition rd_u (n : nat) (b : bytes) (pos : nat) : Z := le_decode (take n (drop pos b)).
Definition rd_i32 (b : bytes) (pos : nat) : Z := to_signed 32 (rd_u 4 b pos).

(** [memcpy (buf + pos, src, len)] into a buffer that is large enough. *)
Definition write_at (b : bytes) (pos : nat) (s : bytes) : bytes :=
  take pos b ++ s ++ drop (pos + length s) b.

(** ** Facts *)

Lemma byte_val_range c : 0 <= byte_val c < 256.
Proof.
  unfold byte_val. pose proof (N_ascii_bounded c) as H. lia.
Qed.

Lemma byte_val_of z : byte_val (byte_of z) = z mod 256.
Proof.
  unfold byte_val, byte_of.
  assert (0 <= z mod 256 < 256) by (apply Z.mod_pos_bound; lia).
  rewrite N_ascii_embedding by lia. lia.
Qed.

Lemma byte_of_val c : byte_of (byte_val c) = c.
Proof.
  unfold byte_of. rewrite Z.mod_small by apply byte_val_range.
  unfold byte_val. rewrite N2Z.id. apply ascii_N_embedding.
Qed.

Lemma is_nul_true c : is_nul c = true ↔ c = NUL.
Proof. apply Ascii.eqb_eq. Qed.

Lemma no_nul_app s t : no_nul (s ++ t) = no_nul s && no_nul t.
Proof. apply forallb_app. Qed.

Lemma cstr_no_nul b : no_nul (cstr b) = true.
Proof.
  induction b as [|c b IH]; simpl; [done|].
  destruct (is_nul c) eqn:Hc; simpl; [done|]. by rewrite Hc.
Qed.

Lemma cstr_app_nul s t : no_nul s = true → cstr (s ++ NUL :: t) = s.
Proof.
  induction s as [|c s IH]; simpl; [done|].
  intros [Hc Hs]%andb_true_iff. apply negb_true_iff in Hc. rewrite Hc.
  f_equal. by apply IH.
Qed.

Lemma cstr_id s : no_nul s = true → cstr s = s.
Proof.
  induction s as [|c s IH]; simpl; [done|].
  intros [Hc Hs]%andb_true_iff. apply negb_true_iff in Hc. rewrite Hc.
  f_equal. by apply IH.
Qed.

Lemma cstr_length b : (length (cstr b) ≤ length b)%nat.
Proof. induction b as [|c b IH]; simpl; [done|]. destruct (is_nul c); simpl; lia. Qed.

Lemma has_nul_cstr_lt b : has_nul b = true → (length (cstr b) < length b)%nat.
Proof.
  unfold has_nul, no_nul. induction b as [|c b IH]; simpl; [done|].
  destruct (is_nul c) eqn:Hc; simpl; [lia|]. intros H. apply IH in H. lia.
Qed.

Lemma has_nul_split b :
  has_nul b = true → b = cstr b ++ NUL :: drop (S (length (cstr b))) b.
Proof.
  unfold has_nul, no_nul. induction b as [|c b IH]; simpl; [done|].
  destruct (is_nul c) eqn:Hc; simpl.
  - apply is_nul_true in Hc. by subst.
  - intros H. f_equal. by apply IH.
Qed.

Lemma le_encode_length n z : length (le_encode n z) = n.
Proof. revert z. induction n; intros z; simpl; auto. Qed.

Lemma le_decode_encode n z : le_decode (le_encode n z) = z mod 256 ^ Z.of_nat n.
Proof.
  revert z. induction n as [|n IH]; intros z; simpl le_encode; simpl le_decode.
  - by rewrite Z.mod_1_r.
  - rewrite IH, byte_val_of, Nat2Z.inj_succ, Z.pow_succ_r by lia.
    rewrite Z.rem_mul_r by lia. done.
Qed.

Lemma le_decode_range b : 0 <= le_decode b < 256 ^ Z.of_nat (length b).
Proof.
  induction b as [|c b IH]; simpl length; simpl le_decode; [lia|].
  rewrite Nat2Z.inj_succ, Z.pow_succ_r by lia.
  pose proof (byte_val_range c). lia.
Qed.

Lemma le_encode_decode b : le_encode (length b) (le_decode b) = b.
Proof.
  induction b as [|c b IH]; simpl length; simpl le_decode; simpl le_encode; [done|].
  pose proof (byte_val_range c).
  assert ((byte_val c + 256 * le_decode b) / 256 = le_decode b) as ->.
  { rewrite Z.mul_comm, Z.div_add, Z.div_small by lia. lia. }
  rewrite IH. f_equal. rewrite <- (byte_of_val c) at 2. unfold byte_of. do 2 f_equal.
  rewrite Z.mul_comm, Z.mod_add by lia. done.
Qed.

Lemma le_decode_encode_small n z :
  0 <= z < 256 ^ Z.of_nat n → le_decode (le_encode n z) = z.
Proof. intros H. rewrite le_decode_encode. by apply Z.mod_small. Qed.

Lemma to_signed_small w z :
  0 < w → - 2 ^ (w - 1) <= z < 2 ^ (w - 1) → to_signed w (z mod 2 ^ w) = z.
Proof.
  intros Hw H. unfold to_signed. rewrite Zmod_mod.
  assert (2 ^ w = 2 * 2 ^ (w - 1)) as E.
  { rewrite <- Z.pow_succ_r by lia. f_equal. lia. }
  destruct (Z_lt_dec z 0).
  - assert (z mod 2 ^ w = z + 2 ^ w) as ->.
    { symmetry. apply Z.mod_unique with (-1); lia. }
    destruct (z + 2 ^ w <? 2 ^ (w - 1)) eqn:?; bool_to_prop; lia.
  - rewrite Z.mod_small by lia.
    destruct (z <? 2 ^ (w - 1)) eqn:?; bool_to_prop; lia.
Qed.

Lemma to_signed_id w z : 0 < w → - 2 ^ (w - 1) <= z < 2 ^ (w - 1) → to_signed w z = z.
Proof. intros Hw H. rewrite <- (to_signed_small w z) at 2 by done. unfold to_signed. by rewrite Zmod_mod. Qed.

Lemma to_signed_range w z :
  0 < w → - 2 ^ (w - 1) <= to_signed w z < 2 ^ (w - 1).
Proof.
  intros Hw. unfold to_signed.
  assert (2 ^ w = 2 * 2 ^ (w - 1)) as E.
  { rewrite <- Z.pow_succ_r by lia. f_equal. lia. }
  pose proof (Z.mod_pos_bound z (2 ^ w)).
  destruct (z mod 2 ^ w <? 2 ^ (w - 1)) eqn:?; bool_to_prop; lia.
Qed.

Lemma wrap32_range z : 0 <= wrap32 z < 2 ^ 32.
Proof. apply Z.mod_pos_bound. lia. Qed.

(** Reading at the front of a buffer and behind a known prefix. *)
Lemma rd_u_app n p b t pos :
  length p = pos → length b = n → rd_u n (p ++ b ++ t) pos = le_decode b.
Proof.
  intros <- <-. unfold rd_u.
  by rewrite drop_app_length, take_app_length.
Qed.

Lemma rd_u_front n b t : length b = n → rd_u n (b ++ t) 0 = le_decode b.
Proof. intros H. by apply (rd_u_app n []). Qed.

Lemma rd_u_app_skip n p t pos :
  (length p ≤ pos)%nat → rd_u n (p ++ t) pos = rd_u n t (pos - length p).
Proof.
  intros H. unfold rd_u. rewrite drop_app.
  by rewrite (drop_ge p) by lia.
Qed.

Lemma rd_u_range n b pos : 0 <= rd_u n b pos < 256 ^ Z.of_nat n.
Proof.
  unfold rd_u. pose proof (le_decode_range (take n (drop pos b))) as [H1 H2].
  split; [done|]. eapply Z.lt_le_trans; [exact H2|].
  apply Z.pow_le_mono_r; [lia|]. rewrite length_take. lia.
Qed.

Lemma rd_i32_le32 p z t pos :
  length p = pos → - 2 ^ 31 <= z < 2 ^ 31 → rd_i32 (p ++ le32 z ++ t) pos = z.
Proof.
  intros Hp Hz. unfold rd_i32.
  rewrite rd_u_app by (done || apply le_encode_length).
  unfold le32. rewrite le_decode_encode. change (256 ^ Z.of_nat 4) with (2 ^ 32).
  apply to_signed_small; lia.
Qed.

#[export] Hint Rewrite le_encode_length : spindle.
#[export] Hint Resolve cstr_no_nul byte_val_range : spindle.

(** ** Decimal numbers *)

(** [printf] of an [int] with [%d]. *)
Fixpoint dec_digits (fuel : nat) (n : Z) (acc : bytes) : bytes :=
  match fuel with
  | O => acc
  | S fuel' =>
      let acc' := byte_of (48 + n mod 10) :: acc in
      if n <? 10 then acc' else dec_digits fuel' (n / 10) acc'
  end.

Definition dec (z : Z) : bytes :=
  if z <? 0 then lit "-" ++ dec_digits 20 (- z) [] else dec_digits 20 z [].

Definition isspace (c : ascii) : bool :=
  let v := byte_val c in (v =? 32) || ((9 <=? v) && (v <=? 13)).
Definition isdigit (c : ascii) : bool :=
  let v := byte_val c in (48 <=? v) && (v <=? 57).

Fixpoint skip_space (s : bytes) : bytes :=
  match s with c :: s' => if isspace c then skip_space s' else s | [] => [] end.
Fixpoint digits_of (s : bytes) : bytes :=
  match s with c :: s' => if isdigit c then c :: digits_of s' else [] | [] => [] end.

Definition dec_value (s : bytes) : Z := fold_left (λ n c, 10 * n + (byte_val c - 48)) s 0.

(** [sscanf (s, "%d", &val)]: the number is read as a [long], which saturates, and stored into
    an [int]; [None] when there is no number. *)
Definition scan_int (s : bytes) : option Z :=
  let s1 := skip_space s in
  let '(neg, s2) :=
    match s1 with
    | c :: s' => if byte_val c =? 45 then (true, s') else if byte_val c =? 43 then (false, s') else (false, s1)
    | [] => (false, [])
    end in
  match digits_of s2 with
  | [] => None
  | ds => let v := dec_value ds in
          Some (to_signed 32 (if neg : bool then Z.max (- v) (- 2 ^ 63) else Z.min v (2 ^ 63 - 1)))
  end.

Lemma digit_val d : 0 <= d < 10 → byte_val (byte_of (48 + d)) = 48 + d.
Proof. intros Hd. rewrite byte_val_of. apply Z.mod_small. lia. Qed.

Lemma dec_digits_spec fuel n acc :
  0 <= n < 10 ^ Z.of_nat fuel → (0 < fuel)%nat →
  ∃ ds, dec_digits fuel n acc = ds ++ acc ∧ ds ≠ [] ∧ Forall (λ c, isdigit c = true) ds ∧
    ∀ k, fold_left (λ m c, 10 * m + (byte_val c - 48)) ds k = k * 10 ^ Z.of_nat (length ds) + n.
Proof.
  revert n acc. induction fuel as [|fuel IH]; intros n acc Hn Hf; [lia|]. cbn [dec_digits].
  assert (0 <= n mod 10 < 10) as Hd by (apply Z.mod_pos_bound; lia).
  assert (isdigit (byte_of (48 + n mod 10)) = true) as Hdig.
  { unfold isdigit. rewrite digit_val by done. apply andb_true_iff. split; apply Z.leb_le; lia. }
  destruct (n <? 10) eqn:E; bool_to_prop.
  - exists [byte_of (48 + n mod 10)]. split_and!; [done|done|by constructor|]. intros k. cbn.
    rewrite digit_val, Z.mod_small by lia. lia.
  - rewrite Nat2Z.inj_succ, Z.pow_succ_r in Hn by lia.
    assert (0 < fuel)%nat as Hf'. { destruct fuel; [cbn in Hn; lia|lia]. }
    destruct (IH (n / 10) (byte_of (48 + n mod 10) :: acc)) as (ds & E1 & _ & Hds & Hv); [|done|].
    { split; [apply Z.div_pos; lia|apply Z.div_lt_upper_bound; lia]. }
    exists (ds ++ [byte_of (48 + n mod 10)]). rewrite E1, <- app_assoc. split_and!; [done|by destruct ds|by apply Forall_app_2; [|constructor]|].
    intros k. rewrite fold_left_app, Hv, length_app, Nat2Z.inj_add, Z.pow_add_r by lia. cbn.
    rewrite digit_val by done. pose proof (Z.div_mod n 10 ltac:(lia)). lia.
Qed.

Lemma dec_digits_length fuel n acc k :
  0 <= n < 10 ^ Z.of_nat (S k) → (length (dec_digits fuel n acc) <= S k + length acc)%nat.
Proof.
  revert n acc k. induction fuel as [|fuel IH]; intros n acc k Hn; cbn [dec_digits]; [lia|].
  destruct (n <? 10) eqn:E; bool_to_prop; [cbn; lia|]. destruct k as [|k]; [cbn in Hn; lia|].
  specialize (IH (n / 10) (byte_of (48 + n mod 10) :: acc) k). cbn [length] in IH.
  rewrite (Nat2Z.inj_succ (S k)), Z.pow_succ_r in Hn by lia. enough (0 <= n / 10 < 10 ^ Z.of_nat (S k)) by (specialize (IH H); lia).
  split; [apply Z.div_pos; lia|apply Z.div_lt_upper_bound; lia].
Qed.

Lemma dec_length z : - 2 ^ 31 <= z < 2 ^ 31 → (length (dec z) <= 11)%nat.
Proof.
  intros Hz. unfold dec. destruct (z <? 0) eqn:E; bool_to_prop.
  - rewrite length_app. pose proof (dec_digits_length 20 (- z) [] 9 ltac:(cbn; lia)). cbn in *. lia.
  - pose proof (dec_digits_length 20 z [] 9 ltac:(cbn; lia)). cbn in *. lia.
Qed.

Lemma dec_no_nul z : - 2 ^ 31 <= z < 2 ^ 31 → no_nul (dec z) = true.
Proof.
  intros Hz. unfold dec.
  assert (∀ n, 0 <= n <= 2 ^ 31 → no_nul (dec_digits 20 n []) = true) as Hd.
  { intros n Hn. destruct (dec_digits_spec 20 n []) as (ds & E & _ & Hds & _); [cbn; lia|lia|].
    rewrite E, app_nil_r. apply forallb_forall. intros c Hc%list_elem_of_In. rewrite Forall_forall in Hds.
    specialize (Hds c Hc). destruct (is_nul c) eqn:En; [|done]. apply is_nul_true in En. by subst c. }
  destruct (z <? 0) eqn:E; bool_to_prop; [rewrite no_nul_app|]; rewrite Hd by lia; done.
Qed.

Lemma digits_of_stop ds t :
  Forall (λ c, isdigit c = true) ds → match t with c :: _ => isdigit c = false | [] => True end → digits_of (ds ++ t) = ds.
Proof.
  intros H Ht. induction H as [|c ds Hc _ IH]; cbn; [destruct t as [|c t]; [done|cbn; by rewrite Ht]|].
  by rewrite Hc, IH.
Qed.

(** What [%d] prints [%d] reads. *)
Lemma scan_dec z t :
  - 2 ^ 31 <= z < 2 ^ 31 → match t with c :: _ => isdigit c = false | [] => True end → scan_int (dec z ++ t) = Some z.
Proof.
  intros Hz Ht. unfold dec.
  assert (∀ n, 0 <= n <= 2 ^ 31 → ∃ ds, dec_digits 20 n [] = ds ∧ ds ≠ [] ∧ digits_of (ds ++ t) = ds ∧ dec_value ds = n ∧
    skip_space (ds ++ t) = ds ++ t ∧ ∀ c s', ds ++ t = c :: s' → (byte_val c =? 45) = false ∧ (byte_val c =? 43) = false) as Hd.
  { intros n Hn. destruct (dec_digits_spec 20 n []) as (ds & E & Hne & Hds & Hv); [cbn; lia|lia|].
    rewrite app_nil_r in E. exists ds. split; [done|]. split; [done|]. split; [by apply digits_of_stop|].
    split; [unfold dec_value; rewrite Hv; lia|].
    destruct ds as [|c ds]; [done|]. apply Forall_cons in Hds as [Hc _]. unfold isdigit in Hc. bool_to_prop.
    split; [|intros ? ? [= <- _]; split; apply Z.eqb_neq; lia]. cbn.
    assert (isspace c = false) as ->; [|done]. unfold isspace.
    apply orb_false_iff. split; [apply Z.eqb_neq; lia|]. apply andb_false_iff. right. apply Z.leb_gt. lia. }
  destruct (z <? 0) eqn:E; bool_to_prop.
  - destruct (Hd (- z) ltac:(lia)) as (ds & -> & Hne & Hs & Hv & _ & _).
    assert (scan_int ((lit "-" ++ ds) ++ t) = match digits_of (ds ++ t) with
      | [] => None | ds' => Some (to_signed 32 (Z.max (- dec_value ds') (- 2 ^ 63))) end) as -> by reflexivity.
    rewrite Hs. destruct ds as [|c ds]; [done|].
    rewrite Hv, Z.max_l by lia. f_equal. rewrite to_signed_id; lia.
  - destruct (Hd z ltac:(lia)) as (ds & -> & Hne & Hs & Hv & Hsp & Hc). unfold scan_int. rewrite Hsp.
    destruct ds as [|c ds]; [done|]. cbn [app]. destruct (Hc c (ds ++ t) eq_refl) as [-> ->].
    change (c :: ds ++ t) with ((c :: ds) ++ t). rewrite Hs, Hv, Z.min_l by lia. f_equal. rewrite to_signed_id; lia.
Qed.
