(* ===== verification/StaticTls.v ===== *)
(** * Questions about thread-local storage

    [utils/static_tls.c]: a program and its environment, for which the size of the static
    thread-local storage is asked.  The question is packed into a message, unpacked again
    by the servers, and written out as a string that names it in their tables. *)

From Stdlib Require Import Ascii String ZArith Lia.
From stdpp Require Import strings numbers list sets.
From S2P Require Import Prelude Bytes.

Module StaticTls.

(** [static_tls_info_t]; [None] is a null pointer. *)
Record static_tls_info_t := mk_static_tls_info {
  executable : option bytes;
  ld_library_path : option bytes;
  ld_preload : option bytes;
  tls_cwd : option bytes;
  path_component : option bytes;
}.
#[export] Instance static_tls_info_eq_dec : EqDecision static_tls_info_t.
Proof. solve_decision. Defined.

Definition fields (info : static_tls_info_t) : list (option bytes) :=
  [executable info; ld_library_path info; ld_preload info; tls_cwd info; path_component info].

Definition strcmp_w_null (a b : option bytes) : bool := bool_decide (default [] a = default [] b).

Definition static_tls_info_equal (a b : static_tls_info_t) : bool :=
  strcmp_w_null (executable a) (executable b) && strcmp_w_null (ld_library_path a) (ld_library_path b) &&
  strcmp_w_null (ld_preload a) (ld_preload b) && strcmp_w_null (tls_cwd a) (tls_cwd b) && strcmp_w_null (path_component a) (path_component b).

(** ** Messages *)

Definition field_len (s : option bytes) : Z := match s with Some s => Z.of_nat (length s) + 1 | None => 0 end.
Definition field_bytes (s : option bytes) : bytes := match s with Some s => s ++ [NUL] | None => [] end.
Definition fields_len (info : static_tls_info_t) : Z := fold_right (λ s n, field_len s + n) 0 (fields info).

Definition static_tls_info_encode_size_needed (info : static_tls_info_t) : Z := to_signed 32 (4 * 5 + fields_len info + 2).

(** The part of the buffer that is used; the assertion fails when the buffer is too small. *)
Definition static_tls_info_encode (info : static_tls_info_t) (buffer_in_size : Z) : option bytes :=
  let len := to_signed 32 (4 * 5 + fields_len info + 1) in
  if negb (len <=? buffer_in_size) then None
  else Some (mjoin ((λ s, le32 (field_len s)) <$> fields info) ++ mjoin (field_bytes <$> fields info) ++ [NUL]).

(** [strdup (buffer + cur)], and where the next field begins: a field without its end is read behind the buffer. *)
Definition decode_field (buffer : bytes) (cur len : Z) : option (option bytes * Z) :=
  if len =? 0 then Some (None, cur)
  else if (cur <? 0) || negb (has_nul (drop (Z.to_nat cur) buffer)) then None
  else Some (Some (cstr (drop (Z.to_nat cur) buffer)), cur + len).

(** [Some None] when it returns -1. *)
Definition static_tls_info_decode (buffer : bytes) : option (option static_tls_info_t) :=
  if Z.of_nat (length buffer) <? 4 * 5 then Some None
  else
    let executable_len := rd_i32 buffer 0 in
    let library_len := rd_i32 buffer 4 in
    let preload_len := rd_i32 buffer 8 in
    let cwd_len := rd_i32 buffer 12 in
    let path_component_len := rd_i32 buffer 16 in
    let need := 20 + executable_len + library_len + preload_len + cwd_len + path_component_len in
    if negb ((- 2 ^ 31 <=? need) && (need <? 2 ^ 31)) then None
    else if Z.of_nat (length buffer) <? need then Some None
    else
      '(executable, cur) ← decode_field buffer 20 executable_len;
      '(ld_library_path, cur) ← decode_field buffer cur library_len;
      '(ld_preload, cur) ← decode_field buffer cur preload_len;
      '(cwd, cur) ← decode_field buffer cur cwd_len;
      '(path_component, cur) ← decode_field buffer cur path_component_len;
      Some (Some (mk_static_tls_info executable ld_library_path ld_preload cwd path_component)).

(** ** Names *)

Definition BAR : ascii := "|"%char.
Definition id_text (s : option bytes) : bytes := default (lit "NONE") s.
Definition id_size (s : option bytes) : Z := match s with Some s => Z.of_nat (length s) | None => 0 end.

(** The buffer has room for sixteen digits per number. *)
Definition static_tls_info_to_idstr (info : static_tls_info_t) : bytes :=
  let size := fold_right (λ s n, Z.of_nat (length (id_text s)) + n) 0 (fields info) + 10 + 16 * 5 in
  take (Z.to_nat (size - 1))
    (id_text (executable info) ++ [BAR] ++ id_text (ld_library_path info) ++ [BAR] ++ id_text (ld_preload info) ++ [BAR] ++
     id_text (tls_cwd info) ++ [BAR] ++ id_text (path_component info) ++ [BAR] ++
     dec (id_size (executable info)) ++ [BAR] ++ dec (id_size (ld_library_path info)) ++ [BAR] ++ dec (id_size (ld_preload info)) ++ [BAR] ++
     dec (id_size (tls_cwd info)) ++ [BAR] ++ dec (id_size (path_component info))).

(** ** Questions arrive as they were sent *)

(** Strings without a 0, that fit into a message together. *)
Definition field_ok (s : option bytes) : Prop := no_nul (default [] s) = true.
Definition info_ok (info : static_tls_info_t) : Prop := Forall field_ok (fields info) ∧ fields_len info + 22 < 2 ^ 31.

Lemma field_len_nonneg s : 0 <= field_len s.
Proof. destruct s; cbn; lia. Qed.

Lemma field_bytes_length s : Z.of_nat (length (field_bytes s)) = field_len s.
Proof. destruct s; cbn; [rewrite length_app; cbn; lia|done]. Qed.

Lemma decode_field_ok p s t pos : field_ok s → pos = Z.of_nat (length p) →
  decode_field (p ++ field_bytes s ++ t) pos (field_len s) = Some (s, pos + field_len s).
Proof.
  intros Hs ->. unfold decode_field. destruct s as [s|]; cbn [field_len]; [|by rewrite Z.add_0_r].
  rewrite (proj2 (Z.eqb_neq _ 0)) by lia. rewrite (proj2 (Z.ltb_ge _ 0)) by lia. cbn [orb].
  rewrite drop_app_exact by lia. unfold field_bytes. rewrite <- app_assoc. cbn.
  assert (has_nul (s ++ NUL :: t) = true) as ->. { unfold has_nul. rewrite no_nul_app. cbn. by rewrite andb_false_r. }
  cbn. by rewrite cstr_app_nul.
Qed.

Lemma encoded_fields info : fields_len info + 22 < 2 ^ 31 →
  static_tls_info_encode info (static_tls_info_encode_size_needed info) =
    Some (mjoin ((λ s, le32 (field_len s)) <$> fields info) ++ mjoin (field_bytes <$> fields info) ++ [NUL]).
Proof.
  intros Hl. unfold static_tls_info_encode, static_tls_info_encode_size_needed.
  assert (0 <= fields_len info) as H0.
  { unfold fields_len. generalize (fields info). intros l. induction l as [|s l IH]; cbn; [lia|]. pose proof (field_len_nonneg s). lia. }
  rewrite !to_signed_id by lia. rewrite (proj2 (Z.leb_le _ _)) by lia. done.
Qed.

(** The five lengths in front of a message. *)
Lemma header_ints a b c d e t :
  Forall (λ z, - 2 ^ 31 <= z < 2 ^ 31) [a; b; c; d; e] →
  let buffer := le32 a ++ le32 b ++ le32 c ++ le32 d ++ le32 e ++ t in
  rd_i32 buffer 0 = a ∧ rd_i32 buffer 4 = b ∧ rd_i32 buffer 8 = c ∧ rd_i32 buffer 12 = d ∧ rd_i32 buffer 16 = e.
Proof.
  rewrite !Forall_cons. intros (Ha & Hb & Hc & Hd & He & _) buffer.
  assert (∀ z, length (le32 z) = 4%nat) as H4 by (intros z; apply le_encode_length).
  split_and!; unfold buffer.
  - apply (rd_i32_le32 []); done.
  - apply (rd_i32_le32 (le32 a)); done.
  - rewrite (app_assoc (le32 a)). apply rd_i32_le32; [by rewrite length_app, !H4|done].
  - rewrite (app_assoc (le32 b)), (app_assoc (le32 a)). apply rd_i32_le32; [by rewrite !length_app, !H4|done].
  - rewrite (app_assoc (le32 c)), (app_assoc (le32 b)), (app_assoc (le32 a)). apply rd_i32_le32; [by rewrite !length_app, !H4|done].
Qed.

(** The fields of a message behind its lengths. *)
Lemma decode_fields p a b c d e t : Forall field_ok [a; b; c; d; e] → length p = 20%nat →
  let buffer := p ++ field_bytes a ++ field_bytes b ++ field_bytes c ++ field_bytes d ++ field_bytes e ++ t in
  ('(executable, cur) ← decode_field buffer 20 (field_len a);
   '(ld_library_path, cur) ← decode_field buffer cur (field_len b);
   '(ld_preload, cur) ← decode_field buffer cur (field_len c);
   '(cwd, cur) ← decode_field buffer cur (field_len d);
   '(path_component, cur) ← decode_field buffer cur (field_len e);
   Some (Some (mk_static_tls_info executable ld_library_path ld_preload cwd path_component))) =
  Some (Some (mk_static_tls_info a b c d e)).
Proof.
  rewrite !Forall_cons. intros (Ha & Hb & Hc & Hd & He & _) Hp buffer. unfold buffer.
  pose proof (field_bytes_length a). pose proof (field_bytes_length b). pose proof (field_bytes_length c). pose proof (field_bytes_length d).
  rewrite (decode_field_ok p a) by (done || lia). cbn [mbind option_bind].
  rewrite (app_assoc p), (decode_field_ok _ b) by (done || rewrite length_app; lia). cbn [mbind option_bind].
  rewrite (app_assoc (_ ++ _) (field_bytes b)), (decode_field_ok _ c) by (done || rewrite !length_app; lia). cbn [mbind option_bind].
  rewrite (app_assoc (_ ++ _) (field_bytes c)), (decode_field_ok _ d) by (done || rewrite !length_app; lia). cbn [mbind option_bind].
  rewrite (app_assoc (_ ++ _) (field_bytes d)), (decode_field_ok _ e) by (done || rewrite !length_app; lia). done.
Qed.

Lemma decode_encode info : info_ok info →
  ∃ buffer, static_tls_info_encode info (static_tls_info_encode_size_needed info) = Some buffer ∧
    Z.of_nat (length buffer) < static_tls_info_encode_size_needed info ∧ static_tls_info_decode buffer = Some (Some info).
Proof.
  intros [Hf Hl]. eexists. split; [by apply encoded_fields|]. destruct info as [a b c d e].
  unfold static_tls_info_encode_size_needed, fields_len, fields in *. cbn [executable ld_library_path ld_preload tls_cwd path_component fold_right fmap list_fmap mjoin list_join] in *.
  pose proof (field_len_nonneg a). pose proof (field_len_nonneg b). pose proof (field_len_nonneg c). pose proof (field_len_nonneg d). pose proof (field_len_nonneg e).
  pose proof (field_bytes_length a). pose proof (field_bytes_length b). pose proof (field_bytes_length c). pose proof (field_bytes_length d). pose proof (field_bytes_length e).
  assert (∀ z, length (le32 z) = 4%nat) as L4 by (intros z; apply le_encode_length). rewrite !app_nil_r, <- !app_assoc.
  assert (∀ t, Z.of_nat (length (le32 (field_len a) ++ le32 (field_len b) ++ le32 (field_len c) ++ le32 (field_len d) ++ le32 (field_len e) ++ t)) = 20 + Z.of_nat (length t)) as Hlen
    by (intros t; rewrite !length_app, !L4; lia).
  rewrite to_signed_id by lia. split; [rewrite Hlen, !length_app; cbn; lia|].
  unfold static_tls_info_decode. rewrite Hlen, !length_app, (proj2 (Z.ltb_ge _ _)) by lia.
  destruct (header_ints (field_len a) (field_len b) (field_len c) (field_len d) (field_len e)
    (field_bytes a ++ field_bytes b ++ field_bytes c ++ field_bytes d ++ field_bytes e ++ [NUL])) as (E0 & E1 & E2 & E3 & E4);
    [repeat (constructor; [lia|]); constructor|].
  rewrite E0, E1, E2, E3, E4. clear E0 E1 E2 E3 E4. cbv zeta.
  rewrite (proj2 (Z.leb_le _ _)), (proj2 (Z.ltb_lt _ (2 ^ 31))) by lia. cbn [andb negb]. rewrite (proj2 (Z.ltb_ge _ _)) by (cbn [length]; lia).
  rewrite (app_assoc (le32 (field_len d))), (app_assoc (le32 (field_len c))), (app_assoc (le32 (field_len b))), (app_assoc (le32 (field_len a))).
  apply decode_fields; [done|]. by rewrite !length_app, !L4.
Qed.

(** a question about thread-local storage arrives as it was sent: a buffer of the size that is computed for it holds
    its message, and what the server decodes from the message is the question, with null pointers kept apart from empty strings. *)
Theorem static_tls_roundtrip info : info_ok info →
  ∃ buffer, static_tls_info_encode info (static_tls_info_encode_size_needed info) = Some buffer ∧
    Z.of_nat (length buffer) < static_tls_info_encode_size_needed info ∧ static_tls_info_decode buffer = Some (Some info).
Proof. apply decode_encode. Qed.

Definition demo_info : static_tls_info_t := mk_static_tls_info (Some (lit "a.out")) None (Some []) (Some (lit "/d")) None.

Lemma static_tls_roundtrip_witness :
  info_ok demo_info ∧ ∃ buffer, static_tls_info_encode demo_info (static_tls_info_encode_size_needed demo_info) = Some buffer ∧
    Z.of_nat (length buffer) < static_tls_info_encode_size_needed demo_info ∧ static_tls_info_decode buffer = Some (Some demo_info).
Proof.
  assert (info_ok demo_info) as H by (split; [repeat constructor|cbn; lia]).
  split; [exact H|]. exact (static_tls_roundtrip demo_info H).
Defined.

(** ** Different questions have different names *)

Lemma dec_digits_only z : 0 <= z < 2 ^ 31 → Forall (λ c, isdigit c = true) (dec z).
Proof.
  intros Hz. unfold dec. rewrite (proj2 (Z.ltb_ge _ _)) by lia. destruct (dec_digits_spec 20 z []) as (ds & E & _ & Hds & _); [cbn; lia|lia|].
  by rewrite E, app_nil_r.
Qed.

Lemma dec_no_bar z : 0 <= z < 2 ^ 31 → BAR ∉ dec z.
Proof. intros Hz Hin. by pose proof (proj1 (Forall_forall _ _) (dec_digits_only z Hz) BAR Hin). Qed.

Lemma dec_inj z z' : 0 <= z < 2 ^ 31 → 0 <= z' < 2 ^ 31 → dec z = dec z' → z = z'.
Proof. intros Hz Hz' E. pose proof (scan_dec z [] ltac:(lia) I) as H1. pose proof (scan_dec z' [] ltac:(lia) I) as H2. rewrite E in H1. congruence. Qed.

(** A string is split at its last bar in one way. *)
Lemma last_bar_inj (x y d e : bytes) : BAR ∉ d → BAR ∉ e → x ++ BAR :: d = y ++ BAR :: e → x = y ∧ d = e.
Proof.
  intros Hd He [(k & -> & E)|(k & -> & E)]%app_eq_inv; destruct k as [|a k]; cbn in E; simplify_eq/=; rewrite ?app_nil_r; try done; exfalso; set_solver.
Qed.

Lemma numbers_inj x y z z' : 0 <= z < 2 ^ 31 → 0 <= z' < 2 ^ 31 → x ++ BAR :: dec z = y ++ BAR :: dec z' → x = y ∧ z = z'.
Proof. intros Hz Hz' E. apply last_bar_inj in E as [-> E]; [|by apply dec_no_bar..]. split; [done|by apply dec_inj]. Qed.

(** A field of known size is read off the front. *)
Lemma field_inj a b r r' : id_size a = id_size b → id_text a ++ BAR :: r = id_text b ++ BAR :: r' → a = b ∧ r = r'.
Proof.
  destruct a as [s|], b as [s'|]; unfold id_text; cbn [id_size default from_option id]; unfold id; intros Hs E.
  - apply app_inj_1 in E as [-> [= ->]]; [done|lia].
  - destruct s; [|cbn in Hs; lia]. by destruct r.
  - destruct s'; [|cbn in Hs; lia]. by destruct r'.
  - apply app_inv_head in E. by injection E as ->.
Qed.

(** Without the bound of the buffer, which is large enough. *)
Definition id_string (info : static_tls_info_t) : bytes :=
  id_text (executable info) ++ [BAR] ++ id_text (ld_library_path info) ++ [BAR] ++ id_text (ld_preload info) ++ [BAR] ++
  id_text (tls_cwd info) ++ [BAR] ++ id_text (path_component info) ++ [BAR] ++
  dec (id_size (executable info)) ++ [BAR] ++ dec (id_size (ld_library_path info)) ++ [BAR] ++ dec (id_size (ld_preload info)) ++ [BAR] ++
  dec (id_size (tls_cwd info)) ++ [BAR] ++ dec (id_size (path_component info)).

Lemma id_string_split info : id_string info =
  (((((id_text (executable info) ++ BAR :: id_text (ld_library_path info) ++ BAR :: id_text (ld_preload info) ++ BAR ::
    id_text (tls_cwd info) ++ BAR :: id_text (path_component info)) ++ BAR :: dec (id_size (executable info))) ++ BAR :: dec (id_size (ld_library_path info))) ++
    BAR :: dec (id_size (ld_preload info))) ++ BAR :: dec (id_size (tls_cwd info))) ++ BAR :: dec (id_size (path_component info)).
Proof. unfold id_string. rewrite <- ?app_assoc. cbn [app]. rewrite <- ?app_assoc. cbn [app]. rewrite <- ?app_assoc. cbn [app]. rewrite <- ?app_assoc. cbn [app]. by rewrite <- ?app_assoc. Qed.

Lemma sizes_range info : info_ok info → Forall (λ s, 0 <= id_size s < 2 ^ 31) (fields info).
Proof.
  intros [_ Hl]. unfold fields_len in Hl. assert (∀ l n, 0 <= n → fold_right (λ s n, field_len s + n) 0 l + n < 2 ^ 31 → Forall (λ s, 0 <= id_size s < 2 ^ 31) l) as H.
  { intros l. induction l as [|s l IH]; intros n Hn H; [done|]. cbn in H. pose proof (field_len_nonneg s). constructor; [|apply (IH (field_len s + n)); lia].
    assert (0 <= fold_right (λ s n, field_len s + n) 0 l) as H1. { clear. induction l as [|s l IH]; cbn; [lia|]. pose proof (field_len_nonneg s). lia. }
    destruct s; cbn in *; lia. }
  apply (H _ 22); lia.
Qed.

Lemma idstr_fits info : info_ok info → static_tls_info_to_idstr info = id_string info.
Proof.
  intros H%sizes_range. unfold static_tls_info_to_idstr. fold (id_string info). apply take_ge. unfold id_string, fields in *. cbn [fold_right].
  rewrite !Forall_cons in H. destruct H as (H1 & H2 & H3 & H4 & H5 & _). rewrite !length_app. cbn [length].
  pose proof (dec_length (id_size (executable info)) ltac:(lia)). pose proof (dec_length (id_size (ld_library_path info)) ltac:(lia)).
  pose proof (dec_length (id_size (ld_preload info)) ltac:(lia)). pose proof (dec_length (id_size (tls_cwd info)) ltac:(lia)).
  pose proof (dec_length (id_size (path_component info)) ltac:(lia)). lia.
Qed.

Lemma idstr_inj a b : info_ok a → info_ok b → static_tls_info_to_idstr a = static_tls_info_to_idstr b → a = b.
Proof.
  intros Ha Hb. rewrite !idstr_fits by done. apply sizes_range in Ha, Hb. destruct a as [a1 a2 a3 a4 a5], b as [b1 b2 b3 b4 b5].
  unfold fields in Ha, Hb. cbn [executable ld_library_path ld_preload tls_cwd path_component] in *. rewrite !Forall_cons in Ha, Hb.
  destruct Ha as (A1 & A2 & A3 & A4 & A5 & _), Hb as (B1 & B2 & B3 & B4 & B5 & _).
  rewrite !id_string_split. cbn [executable ld_library_path ld_preload tls_cwd path_component]. intros E.
  apply numbers_inj in E as [E S5]; [|done..]. apply numbers_inj in E as [E S4]; [|done..]. apply numbers_inj in E as [E S3]; [|done..].
  apply numbers_inj in E as [E S2]; [|done..]. apply numbers_inj in E as [E S1]; [|done..].
  apply field_inj in E as [-> E]; [|done]. apply field_inj in E as [-> E]; [|done]. apply field_inj in E as [-> E]; [|done]. apply field_inj in E as [-> E]; [|done].
  apply (f_equal (λ s, s ++ [BAR])), field_inj in E as [-> _]; done.
Qed.

(** the servers keep questions apart: two questions with the same name are the same, whatever their strings contain, bars,
    digits or the text that stands for a null pointer included. *)
Theorem static_tls_names_differ a b : info_ok a → info_ok b → static_tls_info_to_idstr a = static_tls_info_to_idstr b → a = b.
Proof. apply idstr_inj. Qed.

Lemma static_tls_names_differ_witness :
  info_ok demo_info ∧ (static_tls_info_to_idstr demo_info = static_tls_info_to_idstr demo_info → demo_info = demo_info).
Proof.
  assert (info_ok demo_info) as H by (split; [repeat constructor|cbn; lia]).
  split; [exact H|]. exact (static_tls_names_differ demo_info demo_info H H).
Defined.

(** The comparison of the server is coarser: it takes null pointers for empty strings. *)
Lemma null_is_empty : static_tls_info_equal (mk_static_tls_info None None None None None) (mk_static_tls_info (Some []) None None None None) = true.
Proof. done. Qed.

End StaticTls.
