(* ===== verification/TlsCalc.v ===== *)
(** * How much thread-local storage a program needs

    [server/auditserver/filemngt_calc_static_tls.c]: a server that is asked about a program reads the headers of
    the program and of the libraries that the loader lists for it, and adds up the thread-local storage that they ask for.  What was found
    out about libraries and programs is kept in two hash tables.

    Files are byte lists; the contents of files and the output of the loader are parameters.  [None] stands for a
    null pointer that is used, for a value that was never set, or for a read outside a buffer. *)

From Stdlib Require Import Ascii String ZArith Lia.
From stdpp Require Import strings numbers gmap list sorting.
From S2P Require Import Prelude Bytes StaticTls.
Import StaticTls.

Module TlsCalc.

(** ** Tables *)

Record lib_entry := mk_lib {
  lib_path : bytes;
  lib_interp : bytes;
  lib_tls : Z;
  lib_align : Z;
}.
Record exe_entry := mk_exe {
  exe_info : static_tls_info_t;
  exe_tls : Z;
  exe_align : Z;
}.

(** The chains of the two tables, and [cached_audit_client_tls_size] with its alignment; -2 when it is not known yet. *)
Record tables := mk_tables {
  libraries : gmap Z (list lib_entry);
  executables : gmap Z (list exe_entry);
  audit_cache : Z * Z;
}.
Definition no_tables : tables := mk_tables ∅ ∅ (-2, 0).

(** [char] is signed. *)
Definition hash_string (hash : Z) (s : bytes) : Z := fold_left (λ h c, wrap64 (wrap64 (h * 32) + h + schar_val c)) s hash.
Definition hash_func (info : static_tls_info_t) : Z :=
  fold_left (λ h s, match s with Some s => hash_string h s | None => h end)
    [executable info; ld_library_path info; ld_preload info; path_component info; tls_cwd info] 5381.
Definition str_hash_func (s : bytes) : Z := hash_string 5381 s.

Definition EXECUTABLE_HASH_SIZE : Z := 64.
Definition LIBRARY_HASH_SIZE : Z := 512.

Definition chain {A} (t : gmap Z (list A)) (key : Z) : list A := default [] (t !! key).

Definition executable_hash_lookup (st : tables) (info : static_tls_info_t) : option exe_entry :=
  List.find (λ e, static_tls_info_equal (exe_info e) info) (chain (executables st) (hash_func info mod EXECUTABLE_HASH_SIZE)).
Definition executable_hash_add (st : tables) (info : static_tls_info_t) (tls_size tls_alignment : Z) : tables :=
  let key := hash_func info mod EXECUTABLE_HASH_SIZE in
  mk_tables (libraries st) (<[key := mk_exe info tls_size tls_alignment :: chain (executables st) key]> (executables st)) (audit_cache st).

(** The sizes of the entry that [executable_hash_lookup] finds are changed. *)
Fixpoint set_entry (info : static_tls_info_t) (tls_size tls_alignment : Z) (l : list exe_entry) : list exe_entry :=
  match l with
  | [] => []
  | e :: l' => if static_tls_info_equal (exe_info e) info then mk_exe (exe_info e) tls_size tls_alignment :: l' else e :: set_entry info tls_size tls_alignment l'
  end.
Definition executable_set (st : tables) (info : static_tls_info_t) (tls_size tls_alignment : Z) : tables :=
  let key := hash_func info mod EXECUTABLE_HASH_SIZE in
  match executable_hash_lookup st info with
  | Some _ => mk_tables (libraries st) (<[key := set_entry info tls_size tls_alignment (chain (executables st) key)]> (executables st)) (audit_cache st)
  | None => executable_hash_add st info tls_size tls_alignment
  end.

Definition library_hash_lookup (st : tables) (path : bytes) : option lib_entry :=
  List.find (λ e, bool_decide (path = lib_path e)) (chain (libraries st) (str_hash_func path mod LIBRARY_HASH_SIZE)).
Definition library_hash_add (st : tables) (e : lib_entry) : tables :=
  let key := str_hash_func (lib_path e) mod LIBRARY_HASH_SIZE in
  mk_tables (<[key := e :: chain (libraries st) key]> (libraries st)) (executables st) (audit_cache st).
Definition set_audit (st : tables) (size align : Z) : tables := mk_tables (libraries st) (executables st) (size, align).

Definition static_tls_info_lookup (st : tables) (info : static_tls_info_t) : option (Z * Z) :=
  e ← executable_hash_lookup st info;
  if (exe_tls e =? -1) && (exe_align e =? -1) then None else Some (exe_tls e, exe_align e).
Definition static_tls_info_add (st : tables) (info : static_tls_info_t) (tls_size tls_alignment : Z) : tables := executable_hash_add st info tls_size tls_alignment.

(** ** ELF files *)

Definition MAX_PATH_LEN : Z := 4096.
Definition PT_DYNAMIC : Z := 2.
Definition PT_INTERP : Z := 3.
Definition PT_TLS : Z := 7.
Definition DT_NULL : Z := 0.
Definition DT_FLAGS : Z := 30.
Definition EHDR_SIZE : Z := 64.
Definition PHDR_SIZE : Z := 56.

(** [n] bytes at an offset of a file, or what there is of them. *)
Definition read_at (file : bytes) (off n : Z) : bytes := take (Z.to_nat n) (drop (Z.to_nat off) file).
(** An integer in a buffer of which these bytes were set. *)
Definition load (n : nat) (buffer : bytes) (pos : Z) : option Z :=
  if pos + Z.of_nat n <=? Z.of_nat (length buffer) then Some (rd_u n buffer (Z.to_nat pos)) else None.

Record headers := mk_headers {
  h_tls : Z * Z;
  h_dynamic : Z * Z;
  h_interp : Z * Z;
}.

Fixpoint scan_phdrs (phnum : nat) (buffer : bytes) (phdr : Z) (h : headers) : option headers :=
  match phnum with
  | O => Some h
  | S n =>
      p_type ← load 4 buffer phdr;
      h ← (if p_type =? PT_TLS then memsz ← load 8 buffer (phdr + 40); align ← load 8 buffer (phdr + 48); Some (mk_headers (memsz, align) (h_dynamic h) (h_interp h)) else Some h);
      h ← (if p_type =? PT_DYNAMIC then off ← load 8 buffer (phdr + 8); sz ← load 8 buffer (phdr + 32); Some (mk_headers (h_tls h) (off, sz) (h_interp h)) else Some h);
      h ← (if p_type =? PT_INTERP then off ← load 8 buffer (phdr + 8); sz ← load 8 buffer (phdr + 32); Some (mk_headers (h_tls h) (h_dynamic h) (off, sz)) else Some h);
      scan_phdrs n buffer (phdr + PHDR_SIZE) h
  end.

(** The tag is read before the end is checked: the loop ends at a tag that ends it, or outside the buffer. *)
Fixpoint scan_dynamic (fuel : nat) (buffer : bytes) (dyn : Z) : option unit :=
  match fuel with
  | O => None
  | S fuel' =>
      d_tag ← load 8 buffer dyn;
      if d_tag =? DT_NULL then Some tt
      else if d_tag =? DT_FLAGS then _ ← load 8 buffer (dyn + 8); Some tt
      else scan_dynamic fuel' buffer (dyn + 16)
  end.

(** [lseek] refuses an offset that is negative when it is signed. *)
Definition seekable (off : Z) : bool := off <? 2 ^ 63.

(** What is found in a file. *)
Inductive dso :=
  | Not_cached                                    (** -1, and nothing is kept *)
  | Bad (interp_size : Z) (ldso : bytes)          (** -1 *)
  | Script (line : bytes)                         (** what is behind the first two characters *)
  | Dso (tls_size tls_align : Z) (interp_size : Z) (ldso : bytes).

(** [ldso], of which the first bytes were read and the last one is set. *)
Definition interp_string (f : bytes) (interp_off interp_size : Z) : option bytes :=
  let data := read_at f interp_off interp_size in
  if (Z.of_nat (length data) <? interp_size) && negb (has_nul data) then None else Some (cstr data).

(** Behind the program headers. *)
Definition finish_dso (f : bytes) (h : headers) : option dso :=
  let '(dynamic_off, dynamic_size) := h_dynamic h in
  let '(interp_off, interp_size) := h_interp h in
  let dynamic interp_size ldso :=
    if negb (seekable dynamic_off) then Some (Bad interp_size ldso)
    else
      _ ← scan_dynamic (S (Z.to_nat (dynamic_size / 16))) (read_at f dynamic_off dynamic_size) 0;
      Some (Dso (to_signed 64 (fst (h_tls h))) (to_signed 64 (snd (h_tls h))) interp_size ldso) in
  if (dynamic_off =? 0) && (dynamic_size =? 0) then Some (Bad interp_size [])
  else if negb (interp_off =? 0) && negb (interp_size =? 0) then
    if negb (seekable interp_off) then Some (Bad interp_size [])
    else
      let interp_size := Z.min interp_size MAX_PATH_LEN in
      ldso ← interp_string f interp_off interp_size;
      dynamic interp_size ldso
  else dynamic interp_size [].

Definition parse_dso (file : option bytes) : option dso :=
  match file with
  | None => Some (Bad 0 [])
  | Some f =>
      if (length f <? 2)%nat then Some (Bad 0 [])
      else if bool_decide (take 2 f = lit "#!") then Some (Script (drop 2 f))
      else if negb (bool_decide (take 2 f = [byte_of 127; "E"%char])) then Some (Bad 0 [])
      else if Z.of_nat (length f) <? EHDR_SIZE then Some Not_cached
      else if negb (bool_decide (take 4 f = byte_of 127 :: lit "ELF")) then Some (Bad 0 [])
      else
        let phoff := rd_u 8 f 32 in
        let phentsize := rd_u 2 f 54 in
        let phnum := rd_u 2 f 56 in
        if 2 ^ 31 <=? phentsize * phnum then None
        else
          (** the result of this [lseek] is not looked at *)
          h ← scan_phdrs (Z.to_nat phnum) (read_at f (if seekable phoff then phoff else EHDR_SIZE) (phentsize * phnum)) 0 (mk_headers (0, 0) (0, 0) (0, 0));
          finish_dso f h
  end.

(** *** One file *)

Inductive found := Fails | Is_script (line : bytes) | Found (tls_size tls_align : Z) (interp : bytes).

Section calc.
  Context (open_file : bytes → option bytes).

(** [scripts]: whether a script is expected; [wants]: whether the interpreter is wanted. *)
Definition static_tls_size_for_dso (st : tables) (path : bytes) (wants scripts : bool) : option (tables * found) :=
  match library_hash_lookup st path with
  | Some lib => Some (st, Found (lib_tls lib) (lib_align lib) (lib_interp lib))
  | None =>
      d ← parse_dso (open_file path);
      match d with
      | Not_cached => Some (st, Fails)
      | Bad interp_size ldso => if wants && (MAX_PATH_LEN + 1 <? interp_size) then None else Some (library_hash_add st (mk_lib path ldso (-1) (-1)), Fails)
      | Script line => if scripts then Some (st, Is_script line) else None
      | Dso tls_size tls_align interp_size ldso =>
          if wants && ((MAX_PATH_LEN + 1 <? interp_size) || (Z.of_nat (length ldso) =? interp_size) && negb (interp_size =? 0)) then None
          else Some (library_hash_add st (mk_lib path ldso tls_size tls_align), Found tls_size tls_align ldso)
      end
  end.

(** ** The list of the loader *)

Definition is_blank (c : ascii) : bool := (byte_val c =? 9) || (byte_val c =? 32).
Fixpoint skip_blanks (s : bytes) : bytes := match s with c :: s' => if is_blank c then skip_blanks s' else s | [] => [] end.

Fixpoint after (pat s : bytes) : option bytes :=
  if bool_decide (take (length pat) s = pat) then Some (drop (length pat) s)
  else match s with [] => None | _ :: s' => after pat s' end.

(** What is before the last opening parenthesis. *)
Fixpoint before_paren (s : bytes) : option bytes :=
  match s with
  | [] => None
  | c :: s' => match before_paren s' with Some p => Some (c :: p) | None => if Ascii.eqb c "(" then Some [] else None end
  end.

(** The characters up to [end], without blanks behind them but for the first one. *)
Definition trim (s : bytes) : bytes := match s with [] => [] | c :: s' => c :: reverse (skip_blanks (reverse s')) end.

(** The path of a line; [None] inside when the line is skipped.  When a parenthesis is where the path begins, [end] is before it: the search for it
    stops at the arrow, and without one it leaves the line. *)
Definition list_line (line : bytes) : option (option bytes) :=
  let line := cstr line in
  match skip_blanks line with
  | [] => Some None
  | start0 =>
      let arrow := after (lit " => ") line in
      match default start0 arrow with
      | [] => Some None
      | start =>
          match before_paren start, arrow with
          | Some [], None => None
          | Some [], Some _ => Some (Some start)
          | Some p, _ => Some (Some (trim p))
          | None, _ => Some (Some (trim start))
          end
      end
  end.

Fixpoint list_lines (lines : list bytes) (filelist : list bytes) : option (list bytes) :=
  match lines with
  | [] => Some filelist
  | l :: ls => r ← list_line l; list_lines ls (match r with Some p => p :: filelist | None => filelist end)
  end.

(** What the loader is run with: the variables of the environment, the directory and the program. *)
Record loader_call := mk_loader_call {
  l_ldso : bytes;
  l_executable : bytes;
  l_library_path : option bytes;
  l_preload : option bytes;
  l_cwd : option bytes;
}.
Context (run_loader : loader_call → option (list bytes)).

Definition SLASH : ascii := "/".

Definition get_libraries (info : static_tls_info_t) (ldso : bytes) : option (list bytes) :=
  exe ← executable info;
  let arg := match path_component info, exe with
             | Some p, c :: _ => if Ascii.eqb c SLASH then exe else p ++ SLASH :: exe
             | Some p, [] => p ++ SLASH :: exe
             | None, _ => exe
             end in
  match run_loader (mk_loader_call ldso arg (ld_library_path info) (ld_preload info) (tls_cwd info)) with
  | None => Some []
  | Some lines => list_lines lines []
  end.

(** ** Adding up *)

(** The sums are of type [ssize_t]. *)
Definition add64 (a b : Z) : option Z := let c := a + b in if (- 2 ^ 63 <=? c) && (c <? 2 ^ 63) then Some c else None.
Definition add_tls_sizes (acc : Z * Z) (tls_new tls_align : Z) : option (Z * Z) :=
  let '(tls_total, max_alignment) := acc in
  t ← add64 tls_total tls_new;
  t ← add64 t tls_align;
  Some (t, if max_alignment <? tls_align then tls_align else max_alignment).

Fixpoint add_libraries (st : tables) (libs : list bytes) (acc : Z * Z) : option (tables * (Z * Z)) :=
  match libs with
  | [] => Some (st, acc)
  | p :: libs' =>
      '(st, r) ← static_tls_size_for_dso st p false false;
      match r with
      | Found sz al _ => acc ← add_tls_sizes acc sz al; add_libraries st libs' acc
      | _ => add_libraries st libs' acc
      end
  end.

Definition script_interp (line : bytes) : bytes :=
  let fix word (s : bytes) : bytes := match s with c :: s' => if is_blank c || (byte_val c =? 10) then [] else c :: word s' | [] => [] end in
  cstr (take (Z.to_nat MAX_PATH_LEN) (word (skip_blanks line))).
Definition with_executable (info : static_tls_info_t) (exe : bytes) : static_tls_info_t :=
  mk_static_tls_info (Some exe) (ld_library_path info) (ld_preload info) (tls_cwd info) (path_component info).

Context (default_audit_libstr default_subaudit_libstr : option bytes).
Definition audit_info (lib : bytes) : static_tls_info_t := mk_static_tls_info (Some lib) None None None None.

(** The sizes of a result of -1 are -1. *)
Definition settle (r : option (Z * (Z * Z))) : Z * (Z * Z) :=
  match r with Some (c, x) => if c =? -1 then (-1, (-1, -1)) else (c, x) | None => (-1, (-1, -1)) end.

(** What a calculation leaves: the tables, and its result with what the two pointers are set to; [None] when it is -1 and they are not set. *)
Definition calc_result := option (tables * option (Z * (Z * Z))).

Section step.
  (** [calc_static_tls_for_executable_nocache], for the calls of it that are inside it. *)
  Variable nocache : tables → static_tls_info_t → option bytes → calc_result.

Definition calc_static_tls_for_executable_w_interp (st : tables) (info : static_tls_info_t) (interp : bytes) : option (tables * (Z * (Z * Z))) :=
  '(st, r) ← nocache st info (Some interp);
  let '(result, (size_result, align_result)) := settle r in
  Some (executable_set st info size_result align_result, (result, (size_result, align_result))).

(** One of the two libraries of the client; its sizes are 0 before. *)
Definition audit_lib (st : tables) (libstr : option bytes) (interp : bytes) : option (tables * (Z * (Z * Z))) :=
  match libstr with
  | Some (c :: s) => calc_static_tls_for_executable_w_interp st (audit_info (c :: s)) interp
  | _ => Some (st, (-1, (0, 0)))
  end.

(** What is added for the client's own library.  The first time, the numbers of the caller are left as they are. *)
Definition calc_static_tls_for_audit_client (st : tables) (interp : bytes) : option (tables * option (Z * Z)) :=
  if negb (fst (audit_cache st) =? -2) then Some (st, Some (audit_cache st))
  else
    '(st, (audit_result, (audit_size, audit_align))) ← audit_lib st default_audit_libstr interp;
    '(st, (subaudit_result, (subaudit_size, subaudit_align))) ← audit_lib st default_subaudit_libstr interp;
    if (audit_result =? -1) && (subaudit_result =? -1) then Some (set_audit st (-1) (-1), None)
    else Some (set_audit st (Z.max audit_size subaudit_size) (Z.max audit_align subaudit_align), Some (0, 0)).

(** [line]: the file behind its first two characters.  The sizes are kept, and 0 is returned, also when the calculation fails. *)
Definition handle_script (st : tables) (info : static_tls_info_t) (line : bytes) : calc_result :=
  match line with
  | [] => Some (st, None)
  | _ =>
      let interp_info := with_executable info (script_interp line) in
      match static_tls_info_lookup st interp_info with
      | Some x => Some (st, Some (0, x))
      | None =>
          '(st, r) ← nocache st interp_info None;
          '(_, (sz, al)) ← r;
          Some (executable_hash_add st interp_info sz al, Some (0, (sz, al)))
      end
  end.

(** The sizes of the program and of the client's library. *)
Definition add_audit (st : tables) (use_interp : option bytes) (interp : bytes) (acc : Z * Z) : option (tables * (Z * Z)) :=
  match use_interp with
  | Some _ => Some (st, acc)
  | None =>
      '(st, x) ← calc_static_tls_for_audit_client st interp;
      acc ← match x with Some (sz, al) => add_tls_sizes acc sz al | None => Some acc end;
      Some (st, acc)
  end.

Definition path_of_executable (info : static_tls_info_t) (exe : bytes) : bytes :=
  match path_component info with
  | Some p => if bool_decide (SLASH ∈ exe) then exe else take (Z.to_nat (MAX_PATH_LEN - 1)) (p ++ SLASH :: exe)
  | None => exe
  end.

(** [use_interp]: the interpreter of the program that a library of the client is loaded into. *)
Definition nocache_body (st : tables) (info : static_tls_info_t) (use_interp : option bytes) : calc_result :=
  exe ← executable info;
  '(st, r) ← static_tls_size_for_dso st (path_of_executable info exe) true true;
  match r with
  | Fails => Some (st, None)
  | Is_script line => handle_script st info line
  | Found tls_size_exe tls_align_exe interp =>
      match (match use_interp with Some i => Some (take (Z.to_nat MAX_PATH_LEN) i) | None => match interp with [] => None | _ => Some interp end end) with
      | None => Some (st, None)
      | Some interp =>
          acc ← add_tls_sizes (0, 0) tls_size_exe tls_align_exe;
          '(st, acc) ← add_audit st use_interp interp acc;
          libs ← get_libraries info interp;
          match libs with
          | [] => Some (st, None)
          | _ =>
              '(st, (tls_size_total, max_alignment)) ← add_libraries st libs acc;
              Some (st, Some (to_signed 32 tls_size_total, (tls_size_total, max_alignment)))
          end
      end
  end.

End step.

Fixpoint calc_static_tls_for_executable_nocache (fuel : nat) (st : tables) (info : static_tls_info_t) (use_interp : option bytes) : calc_result :=
  match fuel with
  | O => None
  | S fuel' => nocache_body (calc_static_tls_for_executable_nocache fuel') st info use_interp
  end.

(** The result, the size, and the alignment unless it stays unset. *)
Definition calc_static_tls_for_executable (fuel : nat) (st : tables) (info : static_tls_info_t) : option (tables * Z * Z * option Z) :=
  '(st, r) ← calc_static_tls_for_executable_nocache fuel st info None;
  let '(result, (size_result, align_result)) := settle r in
  Some (executable_set st info size_result align_result, result, size_result, if align_result =? 0 then None else Some align_result).

(** What the root answers. *)
Definition handle_calculate_total_static_tls_needed (fuel : nat) (st : tables) (info : static_tls_info_t) : option (tables * (Z * Z)) :=
  '(st, result, size, align) ← calc_static_tls_for_executable fuel st info;
  if result =? -1 then Some (st, (0, 0)) else al ← align; Some (st, (size, al)).

End calc.

(** ** The tables are maps *)

(** Two descriptions are the same when their fields are, an absent one being like an empty one. *)
Definition canon (info : static_tls_info_t) : list bytes := default [] <$> fields info.

Lemma equal_canon a b : static_tls_info_equal a b = bool_decide (canon a = canon b).
Proof.
  destruct a as [a1 a2 a3 a4 a5], b as [b1 b2 b3 b4 b5].
  unfold static_tls_info_equal, canon, fields, strcmp_w_null. cbn [executable ld_library_path ld_preload tls_cwd path_component fmap list_fmap].
  apply eq_true_iff_eq. rewrite !andb_true_iff, !bool_decide_eq_true. split; [intros [[[[? ?] ?] ?] ?]; congruence | intros [=]; tauto].
Qed.

Lemma hash_canon info : hash_func info = fold_left hash_string [default [] (executable info); default [] (ld_library_path info); default [] (ld_preload info); default [] (path_component info); default [] (tls_cwd info)] 5381.
Proof.
  unfold hash_func. cbn [fold_left].
  destruct info as [[?|] [?|] [?|] [?|] [?|]]; reflexivity.
Qed.
Lemma equal_hash a b : canon a = canon b → hash_func a = hash_func b.
Proof. intros E. rewrite !hash_canon. unfold canon, fields in E. cbn [fmap list_fmap] in E. injection E as -> -> -> -> ->. reflexivity. Qed.

Lemma chain_insert {A} (t : gmap Z (list A)) k k' l : chain (<[k := l]> t) k' = if decide (k = k') then l else chain t k'.
Proof. unfold chain. destruct (decide (k = k')) as [->|]; [rewrite lookup_insert_eq | rewrite lookup_insert_ne by done]; reflexivity. Qed.

Lemma lookup_add st info sz al info' :
  executable_hash_lookup (executable_hash_add st info sz al) info' =
  if bool_decide (canon info = canon info') then Some (mk_exe info sz al) else executable_hash_lookup st info'.
Proof.
  unfold executable_hash_lookup, executable_hash_add. cbn [executables]. rewrite chain_insert.
  case_bool_decide as Hc.
  - rewrite (equal_hash info info' Hc), decide_True by done. cbn [List.find exe_info]. rewrite equal_canon, bool_decide_true by done. reflexivity.
  - destruct (decide _) as [->|]; [|reflexivity]. cbn [List.find exe_info]. rewrite equal_canon, bool_decide_false by done. reflexivity.
Qed.

Lemma find_set info sz al info' l e :
  List.find (λ e, static_tls_info_equal (exe_info e) info) l = Some e →
  List.find (λ e, static_tls_info_equal (exe_info e) info') (set_entry info sz al l) =
  if bool_decide (canon info = canon info') then Some (mk_exe (exe_info e) sz al) else List.find (λ e, static_tls_info_equal (exe_info e) info') l.
Proof.
  induction l as [|x l IH]; [done|]. cbn [List.find set_entry]. rewrite (equal_canon (exe_info x) info). destruct (bool_decide_reflect (canon (exe_info x) = canon info)) as [Hx|Hx].
  - intros H. injection H as H. subst x. cbn [List.find exe_info]. rewrite !equal_canon, Hx. case_bool_decide; reflexivity.
  - intros H. cbn [List.find]. rewrite (IH H), equal_canon. do 2 case_bool_decide; congruence.
Qed.

Lemma lookup_set st info sz al info' :
  (λ e, (exe_tls e, exe_align e)) <$> executable_hash_lookup (executable_set st info sz al) info' =
  if bool_decide (canon info = canon info') then Some (sz, al) else (λ e, (exe_tls e, exe_align e)) <$> executable_hash_lookup st info'.
Proof.
  unfold executable_set. destruct (executable_hash_lookup st info) as [e|] eqn:He.
  - unfold executable_hash_lookup at 1. cbn [executables]. rewrite chain_insert. case_decide as Hk.
    + rewrite (find_set info sz al info' _ e He). case_bool_decide; [reflexivity|]. unfold executable_hash_lookup. rewrite <- Hk. reflexivity.
    + rewrite bool_decide_false by (intros Hc; apply Hk; rewrite (equal_hash _ _ Hc); done). reflexivity.
  - rewrite lookup_add. case_bool_decide; reflexivity.
Qed.

Lemma library_lookup_add st e path : library_hash_lookup (library_hash_add st e) path = if bool_decide (path = lib_path e) then Some e else library_hash_lookup st path.
Proof.
  unfold library_hash_lookup, library_hash_add. cbn [libraries]. rewrite chain_insert.
  case_bool_decide as Hp.
  - subst path. rewrite decide_True by done. cbn [List.find]. rewrite bool_decide_true by done. reflexivity.
  - destruct (decide _) as [->|]; [|reflexivity]. cbn [List.find]. rewrite bool_decide_false by done. reflexivity.
Qed.

(** ** What a shared object asks for *)

Record phdr := mk_phdr { p_type : Z; p_offset : Z; p_filesz : Z; p_memsz : Z; p_align : Z }.
Definition phdr_at (buffer : bytes) (pos : Z) : phdr :=
  let rd n off := rd_u n buffer (Z.to_nat (pos + off)) in mk_phdr (rd 4%nat 0) (rd 8%nat 8) (rd 8%nat 32) (rd 8%nat 40) (rd 8%nat 48).
Fixpoint phdrs_from (n : nat) (buffer : bytes) (pos : Z) : list phdr :=
  match n with O => [] | S n => phdr_at buffer pos :: phdrs_from n buffer (pos + PHDR_SIZE) end.
(** The program headers of a file. *)
Definition phdr_table (f : bytes) : list phdr :=
  let n := rd_u 2 f 56 in phdrs_from (Z.to_nat n) (read_at f (rd_u 8 f 32) (PHDR_SIZE * n)) 0.

Definition last_of (ty : Z) (l : list phdr) : option phdr := last (filter (λ p, p_type p = ty) l).

Lemma load_in n buffer pos : 0 <= pos → pos + Z.of_nat n <= Z.of_nat (length buffer) → load n buffer pos = Some (rd_u n buffer (Z.to_nat pos)).
Proof. intros ? ?. unfold load. rewrite (proj2 (Z.leb_le _ _)) by lia. reflexivity. Qed.

Definition note_phdr (h : headers) (p : phdr) : headers :=
  mk_headers (if p_type p =? PT_TLS then (p_memsz p, p_align p) else h_tls h)
    (if p_type p =? PT_DYNAMIC then (p_offset p, p_filesz p) else h_dynamic h)
    (if p_type p =? PT_INTERP then (p_offset p, p_filesz p) else h_interp h).

Lemma scan_phdrs_spec n buffer pos h : 0 <= pos → pos + PHDR_SIZE * Z.of_nat n <= Z.of_nat (length buffer) →
  scan_phdrs n buffer pos h = Some (fold_left note_phdr (phdrs_from n buffer pos) h).
Proof.
  revert pos h. induction n as [|n IH]; intros pos h Hp Hl; [reflexivity|]. unfold PHDR_SIZE in Hl.
  cbn [scan_phdrs phdrs_from fold_left]. rewrite !load_in by lia. cbn [mbind option_bind].
  set (p := phdr_at buffer pos).
  assert (rd_u 4 buffer (Z.to_nat pos) = p_type p) as -> by (unfold p, phdr_at; cbn [p_type]; do 2 f_equal; lia).
  change (rd_u 8 buffer (Z.to_nat (pos + 8))) with (p_offset p). change (rd_u 8 buffer (Z.to_nat (pos + 32))) with (p_filesz p).
  change (rd_u 8 buffer (Z.to_nat (pos + 40))) with (p_memsz p). change (rd_u 8 buffer (Z.to_nat (pos + 48))) with (p_align p).
  rewrite <- (IH (pos + PHDR_SIZE)) by (unfold PHDR_SIZE; lia). unfold note_phdr. destruct h as [ht hd hi].
  destruct (p_type p =? PT_TLS), (p_type p =? PT_DYNAMIC), (p_type p =? PT_INTERP); reflexivity.
Qed.

Lemma last_of_cons ty p l : last_of ty (p :: l) = match last_of ty l with Some q => Some q | None => if p_type p =? ty then Some p else None end.
Proof.
  unfold last_of. rewrite filter_cons. case_decide as H; [rewrite last_cons, (proj2 (Z.eqb_eq _ _) H) | rewrite (proj2 (Z.eqb_neq _ _) H)]; destruct (last _); reflexivity.
Qed.
Lemma noted l h :
  fold_left note_phdr l h = mk_headers (match last_of PT_TLS l with Some p => (p_memsz p, p_align p) | None => h_tls h end)
    (match last_of PT_DYNAMIC l with Some p => (p_offset p, p_filesz p) | None => h_dynamic h end)
    (match last_of PT_INTERP l with Some p => (p_offset p, p_filesz p) | None => h_interp h end).
Proof.
  revert h. induction l as [|p l IH]; intros h; [destruct h; reflexivity|]. cbn [fold_left]. rewrite IH, !last_of_cons. unfold note_phdr. cbn [h_tls h_dynamic h_interp].
  clear IH. f_equal.
  - destruct (last_of PT_TLS l), (p_type p =? PT_TLS); reflexivity.
  - destruct (last_of PT_DYNAMIC l), (p_type p =? PT_DYNAMIC); reflexivity.
  - destruct (last_of PT_INTERP l), (p_type p =? PT_INTERP); reflexivity.
Qed.

(** The dynamic section has an entry that ends it. *)
Lemma scan_dynamic_ends buffer k n pos : 0 <= pos → (k < n)%nat → pos + 16 * Z.of_nat k + 16 <= Z.of_nat (length buffer) →
  rd_u 8 buffer (Z.to_nat (pos + 16 * Z.of_nat k)) = DT_NULL → scan_dynamic n buffer pos = Some tt.
Proof.
  revert n pos. induction k as [|k IH]; intros n pos Hp Hn Hl H; (destruct n as [|n]; [lia|]); cbn [scan_dynamic]; rewrite !load_in by lia; cbn [mbind option_bind].
  - replace (pos + 16 * Z.of_nat 0) with pos in H by lia. rewrite H. reflexivity.
  - destruct (_ =? DT_NULL); [reflexivity|]. destruct (_ =? DT_FLAGS); [reflexivity|].
    apply IH; [lia.. |]. rewrite <- H. do 2 f_equal. lia.
Qed.

Definition tls_of (f : bytes) : Z * Z :=
  match last_of PT_TLS (phdr_table f) with Some p => (to_signed 64 (p_memsz p), to_signed 64 (p_align p)) | None => (0, 0) end.
Definition interp_of (f : bytes) : Z * bytes :=
  match last_of PT_INTERP (phdr_table f) with Some p => (p_filesz p, cstr (read_at f (p_offset p) (p_filesz p))) | None => (0, []) end.

(** A shared object whose headers are inside the file. *)
Record dso_file (f : bytes) : Prop := {
  df_size : EHDR_SIZE <= Z.of_nat (length f) < 2 ^ 63;
  df_magic : take 4 f = byte_of 127 :: lit "ELF";
  df_phentsize : rd_u 2 f 54 = PHDR_SIZE;
  df_phdrs : rd_u 8 f 32 + PHDR_SIZE * rd_u 2 f 56 <= Z.of_nat (length f);
  df_dynamic : ∃ p k, last_of PT_DYNAMIC (phdr_table f) = Some p ∧ 0 < p_offset p ∧ 16 * Z.of_nat k + 16 <= p_filesz p ∧
    p_offset p + p_filesz p <= Z.of_nat (length f) ∧ rd_u 8 (read_at f (p_offset p) (p_filesz p)) (16 * k) = DT_NULL;
  df_interp : ∀ p, last_of PT_INTERP (phdr_table f) = Some p → 0 < p_offset p ∧ 0 < p_filesz p <= MAX_PATH_LEN ∧ p_offset p + p_filesz p <= Z.of_nat (length f);
}.

Lemma read_at_length f off n : 0 <= off → 0 <= n → off + n <= Z.of_nat (length f) → Z.of_nat (length (read_at f off n)) = n.
Proof. intros. unfold read_at. rewrite length_take, length_drop. lia. Qed.

(** C37: For every shared object whose headers are inside the file, [static_tls_size_for_dso] finds the size and the alignment that the last [PT_TLS]
    header of the file asks for, nothing when it has none, and the interpreter that its [PT_INTERP] header names. *)
Theorem dso_tls_found f : dso_file f →
  parse_dso (Some f) = Some (Dso (fst (tls_of f)) (snd (tls_of f)) (fst (interp_of f)) (snd (interp_of f))).
Proof.
  intros [Hs Hm He Hp Hd Hi]. unfold EHDR_SIZE in Hs.
  pose proof (rd_u_range 8 f 32) as Ho. pose proof (rd_u_range 2 f 56) as Hn.
  assert (take 2 f = [byte_of 127; "E"%char]) as H2 by (change 2%nat with (2 `min` 4)%nat; rewrite <- take_take, Hm; reflexivity).
  unfold parse_dso, EHDR_SIZE. rewrite (proj2 (Nat.ltb_ge _ _)), H2, bool_decide_false, bool_decide_true, (proj2 (Z.ltb_ge _ _)), Hm, bool_decide_true by (done || lia).
  cbn [negb]. rewrite He. unfold PHDR_SIZE in *. rewrite (proj2 (Z.leb_gt _ _)) by lia.
  unfold seekable. rewrite (proj2 (Z.ltb_lt _ _)) by lia.
  rewrite scan_phdrs_spec by (unfold PHDR_SIZE; rewrite ?read_at_length; lia). cbn [mbind option_bind].
  change (phdrs_from _ _ 0) with (phdr_table f). rewrite noted. cbn [h_tls h_dynamic h_interp].
  destruct Hd as (p & k & Hp1 & Hp2 & Hp3 & Hp4 & Hp5). unfold finish_dso. rewrite Hp1. cbn [h_dynamic h_interp h_tls].
  rewrite (proj2 (Z.eqb_neq (p_offset p) 0)) by lia. cbn [andb]. unfold seekable. rewrite (proj2 (Z.ltb_lt (p_offset p) _)) by lia. cbn [negb].
  assert (Z.of_nat k <= p_filesz p / 16) as Hk by (apply Z.div_le_lower_bound; lia).
  rewrite (scan_dynamic_ends _ k) by (rewrite ?read_at_length by lia; try lia; rewrite <- Hp5; f_equal; lia).
  unfold tls_of, interp_of.
  destruct (last_of PT_INTERP _) as [pi|] eqn:Ei; [|destruct (last_of PT_TLS _); reflexivity].
  destruct (Hi _ eq_refl) as (Hi1 & Hi2 & Hi3). rewrite (proj2 (Z.eqb_neq (p_offset pi) 0)), (proj2 (Z.eqb_neq (p_filesz pi) 0)), (proj2 (Z.ltb_lt (p_offset pi) _)) by lia.
  cbn [andb negb]. rewrite Z.min_l by lia. unfold interp_string. rewrite read_at_length, Z.ltb_irrefl by lia. cbn [andb mbind option_bind fst snd].
  destruct (last_of PT_TLS _); reflexivity.
Qed.

(** ** The list of the loader *)

Definition not_blank (c : ascii) : Prop := is_blank c = false.
Lemma skip_blanks_id s : head s ≠ None → (∀ c, head s = Some c → not_blank c) → skip_blanks s = s.
Proof. destruct s as [|c s]; [done|]. intros _ H. cbn. rewrite (H c eq_refl). reflexivity. Qed.
Lemma trim_id s : (∀ c, last s = Some c → not_blank c) → trim s = s.
Proof.
  destruct s as [|c s]; [done|]. intros H. cbn [trim]. f_equal.
  destruct (decide (s = [])) as [->|Hs]; [reflexivity|]. destruct s as [|d s] using rev_ind; [done|]. clear IHs.
  rewrite reverse_snoc, skip_blanks_id; [by rewrite <- (reverse_snoc s d), reverse_involutive | done |].
  intros ? [= <-]. apply H. rewrite last_cons, last_snoc. reflexivity.
Qed.
Lemma trim_snoc s c : s ≠ [] → (∀ c, last s = Some c → not_blank c) → is_blank c = true → trim (s ++ [c]) = s.
Proof.
  intros Hs H Hc. destruct s as [|d s]; [done|]. cbn [app trim]. rewrite reverse_snoc. cbn [skip_blanks]. rewrite Hc.
  exact (trim_id (d :: s) H).
Qed.

Lemma before_paren_none s : "("%char ∉ s → before_paren s = None.
Proof.
  induction s as [|c s IH]; [done|]. rewrite not_elem_of_cons. intros [H1 H2]. cbn [before_paren]. rewrite IH by done.
  rewrite (proj2 (Ascii.eqb_neq _ _)) by done. reflexivity.
Qed.
Lemma before_paren_app s t : "("%char ∉ t → before_paren (s ++ "("%char :: t) = Some s.
Proof. intros H. induction s as [|c s IH]; cbn [before_paren app]; [by rewrite before_paren_none | by rewrite IH]. Qed.

(** A line of the loader: the path and the address, behind the name and an arrow when the library was searched for. *)
Definition loader_line (name : option bytes) (path addr : bytes) : bytes :=
  byte_of 9 :: match name with Some n => n ++ lit " => " | None => [] end ++ path ++ lit " (" ++ addr ++ lit ")" ++ [byte_of 10].

Definition arrow_free (s : bytes) : Prop := "="%char ∉ s.

Lemma after_here pat t : after pat (pat ++ t) = Some t.
Proof.
  assert (∀ s, after pat s = if bool_decide (take (length pat) s = pat) then Some (drop (length pat) s) else match s with [] => None | _ :: s' => after pat s' end) as -> by (intros []; reflexivity).
  rewrite take_app_length, bool_decide_true, drop_app_length by done. reflexivity.
Qed.
(** The second character of the pattern is not in what is skipped. *)
Lemma after_skip s t : arrow_free s → after (lit " => ") (s ++ lit " => " ++ t) = Some t.
Proof.
  unfold arrow_free. induction s as [|c s IH]; intros H; [apply (after_here (lit " => "))|].
  rewrite not_elem_of_cons in H. destruct H as [Hc Hs]. cbn [app after]. rewrite bool_decide_false; [by apply IH|].
  destruct s as [|d s]; [done|]. rewrite not_elem_of_cons in Hs. cbn. intros [= ? Hd]. destruct Hs as [Hs _]. by destruct Hs.
Qed.
Lemma after_none s : arrow_free s → after (lit " => ") s = None.
Proof.
  unfold arrow_free. induction s as [|c s IH]; intros H; [reflexivity|]. rewrite not_elem_of_cons in H. destruct H as [Hc Hs].
  cbn [after]. rewrite bool_decide_false; [by apply IH|]. destruct s as [|d s]; [done|]. rewrite not_elem_of_cons in Hs. cbn. intros [= ? Hd]. destruct Hs as [Hs _]. by destruct Hs.
Qed.

Definition plain (s : bytes) : Prop := no_nul s = true ∧ "("%char ∉ s.
Definition starts_word (s : bytes) : Prop := s ≠ [] ∧ ∀ c, head s = Some c → not_blank c.
(** A path that can stand in such a line. *)
Definition path_fits (path : bytes) : Prop := no_nul path = true ∧ starts_word path ∧ (∀ c, last path = Some c → not_blank c).

Lemma skip_word s t : starts_word s → skip_blanks (s ++ t) = s ++ t.
Proof. intros [H1 H2]. destruct s as [|c s]; [done|]. apply skip_blanks_id; [done|]. intros ? [= <-]. by apply H2. Qed.

Lemma line_parsed name path addr : path_fits path → plain addr →
  match name with Some n => no_nul n = true ∧ arrow_free n ∧ starts_word n | None => arrow_free path ∧ arrow_free addr end →
  list_line (loader_line name path addr) = Some (Some path).
Proof.
  intros (Hn & Hw & Hl) [Ha1 Ha2] Hname.
  set (t := path ++ lit " (" ++ addr ++ lit ")" ++ [byte_of 10]).
  assert (no_nul t = true) as Ht by (unfold t; rewrite !no_nul_app, Hn, Ha1; reflexivity).
  assert (before_paren t = Some (path ++ [" "%char])) as Hb.
  { unfold t. change (lit " (" ++ addr ++ lit ")" ++ [byte_of 10]) with ([" "%char] ++ "("%char :: (addr ++ lit ")" ++ [byte_of 10])). rewrite app_assoc. apply before_paren_app.
    rewrite elem_of_app. intros [H|H]; [done|]. revert H. apply (bool_decide_unpack _). vm_compute. exact I. }
  assert (trim (path ++ [" "%char]) = path) as Htr by (apply trim_snoc; [apply Hw | done | done]).
  assert (Ht0 : t ≠ []) by (unfold t; destruct path; [destruct Hw as [[] _]; done | done]).
  unfold list_line, loader_line. fold t. destruct name as [n|].
  - destruct Hname as (Hn1 & Hn2 & Hn3). rewrite cstr_id by (cbn [no_nul forallb]; rewrite <- app_assoc, !no_nul_app, Hn1, Ht; reflexivity).
    cbn [skip_blanks is_blank]. rewrite <- app_assoc, skip_word by done.
    assert (after (lit " => ") (byte_of 9 :: n ++ lit " => " ++ t) = Some t) as Haf.
    { apply (after_skip (byte_of 9 :: n)). unfold arrow_free in *. rewrite not_elem_of_cons. done. }
    rewrite Haf. destruct n as [|c n]; [by destruct Hn3|]. cbn [default from_option app]. unfold id. destruct t as [|c' t']; [done|]. rewrite Hb.
    destruct (path ++ [" "%char]) as [|c0 p0] eqn:E; [by destruct path | by rewrite Htr].
  - destruct Hname as [Hp Had]. cbn [app]. rewrite cstr_id by (cbn [no_nul forallb]; fold (no_nul t); rewrite Ht; reflexivity).
    cbn [skip_blanks is_blank]. assert (skip_blanks t = t) as -> by (apply (skip_word path); done).
    rewrite after_none.
    2:{ unfold arrow_free, t in *. rewrite not_elem_of_cons, !elem_of_app. split; [done|]. intros [H|[H|[H|[H|H]]]]; [done | | done | |]; revert H; apply (bool_decide_unpack _); vm_compute; exact I. }
    cbn [default from_option]. unfold id. clearbody t. destruct t as [|c' t']; [done|]. change (is_blank (byte_of 9)) with true. cbn iota. rewrite Hb. 
    destruct (path ++ [" "%char]) as [|c0 p0] eqn:E; [by destruct path | by rewrite Htr].
Qed.

(** [get_libraries] understands the list of the loader: when each line has a path and an address, with a name and an arrow before them or not, the list is
    the paths, the last line first. *)
Theorem loader_list_parsed (rows : list (option bytes * bytes * bytes)) acc :
  Forall (λ '(name, path, addr), path_fits path ∧ plain addr ∧
    match name with Some n => no_nul n = true ∧ arrow_free n ∧ starts_word n | None => arrow_free path ∧ arrow_free addr end) rows →
  list_lines ((λ '(name, path, addr), loader_line name path addr) <$> rows) acc = Some (reverse (snd ∘ fst <$> rows) ++ acc).
Proof.
  intros H. revert acc. induction H as [|[[name path] addr] rows (H1 & H2 & H3) _ IH]; intros acc; [reflexivity|].
  cbn [fmap list_fmap list_lines]. rewrite line_parsed by done. cbn [mbind option_bind]. unfold fmap in IH. rewrite IH.
  f_equal. rewrite reverse_cons, <- app_assoc. reflexivity.
Qed.
Lemma loader_list_parsed_witness :
  list_lines [loader_line (Some (lit "libm.so.6")) (lit "/lib64/libm.so.6") (lit "0x01"); loader_line None (lit "/lib64/ld.so") (lit "0x02")] [] = Some [lit "/lib64/ld.so"; lit "/lib64/libm.so.6"].
Proof.
  apply (loader_list_parsed [(Some (lit "libm.so.6"), lit "/lib64/libm.so.6", lit "0x01"); (None, lit "/lib64/ld.so", lit "0x02")] []).
  repeat constructor; try reflexivity; try (intros ? [= <-]; reflexivity); try discriminate; try (apply (bool_decide_unpack _); vm_compute; exact I).
Defined.
(** A line without an address keeps its newline, and a library that is not found is listed as the words that say so. *)
Lemma not_found_listed : list_line (byte_of 9 :: lit "libx.so => not found" ++ [byte_of 10]) = Some (Some (lit "not found" ++ [byte_of 10])).
Proof. reflexivity. Qed.

(** ** How much is needed *)

(** The blocks of the modules of a program, one after the other, each rounded up to its alignment. *)
Definition round_to (align x : Z) : Z := if align <=? 1 then x else (x + align - 1) / align * align.
Definition tls_end (modules : list (Z * Z)) : Z := fold_left (λ off '(size, align), round_to align (off + size)) modules 0.
Definition tls_sum (modules : list (Z * Z)) : Z := fold_right (λ '(size, align) n, size + align + n) 0 modules.
Definition tls_max (modules : list (Z * Z)) (m : Z) : Z := fold_left (λ m '(_, align), Z.max m align) modules m.
Definition block_ok (m : Z * Z) : Prop := 0 <= fst m ∧ 0 <= snd m.

Lemma round_to_bound align x : 0 <= align → x <= round_to align x <= x + align.
Proof.
  intros H. unfold round_to. destruct (Z.leb_spec align 1); [lia|].
  pose proof (Z.div_mod (x + align - 1) align ltac:(lia)). pose proof (Z.mod_pos_bound (x + align - 1) align ltac:(lia)). nia.
Qed.
Lemma tls_end_bound modules : Forall block_ok modules → tls_end modules <= tls_sum modules.
Proof.
  intros H. unfold tls_end. cut (∀ off, fold_left (λ off '(size, align), round_to align (off + size)) modules off <= off + tls_sum modules); [intros Hc; specialize (Hc 0); lia|].
  induction H as [|[sz al] modules [H1 H2] _ IH]; intros off; cbn [fold_left tls_sum fold_right]; [lia|]. cbn [fst snd] in *.
  etransitivity; [apply IH|]. pose proof (round_to_bound al (off + sz) H2). fold (tls_sum modules). lia.
Qed.
#[export] Instance tls_sum_perm : Proper ((≡ₚ) ==> eq) tls_sum.
Proof. intros l k H. induction H as [|[] ? ? ? IH|[] []|]; cbn [tls_sum fold_right] in *; unfold tls_sum in *; lia. Qed.
Lemma tls_max_ge modules m : m <= tls_max modules m ∧ Forall (λ x, snd x <= tls_max modules m) modules.
Proof.
  revert m. induction modules as [|[sz al] modules IH]; intros m; cbn [tls_max fold_left]; [split; [lia | constructor]|].
  destruct (IH (Z.max m al)) as [H1 H2]. unfold tls_max in *. split; [lia|]. constructor; [cbn [snd]; lia | exact H2].
Qed.
Lemma tls_sum_nonneg modules : Forall block_ok modules → 0 <= tls_sum modules.
Proof. induction 1 as [|[] ? [] _ IH]; cbn [tls_sum fold_right fst snd] in *; [lia|]. unfold tls_sum in IH. lia. Qed.

Section facts.
  Context (open_file : bytes → option bytes) (run_loader : loader_call → option (list bytes)).
  Context (default_audit_libstr default_subaudit_libstr : option bytes).
Let size_for_dso := static_tls_size_for_dso open_file.
Let nocache := calc_static_tls_for_executable_nocache open_file run_loader default_audit_libstr default_subaudit_libstr.

(** What is kept about a library is what is in its file, or that it could not be read. *)
Definition entry_true (path : bytes) (e : lib_entry) : Prop :=
  match parse_dso (open_file path) with
  | Some (Bad _ ldso) => e = mk_lib path ldso (-1) (-1)
  | Some (Dso tls_size tls_align _ ldso) => e = mk_lib path ldso tls_size tls_align
  | _ => False
  end.
Definition libraries_true (st : tables) : Prop := ∀ path e, library_hash_lookup st path = Some e → entry_true path e.

Lemma no_tables_true : libraries_true no_tables.
Proof. intros path e H. unfold library_hash_lookup, chain, no_tables in H. cbn [libraries] in H. rewrite lookup_empty in H. discriminate. Qed.

Lemma add_true st path e : libraries_true st → lib_path e = path → entry_true path e → libraries_true (library_hash_add st e).
Proof. intros H Hp He path' e'. rewrite library_lookup_add. case_bool_decide; [intros [= <-]; congruence | apply H]. Qed.

Lemma size_true st path wants scripts st' r : libraries_true st → size_for_dso st path wants scripts = Some (st', r) → libraries_true st'.
Proof.
  unfold size_for_dso, static_tls_size_for_dso. intros H. destruct (library_hash_lookup st path); [by intros [= <- <-]|].
  destruct (parse_dso (open_file path)) as [d|] eqn:Hd; [|done]. cbn [mbind option_bind].
  assert (∀ e, lib_path e = path → entry_true path e → libraries_true (library_hash_add st e)) as Ha by (intros; by eapply add_true).
  destruct d; [by intros [= <- <-] | | destruct scripts; [by intros [= <- <-] | done] |];
    (case_match; [done|]); intros [= <- <-]; (apply Ha; [done|]); unfold entry_true; rewrite Hd; reflexivity.
Qed.

Lemma executables_true st st' : libraries st' = libraries st → libraries_true st → libraries_true st'.
Proof. intros E H path e He. apply H. unfold library_hash_lookup in *. rewrite <- E. exact He. Qed.
Lemma executable_set_true st info sz al : libraries_true st → libraries_true (executable_set st info sz al).
Proof. apply executables_true. unfold executable_set. destruct (executable_hash_lookup st info); reflexivity. Qed.

Lemma libraries_added_true libs st acc st' r : libraries_true st → add_libraries open_file st libs acc = Some (st', r) → libraries_true st'.
Proof.
  revert st acc. induction libs as [|p libs IH]; intros st acc H; cbn [add_libraries]; [by intros [= <- <-]|].
  destruct (static_tls_size_for_dso open_file st p false false) as [[st1 d]|] eqn:Hd; [|done]. cbn [mbind option_bind].
  pose proof (size_true _ _ _ _ _ _ H Hd) as H1.
  destruct d; [by eapply IH.. |]. destruct (add_tls_sizes acc _ _); [|done]. by eapply IH.
Qed.

(** Every calculation, of whatever program, keeps the tables true. *)
Section step_true.
  Variable rec : tables → static_tls_info_t → option bytes → calc_result.
  Hypothesis rec_true : ∀ st info i st' r, libraries_true st → rec st info i = Some (st', r) → libraries_true st'.

Lemma audit_lib_true st l interp st' r : libraries_true st → audit_lib rec st l interp = Some (st', r) → libraries_true st'.
Proof.
  intros H. unfold audit_lib, calc_static_tls_for_executable_w_interp. destruct l as [[|c s]|]; [by intros [= <- <-] | | by intros [= <- <-]].
  destruct (rec _ _ _) as [[st1 r1]|] eqn:E; [|done]. cbn [mbind option_bind]. destruct (settle r1) as [? [? ?]]. intros [= <- <-].
  apply executable_set_true. by eapply rec_true.
Qed.
Lemma add_audit_true st use_interp interp acc st' r : libraries_true st →
  add_audit default_audit_libstr default_subaudit_libstr rec st use_interp interp acc = Some (st', r) → libraries_true st'.
Proof.
  intros H. unfold add_audit, calc_static_tls_for_audit_client. destruct use_interp; [by intros [= <- <-]|].
  destruct (negb _); cbn [mbind option_bind].
  { destruct (audit_cache st). destruct (add_tls_sizes _ _ _); [by intros [= <- <-] | done]. }
  destruct (audit_lib rec st _ _) as [[st1 [r1 [s1 a1]]]|] eqn:E1; [|done]. cbn [mbind option_bind].
  destruct (audit_lib rec st1 _ _) as [[st2 [r2 [s2 a2]]]|] eqn:E2; [|done]. cbn [mbind option_bind].
  assert (libraries_true st2) as H2 by (eapply audit_lib_true; [eapply audit_lib_true |]; done).
  destruct (_ && _); cbn [mbind option_bind]; [by intros [= <- <-]|]. destruct (add_tls_sizes _ _ _); [by intros [= <- <-] | done].
Qed.
Lemma script_true st info line st' r : libraries_true st → handle_script rec st info line = Some (st', r) → libraries_true st'.
Proof.
  intros H. unfold handle_script. destruct line; [by intros [= <- <-]|]. destruct (static_tls_info_lookup _ _); [by intros [= <- <-]|].
  destruct (rec _ _ _) as [[st1 [[? [? ?]]|]]|] eqn:E; [| done..]. intros [= <- <-]. eapply (executables_true st1); [done|]. by eapply rec_true.
Qed.
Lemma body_true st info use_interp st' r : libraries_true st →
  nocache_body open_file run_loader default_audit_libstr default_subaudit_libstr rec st info use_interp = Some (st', r) → libraries_true st'.
Proof.
  intros H. unfold nocache_body. destruct (executable info); [|done]. cbn [mbind option_bind].
  destruct (static_tls_size_for_dso _ _ _ _ _) as [[st1 d]|] eqn:Hd; [|done]. cbn [mbind option_bind].
  pose proof (size_true _ _ _ _ _ _ H Hd) as H1. destruct d as [|line|sz al interp]; [by intros [= <- <-] | by apply script_true |].
  destruct (match use_interp with Some _ => _ | None => _ end); [|by intros [= <- <-]]. destruct (add_tls_sizes _ _ _); [|done]. cbn [mbind option_bind].
  destruct (add_audit _ _ _ _ _ _ _) as [[st2 acc]|] eqn:E; [|done]. cbn [mbind option_bind]. apply add_audit_true in E; [|done].
  destruct (get_libraries _ _ _) as [[|lib libs]|]; [by intros [= <- <-] | | done]. cbn [mbind option_bind].
  destruct (add_libraries _ _ _ _) as [[st3 [? ?]]|] eqn:E3; [|done]. cbn [mbind option_bind]. intros [= <- <-]. by eapply libraries_added_true.
Qed.
End step_true.

Lemma nocache_true fuel st info use_interp st' r : libraries_true st → nocache fuel st info use_interp = Some (st', r) → libraries_true st'.
Proof.
  unfold nocache. revert st info use_interp st' r. induction fuel as [|fuel IH]; intros st info use_interp st' r; [done|].
  apply body_true. exact IH.
Qed.

(** The tables always say what the files say: however many programs and libraries were asked about, scripts, failures and the client's libraries included,
    each entry for a library has the size, the alignment and the interpreter of its file, or -1 when the file cannot be read as a shared object. *)
Theorem library_table_true fuel st info st' result size align : libraries_true st →
  calc_static_tls_for_executable open_file run_loader default_audit_libstr default_subaudit_libstr fuel st info = Some (st', result, size, align) → libraries_true st'.
Proof.
  unfold calc_static_tls_for_executable. intros H. destruct (calc_static_tls_for_executable_nocache _ _ _ _ _ _ _ _) as [[st1 r]|] eqn:E; [|done].
  cbn [mbind option_bind]. destruct (settle r) as [? [? ?]]. intros [= <- <- <- <-]. apply executable_set_true. by eapply nocache_true.
Qed.

(** *** The total *)

Definition dso_of (path : bytes) (m : Z * Z) : Prop := ∃ interp_size ldso, parse_dso (open_file path) = Some (Dso (fst m) (snd m) interp_size ldso).

Lemma good_found st path wants scripts sz al isz ldso : libraries_true st → parse_dso (open_file path) = Some (Dso sz al isz ldso) →
  (wants = true → Z.of_nat (length ldso) < isz <= MAX_PATH_LEN) →
  ∃ st', size_for_dso st path wants scripts = Some (st', Found sz al ldso) ∧ libraries_true st' ∧ audit_cache st' = audit_cache st ∧ executables st' = executables st.
Proof.
  intros H Hd Hw. unfold size_for_dso, static_tls_size_for_dso. destruct (library_hash_lookup st path) as [e|] eqn:He.
  - specialize (H _ _ He) as Ht. unfold entry_true in Ht. rewrite Hd in Ht. subst e. by eexists.
  - rewrite Hd. cbn [mbind option_bind].
    destruct wants; cbn [andb]; [specialize (Hw eq_refl); rewrite (proj2 (Z.ltb_ge _ _)), (proj2 (Z.eqb_neq _ _)) by lia; cbn [orb andb]|];
      (eexists; split; [reflexivity|]; split; [|done]; apply (add_true st path); [done | done |]; unfold entry_true; rewrite Hd; reflexivity).
Qed.

Lemma add64_ok a b : - 2 ^ 63 <= a + b < 2 ^ 63 → add64 a b = Some (a + b).
Proof. intros. unfold add64. rewrite (proj2 (Z.leb_le _ _)), (proj2 (Z.ltb_lt _ _)) by lia. reflexivity. Qed.
Lemma add_sizes_ok a m sz al : 0 <= a → 0 <= sz → 0 <= al → a + sz + al < 2 ^ 63 → add_tls_sizes (a, m) sz al = Some (a + sz + al, Z.max m al).
Proof.
  intros. unfold add_tls_sizes. rewrite add64_ok by lia. cbn [mbind option_bind]. rewrite add64_ok by lia. cbn [mbind option_bind].
  do 2 f_equal. destruct (Z.ltb_spec m al); lia.
Qed.

Lemma libraries_sum libs mods st a m : libraries_true st → Forall2 dso_of libs mods → Forall block_ok mods → 0 <= a → a + tls_sum mods < 2 ^ 63 →
  ∃ st', add_libraries open_file st libs (a, m) = Some (st', (a + tls_sum mods, tls_max mods m)) ∧ libraries_true st'.
Proof.
  intros H HF. revert st a m H. induction HF as [|p [sz al] libs mods (isz & ldso & Hd) _ IH]; intros st a m H Hb Ha Hs.
  { exists st. cbn [add_libraries tls_sum tls_max fold_right fold_left]. by rewrite Z.add_0_r. }
  apply Forall_cons in Hb as [[Hb1 Hb2] Hb]. cbn [fst snd] in *. cbn [tls_sum fold_right] in *. fold (tls_sum mods) in *. pose proof (tls_sum_nonneg _ Hb).
  destruct (good_found st p false false sz al isz ldso H Hd ltac:(done)) as (st1 & E1 & H1 & _). unfold size_for_dso in E1.
  destruct (IH st1 (a + sz + al) (Z.max m al)) as (st2 & E2 & H2); [done | done | lia | lia |].
  exists st2. split; [|done]. cbn [add_libraries]. rewrite E1. cbn [mbind option_bind]. rewrite add_sizes_ok by lia. cbn [mbind option_bind]. rewrite E2.
  do 3 f_equal. lia.
Qed.

(** A program that the loader can start, with the modules that it starts with: itself, the client's library and what the loader lists. *)
Record runs (st : tables) (info : static_tls_info_t) (modules : list (Z * Z)) : Prop := {
  r_true : libraries_true st;
  r_known : fst (audit_cache st) ≠ -2;
  r_modules : ∃ exe m isz ldso libs mods, executable info = Some exe ∧
    parse_dso (open_file (path_of_executable info exe)) = Some (Dso (fst m) (snd m) isz ldso) ∧ ldso ≠ [] ∧ Z.of_nat (length ldso) < isz <= MAX_PATH_LEN ∧
    get_libraries run_loader info ldso = Some libs ∧ libs ≠ [] ∧ Forall2 dso_of libs mods ∧ modules = m :: audit_cache st :: mods;
  r_blocks : Forall block_ok modules;
  r_small : tls_sum modules < 2 ^ 31;
}.

Lemma total_found fuel st info modules : runs st info modules →
  ∃ st', nocache (S fuel) st info None = Some (st', Some (tls_sum modules, (tls_sum modules, tls_max modules 0))) ∧ libraries_true st'.
Proof.
  intros [Ht Hk (exe & [sz al] & isz & ldso & libs & mods & He & Hd & Hne & Hlen & Hl & Hl0 & HF & ->) Hb Hs]. cbn [fst snd] in *.
  destruct (audit_cache st) as [asz aal] eqn:Ha. cbn [fst] in Hk.
  apply Forall_cons in Hb as [[Hb1 Hb2] Hb]. apply Forall_cons in Hb as [[Hb3 Hb4] Hb]. cbn [fst snd] in *. cbn [tls_sum fold_right] in *. fold (tls_sum mods) in *. pose proof (tls_sum_nonneg _ Hb).
  destruct (good_found st (path_of_executable info exe) true true sz al isz ldso Ht Hd ltac:(done)) as (st1 & E1 & H1 & E1a & _). unfold size_for_dso in E1.
  destruct (libraries_sum libs mods st1 (sz + al + asz + aal) (Z.max (Z.max 0 al) aal) H1 HF Hb) as (st2 & E2 & H2); [lia..|].
  exists st2. split; [|done]. unfold nocache. cbn [calc_static_tls_for_executable_nocache]. unfold nocache_body. rewrite He. cbn [mbind option_bind].
  rewrite E1. cbn [mbind option_bind]. destruct ldso as [|c ldso]; [done|]. rewrite add_sizes_ok by lia. cbn [mbind option_bind].
  unfold add_audit, calc_static_tls_for_audit_client. rewrite E1a, Ha. cbn [fst]. rewrite (proj2 (Z.eqb_neq _ _) Hk). cbn [negb mbind option_bind].
  rewrite add_sizes_ok by lia. cbn [mbind option_bind]. rewrite Hl. cbn [mbind option_bind]. destruct libs as [|p libs]; [done|].
  replace (0 + sz + al + asz + aal) with (sz + al + asz + aal) by lia. rewrite E2. cbn [mbind option_bind].
  rewrite to_signed_id by lia. replace (sz + al + asz + aal + tls_sum mods) with (sz + al + (asz + aal + tls_sum mods)) by lia. reflexivity.
Qed.


(** *** What goes wrong *)

(** A library that could not be read is in the table from then on, and each program that lists it later is given two bytes less. *)
Lemma bad_library_counts st path isz ldso a m libs : libraries_true st → parse_dso (open_file path) = Some (Bad isz ldso) → library_hash_lookup st path ≠ None → 2 <= a < 2 ^ 63 → 0 <= m →
  add_libraries open_file st (path :: libs) (a, m) = add_libraries open_file st libs (a - 2, m).
Proof.
  intros H Hd Hl Ha Hm. cbn [add_libraries]. unfold static_tls_size_for_dso. destruct (library_hash_lookup st path) as [e|] eqn:He; [|done].
  specialize (H _ _ He). unfold entry_true in H. rewrite Hd in H. subst e. cbn [mbind option_bind lib_tls lib_align].
  unfold add_tls_sizes. rewrite add64_ok by lia. cbn [mbind option_bind]. rewrite add64_ok by lia. cbn [mbind option_bind].
  rewrite (proj2 (Z.ltb_ge _ _)) by lia. do 2 f_equal. lia.
Qed.

(** The program is a script. *)
Lemma script_read rec st info exe line : executable info = Some exe → path_component info = None → open_file exe = Some (lit "#!" ++ line) → libraries_true st →
  nocache_body open_file run_loader default_audit_libstr default_subaudit_libstr rec st info None = handle_script rec st info line.
Proof.
  intros He Hp Ho Ht. assert (parse_dso (open_file exe) = Some (Script line)) as Hd by (rewrite Ho; reflexivity).
  unfold nocache_body. rewrite He. cbn [mbind option_bind]. unfold path_of_executable. rewrite Hp.
  unfold static_tls_size_for_dso. destruct (library_hash_lookup st exe) as [e|] eqn:El.
  { specialize (Ht _ _ El). unfold entry_true in Ht. rewrite Hd in Ht. done. }
  rewrite Hd. reflexivity.
Qed.

(** A script that is its own interpreter: the calls never come to an end. *)
Lemma own_interpreter_loops info exe line fuel st : executable info = Some exe → path_component info = None →
  open_file exe = Some (lit "#!" ++ line) → line ≠ [] → script_interp line = exe → libraries_true st → static_tls_info_lookup st info = None →
  nocache fuel st info None = None.
Proof.
  intros He Hp Ho Hl Hs. unfold nocache. revert st. induction fuel as [|fuel IH]; intros st Ht Hk; [reflexivity|].
  cbn [calc_static_tls_for_executable_nocache]. rewrite (script_read _ _ _ _ _ He Hp Ho Ht). unfold handle_script. destruct line as [|c line]; [done|].
  assert (with_executable info (script_interp (c :: line)) = info) as -> by (rewrite Hs; destruct info; cbn in He |- *; rewrite He; reflexivity).
  rewrite Hk, IH by done. reflexivity.
Qed.

(** A script whose interpreter is not there: the sizes that are kept for it were never set. *)
Lemma script_without_interpreter st info exe line : executable info = Some exe → path_component info = None →
  open_file exe = Some (lit "#!" ++ line) → line ≠ [] → open_file (script_interp line) = None → libraries_true st → library_hash_lookup st (script_interp line) = None →
  static_tls_info_lookup st (with_executable info (script_interp line)) = None →
  ∀ fuel, nocache fuel st info None = None.
Proof.
  intros He Hp Ho Hl Hi Ht Eli Hk [|[|fuel]]; unfold nocache; cbn [calc_static_tls_for_executable_nocache]; [reflexivity|..];
    rewrite (script_read _ _ _ _ _ He Hp Ho Ht); unfold handle_script; (destruct line as [|c line]; [done|]); rewrite Hk; [reflexivity|].
  unfold nocache_body, path_of_executable, static_tls_size_for_dso, with_executable. cbn [executable path_component mbind option_bind]. rewrite Hp, Eli, Hi. reflexivity.
Qed.

(** *** Numbers that fit *)

Definition in_range (v : Z * Z) : Prop := - 2 ^ 63 <= fst v < 2 ^ 63 ∧ - 2 ^ 63 <= snd v < 2 ^ 63.
(** A total with its alignment. *)
Definition good (v : Z * Z) : Prop := in_range v ∧ 0 <= snd v.
Record values_ok (st : tables) : Prop := {
  vo_true : libraries_true st;
  vo_audit : in_range (audit_cache st);
  vo_exe info e : executable_hash_lookup st info = Some e → (exe_tls e, exe_align e) = (-1, -1) ∨ good (exe_tls e, exe_align e);
}.
Definition good_result (r : option (Z * (Z * Z))) : Prop := ∀ c v, r = Some (c, v) → good v.

Lemma no_tables_ok : values_ok no_tables.
Proof.
  split; [apply no_tables_true | vm_compute; repeat split; discriminate|]. intros info e.
  unfold executable_hash_lookup, chain, no_tables. cbn [executables]. by rewrite lookup_empty.
Qed.
Lemma lookup_good st info v : values_ok st → static_tls_info_lookup st info = Some v → good v.
Proof.
  intros H. unfold static_tls_info_lookup. destruct (executable_hash_lookup st info) as [e|] eqn:E; [|done]. cbn [mbind option_bind].
  destruct (vo_exe _ H _ _ E) as [Hb | Hg]; [injection Hb as -> ->; done|]. case_match; [done | by intros [= <-]].
Qed.

Lemma parse_range file sz al isz ldso : parse_dso file = Some (Dso sz al isz ldso) → in_range (sz, al).
Proof.
  assert (∀ f h, finish_dso f h = Some (Dso sz al isz ldso) → in_range (sz, al)) as Hf.
  { intros f h. unfold finish_dso. destruct (h_dynamic h) as [doff dsz], (h_interp h) as [ioff isz0].
    repeat first [case_match; try done | destruct (interp_string _ _ _); cbn [mbind option_bind]; try done | destruct (scan_dynamic _ _ _); cbn [mbind option_bind]; try done];
      intros [= <- <- _ _]; split; apply (to_signed_range 64); done. }
  unfold parse_dso. destruct file as [f|]; [|done]. repeat (case_match; [done|]). destruct (scan_phdrs _ _ _ _); [|done]. apply Hf.
Qed.

Lemma size_ok st path wants scripts st' sz al interp : values_ok st → size_for_dso st path wants scripts = Some (st', Found sz al interp) → in_range (sz, al).
Proof.
  intros H E. assert (entry_true path (mk_lib path interp sz al)) as Ht.
  { revert E. unfold size_for_dso, static_tls_size_for_dso. destruct (library_hash_lookup st path) as [e|] eqn:El.
    - intros [= _ <- <- <-]. pose proof (vo_true _ H _ _ El) as Ht. unfold entry_true in *. destruct (parse_dso (open_file path)) as [[]|]; try done; by subst e.
    - unfold entry_true. destruct (parse_dso (open_file path)) as [[]|]; try done; cbn [mbind option_bind]; [by case_match | by destruct scripts | case_match; [done|]; by intros [= _ <- <- <-]]. }
  unfold entry_true in Ht. destruct (parse_dso (open_file path)) as [[|? ?| |]|] eqn:Ep; try done.
  - injection Ht as -> -> ->. vm_compute. repeat split; discriminate.
  - injection Ht as -> -> ->. by eapply parse_range.
Qed.
Lemma size_keeps st path wants scripts st' r : values_ok st → size_for_dso st path wants scripts = Some (st', r) → values_ok st'.
Proof.
  intros [H1 H2 H3] E. assert (audit_cache st' = audit_cache st ∧ executables st' = executables st) as [E1 E2].
  { revert E. unfold size_for_dso, static_tls_size_for_dso. destruct (library_hash_lookup st path); [by intros [= <- <-]|].
    destruct (parse_dso (open_file path)) as [[]|]; cbn [mbind option_bind]; try done; repeat (case_match; try done); by intros [= <- <-]. }
  split; [by eapply size_true | by rewrite E1 |]. intros info e. unfold executable_hash_lookup. rewrite E2. apply H3.
Qed.

Lemma add_sizes_range acc sz al acc' : good acc → in_range (sz, al) → add_tls_sizes acc sz al = Some acc' → good acc'.
Proof.
  destruct acc as [t m]. intros [[? ?] ?] [? ?]. cbn [fst snd] in *. unfold add_tls_sizes, add64. cbn [mbind option_bind].
  destruct (_ && _); [|done]. cbn [mbind option_bind]. destruct (_ && _) eqn:E; [|done]. cbn [mbind option_bind]. intros [= <-].
  apply andb_true_iff in E as [?%Z.leb_le ?%Z.ltb_lt]. unfold good, in_range. cbn [fst snd]. destruct (Z.ltb_spec m al); lia.
Qed.
Lemma add_libraries_ok libs st acc st' r : values_ok st → good acc → add_libraries open_file st libs acc = Some (st', r) → values_ok st' ∧ good r.
Proof.
  revert st acc. induction libs as [|p libs IH]; intros st acc H Hg; cbn [add_libraries]; [by intros [= <- <-]|].
  destruct (static_tls_size_for_dso open_file st p false false) as [[st1 d]|] eqn:Hd; [|done]. cbn [mbind option_bind]. pose proof (size_keeps _ _ _ _ _ _ H Hd) as H1.
  destruct d as [| |sz al i]; [by apply IH | by apply IH |]. destruct (add_tls_sizes acc sz al) as [acc'|] eqn:Ha; [|done]. cbn [mbind option_bind].
  apply IH; [done|]. eapply add_sizes_range; [exact Hg | exact (size_ok _ _ _ _ _ _ _ _ H Hd) | exact Ha].
Qed.

Lemma set_ok st info sz al : values_ok st → (sz, al) = (-1, -1) ∨ good (sz, al) → values_ok (executable_set st info sz al).
Proof.
  intros [H1 H2 H3] Hv. split; [by apply executable_set_true | unfold executable_set; by case_match |]. intros info' e He.
  pose proof (lookup_set st info sz al info') as Hl. rewrite He in Hl. cbn in Hl. case_bool_decide; [injection Hl as -> ->; exact Hv|].
  destruct (executable_hash_lookup st info') as [e'|] eqn:E'; [|done]. cbn in Hl. injection Hl as -> ->. by eapply H3.
Qed.
Lemma settle_ok r c v : good_result r → settle r = (c, v) → v = (-1, -1) ∨ good v.
Proof. intros H. unfold settle. destruct r as [[c' v']|]; [|intros [= <- <-]; by left]. case_match; intros [= <- <-]; [by left | right; by eapply H]. Qed.
Lemma good_zero : good (0, 0).
Proof. vm_compute. repeat split; discriminate. Qed.
Lemma bad_range v : v = (-1, -1) ∨ good v → in_range v.
Proof. intros [-> | [? _]]; [vm_compute; repeat split; discriminate | done]. Qed.

Section step_ok.
  Variable rec : tables → static_tls_info_t → option bytes → calc_result.
  Hypothesis rec_ok : ∀ st info i st' r, values_ok st → rec st info i = Some (st', r) → values_ok st' ∧ good_result r.

Lemma audit_lib_ok st l interp st' c v : values_ok st → audit_lib rec st l interp = Some (st', (c, v)) → values_ok st' ∧ (v = (-1, -1) ∨ good v).
Proof.
  intros H. unfold audit_lib, calc_static_tls_for_executable_w_interp.
  assert (Some (st, (-1, (0, 0))) = Some (st', (c, v)) → values_ok st' ∧ (v = (-1, -1) ∨ good v)) as H0 by (intros [= <- _ <-]; split; [done | right; exact good_zero]).
  destruct l as [[|a s]|]; [exact H0 | | exact H0]. destruct (rec _ _ _) as [[st1 r1]|] eqn:E; [|done]. cbn [mbind option_bind].
  destruct (rec_ok _ _ _ _ _ H E) as [H1 Hr]. destruct (settle r1) as [c' [sz al]] eqn:Es. intros [= <- <- <-]. pose proof (settle_ok _ _ _ Hr Es). split; [by apply set_ok | done].
Qed.
Lemma add_audit_ok st use_interp interp acc st' r : values_ok st → good acc →
  add_audit default_audit_libstr default_subaudit_libstr rec st use_interp interp acc = Some (st', r) → values_ok st' ∧ good r.
Proof.
  intros H Hg. unfold add_audit, calc_static_tls_for_audit_client. destruct use_interp; [by intros [= <- <-]|].
  destruct (negb _); cbn [mbind option_bind].
  { pose proof (vo_audit _ H) as Ha. destruct (audit_cache st) as [asz aal]. destruct (add_tls_sizes acc asz aal) as [acc'|] eqn:E; [|done]. intros [= <- <-]. split; [done | by eapply add_sizes_range]. }
  destruct (audit_lib rec st _ _) as [[st1 [r1 [s1 a1]]]|] eqn:E1; [|done]. cbn [mbind option_bind]. destruct (audit_lib_ok _ _ _ _ _ _ H E1) as [H1 V1%bad_range].
  destruct (audit_lib rec st1 _ _) as [[st2 [r2 [s2 a2]]]|] eqn:E2; [|done]. cbn [mbind option_bind]. destruct (audit_lib_ok _ _ _ _ _ _ H1 E2) as [[T2 A2 X2] V2%bad_range].
  assert (∀ a b, in_range (a, b) → values_ok (set_audit st2 a b)) as Hset by (intros; split; [by eapply (executables_true st2) | done | exact X2]).
  destruct (_ && _); cbn [mbind option_bind].
  - intros [= <- <-]. split; [|done]. apply Hset. vm_compute. repeat split; discriminate.
  - destruct (add_tls_sizes acc 0 0) as [acc'|] eqn:E; [|done]. intros [= <- <-]. split; [|eapply add_sizes_range; [exact Hg | apply good_zero | exact E]].
    apply Hset. unfold in_range in *. cbn [fst snd] in *. lia.
Qed.
Lemma body_ok st info use_interp st' r : values_ok st →
  nocache_body open_file run_loader default_audit_libstr default_subaudit_libstr rec st info use_interp = Some (st', r) → values_ok st' ∧ good_result r.
Proof.
  intros H. unfold nocache_body. destruct (executable info); [|done]. cbn [mbind option_bind].
  destruct (static_tls_size_for_dso _ _ _ _ _) as [[st1 d]|] eqn:Hd; [|done]. cbn [mbind option_bind]. pose proof (size_keeps _ _ _ _ _ _ H Hd) as H1.
  destruct d as [|line|sz al interp]; [by intros [= <- <-] | |].
  - unfold handle_script. destruct line; [by intros [= <- <-]|]. destruct (static_tls_info_lookup _ _) as [v|] eqn:El.
    { intros [= <- <-]. split; [done|]. intros ? ? [= _ <-]. by eapply lookup_good. }
    destruct (rec _ _ _) as [[st2 [[c [sz al]]|]]|] eqn:E; [| done..]. cbn [mbind option_bind]. intros [= <- <-]. destruct (rec_ok _ _ _ _ _ H1 E) as [[T2 A2 X2] Hr].
    specialize (Hr _ _ eq_refl). split; [|by intros ? ? [= _ <-]]. split; [by eapply (executables_true st2) | done |].
    intros info' e. rewrite lookup_add. case_bool_decide; [intros [= <-]; by right | apply X2].
  - destruct (match use_interp with Some _ => _ | None => _ end); [|by intros [= <- <-]]. destruct (add_tls_sizes _ _ _) as [acc|] eqn:Ea; [|done]. cbn [mbind option_bind].
    assert (good acc) as Hg by (eapply add_sizes_range; [apply good_zero | exact (size_ok _ _ _ _ _ _ _ _ H Hd) | exact Ea]).
    destruct (add_audit _ _ _ _ _ _ _) as [[st2 acc2]|] eqn:E; [|done]. cbn [mbind option_bind]. destruct (add_audit_ok _ _ _ _ _ _ H1 Hg E) as [H2 Hg2].
    destruct (get_libraries _ _ _) as [[|lib libs]|]; [by intros [= <- <-] | | done]. cbn [mbind option_bind].
    destruct (add_libraries _ _ _ _) as [[st3 [sz3 al3]]|] eqn:E3; [|done]. cbn [mbind option_bind]. destruct (add_libraries_ok _ _ _ _ _ H2 Hg2 E3) as [H3 Hg3].
    intros [= <- <-]. split; [done|]. by intros ? ? [= _ <-].
Qed.
End step_ok.

Lemma nocache_ok fuel st info use_interp st' r : values_ok st → nocache fuel st info use_interp = Some (st', r) → values_ok st' ∧ good_result r.
Proof. unfold nocache. revert st info use_interp st' r. induction fuel as [|fuel IH]; intros st info use_interp st' r; [done|]. apply body_ok. exact IH. Qed.

(** What the root answers fits a message, and is never the pair of a failure. *)
Lemma calculated_good fuel st info st' v : values_ok st →
  handle_calculate_total_static_tls_needed open_file run_loader default_audit_libstr default_subaudit_libstr fuel st info = Some (st', v) → values_ok st' ∧ good v.
Proof.
  intros H. unfold handle_calculate_total_static_tls_needed, calc_static_tls_for_executable.
  destruct (calc_static_tls_for_executable_nocache _ _ _ _ _ _ _ _) as [[st1 r]|] eqn:E; [|done]. cbn [mbind option_bind].
  destruct (nocache_ok _ _ _ _ _ _ H E) as [H1 Hr]. destruct (settle r) as [c [sz al]] eqn:Es. cbn [mbind option_bind]. pose proof (settle_ok _ _ _ Hr Es) as Hv.
  destruct (Z.eqb_spec c (-1)); [intros [= <- <-]; split; [by apply set_ok | exact good_zero]|].
  destruct (al =? 0); [done|]. cbn [mbind option_bind]. intros [= <- <-]. split; [by apply set_ok|].
  revert Es. unfold settle. destruct r as [[c' v']|]; [|congruence]. case_match; [congruence|]. intros [= -> ->]. by eapply Hr.
Qed.
End facts.

(** ** Examples *)

Definition zeros (n : nat) : bytes := repeat NUL n.
Definition demo_phdr (ty off filesz memsz align : Z) : bytes :=
  le_encode 4 ty ++ zeros 4 ++ le_encode 8 off ++ zeros 16 ++ le_encode 8 filesz ++ le_encode 8 memsz ++ le_encode 8 align.
Definition demo_elf (size align : Z) (interp : bytes) : bytes :=
  let n := Z.of_nat (length interp) + 1 in
  (byte_of 127 :: lit "ELF") ++ zeros 28 ++ le_encode 8 64 ++ zeros 14 ++ le_encode 2 56 ++ le_encode 2 3 ++ zeros 6 ++
  demo_phdr PT_TLS 0 0 size align ++ demo_phdr PT_INTERP 232 n 0 0 ++ demo_phdr PT_DYNAMIC (232 + n) 16 0 0 ++ interp ++ [NUL] ++ zeros 16.

Lemma dso_tls_found_witness : dso_file (demo_elf 24 8 (lit "/ld.so")) ∧ parse_dso (Some (demo_elf 24 8 (lit "/ld.so"))) = Some (Dso 24 8 7 (lit "/ld.so")).
Proof.
  assert (dso_file (demo_elf 24 8 (lit "/ld.so"))) as H.
  { split.
    - vm_compute. split; [discriminate | reflexivity].
    - vm_compute. reflexivity.
    - vm_compute. reflexivity.
    - vm_compute. discriminate.
    - exists (mk_phdr PT_DYNAMIC 239 16 0 0), 0%nat. vm_compute. repeat split; discriminate.
    - intros p Hp. vm_compute in Hp. injection Hp as <-. vm_compute. repeat split; discriminate. }
  split; [exact H|]. rewrite (dso_tls_found _ H). vm_compute. reflexivity.
Defined.

(** A machine with a program, a C library, an interpreter and the client's library. *)
Definition demo_files (path : bytes) : option bytes :=
  if bool_decide (path = lit "/bin/app") then Some (demo_elf 16 8 (lit "/ld.so"))
  else if bool_decide (path = lit "/lib/libc.so") then Some (demo_elf 100 16 (lit "/ld.so"))
  else if bool_decide (path = lit "/lib/audit.so") then Some (demo_elf 40 4 (lit "/ld.so"))
  else None.
Definition demo_loader (c : loader_call) : option (list bytes) :=
  Some [loader_line None (lit "linux-vdso.so.1") (lit "0x1"); loader_line (Some (lit "libc.so")) (lit "/lib/libc.so") (lit "0x2")].
Definition quiet_loader (c : loader_call) : option (list bytes) := Some [loader_line (Some (lit "libc.so")) (lit "/lib/libc.so") (lit "0x2")].
Definition demo_info : static_tls_info_t := mk_static_tls_info (Some (lit "/bin/app")) None None None None.


Lemma library_table_true_witness : ∃ st' result size align,
  calc_static_tls_for_executable demo_files demo_loader (Some (lit "/lib/audit.so")) None 3 no_tables demo_info = Some (st', result, size, align) ∧ libraries_true demo_files st'.
Proof.
  destruct (calc_static_tls_for_executable demo_files demo_loader (Some (lit "/lib/audit.so")) None 3 no_tables demo_info) as [[[[st' result] size] align]|] eqn:E.
  - exists st', result, size, align. split; [reflexivity|]. exact (library_table_true demo_files demo_loader (Some (lit "/lib/audit.so")) None 3 no_tables demo_info st' result size align (no_tables_true demo_files) E).
  - exfalso. vm_compute in E. discriminate.
Defined.

Definition sizes_of (r : option (tables * Z * Z * option Z)) : option (Z * option Z) := '(_, _, size, align) ← r; Some (size, align).
Definition demo_calc (st : tables) : option (tables * Z * Z * option Z) := calc_static_tls_for_executable demo_files demo_loader (Some (lit "/lib/audit.so")) None 3 st demo_info.
(** Asked twice about the same program, with a library in the list that has no file: the first answer has nothing for the client's library, and already
    two bytes less than the 140 that the files ask for, as the list of the client's library was read before. *)
Lemma answers_differ : sizes_of (demo_calc no_tables) = Some (138, Some 16) ∧ sizes_of ('(st, _, _, _) ← demo_calc no_tables; demo_calc st) = Some (314, Some 16).
Proof. split; vm_compute; reflexivity. Qed.
End TlsCalc.
