(* ===== verification/Sheep.v ===== *)
(** * The shared heap

    [sheep.c]: malloc and free in memory that is shared between processes.  The
    heap is a sequence of blocks, each with a header that links it to the block
    before it and, when it is free, to the free blocks around it; links are offsets
    from the start of the heap.

    The model keeps the headers, by their offset, with the fields as the code packs
    them; a header that was never written cannot be read.  Offset 0 is both
    [HEAP_NULL] and the first header.  The theorems relate the linked headers to the
    list of blocks that they stand for. *)

From Stdlib Require Import ZArith Lia.
From stdpp Require Import numbers gmap list.
From S2P Require Import Prelude Bytes.

Module Sheep.

(** ** Headers *)

Record block_prefix_t := mk_block {
  prev_block : Z;
  next_free : Z;
  prev_free : Z;
  size : Z;
}.

Record sheep := mk_sheep {
  mem : gmap Z block_prefix_t;
  heap_size : Z;
  first_fit : bool;
}.

Definition HEAP_NULL : Z := 0.
Definition head_block : Z := 0.
(** [sizeof (heap_header_t)] and [sizeof (block_prefix_t)] *)
Definition HEADER : Z := 32.
Definition PREFIX : Z := 16.

Definition PTR (x : Z) : Z := Z.shiftl x 3.
Definition VAL (v : Z) : Z := wrap32 (Z.shiftr v 3).
Definition IS_ALLOC (b : block_prefix_t) : bool := Z.testbit (size b) 0.
Definition IS_FREE (b : block_prefix_t) : bool := negb (IS_ALLOC b).
Definition SIZE (b : block_prefix_t) : Z := Z.shiftl (Z.ldiff (size b) 1) 2.

Definition set_size (z : Z) (b : block_prefix_t) : block_prefix_t :=
  mk_block (prev_block b) (next_free b) (prev_free b) z.
Definition SET_ALLOC (b : block_prefix_t) : block_prefix_t := set_size (Z.lor (size b) 1) b.
Definition SET_FREE (b : block_prefix_t) : block_prefix_t := set_size (Z.ldiff (size b) 1) b.
Definition SET_PREV_BLOCK (v : Z) (b : block_prefix_t) : block_prefix_t :=
  mk_block (VAL v) (next_free b) (prev_free b) (size b).
Definition SET_NEXT_FREE (v : Z) (b : block_prefix_t) : block_prefix_t :=
  mk_block (prev_block b) (VAL v) (prev_free b) (size b).
Definition SET_PREV_FREE (v : Z) (b : block_prefix_t) : block_prefix_t :=
  mk_block (prev_block b) (next_free b) (VAL v) (size b).
Definition SET_SIZE (v : Z) (b : block_prefix_t) : block_prefix_t :=
  set_size (wrap32 (Z.lor (Z.land (size b) 1) (Z.shiftr v 2))) b.
Definition CLEAR : block_prefix_t := mk_block 0 0 0 0.

Definition ALIGN8 (x : Z) : Z :=
  if Z.land x 7 =? 0 then x else Z.shiftl (Z.shiftr x 3 + 1) 3.

(** Reading and writing headers. *)
Definition rd (h : sheep) (o : Z) : option block_prefix_t := mem h !! o.
Definition put (h : sheep) (o : Z) (b : block_prefix_t) : sheep :=
  mk_sheep (<[o := b]> (mem h)) (heap_size h) (first_fit h).
Definition wr (h : sheep) (o : Z) (f : block_prefix_t → block_prefix_t) : option sheep :=
  b ← rd h o; Some (put h o (f b)).
(** A write that is skipped for [HEAP_NULL]. *)
Definition wr_unless_null (h : sheep) (o : Z) (f : block_prefix_t → block_prefix_t) : option sheep :=
  if o =? HEAP_NULL then Some h else wr h o f.

Definition NEXT_BLOCK (h : sheep) (o : Z) : option Z :=
  b ← rd h o; Some (if heap_size h <=? SIZE b + o then HEAP_NULL else SIZE b + o).

(** ** Operations *)

Definition init_sheep (sz : Z) (use_first_fit : bool) : option sheep :=
  if (4096 <=? sz) && (sz mod 4096 =? 0) && (sz <? 2 ^ 25) then
    let head := SET_SIZE HEADER (SET_NEXT_FREE HEADER (SET_ALLOC CLEAR)) in
    let first := SET_SIZE (sz - HEADER) (SET_PREV_BLOCK head_block (SET_FREE CLEAR)) in
    Some (mk_sheep {[ head_block := head; HEADER := first ]} sz use_first_fit)
  else None.

Definition min_alloc_size : Z := 24.

(** The loop of [malloc_sheep] over the free blocks: the best block so far, and by how much it
    is too large. *)
Fixpoint find_fit (fuel : nat) (h : sheep) (alloc_size cur : Z) (best : option Z) (best_diff : Z)
    : option (option Z * Z) :=
  if cur =? HEAP_NULL then Some (best, best_diff)
  else match fuel with
  | O => None
  | S fuel' =>
      b ← rd h cur;
      let next := find_fit fuel' h alloc_size (PTR (next_free b)) in
      let cur_size := wrap32 (SIZE b) in
      if cur_size <? alloc_size then next best best_diff
      else
        let diff := cur_size - alloc_size in
        if diff <? best_diff then
          if (diff <? min_alloc_size) || first_fit h then Some (Some cur, diff) else next (Some cur) diff
        else if first_fit h then Some (best, best_diff) else next best best_diff
  end.

(** There are fewer blocks than that. *)
Definition FUEL (h : sheep) : nat := Z.to_nat (heap_size h).

(** The new heap and the pointer; [None] is a failing [assert]. *)
Definition malloc_sheep (h : sheep) (sz : Z) : option (sheep * option Z) :=
  if sz =? 0 then None
  else
    let alloc_size := wrap32 (ALIGN8 (wrap32 (wrap32 sz + PREFIX))) in
    head ← rd h head_block;
    '(best_fit, best_fit_diff) ← find_fit (FUEL h) h alloc_size (PTR (next_free head)) None (2 ^ 32 - 1);
    match best_fit with
    | None => Some (h, None)
    | Some cur =>
        b ← rd h cur;
        if IS_ALLOC b then None
        else
          let pfree := PTR (prev_free b) in
          let nfree := PTR (next_free b) in
          nblock ← NEXT_BLOCK h cur;
          let cur_size := wrap32 (SIZE b) in
          h1 ← wr h cur SET_ALLOC;
          h2 ← wr h1 (if pfree =? HEAP_NULL then head_block else pfree) (SET_NEXT_FREE nfree);
          h3 ← wr_unless_null h2 nfree (SET_PREV_FREE pfree);
          h4 ← wr h3 cur (λ b, SET_PREV_FREE HEAP_NULL (SET_NEXT_FREE HEAP_NULL b));
          if best_fit_diff <? min_alloc_size then Some (h4, Some (cur + PREFIX))
          else
            let new_block := cur + alloc_size in
            let new_size := wrap32 (cur_size - alloc_size) in
            if (min_alloc_size <=? new_size) && (new_size <? heap_size h) && (Z.land new_size 7 =? 0) then
              let nb := SET_SIZE new_size (SET_PREV_FREE pfree (SET_NEXT_FREE nfree (SET_PREV_BLOCK cur (SET_FREE CLEAR)))) in
              let h5 := put h4 new_block nb in
              h6 ← wr h5 cur (SET_SIZE alloc_size);
              h7 ← wr_unless_null h6 nblock (SET_PREV_BLOCK new_block);
              h8 ← wr h7 (if pfree =? HEAP_NULL then head_block else pfree) (SET_NEXT_FREE new_block);
              h9 ← wr_unless_null h8 nfree (SET_PREV_FREE new_block);
              Some (h9, Some (cur + PREFIX))
            else None
    end.

Definition merge_free_blocks (h : sheep) (a b : Z) : option sheep :=
  ba ← rd h a;
  bb ← rd h b;
  let a_size := wrap32 (SIZE ba) in
  b_next_block ← NEXT_BLOCK h b;
  let b_next_free := PTR (next_free bb) in
  let b_size := wrap32 (SIZE bb) in
  h1 ← wr h a (SET_NEXT_FREE b_next_free);
  h2 ← wr_unless_null h1 b_next_block (SET_PREV_BLOCK a);
  h3 ← wr_unless_null h2 b_next_free (SET_PREV_FREE a);
  wr h3 a (SET_SIZE (wrap32 (a_size + b_size))).

(** The first free block at or before [o]. *)
Fixpoint find_prev_free (fuel : nat) (h : sheep) (o : Z) : option Z :=
  if o =? HEAP_NULL then Some HEAP_NULL
  else match fuel with
  | O => None
  | S fuel' =>
      b ← rd h o;
      if IS_ALLOC b then find_prev_free fuel' h (PTR (prev_block b)) else Some o
  end.

(** The loop that joins free blocks. *)
Fixpoint join_free (fuel : nat) (h : sheep) (cur : Z) : option sheep :=
  match fuel with
  | O => None
  | S fuel' =>
      b ← rd h cur;
      let pblock := PTR (prev_block b) in
      pb ← rd h pblock;
      '(h1, cur1) ← (if IS_FREE pb then h' ← merge_free_blocks h pblock cur; Some (h', pblock) else Some (h, cur));
      nblock ← NEXT_BLOCK h1 cur1;
      nb ← rd h1 nblock;
      h2 ← (if IS_FREE nb then merge_free_blocks h1 cur1 nblock else Some h1);
      if IS_FREE pb || IS_FREE nb then join_free fuel' h2 cur1 else Some h2
  end.

Definition free_sheep (h : sheep) (p : Z) : option sheep :=
  let cur := p - PREFIX in
  if negb ((head_block <? cur) && (cur <? heap_size h)) then None
  else
    pfree ← find_prev_free (FUEL h) h cur;
    link ← rd h (if pfree =? HEAP_NULL then head_block else pfree);
    let nfree := PTR (next_free link) in
    if negb (((pfree <? cur) || (pfree =? HEAP_NULL)) && ((cur <? nfree) || (nfree =? HEAP_NULL))) then None
    else
      h1 ← wr h cur SET_FREE;
      h2 ← wr h1 (if pfree =? HEAP_NULL then head_block else pfree) (SET_NEXT_FREE cur);
      h3 ← wr_unless_null h2 nfree (SET_PREV_FREE cur);
      h4 ← wr h3 cur (λ b, SET_PREV_FREE pfree (SET_NEXT_FREE nfree b));
      join_free (FUEL h) h4 cur.

(** [validate_sheep], the test of the whole heap: what it asserts of a block on the walk over all
    blocks, and of a block on the walk over the free list. *)
Definition check_block (h : sheep) (cur : Z) (prev : option Z) : option bool :=
  b ← rd h cur;
  next ← NEXT_BLOCK h cur;
  before ← match prev with
    | Some p =>
        pb ← rd h p;
        p_next ← NEXT_BLOCK h p;
        Some ((p_next =? cur) && (PTR (prev_block b) =? p) && negb (PTR (prev_block b) =? HEAP_NULL) &&
              (IS_ALLOC b || negb (IS_FREE pb)) && (p + SIZE pb =? cur))
    | None => Some (PTR (prev_block b) =? HEAP_NULL)
    end;
  behind ← (if IS_ALLOC b || (next =? HEAP_NULL) then Some true else nb ← rd h next; Some (negb (IS_FREE nb)));
  Some ((0 <=? cur) && (cur <? heap_size h) && before && (SIZE b <? heap_size h) && (min_alloc_size <=? SIZE b) &&
        ((cur <? next) || (next =? HEAP_NULL)) && ((PTR (prev_block b) <? cur) || (PTR (prev_block b) =? HEAP_NULL)) &&
        (if IS_ALLOC b then ((PTR (next_free b) =? HEAP_NULL) || (cur =? head_block)) && (PTR (prev_free b) =? HEAP_NULL) else behind) &&
        ((cur <? PTR (next_free b)) || (PTR (next_free b) =? HEAP_NULL)) &&
        ((PTR (prev_free b) <? cur) || (PTR (prev_free b) =? HEAP_NULL))).

Definition check_free (h : sheep) (cur : Z) (prev : option Z) : option bool :=
  b ← rd h cur;
  before ← match prev with
    | Some p =>
        pb ← rd h p;
        Some ((PTR (next_free pb) =? cur) && (PTR (prev_free b) =? p) && negb (PTR (prev_block b) =? HEAP_NULL))
    | None => Some (PTR (prev_free b) =? HEAP_NULL)
    end;
  Some ((0 <=? cur) && (cur <? heap_size h) && IS_FREE b && before && (SIZE b <? heap_size h) && (min_alloc_size <=? SIZE b) &&
        ((cur <? PTR (next_free b)) || (PTR (next_free b) =? HEAP_NULL)) &&
        ((PTR (prev_free b) <? cur) || (PTR (prev_free b) =? HEAP_NULL))).

(** The walk over the blocks counts the blocks in use and the free ones. *)
Fixpoint validate_blocks (fuel : nat) (h : sheep) (cur : Z) (prev : option Z) (blocks allocations num_frees : Z) : option (Z * Z * Z) :=
  if cur =? HEAP_NULL then Some (blocks, allocations, num_frees)
  else match fuel with
  | O => None
  | S fuel' =>
      ok ← check_block h cur prev;
      b ← rd h cur;
      next ← NEXT_BLOCK h cur;
      if (ok : bool) then validate_blocks fuel' h next (Some cur) (blocks + 1)
        (if IS_ALLOC b then allocations + 1 else allocations) (if IS_ALLOC b then num_frees else num_frees + 1)
      else None
  end.

Fixpoint validate_frees (fuel : nat) (h : sheep) (cur : Z) (prev : option Z) (num_frees2 : Z) : option Z :=
  if cur =? HEAP_NULL then Some num_frees2
  else match fuel with
  | O => None
  | S fuel' =>
      ok ← check_free h cur prev;
      b ← rd h cur;
      if (ok : bool) then validate_frees fuel' h (PTR (next_free b)) (Some cur) (num_frees2 + 1) else None
  end.

(** [false] and [None] are failing [assert]s. *)
Definition validate_sheep (h : sheep) : option bool :=
  first ← NEXT_BLOCK h head_block;
  '(blocks, allocations, num_frees) ← validate_blocks (FUEL h) h first None 0 0 0;
  head ← rd h head_block;
  num_frees2 ← validate_frees (FUEL h) h (PTR (next_free head)) None 0;
  Some ((num_frees =? num_frees2) && (blocks =? allocations + num_frees)).

Definition sheep_alloc_size (sz : Z) : Z :=
  let a := ALIGN8 sz in (if a =? 0 then 8 else a) + PREFIX.

(** ** The fields *)

(** The numbers that fit into the fields. *)
Definition offset_ok (o : Z) : Prop := 0 <= o < 2 ^ 25 ∧ o mod 8 = 0.

Lemma VAL_div o : 0 <= o < 2 ^ 25 → VAL o = o / 8.
Proof.
  intros H. unfold VAL, wrap32. rewrite Z.shiftr_div_pow2 by lia. change (2 ^ 3) with 8.
  apply Z.mod_small. split; [apply Z.div_pos; lia|]. apply Z.div_lt_upper_bound; lia.
Qed.

Lemma PTR_VAL o : offset_ok o → PTR (VAL o) = o.
Proof.
  intros [H Hm]. rewrite VAL_div by done. unfold PTR. rewrite Z.shiftl_mul_pow2 by lia. change (2 ^ 3) with 8.
  pose proof (Z.div_mod o 8 ltac:(lia)). lia.
Qed.

(** The size field of a block of [sz] bytes. *)
Definition field (sz : Z) (al : bool) : Z := sz / 4 + (if al then 1 else 0).

Lemma even_quarter sz : sz mod 8 = 0 → ∃ k, sz / 4 = 2 * k ∧ sz = 8 * k.
Proof.
  intros H. exists (sz / 8). pose proof (Z.div_mod sz 8 ltac:(lia)). split; [|lia].
  symmetry. apply (Z.div_unique sz 4 _ 0); lia.
Qed.

Lemma ldiff_one k (al : bool) : Z.ldiff (2 * k + (if al then 1 else 0)) 1 = 2 * k.
Proof.
  apply Z.bits_inj'. intros n Hn. rewrite Z.ldiff_spec. destruct (Z.eq_dec n 0) as [-> | Hne].
  - rewrite Z.testbit_even_0. by rewrite andb_false_r.
  - assert (Z.testbit 1 n = false) as ->.
    { apply Z.bits_above_log2; [lia|]. cbn. lia. }
    rewrite andb_true_r. replace n with (Z.succ (n - 1)) by lia.
    rewrite Z.testbit_even_succ by lia. destruct al.
    + by rewrite Z.testbit_odd_succ by lia.
    + by rewrite Z.add_0_r, Z.testbit_even_succ by lia.
Qed.

Lemma size_field_bit sz al : sz mod 8 = 0 → Z.testbit (field sz al) 0 = al.
Proof.
  intros H. unfold field. destruct (even_quarter sz H) as (k & -> & _). destruct al.
  - apply Z.testbit_odd_0.
  - rewrite Z.add_0_r. apply Z.testbit_even_0.
Qed.

Lemma field_size sz al : sz mod 8 = 0 → Z.shiftl (Z.ldiff (field sz al) 1) 2 = sz.
Proof.
  intros H. unfold field. destruct (even_quarter sz H) as (k & -> & ->). rewrite ldiff_one, Z.shiftl_mul_pow2 by lia.
  change (2 ^ 2) with 4. lia.
Qed.

Lemma field_free sz al : sz mod 8 = 0 → Z.ldiff (field sz al) 1 = field sz false.
Proof. intros H. unfold field. destruct (even_quarter sz H) as (k & -> & _). rewrite ldiff_one. lia. Qed.

Lemma lor_one k : Z.lor (2 * k) 1 = 2 * k + 1.
Proof.
  rewrite <- Z.add_nocarry_lor; [done|]. apply Z.bits_inj'. intros n Hn. rewrite Z.land_spec, Z.bits_0.
  destruct (Z.eq_dec n 0) as [-> | Hne]; [by rewrite Z.testbit_even_0|].
  rewrite (Z.bits_above_log2 1 n) by (cbn; lia). apply andb_false_r.
Qed.

Lemma field_alloc sz al : sz mod 8 = 0 → Z.lor (field sz al) 1 = field sz true.
Proof.
  intros H. unfold field. destruct (even_quarter sz H) as (k & -> & _). destruct al; [|by rewrite Z.add_0_r, lor_one].
  rewrite <- lor_one, <- Z.lor_assoc, Z.lor_diag. done.
Qed.

Lemma field_set sz sz' al : sz mod 8 = 0 → sz' mod 8 = 0 → 0 <= sz' < 2 ^ 25 →
  wrap32 (Z.lor (Z.land (field sz al) 1) (Z.shiftr sz' 2)) = field sz' al.
Proof.
  intros H H' Hr. rewrite Z.shiftr_div_pow2 by lia. change (2 ^ 2) with 4.
  assert (Z.land (field sz al) 1 = if al then 1 else 0) as ->.
  { change 1 with (Z.ones 1). rewrite Z.land_ones by lia. change (2 ^ 1) with 2. unfold field.
    destruct (even_quarter sz H) as (k & -> & _). rewrite Z.add_comm, Z.mul_comm, Z.mod_add by lia. by destruct al. }
  unfold field, wrap32. assert (0 <= sz' / 4 < 2 ^ 25) as Hq.
  { split; [apply Z.div_pos; lia|apply Z.div_lt_upper_bound; lia]. }
  destruct (even_quarter sz' H') as (k & E & _). rewrite E in *. destruct al.
  - rewrite Z.lor_comm, lor_one. apply Z.mod_small. lia.
  - rewrite Z.lor_0_l, Z.add_0_r. apply Z.mod_small. lia.
Qed.

Lemma ALIGN8_spec x : 0 <= x → ALIGN8 x mod 8 = 0 ∧ x <= ALIGN8 x < x + 8.
Proof.
  intros Hx. unfold ALIGN8. change 7 with (Z.ones 3). rewrite Z.land_ones by lia. change (2 ^ 3) with 8.
  pose proof (Z.mod_pos_bound x 8 ltac:(lia)). destruct (x mod 8 =? 0) eqn:E; bool_to_prop; [lia|].
  rewrite Z.shiftl_mul_pow2, Z.shiftr_div_pow2 by lia. change (2 ^ 3) with 8.
  rewrite Z.mod_mul by lia. pose proof (Z.div_mod x 8 ltac:(lia)). lia.
Qed.

(** ** Blocks *)

(** Offset, size with the header, and whether it is allocated. *)
Abbreviation blk := (Z * Z * bool)%type.

(** The offset of the first free block, or what follows. *)
Fixpoint first_free (L : list blk) (nf : Z) : Z :=
  match L with [] => nf | (o, _, al) :: L' => if (al : bool) then first_free L' nf else o end.

(** The offset of the last free block, of the last block. *)
Fixpoint last_free (pf : Z) (L : list blk) : Z :=
  match L with [] => pf | (o, _, al) :: L' => last_free (if (al : bool) then pf else o) L' end.
Fixpoint last_off (pb : Z) (L : list blk) : Z :=
  match L with [] => pb | (o, _, _) :: L' => last_off o L' end.

(** The headers of the blocks [L], when the block before them is at [pb], the free block before
    them at [pf], and the free block behind them at [nf]. *)
Definition header (pb pf nf : Z) (sz : Z) (al : bool) : block_prefix_t :=
  mk_block (VAL pb) (VAL (if al then HEAP_NULL else nf)) (VAL (if al then HEAP_NULL else pf)) (field sz al).

Fixpoint repr (m : gmap Z block_prefix_t) (pb pf nf : Z) (L : list blk) : Prop :=
  match L with
  | [] => True
  | (o, sz, al) :: L' =>
      m !! o = Some (header pb pf (first_free L' nf) sz al) ∧ repr m o (if (al : bool) then pf else o) nf L'
  end.

Definition offsets (L : list blk) : list Z := (λ b : blk, b.1.1) <$> L.

(** The blocks lie one behind the other, from [o] to [e]. *)
Fixpoint chain (o : Z) (L : list blk) (e : Z) : Prop :=
  match L with [] => o = e | (o', sz, _) :: L' => o' = o ∧ chain (o + sz) L' e end.

Definition block_ok (b : blk) : Prop := min_alloc_size <= b.1.2 ∧ b.1.2 mod 8 = 0.

(** No two free blocks are neighbours. *)
Fixpoint apart (L : list blk) : Prop :=
  match L with
  | (_, _, al) :: ((_, _, al') :: _) as L' => (al = true ∨ al' = true) ∧ apart L'
  | _ => True
  end.

(** The heap [h] consists of the blocks [L]. *)
Record heap_ok (h : sheep) (L : list blk) : Prop := mk_heap_ok {
  ok_head : mem h !! head_block = Some (mk_block 0 (VAL (first_free L HEAP_NULL)) 0 (field HEADER true));
  ok_repr : repr (mem h) head_block HEAP_NULL HEAP_NULL L;
  ok_chain : chain HEADER L (heap_size h);
  ok_blocks : Forall block_ok L;
  ok_size : heap_size h < 2 ^ 25 ∧ heap_size h mod 8 = 0;
}.

(** *** Lists *)

Lemma first_free_app A B nf : first_free (A ++ B) nf = first_free A (first_free B nf).
Proof. induction A as [|[[o sz] []] A IH]; cbn; done. Qed.
Lemma last_free_app pf A B : last_free pf (A ++ B) = last_free (last_free pf A) B.
Proof. revert pf. induction A as [|[[o sz] []] A IH]; cbn; intros pf; done. Qed.
Lemma last_off_app pb A B : last_off pb (A ++ B) = last_off (last_off pb A) B.
Proof. revert pb. induction A as [|[[o sz] al] A IH]; cbn; intros pb; done. Qed.
Lemma offsets_app A B : offsets (A ++ B) = offsets A ++ offsets B.
Proof. apply fmap_app. Qed.

Lemma repr_app m pb pf nf A B :
  repr m pb pf nf (A ++ B) ↔ repr m pb pf (first_free B nf) A ∧ repr m (last_off pb A) (last_free pf A) nf B.
Proof.
  revert pb pf. induction A as [|[[o sz] al] A IH]; intros pb pf; cbn; [tauto|].
  rewrite IH, first_free_app. destruct al; tauto.
Qed.

Lemma chain_app o A B e : chain o (A ++ B) e ↔ ∃ x, chain o A x ∧ chain x B e.
Proof.
  revert o. induction A as [|[[o' sz] al] A IH]; intros o; cbn; [naive_solver|]. rewrite IH. naive_solver.
Qed.

Lemma repr_frame m m' pb pf nf L :
  (∀ o, o ∈ offsets L → m' !! o = m !! o) → repr m pb pf nf L → repr m' pb pf nf L.
Proof.
  revert pb pf. induction L as [|[[o sz] al] L IH]; intros pb pf Hm; cbn; [done|]. intros [H1 H2]. split.
  - rewrite Hm; [done|]. by left.
  - apply IH; [|done]. intros x Hx. apply Hm. by right.
Qed.

Lemma chain_offsets o L e :
  chain o L e → Forall block_ok L → o <= e ∧ Forall (λ x, o <= x < e) (offsets L).
Proof.
  revert o. induction L as [|[[o' sz] al] L IH]; intros o; cbn; [intros ->; split; [lia|constructor]|].
  intros [-> Hc] [[Hs _] Hb]%Forall_cons. cbn in Hs. unfold min_alloc_size in Hs. destruct (IH _ Hc Hb) as [H1 H2].
  split; [lia|]. constructor; [cbn; lia|]. eapply Forall_impl; [exact H2|]. cbn. lia.
Qed.

Lemma chain_aligned o L e :
  chain o L e → Forall block_ok L → o mod 8 = 0 → Forall (λ x, x mod 8 = 0) (offsets L) ∧ e mod 8 = 0.
Proof.
  revert o. induction L as [|[[o' sz] al] L IH]; intros o; cbn; [intros -> _ ?; split; [constructor|done]|].
  intros [-> Hc] [[_ Hm] Hb]%Forall_cons Ho. cbn in Hm. destruct (IH _ Hc Hb) as [H1 H2].
  { rewrite Z.add_mod, Ho, Hm by lia. done. }
  split; [by constructor|done].
Qed.

Lemma chain_end_unique o L e e' : chain o L e → chain o L e' → e = e'.
Proof.
  revert o. induction L as [|[[o' sz] al] L IH]; intros o; cbn; [by intros -> ->|]. intros [-> H1] [_ H2]. eauto.
Qed.

Lemma chain_NoDup o L e : chain o L e → Forall block_ok L → NoDup (offsets L).
Proof.
  revert o. induction L as [|[[o' sz] al] L IH]; intros o; cbn; [constructor|].
  intros [-> Hc] [[Hs _] Hb]%Forall_cons. cbn in Hs. unfold min_alloc_size in Hs. apply NoDup_cons. split; [|by eapply IH].
  destruct (chain_offsets _ _ _ Hc Hb) as [_ Hr]. intros Hin. rewrite Forall_forall in Hr. specialize (Hr _ Hin). cbn in Hr. lia.
Qed.

(** *** Changing links *)

(** The last free block before [nf] gets another successor. *)
Lemma repr_set_next m pb pf nf nf' A :
  repr m pb pf nf A → NoDup (offsets A) →
  (last_free pf A = pf ∧ (∀ x, first_free A x = x) ∧ repr m pb pf nf' A) ∨
  (last_free pf A ∈ offsets A ∧ (∀ x y, first_free A x = first_free A y) ∧
   ∃ b, m !! last_free pf A = Some b ∧ repr (<[last_free pf A := SET_NEXT_FREE nf' b]> m) pb pf nf' A).
Proof.
  revert pb pf. induction A as [|[[o sz] al] A IH]; intros pb pf; cbn; [auto|].
  intros [Hm Hr] [Hno Hnd]%NoDup_cons. destruct al.
  - destruct (IH _ _ Hr Hnd) as [(E & Hf & H) | (Hin & Hf & b & Hb & H)]; [left; done|right].
    split; [by right|]. split; [done|]. exists b. split; [done|]. split; [|done].
    rewrite lookup_insert_ne by (intros E; rewrite E in Hin; done). done.
  - right. destruct (IH _ _ Hr Hnd) as [(E & Hf & H) | (Hin & Hf & b & Hb & H)].
    + rewrite E. split; [by left|]. split; [done|]. exists (header pb pf (first_free A nf) sz false). split; [done|].
      rewrite lookup_insert_eq. rewrite !Hf. split; [done|]. eapply repr_frame; [|exact H].
      intros x Hx. rewrite lookup_insert_ne; [done|]. intros ->. done.
    + split; [by right|]. split; [done|]. exists b. split; [done|].
      rewrite lookup_insert_ne by (intros E; rewrite E in Hin; done). by rewrite (Hf nf' nf).
Qed.

(** The first free block gets another predecessor. *)
Lemma repr_set_prev m pb pf pf' nf B :
  repr m pb pf nf B → NoDup (offsets B) →
  ((∀ x, first_free B x = x) ∧ repr m pb pf' nf B) ∨
  (first_free B nf ∈ offsets B ∧ (∀ x y, first_free B x = first_free B y) ∧
   ∃ b, m !! first_free B nf = Some b ∧ repr (<[first_free B nf := SET_PREV_FREE pf' b]> m) pb pf' nf B).
Proof.
  revert pb. induction B as [|[[o sz] al] B IH]; intros pb; cbn; [auto|].
  intros [Hm Hr] [Hno Hnd]%NoDup_cons. destruct al.
  - destruct (IH _ Hr Hnd) as [(Hf & H) | (Hin & Hf & b & Hb & H)]; [left; done|right].
    split; [by right|]. split; [done|]. exists b. split; [done|]. split; [|done].
    rewrite lookup_insert_ne by (intros E; rewrite E in Hin; done). done.
  - right. split; [by left|]. split; [done|]. exists (header pb pf (first_free B nf) sz false). split; [done|].
    rewrite lookup_insert_eq. split; [done|]. eapply repr_frame; [|exact Hr].
    intros x Hx. rewrite lookup_insert_ne; [done|]. intros ->. done.
Qed.

(** The offset of the first block, or [HEAP_NULL]. *)
Definition first_off (B : list blk) : Z := match B with [] => HEAP_NULL | (o, _, _) :: _ => o end.

(** The first block gets another predecessor. *)
Lemma repr_set_block m pb pb' pf nf B :
  repr m pb pf nf B → NoDup (offsets B) →
  (B = []) ∨ ∃ b, m !! first_off B = Some b ∧ repr (<[first_off B := SET_PREV_BLOCK pb' b]> m) pb' pf nf B.
Proof.
  destruct B as [|[[o sz] al] B]; cbn; [auto|]. intros [Hm Hr] [Hno Hnd]%NoDup_cons. right.
  eexists. split; [done|]. rewrite lookup_insert_eq. split; [done|]. eapply repr_frame; [|exact Hr].
  intros x Hx. rewrite lookup_insert_ne; [done|]. intros ->. done.
Qed.

(** The head and the blocks [A] before a free block at [nf]. *)
Definition front (m : gmap Z block_prefix_t) (A : list blk) (nf : Z) : Prop :=
  m !! head_block = Some (mk_block 0 (VAL (first_free A nf)) 0 (field HEADER true)) ∧
  repr m head_block HEAP_NULL nf A.
(** The blocks [B] up to the end, after the block at [pb] and the free block at [pf]. *)
Definition back (m : gmap Z block_prefix_t) (pb pf : Z) (B : list blk) : Prop := repr m pb pf HEAP_NULL B.

Lemma front_set_next m A nf nf' :
  front m A nf → NoDup (head_block :: offsets A) →
  ∃ b, m !! last_free HEAP_NULL A = Some b ∧ front (<[last_free HEAP_NULL A := SET_NEXT_FREE nf' b]> m) A nf'.
Proof.
  intros [Hh Hr] [Hn0 Hnd]%NoDup_cons. destruct (repr_set_next _ _ _ _ nf' _ Hr Hnd) as [(E & Hf & H) | (Hin & Hf & b & Hb & H)].
  - rewrite E. eexists. split; [exact Hh|]. split.
    + rewrite lookup_insert_eq. by rewrite !Hf.
    + eapply repr_frame; [|exact H]. intros x Hx. rewrite lookup_insert_ne; [done|]. intros <-. done.
  - exists b. split; [done|]. split; [|done]. rewrite lookup_insert_ne by (intros E; rewrite E in Hin; done).
    by rewrite (Hf nf' nf).
Qed.

Lemma back_set_prev m pb pf pf' B :
  back m pb pf B → NoDup (head_block :: offsets B) →
  (first_free B HEAP_NULL = HEAP_NULL ∧ back m pb pf' B) ∨
  (first_free B HEAP_NULL ≠ HEAP_NULL ∧ first_free B HEAP_NULL ∈ offsets B ∧
   ∃ b, m !! first_free B HEAP_NULL = Some b ∧ back (<[first_free B HEAP_NULL := SET_PREV_FREE pf' b]> m) pb pf' B).
Proof.
  intros H [Hn0 Hnd]%NoDup_cons. destruct (repr_set_prev _ _ _ pf' _ _ H Hnd) as [(Hf & Hr) | (Hin & Hf & b & Hb & Hr)].
  - left. by rewrite Hf.
  - right. split; [|split; [done|by exists b]]. intros E. rewrite E in Hin. done.
Qed.

Lemma back_set_block m pb pb' pf B :
  back m pb pf B → NoDup (head_block :: offsets B) →
  (first_off B = HEAP_NULL ∧ back m pb' pf B) ∨
  (first_off B ≠ HEAP_NULL ∧ first_off B ∈ offsets B ∧
   ∃ b, m !! first_off B = Some b ∧ back (<[first_off B := SET_PREV_BLOCK pb' b]> m) pb' pf B).
Proof.
  intros H [Hn0 Hnd]%NoDup_cons. destruct (repr_set_block _ _ pb' _ _ _ H Hnd) as [-> | (b & Hb & Hr)]; [by left|].
  destruct B as [|[[o sz] al] B]; [by left|]. right. split; [|split; [by left|by exists b]].
  intros E. apply Hn0. cbn in *. rewrite E. by left.
Qed.

Lemma front_frame m m' A nf :
  (∀ o, o = head_block ∨ o ∈ offsets A → m' !! o = m !! o) → front m A nf → front m' A nf.
Proof. intros Hm [H1 H2]. split; [rewrite Hm; auto|]. eapply repr_frame; [|exact H2]. auto. Qed.

Lemma back_frame m m' pb pf B : (∀ o, o ∈ offsets B → m' !! o = m !! o) → back m pb pf B → back m' pb pf B.
Proof. apply repr_frame. Qed.

Lemma front_put m A nf o b :
  o ≠ head_block → o ∉ offsets A → front m A nf → front (<[o := b]> m) A nf.
Proof. intros H1 H2. apply front_frame. intros x [-> | Hx]; apply lookup_insert_ne; congruence. Qed.

Lemma back_put m pb pf B o b : o ∉ offsets B → back m pb pf B → back (<[o := b]> m) pb pf B.
Proof. intros H. apply back_frame. intros x Hx. apply lookup_insert_ne. congruence. Qed.

Lemma last_free_in pf A : last_free pf A = pf ∨ last_free pf A ∈ offsets A.
Proof.
  revert pf. induction A as [|[[o sz] al] A IH]; intros pf; cbn; [by left|].
  destruct (IH (if al then pf else o)) as [-> | H]; [|right; by right]. destruct al; [by left|right; by left].
Qed.

Lemma last_off_in pb A : last_off pb A = pb ∨ last_off pb A ∈ offsets A.
Proof.
  revert pb. induction A as [|[[o sz] al] A IH]; intros pb; cbn; [by left|].
  destruct (IH o) as [-> | H]; [|right; by right]. right. by left.
Qed.

Lemma first_free_in B nf : first_free B nf = nf ∨ first_free B nf ∈ offsets B.
Proof.
  induction B as [|[[o sz] []] B IH]; cbn; [by left| |right; by left].
  destruct IH as [-> | H]; [by left|right; by right].
Qed.

Lemma first_off_in B : first_off B = HEAP_NULL ∨ first_off B ∈ offsets B.
Proof. destruct B as [|[[o sz] al] B]; [by left|right; by left]. Qed.

(** ** A heap around one of its blocks *)

Record shape (hs : Z) (L : list blk) : Prop := mk_shape {
  shape_chain : chain HEADER L hs;
  shape_blocks : Forall block_ok L;
  shape_size : hs < 2 ^ 25 ∧ hs mod 8 = 0;
}.

Lemma shape_offset hs L x : shape hs L → x ∈ offsets L → offset_ok x ∧ HEADER <= x < hs.
Proof.
  intros [Hc Hb [H1 H2]] Hx. destruct (chain_offsets _ _ _ Hc Hb) as [_ Hr].
  destruct (chain_aligned _ _ _ Hc Hb eq_refl) as [Hal _]. rewrite Forall_forall in Hr, Hal.
  specialize (Hr _ Hx). specialize (Hal _ Hx). cbn in Hr. unfold HEADER in *. split; [split; [lia|done]|lia].
Qed.

Lemma shape_NoDup hs L : shape hs L → NoDup (head_block :: offsets L).
Proof.
  intros Hs. pose proof Hs as [Hc Hb _]. apply NoDup_cons. split; [|by eapply chain_NoDup].
  intros Hin. destruct (shape_offset _ _ _ Hs Hin) as [_ H]. unfold head_block, HEADER in H. lia.
Qed.

Record around (h : sheep) (A : list blk) (o sz : Z) (al : bool) (B : list blk) : Prop := mk_around {
  ar_front : front (mem h) A (if al then first_free B HEAP_NULL else o);
  ar_here : mem h !! o = Some (header (last_off head_block A) (last_free HEAP_NULL A) (first_free B HEAP_NULL) sz al);
  ar_back : back (mem h) o (if al then last_free HEAP_NULL A else o) B;
  ar_shape : shape (heap_size h) (A ++ (o, sz, al) :: B);
}.

Lemma heap_around h A o sz al B : heap_ok h (A ++ (o, sz, al) :: B) ↔ around h A o sz al B.
Proof.
  split.
  - intros [H1 H2 H3 H4 H5]. apply repr_app in H2 as [Hr1 [Hr2 Hr3]]. rewrite first_free_app in H1.
    cbn [first_free] in *. constructor; [split; [by destruct al|by destruct al]|done|done|done].
  - intros [[H1 H2] H3 H4 [H5 H6 H7]]. constructor; try done.
    + rewrite first_free_app. by destruct al.
    + apply repr_app. split; [by destruct al|]. split; done.
Qed.

(** What is where. *)
Record places (A : list blk) (o : Z) (B : list blk) : Prop := mk_places {
  pl_here : o ≠ head_block ∧ o ∉ offsets A ∧ o ∉ offsets B;
  pl_front : NoDup (head_block :: offsets A);
  pl_back : NoDup (head_block :: offsets B);
  pl_apart x : x ∈ offsets A → x ∉ offsets B;
}.

Lemma shape_places hs A o sz al B : shape hs (A ++ (o, sz, al) :: B) → places A o B.
Proof.
  intros H%shape_NoDup. rewrite offsets_app in H. cbn in H.
  apply NoDup_cons in H as [H0 H]. apply NoDup_app in H as (HA & Hd & HB). apply NoDup_cons in HB as [Ho HB].
  constructor; [set_solver|apply NoDup_cons; set_solver|apply NoDup_cons; set_solver|set_solver].
Qed.

Lemma ptr_ok hs L x : shape hs L → x = HEAP_NULL ∨ x ∈ offsets L → PTR (VAL x) = x.
Proof. intros Hs [-> | Hx]; [done|]. apply PTR_VAL. by eapply shape_offset. Qed.

Lemma size_header pb pf nf sz al : sz mod 8 = 0 → SIZE (header pb pf nf sz al) = sz.
Proof. apply field_size. Qed.

Lemma alloc_header pb pf nf sz al : sz mod 8 = 0 → IS_ALLOC (header pb pf nf sz al) = al.
Proof. apply size_field_bit. Qed.

(** The size of a block, and where the next one is. *)
Lemma block_facts hs A o sz al B :
  shape hs (A ++ (o, sz, al) :: B) →
  min_alloc_size <= sz < 2 ^ 25 ∧ sz mod 8 = 0 ∧ HEADER <= o ∧ o + sz <= hs ∧
  (if hs <=? sz + o then HEAP_NULL else sz + o) = first_off B.
Proof.
  intros [Hc Hb Hs]. apply Forall_app in Hb as [HbA Hb]. apply Forall_cons in Hb as [[Hm Hd] HbB]. cbn in Hm, Hd.
  apply chain_app in Hc as (x & HcA & Hc). cbn in Hc. destruct Hc as [-> HcB].
  destruct (chain_offsets _ _ _ HcB HbB) as [Hle _]. destruct (chain_offsets _ _ _ HcA HbA) as [Hle2 _].
  unfold HEADER, min_alloc_size in *. split_and!; try lia.
  destruct B as [|[[o' sz'] al'] B]; cbn in HcB |- *.
  - subst hs. rewrite (proj2 (Z.leb_le _ _)) by lia. done.
  - destruct HcB as [-> HcB]. apply Forall_cons in HbB as [[Hm' _] HbB]. cbn in Hm'.
    destruct (chain_offsets _ _ _ HcB HbB) as [Hle3 _]. unfold min_alloc_size in *.
    rewrite (proj2 (Z.leb_gt _ _)) by lia. lia.
Qed.

Lemma next_block_around h A o sz al B : around h A o sz al B → NEXT_BLOCK h o = Some (first_off B).
Proof.
  intros [_ Hh _ Hs]. destruct (block_facts _ _ _ _ _ _ Hs) as (_ & Hm & _ & _ & Hn).
  unfold NEXT_BLOCK, rd. rewrite Hh. cbn [mbind option_bind]. by rewrite size_header, Hn.
Qed.

Lemma wr_ok h o b f : mem h !! o = Some b → wr h o f = Some (put h o (f b)).
Proof. intros H. unfold wr, rd. by rewrite H. Qed.

Lemma wrap32_small x : 0 <= x < 2 ^ 32 → wrap32 x = x.
Proof. apply Z.mod_small. Qed.

Lemma null_or_head o : (if o =? HEAP_NULL then head_block else o) = o.
Proof. destruct (o =? HEAP_NULL) eqn:E; [|done]. apply Z.eqb_eq in E. by rewrite E. Qed.

(** The writes to a neighbour of the block at [o], and what they leave alone. *)
Record halves (h : sheep) (A : list blk) (nf o : Z) (b : block_prefix_t) (pb pf : Z) (B : list blk) : Prop := mk_halves {
  hv_front : front (mem h) A nf;
  hv_here : mem h !! o = Some b;
  hv_back : back (mem h) pb pf B;
}.

Definition same_size (h h' : sheep) : Prop := heap_size h' = heap_size h ∧ first_fit h' = first_fit h.

Lemma halves_put h A nf o b b' pb pf B :
  places A o B → halves h A nf o b pb pf B → halves (put h o b') A nf o b' pb pf B.
Proof.
  intros [(H0 & HA & HB) _ _ _] [H1 H2 H3]. constructor; cbn; [by apply front_put|apply lookup_insert_eq|by apply back_put].
Qed.

(** A write into [B]. *)
Lemma halves_back h A nf o b pb pf B x bx pb' pf' :
  places A o B → halves h A nf o b pb pf B → x ∈ offsets B → back (<[x := bx]> (mem h)) pb' pf' B →
  halves (put h x bx) A nf o b pb' pf' B ∧ ∀ y, y ∉ offsets B → mem (put h x bx) !! y = mem h !! y.
Proof.
  intros [(H0 & HA & HB) HnA HnB Hap] [H1 H2 H3] Hx Hbk. split.
  - constructor; [apply front_put; [|by intros ?%Hap|done]|cbn; rewrite lookup_insert_ne; [done|congruence]|done].
    intros ->. by apply NoDup_cons in HnB as [? _].
  - intros y Hy. apply lookup_insert_ne. congruence.
Qed.

Lemma halves_set_block h A nf o b pb pf B pb' :
  places A o B → halves h A nf o b pb pf B →
  ∃ h', wr_unless_null h (first_off B) (SET_PREV_BLOCK pb') = Some h' ∧ halves h' A nf o b pb' pf B ∧ same_size h h' ∧
    ∀ x, x ∉ offsets B → mem h' !! x = mem h !! x.
Proof.
  intros Hpl Hh. unfold wr_unless_null.
  destruct (back_set_block _ _ pb' _ _ (hv_back _ _ _ _ _ _ _ _ Hh) (pl_back _ _ _ Hpl)) as [(E & Hb) | (Hne & Hin & bx & Hbx & Hb)].
  - rewrite E, Z.eqb_refl. exists h. split; [done|]. split; [|done]. by destruct Hh.
  - rewrite (proj2 (Z.eqb_neq _ _)) by done. rewrite (wr_ok h _ bx) by exact Hbx. eexists. split; [done|].
    destruct (halves_back _ _ _ _ _ _ _ _ _ _ _ _ Hpl Hh Hin Hb). done.
Qed.

Lemma halves_set_prev h A nf o b pb pf B pf' :
  places A o B → halves h A nf o b pb pf B →
  ∃ h', wr_unless_null h (first_free B HEAP_NULL) (SET_PREV_FREE pf') = Some h' ∧ halves h' A nf o b pb pf' B ∧ same_size h h' ∧
    ∀ x, x ∉ offsets B → mem h' !! x = mem h !! x.
Proof.
  intros Hpl Hh. unfold wr_unless_null.
  destruct (back_set_prev _ _ _ pf' _ (hv_back _ _ _ _ _ _ _ _ Hh) (pl_back _ _ _ Hpl)) as [(E & Hb) | (Hne & Hin & bx & Hbx & Hb)].
  - rewrite E, Z.eqb_refl. exists h. split; [done|]. split; [|done]. by destruct Hh.
  - rewrite (proj2 (Z.eqb_neq _ _)) by done. rewrite (wr_ok h _ bx) by exact Hbx. eexists. split; [done|].
    destruct (halves_back _ _ _ _ _ _ _ _ _ _ _ _ Hpl Hh Hin Hb). done.
Qed.

Lemma halves_set_next h A nf o b pb pf B nf' :
  places A o B → halves h A nf o b pb pf B →
  ∃ h', wr h (if last_free HEAP_NULL A =? HEAP_NULL then head_block else last_free HEAP_NULL A) (SET_NEXT_FREE nf') = Some h' ∧
    halves h' A nf' o b pb pf B ∧ same_size h h' ∧ ∀ x, x ≠ head_block → x ∉ offsets A → mem h' !! x = mem h !! x.
Proof.
  intros [(H0 & HA & HB) HnA HnB Hap] [H1 H2 H3]. rewrite null_or_head.
  destruct (front_set_next _ _ _ nf' H1 HnA) as (b2 & Hb2 & Hf2). rewrite (wr_ok h _ b2) by exact Hb2. eexists. split; [done|].
  assert (last_free HEAP_NULL A = head_block ∨ last_free HEAP_NULL A ∈ offsets A) as Hl by (destruct (last_free_in HEAP_NULL A); auto).
  assert (last_free HEAP_NULL A ∉ offsets B) as HlB.
  { destruct Hl as [-> | Hin]; [by apply NoDup_cons in HnB as [? _]|by apply Hap]. }
  split; [|split; [done|]].
  - constructor; [exact Hf2| |by apply back_put]. cbn. rewrite lookup_insert_ne; [done|]. destruct Hl; congruence.
  - intros x Hx1 Hx2. apply lookup_insert_ne. destruct Hl; congruence.
Qed.

Lemma shape_mark hs A o sz al B al' : shape hs (A ++ (o, sz, al) :: B) → shape hs (A ++ (o, sz, al') :: B).
Proof.
  intros [Hc Hb Hz]. constructor; [| |done].
  - apply chain_app in Hc as (x & Hc1 & Hc2). apply chain_app. by exists x.
  - apply Forall_app in Hb as [? [? ?]%Forall_cons]. apply Forall_app. split; [done|by constructor].
Qed.

(** The writes that change the links of the free blocks around [o] to [nf'] and [pf'], with the
    header at [o] changed by [f] before and by [g] behind. *)
Definition relink (h : sheep) (o pf nf nf' pf' : Z) (f g : block_prefix_t → block_prefix_t) : option sheep :=
  h1 ← wr h o f;
  h2 ← wr h1 (if pf =? HEAP_NULL then head_block else pf) (SET_NEXT_FREE nf');
  h3 ← wr_unless_null h2 nf (SET_PREV_FREE pf');
  wr h3 o g.

Lemma relink_ok h A o sz al B nf' pf' f g al' :
  around h A o sz al B →
  (∀ pb pf nf, pf = last_free HEAP_NULL A → nf = first_free B HEAP_NULL →
     g (f (header pb pf nf sz al)) = header pb pf nf sz al') →
  (if al' then first_free B HEAP_NULL else o) = nf' → (if al' then last_free HEAP_NULL A else o) = pf' →
  ∃ h', relink h o (last_free HEAP_NULL A) (first_free B HEAP_NULL) nf' pf' f g = Some h' ∧ around h' A o sz al' B ∧
    heap_size h' = heap_size h ∧ first_fit h' = first_fit h.
Proof.
  intros [Hfr Hh Hbk Hs] Hfg Hnf Hpf. pose proof (shape_places _ _ _ _ _ _ Hs) as Hpl.
  unfold relink. rewrite (wr_ok _ _ _ _ Hh). cbn [mbind option_bind].
  pose proof (halves_put _ _ _ _ _ (f (header (last_off head_block A) (last_free HEAP_NULL A) (first_free B HEAP_NULL) sz al))
    _ _ _ Hpl (mk_halves _ _ _ _ _ _ _ _ Hfr Hh Hbk)) as H1.
  destruct (halves_set_next _ _ _ _ _ _ _ _ nf' Hpl H1) as (h2 & E2 & H2 & [Hs2 Hff2] & _). rewrite E2. cbn [mbind option_bind].
  destruct (halves_set_prev _ _ _ _ _ _ _ _ pf' Hpl H2) as (h3 & E3 & H3 & [Hs3 Hff3] & _). rewrite E3. cbn [mbind option_bind].
  pose proof H3 as [_ Ho3 _]. rewrite (wr_ok h3 o _ _ Ho3). eexists. split; [done|].
  pose proof (halves_put _ _ _ _ _ (g (f (header (last_off head_block A) (last_free HEAP_NULL A) (first_free B HEAP_NULL) sz al)))
    _ _ _ Hpl H3) as [F4 Ho4 B4].
  split; [|cbn in *; split; congruence]. constructor; [by rewrite Hnf|by rewrite Ho4, Hfg|by rewrite Hpf|].
  cbn in *. rewrite Hs3, Hs2. by apply (shape_mark _ _ _ _ al).
Qed.

(** ** Allocation *)

Lemma chain_length o L e : chain o L e → Forall block_ok L → o + 24 * Z.of_nat (length L) <= e.
Proof.
  revert o. induction L as [|[[o' sz] al] L IH]; intros o; cbn [chain length]; [lia|].
  intros [-> Hc] [[Hs _] Hb]%Forall_cons. cbn in Hs. unfold min_alloc_size in Hs. specialize (IH _ Hc Hb). lia.
Qed.

(** What the search through the free blocks of [B], a part of [L], gives when [best] was found
    before. *)
Record fit (h : sheep) (alloc : Z) (L B : list blk) (best : option Z) (bd : Z) (r : option Z) (d : Z) : Prop := mk_fit {
  fit_from : (r = best ∧ d = bd) ∨
    ∃ A' o sz B', L = A' ++ (o, sz, false) :: B' ∧ r = Some o ∧ alloc <= sz ∧ d = sz - alloc;
  fit_none : r = None → ∀ o sz, (o, sz, false) ∈ B → sz < alloc;
  fit_better : d <= bd;
  fit_best : d < min_alloc_size ∨ first_fit h = true ∨ ∀ o sz, (o, sz, false) ∈ B → alloc <= sz → d <= sz - alloc;
}.

Lemma fit_skip h alloc L B best bd r d o sz al :
  fit h alloc L B best bd r d → (al = false → sz < alloc ∨ r ≠ None ∧ d <= sz - alloc) →
  fit h alloc L ((o, sz, al) :: B) best bd r d.
Proof.
  intros [H1 H2 H3 H4] Hal. constructor; [done| |done|].
  - intros Hr x y [E|Hin]%elem_of_cons; [|eauto]. injection E as -> -> <-. destruct (Hal eq_refl) as [?|[? _]]; done.
  - destruct H4 as [?|[?|H4]]; auto. right; right. intros x y [E|Hin]%elem_of_cons Hle; [|eauto].
    injection E as -> -> <-. destruct (Hal eq_refl) as [?|[_ ?]]; lia.
Qed.

Lemma find_fit_ok h alloc B : ∀ fuel A best bd,
  heap_ok h (A ++ B) → (length B < fuel)%nat → (best = None → bd = 2 ^ 32 - 1) → 0 <= alloc →
  ∃ r d, find_fit fuel h alloc (first_free B HEAP_NULL) best bd = Some (r, d) ∧ fit h alloc (A ++ B) B best bd r d.
Proof.
  induction B as [|[[o sz] al] B IH]; intros fuel A best bd Hh Hf Hbd Hal; cbn [first_free length] in *.
  { destruct fuel as [|fuel]; [lia|]. exists best, bd. split; [done|]. constructor; [auto| |lia|].
    - by intros _ ? ? ?%not_elem_of_nil.
    - right; right. by intros ? ? ?%not_elem_of_nil. }
  assert (A ++ (o, sz, al) :: B = (A ++ [(o, sz, al)]) ++ B) as Eapp by (by rewrite <- app_assoc).
  assert (∀ f b d, (length B < f)%nat → (b = None → d = 2 ^ 32 - 1) → ∃ r d',
    find_fit f h alloc (first_free B HEAP_NULL) b d = Some (r, d') ∧ fit h alloc (A ++ (o, sz, al) :: B) B b d r d') as Hnext.
  { intros f b d Hfl Hb. rewrite Eapp. apply IH; [by rewrite <- Eapp|done|done|done]. }
  destruct al.
  { destruct (Hnext fuel best bd) as (r & d & E & Hfit); [lia|done|]. exists r, d. split; [exact E|]. by apply fit_skip. }
  pose proof (proj1 (heap_around _ _ _ _ _ _) Hh) as [_ Hhere _ Hs].
  destruct (block_facts _ _ _ _ _ _ Hs) as (Hsz & Hm & Ho & _ & _). unfold HEADER, min_alloc_size in *.
  destruct fuel as [|fuel]; [lia|]. cbn [find_fit]. rewrite (proj2 (Z.eqb_neq _ _)) by (unfold HEAP_NULL; lia).
  unfold rd. rewrite Hhere. cbn [mbind option_bind next_free header].
  rewrite (ptr_ok _ _ _ Hs).
  2:{ destruct (first_free_in B HEAP_NULL) as [? | Hin]; [by left|right]. rewrite offsets_app. set_solver. }
  rewrite size_header by done. unfold wrap32. rewrite Z.mod_small by lia.
  destruct (sz <? alloc) eqn:Elt; bool_to_prop.
  { destruct (Hnext fuel best bd) as (r & d & E & Hfit); [lia|done|]. exists r, d. split; [exact E|].
    apply fit_skip; [exact Hfit|]. auto. }
  destruct (sz - alloc <? bd) eqn:Ebd; bool_to_prop.
  - destruct ((sz - alloc <? min_alloc_size) || first_fit h) eqn:Estop.
    + exists (Some o), (sz - alloc). split; [done|]. constructor; [right; by exists A, o, sz, B|done|lia|].
      apply orb_true_iff in Estop as [Hlt | Hff]; [left; by apply Z.ltb_lt|right; by left].
    + destruct (Hnext fuel (Some o) (sz - alloc)) as (r & d & E & Hfit); [lia|done|]. exists r, d. split; [exact E|].
      pose proof Hfit as [H1 H2 H3 H4].
      assert (r ≠ None) as Hrn by (destruct H1 as [[-> _] | (? & ? & ? & ? & _ & -> & _)]; done).
      apply fit_skip; [|auto]. constructor; [right|done|lia|done].
      destruct H1 as [[-> ->] | ?]; [by exists A, o, sz, B|done].
  - destruct best as [best|]; [|specialize (Hbd eq_refl); lia]. destruct (first_fit h) eqn:Eff.
    + exists (Some best), bd. split; [done|]. constructor; [by left|done|lia|right; by left].
    + destruct (Hnext fuel (Some best) bd) as (r & d & E & Hfit); [lia|done|]. exists r, d. split; [exact E|].
      pose proof Hfit as [H1 H2 H3 H4].
      assert (r ≠ None) as Hrn by (destruct H1 as [[-> _] | (? & ? & ? & ? & _ & -> & _)]; done).
      apply fit_skip; [exact Hfit|]. intros _. right. split; [done|lia].
Qed.

Lemma shape_split hs A o sz al B n al1 al2 :
  shape hs (A ++ (o, sz, al) :: B) → n mod 8 = 0 → min_alloc_size <= n → min_alloc_size <= sz - n →
  shape hs ((A ++ [(o, n, al1)]) ++ (o + n, sz - n, al2) :: B).
Proof.
  intros [Hc Hb Hs] Hm H1 H2. apply Forall_app in Hb as [HbA [[H3 H4] HbB]%Forall_cons]. cbn in H3, H4.
  rewrite <- app_assoc. cbn [app]. constructor; [|apply Forall_app; split; [done|]|done].
  - apply chain_app in Hc as (x & HA & Hc). apply chain_app. exists x. split; [done|]. cbn in *. destruct Hc as [-> Hc].
    split; [done|]. split; [done|]. by replace (x + n + (sz - n)) with (x + sz) by lia.
  - constructor; [done|]. constructor; [|done]. split; [done|]. cbn. rewrite Zminus_mod, Hm, H4. done.
Qed.

(** The block at [o] is cut after [n] bytes. *)
Definition cut (h : sheep) (o n rest pf nf nblock : Z) : option sheep :=
  let nb := SET_SIZE rest (SET_PREV_FREE pf (SET_NEXT_FREE nf (SET_PREV_BLOCK o (SET_FREE CLEAR)))) in
  h6 ← wr (put h (o + n) nb) o (SET_SIZE n);
  h7 ← wr_unless_null h6 nblock (SET_PREV_BLOCK (o + n));
  h8 ← wr h7 (if pf =? HEAP_NULL then head_block else pf) (SET_NEXT_FREE (o + n));
  wr_unless_null h8 nf (SET_PREV_FREE (o + n)).

Lemma new_header o n sz pf nf :
  n mod 8 = 0 → sz mod 8 = 0 → 0 <= sz - n < 2 ^ 25 →
  SET_SIZE (sz - n) (SET_PREV_FREE pf (SET_NEXT_FREE nf (SET_PREV_BLOCK o (SET_FREE CLEAR)))) = header o pf nf (sz - n) false.
Proof.
  intros H1 H2 H3. unfold SET_SIZE, set_size, header. cbn -[field wrap32 Z.land Z.lor Z.shiftr]. f_equal.
  apply (field_set 0 (sz - n) false eq_refl); [|done]. rewrite Zminus_mod, H1, H2. done.
Qed.

Lemma cut_ok h A o sz B n :
  around h A o sz true B → n mod 8 = 0 → min_alloc_size <= n → min_alloc_size <= sz - n →
  ∃ h', cut h o n (sz - n) (last_free HEAP_NULL A) (first_free B HEAP_NULL) (first_off B) = Some h' ∧
    around h' (A ++ [(o, n, true)]) (o + n) (sz - n) false B ∧
    heap_size h' = heap_size h ∧ first_fit h' = first_fit h.
Proof.
  intros [Hfr Hh Hbk Hs] Hn H1 H2. pose proof (shape_places _ _ _ _ _ _ Hs) as Hpl.
  destruct (block_facts _ _ _ _ _ _ Hs) as (Hsz & Hm & Ho & _ & _).
  pose proof (shape_split _ _ _ _ _ _ n true false Hs Hn H1 H2) as Hs'.
  destruct (shape_places _ _ _ _ _ _ Hs') as [(N0 & NA & NB) _ _ _].
  rewrite offsets_app, not_elem_of_app in NA. destruct NA as [NA No]. cbn in No. rewrite not_elem_of_cons in No. destruct No as [No _].
  unfold min_alloc_size in *. unfold cut. rewrite new_header by (done || lia). set (nb := header _ _ _ _ _).
  assert (halves (put h (o + n) nb) A (first_free B HEAP_NULL) o
    (header (last_off head_block A) (last_free HEAP_NULL A) (first_free B HEAP_NULL) sz true) o (last_free HEAP_NULL A) B) as H5.
  { constructor; [by apply front_put|cbn; by rewrite lookup_insert_ne|by apply back_put]. }
  pose proof H5 as [_ Ho5 _]. rewrite (wr_ok _ o _ _ Ho5). cbn [mbind option_bind].
  assert (SET_SIZE n (header (last_off head_block A) (last_free HEAP_NULL A) (first_free B HEAP_NULL) sz true) =
    header (last_off head_block A) (last_free HEAP_NULL A) (o + n) n true) as ->.
  { unfold SET_SIZE, set_size, header. cbn -[field wrap32 Z.land Z.lor Z.shiftr]. f_equal. apply field_set; [done|done|lia]. }
  apply (halves_put _ _ _ _ _ (header (last_off head_block A) (last_free HEAP_NULL A) (o + n) n true) _ _ _ Hpl) in H5 as H6.
  set (h6 := put (put h _ _) _ _) in *. assert (mem h6 !! (o + n) = Some nb) as Hn6.
  { cbn. by rewrite lookup_insert_ne, lookup_insert_eq by congruence. }
  destruct (halves_set_block _ _ _ _ _ _ _ _ (o + n) Hpl H6) as (h7 & -> & H7 & [Hs7 Hff7] & Fr7). cbn [mbind option_bind].
  destruct (halves_set_next _ _ _ _ _ _ _ _ (o + n) Hpl H7) as (h8 & -> & H8 & [Hs8 Hff8] & Fr8). cbn [mbind option_bind].
  destruct (halves_set_prev _ _ _ _ _ _ _ _ (o + n) Hpl H8) as (h9 & -> & [[F1 F2] F3 F4] & [Hs9 Hff9] & Fr9).
  exists h9. split; [done|]. split; [|cbn in *; split; congruence]. constructor.
  - split; [by rewrite first_free_app|]. apply repr_app. split; [exact F2|]. split; [|done]. by rewrite F3.
  - rewrite Fr9, Fr8, Fr7, Hn6 by done. by rewrite last_off_app, last_free_app.
  - exact F4.
  - by rewrite Hs9, Hs8, Hs7.
Qed.

(** The size of the block for a request of [sz] bytes, and what a free block of [s] bytes becomes
    when [n] bytes of it are taken. *)
Definition block_size (sz : Z) : Z := ALIGN8 (sz + PREFIX).
Definition taken (o s n : Z) : list blk :=
  if s - n <? min_alloc_size then [(o, s, true)] else [(o, n, true); (o + n, s - n, false)].

(** The requests that 32 bits can count. *)
Definition request_ok (sz : Z) : Prop := 0 < sz < 2 ^ 32 - 32.

Lemma block_size_ok sz :
  request_ok sz → wrap32 (ALIGN8 (wrap32 (wrap32 sz + PREFIX))) = block_size sz ∧
    block_size sz mod 8 = 0 ∧ min_alloc_size <= block_size sz ∧ sz + PREFIX <= block_size sz.
Proof.
  intros [H1 H2]. unfold wrap32, block_size, PREFIX, min_alloc_size in *.
  rewrite (Z.mod_small sz), (Z.mod_small (sz + 16)) by lia.
  destruct (ALIGN8_spec (sz + 16) ltac:(lia)) as [Hm Hr]. rewrite Z.mod_small by lia. split; [done|]. split; [done|].
  split; [|lia]. pose proof (Z.div_mod (ALIGN8 (sz + 16)) 8 ltac:(lia)). lia.
Qed.

Lemma heap_shape h L : heap_ok h L → shape (heap_size h) L.
Proof. by intros [_ _ H1 H2 H3]. Qed.

Lemma fuel_enough h L : heap_ok h L → (length L < FUEL h)%nat.
Proof.
  intros [_ _ H1 H2 _]. pose proof (chain_length _ _ _ H1 H2). unfold FUEL, HEADER in *. lia.
Qed.

Lemma links_ptr h A o sz al B :
  around h A o sz al B →
  PTR (VAL (last_free HEAP_NULL A)) = last_free HEAP_NULL A ∧ PTR (VAL (first_free B HEAP_NULL)) = first_free B HEAP_NULL ∧
  PTR (VAL (last_off head_block A)) = last_off head_block A.
Proof.
  intros [_ _ _ Hs]. split_and!; apply (ptr_ok _ _ _ Hs); rewrite offsets_app.
  - destruct (last_free_in HEAP_NULL A); [by left|]. right. set_solver.
  - destruct (first_free_in B HEAP_NULL); [by left|]. right. set_solver.
  - destruct (last_off_in head_block A); [by left|]. right. set_solver.
Qed.

(** The free block is taken out of the free list and marked. *)
Lemma unlink_ok h A o sz B :
  around h A o sz false B →
  ∃ h', relink h o (last_free HEAP_NULL A) (first_free B HEAP_NULL) (first_free B HEAP_NULL) (last_free HEAP_NULL A)
      SET_ALLOC (λ b, SET_PREV_FREE HEAP_NULL (SET_NEXT_FREE HEAP_NULL b)) = Some h' ∧
    around h' A o sz true B ∧ heap_size h' = heap_size h ∧ first_fit h' = first_fit h.
Proof.
  intros Ha. eapply relink_ok; [exact Ha| |done|done]. intros pb pf nf _ _.
  destruct Ha as [_ _ _ Hs]. destruct (block_facts _ _ _ _ _ _ Hs) as (_ & Hm & _).
  unfold SET_ALLOC, set_size, header. cbn -[field Z.lor]. by rewrite field_alloc.
Qed.

(** The code of [malloc_sheep] behind the search. *)
Lemma malloc_from h A o s B sz d :
  heap_ok h (A ++ (o, s, false) :: B) → request_ok sz → block_size sz <= s → d = s - block_size sz →
  find_fit (FUEL h) h (block_size sz) (first_free (A ++ (o, s, false) :: B) HEAP_NULL) None (2 ^ 32 - 1) = Some (Some o, d) →
  ∃ h', malloc_sheep h sz = Some (h', Some (o + PREFIX)) ∧ heap_ok h' (A ++ taken o s (block_size sz) ++ B) ∧
    heap_size h' = heap_size h ∧ first_fit h' = first_fit h.
Proof.
  intros Hh Hsz Hle -> Hfit. destruct (block_size_ok _ Hsz) as (Ew & Hm & Hmin & _). pose proof Hsz as [Hpos _].
  unfold malloc_sheep. rewrite (proj2 (Z.eqb_neq sz 0)) by lia. rewrite Ew. rewrite (ok_head _ _ Hh : rd h head_block = _).
  cbn [mbind option_bind next_free].
  rewrite (ptr_ok _ _ _ (heap_shape _ _ Hh)) by (destruct (first_free_in (A ++ (o, s, false) :: B) HEAP_NULL); auto).
  rewrite Hfit. cbn [mbind option_bind]. apply heap_around in Hh as Ha. pose proof Ha as [_ Hhere _ Hs].
  destruct (block_facts _ _ _ _ _ _ Hs) as (Hs1 & Hs2 & Ho & Hend & _). destruct (links_ptr _ _ _ _ _ _ Ha) as (Ep & En & _).
  rewrite (Hhere : rd h o = _). cbn [mbind option_bind]. rewrite alloc_header by done. cbn -[taken].
  rewrite Ep, En, (next_block_around _ _ _ _ _ _ Ha). cbn [mbind option_bind]. rewrite size_header by done.
  unfold min_alloc_size in Hs1, Hmin. rewrite (wrap32_small s) by lia.
  destruct (unlink_ok _ _ _ _ _ Ha) as (h4 & E4 & Ha4 & Hsz4 & Hff4). unfold relink in E4.
  destruct (wr h o SET_ALLOC) as [h1|]; [|done]. cbn [mbind option_bind] in *.
  destruct (wr h1 _ _) as [h2|]; [|done]. cbn [mbind option_bind] in *.
  destruct (wr_unless_null h2 _ _) as [h3|]; [|done]. cbn [mbind option_bind] in *. rewrite E4. cbn [mbind option_bind].
  unfold taken. destruct (s - block_size sz <? min_alloc_size) eqn:Ed; bool_to_prop.
  { exists h4. split; [done|]. split; [|done]. by apply heap_around. }
  rewrite (wrap32_small (s - block_size sz)) by lia. unfold HEADER in Ho.
  rewrite (proj2 (Z.leb_le _ _)), (proj2 (Z.ltb_lt _ _)) by lia.
  change 7 with (Z.ones 3) at 1. rewrite Z.land_ones by lia. change (2 ^ 3) with 8. rewrite Zminus_mod, Hs2, Hm. cbn [andb Z.eqb].
  destruct (cut_ok _ _ _ _ _ (block_size sz) Ha4) as (h9 & E9 & Ha9 & Hsz9 & Hff9); [done|done|lia|]. unfold cut in E9.
  destruct (wr (put h4 _ _) _ _) as [h6|]; [|done]. cbn [mbind option_bind] in *.
  destruct (wr_unless_null h6 _ _) as [h7|]; [|done]. cbn [mbind option_bind] in *.
  destruct (wr h7 _ _) as [h8|]; [|done]. cbn [mbind option_bind] in *.
  rewrite E9. cbn [mbind option_bind]. exists h9. split; [done|]. split; [|by rewrite Hsz9, Hff9].
  apply heap_around in Ha9. by rewrite <- app_assoc in Ha9.
Qed.

Lemma malloc_ok h L sz :
  heap_ok h L → request_ok sz →
  (malloc_sheep h sz = Some (h, None) ∧ ∀ o s, (o, s, false) ∈ L → s < block_size sz) ∨
  ∃ A o s B h', L = A ++ (o, s, false) :: B ∧ block_size sz <= s ∧ malloc_sheep h sz = Some (h', Some (o + PREFIX)) ∧
    heap_ok h' (A ++ taken o s (block_size sz) ++ B) ∧ heap_size h' = heap_size h ∧ first_fit h' = first_fit h ∧
    (s - block_size sz < min_alloc_size ∨ first_fit h = true ∨ ∀ o' s', (o', s', false) ∈ L → block_size sz <= s' → s <= s').
Proof.
  intros Hh Hsz. destruct (block_size_ok _ Hsz) as (Ew & Hm & Hmin & _). unfold min_alloc_size in *.
  destruct (find_fit_ok h (block_size sz) L (FUEL h) [] None (2 ^ 32 - 1)) as (r & d & Efit & Hfit);
    [done|by apply fuel_enough|done|lia|].
  cbn [app] in Hfit. destruct Hfit as [[[-> ->] | (A & o & s & B & -> & -> & Hle & ->)] Hnone _ Hbest].
  - left. split; [|by apply Hnone]. pose proof Hsz as [Hpos _]. unfold malloc_sheep. rewrite (proj2 (Z.eqb_neq sz 0)) by lia. rewrite Ew.
    rewrite (ok_head _ _ Hh : rd h head_block = _). cbn [mbind option_bind next_free].
    rewrite (ptr_ok _ _ _ (heap_shape _ _ Hh)) by (destruct (first_free_in L HEAP_NULL); auto). by rewrite Efit.
  - right. destruct (malloc_from h A o s B sz _ Hh Hsz Hle eq_refl Efit) as (h' & E & Hh' & H1 & H2).
    exists A, o, s, B, h'. split_and!; try done. destruct Hbest as [?|[?|Hbest]]; [by left|right; by left|right; right].
    intros o' s' Hin Hs. specialize (Hbest _ _ Hin Hs). lia.
Qed.

(** ** Release *)

Lemma shape_join hs A a sa b sb B al1 al2 al :
  shape hs (A ++ (a, sa, al1) :: (b, sb, al2) :: B) → shape hs (A ++ (a, sa + sb, al) :: B) ∧ b = a + sa.
Proof.
  intros [Hc Hb Hs]. apply Forall_app in Hb as [HbA [[H1 H2] [[H3 H4] HbB]%Forall_cons]%Forall_cons]. cbn in H1, H2, H3, H4.
  apply chain_app in Hc as (x & HA & Hc). cbn in Hc. destruct Hc as (-> & -> & Hc). split; [|done].
  unfold min_alloc_size in *. constructor; [|apply Forall_app; split; [done|constructor; [|done]]|done].
  - apply chain_app. exists x. split; [done|]. split; [done|]. by rewrite Z.add_assoc.
  - split; cbn; [unfold min_alloc_size; lia|]. rewrite Z.add_mod, H2, H4 by lia. done.
Qed.

Lemma merge_ok h A a sa b sb B :
  around h A a sa false ((b, sb, false) :: B) →
  ∃ h', merge_free_blocks h a b = Some h' ∧ around h' A a (sa + sb) false B ∧
    heap_size h' = heap_size h ∧ first_fit h' = first_fit h.
Proof.
  intros Ha. pose proof Ha as [Hfr Hh Hbk Hs]. cbn [first_free] in *. destruct Hbk as [Hb Hbk].
  destruct (shape_join _ _ _ _ _ _ _ _ _ false Hs) as [Hs' Eb].
  destruct (block_facts _ _ _ _ _ _ Hs) as (Hsa & Hma & Ho & Hend & _).
  pose proof Hs as Hs2. rewrite cons_middle, app_assoc in Hs2.
  destruct (block_facts _ _ _ _ _ _ Hs2) as (Hsb & Hmb & _ & Hend2 & Hnext).
  pose proof (shape_places _ _ _ _ _ _ Hs') as Hpl.
  assert (around h (A ++ [(a, sa, false)]) b sb false B) as Hab.
  { apply heap_around. rewrite <- app_assoc. by apply heap_around. }
  destruct (links_ptr _ _ _ _ _ _ Hab) as (_ & En & _).
  unfold merge_free_blocks. rewrite (Hh : rd h a = _), (Hb : rd h b = _). cbn [mbind option_bind].
  rewrite (next_block_around _ _ _ _ _ _ Hab). cbn [mbind option_bind]. cbn [next_free header]. rewrite En, !size_header by done.
  unfold min_alloc_size, HEADER in *. destruct (shape_size _ _ Hs) as [Hhs _]. rewrite (wrap32_small sa), (wrap32_small sb), (wrap32_small (sa + sb)) by lia.
  rewrite (wr_ok h a _ _ Hh). cbn [mbind option_bind].
  pose proof (halves_put _ _ _ _ _ (SET_NEXT_FREE (first_free B HEAP_NULL) (header (last_off head_block A) (last_free HEAP_NULL A) b sa false))
    _ _ _ Hpl (mk_halves _ _ _ _ _ _ _ _ Hfr Hh Hbk)) as H1.
  destruct (halves_set_block _ _ _ _ _ _ _ _ a Hpl H1) as (h2 & -> & H2 & [Hs2' Hff2] & _). cbn [mbind option_bind].
  destruct (halves_set_prev _ _ _ _ _ _ _ _ a Hpl H2) as (h3 & -> & H3 & [Hs3 Hff3] & _). cbn [mbind option_bind].
  pose proof H3 as [_ Ha3 _]. rewrite (wr_ok h3 a _ _ Ha3). eexists. split; [done|]. split; [|cbn in *; split; congruence].
  destruct (halves_put _ _ _ _ _ (header (last_off head_block A) (last_free HEAP_NULL A) (first_free B HEAP_NULL) (sa + sb) false)
    _ _ _ Hpl H3) as [F4 F5 F6].
  replace (SET_SIZE _ _) with (header (last_off head_block A) (last_free HEAP_NULL A) (first_free B HEAP_NULL) (sa + sb) false).
  { constructor; [exact F4|exact F5|exact F6|cbn in *; by rewrite Hs3, Hs2']. }
  symmetry. unfold SET_SIZE, set_size, header. cbn -[field wrap32 Z.land Z.lor Z.shiftr]. f_equal.
  apply field_set; [done|by rewrite Z.add_mod, Hma, Hmb by lia|lia].
Qed.

(** Whether the neighbours are in use; the head and the end of the heap count as such. *)
Definition first_alloc (B : list blk) : bool := match B with [] => true | (_, _, al) :: _ => al end.
Fixpoint last_alloc (d : bool) (A : list blk) : bool := match A with [] => d | (_, _, al) :: A' => last_alloc al A' end.

Lemma last_alloc_snoc d A o sz al : last_alloc d (A ++ [(o, sz, al)]) = al.
Proof. revert d. induction A as [|[[? ?] ?] A IH]; cbn; done. Qed.

Lemma apart_middle A o sz B :
  apart (A ++ (o, sz, false) :: B) ↔ apart A ∧ apart B ∧ last_alloc true A = true ∧ first_alloc B = true.
Proof.
  assert (∀ A d, apart (A ++ (o, sz, false) :: B) → apart A ∧ apart B ∧ (last_alloc d A = true ∨ A = []) ∧ first_alloc B = true) as H1.
  { clear A. induction A as [|[[a sa] al] A IH]; intros d.
    - cbn. destruct B as [|[[b sb] []] B]; naive_solver.
    - intros H. destruct (IH al) as (H1 & H2 & H3 & H4).
      { cbn in H. destruct (A ++ _) eqn:E; [by destruct A|]. cbn. destruct p as [[? ?] ?]. naive_solver. }
      cbn in *. split; [|split; [done|split; [|done]]].
      + destruct A as [|[[? ?] ?] A]; [done|]. cbn in *. naive_solver.
      + left. destruct H3 as [?| ->]; [done|]. cbn in *. naive_solver. }
  split.
  - intros H. destruct (H1 A true H) as (? & ? & [?| ->] & ?); done.
  - intros (HA & HB & Hl & Hf). assert (apart ((o, sz, false) :: B)) as Hmid.
    { destruct B as [|[[b sb] al] B]; cbn in *; [done|]. subst. auto. }
    clear HB Hf H1. assert (∀ d, last_alloc d A = true → apart (A ++ (o, sz, false) :: B)) as Hg; [|by eapply Hg].
    clear Hl. induction A as [|[[a sa] al] A IH]; intros d Hl; [done|]. cbn in Hl.
    destruct A as [|[[a2 sa2] al2] A]; cbn in *; [subst; auto|]. destruct HA as [H1 HA]. split; [done|]. by eapply IH.
Qed.

Lemma apart_pieces A B : apart (A ++ B) → apart A ∧ apart B.
Proof.
  induction A as [|[[a sa] al] A IH]; [done|]. intros H.
  assert (apart (A ++ B)) as [HA HB]%IH.
  { cbn in H. destruct (A ++ B) as [|[[? ?] ?] ?]; [done|]. naive_solver. }
  split; [|done]. destruct A as [|[[? ?] ?] A]; [done|]. cbn in *. naive_solver.
Qed.

Definition allocs (L : list blk) : list blk := filter (λ b, b.2 = true) L.

Lemma allocs_app A B : allocs (A ++ B) = allocs A ++ allocs B.
Proof. apply filter_app. Qed.

(** The header of the block before, and of the block behind. *)
Lemma prev_header h A o sz al B :
  around h A o sz al B → ∃ b, rd h (last_off head_block A) = Some b ∧ IS_FREE b = negb (last_alloc true A).
Proof.
  intros Ha. destruct A as [|[[a sa] ala] A _] using rev_ind.
  - destruct Ha as [[H _] _ _ _]. by eexists.
  - assert (around h A a sa ala ((o, sz, al) :: B)) as Ha'.
    { apply heap_around. rewrite cons_middle, app_assoc. by apply heap_around. }
    destruct Ha' as [_ H _ Hs]. destruct (block_facts _ _ _ _ _ _ Hs) as (_ & Hm & _).
    rewrite last_off_app. cbn. eexists. split; [exact H|]. unfold IS_FREE. rewrite alloc_header by done.
    by rewrite last_alloc_snoc.
Qed.

Lemma next_header h A o sz al B :
  around h A o sz al B → ∃ b, rd h (first_off B) = Some b ∧ IS_FREE b = negb (first_alloc B).
Proof.
  intros Ha. destruct B as [|[[b sb] alb] B].
  - destruct Ha as [[H _] _ _ _]. by eexists.
  - rewrite <- heap_around, cons_middle, app_assoc, heap_around in Ha. destruct Ha as [_ H _ Hs].
    destruct (block_facts _ _ _ _ _ _ Hs) as (_ & Hm & _). eexists. split; [exact H|]. unfold IS_FREE. by rewrite alloc_header.
Qed.

Lemma join_prev h A o sz B :
  around h A o sz false B → last_alloc true A = false →
  ∃ A0 sa h', A = A0 ++ [(last_off head_block A, sa, false)] ∧ merge_free_blocks h (last_off head_block A) o = Some h' ∧
    around h' A0 (last_off head_block A) (sa + sz) false B ∧ same_size h h'.
Proof.
  intros Ha Hl. destruct A as [|[[a sa] ala] A _] using rev_ind; [done|].
  assert (ala = false) as ->.
  { by rewrite last_alloc_snoc in Hl. }
  rewrite last_off_app. cbn [last_off]. rewrite <- heap_around, <- app_assoc in Ha.
  apply (heap_around _ _ _ _ _ ((o, sz, false) :: B)) in Ha. destruct (merge_ok _ _ _ _ _ _ _ Ha) as (h' & E & Ha' & Hsz). by exists A, sa, h'.
Qed.

Lemma join_next h A o sz B :
  around h A o sz false B → first_alloc B = false →
  ∃ B0 sb h', B = (first_off B, sb, false) :: B0 ∧ merge_free_blocks h o (first_off B) = Some h' ∧
    around h' A o (sz + sb) false B0 ∧ same_size h h'.
Proof.
  intros Ha Hl. destruct B as [|[[b sb] []] B]; [done|done|].
  destruct (merge_ok _ _ _ _ _ _ _ Ha) as (h' & E & Ha' & Hsz). by exists B, sb, h'.
Qed.

Lemma join_ok fuel : ∀ h A o sz B,
  around h A o sz false B → apart A → apart B → (length A + length B < fuel)%nat →
  ∃ h' A' o' sz' B', join_free fuel h o = Some h' ∧ around h' A' o' sz' false B' ∧ apart (A' ++ (o', sz', false) :: B') ∧
    allocs A' = allocs A ∧ allocs B' = allocs B ∧ same_size h h'.
Proof.
  induction fuel as [|fuel IH]; intros h A o sz B Ha HA HB Hf; [lia|]. cbn [join_free].
  pose proof Ha as [_ Hh _ _]. rewrite (Hh : rd h o = _). cbn [mbind option_bind].
  destruct (links_ptr _ _ _ _ _ _ Ha) as (_ & _ & Epb). cbn [prev_block header]. rewrite Epb.
  destruct (prev_header _ _ _ _ _ _ Ha) as (bp & Ep & Efp). rewrite Ep. cbn [mbind option_bind]. rewrite Efp.
  assert (∃ h1 A1 o1 sz1, (if negb (last_alloc true A) then h' ← merge_free_blocks h (last_off head_block A) o; Some (h', last_off head_block A)
      else Some (h, o)) = Some (h1, o1) ∧ around h1 A1 o1 sz1 false B ∧ apart A1 ∧ allocs A1 = allocs A ∧ same_size h h1 ∧
      (if last_alloc true A then A1 = A else (length A1 < length A)%nat)) as (h1 & A1 & o1 & sz1 & E1 & Ha1 & HA1 & Hal1 & [Hs1 Hff1] & Hlen1).
  { destruct (last_alloc true A) eqn:El; [by exists h, A, o, sz|].
    destruct (join_prev _ _ _ _ _ Ha El) as (A0 & sa & h' & EA & E & Ha' & Hss). rewrite E. exists h', A0, (last_off head_block A), (sa + sz).
    split; [done|]. split; [done|]. rewrite EA in HA |- *. split; [by apply apart_pieces in HA as [? _]|].
    rewrite allocs_app, length_app. cbn. rewrite app_nil_r. split; [done|]. split; [done|]. lia. }
  rewrite E1. cbn [mbind option_bind]. rewrite (next_block_around _ _ _ _ _ _ Ha1). cbn [mbind option_bind].
  destruct (next_header _ _ _ _ _ _ Ha1) as (bn & En & Efn). rewrite En. cbn [mbind option_bind]. rewrite Efn.
  destruct (first_alloc B) eqn:Eb; cbn [negb].
  - cbn [mbind option_bind]. destruct (last_alloc true A) eqn:El; cbn [negb orb].
    + subst A1. exists h1, A, o1, sz1, B. split_and!; try done. by apply apart_middle.
    + destruct (IH h1 A1 o1 sz1 B Ha1 HA1 HB) as (h' & A' & o' & sz' & B' & E & Ha' & Hap & H1 & H2 & [H3 H4]); [lia|].
      exists h', A', o', sz', B'. split_and!; first [done | congruence | split; congruence].
  - destruct (join_next _ _ _ _ _ Ha1 Eb) as (B0 & sb & h2 & EB & E2 & Ha2 & [Hs2 Hff2]). rewrite E2. cbn [mbind option_bind].
    rewrite orb_true_r.
    assert (length B0 < length B)%nat as HlB by (rewrite EB; cbn; lia).
    assert (length A1 <= length A)%nat as HlA by (destruct (last_alloc true A); [by subst|lia]).
    assert (apart B0 ∧ allocs B0 = allocs B) as [HB0 Hal0].
    { rewrite EB in HB |- *. apply (apart_pieces [_]) in HB as [_ HB]. done. }
    destruct (IH h2 A1 o1 (sz1 + sb) B0 Ha2 HA1 HB0) as (h' & A' & o' & sz' & B' & E & Ha' & Hap & H1 & H2 & [H3 H4]); [lia|].
    exists h', A', o', sz', B'. split_and!; first [done | congruence | split; congruence].
Qed.

Lemma find_prev_free_ok h A : ∀ fuel B,
  heap_ok h (A ++ B) → (length A < fuel)%nat → find_prev_free fuel h (last_off head_block A) = Some (last_free HEAP_NULL A).
Proof.
  induction A as [|[[a sa] al] A IH] using rev_ind; intros fuel B Hh Hf; [by destruct fuel|].
  rewrite length_app in Hf. cbn in Hf. destruct fuel as [|fuel]; [lia|]. rewrite last_off_app, last_free_app. cbn [last_off last_free].
  rewrite <- app_assoc in Hh. pose proof (proj1 (heap_around _ _ _ _ _ _) Hh) as Ha. pose proof Ha as [_ Hhere _ Hs].
  destruct (block_facts _ _ _ _ _ _ Hs) as (_ & Hm & Ho & _). unfold HEADER in Ho.
  cbn [find_prev_free]. rewrite (proj2 (Z.eqb_neq _ _)) by (unfold HEAP_NULL; lia).
  rewrite (Hhere : rd h a = _). cbn [mbind option_bind]. rewrite alloc_header by done. destruct al; [|done].
  destruct (links_ptr _ _ _ _ _ _ Ha) as (_ & _ & E). cbn [prev_block header]. rewrite E. eapply IH; [exact Hh|lia].
Qed.

Lemma front_next m A nf : front m A nf → ∃ b, m !! last_free HEAP_NULL A = Some b ∧ next_free b = VAL nf.
Proof.
  intros [Hh Hr]. assert (∀ pb pf, repr m pb pf nf A →
    (last_free pf A = pf ∧ ∀ x, first_free A x = x) ∨ ∃ b, m !! last_free pf A = Some b ∧ next_free b = VAL nf) as H.
  { clear Hh Hr. induction A as [|[[a sa] al] A IH]; intros pb pf; cbn; [auto|]. intros [H1 H2]. destruct al; [by eapply IH|].
    destruct (IH _ _ H2) as [[-> Hx] | ?]; [|by right]. right. eexists. split; [exact H1|]. cbn. by rewrite Hx. }
  destruct (H _ _ Hr) as [[-> Hx] | ?]; [|done]. eexists. split; [exact Hh|]. cbn. by rewrite Hx.
Qed.

(** The free blocks around [o] lie on its two sides. *)
Lemma links_order h A o sz al B :
  around h A o sz al B →
  (last_free HEAP_NULL A < o ∨ last_free HEAP_NULL A = HEAP_NULL) ∧ (o < first_free B HEAP_NULL ∨ first_free B HEAP_NULL = HEAP_NULL).
Proof.
  intros [_ _ _ [Hc Hb Hs]]. apply Forall_app in Hb as [HbA [[H1 _] HbB]%Forall_cons]. cbn in H1.
  apply chain_app in Hc as (x & HA & HB). cbn in HB. destruct HB as [-> HB].
  destruct (chain_offsets _ _ _ HA HbA) as [_ HoA]. destruct (chain_offsets _ _ _ HB HbB) as [_ HoB].
  rewrite Forall_forall in HoA, HoB. unfold min_alloc_size in H1. split.
  - destruct (last_free_in HEAP_NULL A) as [?|Hin]; [by right|left]. specialize (HoA _ Hin). cbn in HoA. lia.
  - destruct (first_free_in B HEAP_NULL) as [?|Hin]; [by right|left]. specialize (HoB _ Hin). cbn in HoB. lia.
Qed.

Lemma link_ok h A o sz B :
  around h A o sz true B →
  ∃ h', relink h o (last_free HEAP_NULL A) (first_free B HEAP_NULL) o o SET_FREE
      (λ b, SET_PREV_FREE (last_free HEAP_NULL A) (SET_NEXT_FREE (first_free B HEAP_NULL) b)) = Some h' ∧
    around h' A o sz false B ∧ same_size h h'.
Proof.
  intros Ha. eapply relink_ok; [exact Ha| |done|done]. intros pb pf nf -> ->.
  destruct Ha as [_ _ _ Hs]. destruct (block_facts _ _ _ _ _ _ Hs) as (_ & Hm & _).
  unfold SET_FREE, set_size, header. cbn -[field Z.ldiff]. by rewrite field_free.
Qed.

Lemma free_ok h A o sz B :
  heap_ok h (A ++ (o, sz, true) :: B) → apart (A ++ (o, sz, true) :: B) →
  ∃ h' L', free_sheep h (o + PREFIX) = Some h' ∧ heap_ok h' L' ∧ apart L' ∧ allocs L' = allocs A ++ allocs B ∧ same_size h h'.
Proof.
  intros Hh Hap. pose proof (proj1 (heap_around _ _ _ _ _ _) Hh) as Ha. pose proof Ha as [Hfr Hhere _ Hs].
  destruct (block_facts _ _ _ _ _ _ Hs) as (Hsz & _ & Ho & Hend & _). unfold min_alloc_size, HEADER in *.
  pose proof (fuel_enough _ _ Hh) as Hfuel. rewrite length_app in Hfuel. cbn in Hfuel.
  unfold free_sheep. replace (o + PREFIX - PREFIX) with o by lia.
  rewrite (proj2 (Z.ltb_lt head_block o)), (proj2 (Z.ltb_lt o _)) by (unfold head_block; lia). cbn [andb negb].
  pose proof (find_prev_free_ok h (A ++ [(o, sz, true)]) (FUEL h) B) as Epf.
  rewrite last_off_app, last_free_app, <- app_assoc, length_app in Epf. cbn in Epf. rewrite Epf by (done || lia). cbn [mbind option_bind].
  rewrite null_or_head. destruct (front_next _ _ _ Hfr) as (bl & Hbl & Enf). rewrite (Hbl : rd h _ = _). cbn [mbind option_bind].
  destruct (links_ptr _ _ _ _ _ _ Ha) as (_ & En & _). rewrite Enf, En.
  destruct (links_order _ _ _ _ _ _ Ha) as [O1 O2].
  replace ((last_free HEAP_NULL A <? o) || (last_free HEAP_NULL A =? HEAP_NULL)) with true
    by (symmetry; apply orb_true_iff; destruct O1; [left; by apply Z.ltb_lt|right; by apply Z.eqb_eq]).
  replace ((o <? first_free B HEAP_NULL) || (first_free B HEAP_NULL =? HEAP_NULL)) with true
    by (symmetry; apply orb_true_iff; destruct O2; [left; by apply Z.ltb_lt|right; by apply Z.eqb_eq]).
  cbn [andb negb]. destruct (link_ok _ _ _ _ _ Ha) as (h4 & E4 & Ha4 & [Hs4 Hff4]). unfold relink in E4. rewrite null_or_head in E4.
  destruct (wr h o SET_FREE) as [h1|]; [|done]. cbn [mbind option_bind] in *.
  destruct (wr h1 _ _) as [h2|]; [|done]. cbn [mbind option_bind] in *.
  destruct (wr_unless_null h2 _ _) as [h3|]; [|done]. cbn [mbind option_bind] in *. rewrite E4. cbn [mbind option_bind].
  apply apart_pieces in Hap as [HapA HapB]. apply (apart_pieces [_]) in HapB as [_ HapB].
  destruct (join_ok (FUEL h) h4 A o sz B Ha4 HapA HapB) as (h' & A' & o' & sz' & B' & E & Ha' & Hap' & H1 & H2 & [H3 H4]); [lia|].
  exists h', (A' ++ (o', sz', false) :: B'). split_and!; [done|by apply heap_around|done| |split; congruence].
  rewrite allocs_app, <- H1, <- H2. done.
Qed.

(** ** Initialisation *)

Lemma init_ok sz ff h :
  init_sheep sz ff = Some h → heap_ok h [(HEADER, sz - HEADER, false)] ∧ heap_size h = sz ∧ first_fit h = ff.
Proof.
  unfold init_sheep. destruct (_ && _) eqn:E; [|done]. intros [= <-].
  apply andb_true_iff in E as [[H1 H2]%andb_true_iff H3]. bool_to_prop.
  assert (sz mod 8 = 0) as H8.
  { pose proof (Z.div_mod sz 4096 ltac:(lia)) as Hd. rewrite H2 in Hd. rewrite Hd.
    replace (4096 * (sz / 4096) + 0) with ((512 * (sz / 4096)) * 8) by lia. apply Z.mod_mul. lia. }
  assert ((sz - HEADER) mod 8 = 0) as Hm by (unfold HEADER; rewrite Zminus_mod, H8; done).
  split; [|done]. constructor; cbn -[field].
  - done.
  - split; [|done]. etransitivity; [by apply lookup_insert_ne|]. etransitivity; [apply lookup_insert_eq|].
    unfold SET_SIZE, set_size, header. cbn -[field wrap32 Z.land Z.lor Z.shiftr]. do 2 f_equal. apply (field_set 0 _ false); [done|done|unfold HEADER; lia].
  - unfold HEADER. split; [done|lia].
  - constructor; [|constructor]. split; cbn; [unfold min_alloc_size, HEADER; lia|done].
  - done.
Qed.

(** ** A client *)

(** The heaps that a client can see that asks for memory and gives back only what it has, with
    the sizes it asked for. *)
Inductive client (N : Z) (ff : bool) : sheep → gmap Z Z → Prop :=
  | client_init h : init_sheep N ff = Some h → client N ff h ∅
  | client_malloc h live sz h' p :
      client N ff h live → request_ok sz → malloc_sheep h sz = Some (h', Some p) → client N ff h' (<[p := sz]> live)
  | client_full h live sz h' :
      client N ff h live → request_ok sz → malloc_sheep h sz = Some (h', None) → client N ff h' live
  | client_free h live p sz h' :
      client N ff h live → live !! p = Some sz → free_sheep h p = Some h' → client N ff h' (delete p live).

Record serves (N : Z) (ff : bool) (h : sheep) (live : gmap Z Z) (L : list blk) : Prop := mk_serves {
  sv_heap : heap_ok h L;
  sv_apart : apart L;
  sv_size : heap_size h = N ∧ first_fit h = ff;
  sv_live p sz : live !! p = Some sz → ∃ s, (p - PREFIX, s, true) ∈ L ∧ block_size sz <= s < block_size sz + min_alloc_size ∧ request_ok sz;
  sv_alloc o s : (o, s, true) ∈ L → is_Some (live !! (o + PREFIX));
}.

Lemma in_allocs o s L : (o, s, true) ∈ allocs L ↔ (o, s, true) ∈ L.
Proof. unfold allocs. rewrite list_elem_of_filter. naive_solver. Qed.

Lemma in_offsets o s (al : bool) L : (o, s, al) ∈ L → o ∈ offsets L.
Proof. intros H. unfold offsets. apply list_elem_of_fmap. by exists (o, s, al). Qed.

Lemma same_offset hs L o s al s' al' : shape hs L → (o, s, al) ∈ L → (o, s', al') ∈ L → s = s' ∧ al = al'.
Proof.
  intros [Hc Hb _]. revert Hc. generalize HEADER. induction L as [|[[a sa] ala] L IH]; intros x; [by intros _ ?%not_elem_of_nil|].
  cbn. intros [-> Hc]. apply Forall_cons in Hb as [[Hm _] HbL]. cbn in Hm. unfold min_alloc_size in Hm.
  destruct (chain_offsets _ _ _ Hc HbL) as [_ Hr]. rewrite Forall_forall in Hr.
  intros [E1|H1]%elem_of_cons [E2|H2]%elem_of_cons.
  - injection E1 as -> -> ->. by injection E2 as -> ->.
  - injection E1 as -> -> ->. specialize (Hr _ (in_offsets _ _ _ _ H2)). cbn in Hr. lia.
  - injection E2 as -> -> ->. specialize (Hr _ (in_offsets _ _ _ _ H1)). cbn in Hr. lia.
  - by eapply IH.
Qed.

Lemma blocks_disjoint hs L o s al o' s' al' :
  shape hs L → (o, s, al) ∈ L → (o', s', al') ∈ L → o ≠ o' → o + s <= o' ∨ o' + s' <= o.
Proof.
  intros [Hc Hb _]. revert Hc. generalize HEADER. induction L as [|[[a sa] ala] L IH]; intros x; [by intros _ ?%not_elem_of_nil|].
  cbn. intros [-> Hc]. apply Forall_cons in Hb as [_ HbL].
  destruct (chain_offsets _ _ _ Hc HbL) as [_ Hr]. rewrite Forall_forall in Hr.
  intros [E1|H1]%elem_of_cons [E2|H2]%elem_of_cons Hne.
  - congruence.
  - injection E1 as -> -> ->. specialize (Hr _ (in_offsets _ _ _ _ H2)). cbn in Hr. lia.
  - injection E2 as -> -> ->. specialize (Hr _ (in_offsets _ _ _ _ H1)). cbn in Hr. lia.
  - by eapply IH.
Qed.

(** Free blocks are as large as can be: bytes that no block in use covers are in one of them. *)
Lemma gap_covered n L : ∀ o e x,
  chain o L e → Forall block_ok L → apart L → (∀ a s, (a, s, false) ∈ L → s < n) → o <= x → x + n <= e → 0 < n →
  ∃ a s, (a, s, true) ∈ L ∧ a < x + n ∧ x < a + s.
Proof.
  induction L as [|[[a sa] al] L IH]; intros o e x Hc Hb Hap Hn Hx He Hpos; cbn in Hc; [lia|].
  destruct Hc as [-> Hc]. apply Forall_cons in Hb as [[Hm _] Hb]. cbn in Hm.
  destruct (Z.lt_ge_cases x (o + sa)) as [Hlt|Hge].
  - destruct al; [exists o, sa; split; [by left|lia]|]. specialize (Hn o sa (list_elem_of_here _ _)) as Hsa.
    destruct L as [|[[b sb] alb] L]; cbn in Hc; [lia|]. destruct Hc as [-> Hc]. cbn in Hap. destruct Hap as [[?| ->] _]; [done|].
    apply Forall_cons in Hb as [[Hmb _] _]. cbn in Hmb. unfold min_alloc_size in *.
    exists (o + sa), sb. split; [right; by left|lia].
  - destruct (IH (o + sa) e x Hc Hb) as (a' & s' & Hin & H); [|intros; eapply Hn; by right|lia|lia|lia|].
    + by apply (apart_pieces [_]) in Hap as [_ ?].
    + exists a', s'. split; [by right|done].
Qed.

Definition extent (s n : Z) : Z := if s - n <? min_alloc_size then s else n.

Lemma taken_in A o s n B x y :
  (x, y, true) ∈ A ++ taken o s n ++ B ↔ (x, y, true) ∈ A ++ (o, s, false) :: B ∨ x = o ∧ y = extent s n.
Proof.
  unfold taken, extent. rewrite !elem_of_app, elem_of_cons. destruct (_ <? _).
  - rewrite list_elem_of_singleton. naive_solver.
  - rewrite !elem_of_cons, elem_of_nil. naive_solver.
Qed.

(** A block in use may stand for a free one. *)
Lemma apart_use A o s sz B : apart (A ++ (o, s, false) :: B) → apart (A ++ (o, sz, true) :: B).
Proof.
  intros (HA & HB & _ & _)%apart_middle. assert (apart ((o, sz, true) :: B)) as H.
  { destruct B as [|[[? ?] ?] B]; cbn; auto. }
  clear HB. induction A as [|[[a sa] al] A IH]; [done|].
  destruct A as [|[[a2 sa2] al2] A]; cbn in *; [auto|]. destruct HA as [? HA]. split; [done|by apply IH].
Qed.

Lemma apart_taken A o s n B : apart (A ++ (o, s, false) :: B) → apart (A ++ taken o s n ++ B).
Proof.
  intros H. unfold taken. destruct (_ <? _); cbn [app]; [by eapply apart_use|].
  rewrite cons_middle, app_assoc. apply apart_middle. pose proof H as (_ & HB & _ & Hf)%apart_middle.
  split; [|split; [done|split; [apply last_alloc_snoc|done]]].
  apply (apart_use _ o s n) in H. rewrite cons_middle, app_assoc in H. by apply apart_pieces in H as [? _].
Qed.

Lemma malloc_serves N ff h live L sz :
  serves N ff h live L → request_ok sz →
  (malloc_sheep h sz = Some (h, None) ∧ ∀ o s, (o, s, false) ∈ L → s < block_size sz) ∨
  ∃ h' p L', malloc_sheep h sz = Some (h', Some p) ∧ live !! p = None ∧ serves N ff h' (<[p := sz]> live) L'.
Proof.
  intros [Hh Hap [<- <-] Hl Ha] Hsz.
  destruct (malloc_ok _ _ _ Hh Hsz) as [?|(A & o & s & B & h' & -> & Hle & E & Hh' & Hs' & Hff' & _)]; [by left|right].
  exists h', (o + PREFIX), (A ++ taken o s (block_size sz) ++ B). split; [done|].
  assert (live !! (o + PREFIX) = None) as Hfresh.
  { destruct (live !! (o + PREFIX)) as [z|] eqn:El; [|done]. destruct (Hl _ _ El) as (s' & Hin & _).
    replace (o + PREFIX - PREFIX) with o in Hin by lia.
    destruct (same_offset _ _ _ _ _ s false (heap_shape _ _ Hh) Hin); [set_solver|done]. }
  split; [done|]. constructor; [done|by apply apart_taken|done| |].
  - intros p z. destruct (decide (p = o + PREFIX)) as [->|Hne].
    + rewrite lookup_insert_eq. intros [= <-]. exists (extent s (block_size sz)). split; [|split; [|done]].
      * rewrite taken_in. right. split; [lia|done].
      * unfold extent. destruct (_ <? _) eqn:Ed; bool_to_prop; unfold min_alloc_size in *; lia.
    + rewrite lookup_insert_ne by done. intros (s' & Hin & H)%Hl. exists s'. split; [|done]. rewrite taken_in. by left.
  - intros o' s'. rewrite taken_in. intros [Hin|[-> _]].
    + rewrite lookup_insert_ne; [by eapply Ha|]. intros Eo. destruct (Ha _ _ Hin) as [z Hz]. congruence.
    + rewrite lookup_insert_eq. done.
Qed.

Lemma free_serves N ff h live L p sz :
  serves N ff h live L → live !! p = Some sz →
  ∃ h' L', free_sheep h p = Some h' ∧ serves N ff h' (delete p live) L' ∧ ∀ o s, (o, s, true) ∈ L' → (o, s, true) ∈ L ∧ o ≠ p - PREFIX.
Proof.
  intros [Hh Hap [<- <-] Hl Ha] Hp. destruct (Hl _ _ Hp) as (s & Hin & _ & _).
  apply list_elem_of_split in Hin as (A & B & ->).
  destruct (free_ok _ _ _ _ _ Hh Hap) as (h' & L' & E & Hh' & Hap' & Hal & Hss).
  replace (p - PREFIX + PREFIX) with p in E by lia.
  destruct (shape_places _ _ _ _ _ _ (heap_shape _ _ Hh)) as [(_ & HnA & HnB) _ _ _].
  assert (∀ o s', (o, s', true) ∈ L' ↔ (o, s', true) ∈ A ++ B) as Hin.
  { intros o s'. rewrite <- in_allocs, Hal, <- allocs_app, in_allocs. done. }
  assert (∀ o s', (o, s', true) ∈ L' → (o, s', true) ∈ A ++ (p - PREFIX, s, true) :: B ∧ o ≠ p - PREFIX) as Hold.
  { intros o s' Hin'%Hin. rewrite elem_of_app in Hin'. split; [rewrite elem_of_app, elem_of_cons; tauto|].
    intros ->. destruct Hin' as [?%in_offsets|?%in_offsets]; done. }
  exists h', L'. split; [done|]. split; [|exact Hold]. constructor; [done|done|done| |].
  - intros q z. rewrite lookup_delete_Some. intros [Hne (s' & Hin' & H)%Hl]. exists s'. split; [|done]. apply Hin.
    rewrite elem_of_app, elem_of_cons in Hin'. rewrite elem_of_app. destruct Hin' as [?|[[= E' _]|?]]; [by left| |by right].
    exfalso. apply Hne. lia.
  - intros o s' [Hin' Hne]%Hold. rewrite lookup_delete_ne by lia. by apply (Ha _ s').
Qed.

(** What was given back can be had again. *)
Lemma reuse_serves N ff h live L p sz h' :
  serves N ff h live L → live !! p = Some sz → free_sheep h p = Some h' → ∃ h'' q, malloc_sheep h' sz = Some (h'', Some q).
Proof.
  intros HL Hp Hf. destruct (free_serves _ _ _ _ _ _ _ HL Hp) as (h2 & L' & E & HL' & Hold). rewrite Hf in E. injection E as <-.
  destruct HL as [Hh _ [HN _] Hl _]. destruct (Hl _ _ Hp) as (s & Hin & Hs & Hr).
  destruct (malloc_serves _ _ _ _ _ _ HL' Hr) as [[_ Hn]|(h2 & q & L2 & E & _)]; [|eauto].
  destruct (block_size_ok _ Hr) as (_ & _ & Hpos & _). unfold min_alloc_size in Hpos.
  pose proof HL' as [Hh' Hap' [HN' _] _ _]. pose proof (list_elem_of_split _ _ Hin) as (A & B & EL). rewrite EL in Hh.
  destruct (block_facts _ _ _ _ _ _ (heap_shape _ _ Hh)) as (_ & _ & H1 & H2 & _). rewrite <- EL in Hh.
  destruct (gap_covered (block_size sz) L' HEADER (heap_size h') (p - PREFIX)) as (a & sa & Hina & Ha1 & Ha2);
    [apply Hh'|apply Hh'|done|done|lia|lia|lia|].
  destruct (Hold _ _ Hina) as [Hina' Hne]. destruct (blocks_disjoint _ _ _ _ _ _ _ _ (heap_shape _ _ Hh) Hina' Hin); [done|lia|lia].
Qed.

Lemma serves_range N ff h live L p sz :
  serves N ff h live L → live !! p = Some sz → HEADER + PREFIX <= p ∧ p + sz <= N ∧ 0 < sz.
Proof.
  intros [Hh _ [<- _] Hl _] (s & (A & B & ->)%list_elem_of_split & Hs & Hr)%Hl.
  destruct (block_facts _ _ _ _ _ _ (heap_shape _ _ Hh)) as (_ & _ & H1 & H2 & _).
  destruct (block_size_ok _ Hr) as (_ & _ & _ & H3). destruct Hr. unfold HEADER, PREFIX in *. lia.
Qed.

Lemma client_serves N ff h live : client N ff h live → ∃ L, serves N ff h live L.
Proof.
  induction 1 as [h Hi|h live sz h' p _ [L HL] Hsz Hm|h live sz h' _ [L HL] Hsz Hm|h live p sz h' _ [L HL] Hp Hf].
  - destruct (init_ok _ _ _ Hi) as (Hh & Hs). eexists. constructor; [exact Hh|done|done|done|].
    intros o s. rewrite list_elem_of_singleton. done.
  - destruct (malloc_serves _ _ _ _ _ _ HL Hsz) as [[E _]|(h2 & p2 & L' & E & _ & HL')]; [congruence|].
    rewrite E in Hm. injection Hm as -> ->. by exists L'.
  - destruct (malloc_serves _ _ _ _ _ _ HL Hsz) as [[E _]|(h2 & p2 & L' & E & _ & HL')]; [|congruence].
    rewrite E in Hm. injection Hm as ->. by exists L.
  - destruct (free_serves _ _ _ _ _ _ _ HL Hp) as (h2 & L' & E & HL' & _). rewrite E in Hf. injection Hf as ->. by exists L'.
Qed.

(** ** The test of the heap *)

Definition prev_of (A : list blk) : option Z := match A with [] => None | _ => Some (last_off head_block A) end.
Definition free_before (A : list blk) : option Z :=
  if last_free HEAP_NULL A =? HEAP_NULL then None else Some (last_free HEAP_NULL A).

Lemma prev_split h A o sz al B :
  around h A o sz al B →
  A = [] ∨ ∃ A0 p sp alp, A = A0 ++ [(p, sp, alp)] ∧ prev_of A = Some p ∧ around h A0 p sp alp ((o, sz, al) :: B) ∧
    o = p + sp ∧ HEADER <= p ∧ last_off head_block A = p ∧ sp mod 8 = 0 ∧ 0 < sp.
Proof.
  intros Ha. destruct A as [|[[p sp] alp] A _] using rev_ind; [by left|right]. exists A, p, sp, alp. split; [done|].
  rewrite <- heap_around, <- app_assoc in Ha. apply (heap_around _ _ _ _ _ ((o, sz, al) :: B)) in Ha.
  pose proof Ha as [_ _ _ Hs]. destruct (shape_join _ _ _ _ _ _ _ _ _ true Hs) as [_ Eo].
  destruct (block_facts _ _ _ _ _ _ Hs) as (H1 & H2 & H3 & _). unfold min_alloc_size in H1.
  assert (last_off head_block (A ++ [(p, sp, alp)]) = p) as El by (by rewrite last_off_app).
  split; [destruct A; cbn in *; by rewrite ?El|]. split_and!; try done. lia.
Qed.

Lemma le_or_null x y : x < y ∨ x = HEAP_NULL → (x <? y) || (x =? HEAP_NULL) = true.
Proof. intros [?| ->]; apply orb_true_iff; [left; by apply Z.ltb_lt|by right]. Qed.
Lemma ge_or_null x y : y < x ∨ x = HEAP_NULL → (y <? x) || (x =? HEAP_NULL) = true.
Proof. intros [?| ->]; apply orb_true_iff; [left; by apply Z.ltb_lt|by right]. Qed.

Lemma apart_neighbours A o sz B : apart (A ++ (o, sz, false) :: B) → last_alloc true A = true ∧ first_alloc B = true.
Proof. intros (_ & _ & ? & ?)%apart_middle. done. Qed.

Lemma first_off_order h A o sz al B : around h A o sz al B → o < first_off B ∨ first_off B = HEAP_NULL.
Proof.
  intros [_ _ _ Hs]. destruct B as [|[[b sb] alb] B]; [by right|left]. cbn.
  destruct (shape_join _ _ _ _ _ _ _ _ _ true Hs) as [_ ->].
  destruct (block_facts _ _ _ _ _ _ Hs) as (H1 & _). unfold min_alloc_size in H1. lia.
Qed.

Lemma check_block_ok h A o sz al B :
  around h A o sz al B → apart (A ++ (o, sz, al) :: B) → check_block h o (prev_of A) = Some true.
Proof.
  intros Ha Hap. pose proof Ha as [_ Hh _ Hs]. destruct (block_facts _ _ _ _ _ _ Hs) as (Hsz & Hm & Ho & Hend & _).
  destruct (links_ptr _ _ _ _ _ _ Ha) as (Ep & En & Eb). destruct (links_order _ _ _ _ _ _ Ha) as [O1 O2].
  unfold check_block. rewrite (Hh : rd h o = _). cbn [mbind option_bind]. rewrite (next_block_around _ _ _ _ _ _ Ha). cbn [mbind option_bind].
  rewrite alloc_header, size_header by done. cbn [prev_block header]. rewrite Eb.
  assert (match prev_of A with
    | Some p => pb ← rd h p; p_next ← NEXT_BLOCK h p;
        Some ((p_next =? o) && (last_off head_block A =? p) && negb (last_off head_block A =? HEAP_NULL) && (al || negb (IS_FREE pb)) && (p + SIZE pb =? o))
    | None => Some (last_off head_block A =? HEAP_NULL) end = Some true ∧ (last_off head_block A < o ∨ last_off head_block A = HEAP_NULL)) as [-> O3].
  { destruct (prev_split _ _ _ _ _ _ Ha) as [-> | (A0 & p & sp & alp & EA & Epr & Ha' & Eo & Hp & Elast & Hmp & Hsp)]; [split; [done|by right]|].
    rewrite Epr, Elast. pose proof Ha' as [_ Hp' _ _]. rewrite (Hp' : rd h p = _), (next_block_around _ _ _ _ _ _ Ha'). cbn [mbind option_bind first_off].
    unfold IS_FREE. rewrite size_header, alloc_header, !Z.eqb_refl by done. unfold HEADER in Hp.
    rewrite (proj2 (Z.eqb_neq p HEAP_NULL)), (proj2 (Z.eqb_eq (p + sp) o)) by (unfold HEAP_NULL; lia). cbn [andb negb].
    split; [|left; lia]. rewrite negb_involutive, andb_true_r. destruct al; [done|]. cbn.
    apply apart_neighbours in Hap as [Hl _]. rewrite EA, last_alloc_snoc in Hl. by rewrite Hl. }
  cbn [mbind option_bind].
  assert ((if al || (first_off B =? HEAP_NULL) then Some true else nb ← rd h (first_off B); Some (negb (IS_FREE nb))) = Some true) as ->.
  { destruct al; [done|]. cbn [orb]. destruct (first_off B =? HEAP_NULL); [done|].
    destruct (next_header _ _ _ _ _ _ Ha) as (nb & -> & Ef). cbn. rewrite Ef, negb_involutive.
    apply apart_neighbours in Hap as [_ Hf]. by rewrite Hf. }
  cbn [mbind option_bind]. f_equal. unfold HEADER, min_alloc_size in *.
  rewrite (proj2 (Z.leb_le 0 o)), (proj2 (Z.ltb_lt o _)), (proj2 (Z.ltb_lt sz _)), (proj2 (Z.leb_le _ sz)) by lia.
  rewrite (ge_or_null _ _ (first_off_order _ _ _ _ _ _ Ha)), (le_or_null _ _ O3). cbn [andb].
  destruct al; cbn [next_free prev_free header andb].
  { change (PTR (VAL HEAP_NULL)) with HEAP_NULL. by rewrite (ge_or_null HEAP_NULL o), (le_or_null HEAP_NULL o) by auto. }
  rewrite Ep, En. by rewrite (ge_or_null _ _ O2), (le_or_null _ _ O1).
Qed.

Lemma check_free_ok h A o sz B :
  around h A o sz false B → check_free h o (free_before A) = Some true.
Proof.
  intros Ha. pose proof Ha as [Hf Hh _ Hs]. destruct (block_facts _ _ _ _ _ _ Hs) as (Hsz & Hm & Ho & Hend & _).
  destruct (links_ptr _ _ _ _ _ _ Ha) as (Ep & En & Eb). destruct (links_order _ _ _ _ _ _ Ha) as [O1 O2].
  unfold check_free. rewrite (Hh : rd h o = _). cbn [mbind option_bind]. unfold IS_FREE.
  rewrite alloc_header, size_header by done. cbn [prev_free prev_block next_free header]. rewrite Eb, Ep, En.
  assert (match free_before A with
    | Some p => pb ← rd h p; Some ((PTR (next_free pb) =? o) && (last_free HEAP_NULL A =? p) && negb (last_off head_block A =? HEAP_NULL))
    | None => Some (last_free HEAP_NULL A =? HEAP_NULL) end = Some true) as ->.
  { unfold free_before. destruct (last_free HEAP_NULL A =? HEAP_NULL) eqn:El; [done|].
    destruct (front_next _ _ _ Hf) as (bl & Hbl & Enf). rewrite (Hbl : rd h _ = _). cbn [mbind option_bind]. rewrite Enf.
    rewrite PTR_VAL by (eapply shape_offset; [exact Hs|rewrite offsets_app; set_solver]). rewrite !Z.eqb_refl. cbn [andb].
    destruct (prev_split _ _ _ _ _ _ Ha) as [-> | (A0 & p & sp & alp & _ & _ & _ & _ & Hp & Elast & _)]; [done|].
    unfold HEADER in Hp. rewrite Elast, (proj2 (Z.eqb_neq p HEAP_NULL)) by (unfold HEAP_NULL; lia). done. }
  cbn [mbind option_bind]. f_equal. unfold HEADER, min_alloc_size in *.
  rewrite (proj2 (Z.leb_le 0 o)), (proj2 (Z.ltb_lt o _)), (proj2 (Z.ltb_lt sz _)), (proj2 (Z.leb_le _ sz)) by lia.
  by rewrite (ge_or_null _ _ O2), (le_or_null _ _ O1).
Qed.

Definition count (al : bool) (L : list blk) : Z := Z.of_nat (length (filter (λ b : blk, b.2 = al) L)).

Lemma count_cons al o sz al' L : count al ((o, sz, al') :: L) = (if Bool.eqb al al' then 1 else 0) + count al L.
Proof. unfold count. rewrite filter_cons. destruct al, al'; case_decide; try done; cbn [length Bool.eqb]; lia. Qed.

Lemma count_length L : Z.of_nat (length L) = count true L + count false L.
Proof. induction L as [|[[o sz] []] L IH]; [done| |]; rewrite !count_cons; cbn [Bool.eqb length]; lia. Qed.

Lemma first_off_pos h A o sz al B : around h A o sz al B → (o =? HEAP_NULL) = false.
Proof. intros [_ _ _ Hs]. destruct (block_facts _ _ _ _ _ _ Hs) as (_ & _ & H & _). apply Z.eqb_neq. unfold HEADER, HEAP_NULL in *. lia. Qed.

Lemma validate_blocks_ok h B : ∀ fuel A n a f,
  heap_ok h (A ++ B) → apart (A ++ B) → (length B < fuel)%nat →
  validate_blocks fuel h (first_off B) (prev_of A) n a f =
    Some (n + Z.of_nat (length B), a + count true B, f + count false B).
Proof.
  induction B as [|[[o sz] al] B IH]; intros fuel A n a f Hh Hap Hf; (destruct fuel as [|fuel]; [cbn in Hf; lia|]); cbn [first_off validate_blocks].
  { cbn. by rewrite !Z.add_0_r. }
  pose proof (proj1 (heap_around _ _ _ _ _ _) Hh) as Ha. pose proof Ha as [_ Hhere _ Hs]. destruct (block_facts _ _ _ _ _ _ Hs) as (_ & Hm & _).
  rewrite (first_off_pos _ _ _ _ _ _ Ha), (check_block_ok _ _ _ _ _ _ Ha Hap), (Hhere : rd h o = _), (next_block_around _ _ _ _ _ _ Ha).
  cbn [mbind option_bind]. rewrite alloc_header by done. rewrite cons_middle, app_assoc in Hh, Hap.
  assert (Some o = prev_of (A ++ [(o, sz, al)])) as ->.
  { assert (last_off head_block (A ++ [(o, sz, al)]) = o) as El by (by rewrite last_off_app). destruct A; cbn in *; by rewrite ?El. }
  rewrite IH by (done || (cbn in Hf; lia)). rewrite !count_cons. cbn [length]. f_equal. destruct al; cbn [Bool.eqb]; apply pair_equal_spec; (split; [apply pair_equal_spec; split|]); lia.
Qed.

Lemma validate_frees_ok h B : ∀ fuel A n,
  heap_ok h (A ++ B) → (length B < fuel)%nat →
  validate_frees fuel h (first_free B HEAP_NULL) (free_before A) n = Some (n + count false B).
Proof.
  induction B as [|[[o sz] al] B IH]; intros fuel A n Hh Hf.
  { destruct fuel as [|fuel]; [cbn in Hf; lia|]. cbn. by rewrite Z.add_0_r. }
  pose proof (proj1 (heap_around _ _ _ _ _ _) Hh) as Ha. rewrite cons_middle, app_assoc in Hh. cbn in Hf. rewrite count_cons. cbn [first_free].
  assert (free_before (A ++ [(o, sz, al)]) = if al then free_before A else Some o) as Eb.
  { unfold free_before. rewrite last_free_app. cbn [last_free]. destruct al; [done|]. by rewrite (first_off_pos _ _ _ _ _ _ Ha). }
  destruct al; [rewrite <- Eb, IH by (done || lia); done|]. destruct fuel as [|fuel]; [lia|]. cbn [validate_frees].
  pose proof Ha as [_ Hhere _ _]. destruct (links_ptr _ _ _ _ _ _ Ha) as (_ & En & _).
  rewrite (first_off_pos _ _ _ _ _ _ Ha), (check_free_ok _ _ _ _ _ Ha), (Hhere : rd h o = _). cbn [mbind option_bind next_free header].
  rewrite En, <- Eb, IH by (done || lia). f_equal. cbn. lia.
Qed.

Lemma validate_ok h L : heap_ok h L → apart L → L ≠ [] → validate_sheep h = Some true.
Proof.
  intros Hh Hap Hne. pose proof (fuel_enough _ _ Hh) as Hf. unfold validate_sheep.
  assert (NEXT_BLOCK h head_block = Some (first_off L)) as ->.
  { unfold NEXT_BLOCK. rewrite (ok_head _ _ Hh : rd h head_block = _). cbn [mbind option_bind]. unfold SIZE. cbn [size]. rewrite field_size by done.
    destruct L as [|[[o sz] al] L]; [done|]. destruct (block_facts _ [] _ _ _ _ (heap_shape _ _ Hh)) as (H1 & _ & H2 & H3 & _).
    destruct (ok_chain _ _ Hh) as [-> _]. unfold min_alloc_size, head_block, HEADER in *. cbn in H3. rewrite (proj2 (Z.leb_gt _ _)) by lia. done. }
  cbn [mbind option_bind].
  pose proof (validate_blocks_ok h L (FUEL h) [] 0 0 0 Hh Hap Hf) as E1. cbn [prev_of] in E1. rewrite E1. cbn [mbind option_bind].
  rewrite (ok_head _ _ Hh : rd h head_block = _). cbn [mbind option_bind next_free].
  rewrite (ptr_ok _ _ _ (heap_shape _ _ Hh)) by (destruct (first_free_in L HEAP_NULL); auto).
  pose proof (validate_frees_ok h L (FUEL h) [] 0 Hh Hf) as E2. change (free_before []) with (@None Z) in E2. rewrite E2. cbn [mbind option_bind].
  rewrite !Z.add_0_l, Z.eqb_refl, count_length, Z.eqb_refl. done.
Qed.

Lemma serves_nonempty N ff h live L : serves N ff h live L → 4096 <= N → L ≠ [].
Proof. intros [Hh _ [<- _] _ _] H ->. destruct Hh as [_ _ Hc _ _]. cbn in Hc. unfold HEADER in Hc. lia. Qed.

Lemma client_size N ff h live : client N ff h live → 4096 <= N.
Proof.
  induction 1 as [h H| | |]; [|done..]. unfold init_sheep in H. destruct (_ && _) eqn:E; [|done].
  apply andb_true_iff in E as [[H1 _]%andb_true_iff _]. by bool_to_prop.
Qed.

(** A step of a concrete client. *)
Ltac demo_step step n H :=
  eapply (step _ _ _ _ n) in H; [|unfold request_ok; lia|vm_compute; reflexivity].

(** ** Theorems *)

(** C19: whatever a client has allocated and freed, no assertion fails and the memory it has is its own: every block it holds
    is aligned, inside the heap and separate from all the others and from all headers; the next request is answered, a
    request that fails changes nothing, one that succeeds gives memory not yet in use; every block can be freed; and the
    heap passes its own test [validate_sheep]. *)
Theorem sheep_memory N ff h live :
  client N ff h live →
  (∀ p sz, live !! p = Some sz → p mod 8 = 0 ∧ HEADER + PREFIX <= p ∧ p + sz <= N) ∧
  (∀ p sz q sz', live !! p = Some sz → live !! q = Some sz' → p ≠ q → p + sz <= q - PREFIX ∨ q + sz' <= p - PREFIX) ∧
  (∀ sz, request_ok sz → ∃ h' r, malloc_sheep h sz = Some (h', r) ∧ match r with Some p => live !! p = None | None => h' = h end) ∧
  (∀ p, is_Some (live !! p) → ∃ h', free_sheep h p = Some h') ∧
  validate_sheep h = Some true.
Proof.
  intros Hc. destruct (client_serves _ _ _ _ Hc) as [L HL]. pose proof HL as [Hh Hap [<- Hff] Hl _].
  assert (∀ p sz, live !! p = Some sz → ∃ s, (p - PREFIX, s, true) ∈ L ∧ sz + PREFIX <= s) as Hin.
  { intros p sz (s & Hin & H1 & H2)%Hl. exists s. split; [done|]. destruct (block_size_ok _ H2) as (_ & _ & _ & H3). lia. }
  split_and!.
  - intros p sz (s & (A & B & ->)%list_elem_of_split & Hs)%Hin. pose proof (heap_shape _ _ Hh) as Hsh.
    destruct (block_facts _ _ _ _ _ _ Hsh) as (_ & _ & H1 & H2 & _).
    destruct (shape_offset _ _ (p - PREFIX) Hsh) as [[_ Hm] _]; [rewrite offsets_app; set_solver|].
    unfold HEADER, PREFIX in *. split; [|lia]. replace p with (p - 16 + 2 * 8) by lia. rewrite Z.mod_add by lia. done.
  - intros p sz q sz' (s & Hp & Hs)%Hin (s' & Hq & Hs')%Hin Hne.
    destruct (blocks_disjoint _ _ _ _ _ _ _ _ (heap_shape _ _ Hh) Hp Hq); [lia|left; lia|right; lia].
  - intros sz Hsz. destruct (malloc_serves _ _ _ _ _ _ HL Hsz) as [[E _]|(h' & p & L' & E & Hp & _)];
      [by exists h, None|by exists h', (Some p)].
  - intros p [sz Hp]. destruct (free_serves _ _ _ _ _ _ _ HL Hp) as (h' & L' & E & _). eauto.
  - eapply validate_ok; [done|done|]. eapply serves_nonempty; [exact HL|]. by eapply client_size.
Qed.

Lemma sheep_memory_witness :
  ∃ h, client 4096 false h {[ 152 := 50; 48 := 20 ]} ∧ (152 + 50 <= 48 - PREFIX ∨ 48 + 20 <= 152 - PREFIX) ∧
    (∃ h', free_sheep h 152 = Some h') ∧ validate_sheep h = Some true.
Proof.
  assert (∃ h, client 4096 false h {[ 152 := 50; 48 := 20 ]}) as [h Hc].
  { destruct (init_sheep 4096 false) as [h0|] eqn:E0; [|discriminate E0]. pose proof (client_init 4096 false h0 E0) as H0.
    vm_compute in E0. injection E0 as <-. demo_step client_malloc 85 H0. demo_step client_malloc 50 H0.
    eapply (client_free _ _ _ _ 48 85) in H0; [|vm_compute; reflexivity|vm_compute; reflexivity].
    demo_step client_malloc 20 H0. eexists. exact H0. }
  exists h. split; [exact Hc|]. destruct (sheep_memory 4096 false h _ Hc) as (_ & H1 & _ & H2 & H3).
  split; [|split; [|exact H3]].
  - apply (H1 152 50 48 20); [vm_compute; reflexivity|vm_compute; reflexivity|lia].
  - apply (H2 152). exists 50. vm_compute. reflexivity.
Defined.

(** a request is refused only when the heap is full: any bytes that would be enough for it overlap a block the client
    holds, as far as the block may reach (at most [min_alloc_size - 1] bytes beyond the rounded request).  Freed memory
    is never lost: a heap with nothing in use serves every request that fits into it. *)
Theorem sheep_full N ff h live sz h' x :
  client N ff h live → request_ok sz → malloc_sheep h sz = Some (h', None) →
  HEADER <= x → x + block_size sz <= N →
  ∃ p sz', live !! p = Some sz' ∧ p - PREFIX < x + block_size sz ∧ x < p - PREFIX + block_size sz' + min_alloc_size.
Proof.
  intros Hc Hsz Hm Hx Hend. destruct (client_serves _ _ _ _ Hc) as [L HL]. pose proof HL as [Hh Hap [<- Hff] Hl Ha].
  destruct (malloc_serves _ _ _ _ _ _ HL Hsz) as [[_ Hn]|(h2 & p & L' & E & _)]; [|congruence].
  destruct (block_size_ok _ Hsz) as (_ & _ & Hpos & _). unfold min_alloc_size in Hpos.
  destruct (gap_covered (block_size sz) L HEADER (heap_size h) x) as (a & s & Hin & H1 & H2);
    [apply Hh|apply Hh|done|done|done|done|lia|].
  destruct (Ha _ _ Hin) as [sz' Hsz']. exists (a + PREFIX), sz'. split; [done|]. destruct (Hl _ _ Hsz') as (s' & Hin' & Hs' & _).
  replace (a + PREFIX - PREFIX) with a in * by lia.
  destruct (same_offset _ _ _ _ _ _ _ (heap_shape _ _ Hh) Hin Hin') as [-> _]. lia.
Qed.

Lemma sheep_full_witness :
  ∃ h, client 4096 false h {[ 48 := 4000 ]} ∧ malloc_sheep h 100 = Some (h, None) ∧
    ∃ p sz', ({[ 48 := 4000 ]} : gmap Z Z) !! p = Some sz' ∧ p - PREFIX < 3900 + block_size 100 ∧
      3900 < p - PREFIX + block_size sz' + min_alloc_size.
Proof.
  assert (∃ h, client 4096 false h {[ 48 := 4000 ]} ∧ malloc_sheep h 100 = Some (h, None)) as (h & Hc & Hm).
  { destruct (init_sheep 4096 false) as [h0|] eqn:E0; [|discriminate E0]. pose proof (client_init 4096 false h0 E0) as H0.
    vm_compute in E0. injection E0 as <-. demo_step client_malloc 4000 H0. eexists. split; [exact H0|vm_compute; reflexivity]. }
  exists h. split; [exact Hc|]. split; [exact Hm|]. apply (sheep_full 4096 false h _ 100 h 3900 Hc); [|exact Hm| |].
  - unfold request_ok. lia.
  - vm_compute. discriminate.
  - vm_compute. discriminate.
Defined.

End Sheep.
