(* ===== verification/Lock.v ===== *)
(** * The lock in shared memory

    [take_lock], [test_lock] and [release_lock] of [shmutil.c]: a spin lock that its
    holder may take again.  The word of the lock and the thread that holds it are in
    shared memory, the count of the calls is in the process.

    The threads run step by step, every access to memory being a step of its own, in
    any order.  The theorem is that at most one of them is inside at any time, that
    the holder gets in again without waiting, and that it alone gets out. *)

From Stdlib Require Import ZArith Lia.
From stdpp Require Import numbers gmap list.
From S2P Require Import Prelude.

Module Lock.

(** ** Threads *)

(** Where a thread is. *)
Inductive pc :=
  | Outside (** of the three functions *)
  | TakeWord (** [take_lock]: reads the word, to see whether it is taken *)
  | TakeHolder (** [take_lock]: reads the holder, to see whether it is this thread *)
  | Spin (** reads the word until it is free *)
  | Swap (** [__sync_lock_test_and_set] *)
  | TestWord
  | TestHolder
  | TestFree (** [test_lock]: reads the word a second time *)
  | TestSwap
  | SetHolder (** the thread has the word, and writes itself as the holder *)
  | SetCount
  | FreeHolder (** [release_lock]: reads the holder *)
  | FreeCount (** reads and changes the count *)
  | FreeMark (** removes the holder *)
  | FreeWord. (** frees the word *)

#[export] Instance pc_eq_dec : EqDecision pc.
Proof. solve_decision. Defined.

(** A thread: where it is, and how often it is inside. *)
Record thread := mk_thread { at_ : pc; depth : Z }.

Record state := mk_state {
  lock : Z;
  held_by : Z;
  ref_count : gmap Z Z;
  threads : gmap Z thread;
}.

Definition NOBODY : Z := -1.

Section Threads.
(** The process of a thread. *)
Variable process : Z → Z.

Definition count (st : state) (t : Z) : Z := default 0 (ref_count st !! process t).

Definition go (st : state) (t : Z) (p : pc) (d : Z) : state :=
  mk_state (lock st) (held_by st) (ref_count st) (<[t := mk_thread p d]> (threads st)).
Definition set_lock (v : Z) (st : state) : state := mk_state v (held_by st) (ref_count st) (threads st).
Definition set_held_by (v : Z) (st : state) : state := mk_state (lock st) v (ref_count st) (threads st).
Definition set_count (t v : Z) (st : state) : state :=
  mk_state (lock st) (held_by st) (<[process t := v]> (ref_count st)) (threads st).

(** What [take_lock] and [test_lock] do with the answer of the swap, and when the holder is this thread. *)
Definition again (st : state) (t d : Z) : state := set_count t (count st t + 1) (go st t Outside (d + 1)).

(** The next step of a thread that is in one of the functions. *)
Definition thread_step (st : state) (t : Z) (th : thread) : option state :=
  let d := depth th in
  match at_ th with
  | Outside => None
  | TakeWord => Some (go st t (if lock st =? 1 then TakeHolder else Spin) d)
  | TakeHolder => Some (if held_by st =? t then again st t d else go st t Spin d)
  | Spin => Some (go st t (if lock st =? 1 then Spin else Swap) d)
  | Swap => Some (go (set_lock 1 st) t (if lock st =? 1 then Spin else SetHolder) d)
  | TestWord => Some (go st t (if lock st =? 1 then TestHolder else TestFree) d)
  | TestHolder => Some (if held_by st =? t then again st t d else go st t TestFree d)
  | TestFree => Some (go st t (if lock st =? 1 then Outside else TestSwap) d)
  | TestSwap => Some (go (set_lock 1 st) t (if lock st =? 1 then Outside else SetHolder) d)
  | SetHolder => Some (go (set_held_by t st) t SetCount d)
  | SetCount => Some (go (set_count t 1 st) t Outside 1)
  | FreeHolder => Some (go st t (if held_by st =? t then FreeCount else Outside) d)
  | FreeCount => Some (if 1 <? count st t then go (set_count t (count st t - 1) st) t Outside (d - 1)
                       else go (set_count t 0 st) t FreeMark d)
  | FreeMark => Some (go (set_held_by NOBODY st) t FreeWord d)
  | FreeWord => Some (go (set_lock 0 st) t Outside 0)
  end.

(** The calls. *)
Definition take_lock (st : state) (t : Z) (th : thread) : state := go st t TakeWord (depth th).
Definition test_lock (st : state) (t : Z) (th : thread) : state := go st t TestWord (depth th).
Definition release_lock (st : state) (t : Z) (th : thread) : state := go st t FreeHolder (depth th).

(** Shared memory starts as zeros; numbers of threads are positive. *)
Inductive reachable : state → Prop :=
  | reach_start ths : (∀ t th, ths !! t = Some th → 0 < t ∧ th = mk_thread Outside 0) → reachable (mk_state 0 0 ∅ ths)
  | reach_step st t th st' : reachable st → threads st !! t = Some th → thread_step st t th = Some st' → reachable st'
  | reach_take st t th : reachable st → threads st !! t = Some th → at_ th = Outside → reachable (take_lock st t th)
  | reach_test st t th : reachable st → threads st !! t = Some th → at_ th = Outside → reachable (test_lock st t th)
  | reach_release st t th : reachable st → threads st !! t = Some th → at_ th = Outside → reachable (release_lock st t th).

(** ** The invariant *)

(** The thread has the word of the lock. *)
Definition owns (th : thread) : Prop := at_ th = SetHolder ∨ at_ th = SetCount ∨ 0 < depth th.

(** What a thread knows, by where it is, when [mine] says whether it is the holder in shared memory. *)
Definition thread_ok (st : state) (t : Z) (th : thread) : Prop :=
  0 <= depth th ∧
  match at_ th with
  | SetHolder => depth th = 0 ∧ held_by st ≠ t
  | SetCount => depth th = 0 ∧ held_by st = t
  | FreeCount => 0 < depth th ∧ held_by st = t ∧ count st t = depth th
  | FreeMark => depth th = 1 ∧ held_by st = t ∧ count st t = 0
  | FreeWord => depth th = 1 ∧ held_by st ≠ t
  | Spin | Swap | TestFree | TestSwap => depth th = 0 ∧ held_by st ≠ t
  | _ => if 0 <? depth th then held_by st = t ∧ count st t = depth th else held_by st ≠ t
  end.

Record lock_ok (st : state) : Prop := mk_lock_ok {
  lk_bit : lock st = 0 ∨ lock st = 1;
  lk_word t th : threads st !! t = Some th → owns th → lock st = 1;
  lk_one t u th uh : threads st !! t = Some th → threads st !! u = Some uh → owns th → owns uh → t = u;
  lk_thread t th : threads st !! t = Some th → 0 < t ∧ thread_ok st t th;
  lk_owner : lock st = 1 → ∃ t th, threads st !! t = Some th ∧ owns th;
}.

Lemma other_ok st st' u uh :
  ¬ owns uh → 0 < u → thread_ok st u uh → held_by st' ≠ u → thread_ok st' u uh.
Proof.
  intros Hn Hu [Hd Hok] Hh. unfold owns in Hn. split; [done|].
  assert (depth uh = 0) as Hd0 by (destruct (Z.eq_dec (depth uh) 0); [done|]; destruct Hn; right; right; lia).
  rewrite Hd0 in *. destruct (at_ uh); cbn in *; try done; try (by destruct Hn; auto); lia.
Qed.

(** One thread moves: what has to be shown. *)
Lemma move_ok st st' t th th' :
  lock_ok st → threads st !! t = Some th → threads st' = <[t := th']> (threads st) → lock st' = 0 ∨ lock st' = 1 →
  thread_ok st' t th' → (owns th' → lock st' = 1) → (owns th' → owns th ∨ lock st = 0) →
  (lock st' = 1 ∨ lock st' = lock st ∨ owns th) → (lock st' = 1 → owns th' ∨ lock st = 1 ∧ ¬ owns th) →
  (held_by st' = held_by st ∧ ref_count st' = ref_count st ∨
   owns th ∧ (held_by st' = held_by st ∨ held_by st' = t ∨ held_by st' = NOBODY)) → lock_ok st'.
Proof.
  intros [Hb Hw Ho Ht Hlo] Hth Eth Hb' Hok Hl1 Hl2 Hl3 Hl4 Hch.
  assert (∀ u uh, u ≠ t → threads st !! u = Some uh → owns uh → owns th' → False) as Hex.
  { intros u uh Hne Hu Hou Hot. destruct (Hl2 Hot) as [Hot0|Hz]; [apply Hne; by eapply Ho|]. pose proof (Hw _ _ Hu Hou). lia. }
  split; [done| | | |]; rewrite Eth.
  - intros u uh [(-> & <-)|(Hne & Hu)]%lookup_insert_Some Hou; [by apply Hl1|]. destruct Hl3 as [?|[-> |Hot]]; [done|by eapply Hw|].
    destruct Hne. symmetry. by eapply Ho.
  - intros u v uh vh [(-> & <-)|(Hne & Hu)]%lookup_insert_Some [(-> & <-)|(Hne2 & Hv)]%lookup_insert_Some Hou Hov; [done| | |by eapply Ho].
    + exfalso. by apply (Hex v vh).
    + exfalso. by apply (Hex u uh).
  - intros u uh [(-> & <-)|(Hne & Hu)]%lookup_insert_Some; [split; [by eapply Ht|done]|]. destruct (Ht _ _ Hu) as [Hpos Hoku]. split; [done|].
    destruct Hch as [[Eh Er]|[Hot Hh]].
    + revert Hoku. unfold thread_ok, count. by rewrite Eh, Er.
    + assert (¬ owns uh) as Hnu by (intros Hou; apply Hne; by eapply Ho).
      eapply other_ok; [done|done|exact Hoku|]. destruct (Ht _ _ Hth) as [Hpt _]. unfold NOBODY in Hh.
      assert (held_by st ≠ u) as Hhu.
      { destruct Hoku as [Hd Hoku]. assert (depth uh = 0) as Hd0 by (destruct (Z.eq_dec (depth uh) 0); [done|]; destruct Hnu; right; right; lia).
        rewrite Hd0 in Hoku. unfold owns in Hnu. destruct (at_ uh); cbn in *; try done; try tauto; try lia. }
      destruct Hh as [-> |[-> | ->]]; [done|congruence|lia].
  - intros Hl. destruct (Hl4 Hl) as [Hot|[Hl0 Hot]]; [exists t, th'; by rewrite lookup_insert_eq|].
    destruct (Hlo Hl0) as (u & uh & Hu & Hou). exists u, uh. rewrite lookup_insert_ne; [done|]. intros <-. congruence.
Qed.

Lemma count_go st t p d : count (go st t p d) t = count st t.
Proof. done. Qed.
Lemma count_set st t v : count (set_count t v st) t = v.
Proof. unfold count. cbn. by rewrite lookup_insert_eq. Qed.

(** Shows that one move of a thread keeps the invariant, by cases on where it goes. *)
Ltac move_tac H Hth :=
  unfold again; eapply move_ok; [exact H|exact Hth|reflexivity|..]; clear H Hth;
  unfold thread_ok, owns in *; rewrite ?count_go, ?count_set, ?count_go in *; cbn in *;
  repeat match goal with |- context [0 <? ?x] => destruct (Z.ltb_spec 0 x) | H : context [0 <? ?x] |- _ => destruct (Z.ltb_spec 0 x) end;
  unfold NOBODY in *; try first [lia | congruence | by auto | intuition (congruence || lia)].

Lemma step_ok st t th st' : lock_ok st → threads st !! t = Some th → thread_step st t th = Some st' → lock_ok st'.
Proof.
  intros H Hth. pose proof H as [Hb Hw Ho Ht _]. destruct (Ht _ _ Hth) as [Hpos Hok].
  assert (owns th → lock st = 1) as Hown by exact (Hw _ _ Hth). assert (0 < depth th → owns th) as Hdep by (unfold owns; auto).
  destruct th as [p d]. unfold thread_step, thread_ok in *. cbn in *. destruct Hok as [Hd Hok].
  assert (0 < d → lock st = 1) as Hdl by auto. clear Hw Ho Ht.
  destruct p; [done|..]; intros [= <-].
  - destruct (lock st =? 1) eqn:El; bool_to_prop; move_tac H Hth.
  - destruct (held_by st =? t) eqn:Eh; bool_to_prop; move_tac H Hth.
  - destruct (lock st =? 1) eqn:El; bool_to_prop; move_tac H Hth.
  - destruct (lock st =? 1) eqn:El; bool_to_prop; move_tac H Hth.
  - destruct (lock st =? 1) eqn:El; bool_to_prop; move_tac H Hth.
  - destruct (held_by st =? t) eqn:Eh; bool_to_prop; move_tac H Hth.
  - destruct (lock st =? 1) eqn:El; bool_to_prop; move_tac H Hth.
  - destruct (lock st =? 1) eqn:El; bool_to_prop; move_tac H Hth.
  - move_tac H Hth.
  - move_tac H Hth.
  - destruct (held_by st =? t) eqn:Eh; bool_to_prop; move_tac H Hth.
  - destruct (1 <? count st t) eqn:Ec; bool_to_prop; move_tac H Hth.
  - move_tac H Hth.
  - move_tac H Hth.
Qed.


Lemma call_ok st t th p :
  lock_ok st → threads st !! t = Some th → at_ th = Outside → p = TakeWord ∨ p = TestWord ∨ p = FreeHolder → lock_ok (go st t p (depth th)).
Proof.
  intros H Hth Hout Hp. pose proof H as [Hb Hw _ Ht _]. destruct (Ht _ _ Hth) as [_ Hok].
  assert (owns th ↔ 0 < depth th) as Hown by (unfold owns; rewrite Hout; intuition congruence).
  assert (owns (mk_thread p (depth th)) ↔ 0 < depth th) as Hown' by (unfold owns; cbn; intuition congruence).
  eapply move_ok; [exact H|exact Hth|reflexivity|done| | | | | |by left].
  - destruct Hok as [Hd Hok]. rewrite Hout in Hok. split; [done|]. cbn. destruct Hp as [-> |[-> | ->]]; exact Hok.
  - rewrite Hown', <- Hown. by apply (Hw t).
  - rewrite Hown', <- Hown. by left.
  - right. by left.
  - intros Hl. destruct (Z.lt_ge_cases 0 (depth th)); [left; by apply Hown'|right]. split; [done|]. rewrite Hown. lia.
Qed.

Lemma reachable_ok st : reachable st → lock_ok st.
Proof.
  induction 1 as [ths Hi|st t th st' _ H Hth Hs|st t th _ H Hth Ho|st t th _ H Hth Ho|st t th _ H Hth Ho].
  - split; cbn; [by left| | | |done].
    + intros t th Ht. destruct (Hi _ _ Ht) as [_ ->]. unfold owns. cbn. intuition (congruence || lia).
    + intros t u th uh Ht Hu. destruct (Hi _ _ Ht) as [_ ->]. unfold owns. cbn. intuition (congruence || lia).
    + intros t th Ht. destruct (Hi _ _ Ht) as [Hp ->]. split; [done|]. split; [done|]. cbn. lia.
  - by eapply step_ok.
  - apply call_ok; auto.
  - apply call_ok; auto.
  - apply call_ok; auto.
Qed.

(** [n] steps of one thread. *)
Fixpoint alone (n : nat) (st : state) (t : Z) : option state :=
  match n with
  | O => Some st
  | S n' => th ← threads st !! t; st' ← thread_step st t th; alone n' st' t
  end.

Ltac run := repeat (cbn; rewrite ?lookup_insert_eq; cbn).

(** C21: the lock lets one thread in at a time, however the threads interleave: two threads that are inside are the same.
    When nobody has the word, a thread that asks gets in with its next steps; the thread inside gets in again
    without waiting; each call of [release_lock] undoes one call, the last one frees the lock for others; and
    [release_lock] by anybody else does nothing. *)
Theorem lock_excludes st :
  reachable st →
  (∀ t u th uh, threads st !! t = Some th → threads st !! u = Some uh → 0 < depth th → 0 < depth uh → t = u) ∧
  ((∀ t th, threads st !! t = Some th → ¬ owns th) → lock st = 0) ∧
  ∀ t d, threads st !! t = Some (mk_thread Outside d) →
    (lock st = 0 → ∃ st', alone 5 (take_lock st t (mk_thread Outside d)) t = Some st' ∧ threads st' !! t = Some (mk_thread Outside 1)) ∧
    (0 < d → ∃ st', alone 2 (take_lock st t (mk_thread Outside d)) t = Some st' ∧ threads st' !! t = Some (mk_thread Outside (d + 1))) ∧
    (1 < d → ∃ st', alone 2 (release_lock st t (mk_thread Outside d)) t = Some st' ∧ threads st' !! t = Some (mk_thread Outside (d - 1)) ∧ lock st' = 1) ∧
    (d = 1 → ∃ st', alone 4 (release_lock st t (mk_thread Outside d)) t = Some st' ∧ threads st' !! t = Some (mk_thread Outside 0) ∧ lock st' = 0) ∧
    (d = 0 → alone 1 (release_lock st t (mk_thread Outside d)) t = Some (go (release_lock st t (mk_thread Outside d)) t Outside 0)).
Proof.
  intros [Hb Hw Ho Ht Hlo]%reachable_ok. split; [|split].
  - intros t u th uh Hth Huh Hd1 Hd2. eapply Ho; [exact Hth|exact Huh|..]; right; by right.
  - intros Hno. destruct Hb as [?|Hl]; [done|]. destruct (Hlo Hl) as (t & th & Hth & Hot). by destruct (Hno t th).
  - intros t d Hth. destruct (Ht _ _ Hth) as [Hpos [Hd Hok]]. cbn in Hd, Hok.
    assert (0 < d → lock st = 1) as Hl by (intros; eapply Hw; [exact Hth|right; by right]).
    destruct (Z.ltb_spec 0 d) as [Hlt|Hge].
    + destruct Hok as [Hh Hc]. specialize (Hl Hlt). unfold count in Hc. split_and!; intros Hx; try lia; unfold alone, release_lock, take_lock; run.
      * rewrite Hl. run. rewrite Hh, Z.eqb_refl. run. eexists. split; [done|]. run. done.
      * rewrite Hh, Z.eqb_refl. run. unfold count. cbn. rewrite Hc, (proj2 (Z.ltb_lt 1 d)) by lia. run. eexists. split; [done|]. run. done.
      * rewrite Hh, Z.eqb_refl. run. unfold count. cbn. rewrite Hc, (proj2 (Z.ltb_ge 1 d)) by lia. run. eexists. split; [done|]. run. done.
    + split_and!; intros Hx; try lia; unfold alone, release_lock, take_lock; run.
      * do 3 (rewrite Hx; run). eexists. split; [done|]. run. done.
      * rewrite (proj2 (Z.eqb_neq (held_by st) t)) by done. by subst.
Qed.

End Threads.
Lemma lock_excludes_witness :
  ∃ st, reachable (λ t, t) st ∧ threads st !! 5 = Some (mk_thread Outside 1) ∧ threads st !! 7 = Some (mk_thread Spin 0) ∧
    ∃ st', alone (λ t, t) 4 (release_lock st 5 (mk_thread Outside 1)) 5 = Some st' ∧ threads st' !! 5 = Some (mk_thread Outside 0) ∧ lock st' = 0.
Proof.
  assert (reachable (λ t, t) (mk_state 0 0 ∅ {[ 5 := mk_thread Outside 0; 7 := mk_thread Outside 0 ]})) as H.
  { apply reach_start. intros t th. rewrite lookup_insert_Some, lookup_singleton_Some. intros [[<- <-]|[_ [<- <-]]]; (split; [lia|reflexivity]). }
  eapply (reach_take _ _ 5) in H; [|reflexivity|reflexivity]. eapply (reach_take _ _ 7) in H; [|reflexivity|reflexivity].
  do 5 (eapply (reach_step _ _ 5) in H; [|reflexivity|reflexivity]). do 2 (eapply (reach_step _ _ 7) in H; [|reflexivity|reflexivity]).
  match type of H with reachable _ ?s => exists s end. split; [exact H|]. split; [reflexivity|]. split; [reflexivity|].
  destruct (lock_excludes (λ t, t) _ H) as (_ & _ & H2). destruct (H2 5 1 eq_refl) as (_ & _ & _ & H3 & _). exact (H3 eq_refl).
Defined.

End Lock.
