(* ===== verification/Demux.v ===== *)
(** * Many processes on one pipe

    [biter/demultiplex.c] with [client_queue.c] and the state of [biterc.c]: the processes of
    a node share one pipe from their server.  Each message on the pipe has a header with its
    size and the process that it is for.  A process that wants to read takes what is queued
    for it; when that is not enough it tries to get the lock of the pipe, reads messages, and
    queues those that are for others in shared memory.

    [demultiplex_read] is a sequence of steps that other processes can interleave with: the
    accesses to the queues are made with their lock held, and the pipe is read by the process
    that has the lock of the pipe.  Memory for a message may or may not be there. *)

From Stdlib Require Import Ascii String ZArith Lia.
From stdpp Require Import strings numbers gmap list relations.
From S2P Require Import Prelude Bytes.

Module Demux.

(** ** The session *)

Record msg_header_t := mk_header {
  msg_size : Z;
  msg_target : Z;
}.

(** A message in a queue, and how much of it was read. *)
Record message_t := mk_message {
  data : bytes;
  bytes_read : nat;
}.

Record session := mk_session {
  pipe : bytes;
  proc_messages : gmap Z (list message_t);
  polled_data : msg_header_t;
  has_polled_data : bool;
  heap_blocked : bool;
  pipe_lock : option Z;
}.

Definition upd_pipe (b : bytes) (s : session) : session := mk_session b (proc_messages s) (polled_data s) (has_polled_data s) (heap_blocked s) (pipe_lock s).
Definition upd_queue (p : Z) (q : list message_t) (s : session) : session :=
  mk_session (pipe s) (<[p := q]> (proc_messages s)) (polled_data s) (has_polled_data s) (heap_blocked s) (pipe_lock s).
Definition upd_lock (l : option Z) (s : session) : session := mk_session (pipe s) (proc_messages s) (polled_data s) (has_polled_data s) (heap_blocked s) l.

(** *** State of the session *)

(** [None] when the assertion fails. *)
Definition set_polled_data (msg : msg_header_t) (s : session) : option session :=
  if has_polled_data s then None else Some (mk_session (pipe s) (proc_messages s) msg true (heap_blocked s) (pipe_lock s)).
Definition get_polled_data (s : session) : option msg_header_t := if has_polled_data s then Some (polled_data s) else None.
Definition clear_polled_data (s : session) : session := mk_session (pipe s) (proc_messages s) (polled_data s) false (heap_blocked s) (pipe_lock s).
Definition set_heap_blocked (s : session) : session := mk_session (pipe s) (proc_messages s) (polled_data s) (has_polled_data s) true (pipe_lock s).
Definition set_heap_unblocked (s : session) : session := mk_session (pipe s) (proc_messages s) (polled_data s) (has_polled_data s) false (pipe_lock s).

(** *** Queues *)

(** The message is put at the end of the queue; there is no queue for a process that does not exist. *)
Definition enqueue_message (for_proc : Z) (msg_data : bytes) (s : session) : option session :=
  q ← proc_messages s !! for_proc; Some (upd_queue for_proc (q ++ [mk_message msg_data 0]) s).

(** The loop of [dequeue_message]: what is read, what remains, and whether a message was removed. *)
Fixpoint take_messages (q : list message_t) (msg_size : nat) : bytes * list message_t * bool :=
  match q with
  | [] => ([], [], false)
  | msg :: q' =>
      if (msg_size =? 0)%nat then ([], q, false)
      else
        let unread := (length (data msg) - bytes_read msg)%nat in
        if (msg_size <? unread)%nat then
          (take msg_size (drop (bytes_read msg) (data msg)), mk_message (data msg) (bytes_read msg + msg_size) :: q', false)
        else
          let '(b, q'', _) := take_messages q' (msg_size - unread) in (drop (bytes_read msg) (data msg) ++ b, q'', true)
  end.

(** A message that is removed frees memory. *)
Definition dequeue_message (for_proc : Z) (msg_size : nat) (s : session) : option (bytes * session) :=
  q ← proc_messages s !! for_proc;
  let '(b, q', removed) := take_messages q msg_size in
  let s' := upd_queue for_proc q' s in
  Some (b, if removed then set_heap_unblocked s' else s').

(** *** The pipe *)

Definition header_bytes (h : msg_header_t) : bytes := le32 (msg_size h) ++ le32 (msg_target h).
Definition parse_header (b : bytes) : msg_header_t := mk_header (rd_u 4 b 0) (rd_i32 b 4).

(** The bytes on the pipe, and what is returned. *)
Definition demultiplex_write (id : Z) (buf : bytes) : bytes * Z := (header_bytes (mk_header (Z.of_nat (length buf)) id) ++ buf, Z.of_nat (length buf)).

(** ** Reading *)

Inductive pc :=
  | Check1
  | TestLock
  | Check2
  | HeapBlocked
  | GetHeader
  | Own (h : msg_header_t)
  | Space (h : msg_header_t)
  | Fill (h : msg_header_t)
  | Enqueue (target : Z) (d : bytes)
  | Release.

(** A call of [demultiplex_read]: the size that was asked for, what was read, and where the call is. *)
Record reader := mk_reader {
  r_size : nat;
  r_buf : bytes;
  r_pc : pc;
}.
Definition at_pc (c : pc) (r : reader) : reader := mk_reader (r_size r) (r_buf r) c.
Definition room (r : reader) : nat := (r_size r - length (r_buf r))%nat.

(** It waits for bytes, fails an assertion, goes on, returns what it read, or returns 0. *)
Inductive outcome := Waits | Crash | Go (s : session) (r : reader) | Returns (s : session) (buf : bytes) | Fails (s : session).

Definition check_for_msg (id : Z) (s : session) (r : reader) : option (session * reader) :=
  '(b, s') ← dequeue_message id (room r) s; Some (s', mk_reader (r_size r) (r_buf r ++ b) (r_pc r)).

Definition check_heap_blocked (myid : Z) (s : session) : option bool :=
  if heap_blocked s then h ← get_polled_data s; Some (negb (myid =? msg_target h)) else Some false.

(** The inner loop goes on, or the lock is released. *)
Definition next (r : reader) : reader := at_pc (if (room r =? 0)%nat then Release else GetHeader) r.

Definition after_header (myid : Z) (h : msg_header_t) (r : reader) : reader :=
  if msg_target h =? myid then at_pc (Own h) r else if msg_size h =? 0 then next r else at_pc (Space h) r.

(** [space]: whether [get_message_space] finds memory.  [reliable_read] of no bytes returns 0, which is taken for the end
    of the file. *)
Definition demultiplex_read (space : bool) (myid : Z) (s : session) (r : reader) : outcome :=
  match r_pc r with
  | Check1 =>
      match check_for_msg myid s r with
      | None => Crash
      | Some (s', r') => if (room r' =? 0)%nat then Returns s' (r_buf r') else Go s' (at_pc TestLock r')
      end
  | TestLock => match pipe_lock s with None => Go (upd_lock (Some myid) s) (at_pc Check2 r) | Some _ => Go s (at_pc Check1 r) end
  | Check2 =>
      match check_for_msg myid s r with
      | None => Crash
      | Some (s', r') => Go s' (at_pc (if (room r' =? 0)%nat then Release else HeapBlocked) r')
      end
  | HeapBlocked =>
      match check_heap_blocked myid s with
      | None => Crash
      | Some b => Go s (at_pc (if b then Release else GetHeader) r)
      end
  | GetHeader =>
      if has_polled_data s then
        match get_polled_data s with None => Crash | Some h => Go (clear_polled_data s) (after_header myid h r) end
      else if (length (pipe s) <? 8)%nat then Waits
      else Go (upd_pipe (drop 8 (pipe s)) s) (after_header myid (parse_header (pipe s)) r)
  | Own h =>
      let n := Nat.min (Z.to_nat (msg_size h)) (room r) in
      if (n =? 0)%nat then Fails (upd_lock None s)
      else if (length (pipe s) <? n)%nat then Waits
      else
        let h' := mk_header (msg_size h - Z.of_nat n) (msg_target h) in
        let r' := mk_reader (r_size r) (r_buf r ++ take n (pipe s)) (r_pc r) in
        Go (upd_pipe (drop n (pipe s)) s) (if msg_size h' =? 0 then next r' else at_pc (Space h') r')
  | Space h =>
      if space then Go (set_heap_unblocked s) (at_pc (Fill h) r)
      else match set_polled_data h s with None => Crash | Some s' => Go (set_heap_blocked s') (at_pc Release r) end
  | Fill h =>
      let n := Z.to_nat (msg_size h) in
      if (n =? 0)%nat then Fails (upd_lock None s)
      else if (length (pipe s) <? n)%nat then Waits
      else Go (upd_pipe (drop n (pipe s)) s) (at_pc (Enqueue (msg_target h) (take n (pipe s))) r)
  | Enqueue target d => match enqueue_message target d s with None => Crash | Some s' => Go s' (next r) end
  | Release => let s' := upd_lock None s in if (room r =? 0)%nat then Returns s' (r_buf r) else Go s' (at_pc Check1 r)
  end.

(** [demultiplex_poll] of the server, which has no other processes: the header is kept for the next read. *)
Definition demultiplex_poll (s : session) : option (session * Z) :=
  if has_polled_data s then h ← get_polled_data s; Some (s, msg_target h)
  else if (length (pipe s) <? 8)%nat then None
  else
    let h := parse_header (pipe s) in
    s' ← set_polled_data h (upd_pipe (drop 8 (pipe s)) s); Some (s', msg_target h).

(** ** The processes and their server *)

(** The session, the processes that read, the messages that the server wrote, and what reads returned. *)
Record system := mk_system {
  sess : session;
  readers : gmap Z reader;
  log : list (Z * bytes);
  reads : list (Z * bytes);
}.

Definition message_ok (s : session) (m : Z * bytes) : Prop :=
  (0 < length m.2)%nat ∧ Z.of_nat (length m.2) < 2 ^ 31 ∧ - 2 ^ 31 <= m.1 < 2 ^ 31 ∧ is_Some (proc_messages s !! m.1).

(** Without [oom] there is always memory. *)
Inductive sys_step (oom : bool) : system → system → Prop :=
  | sys_write st t d : message_ok (sess st) (t, d) →
      sys_step oom st (mk_system (upd_pipe (pipe (sess st) ++ (demultiplex_write t d).1) (sess st)) (readers st) (log st ++ [(t, d)]) (reads st))
  | sys_start st p n : readers st !! p = None → is_Some (proc_messages (sess st) !! p) → (0 < n)%nat →
      sys_step oom st (mk_system (sess st) (<[p := mk_reader n [] Check1]> (readers st)) (log st) (reads st))
  | sys_go st p r space s' r' : readers st !! p = Some r → (space = false → oom = true) → demultiplex_read space p (sess st) r = Go s' r' →
      sys_step oom st (mk_system s' (<[p := r']> (readers st)) (log st) (reads st))
  | sys_return st p r space s' buf : readers st !! p = Some r → (space = false → oom = true) → demultiplex_read space p (sess st) r = Returns s' buf →
      sys_step oom st (mk_system s' (delete p (readers st)) (log st) (reads st ++ [(p, buf)])).

Definition fresh (procs : list Z) : system :=
  mk_system (mk_session [] (list_to_map ((λ p, (p, [])) <$> procs)) (mk_header 0 0) false false None) ∅ [] [].

(** ** Streams *)

(** The bytes for a process, in their order. *)
Definition stream (p : Z) (l : list (Z * bytes)) : bytes := mjoin ((λ m, if bool_decide (m.1 = p) then m.2 else []) <$> l).
Definition unread (q : list message_t) : bytes := mjoin ((λ m, drop (bytes_read m) (data m)) <$> q).
Definition encoded (l : list (Z * bytes)) : bytes := mjoin ((λ m, (demultiplex_write m.1 m.2).1) <$> l).

Lemma stream_snoc p l t d : stream p (l ++ [(t, d)]) = stream p l ++ if bool_decide (t = p) then d else [].
Proof. unfold stream. rewrite fmap_app, join_app. cbn. by rewrite app_nil_r. Qed.

Lemma stream_cons p l t d : stream p ((t, d) :: l) = (if bool_decide (t = p) then d else []) ++ stream p l.
Proof. done. Qed.

Lemma unread_snoc q d : unread (q ++ [mk_message d 0]) = unread q ++ d.
Proof. unfold unread. rewrite fmap_app, join_app. cbn. by rewrite app_nil_r. Qed.

Lemma encoded_snoc l m : encoded (l ++ [m]) = encoded l ++ (demultiplex_write m.1 m.2).1.
Proof. unfold encoded. rewrite fmap_app, join_app. cbn. by rewrite app_nil_r. Qed.

Lemma unread_cons m q : unread (m :: q) = drop (bytes_read m) (data m) ++ unread q.
Proof. done. Qed.

(** What is taken from a queue is its beginning; when it is less than was asked for, the queue is empty. *)
Lemma take_messages_ok q : ∀ n, let '(b, q', _) := take_messages q n in
  unread q = b ++ unread q' ∧ (length b ≤ n)%nat ∧ ((length b < n)%nat → q' = []).
Proof.
  induction q as [|msg q IH]; intros n; cbn [take_messages]; [cbn; split_and!; [done|lia|done]|].
  destruct (n =? 0)%nat eqn:E0; [apply Nat.eqb_eq in E0 as ->; split_and!; [done|cbn; lia|cbn; lia]|]. apply Nat.eqb_neq in E0.
  destruct (n <? _)%nat eqn:E1; bool_to_prop.
  - split_and!.
    + rewrite !unread_cons. cbn [data bytes_read]. rewrite app_assoc. f_equal. rewrite <- drop_drop. symmetry. apply take_drop.
    + rewrite length_take. lia.
    + rewrite length_take, length_drop. lia.
  - specialize (IH (n - (length (data msg) - bytes_read msg))%nat). destruct (take_messages q _) as [[b q'] rm]. destruct IH as (IH1 & IH2 & IH3).
    split_and!.
    + by rewrite unread_cons, IH1, <- app_assoc.
    + rewrite length_app, length_drop. lia.
    + rewrite length_app, length_drop. intros H. apply IH3. lia.
Qed.

(** A header is read as it was written. *)
Lemma parse_written t d rest : Z.of_nat (length d) < 2 ^ 31 → - 2 ^ 31 <= t < 2 ^ 31 →
  parse_header ((demultiplex_write t d).1 ++ rest) = mk_header (Z.of_nat (length d)) t ∧
  drop 8 ((demultiplex_write t d).1 ++ rest) = d ++ rest ∧ (8 ≤ length ((demultiplex_write t d).1 ++ rest))%nat.
Proof.
  intros Hd Ht. unfold demultiplex_write, header_bytes, parse_header. cbn [fst msg_size msg_target]. rewrite <- !app_assoc.
  assert (∀ z, length (le32 z) = 4%nat) as L4 by (intros z; apply le_encode_length). split_and!.
  - rewrite rd_u_front by apply L4. rewrite rd_i32_le32 by (done || apply L4). unfold le32. rewrite le_decode_encode_small by (cbn; lia). done.
  - rewrite app_assoc. apply drop_app_exact. by rewrite length_app, !L4.
  - rewrite !length_app, !L4. lia.
Qed.

(** ** Where the bytes are *)

Definition locked (c : pc) : bool := match c with Check1 | TestLock => false | _ => true end.

(** The message that is being read: its header, when its bytes are still on the pipe, or its target and its bytes. *)
Abbreviation current := (option (msg_header_t + Z * bytes)).
Definition polled (s : session) : current := if has_polled_data s then Some (inl (polled_data s)) else None.
Definition current_of (s : session) (r : reader) : current :=
  match r_pc r with Own h | Space h | Fill h => Some (inl h) | Enqueue t d => Some (inr (t, d)) | _ => polled s end.
Definition current_msg (s : session) (R : gmap Z reader) : current :=
  match pipe_lock s ≫= λ p, R !! p with Some r => current_of s r | None => polled s end.

Definition current_ok (s : session) (c : current) (rest : bytes) : Prop :=
  match c with
  | None => rest = []
  | Some (inl h) => msg_size h = Z.of_nat (length rest) ∧ (0 < length rest)%nat ∧ is_Some (proc_messages s !! msg_target h)
  | Some (inr (t, d)) => rest = [] ∧ is_Some (proc_messages s !! t)
  end.

Definition flying (q : Z) (c : current) (rest : bytes) : bytes :=
  match c with
  | None => []
  | Some (inl h) => if bool_decide (msg_target h = q) then rest else []
  | Some (inr (t, d)) => if bool_decide (t = q) then d else []
  end.

Definition queued (s : session) (q : Z) : bytes := unread (default [] (proc_messages s !! q)).
Definition partial (R : gmap Z reader) (q : Z) : bytes := match R !! q with Some r => r_buf r | None => [] end.

(** The pipe holds the rest of a message and then whole messages; what was written for a process is what it has got, what
    it has in its buffer, what is queued, what is being read, and what is on the pipe, in this order. *)
Definition balanced (s : session) (R : gmap Z reader) (log reads : list (Z * bytes)) (c : current) : Prop :=
  ∃ rest msgs, pipe s = rest ++ encoded msgs ∧ current_ok s c rest ∧ Forall (message_ok s) msgs ∧
    ∀ q, stream q log = stream q reads ++ partial R q ++ queued s q ++ flying q c rest ++ stream q msgs.

Definition reader_ok (s : session) (p : Z) (r : reader) : Prop :=
  (length (r_buf r) ≤ r_size r)%nat ∧ is_Some (proc_messages s !! p) ∧
  let empty := proc_messages s !! p = Some [] in
  match r_pc r with
  | Check1 | Check2 | Release => True
  | TestLock => (0 < room r)%nat
  | HeapBlocked | GetHeader => (0 < room r)%nat ∧ empty
  | Own h => (0 < room r)%nat ∧ empty ∧ has_polled_data s = false ∧ msg_target h = p
  | Space h | Fill h => has_polled_data s = false ∧ ((0 < room r)%nat → empty ∧ msg_target h ≠ p)
  | Enqueue t d => has_polled_data s = false ∧ ((0 < room r)%nat → empty ∧ t ≠ p)
  end.

Record inv (st : system) : Prop := mk_inv {
  in_lock p r : readers st !! p = Some r → (pipe_lock (sess st) = Some p ↔ locked (r_pc r) = true);
  in_holder p : pipe_lock (sess st) = Some p → is_Some (readers st !! p);
  in_readers p r : readers st !! p = Some r → reader_ok (sess st) p r;
  in_bytes : balanced (sess st) (readers st) (log st) (reads st) (current_msg (sess st) (readers st));
}.

Lemma unlocked_ok s s' q r : locked (r_pc r) = false → (∀ q, is_Some (proc_messages s !! q) → is_Some (proc_messages s' !! q)) → reader_ok s q r → reader_ok s' q r.
Proof. unfold reader_ok. intros Hl Hd (H1 & H2 & H3). split; [done|]. split; [by apply Hd|]. by destruct (r_pc r). Qed.

Lemma current_holder s R p r : pipe_lock s = Some p → R !! p = Some r → current_msg s R = current_of s r.
Proof. unfold current_msg. by intros -> ; cbn; intros ->. Qed.

Lemma current_unlocked s r : locked (r_pc r) = false → current_of s r = polled s.
Proof. unfold current_of. by destruct (r_pc r). Qed.

(** A process with the lock, or that gets it, goes on. *)
Lemma holder_inv st p r s' r' :
  inv st → readers st !! p = Some r → (pipe_lock (sess st) = Some p ∨ pipe_lock (sess st) = None) →
  pipe_lock s' = (if locked (r_pc r') then Some p else None) →
  (∀ q, is_Some (proc_messages (sess st) !! q) → is_Some (proc_messages s' !! q)) → reader_ok s' p r' →
  (balanced (sess st) (readers st) (log st) (reads st) (current_of (sess st) r) →
   balanced s' (<[p := r']> (readers st)) (log st) (reads st) (current_of s' r')) →
  inv (mk_system s' (<[p := r']> (readers st)) (log st) (reads st)).
Proof.
  intros [Il Ih Ir Ib] Hr Hl Hl' Hd Hok Hb.
  assert (∀ q r0, q ≠ p → readers st !! q = Some r0 → locked (r_pc r0) = false) as Hun.
  { intros q r0 Hne Hq. apply not_true_is_false. intros Hlk%(proj2 (Il _ _ Hq)). destruct Hl; congruence. }
  assert (current_msg (sess st) (readers st) = current_of (sess st) r) as Hc.
  { destruct Hl as [Hl|Hl]; [by eapply current_holder|]. unfold current_msg. rewrite Hl. cbn. symmetry. apply current_unlocked.
    apply not_true_is_false. intros Hlk%(proj2 (Il _ _ Hr)). congruence. }
  split; cbn [sess readers log reads].
  - intros q r0 [[<- <-]|[Hne Hq]]%lookup_insert_Some; [rewrite Hl'; by destruct (locked (r_pc r'))|].
    rewrite (Hun q r0) by done. rewrite Hl'. destruct (locked (r_pc r')); split; try done. congruence.
  - intros q Hq. rewrite Hl' in Hq. destruct (locked (r_pc r')); [|done]. injection Hq as <-. rewrite lookup_insert_eq. by eexists.
  - intros q r0 [[<- <-]|[Hne Hq]]%lookup_insert_Some; [done|]. eapply (unlocked_ok (sess st)); [by eapply Hun|done|by apply Ir].
  - assert (current_msg s' (<[p := r']> (readers st)) = current_of s' r') as ->; [|apply Hb; by rewrite <- Hc].
    destruct (locked (r_pc r')) eqn:E; [apply (current_holder _ _ p); [done|apply lookup_insert_eq]|].
    unfold current_msg. rewrite Hl'. cbn. symmetry. by apply current_unlocked.
Qed.

(** *** Single steps *)

Lemma partial_insert R p r q : partial (<[p := r]> R) q = if bool_decide (q = p) then r_buf r else partial R q.
Proof. unfold partial. case_bool_decide as E; [subst; by rewrite lookup_insert_eq|by rewrite lookup_insert_ne]. Qed.

(** What a check changes: bytes move from the queue to the buffer. *)
Lemma check_ok p s r s' r' : check_for_msg p s r = Some (s', r') →
  ∃ b, r_buf r' = r_buf r ++ b ∧ r_size r' = r_size r ∧ queued s p = b ++ queued s' p ∧ (length b ≤ room r)%nat ∧
    ((length b < room r)%nat → proc_messages s' !! p = Some []) ∧ (∀ q, q ≠ p → proc_messages s' !! q = proc_messages s !! q) ∧
    is_Some (proc_messages s' !! p) ∧ pipe s' = pipe s ∧ polled s' = polled s ∧ has_polled_data s' = has_polled_data s ∧ pipe_lock s' = pipe_lock s.
Proof.
  unfold check_for_msg, dequeue_message. destruct (proc_messages s !! p) as [q|] eqn:Eq; [|done]. cbn [mbind option_bind].
  pose proof (take_messages_ok q (room r)) as H. destruct (take_messages q (room r)) as [[b q'] rm]. destruct H as (H1 & H2 & H3). intros [= <- <-].
  exists b. unfold queued. destruct rm; cbn [r_buf r_size proc_messages set_heap_unblocked upd_queue pipe has_polled_data pipe_lock];
    rewrite Eq, lookup_insert_eq; cbn [default from_option id]; unfold id;
    (split_and!; [done|done|done|done|intros Hlt; by rewrite H3|intros x Hx; by rewrite lookup_insert_ne|by eexists|done|done|done|done]).
Qed.

Lemma dom_mono s s' p : (∀ q, q ≠ p → proc_messages s' !! q = proc_messages s !! q) → is_Some (proc_messages s' !! p) →
  ∀ q, is_Some (proc_messages s !! q) → is_Some (proc_messages s' !! q).
Proof. intros H1 H2 q Hq. destruct (decide (q = p)) as [->|Hne]; [done|]. by rewrite H1. Qed.

Lemma message_ok_mono s s' m : (∀ q, is_Some (proc_messages s !! q) → is_Some (proc_messages s' !! q)) → message_ok s m → message_ok s' m.
Proof. intros Hd (H1 & H2 & H3 & H4). split; [done|]. split; [done|]. split; [done|]. by apply Hd. Qed.

Lemma current_ok_mono s s' c rest : (∀ q, is_Some (proc_messages s !! q) → is_Some (proc_messages s' !! q)) → current_ok s c rest → current_ok s' c rest.
Proof. intros Hd. destruct c as [[h|[t d]]|]; cbn; [intros (H1 & H2 & H3)|intros [-> H1]|]; auto. Qed.

(** Bytes of one process move, and the messages stay where they are. *)
Lemma balanced_move s s' R R' log reads reads' c : balanced s R log reads c →
  pipe s' = pipe s → (∀ q, is_Some (proc_messages s !! q) → is_Some (proc_messages s' !! q)) →
  (∀ q, stream q reads' ++ partial R' q ++ queued s' q = stream q reads ++ partial R q ++ queued s q) → balanced s' R' log reads' c.
Proof.
  intros (rest & msgs & Hp & Hc & Hm & Hb) Hp' Hd Hq. exists rest, msgs. split; [by rewrite Hp'|]. split; [by eapply current_ok_mono|].
  split; [eapply Forall_impl; [exact Hm|]; intros m; by apply message_ok_mono|]. intros q. rewrite Hb, !app_assoc, <- (app_assoc _ (partial R q)), <- Hq. by rewrite <- !app_assoc.
Qed.

Lemma check_balanced s R log reads c p r s' r1 r' : R !! p = Some r → check_for_msg p s r = Some (s', r1) → r_buf r' = r_buf r1 →
  balanced s R log reads c → balanced s' (<[p := r']> R) log reads c.
Proof.
  intros HR Hc Hr' Hb. destruct (check_ok _ _ _ _ _ Hc) as (b & Hbuf & _ & Hq & _ & _ & Ho & Hs & Hp & _). eapply balanced_move; [exact Hb|done|by eapply dom_mono|].
  intros q. rewrite partial_insert. f_equal. case_bool_decide as E.
  - subst q. rewrite Hq, Hr', Hbuf. unfold partial. rewrite HR. by rewrite app_assoc.
  - unfold queued. by rewrite Ho.
Qed.

(** Nothing but the state of a process changes. *)
Lemma still_balanced s s' R log reads c p r r' : R !! p = Some r → r_buf r' = r_buf r → pipe s' = pipe s → proc_messages s' = proc_messages s →
  balanced s R log reads c → balanced s' (<[p := r']> R) log reads c.
Proof.
  intros HR Hr' Hp Hm Hb. eapply balanced_move; [exact Hb|done|by rewrite Hm|]. intros q. rewrite partial_insert. unfold queued. rewrite Hm. f_equal. f_equal.
  case_bool_decide as E; [|done]. subst q. unfold partial. by rewrite HR.
Qed.

(** A process goes on without the lock, or returns. *)
Lemma leave_inv st p r s' R' reads' :
  inv st → readers st !! p = Some r → current_of (sess st) r = polled (sess st) →
  pipe_lock s' = (if locked (r_pc r) then None else pipe_lock (sess st)) → polled s' = polled (sess st) → has_polled_data s' = has_polled_data (sess st) →
  (∀ q, q ≠ p → proc_messages s' !! q = proc_messages (sess st) !! q) → (∀ q, q ≠ p → R' !! q = readers st !! q) →
  (∀ r', R' !! p = Some r' → locked (r_pc r') = false ∧ reader_ok s' p r') →
  (∀ c, balanced (sess st) (readers st) (log st) (reads st) c → balanced s' R' (log st) reads' c) →
  inv (mk_system s' R' (log st) reads').
Proof.
  intros [Il Ih Ir Ib] Hr Hcur Hl Hp Hh Hq HR HRp Hb.
  assert (pipe_lock s' ≠ Some p) as Hnp.
  { rewrite Hl. destruct (locked (r_pc r)) eqn:E; [done|]. intros H%(proj1 (Il _ _ Hr)). congruence. }
  assert (∀ q, q ≠ p → pipe_lock s' = Some q ↔ pipe_lock (sess st) = Some q) as Hlq.
  { intros q Hne. rewrite Hl. destruct (locked (r_pc r)) eqn:E; [|done]. apply (proj2 (Il _ _ Hr)) in E. rewrite E. split; [done|congruence]. }
  split; cbn [sess readers log reads].
  - intros q r0 Hq0. destruct (decide (q = p)) as [->|Hne]; [destruct (HRp _ Hq0) as [-> _]; done|]. rewrite Hlq by done. rewrite HR in Hq0 by done. by apply Il.
  - intros q Hq0. destruct (decide (q = p)) as [->|Hne]; [done|]. rewrite HR by done. apply Ih. by apply Hlq.
  - intros q r0 Hq0. destruct (decide (q = p)) as [->|Hne]; [by apply HRp|]. rewrite HR in Hq0 by done. pose proof (Ir _ _ Hq0) as H.
    unfold reader_ok in *. rewrite Hq, Hh by done. done.
  - assert (current_msg s' R' = current_msg (sess st) (readers st)) as ->; [|by apply Hb].
    unfold current_msg. destruct (pipe_lock s') as [q|] eqn:E; cbn.
    + assert (q ≠ p) as Hne by congruence. rewrite (proj1 (Hlq q Hne) eq_refl). cbn. rewrite HR by done. unfold current_of. by rewrite Hp.
    + destruct (locked (r_pc r)) eqn:Elk; [|by rewrite <- Hl]. rewrite (proj2 (Il _ _ Hr) Elk). cbn. by rewrite Hr, Hcur.
Qed.

Definition step_ok (st : system) (p : Z) (o : outcome) : Prop :=
  match o with
  | Waits => True
  | Crash => heap_blocked (sess st) = true ∧ has_polled_data (sess st) = false
  | Go s' r' => inv (mk_system s' (<[p := r']> (readers st)) (log st) (reads st))
  | Returns s' buf => inv (mk_system s' (delete p (readers st)) (log st) (reads st ++ [(p, buf)]))
  | Fails _ => False
  end.

Lemma check_some p s r : is_Some (proc_messages s !! p) → ∃ s' r', check_for_msg p s r = Some (s', r').
Proof. intros [q Hq]. unfold check_for_msg, dequeue_message. rewrite Hq. cbn. destruct (take_messages q (room r)) as [[b q'] rm]. by eexists _, _. Qed.

(** A process that returns leaves its buffer behind. *)
Lemma return_balanced s s' R log reads c p r buf : R !! p = Some r → buf = r_buf r → pipe s' = pipe s → proc_messages s' = proc_messages s →
  balanced s R log reads c → balanced s' (delete p R) log (reads ++ [(p, buf)]) c.
Proof.
  intros HR -> Hp Hm Hb. eapply balanced_move; [exact Hb|done|by rewrite Hm|]. intros q. rewrite stream_snoc, <- app_assoc. f_equal. unfold queued. rewrite Hm, app_assoc. f_equal.
  unfold partial. case_bool_decide as E; [subst; by rewrite lookup_delete_eq, HR, app_nil_r|by rewrite lookup_delete_ne].
Qed.

Lemma check1_ok st p r space : inv st → readers st !! p = Some r → r_pc r = Check1 → step_ok st p (demultiplex_read space p (sess st) r).
Proof.
  intros Hi Hr Hpc. pose proof (in_readers _ Hi _ _ Hr) as (Hlen & Hsome & _). unfold demultiplex_read. rewrite Hpc.
  destruct (check_some p (sess st) r Hsome) as (s' & r1 & Hc). rewrite Hc. destruct (check_ok _ _ _ _ _ Hc) as (b & Hbuf & Hsz & Hq & Hb & He & Ho & Hs & Hp & Hpol & Hhp & Hlk).
  assert (pipe_lock s' = (if locked (r_pc r) then None else pipe_lock (sess st))) as Hlk' by (by rewrite Hpc). assert (current_of (sess st) r = polled (sess st)) as Hcur by (unfold current_of; by rewrite Hpc).
  destruct (room r1 =? 0)%nat eqn:E0; cbn [step_ok].
  - eapply leave_inv; try done; [intros q Hne; by rewrite lookup_delete_ne|intros r'; by rewrite lookup_delete_eq|]. intros c Hbal.
    rewrite <- (delete_insert_eq (readers st) p r1). apply (return_balanced s' s' _ _ _ _ p r1); [apply lookup_insert_eq|done|done|done|]. by eapply check_balanced.
  - apply Nat.eqb_neq in E0. eapply leave_inv; try done.
    + intros q Hne. by rewrite lookup_insert_ne.
    + intros r'. rewrite lookup_insert_eq. intros [= <-]. split; [done|]. split; [|split; [done|cbn; unfold room in *; cbn in *; lia]]. cbn. rewrite Hbuf, Hsz, length_app. unfold room in Hb. lia.
    + intros c Hbal. by eapply check_balanced.
Qed.

Lemma testlock_ok st p r space : inv st → readers st !! p = Some r → r_pc r = TestLock → step_ok st p (demultiplex_read space p (sess st) r).
Proof.
  intros Hi Hr Hpc. pose proof (in_readers _ Hi _ _ Hr) as (Hlen & Hsome & _). unfold demultiplex_read. rewrite Hpc.
  assert (current_of (sess st) r = polled (sess st)) as Hcur by (unfold current_of; by rewrite Hpc).
  destruct (pipe_lock (sess st)) as [h|] eqn:El; cbn [step_ok].
  - eapply leave_inv; try done; [by rewrite Hpc|intros q Hne; by rewrite lookup_insert_ne| |].
    + intros r'. rewrite lookup_insert_eq. intros [= <-]. split; [done|]. by split.
    + intros c Hbal. by eapply still_balanced.
  - apply (holder_inv st p r); [done|done|by right|done|done|by split|]. intros Hbal. rewrite Hcur in Hbal. by eapply still_balanced.
Qed.

Lemma release_ok st p r space : inv st → readers st !! p = Some r → r_pc r = Release → step_ok st p (demultiplex_read space p (sess st) r).
Proof.
  intros Hi Hr Hpc. pose proof (in_readers _ Hi _ _ Hr) as (Hlen & Hsome & _). unfold demultiplex_read. rewrite Hpc.
  assert (current_of (sess st) r = polled (sess st)) as Hcur by (unfold current_of; by rewrite Hpc).
  destruct (room r =? 0)%nat; cbn [step_ok]; (eapply leave_inv; try done; [by rewrite Hpc|..]).
  - intros q Hne. by rewrite lookup_delete_ne.
  - intros r'. by rewrite lookup_delete_eq.
  - intros c Hbal. by eapply return_balanced.
  - intros q Hne. by rewrite lookup_insert_ne.
  - intros r'. rewrite lookup_insert_eq. intros [= <-]. split; [done|]. by split.
  - intros c Hbal. by eapply still_balanced.
Qed.

Lemma check2_ok st p r space : inv st → readers st !! p = Some r → r_pc r = Check2 → step_ok st p (demultiplex_read space p (sess st) r).
Proof.
  intros Hi Hr Hpc. pose proof (in_readers _ Hi _ _ Hr) as (Hlen & Hsome & _). unfold demultiplex_read. rewrite Hpc.
  destruct (check_some p (sess st) r Hsome) as (s' & r1 & Hc). rewrite Hc. destruct (check_ok _ _ _ _ _ Hc) as (b & Hbuf & Hsz & Hq & Hb & He & Ho & Hs & Hp & Hpol & Hhp & Hlk).
  assert (pipe_lock (sess st) = Some p) as Hl by (apply (in_lock _ Hi _ _ Hr); by rewrite Hpc). cbn [step_ok].
  apply (holder_inv st p r); [done|done|by left|cbn; rewrite Hlk, Hl; by destruct (room r1 =? 0)%nat|by eapply dom_mono| |].
  - split; [cbn; rewrite Hbuf, Hsz, length_app; unfold room in Hb; lia|]. split; [done|]. cbn. destruct (room r1 =? 0)%nat eqn:E0; [done|]. apply Nat.eqb_neq in E0.
    split; [unfold room in *; cbn; lia|]. apply He. unfold room in *. rewrite Hbuf, Hsz, length_app in E0. lia.
  - intros Hbal. assert (current_of s' (at_pc (if (room r1 =? 0)%nat then Release else HeapBlocked) r1) = current_of (sess st) r) as ->.
    { unfold current_of. rewrite Hpc. cbn. by destruct (room r1 =? 0)%nat. }
    by eapply check_balanced.
Qed.

Lemma heapblocked_ok st p r space : inv st → readers st !! p = Some r → r_pc r = HeapBlocked → step_ok st p (demultiplex_read space p (sess st) r).
Proof.
  intros Hi Hr Hpc. pose proof (in_readers _ Hi _ _ Hr) as Hok. unfold demultiplex_read. rewrite Hpc.
  assert (pipe_lock (sess st) = Some p) as Hl by (apply (in_lock _ Hi _ _ Hr); by rewrite Hpc).
  destruct (check_heap_blocked p (sess st)) as [b|] eqn:E; cbn [step_ok].
  - apply (holder_inv st p r); [done|done|by left|cbn; rewrite Hl; by destruct b|done| |].
    + unfold reader_ok in *. rewrite Hpc in Hok. destruct Hok as (H1 & H2 & H3). split; [done|]. split; [done|]. by destruct b.
    + intros Hbal. assert (current_of (sess st) (at_pc (if b then Release else GetHeader) r) = current_of (sess st) r) as -> by (unfold current_of; rewrite Hpc; by destruct b).
      by eapply still_balanced.
  - unfold check_heap_blocked, get_polled_data in E. destruct (heap_blocked (sess st)); [|done]. by destruct (has_polled_data (sess st)).
Qed.

(** A header was read: its message is being read. *)
Lemma header_ok st p r s' h : inv st → readers st !! p = Some r → r_pc r = GetHeader →
  pipe_lock s' = Some p → proc_messages s' = proc_messages (sess st) → has_polled_data s' = false → msg_size h ≠ 0 →
  (balanced (sess st) (readers st) (log st) (reads st) (polled (sess st)) → balanced s' (readers st) (log st) (reads st) (Some (inl h))) →
  step_ok st p (Go s' (after_header p h r)).
Proof.
  intros Hi Hr Hpc Hl Hm Hhp Hsz Hb. pose proof (in_readers _ Hi _ _ Hr) as (H1 & H2 & H3). rewrite Hpc in H3. destruct H3 as [Hroom Hq].
  assert (pipe_lock (sess st) = Some p) as Hl0 by (apply (in_lock _ Hi _ _ Hr); by rewrite Hpc).
  unfold after_header. rewrite (proj2 (Z.eqb_neq _ _) Hsz). cbn [step_ok].
  assert (∀ r', r' = at_pc (Own h) r ∨ r' = at_pc (Space h) r → balanced (sess st) (readers st) (log st) (reads st) (current_of (sess st) r) →
    balanced s' (<[p := r']> (readers st)) (log st) (reads st) (Some (inl h))) as Hbal.
  { intros r' Hr' Hbal. unfold current_of in Hbal. rewrite Hpc in Hbal. eapply still_balanced; [done| |done|done|by apply Hb]. by destruct Hr' as [-> | ->]. }
  destruct (msg_target h =? p) eqn:Et; bool_to_prop.
  - apply (holder_inv st p r); [done|done|by left|done|by rewrite Hm| |by apply Hbal; left]. unfold reader_ok. rewrite Hm. by split_and!.
  - apply (holder_inv st p r); [done|done|by left|done|by rewrite Hm| |by apply Hbal; right]. unfold reader_ok. rewrite Hm. by split_and!.
Qed.

Lemma getheader_ok st p r space : inv st → readers st !! p = Some r → r_pc r = GetHeader → step_ok st p (demultiplex_read space p (sess st) r).
Proof.
  intros Hi Hr Hpc. unfold demultiplex_read. rewrite Hpc. assert (pipe_lock (sess st) = Some p) as Hl by (apply (in_lock _ Hi _ _ Hr); by rewrite Hpc).
  assert (current_msg (sess st) (readers st) = polled (sess st)) as Hcur by (rewrite (current_holder _ _ p r) by done; unfold current_of; by rewrite Hpc).
  pose proof (in_bytes _ Hi) as Hbal. rewrite Hcur in Hbal. unfold polled in Hbal. destruct (has_polled_data (sess st)) eqn:Ehp.
  - unfold get_polled_data. rewrite Ehp. destruct Hbal as (rest & msgs & Hp & Hc & Hm & Hb). cbn in Hc. destruct Hc as (Hsz & Hpos & Htg).
    eapply header_ok; try done; [lia|]. intros _. exists rest, msgs. by split_and!.
  - destruct (length (pipe (sess st)) <? 8)%nat eqn:E8; [done|]. bool_to_prop. destruct Hbal as (rest & msgs & Hp & Hc & Hm & Hb). cbn in Hc. subst rest.
    destruct msgs as [|[t d] msgs]; [cbn in Hp; rewrite Hp in E8; cbn in E8; lia|]. apply Forall_cons in Hm as [(Hd1 & Hd2 & Ht & Hdom) Hm]. cbn [fst snd] in *.
    change (encoded ((t, d) :: msgs)) with ((demultiplex_write t d).1 ++ encoded msgs) in Hp. cbn [app] in Hp.
    destruct (parse_written t d (encoded msgs) Hd2 Ht) as (Hh & Hdrop & _). rewrite Hp, Hh, Hdrop.
    eapply header_ok; try done; [cbn; lia|]. intros _. exists d, msgs. split; [done|]. split; [by split_and!|]. split; [done|].
    intros q. rewrite Hb, stream_cons. cbn [flying msg_target]. done.
Qed.

Lemma space_ok st p r space : inv st → readers st !! p = Some r → (∃ h, r_pc r = Space h) → step_ok st p (demultiplex_read space p (sess st) r).
Proof.
  intros Hi Hr [h Hpc]. pose proof (in_readers _ Hi _ _ Hr) as Hok. unfold reader_ok in Hok. rewrite Hpc in Hok. destruct Hok as (H1 & H2 & H3 & H4).
  unfold demultiplex_read. rewrite Hpc. assert (pipe_lock (sess st) = Some p) as Hl by (apply (in_lock _ Hi _ _ Hr); by rewrite Hpc).
  assert (current_of (sess st) r = Some (inl h)) as Hcur by (unfold current_of; by rewrite Hpc).
  destruct space; cbn [step_ok].
  - apply (holder_inv st p r); [done|done|by left|done|done|by split_and!|]. rewrite Hcur. intros Hbal. by eapply still_balanced.
  - unfold set_polled_data. rewrite H3. apply (holder_inv st p r); [done|done|by left|done|done|by split_and!|]. rewrite Hcur. intros Hbal. by eapply still_balanced.
Qed.

Lemma fill_ok st p r space : inv st → readers st !! p = Some r → (∃ h, r_pc r = Fill h) → step_ok st p (demultiplex_read space p (sess st) r).
Proof.
  intros Hi Hr [h Hpc]. pose proof (in_readers _ Hi _ _ Hr) as Hok. unfold reader_ok in Hok. rewrite Hpc in Hok. destruct Hok as (H1 & H2 & H3 & H4).
  unfold demultiplex_read. rewrite Hpc. assert (pipe_lock (sess st) = Some p) as Hl by (apply (in_lock _ Hi _ _ Hr); by rewrite Hpc).
  pose proof (in_bytes _ Hi) as Hbal. rewrite (current_holder _ _ p r) in Hbal by done. unfold current_of in Hbal. rewrite Hpc in Hbal.
  destruct Hbal as (rest & msgs & Hp & (Hsz & Hpos & Htg) & Hm & Hb). rewrite Hsz, Nat2Z.id. rewrite (proj2 (Nat.eqb_neq _ _)) by lia.
  destruct (_ <? _)%nat eqn:E; [done|]. cbn [step_ok].
  apply (holder_inv st p r); [done|done|by left|done|done|by split_and!|]. intros _. exists [], msgs. rewrite Hp, take_app_length. cbn. rewrite drop_app_length.
  split_and!; try done. intros q. rewrite Hb. rewrite partial_insert. cbn. f_equal. f_equal. case_bool_decide as Eq; [|done]. subst q. unfold partial. by rewrite Hr.
Qed.

(** The inner loop goes on when the message was read. *)
Lemma next_ok s p r : (length (r_buf r) ≤ r_size r)%nat → is_Some (proc_messages s !! p) → ((0 < room r)%nat → proc_messages s !! p = Some []) →
  reader_ok s p (next r) ∧ locked (r_pc (next r)) = true ∧ current_of s (next r) = polled s ∧ r_buf (next r) = r_buf r.
Proof.
  intros H1 H2 H3. unfold next. destruct (room r =? 0)%nat eqn:E; bool_to_prop; [by split_and!|]. split; [|done]. split; [done|]. split; [done|]. cbn. split; [unfold room in *; cbn; lia|]. apply H3. lia.
Qed.

Lemma own_ok st p r space : inv st → readers st !! p = Some r → (∃ h, r_pc r = Own h) → step_ok st p (demultiplex_read space p (sess st) r).
Proof.
  intros Hi Hr [h Hpc]. pose proof (in_readers _ Hi _ _ Hr) as Hok. unfold reader_ok in Hok. rewrite Hpc in Hok. destruct Hok as (H1 & H2 & H3 & H4 & H5 & H6).
  unfold demultiplex_read. rewrite Hpc. assert (pipe_lock (sess st) = Some p) as Hl by (apply (in_lock _ Hi _ _ Hr); by rewrite Hpc).
  pose proof (in_bytes _ Hi) as Hbal. rewrite (current_holder _ _ p r) in Hbal by done. unfold current_of in Hbal. rewrite Hpc in Hbal.
  destruct Hbal as (rest & msgs & Hp & (Hsz & Hpos & Htg) & Hm & Hb). rewrite Hsz, Nat2Z.id. set (n := Nat.min (length rest) (room r)).
  rewrite (proj2 (Nat.eqb_neq _ _)) by lia. destruct (_ <? n)%nat eqn:E; [done|]. cbn [msg_size].
  assert (take n (pipe (sess st)) = take n rest ∧ drop n (pipe (sess st)) = drop n rest ++ encoded msgs) as [-> ->].
  { rewrite Hp. split; [apply take_app_le; lia|apply drop_app_le; lia]. }
  set (r' := mk_reader (r_size r) (r_buf r ++ take n rest) (Own h)).
  assert (length (r_buf r') ≤ r_size r')%nat as Hlen' by (cbn; rewrite length_app, length_take; unfold room in n; lia).
  assert (∀ r'' c', r_buf r'' = r_buf r' → (∀ q, flying q c' (drop n rest) = if bool_decide (p = q) then drop n rest else []) →
    current_ok (upd_pipe (drop n rest ++ encoded msgs) (sess st)) c' (drop n rest) →
    balanced (upd_pipe (drop n rest ++ encoded msgs) (sess st)) (<[p := r'']> (readers st)) (log st) (reads st) c') as Hbal.
  { intros r'' c' Hbuf Hfl Hco. exists (drop n rest), msgs. split_and!; [done|done|done|]. intros q. rewrite Hb, Hfl, partial_insert. cbn [flying]. rewrite H6. f_equal.
    unfold queued. cbn [upd_pipe proc_messages]. case_bool_decide as Eq; [|rewrite bool_decide_false by congruence; done]. subst q. rewrite bool_decide_true, H4, Hbuf by done.
    unfold partial. rewrite Hr. cbn. rewrite <- !app_assoc. f_equal. rewrite app_assoc, take_drop. done. }
  destruct (Z.of_nat (length rest) - Z.of_nat n =? 0) eqn:E0; bool_to_prop.
  - destruct (next_ok (upd_pipe (drop n rest ++ encoded msgs) (sess st)) p r' Hlen') as (Hn1 & Hn2 & Hn3 & Hn4); [done|done|].
    apply (holder_inv st p r); [done|done|by left|by rewrite Hn2|done|done|]. intros _. rewrite Hn3. assert (drop n rest = []) as Hnil by (apply drop_ge; lia).
    apply Hbal; [done| |]; unfold polled; cbn; rewrite H5; cbn; rewrite Hnil; [|done]. intros q. by case_bool_decide.
  - assert (n = room r) as Hn by lia. assert (room r' = 0)%nat as Hroom by (unfold room in *; cbn; rewrite length_app, length_take; lia).
    apply (holder_inv st p r); [done|done|by left|done|done| |].
    + split; [done|]. split; [done|]. cbn. split; [done|]. unfold room in *. cbn in *. lia.
    + intros _. apply Hbal; [done| |]; cbn; [by rewrite H6|]. rewrite length_drop. split_and!; [lia|lia|by rewrite H6].
Qed.

Lemma enqueue_ok st p r space : inv st → readers st !! p = Some r → (∃ t d, r_pc r = Enqueue t d) → step_ok st p (demultiplex_read space p (sess st) r).
Proof.
  intros Hi Hr (t & d & Hpc). pose proof (in_readers _ Hi _ _ Hr) as Hok. unfold reader_ok in Hok. rewrite Hpc in Hok. destruct Hok as (H1 & H2 & H3 & H4).
  unfold demultiplex_read. rewrite Hpc. assert (pipe_lock (sess st) = Some p) as Hl by (apply (in_lock _ Hi _ _ Hr); by rewrite Hpc).
  pose proof (in_bytes _ Hi) as Hbal. rewrite (current_holder _ _ p r) in Hbal by done. unfold current_of in Hbal. rewrite Hpc in Hbal.
  destruct Hbal as (rest & msgs & Hp & (-> & [q0 Hq0]) & Hm & Hb). unfold enqueue_message. rewrite Hq0. cbn [mbind option_bind step_ok].
  set (s' := upd_queue t (q0 ++ [mk_message d 0]) (sess st)).
  assert (∀ q, is_Some (proc_messages (sess st) !! q) → is_Some (proc_messages s' !! q)) as Hd.
  { apply (dom_mono _ _ t); [intros q Hne; cbn; by rewrite lookup_insert_ne|cbn; rewrite lookup_insert_eq; by eexists]. }
  destruct (next_ok s' p r H1 (Hd _ H2)) as (Hn1 & Hn2 & Hn3 & Hn4).
  { intros Hroom. destruct (H4 Hroom) as [Hq Hne]. cbn. by rewrite lookup_insert_ne. }
  apply (holder_inv st p r); [done|done|by left|by rewrite Hn2|done|done|]. intros _. rewrite Hn3. unfold polled. cbn. rewrite H3.
  exists [], msgs. split_and!; [done|done|eapply Forall_impl; [exact Hm|]; intros m; by apply message_ok_mono|].
  intros q. rewrite Hb, partial_insert, Hn4. f_equal. cbn [flying].
  replace (if bool_decide (q = p) then r_buf r else partial (readers st) q) with (partial (readers st) q) by (case_bool_decide as Eq; [subst; unfold partial; by rewrite Hr|done]).
  f_equal. unfold queued. cbn. case_bool_decide as Eq.
  - subst q. rewrite Hq0, lookup_insert_eq. cbn [default from_option]. unfold id. by rewrite unread_snoc, <- app_assoc.
  - by rewrite lookup_insert_ne.
Qed.

(** Every step of a process keeps the bytes in their order. *)
Lemma read_ok st p r space : inv st → readers st !! p = Some r → step_ok st p (demultiplex_read space p (sess st) r).
Proof.
  intros Hi Hr. destruct (r_pc r) as [| | | | |h|h|h|t d|] eqn:E; eauto using check1_ok, testlock_ok, check2_ok, heapblocked_ok, getheader_ok, own_ok, space_ok, fill_ok, enqueue_ok, release_ok.
Qed.

Lemma write_ok st t d : inv st → message_ok (sess st) (t, d) →
  inv (mk_system (upd_pipe (pipe (sess st) ++ (demultiplex_write t d).1) (sess st)) (readers st) (log st ++ [(t, d)]) (reads st)).
Proof.
  intros [Il Ih Ir Ib] Hm. split; [done|done|done|]. cbn [sess readers log reads]. destruct Ib as (rest & msgs & Hp & Hc & Hms & Hb). exists rest, (msgs ++ [(t, d)]).
  split; [cbn; by rewrite Hp, encoded_snoc, app_assoc|]. split; [done|]. split; [apply Forall_app; split; [done|by constructor]|].
  intros q. rewrite !stream_snoc, Hb. by rewrite <- !app_assoc.
Qed.

Lemma read_start_ok st p n : inv st → readers st !! p = None → is_Some (proc_messages (sess st) !! p) → (0 < n)%nat →
  inv (mk_system (sess st) (<[p := mk_reader n [] Check1]> (readers st)) (log st) (reads st)).
Proof.
  intros [Il Ih Ir Ib] Hr Hd Hn. assert (pipe_lock (sess st) ≠ Some p) as Hl by (intros H; destruct (Ih _ H); congruence). split; cbn [sess readers log reads].
  - intros q r [[<- <-]|[Hne Hq]]%lookup_insert_Some; [by split|by apply Il].
  - intros q Hq. rewrite lookup_insert_ne by congruence. by apply Ih.
  - intros q r [[<- <-]|[Hne Hq]]%lookup_insert_Some; [|by apply Ir]. split; [cbn; lia|done].
  - assert (current_msg (sess st) (<[p := mk_reader n [] Check1]> (readers st)) = current_msg (sess st) (readers st)) as ->.
    { unfold current_msg. destruct (pipe_lock (sess st)) as [q|]; cbn; [|done]. by rewrite lookup_insert_ne by congruence. }
    eapply balanced_move; [exact Ib|done|done|]. intros q. rewrite partial_insert. case_bool_decide as E; [|done]. subst. unfold partial. by rewrite Hr.
Qed.

Lemma pipe_step_inv oom st st' : inv st → sys_step oom st st' → inv st'.
Proof.
  intros Hi Hs. destruct Hs as [st t d Hm|st p n Hr Hd Hn|st p r space s' r' Hr _ E|st p r space s' buf Hr _ E]; [by apply write_ok|by apply read_start_ok|..].
  - pose proof (read_ok st p r space Hi Hr) as H. by rewrite E in H.
  - pose proof (read_ok st p r space Hi Hr) as H. by rewrite E in H.
Qed.

Lemma fresh_inv procs : inv (fresh procs).
Proof.
  split; cbn [sess readers log reads fresh]; [done|done|done|]. exists [], []. split_and!; [done|done|done|]. intros q. cbn. unfold queued. cbn.
  destruct (list_to_map _ !! q) as [l|] eqn:E; [|done]. apply elem_of_list_to_map_2, list_elem_of_fmap in E as (? & [= -> ->] & _). done.
Qed.

(** ** Progress *)

(** As long as there is memory, no header is kept, and a process releases the lock only when it has read enough. *)
Definition calm (st : system) : Prop :=
  heap_blocked (sess st) = false ∧ has_polled_data (sess st) = false ∧ ∀ p r, readers st !! p = Some r → r_pc r = Release → room r = 0%nat.

Lemma read_calm space p s r : space = true → heap_blocked s = false → has_polled_data s = false →
  match demultiplex_read space p s r with
  | Go s' r' => heap_blocked s' = false ∧ has_polled_data s' = false ∧ (r_pc r' = Release → room r' = 0%nat)
  | Returns s' _ => heap_blocked s' = false ∧ has_polled_data s' = false
  | _ => True
  end.
Proof.
  intros -> Hb Hp. assert (∀ r, r_pc (next r) = Release → room (next r) = 0%nat) as Hnext.
  { intros r0. unfold next. destruct (room r0 =? 0)%nat eqn:E; [|done]. intros _. by apply Nat.eqb_eq in E. }
  assert (∀ s' r', check_for_msg p s r = Some (s', r') → heap_blocked s' = false ∧ has_polled_data s' = false) as Hck.
  { intros s' r'. unfold check_for_msg, dequeue_message. destruct (proc_messages s !! p); [|done]. cbn. destruct (take_messages _ _) as [[b q'] []]; intros [= <- <-]; by split. }
  unfold demultiplex_read. destruct (r_pc r) as [| | | | |h|h|h|t d|].
  - destruct (check_for_msg p s r) as [[s' r']|]; [|done]. destruct (Hck s' r' eq_refl). by destruct (room r' =? 0)%nat.
  - by destruct (pipe_lock s).
  - destruct (check_for_msg p s r) as [[s' r']|]; [|done]. destruct (Hck s' r' eq_refl). split_and!; [done|done|]. destruct (room r' =? 0)%nat eqn:E; [|done]. intros _. by apply Nat.eqb_eq in E.
  - unfold check_heap_blocked. by rewrite Hb.
  - rewrite Hp. destruct (_ <? 8)%nat; [done|]. split_and!; [done|done|]. unfold after_header. destruct (_ =? p); [done|]. destruct (_ =? 0); [apply Hnext|done].
  - destruct (_ =? 0)%nat; [done|]. destruct (_ <? _)%nat; [done|]. split_and!; [done|done|]. destruct (_ =? 0); [apply Hnext|done].
  - done.
  - destruct (_ =? 0)%nat; [done|]. by destruct (_ <? _)%nat.
  - unfold enqueue_message. destruct (proc_messages s !! t); [|done]. cbn. split_and!; [done|done|]. apply Hnext.
  - by destruct (room r =? 0)%nat.
Qed.

Lemma step_calm st st' : calm st → sys_step false st st' → calm st'.
Proof.
  intros (Hb & Hp & Hr) Hs. destruct Hs as [st t d Hm|st p n Hn Hd H0|st p r space s' r' Hpr Hsp E|st p r space s' buf Hpr Hsp E].
  - by split_and!.
  - split_and!; [done|done|]. cbn [readers]. intros q r [[<- <-]|[Hne Hq]]%lookup_insert_Some; [done|by eapply Hr].
  - assert (space = true) as Hspace by (destruct space; [done|]; by specialize (Hsp eq_refl)). pose proof (read_calm space p (sess st) r Hspace Hb Hp) as H. rewrite E in H. destruct H as (H1 & H2 & H3).
    split_and!; [done|done|]. cbn [readers]. intros q r0 [[<- <-]|[Hne Hq]]%lookup_insert_Some; [done|by eapply Hr].
  - assert (space = true) as Hspace by (destruct space; [done|]; by specialize (Hsp eq_refl)). pose proof (read_calm space p (sess st) r Hspace Hb Hp) as H. rewrite E in H. destruct H as (H1 & H2).
    split_and!; [done|done|]. cbn [readers]. intros q r0 [Hne Hq]%lookup_delete_Some. by eapply Hr.
Qed.

(** How far a process is from the end of its turn. *)
Definition rank (c : pc) : nat :=
  match c with
  | Check1 => 12 | TestLock => 11 | Space _ => 9 | Fill _ => 8 | Enqueue _ _ => 7 | Check2 => 5 | HeapBlocked => 4 | GetHeader | Own _ => 3 | Release => 1
  end.
Definition effort (s : session) (r : reader) : nat := (20 * length (pipe s) + rank (r_pc r))%nat.

Lemma rank_next r : (rank (r_pc (next r)) ≤ 3)%nat.
Proof. unfold next. destruct (room r =? 0)%nat; cbn; lia. Qed.

Lemma next_size r : r_size (next r) = r_size r.
Proof. unfold next. by destruct (room r =? 0)%nat. Qed.

Lemma after_header_size p h r : r_size (after_header p h r) = r_size r.
Proof. unfold after_header. destruct (_ =? p); [done|]. destruct (_ =? 0); [apply next_size|done]. Qed.

Lemma after_header_rank p h r : (rank (r_pc (after_header p h r)) ≤ 9)%nat.
Proof. unfold after_header. destruct (_ =? p); [cbn; lia|]. destruct (_ =? 0); [pose proof (rank_next r); lia|cbn; lia]. Qed.

(** A process with the lock waits only at an empty pipe; otherwise it comes nearer to the end of its turn, or returns. *)
Lemma holder_progress st h r : inv st → calm st → readers st !! h = Some r → pipe_lock (sess st) = Some h →
  (r_pc r = GetHeader ∧ pipe (sess st) = []) ∨
  (∃ s' r', demultiplex_read true h (sess st) r = Go s' r' ∧ (effort s' r' < effort (sess st) r)%nat ∧ pipe_lock s' = Some h ∧ r_size r' = r_size r) ∨
  (∃ s' buf, demultiplex_read true h (sess st) r = Returns s' buf ∧ pipe s' = pipe (sess st) ∧ pipe_lock s' = None).
Proof.
  intros Hi (Hb & Hp & Hrel) Hr Hl. pose proof (in_readers _ Hi _ _ Hr) as (Hlen & Hsome & Hok). pose proof (proj1 (in_lock _ Hi _ _ Hr) Hl) as Hlk.
  pose proof (in_bytes _ Hi) as Hbal. rewrite (current_holder _ _ h r) in Hbal by done. destruct Hbal as (rest & msgs & Hpipe & Hcur & Hm & _).
  assert (length rest ≤ length (pipe (sess st)))%nat as Hle by (rewrite Hpipe, length_app; lia).
  unfold effort, current_of in *. unfold demultiplex_read. destruct (r_pc r) as [| | | | |hd|hd|hd|t d|] eqn:Epc; cbn [rank] in *; try done.
  - right. left. destruct (check_some h (sess st) r Hsome) as (s' & r' & Hc). rewrite Hc. destruct (check_ok _ _ _ _ _ Hc) as (b & _ & Hsz & _ & _ & _ & _ & _ & Hp' & _ & _ & Hl').
    eexists _, _. split; [done|]. rewrite Hp', Hl'. cbn. split; [|done]. destruct (room r' =? 0)%nat; cbn; lia.
  - right. left. unfold check_heap_blocked. rewrite Hb. eexists _, _. split; [done|]. cbn. split; [lia|done].
  - rewrite Hp. unfold polled in Hcur. rewrite Hp in Hcur. cbn in Hcur. subst rest. cbn [app] in Hpipe. destruct msgs as [|m msgs]; [by left|]. right. left.
    destruct m as [t d]. apply Forall_cons in Hm as [(Hd1 & Hd2 & Ht & _) _]. cbn [fst snd] in *.
    change (encoded ((t, d) :: msgs)) with ((demultiplex_write t d).1 ++ encoded msgs) in Hpipe. destruct (parse_written t d (encoded msgs) Hd2 Ht) as (_ & _ & H8).
    rewrite <- Hpipe in H8. rewrite (proj2 (Nat.ltb_ge _ _)) by done. eexists _, _. split; [done|]. cbn [pipe upd_pipe]. rewrite length_drop.
    pose proof (after_header_rank h (parse_header (pipe (sess st))) r). split; [lia|]. split; [done|]. apply after_header_size.
  - right. left. destruct Hcur as (Hsz & Hpos & _). destruct Hok as (Hroom & _). rewrite Hsz, Nat2Z.id. set (n := Nat.min (length rest) (room r)).
    rewrite (proj2 (Nat.eqb_neq _ _)) by lia. rewrite (proj2 (Nat.ltb_ge _ _)) by lia. eexists _, _. split; [done|].
    cbn [pipe upd_pipe pipe_lock]. rewrite length_drop.
    destruct (_ =? 0); [|cbn; split; [lia|done]].
    match goal with |- context [next ?x] => pose proof (rank_next x) end. split; [lia|]. split; [done|]. by rewrite next_size.
  - right. left. eexists _, _. split; [done|]. cbn. split; [lia|done].
  - right. left. destruct Hcur as (Hsz & Hpos & _). rewrite Hsz, Nat2Z.id, (proj2 (Nat.eqb_neq _ _)) by lia. rewrite (proj2 (Nat.ltb_ge _ _)) by lia.
    eexists _, _. split; [done|]. cbn. rewrite length_drop. split; [lia|done].
  - right. left. destruct Hcur as (_ & [q Hq]). unfold enqueue_message. rewrite Hq. cbn. eexists _, _. split; [done|]. cbn [pipe upd_queue]. pose proof (rank_next r). split; [lia|]. split; [done|]. by rewrite next_size.
  - right. right. rewrite (Hrel _ _ Hr Epc). by eexists _, _.
Qed.

(** What the process still wants has been written. *)
Definition wanted (p : Z) (n : nat) (st : system) : Prop := (length (stream p (reads st)) + n ≤ length (stream p (log st)))%nat.

(** With enough queued bytes, a process without the lock returns at its next check. *)
Lemma queued_returns st p r : inv st → readers st !! p = Some r → r_pc r = Check1 → (room r ≤ length (queued (sess st) p))%nat →
  ∃ s' buf, demultiplex_read true p (sess st) r = Returns s' buf ∧ length buf = r_size r.
Proof.
  intros Hi Hr Hpc Hq. pose proof (in_readers _ Hi _ _ Hr) as (Hlen & Hsome & _). unfold demultiplex_read. rewrite Hpc.
  destruct (check_some p (sess st) r Hsome) as (s' & r' & Hc). rewrite Hc. destruct (check_ok _ _ _ _ _ Hc) as (b & Hb & Hsz & Hqq & Hle & Hrest & _).
  assert (length b = room r) as Hbl. { destruct (decide (length b < room r)%nat) as [Hlt|]; [|lia]. specialize (Hrest Hlt). rewrite Hqq in Hq. unfold queued in Hq at 1. rewrite Hrest in Hq. cbn in Hq. rewrite app_nil_r in Hq. lia. }
  assert (room r' = 0%nat) as -> by (unfold room in *; rewrite Hb, Hsz, length_app; lia). eexists _, _. split; [done|]. rewrite Hb, length_app. unfold room in Hbl. lia.
Qed.

(** The measure of the progress of the read of [p]. *)
Definition measure (p : Z) (r : reader) (st : system) : nat :=
  match pipe_lock (sess st) with
  | Some h => if bool_decide (h = p) then effort (sess st) r else match readers st !! h with Some rh => (13 + effort (sess st) rh)%nat | None => 0%nat end
  | None => effort (sess st) r
  end.

(** The process returns what it asked for. *)
Definition answered (p : Z) (n : nat) (st st' : system) : Prop :=
  readers st' !! p = None ∧ log st' = log st ∧ ∃ buf, length buf = n ∧ stream p (reads st') = stream p (reads st) ++ buf.

Lemma return_answered st p r s' buf : demultiplex_read true p (sess st) r = Returns s' buf → length buf = r_size r →
  answered p (r_size r) st (mk_system s' (delete p (readers st)) (log st) (reads st ++ [(p, buf)])).
Proof. intros _ Hb. split; [apply lookup_delete_eq|]. split; [done|]. exists buf. split; [done|]. cbn [reads]. by rewrite stream_snoc, bool_decide_eq_true_2. Qed.

Lemma returns_size space p s r s' buf : (length (r_buf r) ≤ r_size r)%nat → demultiplex_read space p s r = Returns s' buf → length buf = r_size r.
Proof.
  intros Hlen. unfold demultiplex_read. destruct (r_pc r) as [| | | | |h|h|h|t d|].
  - destruct (check_for_msg p s r) as [[s1 r1]|] eqn:Hc; [|done]. destruct (check_ok _ _ _ _ _ Hc) as (b & Hb & Hsz & _ & Hle & _). destruct (room r1 =? 0)%nat eqn:E; [|done].
    intros [= <- <-]. apply Nat.eqb_eq in E. unfold room in *. rewrite Hb, Hsz, length_app in *. lia.
  - by destruct (pipe_lock s).
  - by destruct (check_for_msg p s r) as [[s1 r1]|].
  - by destruct (check_heap_blocked p s).
  - destruct (has_polled_data s); [by destruct (get_polled_data s)|]. by destruct (_ <? 8)%nat.
  - destruct (_ =? 0)%nat; [done|]. by destruct (_ <? _)%nat.
  - destruct space; [done|]. by destruct (set_polled_data h s).
  - destruct (_ =? 0)%nat; [done|]. by destruct (_ <? _)%nat.
  - by destruct (enqueue_message t d s).
  - destruct (room r =? 0)%nat eqn:E; [|done]. intros [= <- <-]. apply Nat.eqb_eq in E. unfold room in E. lia.
Qed.

(** At an empty pipe, what was written for a process is queued. *)
Lemma drained st p r h rh : inv st → calm st → readers st !! p = Some r → wanted p (r_size r) st →
  pipe_lock (sess st) = Some h → readers st !! h = Some rh → r_pc rh = GetHeader → pipe (sess st) = [] → (room r ≤ length (queued (sess st) p))%nat.
Proof.
  intros Hi (_ & Hp & _) Hr Hw Hl Hrh Hpc He. destruct (in_bytes _ Hi) as (rest & msgs & Hpipe & Hcur & Hm & Hs). rewrite (current_holder _ _ h rh) in Hcur, Hs by done.
  unfold current_of, polled in *. rewrite Hpc, Hp in *. cbn in Hcur. subst rest. rewrite He in Hpipe. destruct msgs as [|[t d] msgs].
  - unfold wanted in Hw. rewrite Hs in Hw. unfold partial in Hw. rewrite Hr in Hw. cbn [flying] in Hw. change (stream p []) with ([] : bytes) in Hw. rewrite !length_app in Hw. cbn [length] in Hw. unfold room. lia.
  - apply (f_equal length) in Hpipe. cbn [fst snd app length] in Hpipe. change (encoded ((t, d) :: msgs)) with ((demultiplex_write t d).1 ++ encoded msgs) in Hpipe.
    apply Forall_cons in Hm as [(_ & Hd2 & Ht & _) _]. destruct (parse_written t d (encoded msgs) Hd2 Ht) as (_ & _ & H8). rewrite <- Hpipe in H8. lia.
Qed.

Lemma unlocked_pc c : locked c = false → c = Check1 ∨ c = TestLock.
Proof. destruct c; cbn; auto; done. Qed.

Definition nearer (p : Z) (r : reader) (st : system) : Prop :=
  (∃ st', rtc (sys_step false) st st' ∧ answered p (r_size r) st st') ∨
  (∃ st' r', sys_step false st st' ∧ readers st' !! p = Some r' ∧ r_size r' = r_size r ∧ log st' = log st ∧ stream p (reads st') = stream p (reads st) ∧
     (measure p r' st' < measure p r st)%nat).

Lemma returns_nearer st p r s' buf : inv st → readers st !! p = Some r → demultiplex_read true p (sess st) r = Returns s' buf → nearer p r st.
Proof.
  intros Hi Hr E. pose proof (in_readers _ Hi _ _ Hr) as (Hlen & _). left. eexists. split; [apply rtc_once; by eapply sys_return|].
  eapply return_answered; [done|]. by eapply returns_size.
Qed.

(** The process itself takes the step. *)
Lemma self_nearer st p r s' r' : readers st !! p = Some r → demultiplex_read true p (sess st) r = Go s' r' → r_size r' = r_size r →
  (pipe_lock (sess st) = None ∨ pipe_lock (sess st) = Some p) → (pipe_lock s' = None ∨ pipe_lock s' = Some p) → (effort s' r' < effort (sess st) r)%nat → nearer p r st.
Proof.
  intros Hr E Hsz Hl Hl' Hm. right. eexists _, r'. split; [by eapply sys_go|]. split; [apply lookup_insert_eq|]. split_and!; [done..|]. unfold measure. cbn [sess readers].
  destruct Hl as [-> | ->], Hl' as [-> | ->]; rewrite ?bool_decide_eq_true_2 by done; done.
Qed.

(** A process at [TestLock] while another one has the lock, and all that it wants is queued. *)
Lemma spin_nearer st p r h : inv st → readers st !! p = Some r → pipe_lock (sess st) = Some h → h ≠ p → (room r ≤ length (queued (sess st) p))%nat → nearer p r st.
Proof.
  intros Hi Hr Hl Hne Hq. assert (locked (r_pc r) = false) as Hu. { pose proof (in_lock _ Hi _ _ Hr) as Hk. destruct (locked (r_pc r)); [|done]. pose proof (proj2 Hk eq_refl) as H. congruence. }
  destruct (unlocked_pc _ Hu) as [Hpc|Hpc].
  - destruct (queued_returns st p r Hi Hr Hpc Hq) as (s' & buf & E & _). by eapply returns_nearer.
  - assert (sys_step false st (mk_system (sess st) (<[p := at_pc Check1 r]> (readers st)) (log st) (reads st))) as Hs.
    { eapply (sys_go false st p r true); [done|done|]. unfold demultiplex_read. by rewrite Hpc, Hl. }
    pose proof (pipe_step_inv _ _ _ Hi Hs) as Hi'. destruct (queued_returns _ p (at_pc Check1 r) Hi' (lookup_insert_eq _ _ _) eq_refl Hq) as (s' & buf & E & Hb).
    left. eexists. split.
    + eapply rtc_l; [done|]. apply rtc_once. eapply (sys_return false _ p _ true); [apply lookup_insert_eq|done|done].
    + split; [apply lookup_delete_eq|]. split; [done|]. exists buf. split; [done|]. cbn [reads]. by rewrite stream_snoc, bool_decide_eq_true_2.
Qed.

(** Another process, which has the lock, takes the step. *)
Lemma other_nearer st p r h rh s' r' : readers st !! p = Some r → readers st !! h = Some rh → pipe_lock (sess st) = Some h → h ≠ p →
  demultiplex_read true h (sess st) rh = Go s' r' → pipe_lock s' = Some h → (effort s' r' < effort (sess st) rh)%nat → nearer p r st.
Proof.
  intros Hr Hh Hl Hne E Hl' Hm. right. eexists _, r. split; [by eapply (sys_go false st h)|]. split; [cbn [readers]; by rewrite lookup_insert_ne|]. split_and!; [done..|].
  unfold measure. cbn [sess readers]. rewrite Hl, Hl', bool_decide_eq_false_2, Hh, lookup_insert_eq by done. lia.
Qed.

Lemma other_returns st p r h rh s' buf : inv st → readers st !! p = Some r → readers st !! h = Some rh → pipe_lock (sess st) = Some h → h ≠ p →
  demultiplex_read true h (sess st) rh = Returns s' buf → pipe s' = pipe (sess st) → pipe_lock s' = None → nearer p r st.
Proof.
  intros Hi Hr Hh Hl Hne E Hp Hl'. right. eexists _, r. split; [by eapply (sys_return false st h)|]. split; [cbn [readers]; by rewrite lookup_delete_ne|]. split_and!; [done|done| |].
  - cbn [reads]. rewrite stream_snoc, bool_decide_eq_false_2 by done. apply app_nil_r.
  - unfold measure. cbn [sess readers]. rewrite Hl, Hl', bool_decide_eq_false_2, Hh by done. unfold effort. rewrite Hp. assert (rank (r_pc r) ≤ 12)%nat by (destruct (r_pc r); cbn; lia).
    lia.
Qed.

Lemma free_nearer st p r : inv st → readers st !! p = Some r → pipe_lock (sess st) = None → nearer p r st.
Proof.
  intros Hi Hr Hl. assert (locked (r_pc r) = false) as Hu. { pose proof (in_lock _ Hi _ _ Hr) as Hk. destruct (locked (r_pc r)); [|done]. pose proof (proj2 Hk eq_refl) as H. congruence. }
  pose proof (in_readers _ Hi _ _ Hr) as (Hlen & Hsome & _). destruct (unlocked_pc _ Hu) as [Hpc|Hpc].
  - destruct (check_some p (sess st) r Hsome) as (s' & r' & Hc). destruct (check_ok _ _ _ _ _ Hc) as (b & _ & Hsz & _ & _ & _ & _ & _ & Hp' & _ & _ & Hl').
    destruct (room r' =? 0)%nat eqn:E.
    + eapply (returns_nearer st p r s' (r_buf r')); [done|done|]. unfold demultiplex_read. by rewrite Hpc, Hc, E.
    + eapply (self_nearer st p r s' (at_pc TestLock r')); [done| |done|by left|left; congruence|].
      * unfold demultiplex_read. by rewrite Hpc, Hc, E.
      * unfold effort. rewrite Hp', Hpc. cbn [r_pc at_pc rank]. lia.
  - eapply (self_nearer st p r (upd_lock (Some p) (sess st)) (at_pc Check2 r)); [done| |done|by left|right; done|].
    + unfold demultiplex_read. by rewrite Hpc, Hl.
    + unfold effort. rewrite Hpc. cbn [r_pc at_pc rank pipe upd_lock]. lia.
Qed.

Lemma step_nearer st p r : inv st → calm st → readers st !! p = Some r → wanted p (r_size r) st → nearer p r st.
Proof.
  intros Hi Hc Hr Hw. destruct (pipe_lock (sess st)) as [h|] eqn:Hl; [|by apply free_nearer]. destruct (in_holder _ Hi _ Hl) as [rh Hh].
  destruct (holder_progress st h rh Hi Hc Hh Hl) as [[Hpc He]|[(s' & r' & E & Hm & Hl' & Hsz)|(s' & buf & E & Hp & Hl')]]; (destruct (decide (h = p)) as [->|Hne]; [assert (rh = r) as -> by congruence|]).
  - pose proof (drained st p r p r Hi Hc Hr Hw Hl Hr Hpc He) as Hq. pose proof (in_readers _ Hi _ _ Hr) as (_ & _ & Hok). rewrite Hpc in Hok. destruct Hok as [Hroom Hemp].
    unfold queued in Hq. rewrite Hemp in Hq. cbn in Hq. lia.
  - eapply spin_nearer; [done..|]. by eapply drained.
  - eapply self_nearer; [done|done|done|by right|by right|done].
  - by eapply other_nearer.
  - by eapply returns_nearer.
  - by eapply other_returns.
Qed.

(** A process whose bytes have been written can come to the end of its read, whatever the other processes do at first. *)
Lemma read_completes n : ∀ st p r, (measure p r st < n)%nat → inv st → calm st → readers st !! p = Some r → wanted p (r_size r) st →
  ∃ st', rtc (sys_step false) st st' ∧ answered p (r_size r) st st'.
Proof.
  induction n as [|n IH]; intros st p r Hm Hi Hc Hr Hw; [lia|]. destruct (step_nearer st p r Hi Hc Hr Hw) as [|(st1 & r1 & Hs & Hr1 & Hsz & Hlog & Hreads & Hlt)]; [done|].
  destruct (IH st1 p r1) as (st' & Hrun & H1 & H2 & buf & H3 & H4).
  - lia.
  - by eapply pipe_step_inv.
  - by eapply step_calm.
  - done.
  - unfold wanted in *. by rewrite Hlog, Hreads, Hsz.
  - exists st'. split; [by eapply rtc_l|]. rewrite <- Hsz. split; [done|]. split; [congruence|]. exists buf. split; [done|]. by rewrite H4, Hreads.
Qed.

(** ** Runs *)

Inductive act := Write (t : Z) (d : bytes) | Start (p : Z) (n : nat) | Step (p : Z) (space : bool).

Definition act_ok (s : session) (t : Z) (d : bytes) : bool :=
  (0 <? length d)%nat && (Z.of_nat (length d) <? 2 ^ 31) && (- 2 ^ 31 <=? t) && (t <? 2 ^ 31) && bool_decide (is_Some (proc_messages s !! t)).

Definition perform (oom : bool) (a : act) (st : system) : option system :=
  match a with
  | Write t d =>
      if act_ok (sess st) t d then Some (mk_system (upd_pipe (pipe (sess st) ++ (demultiplex_write t d).1) (sess st)) (readers st) (log st ++ [(t, d)]) (reads st)) else None
  | Start p n =>
      if bool_decide (readers st !! p = None ∧ is_Some (proc_messages (sess st) !! p) ∧ (0 < n)%nat)
      then Some (mk_system (sess st) (<[p := mk_reader n [] Check1]> (readers st)) (log st) (reads st)) else None
  | Step p space =>
      r ← readers st !! p;
      if negb space && negb oom then None
      else match demultiplex_read space p (sess st) r with
           | Go s' r' => Some (mk_system s' (<[p := r']> (readers st)) (log st) (reads st))
           | Returns s' buf => Some (mk_system s' (delete p (readers st)) (log st) (reads st ++ [(p, buf)]))
           | _ => None
           end
  end.

Lemma perform_step oom a st st' : perform oom a st = Some st' → sys_step oom st st'.
Proof.
  destruct a as [t d|p n|p space]; cbn [perform].
  - unfold act_ok. destruct (_ && _) eqn:E; [|done]. intros [= <-]. rewrite !andb_true_iff in E. destruct E as ((((E1 & E2) & E3) & E4) & E5).
    apply sys_write. split; [by apply Nat.ltb_lt|]. split; [by apply Z.ltb_lt|]. split; [|by apply bool_decide_eq_true in E5]. split; [by apply Z.leb_le|by apply Z.ltb_lt].
  - case_bool_decide as E; [|done]. destruct E as (E1 & E2 & E3). intros [= <-]. by apply sys_start.
  - destruct (readers st !! p) as [r|] eqn:Er; [|done]. cbn [mbind option_bind]. destruct (negb space && negb oom) eqn:E; [done|].
    assert (space = false → oom = true) as Ho by (destruct space, oom; done). destruct (demultiplex_read space p (sess st) r) eqn:Ed; [done|done|..|done]; intros [= <-]; [by eapply sys_go|by eapply sys_return].
Qed.

Fixpoint performs (oom : bool) (l : list act) (st : system) : option system :=
  match l with [] => Some st | a :: l' => st' ← perform oom a st; performs oom l' st' end.

Lemma performs_steps oom l : ∀ st st', performs oom l st = Some st' → rtc (sys_step oom) st st'.
Proof.
  induction l as [|a l IH]; intros st st'; cbn [performs]; [by intros [= <-]|]. destruct (perform oom a st) as [st1|] eqn:E; [|done]. intros H.
  eapply rtc_l; [by eapply perform_step|by apply IH].
Qed.

Lemma pipe_reachable oom st st' : rtc (sys_step oom) st st' → inv st → inv st'.
Proof. induction 1; [done|]. intros Hi. apply IHrtc. by eapply pipe_step_inv. Qed.

Lemma reachable_calm st st' : rtc (sys_step false) st st' → calm st → calm st'.
Proof. induction 1; [done|]. intros Hi. apply IHrtc. by eapply step_calm. Qed.

Lemma fresh_calm procs : calm (fresh procs).
Proof. split_and!; [done|done|]. intros p r H. done. Qed.

Lemma delivered st p : inv st → stream p (reads st) ++ partial (readers st) p `prefix_of` stream p (log st).
Proof. intros Hi. destruct (in_bytes _ Hi) as (rest & msgs & _ & _ & _ & Hs). eexists. rewrite Hs, <- app_assoc. done. Qed.

(** C17: the processes of a node that share a pipe each get exactly the bytes that were written for them, in the order of the
    writes: in every state that interleaved reads and writes lead to, with or without memory for the messages of others, what
    the reads of a process returned, and then what its current read has got, is the beginning of what was written for it; a
    read never takes the pipe for closed; and without a shortage of memory no assertion fails. *)
Theorem demultiplex_delivers oom procs st p : rtc (sys_step oom) (fresh procs) st →
  stream p (reads st) ++ partial (readers st) p `prefix_of` stream p (log st) ∧
  ∀ r space, readers st !! p = Some r → (∀ s', demultiplex_read space p (sess st) r ≠ Fails s') ∧
    (oom = false → space = true → demultiplex_read space p (sess st) r ≠ Crash).
Proof.
  intros Hr. pose proof (pipe_reachable _ _ _ Hr (fresh_inv procs)) as Hi. split; [by apply delivered|]. intros r space Hp.
  pose proof (read_ok st p r space Hi Hp) as H. split.
  - intros s' E. by rewrite E in H.
  - intros -> -> E. rewrite E in H. destruct (reachable_calm _ _ Hr (fresh_calm procs)) as (Hb & _). destruct H as [Hb' _]. congruence.
Qed.

(** Two processes; the first one reads the message of the second one, and queues it. *)
Definition demo_run : list act :=
  [Write 2 (lit "abc"); Write 1 (lit "xy"); Start 1 1; Step 1 true; Step 1 true; Step 1 true; Step 1 true; Step 1 true; Step 1 true; Step 1 true; Step 1 true;
   Start 2 2; Step 2 true; Step 1 true].
Definition demo_state : system := default (fresh []) (performs false demo_run (fresh [1; 2])).

Lemma demultiplex_delivers_witness :
  stream 2 (reads demo_state) = lit "ab" ∧ stream 2 (reads demo_state) ++ partial (readers demo_state) 2 `prefix_of` stream 2 (log demo_state).
Proof.
  split; [by vm_compute|]. apply (demultiplex_delivers false [1; 2] demo_state 2). apply (performs_steps false demo_run). by vm_compute.
Defined.

(** C18: a read whose bytes have been written can always be completed: from every state that interleaved reads and writes
    lead to without a shortage of memory, there are further steps, without another write, after which the read has
    returned, and its process has got the bytes that follow those of its earlier reads, as many as it asked for. *)
Theorem demultiplex_completes procs st p r : rtc (sys_step false) (fresh procs) st → readers st !! p = Some r →
  (length (stream p (reads st)) + r_size r ≤ length (stream p (log st)))%nat →
  ∃ st', rtc (sys_step false) st st' ∧ readers st' !! p = None ∧ log st' = log st ∧
    stream p (reads st') = take (length (stream p (reads st)) + r_size r) (stream p (log st)).
Proof.
  intros Hr Hp Hw. pose proof (pipe_reachable _ _ _ Hr (fresh_inv procs)) as Hi. pose proof (reachable_calm _ _ Hr (fresh_calm procs)) as Hc.
  destruct (read_completes (S (measure p r st)) st p r) as (st' & Hs & H1 & H2 & buf & H3 & H4); [lia|done..|].
  exists st'. split_and!; [done..|]. pose proof (pipe_reachable _ _ _ Hs Hi) as Hi'. destruct (delivered st' p Hi') as [k Hk].
  rewrite H2 in Hk. rewrite Hk. unfold partial. rewrite H1, app_nil_r, H4. rewrite take_app_le by (rewrite length_app; lia). rewrite take_ge; [done|]. rewrite length_app. lia.
Qed.

Definition demo_wait : system := default (fresh []) (performs false (take 8 demo_run ++ [Start 2 3]) (fresh [1; 2])).

Lemma demultiplex_completes_witness : ∃ st', rtc (sys_step false) demo_wait st' ∧ readers st' !! 2 = None ∧ log st' = log demo_wait ∧ stream 2 (reads st') = lit "abc".
Proof.
  apply (demultiplex_completes [1; 2] demo_wait 2 (mk_reader 3 [] Check1)).
  - apply (performs_steps false (take 8 demo_run ++ [Start 2 3])). by vm_compute.
  - by vm_compute.
  - vm_compute. lia.
Defined.

(** *** Shortage of memory *)

(** The first process finds no memory for the message of the second one, and keeps its header.  The second one reads the message:
    the header is cleared, and the pipe is still marked as blocked.  The first process then asks for the header. *)
Definition blocked_run : list act :=
  [Write 2 (lit "ab"); Start 1 1; Step 1 true; Step 1 true; Step 1 true; Step 1 true; Step 1 true; Step 1 false; Step 1 true;
   Start 2 2; Step 2 true; Step 2 true; Step 2 true; Step 2 true; Step 2 true; Step 2 true; Step 2 true; Step 1 true; Step 1 true; Step 1 true].

Lemma heap_blocked_crashes : ∃ st r, rtc (sys_step true) (fresh [1; 2]) st ∧ readers st !! 1 = Some r ∧ heap_blocked (sess st) = true ∧ readers st !! 2 = None ∧
  demultiplex_read true 1 (sess st) r = Crash.
Proof.
  exists (default (fresh []) (performs true blocked_run (fresh [1; 2]))), (mk_reader 1 [] HeapBlocked).
  split; [apply (performs_steps true blocked_run); by vm_compute|]. split_and!; by vm_compute.
Qed.

(** A message of no bytes is taken for the end of the file by the process that it is for. *)
Lemma empty_message_fails s r p : r_pc r = GetHeader → has_polled_data s = false → - 2 ^ 31 <= p < 2 ^ 31 → pipe s = (demultiplex_write p []).1 →
  ∃ s' r', demultiplex_read true p s r = Go s' r' ∧ demultiplex_read true p s' r' = Fails (upd_lock None s').
Proof.
  intros Hpc Hp Hid He. destruct (parse_written p [] [] ltac:(done) Hid) as (Hh & _ & H8). rewrite app_nil_r in *.
  unfold demultiplex_read at 1. rewrite Hpc, Hp, He, (proj2 (Nat.ltb_ge _ _)), Hh by done. eexists _, _. split; [done|].
  unfold after_header, demultiplex_read. cbn. by rewrite Z.eqb_refl.
Qed.

(** *** Polling *)

(** A header that was polled is the header that the next read of the pipe gets. *)
Lemma poll_then_read s s' id space p r : has_polled_data s = false → r_pc r = GetHeader → demultiplex_poll s = Some (s', id) →
  ∃ s1 s2 r', demultiplex_read space p s r = Go s1 r' ∧ demultiplex_read space p s' r = Go s2 r' ∧ id = msg_target (parse_header (pipe s)) ∧
    pipe s1 = pipe s2 ∧ proc_messages s1 = proc_messages s2 ∧ has_polled_data s1 = has_polled_data s2.
Proof.
  intros Hp Hpc. unfold demultiplex_poll, demultiplex_read. rewrite Hpc, Hp. destruct (length (pipe s) <? 8)%nat eqn:E; [done|]. unfold set_polled_data.
  cbn [has_polled_data upd_pipe]. rewrite Hp. cbn. intros [= <- <-]. by eexists _, _, _.
Qed.

End Demux.
