(* ===== verification/Shmcache.v ===== *)
(** * The cache in shared memory

    [shmcache.c]: the processes of a node share what the server answered to them, in
    a hash table in the shared heap.  Entries are found by their name; a second list
    links them in the order of their use, and the oldest that nobody waits for are
    thrown out when memory is short.

    The calls run under the lock of the cache; the model has one function per call.
    Memory is what was allocated: an access to a string or an entry that was freed,
    or was never there, gives [None], and so do failing assertions.  Pointers are
    offsets, with 0 for the null pointer; [Sheep.PTR_VAL] shows that [sheep_ptr_t]
    keeps them.  The heap is known by its interface [SharedHeap]. *)

From Stdlib Require Import Ascii String ZArith Lia.
From stdpp Require Import strings numbers gmap list sorting.
From S2P Require Import Prelude Bytes Sheep.

(** ** The heap *)

(** What the cache relies on: memory that is given out is not in use, and can be given back. *)
Class SharedHeap (A : Type) := mk_shared_heap {
  h_malloc : A → Z → option (A * option Z);
  h_free : A → Z → option A;
  (** the first address behind the shared memory *)
  h_end : Z;
  h_inv : A → gmap Z Z → Prop;
  h_malloc_law a live sz :
    h_inv a live → Sheep.request_ok sz →
    ∃ a' r, h_malloc a sz = Some (a', r) ∧
      match r with Some p => live !! p = None ∧ h_inv a' (<[p := sz]> live) | None => h_inv a' live end;
  h_free_law a live p sz :
    h_inv a live → live !! p = Some sz → ∃ a', h_free a p = Some a' ∧ h_inv a' (delete p live);
  (** what was given back can be had again *)
  h_reuse_law a live p sz a' :
    h_inv a live → live !! p = Some sz → h_free a p = Some a' → ∃ a'' q, h_malloc a' sz = Some (a'', Some q);
  h_range_law a live p : h_inv a live → is_Some (live !! p) → 0 < p < h_end;
}.

#[export] Program Instance sheep_heap (N : Z) (ff : bool) : SharedHeap Sheep.sheep := {|
  h_malloc := Sheep.malloc_sheep;
  h_free := Sheep.free_sheep;
  h_end := N;
  h_inv h live := Sheep.client N ff h live;
|}.
Next Obligation.
  intros N ff h live sz Hc Hsz. destruct (Sheep.client_serves _ _ _ _ Hc) as [L HL].
  destruct (Sheep.malloc_serves _ _ _ _ _ _ HL Hsz) as [[E _]|(h' & p & L' & E & Hp & _)].
  - exists h, None. split; [done|]. by eapply Sheep.client_full.
  - exists h', (Some p). split; [done|]. split; [done|]. by eapply Sheep.client_malloc.
Qed.
Next Obligation.
  intros N ff h live p sz Hc Hp. destruct (Sheep.client_serves _ _ _ _ Hc) as [L HL].
  destruct (Sheep.free_serves _ _ _ _ _ _ _ HL Hp) as (h' & L' & E & _). exists h'. split; [done|]. by eapply Sheep.client_free.
Qed.
Next Obligation.
  intros N ff h live p sz h' Hc Hp Hf. destruct (Sheep.client_serves _ _ _ _ Hc) as [L HL]. by eapply Sheep.reuse_serves.
Qed.
Next Obligation.
  intros N ff h live p Hc [sz Hp]. destruct (Sheep.client_serves _ _ _ _ Hc) as [L HL].
  destruct (Sheep.serves_range _ _ _ _ _ _ _ HL Hp). unfold Sheep.HEADER, Sheep.PREFIX in *. lia.
Qed.

Module Shmcache.

Section Shmcache.
Context {A : Type} {HA : SharedHeap A}.

(** ** State *)

Record entry_t := mk_entry {
  libname : Z;
  result : Z;
  lru_next : Z;
  lru_prev : Z;
  hash_key : Z;
  pending_count : Z;
  hash_next : Z;
}.

Record shm := mk_shm {
  heap : A;
  strs : gmap Z bytes;
  ents : gmap Z entry_t;
  table : gmap Z Z;
  lru_head : Z;
  lru_end : Z;
  heap_limit : Z;
  heap_used : Z;
  (** where the table is *)
  hash : Z;
}.

Definition HASH_SIZE : Z := 1024.
Definition in_progress : Z := h_end.
(** [sizeof (struct entry_t)], and the size of the table *)
Definition ENTRY_SIZE : Z := 28.
Definition TABLE_SIZE : Z := 4 * HASH_SIZE.

Definition set_lru_next (v : Z) (e : entry_t) : entry_t :=
  mk_entry (libname e) (result e) v (lru_prev e) (hash_key e) (pending_count e) (hash_next e).
Definition set_lru_prev (v : Z) (e : entry_t) : entry_t :=
  mk_entry (libname e) (result e) (lru_next e) v (hash_key e) (pending_count e) (hash_next e).
Definition set_hash_next (v : Z) (e : entry_t) : entry_t :=
  mk_entry (libname e) (result e) (lru_next e) (lru_prev e) (hash_key e) (pending_count e) v.
Definition set_result (v : Z) (e : entry_t) : entry_t :=
  mk_entry (libname e) v (lru_next e) (lru_prev e) (hash_key e) (pending_count e) (hash_next e).
Definition set_pending (v : Z) (e : entry_t) : entry_t :=
  mk_entry (libname e) (result e) (lru_next e) (lru_prev e) (hash_key e) v (hash_next e).

Definition set_ents (m : gmap Z entry_t) (s : shm) : shm :=
  mk_shm (heap s) (strs s) m (table s) (lru_head s) (lru_end s) (heap_limit s) (heap_used s) (hash s).
Definition set_head (v : Z) (s : shm) : shm :=
  mk_shm (heap s) (strs s) (ents s) (table s) v (lru_end s) (heap_limit s) (heap_used s) (hash s).
Definition set_end (v : Z) (s : shm) : shm :=
  mk_shm (heap s) (strs s) (ents s) (table s) (lru_head s) v (heap_limit s) (heap_used s) (hash s).
Definition set_table (k v : Z) (s : shm) : shm :=
  mk_shm (heap s) (strs s) (ents s) (<[k := v]> (table s)) (lru_head s) (lru_end s) (heap_limit s) (heap_used s) (hash s).
Definition set_strs (m : gmap Z bytes) (s : shm) : shm :=
  mk_shm (heap s) m (ents s) (table s) (lru_head s) (lru_end s) (heap_limit s) (heap_used s) (hash s).
Definition set_heap (h : A) (used : Z) (s : shm) : shm :=
  mk_shm h (strs s) (ents s) (table s) (lru_head s) (lru_end s) (heap_limit s) used (hash s).

(** The table is cleared when it is made. *)
Definition bucket (s : shm) (k : Z) : Z := default 0 (table s !! k).

Definition upd (s : shm) (p : Z) (f : entry_t → entry_t) : option shm :=
  e ← ents s !! p; Some (set_ents (<[p := f e]> (ents s)) s).
Definition upd_unless_null (s : shm) (p : Z) (f : entry_t → entry_t) : option shm :=
  if p =? 0 then Some s else upd s p f.

(** ** Operations *)

Definition free_sheep_str (s : shm) (p : Z) : option shm :=
  str ← strs s !! p;
  let alloc_size := Sheep.sheep_alloc_size (Z.of_nat (length str) + 1) in
  if heap_used s <? alloc_size then None
  else h ← h_free (heap s) p; Some (set_strs (delete p (strs s)) (set_heap h (heap_used s - alloc_size) s)).

Definition free_sheep_entry (s : shm) (p : Z) : option shm :=
  let alloc_size := Sheep.sheep_alloc_size ENTRY_SIZE in
  if heap_used s <? alloc_size then None
  else h ← h_free (heap s) p; Some (set_ents (delete p (ents s)) (set_heap h (heap_used s - alloc_size) s)).

Definition mark_recently_used (s : shm) (entry : Z) : option shm :=
  if entry =? lru_head s then Some s
  else
    e ← ents s !! entry;
    let nentry := lru_next e in
    let pentry := lru_prev e in
    s1 ← upd_unless_null s nentry (set_lru_prev (lru_prev e));
    e1 ← ents s1 !! entry;
    s2 ← upd_unless_null s1 pentry (set_lru_next (lru_next e1));
    e2 ← ents s2 !! entry;
    let s3 := if entry =? lru_end s2 then set_end (lru_prev e2) s2 else s2 in
    s4 ← upd s3 entry (λ e, set_lru_prev 0 (set_lru_next (lru_head s3) e));
    s5 ← upd_unless_null s4 (lru_head s4) (set_lru_prev entry);
    let s6 := set_head entry s5 in
    Some (if lru_end s6 =? 0 then set_end entry s6 else s6).

(** There are fewer entries than that. *)
Definition FUEL (s : shm) : nat := S (size (ents s)).

(** Entries that are being filled or waited for are kept. *)
Definition pinned (e : entry_t) : bool := (result e =? in_progress) || negb (pending_count e =? 0).

Fixpoint find_oldest (fuel : nat) (s : shm) (entry : Z) : option Z :=
  if entry =? 0 then Some 0
  else match fuel with
  | O => None
  | S fuel' =>
      e ← ents s !! entry;
      if pinned e then find_oldest fuel' s (lru_prev e) else Some entry
  end.

(** The entry before [entry] in its bucket. *)
Fixpoint find_prev_hash (fuel : nat) (s : shm) (i entry prev_hash_entry : Z) : option Z :=
  if i =? entry then Some prev_hash_entry
  else match fuel with
  | O => None
  | S fuel' => e ← ents s !! i; find_prev_hash fuel' s (hash_next e) entry i
  end.

Definition clean_oldest_entry (s : shm) : option (shm * Z) :=
  if lru_end s =? 0 then Some (s, -1)
  else
    entry ← find_oldest (FUEL s) s (lru_end s);
    if entry =? 0 then Some (s, -1)
    else
      e ← ents s !! entry;
      let lru_pentry := lru_prev e in
      let lru_nentry := lru_next e in
      prev_hash_entry ← find_prev_hash (FUEL s) s (bucket s (hash_key e)) entry 0;
      s1 ← (if prev_hash_entry =? 0 then Some (set_table (hash_key e) (hash_next e) s)
            else upd s prev_hash_entry (set_hash_next (hash_next e)));
      let s2 := if entry =? lru_head s1 then set_head lru_nentry s1 else s1 in
      let s3 := if lru_end s2 =? entry then set_end lru_pentry s2 else s2 in
      s4 ← upd_unless_null s3 lru_pentry (set_lru_next lru_nentry);
      s5 ← upd_unless_null s4 lru_nentry (set_lru_prev lru_pentry);
      e5 ← ents s5 !! entry;
      s6 ← free_sheep_str s5 (libname e5);
      s7 ← (if result e5 =? 0 then Some s6 else free_sheep_str s6 (result e5));
      s8 ← free_sheep_entry s7 entry;
      Some (s8, 0).

(** The loops of [malloc_sheep_cache]: until the limit is kept, until there is room. *)
Fixpoint make_room (fuel : nat) (s : shm) (alloc_size : Z) : option (shm * bool) :=
  if negb (heap_limit s =? 0) && (heap_limit s <? heap_used s + alloc_size) then
    match fuel with
    | O => None
    | S fuel' =>
        '(s1, r) ← clean_oldest_entry s;
        if r =? -1 then Some (s1, false) else make_room fuel' s1 alloc_size
    end
  else Some (s, true).

Fixpoint malloc_loop (fuel : nat) (s : shm) (size : Z) : option (shm * option Z) :=
  match fuel with
  | O => None
  | S fuel' =>
      '(h, newalloc) ← h_malloc (heap s) size;
      let s1 := set_heap h (heap_used s) s in
      match newalloc with
      | Some p => Some (s1, Some p)
      | None =>
          '(s2, r) ← clean_oldest_entry s1;
          if r =? -1 then Some (s2, None) else malloc_loop fuel' s2 size
      end
  end.

Definition malloc_sheep_cache (s : shm) (size : Z) : option (shm * option Z) :=
  let alloc_size := Sheep.sheep_alloc_size size in
  '(s1, room) ← make_room (FUEL s) s alloc_size;
  if (room : bool) then
    '(s2, newalloc) ← malloc_loop (FUEL s1) s1 size;
    match newalloc with
    | None => Some (s2, None)
    | Some p => Some (set_heap (heap s2) (heap_used s2 + alloc_size) s2, Some p)
    end
  else Some (s1, None).

(** [hashv * 33 + c], with the signed characters of the platform. *)
Definition str_hash (str : bytes) : Z :=
  fold_left (λ hashv c, wrap64 (Z.shiftl hashv 5 + hashv + schar_val c)) str 5381 mod HASH_SIZE.

Fixpoint find_entry (fuel : nat) (s : shm) (p key : Z) (name : bytes) : option Z :=
  if p =? 0 then Some 0
  else match fuel with
  | O => None
  | S fuel' =>
      e ← ents s !! p;
      if negb (hash_key e =? key) then find_entry fuel' s (hash_next e) key name
      else if libname e =? 0 then find_entry fuel' s (hash_next e) key name
      else
        str ← strs s !! libname e;
        if decide (str = name) then Some p else find_entry fuel' s (hash_next e) key name
  end.

(** The entry, and the pointer to its result. *)
Definition shmcache_lookup_worker (s : shm) (name : bytes) : option (shm * option (Z * Z)) :=
  let key := str_hash name in
  p ← find_entry (FUEL s) s (bucket s key) key name;
  if p =? 0 then Some (s, None)
  else
    s1 ← mark_recently_used s p;
    e ← ents s1 !! p;
    Some (s1, Some (p, result e)).

(** What is stored under a name: an answer, that there is none, or that a process is asking. *)
Inductive value := InProgress | Absent | Mapped (name : bytes).
#[export] Instance value_eq_dec : EqDecision value.
Proof. solve_decision. Defined.

(** A copy of a string into new memory. *)
Definition copy_str (s : shm) (p : Z) (str : bytes) : shm := set_strs (<[p := str]> (strs s)) s.

Definition shmcache_add_new (s : shm) (name : bytes) (mapped_name : value) : option (shm * Z) :=
  '(s1, entry) ← malloc_sheep_cache s ENTRY_SIZE;
  match entry with
  | None => Some (s1, -1)
  | Some entry =>
      '(s2, libname_str) ← malloc_sheep_cache s1 (Z.of_nat (length name) + 1);
      match libname_str with
      | None => s3 ← free_sheep_entry s2 entry; Some (s3, -1)
      | Some libname_str =>
          let s3 := copy_str s2 libname_str name in
          '(s4, mappedname_str) ← match mapped_name with
            | InProgress => Some (s3, Some in_progress)
            | Absent => Some (s3, Some 0)
            | Mapped str =>
                '(s', p) ← malloc_sheep_cache s3 (Z.of_nat (length str) + 1);
                Some (match p with Some p => copy_str s' p str | None => s' end, p)
            end;
          match mappedname_str with
          | None =>
              s5 ← free_sheep_entry s4 entry;
              s6 ← free_sheep_str s5 libname_str;
              Some (s6, -1)
          | Some res =>
              let key := str_hash name in
              let e := mk_entry libname_str res 0 0 key 0 (bucket s4 key) in
              let s5 := set_table key entry (set_ents (<[entry := e]> (ents s4)) s4) in
              s6 ← mark_recently_used s5 entry;
              Some (s6, 0)
          end
      end
  end.

Definition shmcache_add_update (s : shm) (name : bytes) (mapped_name : option bytes) : option (shm * Z) :=
  '(s1, found) ← shmcache_lookup_worker s name;
  match found with
  | None => Some (s1, -1)
  | Some (entry, _) =>
      e ← ents s1 !! entry;
      s2 ← (if (result e =? in_progress) || (result e =? 0) then Some s1 else free_sheep_str s1 (result e));
      match mapped_name with
      | None => s3 ← upd s2 entry (set_result 0); Some (s3, 0)
      | Some str =>
          '(s3, mappedname_str) ← malloc_sheep_cache s2 (Z.of_nat (length str) + 1);
          match mappedname_str with
          | None =>
              e3 ← ents s3 !! entry;
              s4 ← free_sheep_str s3 (libname e3);
              s5 ← upd s4 entry (λ e, mk_entry 0 0 (lru_next e) (lru_prev e) 0 (pending_count e) (hash_next e));
              Some (s5, -1)
          | Some p => s4 ← upd (copy_str s3 p str) entry (set_result p); Some (s4, 0)
          end
      end
  end.

(** *** Set up *)

Definition set_limit (v : Z) (s : shm) : shm :=
  mk_shm (heap s) (strs s) (ents s) (table s) (lru_head s) (lru_end s) v (heap_used s) (hash s).
Definition new_table (p : Z) (s : shm) : shm :=
  mk_shm (heap s) (strs s) (ents s) ∅ (lru_head s) (lru_end s) (heap_limit s) (heap_used s) p.
Definition hash_error (s : shm) : shm :=
  mk_shm (heap s) (strs s) (ents s) (table s) (lru_head s) (lru_end s) (heap_limit s) (heap_used s) in_progress.

(** Memory that nobody has used yet. *)
Definition fresh_shm (h : A) : shm := mk_shm h ∅ ∅ ∅ 0 0 0 0 0.

(** The state, and the pointer to the table that the process has from now on. *)
Definition init_cache (s : shm) (hlimit : Z) : option (shm * Z) :=
  if hlimit =? 0 then Some (s, 0)
  else
    let s0 := set_limit hlimit s in
    if hash s0 =? 0 then
      '(s1, newhash) ← malloc_sheep_cache s0 TABLE_SIZE;
      match newhash with
      | None => Some (hash_error s1, 0)
      | Some p => Some (new_table p s1, p)
      end
    else Some (s0, hash s0).

(** *** Calls *)

(** A call of a process whose pointer to the table is [tbl]: without a table nothing happens, and a pointer
    to anything else but the table cannot be used. *)
Definition on_table {B} (tbl : Z) (s : shm) (off : B) (call : option (shm * B)) : option (shm * B) :=
  if tbl =? 0 then Some (s, off)
  else if (tbl =? hash s) && negb (tbl =? in_progress) then call else None.

Definition read_value (s : shm) (p : Z) : option value :=
  if p =? 0 then Some Absent
  else if p =? in_progress then Some InProgress
  else str ← strs s !! p; Some (Mapped str).

(** The result is a pointer into the cache. *)
Definition shmcache_lookup (tbl : Z) (s : shm) (name : bytes) : option (shm * option Z) :=
  on_table tbl s None ('(s1, found) ← shmcache_lookup_worker s name; Some (s1, option_map snd found)).

(** [None] when the name is new, and is in progress from now on. *)
Definition shmcache_lookup_or_add (tbl : Z) (s : shm) (name : bytes) : option (shm * option value) :=
  on_table tbl s None (
    '(s1, found) ← shmcache_lookup_worker s name;
    match found with
    | None => '(s2, _) ← shmcache_add_new s1 name InProgress; Some (s2, None)
    | Some (_, res) => v ← read_value s1 res; Some (s1, Some v)
    end).

Definition shmcache_add (tbl : Z) (s : shm) (name : bytes) (mapped_name : value) : option (shm * Z) :=
  on_table tbl s 0 (shmcache_add_new s name mapped_name).
Definition shmcache_update (tbl : Z) (s : shm) (name : bytes) (mapped_name : option bytes) : option (shm * Z) :=
  on_table tbl s 0 (shmcache_add_update s name mapped_name).

(** The three parts of [shmcache_waitfor_update]: the entry is found and pinned, under the lock; its
    result is read, without the lock, until it is there; the pin is removed, under the lock. *)
Definition waitfor_begin (tbl : Z) (s : shm) (name : bytes) : option (shm * option (Z * bool)) :=
  on_table tbl s None (
    '(s1, found) ← shmcache_lookup_worker s name;
    match found with
    | None => Some (s1, None)
    | Some (entry, res) =>
        if res =? in_progress then s2 ← upd s1 entry (λ e, set_pending (pending_count e + 1) e); Some (s2, Some (entry, true))
        else Some (s1, Some (entry, false))
    end).

Definition waitfor_poll (s : shm) (entry : Z) : option value :=
  e ← ents s !! entry; read_value s (result e).

Definition waitfor_end (s : shm) (entry : Z) : option shm := upd s entry (λ e, set_pending (pending_count e - 1) e).

End Shmcache.
End Shmcache.
