(* ===== verification/ShmcacheInv.v ===== *)
(** * The shared cache keeps its lists and its memory

    For [Shmcache]: the two lists that run through the entries, the memory that the
    entries and their strings take, and the invariant that ties them to the hash
    table.  Every operation is shown to succeed in a state that has the invariant,
    to keep it, and to change no other entry than it should; entries that are in
    progress or waited for are never thrown out. *)

From Stdlib Require Import Ascii String ZArith Lia.
From stdpp Require Import strings numbers gmap list sorting.
From S2P Require Import Prelude Bytes Sheep Shmcache.
Import Shmcache.

Module ShmcacheInv.

Section Inv.
Context {A : Type} {HA : SharedHeap A}.
Abbreviation shm := (@Shmcache.shm A).

(** ** Lists of entries *)

Definition hd (d : Z) (E : list Z) : Z := match E with [] => d | e :: _ => e end.
Fixpoint lst (d : Z) (E : list Z) : Z := match E with [] => d | e :: E' => lst e E' end.

(** The entries [E], linked in the order of their use, between [prev] and [next]. *)
Fixpoint seg (m : gmap Z entry_t) (prev : Z) (E : list Z) (next : Z) : Prop :=
  match E with
  | [] => True
  | p :: E' => (∃ e, m !! p = Some e ∧ lru_prev e = prev ∧ lru_next e = hd next E') ∧ seg m p E' next
  end.

(** The entries [E] of a bucket. *)
Fixpoint hseg (m : gmap Z entry_t) (start : Z) (E : list Z) : Prop :=
  match E with
  | [] => start = 0
  | p :: E' => start = p ∧ ∃ e, m !! p = Some e ∧ hseg m (hash_next e) E'
  end.

Lemma hd_app d E F : hd d (E ++ F) = hd (hd d F) E.
Proof. by destruct E. Qed.
Lemma lst_app d E F : lst d (E ++ F) = lst (lst d E) F.
Proof. revert d. induction E; cbn; intros d; done. Qed.
Lemma hd_in d E : hd d E = d ∧ E = [] ∨ hd d E ∈ E.
Proof. destruct E; [by left|right; by left]. Qed.
Lemma lst_in d E : lst d E = d ∧ E = [] ∨ lst d E ∈ E.
Proof.
  revert d. induction E as [|e E IH]; intros d; [by left|right]. cbn. destruct (IH e) as [[-> _]|H]; [by left|by right].
Qed.

Lemma seg_app m prev E F next : seg m prev (E ++ F) next ↔ seg m prev E (hd next F) ∧ seg m (lst prev E) F next.
Proof. revert prev. induction E as [|p E IH]; intros prev; cbn; [tauto|]. rewrite IH, hd_app. tauto. Qed.

Lemma seg_frame m m' prev E next :
  (∀ p, p ∈ E → (λ e, (lru_prev e, lru_next e)) <$> m' !! p = (λ e, (lru_prev e, lru_next e)) <$> m !! p) →
  seg m prev E next → seg m' prev E next.
Proof.
  revert prev. induction E as [|p E IH]; intros prev Hm; cbn; [done|]. intros [(e & He & H1 & H2) Hr]. split.
  - specialize (Hm p (list_elem_of_here _ _)). rewrite He in Hm. cbn in Hm.
    destruct (m' !! p) as [e'|]; [|done]. cbn in Hm. injection Hm as E1 E2. exists e'. split; [done|]. by rewrite E1, E2.
  - apply IH; [|done]. intros q Hq. apply Hm. by right.
Qed.

Lemma seg_put m prev E next p e : p ∉ E → seg m prev E next → seg (<[p := e]> m) prev E next.
Proof. intros Hp. apply seg_frame. intros q Hq. rewrite lookup_insert_ne; [done|]. congruence. Qed.

Lemma seg_in m prev E next p : seg m prev E next → p ∈ E → is_Some (m !! p).
Proof.
  revert prev. induction E as [|q E IH]; intros prev; [by intros _ ?%not_elem_of_nil|].
  cbn. intros [(e & He & _) Hr] [-> | Hin]%elem_of_cons; [by exists e|eauto].
Qed.

Lemma hseg_frame m m' start E :
  (∀ p, p ∈ E → hash_next <$> m' !! p = hash_next <$> m !! p) → hseg m start E → hseg m' start E.
Proof.
  revert start. induction E as [|p E IH]; intros start Hm; cbn; [done|]. intros (-> & e & He & Hr). split; [done|].
  specialize (Hm p (list_elem_of_here _ _)) as Hp. rewrite He in Hp. cbn in Hp.
  destruct (m' !! p) as [e'|]; [|done]. cbn in Hp. injection Hp as E1. exists e'. split; [done|]. rewrite E1.
  apply IH; [|done]. intros q Hq. apply Hm. by right.
Qed.

(** A new successor for the last entry, a new predecessor for the first one. *)
Lemma seg_set_next m prev E next next' :
  seg m prev E next → NoDup E →
  E = [] ∨ ∃ e, m !! lst prev E = Some e ∧ lru_next e = next ∧ seg (<[lst prev E := set_lru_next next' e]> m) prev E next'.
Proof.
  revert prev. induction E as [|p E IH]; intros prev; [by left|]. intros Hs [Hp Hnd]%NoDup_cons. right. destruct Hs as [(e & He & H1 & H2) Hr].
  destruct (IH _ Hr Hnd) as [-> | (e' & He' & Hn & Hr')].
  - exists e. cbn. split; [done|]. split; [done|]. split; [|done]. rewrite lookup_insert_eq. by eexists.
  - cbn. exists e'. split; [done|]. split; [done|]. destruct (lst_in p E) as [[Hl ->] | Hl].
    + cbn in *. split; [|done]. rewrite He in He'. injection He' as <-. rewrite lookup_insert_eq. by eexists.
    + split; [|done]. rewrite lookup_insert_ne by (intros Eq; by rewrite Eq in Hl). exists e. split; [done|]. split; [done|].
      destruct E; [by apply not_elem_of_nil in Hl|done].
Qed.

Lemma seg_set_prev m prev prev' E next :
  seg m prev E next → NoDup E →
  E = [] ∨ ∃ e, m !! hd next E = Some e ∧ lru_prev e = prev ∧ seg (<[hd next E := set_lru_prev prev' e]> m) prev' E next.
Proof.
  destruct E as [|p E]; [by left|]. intros [(e & He & H1 & H2) Hr] [Hp Hnd]%NoDup_cons. right. exists e. cbn. split; [done|]. split; [done|].
  split; [rewrite lookup_insert_eq; by eexists|]. by apply seg_put.
Qed.

(** *** Changes of the order of use *)

(** What does not belong to it. *)
Definition core (e : entry_t) := (libname e, result e, hash_key e, pending_count e, hash_next e).

Record relinked (s s' : shm) : Prop := mk_relinked {
  rl_rest : (heap s', strs s', table s', heap_limit s', heap_used s', hash s') = (heap s, strs s, table s, heap_limit s, heap_used s, hash s);
  rl_core p : core <$> ents s' !! p = core <$> ents s !! p;
}.

#[export] Instance relinked_preorder : PreOrder relinked.
Proof.
  split; [by split|]. intros s1 s2 s3 [H1 H2] [H3 H4]. split; [congruence|]. intros p. by rewrite H4, H2.
Qed.

Lemma relinked_upd s p f s' :
  (∀ e, core (f e) = core e) → upd s p f = Some s' →
  relinked s s' ∧ (lru_head s' = lru_head s ∧ lru_end s' = lru_end s) ∧ ∀ q, q ≠ p → ents s' !! q = ents s !! q.
Proof.
  intros Hf. unfold upd. destruct (ents s !! p) as [e|] eqn:E; cbn; [|done]. intros [= <-]. split; [|split; [done|]].
  - split; [done|]. intros q. cbn. destruct (decide (q = p)) as [-> | Hne]; [|by rewrite lookup_insert_ne].
    rewrite lookup_insert_eq, E. cbn. by rewrite Hf.
  - intros q Hq. cbn. by rewrite lookup_insert_ne.
Qed.

(** A neighbour of [p] gets a new link. *)
Record neighbour (s s' : shm) (E : list Z) : Prop := mk_neighbour {
  nb_relinked : relinked s s';
  nb_ends : lru_head s' = lru_head s ∧ lru_end s' = lru_end s;
  nb_other q : q ∉ E → ents s' !! q = ents s !! q;
}.

Lemma link_prev s q Y v :
  seg (ents s) q Y 0 → NoDup Y → 0 ∉ Y →
  ∃ s', upd_unless_null s (hd 0 Y) (set_lru_prev v) = Some s' ∧ seg (ents s') v Y 0 ∧ neighbour s s' Y.
Proof.
  intros Hs Hnd H0. unfold upd_unless_null. destruct (seg_set_prev _ _ v _ _ Hs Hnd) as [-> | (e & He & _ & Hs')].
  { exists s. split; [done|]. split; [done|]. split; [reflexivity|done|done]. }
  destruct (hd_in 0 Y) as [[_ ->] | Hin].
  { exists s. split; [done|]. split; [done|]. split; [reflexivity|done|done]. }
  rewrite (proj2 (Z.eqb_neq _ _)) by congruence.
  assert (upd s (hd 0 Y) (set_lru_prev v) = Some (set_ents (<[hd 0 Y := set_lru_prev v e]> (ents s)) s)) as E by (unfold upd; by rewrite He).
  destruct (relinked_upd s (hd 0 Y) (set_lru_prev v) _ (λ _, eq_refl) E) as (H1 & H2 & H3).
  rewrite E. eexists. split; [done|]. split; [done|]. split; [done|done|]. intros x Hx. apply H3. congruence.
Qed.

Lemma link_next s X n v :
  seg (ents s) 0 X n → NoDup X → 0 ∉ X →
  ∃ s', upd_unless_null s (lst 0 X) (set_lru_next v) = Some s' ∧ seg (ents s') 0 X v ∧ neighbour s s' X.
Proof.
  intros Hs Hnd H0. unfold upd_unless_null. destruct (seg_set_next _ _ _ _ v Hs Hnd) as [-> | (e & He & _ & Hs')].
  { exists s. split; [done|]. split; [done|]. split; [reflexivity|done|done]. }
  destruct (lst_in 0 X) as [[_ ->] | Hin].
  { exists s. split; [done|]. split; [done|]. split; [reflexivity|done|done]. }
  rewrite (proj2 (Z.eqb_neq _ _)) by congruence.
  assert (upd s (lst 0 X) (set_lru_next v) = Some (set_ents (<[lst 0 X := set_lru_next v e]> (ents s)) s)) as E by (unfold upd; by rewrite He).
  destruct (relinked_upd s (lst 0 X) (set_lru_next v) _ (λ _, eq_refl) E) as (H1 & H2 & H3).
  rewrite E. eexists. split; [done|]. split; [done|]. split; [done|done|]. intros x Hx. apply H3. congruence.
Qed.

Lemma neighbour_seg s s' E prev F next :
  neighbour s s' E → (∀ x, x ∈ F → x ∉ E) → seg (ents s) prev F next → seg (ents s') prev F next.
Proof. intros [_ _ Hn] Hd. apply seg_frame. intros x Hx. rewrite Hn; [done|by apply Hd]. Qed.

Record lru_ok (s : shm) (E : list Z) : Prop := mk_lru_ok {
  lo_seg : seg (ents s) 0 E 0;
  lo_head : lru_head s = hd 0 E;
  lo_end : lru_end s = lst 0 E;
  lo_nodup : NoDup (0 :: E);
}.

Lemma nodup_split X p Y :
  NoDup (0 :: X ++ p :: Y) →
  p ≠ 0 ∧ p ∉ X ∧ p ∉ Y ∧ (NoDup X ∧ 0 ∉ X) ∧ (NoDup Y ∧ 0 ∉ Y) ∧ (∀ x, x ∈ X → x ∉ Y) ∧ NoDup (0 :: X ++ Y).
Proof.
  intros [H0 H]%NoDup_cons. apply NoDup_app in H as (HX & Hd & HpY). apply NoDup_cons in HpY as [Hp HY].
  rewrite not_elem_of_app, not_elem_of_cons in H0. destruct H0 as (H0X & H0p & H0Y).
  split; [done|]. split; [intros Hin; apply (Hd _ Hin); by left|]. do 3 (split; [done|]). split; [set_solver|].
  apply NoDup_cons. split; [set_solver|]. apply NoDup_app. split; [done|]. split; [|done]. set_solver.
Qed.

(** The last entry when [p] is gone. *)
Lemma end_split X p Y :
  NoDup (0 :: X ++ p :: Y) → lst 0 (X ++ Y) = if p =? lst 0 (X ++ p :: Y) then lst 0 X else lst 0 (X ++ p :: Y).
Proof.
  intros (_ & _ & HpY & _)%nodup_split. rewrite !lst_app. cbn. destruct Y as [|y Y]; cbn; [by rewrite Z.eqb_refl|].
  destruct (p =? lst y Y) eqn:E; [|done]. apply Z.eqb_eq in E. destruct HpY. rewrite E.
  destruct (lst_in y Y) as [[-> _]|?]; [by left|by right].
Qed.

Lemma head_split X p Y :
  NoDup (0 :: X ++ p :: Y) → hd 0 (X ++ Y) = if p =? hd 0 (X ++ p :: Y) then hd 0 Y else hd 0 (X ++ p :: Y).
Proof.
  intros (_ & HpX & _)%nodup_split. rewrite !hd_app. cbn. destruct X as [|x X]; cbn; [by rewrite Z.eqb_refl|].
  rewrite (proj2 (Z.eqb_neq _ _)); [done|]. intros ->. destruct HpX. by left.
Qed.

(** The entry [p] comes out of the list: from either side. *)
Lemma detach_seg s s1 s2 X p Y :
  seg (ents s) 0 X p → seg (ents s) p Y 0 → NoDup (0 :: X ++ p :: Y) →
  (neighbour s s1 Y ∧ seg (ents s1) (lst 0 X) Y 0 ∧ neighbour s1 s2 X ∧ seg (ents s2) 0 X (hd 0 Y) ∨
   neighbour s s1 X ∧ seg (ents s1) 0 X (hd 0 Y) ∧ neighbour s1 s2 Y ∧ seg (ents s2) (lst 0 X) Y 0) →
  seg (ents s2) 0 (X ++ Y) 0 ∧ relinked s s2 ∧ (lru_head s2 = lru_head s ∧ lru_end s2 = lru_end s) ∧ ents s2 !! p = ents s !! p.
Proof.
  intros HX HY (_ & HpX & HpY & _ & _ & Hd & _)%nodup_split Hc.
  assert (relinked s s2 ∧ (lru_head s2 = lru_head s ∧ lru_end s2 = lru_end s) ∧ ents s2 !! p = ents s !! p) as Hr.
  { destruct Hc as [([R1 [? ?] O1] & _ & [R2 [? ?] O2] & _)|([R1 [? ?] O1] & _ & [R2 [? ?] O2] & _)];
      (split; [by etransitivity|]; split; [split; congruence|]; by rewrite O2, O1). }
  split; [|done]. apply seg_app. destruct Hc as [(N1 & S1 & N2 & S2)|(N1 & S1 & N2 & S2)].
  - split; [done|]. eapply neighbour_seg; [exact N2|set_solver|done].
  - split; [|done]. eapply neighbour_seg; [exact N2|set_solver|done].
Qed.

(** The second half of [mark_recently_used]: [p] becomes the first entry. *)
Lemma push_ok s E p e :
  lru_ok s E → p ∉ E → p ≠ 0 → ents s !! p = Some e →
  ∃ s', (s4 ← upd s p (λ e, set_lru_prev 0 (set_lru_next (lru_head s) e));
         s5 ← upd_unless_null s4 (lru_head s4) (set_lru_prev p);
         let s6 := set_head p s5 in Some (if lru_end s6 =? 0 then set_end p s6 else s6)) = Some s' ∧
    lru_ok s' (p :: E) ∧ relinked s s'.
Proof.
  intros [Hs Hh He Hnd] Hp Hp0 Hpe. pose proof Hnd as [H0 HndE]%NoDup_cons.
  set (f := λ e, set_lru_prev 0 (set_lru_next (lru_head s) e)).
  assert (upd s p f = Some (set_ents (<[p := f e]> (ents s)) s)) as E4 by (unfold upd; by rewrite Hpe).
  destruct (relinked_upd s p f _ (λ _, eq_refl) E4) as (R4 & [Hh4 He4] & O4). rewrite E4. cbn [mbind option_bind].
  set (s4 := set_ents _ s) in *. rewrite Hh4, Hh.
  destruct (link_prev s4 0 E p) as (s5 & E5 & Hs5 & [R5 [Hh5 He5] O5]); [by apply seg_put|done|done|].
  rewrite E5. cbn [mbind option_bind]. eexists. split; [done|].
  assert (ents s5 !! p = Some (f e)) as Hp5 by (rewrite O5 by done; apply lookup_insert_eq).
  assert (∀ s', ents s' = ents s5 → lru_head s' = p → lru_end s' = lst p E → lru_ok s' (p :: E)) as Hfin.
  { intros s' Ee Eh El. split; [|done|done|].
    - rewrite Ee. split; [|done]. exists (f e). split; [done|]. split; [done|]. exact Hh.
    - apply NoDup_cons. split; [set_solver|]. by apply NoDup_cons. }
  cbn [set_head lru_end]. rewrite He5, He4, He. destruct (lst_in 0 E) as [[Hl ->] | Hin].
  - rewrite Hl. cbn. split; [by apply Hfin|]. destruct R4 as [A1 A2], R5 as [B1 B2]. split; [cbn in *; congruence|].
    intros q. cbn. by rewrite B2, A2.
  - rewrite (proj2 (Z.eqb_neq _ _)) by congruence. split.
    + apply Hfin; [done|done|]. cbn. rewrite He5, He4, He. destruct E; [by apply not_elem_of_nil in Hin|done].
    + destruct R4 as [A1 A2], R5 as [B1 B2]. split; [cbn in *; congruence|]. intros q. cbn. by rewrite B2, A2.
Qed.

Lemma mark_ok s X p Y :
  lru_ok s (X ++ p :: Y) → ∃ s', mark_recently_used s p = Some s' ∧ lru_ok s' (p :: X ++ Y) ∧ relinked s s'.
Proof.
  intros Hl. pose proof Hl as [Hs Hh He Hnd]. pose proof Hnd as (Hp0 & HpX & HpY & [HnX H0X] & [HnY H0Y] & Hd & Hnd')%nodup_split.
  unfold mark_recently_used. rewrite Hh, hd_app. cbn [hd]. destruct X as [|x X].
  { cbn. rewrite Z.eqb_refl. exists s. split; [done|]. split; [done|reflexivity]. }
  rewrite (proj2 (Z.eqb_neq p _)) by (cbn; intros ->; apply HpX; by left).
  apply seg_app in Hs as [HX [(e & Hpe & Hpp & Hpn) HY]]. rewrite Hpe. cbn [mbind option_bind]. rewrite Hpn, Hpp.
  destruct (link_prev s p Y (lst 0 (x :: X)) HY HnY H0Y) as (s1 & E1 & S1 & N1). rewrite E1. cbn [mbind option_bind].
  assert (ents s1 !! p = Some e) as Hp1 by (by rewrite (nb_other _ _ _ N1)). rewrite Hp1. cbn [mbind option_bind]. rewrite Hpn.
  destruct (link_next s1 (x :: X) p (hd 0 Y)) as (s2 & E2 & S2 & N2);
    [eapply neighbour_seg; [exact N1|set_solver|exact HX]|done|done|]. rewrite E2. cbn [mbind option_bind].
  destruct (detach_seg s s1 s2 (x :: X) p Y HX HY Hnd) as (S & R & [Hh2 He2] & Hp2); [by left|].
  rewrite Hp2, Hpe. cbn [mbind option_bind]. rewrite Hpp, He2, He.
  set (s3 := if p =? lst 0 _ then _ else _).
  assert (lru_ok s3 ((x :: X) ++ Y) ∧ relinked s s3 ∧ ents s3 !! p = Some e) as (L3 & R3 & Hp3).
  { split; [|split].
    - split; [by unfold s3; destruct (_ =? _)| | |done].
      + rewrite (head_split _ p) by done. rewrite <- Hh. unfold s3. destruct (_ =? _); cbn; rewrite Hh2, Hh; cbn;
          by rewrite (proj2 (Z.eqb_neq p _)) by (intros ->; apply HpX; by left).
      + rewrite (end_split _ p) by done. unfold s3. destruct (_ =? _); [done|]. by rewrite He2, He.
    - etransitivity; [exact R|]. unfold s3. destruct (_ =? _); [by split|reflexivity].
    - unfold s3. destruct (_ =? _); cbn; congruence. }
  destruct (push_ok s3 ((x :: X) ++ Y) p e L3) as (s' & E' & L' & R'); [set_solver|done|done|].
  exists s'. split; [exact E'|]. split; [done|]. by etransitivity.
Qed.

Lemma mark_new s E p e :
  lru_ok s E → p ∉ E → p ≠ 0 → ents s !! p = Some e → lru_next e = 0 → lru_prev e = 0 →
  ∃ s', mark_recently_used s p = Some s' ∧ lru_ok s' (p :: E) ∧ relinked s s'.
Proof.
  intros Hl Hp Hp0 Hpe Hn Hpv. destruct (push_ok s E p e Hl Hp Hp0 Hpe) as (s' & E' & L' & R'). pose proof Hl as [_ Hh He _].
  exists s'. split; [|done]. unfold mark_recently_used.
  rewrite (proj2 (Z.eqb_neq p _)).
  2:{ rewrite Hh. intros ->. destruct (hd_in 0 E) as [[E0 _]|?]; done. }
  rewrite Hpe. cbn [mbind option_bind]. rewrite Hn, Hpv.
  change (upd_unless_null s 0 (set_lru_prev 0)) with (Some s). cbn [mbind option_bind]. rewrite Hpe. cbn [mbind option_bind]. rewrite Hn.
  change (upd_unless_null s 0 (set_lru_next 0)) with (Some s). cbn [mbind option_bind]. rewrite Hpe. cbn [mbind option_bind].
  rewrite (proj2 (Z.eqb_neq p _)); [exact E'|]. rewrite He. intros ->. destruct (lst_in 0 E) as [[E0 _]|?]; done.
Qed.

(** ** Memory *)

Definition total (live : gmap Z Z) : Z := map_fold (λ _ sz acc, Sheep.sheep_alloc_size sz + acc) 0 live.

Lemma total_insert live p sz : live !! p = None → total (<[p := sz]> live) = Sheep.sheep_alloc_size sz + total live.
Proof.
  intros H. apply (map_fold_insert_L (λ (_ sz acc : Z), Sheep.sheep_alloc_size sz + acc) 0 p sz live); [|done]. intros. lia.
Qed.

Lemma total_delete live p sz : live !! p = Some sz → total live = Sheep.sheep_alloc_size sz + total (delete p live).
Proof.
  intros H. apply (map_fold_delete_L (λ (_ sz acc : Z), Sheep.sheep_alloc_size sz + acc) 0 p sz live); [|done]. intros. lia.
Qed.

Lemma alloc_size_pos sz : 0 <= sz → 0 < Sheep.sheep_alloc_size sz.
Proof.
  intros H. unfold Sheep.sheep_alloc_size, Sheep.PREFIX. destruct (Sheep.ALIGN8_spec sz H) as [_ ?]. destruct (_ =? 0); lia.
Qed.

Lemma total_live_nonneg live : (∀ p sz, live !! p = Some sz → 0 <= sz) → 0 <= total live.
Proof.
  induction live as [|p sz live Hp IH] using map_ind; intros H; [done|]. rewrite total_insert by done.
  assert (0 <= sz) as Hsz by (apply (H p); apply lookup_insert_eq). pose proof (alloc_size_pos sz Hsz).
  enough (0 <= total live) by lia. apply IH. intros q z Hq. apply (H q). rewrite lookup_insert_ne; [done|]. congruence.
Qed.

(** The memory of the cache: [live] has what is allocated, with its size. *)
Record mem_ok (s : shm) (live : gmap Z Z) : Prop := mk_mem_ok {
  mo_heap : h_inv (heap s) live;
  mo_used : heap_used s = total live;
  mo_size p sz : live !! p = Some sz → 0 < sz;
  mo_strs p str : strs s !! p = Some str → live !! p = Some (Z.of_nat (length str) + 1);
  mo_ents p e : ents s !! p = Some e → live !! p = Some ENTRY_SIZE;
  mo_apart p : is_Some (strs s !! p) → ents s !! p = None;
  mo_table : hash s ≠ 0 → live !! hash s = Some TABLE_SIZE ∧ strs s !! hash s = None ∧ ents s !! hash s = None;
}.

Lemma mem_range s live p : mem_ok s live → is_Some (live !! p) → p ≠ 0 ∧ p ≠ in_progress.
Proof. intros Hm Hp. pose proof (h_range_law _ _ _ (mo_heap _ _ Hm) Hp). unfold in_progress. lia. Qed.

Lemma mem_ents s live p : mem_ok s live → is_Some (ents s !! p) → p ≠ 0 ∧ p ≠ in_progress.
Proof. intros Hm [e He]. eapply mem_range; [exact Hm|]. rewrite (mo_ents _ _ Hm _ _ He). done. Qed.

Lemma mem_strs s live p : mem_ok s live → is_Some (strs s !! p) → p ≠ 0 ∧ p ≠ in_progress.
Proof. intros Hm [str He]. eapply mem_range; [exact Hm|]. rewrite (mo_strs _ _ Hm _ _ He). done. Qed.

(** Enough is accounted for to give [p] back. *)
Lemma used_enough s live p sz :
  mem_ok s live → live !! p = Some sz → (heap_used s <? Sheep.sheep_alloc_size sz) = false ∧
    heap_used s - Sheep.sheep_alloc_size sz = total (delete p live).
Proof.
  intros Hm Hp. rewrite (mo_used _ _ Hm), (total_delete _ _ _ Hp).
  assert (0 <= total (delete p live)).
  { apply total_live_nonneg. intros q z Hq%lookup_delete_Some. destruct Hq as [_ Hq]. pose proof (mo_size _ _ Hm _ _ Hq). lia. }
  split; [apply Z.ltb_ge; lia|lia].
Qed.

Lemma free_str_ok s live p str :
  mem_ok s live → strs s !! p = Some str →
  ∃ h u, free_sheep_str s p = Some (set_strs (delete p (strs s)) (set_heap h u s)) ∧
    mem_ok (set_strs (delete p (strs s)) (set_heap h u s)) (delete p live) ∧ u <= heap_used s.
Proof.
  intros Hm Hp. pose proof (mo_strs _ _ Hm _ _ Hp) as Hl. destruct (used_enough _ _ _ _ Hm Hl) as [Hu Ht].
  destruct (h_free_law _ _ _ _ (mo_heap _ _ Hm) Hl) as (h & E & Hi). unfold free_sheep_str. rewrite Hp. cbn [mbind option_bind].
  rewrite Hu, E. cbn [mbind option_bind]. rewrite Ht. eexists _, _. split; [done|]. split.
  - destruct Hm as [_ _ Hz Hstr Hent Hap Htab]. constructor; cbn; [done|done| | | | |].
    + intros q z [_ Hq]%lookup_delete_Some. eauto.
    + intros q z [Hne Hq]%lookup_delete_Some. rewrite lookup_delete_ne by done. eauto.
    + intros q e Hq. rewrite lookup_delete_ne; [eauto|]. intros ->. by rewrite Hap in Hq.
    + intros q [z [_ Hq]%lookup_delete_Some]. apply Hap. by exists z.
    + intros Hz0. destruct (Htab Hz0) as (T1 & T2 & T3). rewrite !lookup_delete_ne by congruence. done.
  - pose proof (mo_size _ _ Hm _ _ Hl). pose proof (alloc_size_pos (Z.of_nat (length str) + 1)). lia.
Qed.

Lemma free_entry_ok s live p :
  mem_ok s live → live !! p = Some ENTRY_SIZE → strs s !! p = None →
  ∃ h u, free_sheep_entry s p = Some (set_ents (delete p (ents s)) (set_heap h u s)) ∧
    mem_ok (set_ents (delete p (ents s)) (set_heap h u s)) (delete p live) ∧ u <= heap_used s.
Proof.
  intros Hm Hl Hns. destruct (used_enough _ _ _ _ Hm Hl) as [Hu Ht].
  destruct (h_free_law _ _ _ _ (mo_heap _ _ Hm) Hl) as (h & E & Hi). unfold free_sheep_entry.
  rewrite Hu, E. cbn [mbind option_bind]. rewrite Ht. eexists _, _. split; [done|]. split.
  - destruct Hm as [_ _ Hz Hstr Hent Hap Htab]. constructor; cbn; [done|done| | | | |].
    + intros q z [_ Hq]%lookup_delete_Some. eauto.
    + intros q str Hq. rewrite lookup_delete_ne; [eauto|]. congruence.
    + intros q e [Hne Hq]%lookup_delete_Some. rewrite lookup_delete_ne by done. eauto.
    + intros q Hq. rewrite lookup_delete_None. auto.
    + intros Hz0. destruct (Htab Hz0) as (T1 & T2 & T3). rewrite lookup_delete_None.
      rewrite lookup_delete_ne; [auto|]. intros ->. rewrite Hl in T1. done.
  - pose proof (alloc_size_pos ENTRY_SIZE). unfold ENTRY_SIZE in *. lia.
Qed.

(** ** The invariant *)

(** The answers that may be in the cache. *)
Variable good : bytes → value → Prop.

Definition strings_of (e : entry_t) : list Z :=
  libname e :: (if (result e =? 0) || (result e =? in_progress) then [] else [result e]).

(** What an entry stands for: name, value, and how many processes wait for it. *)
Definition view (s : shm) (p : Z) : option (bytes * value * Z) :=
  e ← ents s !! p; name ← strs s !! libname e; v ← read_value s (result e); Some (name, v, pending_count e).

Record entry_ok (s : shm) (waiters : Z → Z) (p : Z) (e : entry_t) : Prop := mk_entry_ok {
  eo_view : ∃ name v, view s p = Some (name, v, pending_count e) ∧ hash_key e = str_hash name ∧ good name v;
  eo_strings : NoDup (strings_of e);
  eo_waiters : pending_count e = waiters p;
}.

Record cache_ok (s : shm) (live : gmap Z Z) (waiters : Z → Z) (E : list Z) (C : Z → list Z) : Prop := mk_cache_ok {
  ck_mem : mem_ok s live;
  ck_lru : lru_ok s E;
  ck_dom p : p ∈ E ↔ is_Some (ents s !! p);
  ck_hash k : hseg (ents s) (bucket s k) (C k);
  ck_nodup k : NoDup (C k);
  ck_chain k p : p ∈ C k ↔ ∃ e, ents s !! p = Some e ∧ hash_key e = k;
  ck_entry p e : ents s !! p = Some e → entry_ok s waiters p e;
  ck_own p q e f x : ents s !! p = Some e → ents s !! q = Some f → x ∈ strings_of e → x ∈ strings_of f → p = q;
  ck_wait p : waiters p ≠ 0 → p ∈ E;
  ck_limit : heap_limit s ≠ 0 → heap_used s <= heap_limit s;
}.

Lemma dom_length s live W E C : cache_ok s live W E C → length E = size (ents s).
Proof.
  intros H. pose proof (lo_nodup _ _ (ck_lru _ _ _ _ _ H)) as [_ Hnd]%NoDup_cons.
  rewrite <- size_dom. replace (dom (ents s)) with (list_to_set E : gset Z).
  - by rewrite size_list_to_set.
  - apply set_eq. intros x. rewrite elem_of_list_to_set, elem_of_dom. apply (ck_dom _ _ _ _ _ H).
Qed.

Lemma bucket_length s live W E C k : cache_ok s live W E C → (length (C k) ≤ size (ents s))%nat.
Proof.
  intros H. rewrite <- (dom_length _ _ _ _ _ H). apply submseteq_length, NoDup_submseteq; [apply H|].
  intros x Hx%(ck_chain _ _ _ _ _ H). destruct Hx as (e & He & _). apply (ck_dom _ _ _ _ _ H). by exists e.
Qed.

Lemma core_lookup s s' p e' : relinked s s' → ents s' !! p = Some e' → ∃ e, ents s !! p = Some e ∧ core e' = core e.
Proof.
  intros [_ Hc] He. specialize (Hc p). rewrite He in Hc. destruct (ents s !! p) as [e|]; [|done]. exists e. split; [done|]. by apply (inj Some) in Hc.
Qed.

Lemma relinked_sym s s' : relinked s s' → relinked s' s.
Proof. intros [H1 H2]. split; [done|]. intros p. by rewrite H2. Qed.

Lemma core_eq e e' : core e' = core e →
  libname e' = libname e ∧ result e' = result e ∧ hash_key e' = hash_key e ∧ pending_count e' = pending_count e ∧ hash_next e' = hash_next e.
Proof. unfold core. intros [= -> -> -> -> ->]. done. Qed.

Lemma relinked_view s s' p : relinked s s' → view s' p = view s p.
Proof.
  intros [Hr Hc]. injection Hr as _ Hs _ _ _ _. specialize (Hc p). unfold view, read_value. rewrite Hs.
  destruct (ents s' !! p) as [e'|], (ents s !! p) as [e|]; try done.
  apply (inj Some), core_eq in Hc as (E1 & E2 & _ & E4 & _). cbn [mbind option_bind]. by rewrite E1, E2, E4.
Qed.

Lemma relinked_mem s s' live : relinked s s' → mem_ok s live → mem_ok s' live.
Proof.
  intros R [H1 H2 H3 H4 H5 H6 H7]. pose proof R as [Hr Hc]. injection Hr as Eh Es _ _ Eu Ehash. constructor.
  - by rewrite Eh.
  - by rewrite Eu.
  - done.
  - by rewrite Es.
  - intros p e' He'. destruct (core_lookup _ _ _ _ R He') as (e & He & _). eauto.
  - intros p Hp. rewrite Es in Hp. specialize (H6 _ Hp). specialize (Hc p). rewrite H6 in Hc. by destruct (ents s' !! p).
  - rewrite Ehash, Es. intros Hz. destruct (H7 Hz) as (T1 & T2 & T3). split; [done|]. split; [done|]. specialize (Hc (hash s)).
    rewrite T3 in Hc. by destruct (ents s' !! hash s).
Qed.

(** The invariant without the order of use. *)
Record cache_core (s : shm) (live : gmap Z Z) (waiters : Z → Z) (E : list Z) (C : Z → list Z) : Prop := mk_cache_core {
  cc_mem : mem_ok s live;
  cc_dom p : p ∈ E ↔ is_Some (ents s !! p);
  cc_hash k : hseg (ents s) (bucket s k) (C k);
  cc_nodup k : NoDup (C k);
  cc_chain k p : p ∈ C k ↔ ∃ e, ents s !! p = Some e ∧ hash_key e = k;
  cc_entry p e : ents s !! p = Some e → entry_ok s waiters p e;
  cc_own p q e f x : ents s !! p = Some e → ents s !! q = Some f → x ∈ strings_of e → x ∈ strings_of f → p = q;
  cc_wait p : waiters p ≠ 0 → p ∈ E;
  cc_limit : heap_limit s ≠ 0 → heap_used s <= heap_limit s;
}.

Lemma core_of s live W E C : cache_ok s live W E C → cache_core s live W E C.
Proof. by intros []. Qed.
Lemma cache_of s live W E C : lru_ok s E → cache_core s live W E C → cache_ok s live W E C.
Proof. by intros ? []. Qed.

Lemma relinked_core s s' live W E E' C :
  relinked s s' → E' ≡ₚ E → cache_core s live W E C → cache_core s' live W E' C.
Proof.
  intros R HE [Hm Hd Hh Hn Hc He Ho Hw Hli]. pose proof R as [Hr Hco]. injection Hr as Eh Es Et El Eu Ehash.
  constructor; [by eapply relinked_mem| | |done| | | | |by rewrite El, Eu].
  - intros p. rewrite HE, Hd. specialize (Hco p). destruct (ents s' !! p), (ents s !! p); try done; naive_solver.
  - intros k. unfold bucket. rewrite Et. eapply hseg_frame; [|apply Hh]. intros p _. specialize (Hco p).
    destruct (ents s' !! p), (ents s !! p); try done.
    apply (inj Some), core_eq in Hco as (_ & _ & _ & _ & Eh'). cbn. by rewrite Eh'.
  - intros k p. rewrite Hc. split; intros (e & Hp & Hk).
    + destruct (core_lookup _ _ _ _ (relinked_sym _ _ R) Hp) as (e2 & Hp2 & (_ & _ & Ek & _)%core_eq). exists e2. split; congruence.
    + destruct (core_lookup _ _ _ _ R Hp) as (e2 & Hp2 & (_ & _ & Ek & _)%core_eq). exists e2. split; congruence.
  - intros p e' He'. destruct (core_lookup _ _ _ _ R He') as (e & Hpe & (E1 & E2 & E3 & E4 & _)%core_eq).
    destruct (He _ _ Hpe) as [(name & v & Hv & Hk & Hg) Hs Hwp]. split.
    + exists name, v. rewrite (relinked_view _ _ _ R), E3, E4. done.
    + unfold strings_of. by rewrite E1, E2.
    + by rewrite E4.
  - intros p q e' f' x He' Hf'. destruct (core_lookup _ _ _ _ R He') as (e & Hpe & (E1 & E2 & _)%core_eq).
    destruct (core_lookup _ _ _ _ R Hf') as (f & Hqf & (F1 & F2 & _)%core_eq). unfold strings_of. rewrite E1, E2, F1, F2. by apply Ho.
  - intros p Hp. rewrite HE. by apply Hw.
Qed.

Lemma relinked_cache s s' live W E E' C :
  relinked s s' → lru_ok s' E' → E' ≡ₚ E → cache_ok s live W E C → cache_ok s' live W E' C.
Proof. intros R L HE H. apply cache_of; [done|]. by eapply relinked_core, core_of. Qed.

(** ** Throwing out *)

Definition is_pinned (s : shm) (p : Z) : Prop := ∃ e, ents s !! p = Some e ∧ pinned e = true.

Lemma find_oldest_ok (s : shm) X : ∀ fuel Y,
  seg (ents s) 0 (X ++ Y) 0 → 0 ∉ X → (length X < fuel)%nat →
  ∃ r, find_oldest fuel s (lst 0 X) = Some r ∧
    (r = 0 ∧ Forall (is_pinned s) X ∨
     r ≠ 0 ∧ ∃ X1 X2 e, X = X1 ++ r :: X2 ∧ ents s !! r = Some e ∧ pinned e = false ∧ Forall (is_pinned s) X2).
Proof.
  induction X as [|p X IH] using rev_ind; intros fuel Y Hs H0 Hf.
  { exists 0. split; [by destruct fuel|]. left. split; [done|constructor]. }
  rewrite length_app in Hf. cbn in Hf. destruct fuel as [|fuel]; [lia|]. rewrite lst_app. cbn [lst find_oldest].
  rewrite not_elem_of_app, list_elem_of_singleton in H0. destruct H0 as [H0 Hp0]. rewrite (proj2 (Z.eqb_neq p 0)) by congruence.
  rewrite <- app_assoc in Hs. pose proof Hs as (_ & (e & He & Hpv & _) & _)%seg_app. rewrite He. cbn [mbind option_bind].
  destruct (pinned e) eqn:Ep.
  - rewrite Hpv. destruct (IH fuel ([p] ++ Y) Hs H0) as (r & E & Hr); [lia|]. exists r. split; [done|].
    assert (is_pinned s p) as Hpin by (by exists e).
    destruct Hr as [[-> HF] | (Hr & X1 & X2 & e' & -> & He' & Hu & HF)].
    + left. split; [done|]. apply Forall_app. split; [done|]. by constructor.
    + right. split; [done|]. exists X1, (X2 ++ [p]), e'. rewrite <- app_assoc. split_and!; try done. apply Forall_app. split; [done|by constructor].
  - exists p. split; [done|]. right. split; [congruence|]. exists X, [], e. done.
Qed.

Lemma find_prev_hash_ok (s : shm) p Y X : ∀ fuel start prev,
  hseg (ents s) start (X ++ p :: Y) → p ∉ X → (length X < fuel)%nat → find_prev_hash fuel s start p prev = Some (lst prev X).
Proof.
  induction X as [|x X IH]; intros fuel start prev Hs Hp Hf; (destruct fuel as [|fuel]; [cbn in Hf; lia|]); cbn in Hs |- *.
  - destruct Hs as [-> _]. by rewrite Z.eqb_refl.
  - destruct Hs as (-> & e & He & Hs). rewrite not_elem_of_cons in Hp. destruct Hp as [Hne Hp].
    rewrite (proj2 (Z.eqb_neq x p)) by congruence. rewrite He. cbn. apply IH; [done|done|cbn in Hf; lia].
Qed.

(** The bucket without [p]. *)
Lemma hseg_remove m start X p Y e :
  hseg m start (X ++ p :: Y) → NoDup (X ++ p :: Y) → m !! p = Some e →
  (X = [] ∧ hseg m (hash_next e) Y) ∨
  ∃ ex, X ≠ [] ∧ m !! lst 0 X = Some ex ∧ hseg (<[lst 0 X := set_hash_next (hash_next e) ex]> m) start (X ++ Y).
Proof.
  intros Hs Hnd Hp. destruct X as [|x X].
  { left. split; [done|]. cbn in Hs. destruct Hs as (_ & e' & He' & Hs). by rewrite Hp in He'; injection He' as <-. }
  right. revert start x Hs Hnd. induction X as [|y X IH]; intros start x Hs Hnd; cbn in Hs.
  - destruct Hs as (-> & ex & Hx & _ & e' & He' & Hs). rewrite Hp in He'. injection He' as <-. exists ex. split; [done|]. split; [done|].
    cbn. split; [done|]. rewrite lookup_insert_eq. eexists. split; [done|]. cbn. cbn in Hnd. apply NoDup_cons in Hnd as [Hn _].
    eapply hseg_frame; [|exact Hs]. intros q Hq. rewrite lookup_insert_ne; [done|]. set_solver.
  - destruct Hs as (-> & e1 & Hx & Hs). cbn in Hnd. apply NoDup_cons in Hnd as [Hn Hnd]. destruct (IH (hash_next e1) y Hs Hnd) as (ex & _ & Hl & Hs').
    exists ex. split; [done|]. split; [exact Hl|]. cbn [app hseg]. split; [done|]. exists e1. split; [|exact Hs'].
    change (lst 0 (x :: y :: X)) with (lst 0 (y :: X)). rewrite lookup_insert_ne; [done|].
    destruct (lst_in 0 (y :: X)) as [[_ ?]|Hin]; [done|]. intros Eq. rewrite Eq in Hin. apply Hn. set_solver.
Qed.

Definition body (e : entry_t) := (libname e, result e, hash_key e, pending_count e).

Lemma body_eq e e' : body e' = body e →
  libname e' = libname e ∧ result e' = result e ∧ hash_key e' = hash_key e ∧ pending_count e' = pending_count e.
Proof. unfold body. intros [= -> -> -> ->]. done. Qed.

(** The list of [v]'s bucket without [v]. *)
Definition without (v : Z) (C : Z → list Z) (k : Z) : list Z := filter (λ q, q ≠ v) (C k).

Lemma filter_not (v : Z) (L : list Z) : v ∉ L → filter (λ q, q ≠ v) L = L.
Proof.
  induction L as [|x L IH]; [done|]. rewrite not_elem_of_cons. intros [Hx HL]. rewrite filter_cons, decide_True, IH by (congruence || done). done.
Qed.

Lemma without_split (v : Z) X Y : NoDup (X ++ v :: Y) → filter (λ q, q ≠ v) (X ++ v :: Y) = X ++ Y.
Proof.
  intros (_ & Hd & [Hv _]%NoDup_cons)%NoDup_app. rewrite filter_app, filter_cons. rewrite decide_False by (intros H; by apply H).
  rewrite !filter_not; [done|done|]. intros Hin. apply (Hd _ Hin). by left.
Qed.

(** The first change of [clean_oldest_entry]: [v] leaves its bucket. *)
Record unhashed (s s1 : shm) (v : Z) (C : Z → list Z) : Prop := mk_unhashed {
  uh_rest : (heap s1, strs s1, lru_head s1, lru_end s1, heap_limit s1, heap_used s1, hash s1) =
            (heap s, strs s, lru_head s, lru_end s, heap_limit s, heap_used s, hash s);
  uh_body q : (λ e, (body e, lru_prev e, lru_next e)) <$> ents s1 !! q = (λ e, (body e, lru_prev e, lru_next e)) <$> ents s !! q;
  uh_here : ents s1 !! v = ents s !! v;
  uh_hash k : hseg (ents s1) (bucket s1 k) (without v C k);
}.

Lemma unhash_ok s live W E C v e :
  cache_ok s live W E C → ents s !! v = Some e →
  ∃ prev s1, find_prev_hash (FUEL s) s (bucket s (hash_key e)) v 0 = Some prev ∧
    (if prev =? 0 then Some (set_table (hash_key e) (hash_next e) s) else upd s prev (set_hash_next (hash_next e))) = Some s1 ∧
    unhashed s s1 v C.
Proof.
  intros H He. pose proof (ck_hash _ _ _ _ _ H (hash_key e)) as Hh. pose proof (ck_nodup _ _ _ _ _ H (hash_key e)) as Hn.
  assert (v ∈ C (hash_key e)) as Hin by (apply (ck_chain _ _ _ _ _ H); by exists e).
  pose proof (bucket_length _ _ _ _ _ (hash_key e) H) as Hlen.
  assert (∀ k, k ≠ hash_key e → without v C k = C k) as Hother.
  { intros k Hk. apply filter_not. intros Hq. apply (ck_chain _ _ _ _ _ H) in Hq as (e' & He' & Ek). congruence. }
  apply list_elem_of_split in Hin as (X & Y & EC). rewrite EC in Hh, Hn, Hlen. rewrite length_app in Hlen. cbn in Hlen.
  assert (without v C (hash_key e) = X ++ Y) as Ewo by (unfold without; rewrite EC; by apply without_split).
  assert (∀ x, x ∈ X → x ≠ 0 ∧ x ≠ v ∧ ∀ k, k ≠ hash_key e → x ∉ C k) as HX.
  { intros x Hx. assert (x ∈ C (hash_key e)) as (ex & Hex & Ek)%(ck_chain _ _ _ _ _ H) by (rewrite EC; set_solver).
    split; [by apply (mem_ents _ _ _ (ck_mem _ _ _ _ _ H)); exists ex|]. split.
    - apply NoDup_app in Hn as (_ & Hd & _). specialize (Hd _ Hx). set_solver.
    - intros k Hk (e2 & He2 & Ek2)%(ck_chain _ _ _ _ _ H). congruence. }
  exists (lst 0 X). rewrite (find_prev_hash_ok s v Y X); [|done| |unfold FUEL; lia].
  2:{ intros Hv. by destruct (HX _ Hv) as (_ & ? & _). }
  destruct (hseg_remove _ _ _ _ _ _ Hh Hn He) as [[-> Hs] | (ex & HXn & Hx & Hs)].
  - eexists. split; [done|]. split; [done|]. split; [done|done|done|]. intros k. unfold bucket. cbn.
    destruct (decide (k = hash_key e)) as [-> | Hk]; [rewrite lookup_insert_eq, Ewo; exact Hs|].
    rewrite lookup_insert_ne, Hother by done. apply (ck_hash _ _ _ _ _ H).
  - destruct (lst_in 0 X) as [[_ ?]|Hin]; [done|]. destruct (HX _ Hin) as (Hx0 & Hxv & Hxk).
    rewrite (proj2 (Z.eqb_neq _ _)) by done. unfold upd. rewrite Hx. cbn. eexists. split; [done|]. split; [done|]. split; cbn.
    + done.
    + intros q. destruct (decide (q = lst 0 X)) as [-> | Hq]; [rewrite lookup_insert_eq, Hx; done|by rewrite lookup_insert_ne].
    + by rewrite lookup_insert_ne.
    + intros k. change (bucket _ k) with (bucket s k). destruct (decide (k = hash_key e)) as [-> | Hk]; [by rewrite Ewo|].
      rewrite Hother by done. eapply hseg_frame; [|apply (ck_hash _ _ _ _ _ H)]. intros q Hq. rewrite lookup_insert_ne; [done|].
      intros <-. by apply (Hxk k Hk).
Qed.

Lemma lru_unlink_ok s X v Y e :
  lru_ok s (X ++ v :: Y) → ents s !! v = Some e →
  ∃ s', (let s2 := if v =? lru_head s then set_head (lru_next e) s else s in
         let s3 := if lru_end s2 =? v then set_end (lru_prev e) s2 else s2 in
         s4 ← upd_unless_null s3 (lru_prev e) (set_lru_next (lru_next e));
         upd_unless_null s4 (lru_next e) (set_lru_prev (lru_prev e))) = Some s' ∧
    lru_ok s' (X ++ Y) ∧ relinked s s' ∧ ents s' !! v = Some e.
Proof.
  intros [Hs Hh He Hnd] Hv. pose proof Hnd as (Hp0 & HpX & HpY & [HnX H0X] & [HnY H0Y] & Hd & Hnd')%nodup_split.
  apply seg_app in Hs as [HX [(e' & Hve & Hpp & Hpn) HY]]. rewrite Hv in Hve. injection Hve as <-. cbv zeta. rewrite Hpp, Hpn.
  set (s2 := if v =? lru_head s then _ else _). set (s3 := if lru_end s2 =? v then _ else _).
  assert (ents s3 = ents s ∧ lru_head s3 = hd 0 (X ++ Y) ∧ lru_end s3 = lst 0 (X ++ Y) ∧ relinked s s3) as (Ee & Eh & El & R3).
  { assert (lru_end s2 = lru_end s) as E2 by (unfold s2; by destruct (_ =? _)).
    rewrite (head_split _ v), (end_split _ v) by done. rewrite <- Hh, <- He. unfold s3. rewrite E2, (Z.eqb_sym _ v).
    unfold s2. destruct (v =? lru_head s), (v =? lru_end s); cbn; (split_and!; try done; by split). }
  destruct (link_next s3 X v (hd 0 Y)) as (s4 & E4 & S4 & N4); [by rewrite Ee|done|done|]. rewrite E4. cbn [mbind option_bind].
  destruct (link_prev s4 v Y (lst 0 X)) as (s5 & E5 & S5 & N5); [eapply neighbour_seg; [exact N4|set_solver|by rewrite Ee]|done|done|].
  rewrite E5. destruct (detach_seg s3 s4 s5 X v Y) as (S & R & [Hh5 He5] & Hv5); [by rewrite Ee|by rewrite Ee|done|by right|].
  exists s5. split; [done|]. split; [|split; [by etransitivity|by rewrite Hv5, Ee]]. split; [done| | |done]; congruence.
Qed.

(** What stays from the start. *)
Definition fixed (s : shm) : Z * Z := (heap_limit s, hash s).

(** The entry [v] of [s] is gone in [s']. *)
Record gone (s s' : shm) (v : Z) (e : entry_t) : Prop := mk_gone {
  gn_here : ents s' !! v = None;
  gn_other q : q ≠ v → body <$> ents s' !! q = body <$> ents s !! q;
  gn_strs x : strs s' !! x = if decide (x ∈ strings_of e) then None else strs s !! x;
  gn_limit : fixed s' = fixed s;
  gn_used : heap_used s' <= heap_used s;
}.

Lemma gone_lookup s s' v e q f' :
  gone s s' v e → ents s' !! q = Some f' → q ≠ v ∧ ∃ f, ents s !! q = Some f ∧ body f' = body f.
Proof.
  intros [Hv Ho _ _ _] Hq. destruct (decide (q = v)) as [-> | Hne]; [congruence|]. split; [done|]. specialize (Ho _ Hne). rewrite Hq in Ho.
  destruct (ents s !! q) as [f|]; [|done]. exists f. split; [done|]. by apply (inj Some) in Ho.
Qed.

Lemma strings_in s live W E C p e :
  cache_ok s live W E C → ents s !! p = Some e → ∀ x, x ∈ strings_of e → is_Some (strs s !! x).
Proof.
  intros H He x Hx. destruct (ck_entry _ _ _ _ _ H _ _ He) as [(name & v & Hv & _) _ _]. unfold view in Hv. rewrite He in Hv. cbn in Hv.
  destruct (strs s !! libname e) as [n|] eqn:En; [|done]. cbn in Hv. unfold strings_of in Hx. unfold read_value in Hv.
  rewrite elem_of_cons in Hx. destruct Hx as [-> | Hx]; [by rewrite En|].
  destruct (result e =? 0); [by apply not_elem_of_nil in Hx|]. destruct (result e =? in_progress); [by apply not_elem_of_nil in Hx|].
  cbn in Hx. apply list_elem_of_singleton in Hx as ->. destruct (strs s !! result e); [done|done].
Qed.

(** Other entries do not notice. *)
Lemma gone_view s s' v e live W E C q :
  cache_ok s live W E C → ents s !! v = Some e → gone s s' v e → q ≠ v → view s' q = view s q.
Proof.
  intros H He [Hv Ho Hs _ _] Hq. specialize (Ho q Hq). unfold view.
  destruct (ents s' !! q) as [f'|] eqn:Ef', (ents s !! q) as [f|] eqn:Ef; try done. apply (inj Some), body_eq in Ho as (E1 & E2 & _ & E4).
  assert (∀ x, x ∈ strings_of f → strs s' !! x = strs s !! x) as Hx.
  { intros x Hin. rewrite Hs, decide_False; [done|]. intros Hine. apply Hq. exact (ck_own _ _ _ _ _ H _ _ _ _ _ Ef He Hin Hine). }
  cbn [mbind option_bind]. rewrite E1, E2, E4, Hx by (by left). destruct (strs s !! libname f); [|done]. cbn.
  unfold read_value. destruct (result f =? 0) eqn:E0; [done|]. destruct (result f =? in_progress) eqn:Ei; [done|].
  rewrite Hx; [done|]. unfold strings_of. rewrite E0, Ei. right. by left.
Qed.

Lemma gone_cache s s' live live' W X Y C v e :
  cache_ok s live W (X ++ v :: Y) C → ents s !! v = Some e → gone s s' v e → mem_ok s' live' → lru_ok s' (X ++ Y) →
  (∀ k, hseg (ents s') (bucket s' k) (without v C k)) → W v = 0 → cache_ok s' live' W (X ++ Y) (without v C).
Proof.
  intros H He Hg Hm' Hl' Hh' Hw. pose proof Hg as [Hgv Hgo Hgs Hgl Hgu].
  pose proof (lo_nodup _ _ (ck_lru _ _ _ _ _ H)) as (_ & HvX & HvY & _)%nodup_split.
  constructor; [done|done| |done| | | | | |].
  - intros p. pose proof (ck_dom _ _ _ _ _ H p) as Hd. rewrite elem_of_app, elem_of_cons in Hd. rewrite elem_of_app.
    destruct (decide (p = v)) as [-> | Hne].
    + rewrite Hgv. split; [tauto|by intros [? ?]].
    + specialize (Hgo p Hne). assert (is_Some (ents s' !! p) ↔ is_Some (ents s !! p)) as ->.
      { destruct (ents s' !! p), (ents s !! p); try done; naive_solver. }
      rewrite <- Hd. naive_solver.
  - intros k. apply NoDup_filter, H.
  - intros k p. unfold without. rewrite list_elem_of_filter, (ck_chain _ _ _ _ _ H). split.
    + intros (Hne & f & Hf & Hk). specialize (Hgo p Hne). rewrite Hf in Hgo. destruct (ents s' !! p) as [f'|] eqn:Ef'; [|done].
      apply (inj Some), body_eq in Hgo as (_ & _ & Ek & _). exists f'. split; [done|congruence].
    + intros (f' & Hf' & Hk). destruct (gone_lookup _ _ _ _ _ _ Hg Hf') as (Hne & f & Hf & (_ & _ & Ek & _)%body_eq).
      split; [done|]. exists f. split; [done|congruence].
  - intros p f' Hf'. destruct (gone_lookup _ _ _ _ _ _ Hg Hf') as (Hne & f & Hf & (E1 & E2 & E3 & E4)%body_eq).
    destruct (ck_entry _ _ _ _ _ H _ _ Hf) as [(name & u & Hv & Hk & Hgd) Hst Hwp]. split.
    + exists name, u. rewrite (gone_view _ _ _ _ _ _ _ _ _ H He Hg Hne), E3, E4. done.
    + unfold strings_of. by rewrite E1, E2.
    + by rewrite E4.
  - intros p q f1' f2' x H1 H2. destruct (gone_lookup _ _ _ _ _ _ Hg H1) as (_ & f1 & Hf1 & (A1 & A2 & _)%body_eq).
    destruct (gone_lookup _ _ _ _ _ _ Hg H2) as (_ & f2 & Hf2 & (B1 & B2 & _)%body_eq).
    unfold strings_of. rewrite A1, A2, B1, B2. exact (ck_own _ _ _ _ _ H _ _ _ _ _ Hf1 Hf2).
  - intros p Hp. pose proof (ck_wait _ _ _ _ _ H p Hp) as Hin. rewrite elem_of_app, elem_of_cons in Hin. rewrite elem_of_app.
    destruct Hin as [?|[-> |?]]; [by left|done|by right].
  - injection Hgl as -> _. intros Hz. pose proof (ck_limit _ _ _ _ _ H Hz). lia.
Qed.

(** The strings and the entry are given back. *)
Lemma free_all_ok s live v e :
  mem_ok s live → ents s !! v = Some e → NoDup (strings_of e) → (∀ x, x ∈ strings_of e → is_Some (strs s !! x)) →
  (result e = in_progress → False) →
  ∃ s' live', (s6 ← free_sheep_str s (libname e);
               s7 ← (if result e =? 0 then Some s6 else free_sheep_str s6 (result e));
               free_sheep_entry s7 v) = Some s' ∧ mem_ok s' live' ∧
    ents s' = delete v (ents s) ∧ (lru_head s', lru_end s', table s', heap_limit s', hash s') = (lru_head s, lru_end s, table s, heap_limit s, hash s) ∧
    (∀ x, strs s' !! x = if decide (x ∈ strings_of e) then None else strs s !! x) ∧
    (∀ x, x ∉ strings_of e → x ≠ v → live' !! x = live !! x) ∧ heap_used s' <= heap_used s.
Proof.
  intros Hm He Hnd Hst Hip. unfold strings_of in *. rewrite (proj2 (Z.eqb_neq (result e) in_progress)), orb_false_r in * by auto.
  destruct (Hst (libname e)) as [name Hname]; [by left|].
  destruct (free_str_ok _ _ _ _ Hm Hname) as (h6 & u6 & E6 & Hm6 & Hu6). rewrite E6. cbn [mbind option_bind]. set (s6 := set_strs _ _) in *.
  assert (∃ s7 live7, (if result e =? 0 then Some s6 else free_sheep_str s6 (result e)) = Some s7 ∧ mem_ok s7 live7 ∧ ents s7 = ents s ∧
    (lru_head s7, lru_end s7, table s7, heap_limit s7, hash s7) = (lru_head s, lru_end s, table s, heap_limit s, hash s) ∧
    (∀ x, strs s7 !! x = if decide (x ∈ libname e :: (if result e =? 0 then [] else [result e])) then None else strs s !! x) ∧
    (∀ x, x ∉ libname e :: (if result e =? 0 then [] else [result e]) → live7 !! x = live !! x) ∧ heap_used s7 <= heap_used s)
    as (s7 & live7 & E7 & Hm7 & He7 & Hr7 & Hs7 & Hl7 & Hu7).
  { destruct (result e =? 0) eqn:E0.
    - exists s6, (delete (libname e) live). split_and!; try done.
      + intros x. cbn. case_decide as Hx; [apply list_elem_of_singleton in Hx as ->; apply lookup_delete_eq|].
        rewrite list_elem_of_singleton in Hx. by rewrite lookup_delete_ne.
      + intros x Hx. rewrite list_elem_of_singleton in Hx. by rewrite lookup_delete_ne.
    - destruct (Hst (result e)) as [res Hres]; [right; by left|]. apply NoDup_cons in Hnd as [Hne _]. rewrite list_elem_of_singleton in Hne.
      assert (strs s6 !! result e = Some res) as Hres6 by (cbn; by rewrite lookup_delete_ne).
      destruct (free_str_ok _ _ _ _ Hm6 Hres6) as (h7 & u7 & E7 & Hm7 & Hu7). rewrite E7.
      eexists _, _. split; [done|]. split; [exact Hm7|]. split_and!; try done.
      + intros x. cbn. case_decide as Hx.
        * rewrite elem_of_cons, list_elem_of_singleton in Hx. destruct (decide (x = result e)) as [-> | Hn]; [apply lookup_delete_eq|].
          rewrite lookup_delete_ne by done. destruct Hx as [-> | ?]; [apply lookup_delete_eq|done].
        * rewrite elem_of_cons, list_elem_of_singleton in Hx. rewrite !lookup_delete_ne by (intros <-; tauto). done.
      + intros x Hx. rewrite elem_of_cons, list_elem_of_singleton in Hx. rewrite !lookup_delete_ne by (intros <-; tauto). done.
      + cbn in *. lia. }
  rewrite E7. cbn [mbind option_bind]. destruct (free_entry_ok s7 live7 v Hm7) as (h8 & u8 & E8 & Hm8 & Hu8).
  - eapply (mo_ents _ _ Hm7). by rewrite He7.
  - rewrite Hs7. case_decide; [done|]. destruct (strs s !! v) eqn:Ev; [|done]. rewrite (mo_apart _ _ Hm v) in He; [done|by rewrite Ev].
  - rewrite E8. eexists _, _. split; [done|]. split; [exact Hm8|]. cbn. rewrite He7. split; [done|]. split; [done|]. split; [done|]. split; [|lia].
    intros x Hx Hxv. rewrite lookup_delete_ne by done. by apply Hl7.
Qed.

(** The oldest entry that is not pinned is thrown out. *)
Lemma clean_ok s live W E C :
  cache_ok s live W E C →
  (clean_oldest_entry s = Some (s, -1) ∧ Forall (is_pinned s) E) ∨
  ∃ X v Y e s' live', E = X ++ v :: Y ∧ ents s !! v = Some e ∧ pinned e = false ∧ Forall (is_pinned s) Y ∧
    clean_oldest_entry s = Some (s', 0) ∧ gone s s' v e ∧ cache_ok s' live' W (X ++ Y) (without v C) ∧
    (∀ x, x ∉ strings_of e → x ≠ v → live' !! x = live !! x).
Proof.
  intros H. pose proof (ck_lru _ _ _ _ _ H) as Hl. pose proof Hl as [Hs Hh He Hnd]. pose proof Hnd as [H0 _]%NoDup_cons.
  unfold clean_oldest_entry. rewrite He. destruct (find_oldest_ok s E (FUEL s) []) as (r & Er & Hr).
  { by rewrite app_nil_r. }
  { done. }
  { unfold FUEL. rewrite (dom_length _ _ _ _ _ H). lia. }
  destruct (lst_in 0 E) as [[-> ->] | Hin]; [left; by split|]. rewrite (proj2 (Z.eqb_neq (lst 0 E) 0)) by congruence.
  rewrite Er. cbn [mbind option_bind]. destruct Hr as [[-> HF] | (Hr0 & X & Y & e & -> & Hve & Hpin & HF)]; [by left|right].
  rename r into v. rewrite (proj2 (Z.eqb_neq v 0)), Hve by done. cbn [mbind option_bind].
  destruct (unhash_ok _ _ _ _ _ _ _ H Hve) as (prev & s1 & E0 & E1 & [Hr1 Hb1 Hv1 Hh1]). rewrite E0. cbn [mbind option_bind]. rewrite E1. cbn [mbind option_bind].
  injection Hr1 as Rh Rs Rlh Rle Rl Ru Rha.
  assert (lru_ok s1 (X ++ v :: Y)) as Hl1.
  { split; [|congruence|congruence|done]. eapply seg_frame; [|exact Hs]. intros q _. specialize (Hb1 q).
    destruct (ents s1 !! q), (ents s !! q); try done. cbn in *. congruence. }
  rewrite Hve in Hv1. destruct (lru_unlink_ok _ _ _ _ _ Hl1 Hv1) as (s5 & E5 & Hl5 & R5 & Hv5). cbv zeta in E5.
  destruct (upd_unless_null _ (lru_prev e) _) as [s4|]; [|done]. cbn [mbind option_bind] in E5 |- *. rewrite E5. cbn [mbind option_bind].
  rewrite Hv5. cbn [mbind option_bind]. pose proof R5 as [Rr5 Rc5]. injection Rr5 as Rh5 Rs5 Rt5 Rl5 Ru5 Rha5.
  assert (∀ q, body <$> ents s5 !! q = body <$> ents s !! q) as Hbody.
  { intros q. specialize (Rc5 q). specialize (Hb1 q). destruct (ents s5 !! q), (ents s1 !! q), (ents s !! q); try done.
    apply (inj Some), core_eq in Rc5 as (A1 & A2 & A3 & A4 & _). cbn in *. unfold body in *. congruence. }
  assert (mem_ok s5 live) as Hm5.
  { pose proof (ck_mem _ _ _ _ _ H) as [M1 M2 M3 M4 M5 M6 M7]. constructor; [by rewrite Rh5, Rh|by rewrite Ru5, Ru|done|by rewrite Rs5, Rs| | |].
    - intros p f Hp. specialize (Hbody p). rewrite Hp in Hbody. destruct (ents s !! p) as [f0|] eqn:Ef; [eauto|done].
    - intros p Hp. rewrite Rs5, Rs in Hp. specialize (M6 _ Hp). specialize (Hbody p). rewrite M6 in Hbody. by destruct (ents s5 !! p).
    - rewrite Rha5, Rha, Rs5, Rs. intros Hz. destruct (M7 Hz) as (T1 & T2 & T3). split; [done|]. split; [done|]. specialize (Hbody (hash s)).
      rewrite T3 in Hbody. by destruct (ents s5 !! hash s). }
  destruct (ck_entry _ _ _ _ _ H _ _ Hve) as [_ Hst Hwv]. apply orb_false_iff in Hpin as [Hip Hpc].
  apply Z.eqb_neq in Hip. apply negb_false_iff, Z.eqb_eq in Hpc.
  destruct (free_all_ok s5 live v e Hm5 Hv5 Hst) as (s8 & live8 & E8 & Hm8 & He8 & Hr8 & Hs8 & Hlive8 & Hu8).
  { rewrite Rs5, Rs. by eapply strings_in. }
  { done. }
  destruct (free_sheep_str s5 (libname e)) as [s6|]; [|done]. cbn [mbind option_bind] in E8 |- *.
  destruct (if result e =? 0 then Some s6 else free_sheep_str s6 (result e)) as [s7|]; [|done]. cbn [mbind option_bind] in E8 |- *.
  rewrite E8. cbn [mbind option_bind]. injection Hr8 as Rh8 Re8 Rt8 Rl8 Rha8.
  assert (gone s s8 v e) as Hg.
  { split; [rewrite He8; apply lookup_delete_eq| |by intros x; rewrite Hs8, Rs5, Rs|unfold fixed; congruence|lia].
    intros q Hq. rewrite He8, lookup_delete_ne by done. apply Hbody. }
  exists X, v, Y, e, s8, live8. split; [done|]. split; [done|].
  split; [unfold pinned; by rewrite (proj2 (Z.eqb_neq _ _)), Hpc|]. split; [done|]. split; [done|]. split; [done|]. split; [|done].
  destruct Hl5 as [Hs5 Hh5 He5 Hn5].
  eapply gone_cache; [exact H|exact Hve|exact Hg|exact Hm8| | |by rewrite <- Hwv].
  - split; [|congruence|congruence|done]. rewrite He8. eapply seg_frame; [|exact Hs5]. intros q Hq.
    pose proof Hnd as (_ & HvX & HvY & _)%nodup_split. rewrite lookup_delete_ne; [done|]. set_solver.
  - intros k. unfold bucket. rewrite Rt8, Rt5. fold (bucket s1 k). eapply hseg_frame; [|apply Hh1]. intros q Hq.
    unfold without in Hq. apply list_elem_of_filter in Hq as [Hq _]. rewrite He8, lookup_delete_ne by done. specialize (Rc5 q).
    destruct (ents s5 !! q), (ents s1 !! q); try done. apply (inj Some), core_eq in Rc5 as (_ & _ & _ & _ & A5). cbn. congruence.
Qed.

(** ** Allocation *)

(** Memory that no entry uses. *)
Definition unowned (s : shm) (x : Z) : Prop := ents s !! x = None ∧ ∀ p e, ents s !! p = Some e → x ∉ strings_of e.

Definition pinned_view (w : bytes * value * Z) : Prop := w.1.2 = InProgress ∨ w.2 ≠ 0.

(** Some entries have been thrown out, none of them pinned. *)
Record evicts (s : shm) (live : gmap Z Z) (s' : shm) (live' : gmap Z Z) : Prop := mk_evicts {
  ev_pinned p w : view s p = Some w → pinned_view w → view s' p = Some w;
  ev_view p : view s' p = None ∨ view s' p = view s p;
  ev_free x : unowned s x → unowned s' x ∧ strs s' !! x = strs s !! x ∧ live' !! x = live !! x;
  ev_limit : fixed s' = fixed s;
}.

Lemma evicts_refl s live : evicts s live s live.
Proof. split; auto. Qed.

Lemma evicts_trans s1 l1 s2 l2 s3 l3 : evicts s1 l1 s2 l2 → evicts s2 l2 s3 l3 → evicts s1 l1 s3 l3.
Proof.
  intros [A1 A2 A3 A4] [B1 B2 B3 B4]. split; [eauto| | |congruence].
  - intros p. destruct (B2 p) as [?| ->]; [by left|apply A2].
  - intros x Hx. destruct (A3 x Hx) as (Hx2 & E1 & E2). destruct (B3 x Hx2) as (Hx3 & F1 & F2). split; [done|]. split; congruence.
Qed.

Lemma read_in_progress s p : read_value s p = Some InProgress → p = in_progress.
Proof.
  unfold read_value. destruct (p =? 0); [done|]. destruct (p =? in_progress) eqn:E; [intros _; by apply Z.eqb_eq|].
  by destruct (strs s !! p).
Qed.

Lemma view_entry s p w : view s p = Some w → ∃ e, ents s !! p = Some e ∧ strs s !! libname e = Some w.1.1 ∧
  read_value s (result e) = Some w.1.2 ∧ pending_count e = w.2.
Proof.
  unfold view. destruct (ents s !! p) as [e|]; [|done]. cbn. destruct (strs s !! libname e) as [n|] eqn:En; [|done]. cbn.
  destruct (read_value s (result e)) as [v|] eqn:Ev; [|done]. cbn. intros [= <-]. by exists e.
Qed.

Lemma gone_evicts s s' live live' W E C v e :
  cache_ok s live W E C → ents s !! v = Some e → pinned e = false → gone s s' v e →
  (∀ x, x ∉ strings_of e → x ≠ v → live' !! x = live !! x) → evicts s live s' live'.
Proof.
  intros H He Hp Hg Hlive. pose proof Hg as [Hgv Hgo Hgs Hgl Hgu]. split; [| | |done].
  - intros p w Hw Hpin. rewrite (gone_view _ _ _ _ _ _ _ _ _ H He Hg); [done|]. intros ->. destruct (view_entry _ _ _ Hw) as (e' & He' & _ & Hr & Hpe).
    rewrite He in He'. injection He' as <-. apply orb_false_iff in Hp as [Hip Hpc]. destruct Hpin as [Hpin|Hpin].
    + rewrite Hpin in Hr. apply read_in_progress in Hr. apply Z.eqb_neq in Hip. done.
    + apply negb_false_iff, Z.eqb_eq in Hpc. congruence.
  - intros p. destruct (decide (p = v)) as [-> | Hne]; [left; unfold view; by rewrite Hgv|right; by eapply gone_view].
  - intros x [Hx1 Hx2]. assert (x ∉ strings_of e) as Hxe by (by eapply Hx2). assert (x ≠ v) as Hxv by congruence.
    split; [|split; [rewrite Hgs, decide_False; done|by apply Hlive]]. split.
    + specialize (Hgo x Hxv). rewrite Hx1 in Hgo. by destruct (ents s' !! x).
    + intros p f' Hf'. destruct (gone_lookup _ _ _ _ _ _ Hg Hf') as (_ & f & Hf & (B1 & B2 & _)%body_eq).
      unfold strings_of. rewrite B1, B2. by eapply Hx2.
Qed.

Lemma fresh_unowned s live W E C x : cache_ok s live W E C → live !! x = None → unowned s x ∧ strs s !! x = None.
Proof.
  intros H Hx. pose proof (ck_mem _ _ _ _ _ H) as Hm. assert (strs s !! x = None) as Hs.
  { destruct (strs s !! x) eqn:Es; [|done]. by rewrite (mo_strs _ _ Hm _ _ Es) in Hx. }
  split; [|done]. split.
  - destruct (ents s !! x) eqn:Ee; [|done]. by rewrite (mo_ents _ _ Hm _ _ Ee) in Hx.
  - intros p e He Hin. destruct (strings_in _ _ _ _ _ _ _ H He x Hin) as [? ?]. congruence.
Qed.

(** The heap changes, the cache does not. *)
Lemma set_heap_cache s live live' W E C h u :
  cache_ok s live W E C → mem_ok (set_heap h u s) live' → (heap_limit s ≠ 0 → u <= heap_limit s) → cache_ok (set_heap h u s) live' W E C.
Proof.
  intros [H1 [L1 L2 L3 L4] H3 H4 H5 H6 H7 H8 H9 H10] Hm Hu. constructor; try done.
  intros p e He. destruct (H7 p e He) as [Hv Hs Hw]. by split.
Qed.

Lemma make_room_ok n : ∀ fuel s live W E C,
  cache_ok s live W E C → (length E < fuel)%nat →
  ∃ s' room live' E' C', make_room fuel s n = Some (s', room) ∧ cache_ok s' live' W E' C' ∧ evicts s live s' live' ∧
    (∀ k, C' k `sublist_of` C k) ∧
    if room then heap_limit s' ≠ 0 → heap_used s' + n <= heap_limit s' else Forall (is_pinned s') E'.
Proof.
  induction fuel as [|fuel IH]; intros s live W E C H Hf; [lia|]. cbn [make_room].
  destruct (negb (heap_limit s =? 0) && (heap_limit s <? heap_used s + n)) eqn:Econd.
  - destruct (clean_ok _ _ _ _ _ H) as [[Ec Hall]|(X & v & Y & e & s1 & live1 & -> & He & Hp & _ & Ec & Hg & H1 & Hl1)]; rewrite Ec; cbn.
    + exists s, false, live, E, C. split; [done|]. split; [done|]. split; [apply evicts_refl|done].
    + destruct (IH s1 live1 W (X ++ Y) (without v C) H1) as (s' & room & live' & E' & C' & E1 & H' & Hev & Hsub & Hroom).
      { rewrite length_app in *. cbn in Hf. lia. }
      exists s', room, live', E', C'. split; [done|]. split; [done|]. split; [|split; [|done]].
      * eapply evicts_trans; [by eapply gone_evicts|done].
      * intros k. etransitivity; [apply Hsub|]. apply sublist_filter.
  - exists s, true, live, E, C. split; [done|]. split; [done|]. split; [apply evicts_refl|]. split; [done|]. intros Hz.
    apply andb_false_iff in Econd as [Ez|Ez]; [apply negb_false_iff, Z.eqb_eq in Ez; done|by apply Z.ltb_ge in Ez].
Qed.

Lemma malloc_loop_ok sz : Sheep.request_ok sz → ∀ fuel s live W E C,
  cache_ok s live W E C → (length E < fuel)%nat →
  ∃ s' r live' E' C', malloc_loop fuel s sz = Some (s', r) ∧ evicts s live s' live' ∧ heap_used s' <= heap_used s ∧
    (∀ k, C' k `sublist_of` C k) ∧
    match r with
    | Some p => live' !! p = None ∧ h_inv (heap s') (<[p := sz]> live') ∧ ∃ s0, s' = set_heap (heap s') (heap_used s0) s0 ∧ cache_ok s0 live' W E' C'
    | None => cache_ok s' live' W E' C' ∧ Forall (is_pinned s') E'
    end.
Proof.
  intros Hsz. induction fuel as [|fuel IH]; intros s live W E C H Hf; [lia|]. cbn [malloc_loop].
  destruct (h_malloc_law _ _ _ (mo_heap _ _ (ck_mem _ _ _ _ _ H)) Hsz) as (h & r & Em & Hr). rewrite Em. cbn [mbind option_bind].
  destruct r as [p|].
  { destruct Hr as [Hp Hi]. exists (set_heap h (heap_used s) s), (Some p), live, E, C. split; [done|]. split; [split; auto|]. split; [done|]. split; [done|].
    split; [done|]. split; [done|]. by exists s. }
  assert (cache_ok (set_heap h (heap_used s) s) live W E C) as H1.
  { eapply set_heap_cache; [exact H| |apply H]. destruct (ck_mem _ _ _ _ _ H) as [M1 M2 M3 M4 M5 M6 M7]. by constructor. }
  destruct (clean_ok _ _ _ _ _ H1) as [[Ec Hall]|(X & v & Y & e & s2 & live2 & -> & He & Hp & _ & Ec & Hg & H2 & Hl2)]; rewrite Ec; cbn.
  - exists (set_heap h (heap_used s) s), None, live, E, C. split; [done|]. split; [split; auto|]. done.
  - destruct (IH s2 live2 W (X ++ Y) (without v C) H2) as (s' & r & live' & E' & C' & E1 & Hev & Hu & Hsub & Hr').
    { rewrite length_app in *. cbn in Hf. lia. }
    exists s', r, live', E', C'. split; [done|]. split; [|split; [pose proof (gn_used _ _ _ _ Hg); cbn in *; lia|split; [|done]]].
    2:{ intros k. etransitivity; [apply Hsub|]. apply sublist_filter. }
    eapply evicts_trans; [|exact Hev]. apply (evicts_trans _ _ (set_heap h (heap_used s) s) live); [split; auto|]. by eapply gone_evicts.
Qed.

(** New memory: it is in [live], and neither a string nor an entry yet. *)
Record new_memory (s : shm) (live : gmap Z Z) (p sz : Z) : Prop := mk_new_memory {
  nm_live : live !! p = Some sz;
  nm_unowned : unowned s p;
  nm_strs : strs s !! p = None;
  nm_range : p ≠ 0 ∧ p ≠ in_progress;
  nm_table : hash s ≠ 0 → p ≠ hash s;
}.

Lemma malloc_cache_ok s live W E C sz :
  cache_ok s live W E C → Sheep.request_ok sz →
  ∃ s' r live' E' C', malloc_sheep_cache s sz = Some (s', r) ∧ evicts s live s' live' ∧ (∀ k, C' k `sublist_of` C k) ∧
    match r with
    | Some p => live' !! p = None ∧ cache_ok s' (<[p := sz]> live') W E' C' ∧ new_memory s' (<[p := sz]> live') p sz
    | None => cache_ok s' live' W E' C' ∧ Forall (is_pinned s') E'
    end.
Proof.
  intros H Hsz. unfold malloc_sheep_cache. set (n := Sheep.sheep_alloc_size sz).
  destruct (make_room_ok n (FUEL s) s live W E C H) as (s1 & room & live1 & E1 & C1 & Er & H1 & Hev1 & Hsub1 & Hroom).
  { unfold FUEL. rewrite (dom_length _ _ _ _ _ H). lia. }
  rewrite Er. cbn [mbind option_bind]. destruct room; [|by exists s1, None, live1, E1, C1].
  destruct (malloc_loop_ok sz Hsz (FUEL s1) s1 live1 W E1 C1 H1) as (s2 & r & live2 & E2 & C2 & El & Hev2 & Hu & Hsub2 & Hr).
  { unfold FUEL. rewrite (dom_length _ _ _ _ _ H1). lia. }
  rewrite El. cbn [mbind option_bind]. pose proof (evicts_trans _ _ _ _ _ _ Hev1 Hev2) as Hev.
  assert (∀ k, C2 k `sublist_of` C k) as Hsub by (intros k; etransitivity; [apply Hsub2|apply Hsub1]).
  destruct r as [p|]; [|by exists s2, None, live2, E2, C2]. destruct Hr as (Hp & Hi & s0 & Es0 & H0).
  eexists _, (Some p), live2, E2, C2. split; [done|]. split; [by destruct Hev; split|]. split; [done|]. split; [done|].
  assert (heap_limit s2 = heap_limit s1) as Elim by (by injection (ev_limit _ _ _ _ Hev2)).
  set (s' := set_heap _ _ s2). assert (s' = set_heap (heap s2) (heap_used s2 + n) s0) as Es' by (unfold s'; by rewrite Es0).
  assert (heap_used s2 = heap_used s0 ∧ heap_limit s2 = heap_limit s0) as [Eu El0] by (by rewrite Es0).
  assert (mem_ok s' (<[p := sz]> live2)) as Hm.
  { rewrite Es'. destruct (ck_mem _ _ _ _ _ H0) as [M1 M2 M3 M4 M5 M6 M7]. constructor; cbn; [done| | | | |done|].
    - rewrite total_insert by done. fold n. rewrite Eu, M2. lia.
    - intros q z. destruct (decide (q = p)) as [-> | Hq]; [rewrite lookup_insert_eq; intros [= <-]; by destruct Hsz|].
      rewrite lookup_insert_ne by done. apply M3.
    - intros q str Hq. rewrite lookup_insert_ne; [by apply M4|]. intros <-. by rewrite (M4 _ _ Hq) in Hp.
    - intros q e Hq. rewrite lookup_insert_ne; [by eapply M5|]. intros <-. by rewrite (M5 _ _ Hq) in Hp.
    - intros Hz. destruct (M7 Hz) as (T1 & T2 & T3). rewrite lookup_insert_ne by congruence. done. }
  split.
  - rewrite Es' in *. eapply set_heap_cache; [exact H0|exact Hm|]. intros Hz. rewrite <- El0, Elim in *. specialize (Hroom Hz). lia.
  - destruct (fresh_unowned _ _ _ _ _ _ H0 Hp) as [Hun Hst]. split; [apply lookup_insert_eq|by rewrite Es'|by rewrite Es'| |].
    + eapply mem_range; [exact Hm|]. by rewrite lookup_insert_eq.
    + rewrite Es'. intros Hz ->. destruct (mo_table _ _ (ck_mem _ _ _ _ _ H0) Hz) as [T _]. cbn in Hp. congruence.
Qed.

(** ** Lookup *)

(** The entry that a lookup of [name] finds. *)
Definition named (s : shm) (name : bytes) (p : Z) : bool :=
  match view s p with Some (n, _, _) => bool_decide (n = name) | None => false end.
Definition cached (s : shm) (C : Z → list Z) (name : bytes) : option Z := find (named s name) (C (str_hash name)).

Lemma find_entry_ok s live W E C name L : ∀ fuel start pre,
  cache_ok s live W E C → C (str_hash name) = pre ++ L → hseg (ents s) start L → (length L < fuel)%nat →
  find_entry fuel s start (str_hash name) name = Some (default 0 (find (named s name) L)).
Proof.
  induction L as [|p L IH]; intros fuel start pre H EC Hs Hf; (destruct fuel as [|fuel]; [cbn in Hf; lia|]); cbn in Hs.
  { by subst. }
  destruct Hs as (-> & e & He & Hs). assert (p ∈ C (str_hash name)) as Hin by (rewrite EC; set_solver).
  apply (ck_chain _ _ _ _ _ H) in Hin as (e' & He' & Hk). rewrite He in He'. injection He' as <-.
  destruct (mem_ents _ _ p (ck_mem _ _ _ _ _ H)) as [Hp0 _]; [by exists e|].
  destruct (ck_entry _ _ _ _ _ H _ _ He) as [(n & v & Hv & _ & _) _ _]. destruct (view_entry _ _ _ Hv) as (e' & He' & Hn & _).
  rewrite He in He'. injection He' as <-. cbn in Hn.
  destruct (mem_strs _ _ (libname e) (ck_mem _ _ _ _ _ H)) as [Hl0 _]; [by exists n|].
  cbn [find_entry]. rewrite (proj2 (Z.eqb_neq p 0)), He by done. cbn [mbind option_bind].
  rewrite Hk, Z.eqb_refl. cbn [negb]. rewrite (proj2 (Z.eqb_neq (libname e) 0)), Hn by done. cbn [mbind option_bind find].
  unfold named at 1. rewrite Hv. destruct (decide (n = name)) as [-> | Hne]; [by rewrite bool_decide_true|]. rewrite bool_decide_false by done.
  apply (IH fuel (hash_next e) (pre ++ [p])); [done|by rewrite <- app_assoc|done|cbn in Hf; lia].
Qed.

Lemma hash_range name : 0 <= str_hash name < HASH_SIZE.
Proof. unfold str_hash, HASH_SIZE. apply Z.mod_pos_bound. lia. Qed.

Lemma cached_some s C name p :
  cached s C name = Some p → p ∈ C (str_hash name) ∧ ∃ v c, view s p = Some (name, v, c).
Proof.
  unfold cached. intros H. apply find_some in H as [Hin Hn]. split; [by apply list_elem_of_In|]. unfold named in Hn.
  destruct (view s p) as [[[n v] c]|]; [|done]. apply bool_decide_eq_true in Hn as ->. eauto.
Qed.

Lemma lookup_worker_ok s live W E C name :
  cache_ok s live W E C →
  match cached s C name with
  | None => shmcache_lookup_worker s name = Some (s, None)
  | Some p => ∃ s' e E', shmcache_lookup_worker s name = Some (s', Some (p, result e)) ∧ ents s' !! p = Some e ∧
      relinked s s' ∧ cache_ok s' live W E' C
  end.
Proof.
  intros H. unfold shmcache_lookup_worker. rewrite (find_entry_ok s live W E C name (C (str_hash name)) (FUEL s) _ []);
    [|done|done|apply H|pose proof (bucket_length _ _ _ _ _ (str_hash name) H); unfold FUEL; lia].
  cbn [mbind option_bind]. fold (cached s C name). destruct (cached s C name) as [p|] eqn:Ec; [|done]. cbn.
  destruct (cached_some _ _ _ _ Ec) as [Hin _]. apply (ck_chain _ _ _ _ _ H) in Hin as (e & He & _).
  destruct (mem_ents _ _ p (ck_mem _ _ _ _ _ H)) as [Hp0 _]; [by exists e|]. rewrite (proj2 (Z.eqb_neq p 0)) by done.
  assert (p ∈ E) as (X & Y & ->)%list_elem_of_split by (apply (ck_dom _ _ _ _ _ H); by exists e).
  destruct (mark_ok _ _ _ _ (ck_lru _ _ _ _ _ H)) as (s' & Em & L' & R'). rewrite Em. cbn [mbind option_bind].
  destruct (core_lookup _ _ _ _ (relinked_sym _ _ R') He) as (e' & He' & _). rewrite He'. cbn [mbind option_bind].
  exists s', e', (p :: X ++ Y). split; [done|]. split; [done|]. split; [done|]. eapply relinked_cache; [done|done| |done]. by rewrite Permutation_middle.
Qed.

(** ** Changes of an entry *)

Definition with_result (r c : Z) (e : entry_t) : entry_t :=
  mk_entry (libname e) r (lru_next e) (lru_prev e) (hash_key e) c (hash_next e).

Definition put_entry (s : shm) (p : Z) (e : entry_t) : shm := set_ents (<[p := e]> (ents s)) s.

Lemma put_view s p e q : q ≠ p → view (put_entry s p e) q = view s q.
Proof. intros Hq. unfold view. cbn. by rewrite lookup_insert_ne. Qed.

Lemma change_entry s live W W' E C p e r c v name :
  cache_ok s live W E C → ents s !! p = Some e → strs s !! libname e = Some name → read_value s r = Some v → good name v →
  (r = 0 ∨ r = in_progress ∨ r = result e ∨ unowned s r) → (∀ q, q ≠ p → W' q = W q) → W' p = c →
  cache_ok (put_entry s p (with_result r c e)) live W' E C ∧ view (put_entry s p (with_result r c e)) p = Some (name, v, c).
Proof.
  intros H He Hn Hr Hg Hown HW HWp. set (e' := with_result r c e). set (s' := put_entry s p e').
  assert (view s' p = Some (name, v, c)) as Hview.
  { unfold view. cbn. rewrite lookup_insert_eq. cbn. rewrite Hn. cbn. change (read_value s' r) with (read_value s r). by rewrite Hr. }
  split; [|done]. destruct H as [Hm [L1 L2 L3 L4] Hd Hh Hnd Hc Hen Ho Hw Hli].
  assert (∀ q f', ents s' !! q = Some f' → (q = p ∧ f' = e') ∨ q ≠ p ∧ ents s !! q = Some f') as Hcase.
  { intros q f'. cbn. destruct (decide (q = p)) as [-> | Hq]; [rewrite lookup_insert_eq; intros [= <-]; by left|].
    rewrite lookup_insert_ne by done. auto. }
  assert (∀ x, x ∈ strings_of e' → x ∈ strings_of e ∨ unowned s x) as Hst.
  { intros x. unfold strings_of, e', with_result. cbn. rewrite !elem_of_cons. intros [?|Hx]; [auto|].
    destruct (r =? 0) eqn:E0; [by apply not_elem_of_nil in Hx|]. destruct (r =? in_progress) eqn:Ei; [by apply not_elem_of_nil in Hx|].
    apply Z.eqb_neq in E0, Ei. cbn in Hx. apply list_elem_of_singleton in Hx as ->. destruct Hown as [?|[?|[-> |?]]]; [done|done| |by right].
    left. rewrite (proj2 (Z.eqb_neq _ _) E0), (proj2 (Z.eqb_neq _ _) Ei). right. by left. }
  constructor.
  - destruct Hm as [M1 M2 M3 M4 M5 M6 M7]. constructor; try done.
    + intros q f' [[-> ->]|[_ Hq]]%Hcase; eauto.
    + intros q Hq. specialize (M6 q Hq). cbn. rewrite lookup_insert_ne; [done|]. congruence.
    + cbn. intros Hz. destruct (M7 Hz) as (T1 & T2 & T3). rewrite lookup_insert_ne by congruence. done.
  - split; [|done|done|done]. eapply seg_frame; [|exact L1]. intros q _. cbn. destruct (decide (q = p)) as [-> | Hq]; [|by rewrite lookup_insert_ne].
    by rewrite lookup_insert_eq, He.
  - intros q. rewrite Hd. cbn. destruct (decide (q = p)) as [-> | Hq]; [|by rewrite lookup_insert_ne]. rewrite lookup_insert_eq, He. split; eauto.
  - intros k. eapply hseg_frame; [|apply Hh]. intros q _. cbn. destruct (decide (q = p)) as [-> | Hq]; [|by rewrite lookup_insert_ne].
    by rewrite lookup_insert_eq, He.
  - done.
  - intros k q. rewrite Hc. cbn. destruct (decide (q = p)) as [-> | Hq]; [|by rewrite lookup_insert_ne]. rewrite lookup_insert_eq, He.
    split; intros (f & [= <-] & Hk); eexists; split; done.
  - intros q f' [[-> ->]|[Hne Hq]]%Hcase.
    + destruct (Hen p e He) as [(n & v' & Hv' & Hk & _) Hs _]. destruct (view_entry _ _ _ Hv') as (e2 & He2 & Hn2 & _).
      rewrite He in He2. injection He2 as <-. cbn in Hn2. rewrite Hn in Hn2. injection Hn2 as ->. split; [by exists n, v| |done].
      unfold strings_of, e', with_result. cbn. destruct (r =? 0) eqn:E0; [apply NoDup_singleton|]. destruct (r =? in_progress) eqn:Ei; [apply NoDup_singleton|].
      cbn [orb]. apply NoDup_cons. split; [|apply NoDup_singleton]. intros El%list_elem_of_singleton.
      apply Z.eqb_neq in E0, Ei. destruct Hown as [?|[?|[-> |[_ Hu]]]]; [done|done| |].
      * unfold strings_of in Hs. rewrite (proj2 (Z.eqb_neq _ _) E0), (proj2 (Z.eqb_neq _ _) Ei) in Hs. apply NoDup_cons in Hs as [Hs _]. apply Hs. rewrite El. by left.
      * apply (Hu p e He). rewrite <- El. by left.
    + destruct (Hen q f' Hq) as [(n & v' & Hv' & Hk & Hgd) Hs Hwq]. split; [|done|by rewrite HW].
      exists n, v'. rewrite <- Hv'. split; [by apply put_view|done].
  - intros q1 q2 f1 f2 x H1%Hcase H2%Hcase Hx1 Hx2. destruct H1 as [[-> ->]|[Hn1 H1]], H2 as [[-> ->]|[Hn2 H2]]; [done| | |by eapply Ho].
    + destruct (Hst _ Hx1) as [Hx|[_ Hx]]; [by eapply Ho|]. by destruct (Hx _ _ H2).
    + destruct (Hst _ Hx2) as [Hx|[_ Hx]]; [by eapply Ho|]. by destruct (Hx _ _ H1).
  - intros q Hq. destruct (decide (q = p)) as [-> | Hne]; [apply Hd; by exists e|]. apply Hw. by rewrite <- HW.
  - done.
Qed.

(** ** New entries *)

(** Strings outside of the entries do not matter to them. *)
Lemma strs_view s s' p :
  ents s' = ents s → (∀ e x, ents s !! p = Some e → x ∈ strings_of e → strs s' !! x = strs s !! x) → view s' p = view s p.
Proof.
  intros Ee Hs. unfold view. rewrite Ee. destruct (ents s !! p) as [e|] eqn:He; [|done]. cbn.
  rewrite (Hs e) by (done || by left). destruct (strs s !! libname e); [|done]. cbn. unfold read_value.
  destruct (result e =? 0) eqn:E0; [done|]. destruct (result e =? in_progress) eqn:Ei; [done|]. rewrite (Hs e); [done|done|].
  unfold strings_of. rewrite E0, Ei. right. by left.
Qed.

Lemma strs_cache s s' live live' W E C :
  cache_ok s live W E C → mem_ok s' live' →
  (ents s', table s', lru_head s', lru_end s', heap_limit s') = (ents s, table s, lru_head s, lru_end s, heap_limit s) →
  heap_used s' <= heap_used s → (∀ p e x, ents s !! p = Some e → x ∈ strings_of e → strs s' !! x = strs s !! x) →
  cache_ok s' live' W E C.
Proof.
  intros [Hm [L1 L2 L3 L4] Hd Hh Hnd Hc Hen Ho Hw Hli] Hm' Hr Hu Hs. injection Hr as Ee Et Eh El Eli. constructor; rewrite ?Ee; try done.
  - split; [by rewrite Ee|congruence|congruence|done].
  - intros k. unfold bucket. rewrite Et. apply Hh.
  - intros p e He. destruct (Hen p e He) as [(n & v & Hv & Hk & Hg) Hst Hwp]. split; [|done|done].
    exists n, v. rewrite <- Hv. split; [|done]. apply strs_view; [done|]. eauto.
  - rewrite Eli. intros Hz. specialize (Hli Hz). lia.
Qed.

Lemma copy_str_ok s live W E C p str :
  cache_ok s live W E C → new_memory s live p (Z.of_nat (length str) + 1) →
  cache_ok (copy_str s p str) live W E C ∧ unowned (copy_str s p str) p ∧ (∀ q, view (copy_str s p str) q = view s q).
Proof.
  intros H [Hl [Hu1 Hu2] Hs _ Htab].
  assert (∀ q e x, ents s !! q = Some e → x ∈ strings_of e → strs (copy_str s p str) !! x = strs s !! x) as Hst.
  { intros q e x He Hx. cbn. rewrite lookup_insert_ne; [done|]. intros <-. by apply (Hu2 q e). }
  split; [|split; [done|]].
  - eapply strs_cache; [exact H| |done|done|exact Hst]. destruct (ck_mem _ _ _ _ _ H) as [M1 M2 M3 M4 M5 M6 M7]. constructor; try done.
    + intros q z. cbn. destruct (decide (q = p)) as [-> | Hq]; [rewrite lookup_insert_eq; by intros [= <-]|]. rewrite lookup_insert_ne by done. apply M4.
    + intros q. cbn. destruct (decide (q = p)) as [-> | Hq]; [done|]. rewrite lookup_insert_ne by done. apply M6.
    + cbn. intros Hz. destruct (M7 Hz) as (T1 & T2 & T3). rewrite lookup_insert_ne by auto. done.
  - intros q. apply strs_view; [done|]. eauto.
Qed.

(** Memory that was not used after all. *)
Lemma give_back_entry s live W E C p :
  cache_ok s live W E C → live !! p = Some ENTRY_SIZE → unowned s p → strs s !! p = None →
  ∃ s', free_sheep_entry s p = Some s' ∧ cache_ok s' (delete p live) W E C ∧ strs s' = strs s ∧ ents s' = ents s ∧ fixed s' = fixed s.
Proof.
  intros H Hl [Hu _] Hs. destruct (free_entry_ok _ _ _ (ck_mem _ _ _ _ _ H) Hl Hs) as (h & u & E1 & Hm & Hle).
  eexists. split; [exact E1|]. cbn. rewrite delete_id by done. split; [|done].
  eapply strs_cache; [exact H| | | |].
  - by rewrite delete_id in Hm.
  - done.
  - done.
  - done.
Qed.

Lemma give_back_str s live W E C p str :
  cache_ok s live W E C → strs s !! p = Some str → unowned s p →
  ∃ s', free_sheep_str s p = Some s' ∧ cache_ok s' (delete p live) W E C ∧ (∀ q, view s' q = view s q) ∧ ents s' = ents s ∧ fixed s' = fixed s.
Proof.
  intros H Hs [_ Hu]. destruct (free_str_ok _ _ _ _ (ck_mem _ _ _ _ _ H) Hs) as (h & u & E1 & Hm & Hle).
  eexists. split; [exact E1|].
  assert (∀ q e x, ents s !! q = Some e → x ∈ strings_of e → delete p (strs s) !! x = strs s !! x) as Hst.
  { intros q e x He Hx. rewrite lookup_delete_ne; [done|]. intros <-. by apply (Hu q e). }
  split; [eapply strs_cache; [exact H|exact Hm|done|done|exact Hst]|]. split; [|done]. intros q. apply strs_view; [done|]. eauto.
Qed.

(** The entry at [p] is new in front of its bucket. *)
Definition pushed (p k : Z) (C : Z → list Z) (k' : Z) : list Z := if decide (k' = k) then p :: C k' else C k'.

Lemma link_core s live W E C p ln res name v :
  cache_ok s live W E C → live !! p = Some ENTRY_SIZE → unowned s p → strs s !! p = None →
  strs s !! ln = Some name → unowned s ln → read_value s res = Some v → good name v →
  (res = 0 ∨ res = in_progress ∨ unowned s res) → ln ≠ res →
  let key := str_hash name in
  let s' := set_table key p (put_entry s p (mk_entry ln res 0 0 key 0 (bucket s key))) in
  cache_core s' live W (p :: E) (pushed p key C) ∧ view s' p = Some (name, v, 0) ∧ ∀ q, q ≠ p → view s' q = view s q.
Proof.
  intros [Hm Hl Hd Hh Hnd Hc Hen Ho Hw Hli] Hp [Hpe Hpu] Hps Hln [Hlu1 Hlu2] Hres Hg Hru Hne key s'. set (e := mk_entry ln res 0 0 key 0 (bucket s key)).
  assert (view s' p = Some (name, v, 0)) as Hview.
  { unfold view. cbn. rewrite lookup_insert_eq. cbn. rewrite Hln. cbn. change (read_value s' res) with (read_value s res). by rewrite Hres. }
  assert (∀ q, q ≠ p → view s' q = view s q) as Hvo by (intros q Hq; by apply (put_view s p e q)).
  split; [|done].
  assert (∀ q f, ents s' !! q = Some f → (q = p ∧ f = e) ∨ q ≠ p ∧ ents s !! q = Some f) as Hcase.
  { intros q f. cbn. destruct (decide (q = p)) as [-> | Hq]; [rewrite lookup_insert_eq; intros [= <-]; by left|].
    rewrite lookup_insert_ne by done. auto. }
  assert (∀ x, x ∈ strings_of e → ∀ q f, ents s !! q = Some f → x ∉ strings_of f) as Hst.
  { intros x. unfold strings_of at 1, e. cbn. rewrite elem_of_cons. intros [-> |Hx]; [done|].
    destruct (res =? 0) eqn:E0; [by apply not_elem_of_nil in Hx|]. destruct (res =? in_progress) eqn:Ei; [by apply not_elem_of_nil in Hx|].
    apply Z.eqb_neq in E0, Ei. cbn in Hx. apply list_elem_of_singleton in Hx as ->. destruct Hru as [?|[?|[_ ?]]]; done. }
  assert (∀ k q, q ∈ C k → q ≠ p) as HCp by (intros k q (f & Hf & _)%Hc ->; congruence).
  constructor.
  - destruct Hm as [M1 M2 M3 M4 M5 M6 M7]. constructor; try done.
    + intros q f [[-> ->]|[_ Hq]]%Hcase; eauto.
    + intros q Hq. cbn. rewrite lookup_insert_ne; [by apply M6|]. intros <-. cbn in Hq. rewrite Hps in Hq. by destruct Hq.
    + cbn. intros Hz. destruct (M7 Hz) as (T1 & T2 & T3). rewrite lookup_insert_ne; [done|]. intros Ep. rewrite <- Ep, Hp in T1. done.
  - intros q. rewrite elem_of_cons, Hd. cbn. destruct (decide (q = p)) as [-> | Hq]; [rewrite lookup_insert_eq; split; eauto|].
    rewrite lookup_insert_ne by done. naive_solver.
  - intros k. unfold bucket, pushed. cbn. assert (hseg (<[p := e]> (ents s)) (bucket s k) (C k)) as Hk.
    { eapply hseg_frame; [|apply Hh]. intros q Hq. rewrite lookup_insert_ne; [done|]. intros <-. by eapply HCp. }
    destruct (decide (k = key)) as [-> | Hne']; [|by rewrite lookup_insert_ne]. rewrite lookup_insert_eq. cbn. split; [done|].
    exists e. split; [apply lookup_insert_eq|exact Hk].
  - intros k. unfold pushed. case_decide; [|apply Hnd]. apply NoDup_cons. split; [|apply Hnd]. intros Hin. by eapply HCp.
  - intros k q. unfold pushed. destruct (decide (q = p)) as [-> | Hq].
    + cbn. rewrite lookup_insert_eq. case_decide as Ek; [subst; split; [eauto|by left]|]. split; [by intros Hin%HCp|].
      intros (f & [= <-] & Hk). cbn in Hk. done.
    + cbn. rewrite lookup_insert_ne by done. rewrite <- Hc. case_decide; [|done]. rewrite elem_of_cons. naive_solver.
  - intros q f [[-> ->]|[Hq Hf]]%Hcase.
    + split; [by exists name, v| |].
      * unfold strings_of, e. cbn. destruct ((res =? 0) || (res =? in_progress)); [apply NoDup_singleton|].
        apply NoDup_cons. split; [|apply NoDup_singleton]. by intros ?%list_elem_of_singleton.
      * cbn. destruct (decide (W p = 0)) as [|Hwp]; [done|]. apply Hw, Hd in Hwp as [? ?]. congruence.
    + destruct (Hen q f Hf) as [(n & u & Hu & Hk & Hgd) Hs Hwq]. split; [|done|done]. exists n, u. rewrite Hvo by done. done.
  - intros q1 q2 f1 f2 x H1%Hcase H2%Hcase Hx1 Hx2. destruct H1 as [[-> ->]|[Hn1 H1]], H2 as [[-> ->]|[Hn2 H2]]; [done| | |by eapply Ho].
    + by destruct (Hst _ Hx1 _ _ H2).
    + by destruct (Hst _ Hx2 _ _ H1).
  - intros q Hq. right. by apply Hw.
  - done.
Qed.

Lemma link_new s live W E C p ln res name v :
  cache_ok s live W E C → live !! p = Some ENTRY_SIZE → unowned s p → strs s !! p = None →
  strs s !! ln = Some name → unowned s ln → read_value s res = Some v → good name v →
  (res = 0 ∨ res = in_progress ∨ unowned s res) → ln ≠ res →
  let key := str_hash name in
  ∃ s', mark_recently_used (set_table key p (put_entry s p (mk_entry ln res 0 0 key 0 (bucket s key)))) p = Some s' ∧
    cache_ok s' live W (p :: E) (pushed p key C) ∧ view s' p = Some (name, v, 0) ∧ (∀ q, q ≠ p → view s' q = view s q) ∧
    fixed s' = fixed s.
Proof.
  intros H Hp Hpu Hps Hln Hlu Hres Hg Hru Hne key.
  destruct (link_core s live W E C p ln res name v H Hp Hpu Hps Hln Hlu Hres Hg Hru Hne) as (Hcore & Hview & Hvo). fold key in Hcore, Hview, Hvo.
  set (s1 := set_table key p _) in *.
  assert (p ∉ E) as HpE by (rewrite (ck_dom _ _ _ _ _ H); destruct Hpu as [-> _]; by intros [? ?]).
  destruct (mem_range _ _ p (ck_mem _ _ _ _ _ H)) as [Hp0 _]; [by rewrite Hp|].
  assert (lru_ok s1 E) as Hl1.
  { destruct (ck_lru _ _ _ _ _ H) as [L1 L2 L3 L4]. split; [|done|done|done]. by apply seg_put. }
  destruct (mark_new s1 E p _ Hl1 HpE Hp0 (lookup_insert_eq _ _ _) eq_refl eq_refl) as (s' & E' & L' & R').
  exists s'. split; [done|]. split; [apply cache_of; [done|]; by eapply relinked_core|].
  split; [by rewrite (relinked_view _ _ _ R')|]. split; [intros q Hq; rewrite (relinked_view _ _ _ R'); by apply Hvo|].
  destruct R' as [R' _]. unfold fixed. by injection R' as _ _ _ -> _ ->.
Qed.

(** The entries of [s] that are still there are what they were, and those that are pinned are. *)
Record keeps (s s' : shm) : Prop := mk_keeps {
  kp_pinned p w : view s p = Some w → pinned_view w → view s' p = Some w;
  kp_view p : view s' p = None ∨ view s' p = view s p;
  kp_limit : fixed s' = fixed s;
}.

#[export] Instance keeps_preorder : PreOrder keeps.
Proof.
  split; [split; auto|]. intros s1 s2 s3 [A1 A2 A3] [B1 B2 B3]. split; [eauto| |congruence].
  intros p. destruct (B2 p) as [?| ->]; auto.
Qed.

Lemma evicts_keeps s live s' live' : evicts s live s' live' → keeps s s'.
Proof. intros [H1 H2 _ H4]. by split. Qed.

Lemma same_keeps s s' : (∀ q, view s' q = view s q) → fixed s' = fixed s → keeps s s'.
Proof. intros Hv Hl. split; [intros p w; by rewrite Hv|intros p; right; apply Hv|done]. Qed.

Definition short (str : bytes) : Prop := Sheep.request_ok (Z.of_nat (length str) + 1).
Definition short_value (v : value) : Prop := match v with Mapped str => short str | _ => True end.

(** What [shmcache_add_new] does: [s'] has a new entry for [name]. *)
Record added (s s' : shm) (C' : Z → list Z) (name : bytes) (v : value) (p : Z) : Prop := mk_added {
  ad_view : view s' p = Some (name, v, 0);
  ad_first : cached s' C' name = Some p;
  ad_pinned q w : view s q = Some w → pinned_view w → view s' q = Some w;
  ad_other q : q ≠ p → view s' q = None ∨ view s' q = view s q;
  ad_limit : fixed s' = fixed s;
}.

Lemma link_added s0 s live W E C p ln res name v :
  keeps s0 s → cache_ok s live W E C → live !! p = Some ENTRY_SIZE → unowned s p → strs s !! p = None →
  strs s !! ln = Some name → unowned s ln → read_value s res = Some v → good name v →
  (res = 0 ∨ res = in_progress ∨ unowned s res) → ln ≠ res →
  let key := str_hash name in
  ∃ s', mark_recently_used (set_table key p (put_entry s p (mk_entry ln res 0 0 key 0 (bucket s key)))) p = Some s' ∧
    cache_ok s' live W (p :: E) (pushed p key C) ∧ added s0 s' (pushed p key C) name v p.
Proof.
  intros [K1 K2 K3] H Hp Hpu Hps Hln Hlu Hres Hg Hru Hne key.
  destruct (link_new s live W E C p ln res name v H Hp Hpu Hps Hln Hlu Hres Hg Hru Hne) as (s' & E' & H' & Hv & Hvo & Hlim).
  fold key in E', H', Hv, Hvo. exists s'. split; [done|]. split; [done|].
  assert (∀ w, view s p = Some w → False) as Hnone by (intros w (e & He & _)%view_entry; destruct Hpu as [Hpe _]; congruence).
  split; [done| | | |congruence].
  - unfold cached, pushed. fold key. rewrite decide_True by done. cbn. unfold named. rewrite Hv, bool_decide_true; done.
  - intros q w Hw Hpin. specialize (K1 q w Hw Hpin). rewrite Hvo; [done|]. intros ->. by eapply Hnone.
  - intros q Hq. rewrite Hvo by done. apply K2.
Qed.

Lemma short_entry : Sheep.request_ok ENTRY_SIZE.
Proof. unfold Sheep.request_ok, ENTRY_SIZE. lia. Qed.

(** Memory for a new entry: the entry at [p], the string at [ln] with its name. *)
Record ready (s : shm) (live : gmap Z Z) (p ln : Z) (name : bytes) : Prop := mk_ready {
  rd_live : live !! p = Some ENTRY_SIZE;
  rd_entry : unowned s p;
  rd_none : strs s !! p = None;
  rd_name : strs s !! ln = Some name;
  rd_str : unowned s ln;
}.

Lemma ready_copy s live p ln name rp str :
  ready s live p ln name → strs s !! rp = None → rp ≠ p → ready (copy_str s rp str) live p ln name.
Proof.
  intros [H1 H2 H3 H4 H5] Hn Hp. split; try done; cbn; rewrite lookup_insert_ne; congruence.
Qed.

Lemma ready_evicts s live s' live' p ln name : evicts s live s' live' → ready s live p ln name → ready s' live' p ln name.
Proof.
  intros Hev [H1 H2 H3 H4 H5]. destruct (ev_free _ _ _ _ Hev _ H2) as (A1 & A2 & A3). destruct (ev_free _ _ _ _ Hev _ H5) as (B1 & B2 & _).
  split; congruence.
Qed.

Lemma read_in_progress_value s live p : h_inv (heap s) live → is_Some (live !! p) → read_value s in_progress = Some InProgress.
Proof.
  intros Hi Hp. pose proof (h_range_law _ _ _ Hi Hp). unfold read_value, in_progress. rewrite Z.eqb_refl, (proj2 (Z.eqb_neq h_end 0)) by lia. done.
Qed.

(** The string of the value. *)
Lemma store_value s live W E C p ln name mv :
  cache_ok s live W E C → ready s live p ln name → short_value mv →
  ∃ s' r live' E' C', match mv with
      | InProgress => Some (s, Some in_progress)
      | Absent => Some (s, Some 0)
      | Mapped str =>
          '(s', p) ← malloc_sheep_cache s (Z.of_nat (length str) + 1);
          Some (match p with Some p => copy_str s' p str | None => s' end, p)
      end = Some (s', r) ∧ keeps s s' ∧ cache_ok s' live' W E' C' ∧ ready s' live' p ln name ∧ (∀ k, C' k `sublist_of` C k) ∧
    match r with
    | Some res => read_value s' res = Some mv ∧ (res = 0 ∨ res = in_progress ∨ unowned s' res) ∧ ln ≠ res
    | None => True
    end.
Proof.
  intros H Hrd Hmv. pose proof Hrd as [R1 R2 R3 R4 R5].
  destruct (mem_strs _ _ ln (ck_mem _ _ _ _ _ H)) as [Hl0 Hli]; [by rewrite R4|].
  destruct mv as [| |str].
  - eexists s, _, live, E, C. split; [done|]. split; [reflexivity|]. split; [done|]. split; [done|]. split; [done|]. split; [|auto].
    eapply read_in_progress_value; [apply (ck_mem _ _ _ _ _ H)|]. by rewrite R1.
  - eexists s, _, live, E, C. split; [done|]. split; [reflexivity|]. split; [done|]. split; [done|]. split; [done|]. split; [done|auto].
  - destruct (malloc_cache_ok _ _ _ _ _ _ H Hmv) as (s1 & r & l1 & E1 & C1 & Em & Hev & Hsub & Hr). rewrite Em. cbn [mbind option_bind].
    pose proof (evicts_keeps _ _ _ _ Hev) as K. apply (ready_evicts _ _ _ _ _ _ _ Hev) in Hrd as Hrd1.
    destruct r as [rp|]; [|destruct Hr as [H1 _]; by exists s1, None, l1, E1, C1].
    destruct Hr as (Hrp & H1 & N). destruct (copy_str_ok _ _ _ _ _ _ _ H1 N) as (H2 & Hu & Hv). pose proof N as [_ _ Ns [Nr0 Nri] _].
    assert (rp ≠ p) as Hrpp by (destruct Hrd1; congruence).
    eexists _, _, _, _, _. split; [done|]. split; [etransitivity; [exact K|]; by apply same_keeps|]. split; [exact H2|]. split; [|split; [done|split; [|split; [auto|]]]].
    + apply ready_copy; [|done|done]. destruct Hrd1 as [A1 A2 A3 A4 A5]. split; try done. by rewrite lookup_insert_ne.
    + unfold read_value. rewrite (proj2 (Z.eqb_neq rp 0)), (proj2 (Z.eqb_neq rp in_progress)) by done. cbn. by rewrite lookup_insert_eq.
    + intros <-. destruct Hrd1; congruence.
Qed.

Lemma give_back_new s live W E C p ln name :
  cache_ok s live W E C → ready s live p ln name →
  ∃ s' live', (s5 ← free_sheep_entry s p; free_sheep_str s5 ln) = Some s' ∧ cache_ok s' live' W E C ∧ keeps s s'.
Proof.
  intros H [R1 R2 R3 R4 R5]. destruct (give_back_entry _ _ _ _ _ _ H R1 R2 R3) as (s3 & E3 & H3 & Es3 & Ee3 & El3). rewrite E3. cbn [mbind option_bind].
  destruct (give_back_str s3 _ _ _ _ ln name H3) as (s4 & E4 & H4 & Hv4 & Ee4 & El4); [by rewrite Es3|unfold unowned; by rewrite Ee3|].
  exists s4, (delete ln (delete p live)). split; [done|]. split; [done|]. apply same_keeps; [|congruence].
  intros q. rewrite Hv4. unfold view, read_value. by rewrite Es3, Ee3.
Qed.

Lemma add_new_ok s live W E C name mv :
  cache_ok s live W E C → good name mv → short name → short_value mv →
  ∃ s' r live' E' C', shmcache_add_new s name mv = Some (s', r) ∧ cache_ok s' live' W E' C' ∧
    (r = -1 ∧ keeps s s' ∧ (∀ k, C' k `sublist_of` C k) ∨
     r = 0 ∧ ∃ p C0, added s s' C' name mv p ∧ C' = pushed p (str_hash name) C0 ∧ ∀ k, C0 k `sublist_of` C k).
Proof.
  intros H Hg Hn Hmv. unfold shmcache_add_new.
  destruct (malloc_cache_ok _ _ _ _ _ _ H short_entry) as (s1 & r1 & l1 & E1 & C1 & Em1 & Hev1 & Hsub1 & Hr1). rewrite Em1. cbn [mbind option_bind].
  pose proof (evicts_keeps _ _ _ _ Hev1) as K1. destruct r1 as [p|]; [|destruct Hr1 as [H1 _]; exists s1, (-1), l1, E1, C1; auto 6].
  destruct Hr1 as (_ & H1 & [Nl Nu Ns Nr _]).
  destruct (malloc_cache_ok _ _ _ _ _ _ H1 Hn) as (s2 & r2 & l2 & E2 & C2 & Em2 & Hev2 & Hsub2 & Hr2). rewrite Em2. cbn [mbind option_bind].
  pose proof (evicts_keeps _ _ _ _ Hev2) as K2. destruct (ev_free _ _ _ _ Hev2 _ Nu) as (Nu2 & Ns2 & Nl2). rewrite Ns in Ns2. rewrite Nl in Nl2.
  destruct r2 as [ln|].
  2:{ destruct Hr2 as [H2 _]. destruct (give_back_entry _ _ _ _ _ _ H2 Nl2 Nu2 Ns2) as (s3 & E3 & H3 & Es3 & Ee3 & El3). rewrite E3. cbn.
    exists s3, (-1), (delete p l2), E2, C2. split; [done|]. split; [done|]. left. split; [done|].
    split; [|intros k; etransitivity; [apply Hsub2|apply Hsub1]]. etransitivity; [exact K1|]. etransitivity; [exact K2|].
    apply same_keeps; [|done]. intros q. unfold view, read_value. by rewrite Es3, Ee3. }
  destruct Hr2 as (Hln & H2 & Nln). destruct (copy_str_ok _ _ _ _ _ _ _ H2 Nln) as (H3 & Hlu & Hv3).
  assert (p ≠ ln) as Hpln by congruence.
  assert (ready (copy_str s2 ln name) (<[ln := Z.of_nat (length name) + 1]> l2) p ln name) as Hrd.
  { split; [by rewrite lookup_insert_ne|done|cbn; by rewrite lookup_insert_ne|apply lookup_insert_eq|done]. }
  destruct (store_value _ _ _ _ _ _ _ _ _ H3 Hrd Hmv) as (s4 & r4 & l4 & E4 & C4 & Es4 & K4 & H4 & Hrd4 & Hsub4 & Hr4). rewrite Es4. cbn [mbind option_bind].
  assert (keeps s s4) as K by (etransitivity; [exact K1|]; etransitivity; [exact K2|]; etransitivity; [by apply same_keeps|exact K4]).
  assert (∀ k, C4 k `sublist_of` C k) as Hsub by (intros k; etransitivity; [apply Hsub4|]; etransitivity; [apply Hsub2|apply Hsub1]).
  destruct r4 as [res|].
  - destruct Hr4 as (Hres & Hown & Hne). destruct Hrd4 as [R1 R2 R3 R4 R5].
    destruct (link_added s s4 l4 W E4 C4 p ln res name mv K H4 R1 R2 R3 R4 R5 Hres Hg Hown Hne) as (s6 & E6 & H6 & Had).
    unfold put_entry in E6. rewrite E6. cbn. eexists _, _, _, _, _. split; [done|]. split; [exact H6|]. right. split; [done|]. by exists p, C4.
  - destruct (give_back_new _ _ _ _ _ _ _ _ H4 Hrd4) as (s6 & l6 & E6 & H6 & K6).
    destruct (free_sheep_entry s4 p) as [s5|]; [|done]. cbn [mbind option_bind] in E6 |- *. rewrite E6. cbn.
    exists s6, (-1), l6, E4, C4. split; [done|]. split; [done|]. left. split; [done|]. split; [by etransitivity|done].
Qed.

(** ** Updates *)

Definition value_of (mapped_name : option bytes) : value := match mapped_name with Some str => Mapped str | None => Absent end.

Lemma find_sublist (f f' : Z → bool) (L L' : list Z) p :
  L' `sublist_of` L → find f L = Some p → p ∈ L' → NoDup L → f' p = true → (∀ q, q ∈ L' → f' q = true → f q = true) → find f' L' = Some p.
Proof.
  intros Hsub. induction Hsub as [|x L' L Hsub IH|x L' L Hsub IH]; intros Hf Hin Hnd Hp Hff; [done| |].
  - apply NoDup_cons in Hnd as [Hx Hnd]. cbn in Hf |- *. destruct (f x) eqn:Efx; [by injection Hf as ->; rewrite Hp|].
    destruct (f' x) eqn:Efx'; [rewrite (Hff x) in Efx; [done|by left|done]|].
    apply IH; [done| |done|done|intros q Hq; apply Hff; by right]. apply elem_of_cons in Hin as [-> |?]; [congruence|done].
  - apply NoDup_cons in Hnd as [Hx Hnd]. cbn in Hf. destruct (f x) eqn:Efx; [injection Hf as ->; destruct Hx; by eapply elem_of_sublist|]. eauto.
Qed.

Lemma cached_keeps s s' C C' name p :
  cached s C name = Some p → NoDup (C (str_hash name)) → (∀ k, C' k `sublist_of` C k) → p ∈ C' (str_hash name) → named s' name p = true →
  (∀ q, q ≠ p → view s' q = None ∨ view s' q = view s q) → cached s' C' name = Some p.
Proof.
  intros Hc Hnd Hsub Hin Hn Hv. unfold cached in *. eapply find_sublist; [apply Hsub|exact Hc|done|done|done|].
  intros q _ Hq. destruct (decide (q = p)) as [-> | Hne]; [by apply find_some in Hc as [_ ?]|].
  unfold named in *. destruct (Hv q Hne) as [Ev|Ev]; rewrite Ev in Hq; done.
Qed.

(** The outcome of an update that finds its entry [p] in progress. *)
Record updated (s s' : shm) (C' : Z → list Z) (name : bytes) (v : value) (p c : Z) : Prop := mk_updated {
  up_view : view s' p = Some (name, v, c);
  up_first : cached s' C' name = Some p;
  up_pinned q w : q ≠ p → view s q = Some w → pinned_view w → view s' q = Some w;
  up_other q : q ≠ p → view s' q = None ∨ view s' q = view s q;
  up_limit : fixed s' = fixed s;
}.

Lemma upd_put s p f e : ents s !! p = Some e → upd s p f = Some (put_entry s p (f e)).
Proof. intros H. unfold upd. by rewrite H. Qed.

Lemma set_result_ok s0 s live W E C C0 p r v name c :
  cached s0 C0 name = Some p → NoDup (C0 (str_hash name)) → (∀ k, C k `sublist_of` C0 k) → keeps s0 s →
  view s0 p = Some (name, InProgress, c) →
  cache_ok s live W E C → read_value s r = Some v → good name v → (r = 0 ∨ unowned s r) →
  ∃ s', upd s p (set_result r) = Some s' ∧ cache_ok s' live W E C ∧ updated s0 s' C name v p c.
Proof.
  intros Hc Hnd Hsub [K1 K2 K3] Hv0 H Hr Hg Hown.
  assert (view s p = Some (name, InProgress, c)) as Hv by (apply K1; [done|by left]).
  destruct (view_entry _ _ _ Hv) as (e & He & Hn & Hri & Hp). cbn in Hn, Hri, Hp.
  rewrite (upd_put _ _ _ _ He). eexists. split; [done|].
  assert (set_result r e = with_result r c e) as -> by (unfold set_result, with_result; by rewrite Hp).
  destruct (ck_entry _ _ _ _ _ H _ _ He) as [(n & u & Hu & Hk & _) _ Hw]. rewrite Hv in Hu. injection Hu as <- _ _.
  destruct (change_entry s live W W E C p e r c v name H He Hn Hr Hg) as [H' Hv']; [tauto|done|by rewrite <- Hw|].
  split; [done|].
  assert (∀ q, q ≠ p → view (put_entry s p (with_result r c e)) q = view s q) as Ho by (intros q Hq; by apply put_view).
  split; [done| | | |done].
  - eapply cached_keeps; [exact Hc|done|done| | |].
    + apply (ck_chain _ _ _ _ _ H). by exists e.
    + unfold named. rewrite Hv'. by apply bool_decide_eq_true.
    + intros q Hq. rewrite Ho by done. apply K2.
  - intros q w Hq Hvq Hpin. rewrite Ho by done. by apply K1.
  - intros q Hq. rewrite Ho by done. apply K2.
Qed.

Lemma cached_relinked s s' C name : relinked s s' → cached s' C name = cached s C name.
Proof.
  intros R. unfold cached. induction (C (str_hash name)) as [|q L IH]; [done|]. cbn. unfold named at 1 3. rewrite (relinked_view _ _ _ R).
  by rewrite IH.
Qed.

Lemma relinked_keeps s s' : relinked s s' → keeps s s'.
Proof.
  intros R. apply same_keeps; [intros q; by apply relinked_view|]. destruct R as [R _]. unfold fixed. by injection R as _ _ _ -> _ ->.
Qed.

(** *** The same answer again *)

Lemma read_mapped s p str : read_value s p = Some (Mapped str) → p ≠ 0 ∧ p ≠ in_progress ∧ strs s !! p = Some str.
Proof.
  unfold read_value. destruct (p =? 0) eqn:E0; [done|]. destruct (p =? in_progress) eqn:Ei; [done|]. apply Z.eqb_neq in E0, Ei.
  destruct (strs s !! p) as [z|]; [|done]. cbn. by intros [= ->].
Qed.

Lemma read_absent s p : read_value s p = Some Absent → p = 0.
Proof.
  unfold read_value. destruct (p =? 0) eqn:E0; [by apply Z.eqb_eq in E0|]. destruct (p =? in_progress); [done|]. by destruct (strs s !! p).
Qed.

Lemma cached_same s s' C name p : cached s C name = Some p → (∀ q, named s' name q = named s name q) → cached s' C name = Some p.
Proof. intros <- H. unfold cached. induction (C (str_hash name)) as [|q L IH]; cbn; [done|]. by rewrite H, IH. Qed.

Lemma reuse_ok s live p str :
  mem_ok s live → strs s !! p = Some str → (heap_limit s ≠ 0 → heap_used s <= heap_limit s) →
  ∃ h u h' q, ∀ m, let s1 := set_strs (delete p (strs s)) (set_heap h u (set_ents m s)) in
    free_sheep_str (set_ents m s) p = Some s1 ∧
    malloc_sheep_cache s1 (Z.of_nat (length str) + 1) = Some (set_heap h' (heap_used s) s1, Some q).
Proof.
  intros Hm Hp Hlim. pose proof (mo_strs _ _ Hm _ _ Hp) as Hl. destruct (used_enough _ _ _ _ Hm Hl) as [Hu _].
  destruct (h_free_law _ _ _ _ (mo_heap _ _ Hm) Hl) as (h & E & _). destruct (h_reuse_law _ _ _ _ _ (mo_heap _ _ Hm) Hl E) as (h' & q & E').
  exists h, (heap_used s - Sheep.sheep_alloc_size (Z.of_nat (length str) + 1)), h', q. intros m. split.
  - unfold free_sheep_str. cbn. rewrite Hp. cbn. rewrite Hu, E. done.
  - unfold malloc_sheep_cache, FUEL. cbn [make_room malloc_loop heap_limit heap_used set_strs set_heap set_ents heap].
    rewrite Z.sub_add. assert (negb (heap_limit s =? 0) && (heap_limit s <? heap_used s) = false) as ->.
    { destruct (heap_limit s =? 0) eqn:E0; [done|]. apply Z.eqb_neq in E0. cbn. apply Z.ltb_ge. auto. }
    cbn. rewrite E'. cbn. by rewrite Z.sub_add.
Qed.

(** The result of an entry can be taken away from it. *)
Lemma disown s live W E C p e name v c :
  cache_ok s live W E C → good name InProgress → ents s !! p = Some e → view s p = Some (name, v, c) →
  let s' := put_entry s p (with_result in_progress c e) in
  cache_ok s' live W E C ∧ view s' p = Some (name, InProgress, c) ∧ (v ≠ InProgress → result e ≠ 0 → unowned s' (result e)).
Proof.
  intros H Hg He Hv s'. destruct (view_entry _ _ _ Hv) as (e' & He' & Hn & Hr & Hp). rewrite He in He'. injection He' as <-. cbn in Hn, Hr, Hp.
  destruct (ck_entry _ _ _ _ _ H _ _ He) as [_ Hnd Hw].
  destruct (change_entry s live W W E C p e in_progress c InProgress name H He Hn) as [H' Hv']; [|done|auto|done|congruence|].
  { unfold read_value. rewrite Z.eqb_refl. destruct (in_progress =? 0) eqn:E0; [|done]. exfalso. apply Z.eqb_eq in E0.
    pose proof (h_range_law _ _ p (mo_heap _ _ (ck_mem _ _ _ _ _ H))) as Hra. rewrite (mo_ents _ _ (ck_mem _ _ _ _ _ H) _ _ He) in Hra.
    specialize (Hra (mk_is_Some _ _ eq_refl)). unfold in_progress in E0. lia. }
  split; [done|]. split; [done|]. intros Hvi H0. assert (result e ≠ in_progress) as Hip.
  { intros Ei. apply Hvi. rewrite Ei in Hr. unfold read_value in Hr. rewrite Z.eqb_refl in Hr. destruct (in_progress =? 0) eqn:E0; [|congruence].
    apply Z.eqb_eq in E0. congruence. }
  assert (result e ∈ strings_of e) as Hin.
  { unfold strings_of. rewrite (proj2 (Z.eqb_neq _ _) H0), (proj2 (Z.eqb_neq _ _) Hip). right. by left. }
  split.
  - cbn. assert (ents s !! result e = None) as Hnone.
    { apply (mo_apart _ _ (ck_mem _ _ _ _ _ H)). unfold read_value in Hr.
      rewrite (proj2 (Z.eqb_neq _ _) H0), (proj2 (Z.eqb_neq _ _) Hip) in Hr. by destruct (strs s !! result e). }
    rewrite lookup_insert_ne; [done|]. congruence.
  - intros q f Hq Hx. cbn in Hq. destruct (decide (q = p)) as [-> | Hne].
    + rewrite lookup_insert_eq in Hq. injection Hq as <-. unfold strings_of in Hx, Hnd. cbn in Hx. rewrite Z.eqb_refl, orb_true_r in Hx.
      apply list_elem_of_singleton in Hx. rewrite (proj2 (Z.eqb_neq _ _) H0), (proj2 (Z.eqb_neq _ _) Hip) in Hnd. cbn in Hnd.
      apply NoDup_cons in Hnd as [Hnd _]. apply Hnd. rewrite Hx. by left.
    + rewrite lookup_insert_ne in Hq by done. apply Hne. symmetry. by eapply (ck_own _ _ _ _ _ H).
Qed.

Lemma put_set_result s m p e c r : ents s !! p = Some e → pending_count e = c →
  upd (set_ents (<[p := with_result in_progress c e]> m) s) p (set_result r) = Some (put_entry (set_ents m s) p (set_result r e)).
Proof.
  intros He <-. unfold upd. cbn. rewrite lookup_insert_eq. cbn. unfold put_entry. cbn. by rewrite insert_insert_eq.
Qed.

Lemma updated_disowned s s' C' name v p c e : (∀ q, q ≠ p → view (put_entry s p e) q = view s q) →
  updated (put_entry s p e) s' C' name v p c → updated s s' C' name v p c.
Proof.
  intros Hv [U1 U2 U3 U4 U5]. split; [done|done| | |done].
  - intros q w Hq. rewrite <- (Hv q Hq). by apply U3.
  - intros q Hq. rewrite <- (Hv q Hq). by apply U4.
Qed.

Lemma cache_same_ok s live W E C name mapped_name p c :
  cache_ok s live W E C → good name InProgress → good name (value_of mapped_name) → short_value (value_of mapped_name) →
  cached s C name = Some p → view s p = Some (name, value_of mapped_name, c) →
  ∃ s' live' E' C', shmcache_add_update s name mapped_name = Some (s', 0) ∧ cache_ok s' live' W E' C' ∧
    updated s s' C' name (value_of mapped_name) p c ∧ ∀ k, C' k `sublist_of` C k.
Proof.
  intros H Hgi Hg Hs Ec Hv. pose proof (lookup_worker_ok s live W E C name H) as Hl. rewrite Ec in Hl.
  destruct Hl as (s1 & e & E1 & El & He & R1 & H1). unfold shmcache_add_update. rewrite El. cbn [mbind option_bind]. rewrite He. cbn [mbind option_bind].
  assert (∀ q, view s1 q = view s q) as Hv1 by (intros q; by apply relinked_view). rewrite <- Hv1 in Hv.
  destruct (disown _ _ _ _ _ _ _ _ _ _ H1 Hgi He Hv) as (Ha & Hva & Hu). set (e0 := with_result in_progress c e) in *.
  assert (cached (put_entry s1 p e0) C name = Some p) as Eca.
  { eapply cached_same; [exact Ec|]. intros q. unfold named. destruct (decide (q = p)) as [-> | Hq]; [by rewrite Hva, <- Hv1, Hv|].
    by rewrite put_view, Hv1. }
  assert (∀ s' C', updated (put_entry s1 p e0) s' C' name (value_of mapped_name) p c → updated s s' C' name (value_of mapped_name) p c) as Hback.
  { intros s' C' U%updated_disowned; [|by intros; apply put_view]. destruct U as [U1 U2 U3 U4 U5]. split; [done|done| | |].
    - intros q w Hq. rewrite <- Hv1. by apply U3.
    - intros q Hq. rewrite <- Hv1. by apply U4.
    - rewrite U5. apply (kp_limit _ _ (relinked_keeps _ _ R1)). }
  destruct (view_entry _ _ _ Hv) as (e' & He' & _ & Hr & Hpc). rewrite He in He'. injection He' as <-. cbn in Hr, Hpc.
  destruct mapped_name as [str|]; cbn [value_of] in *.
  - assert (result e ≠ 0 ∧ result e ≠ in_progress ∧ strs s1 !! result e = Some str) as (H0 & Hi & Hstr) by (by apply read_mapped).
    rewrite (proj2 (Z.eqb_neq _ _) H0), (proj2 (Z.eqb_neq _ _) Hi). cbn [orb].
    destruct (reuse_ok s1 live (result e) str (ck_mem _ _ _ _ _ H1) Hstr (ck_limit _ _ _ _ _ H1)) as (h & u & h' & q & Hre).
    assert (set_ents (ents s1) s1 = s1) as Es1 by (by destruct s1).
    destruct (Hre (ents s1)) as [F1 M1]. rewrite Es1 in F1, M1. rewrite F1. cbn [mbind option_bind]. rewrite M1. cbn [mbind option_bind].
    destruct (Hre (<[p := e0]> (ents s1))) as [F2 M2]. cbn zeta in F2, M2.
    destruct (give_back_str (put_entry s1 p e0) _ _ _ _ _ _ Ha Hstr (Hu ltac:(done) H0)) as (sb & Eb & Hb & Hvb & Heb & Hfb).
    unfold put_entry in Eb. rewrite F2 in Eb. injection Eb as <-.
    destruct (malloc_cache_ok _ _ _ _ _ _ Hb Hs) as (s2 & r2 & l2 & E2 & C2 & Em & Hev & Hsub & Hr2). rewrite M2 in Em. injection Em as <- <-.
    destruct Hr2 as (Hrp & H2 & N). destruct (copy_str_ok _ _ _ _ _ _ _ H2 N) as (H3 & Hu3 & Hv3). pose proof N as [_ _ _ [N0 Ni] _].
    match type of H3 with cache_ok ?sc ?lc _ _ _ =>
      destruct (set_result_ok (put_entry s1 p e0) sc lc W E2 C2 C p q (Mapped str) name c Eca (ck_nodup _ _ _ _ _ H _) Hsub) as (s4 & E4 & H4 & Hup);
        [|exact Hva|exact H3| |exact Hg|by right|]
    end.
    { etransitivity; [by apply (same_keeps (put_entry s1 p e0)); [exact Hvb|exact Hfb]|]. etransitivity; [by eapply evicts_keeps|]. by apply same_keeps. }
    { unfold read_value. rewrite (proj2 (Z.eqb_neq q 0)), (proj2 (Z.eqb_neq q in_progress)) by done. cbn. by rewrite lookup_insert_eq. }
    rewrite (upd_put _ _ _ e) by exact He. cbn [mbind option_bind].
    unfold upd in E4. cbn in E4. rewrite lookup_insert_eq in E4. cbn in E4. injection E4 as <-.
    eexists _, _, E2, C2. split; [reflexivity|]. unfold put_entry at 1 2. cbn.
    match type of H4 with cache_ok ?x _ _ _ _ => match goal with |- cache_ok ?y _ _ _ _ ∧ _ => assert (y = x) as -> end end.
    { unfold copy_str, set_strs, set_heap, set_ents. cbn. rewrite insert_insert_eq. unfold e0, with_result, set_result. cbn. by rewrite Hpc. }
    split; [exact H4|]. split; [by apply Hback|done].
  - assert (result e = 0) as H0 by (by eapply read_absent). rewrite H0, Z.eqb_refl, orb_true_r. cbn [mbind option_bind].
    destruct (set_result_ok (put_entry s1 p e0) (put_entry s1 p e0) live W E1 C C p 0 Absent name c Eca (ck_nodup _ _ _ _ _ H _)) as (s4 & E4 & H4 & Hup);
      try done; [by left|]. unfold put_entry, e0 in E4. rewrite (put_set_result s1 (ents s1) p e c 0 He Hpc) in E4. injection E4 as <-.
    assert (set_ents (ents s1) s1 = s1) as Es1 by (by destruct s1). rewrite Es1 in H4, Hup.
    rewrite (upd_put _ _ _ e) by exact He. cbn. eexists _, _, _, C. split; [reflexivity|]. split; [exact H4|]. split; [by apply Hback|done].
Qed.

Lemma cache_update_ok s live W E C name mapped_name :
  cache_ok s live W E C → good name (value_of mapped_name) → short_value (value_of mapped_name) →
  match cached s C name with
  | None => shmcache_add_update s name mapped_name = Some (s, -1)
  | Some p => ∀ c, view s p = Some (name, InProgress, c) →
      ∃ s' r, shmcache_add_update s name mapped_name = Some (s', r) ∧
        (r = 0 ∧ (∃ live' E' C', cache_ok s' live' W E' C' ∧ updated s s' C' name (value_of mapped_name) p c ∧ ∀ k, C' k `sublist_of` C k) ∨
         r = -1 ∧ mapped_name ≠ None)
  end.
Proof.
  intros H Hg Hs. pose proof (lookup_worker_ok s live W E C name H) as Hl. unfold shmcache_add_update.
  destruct (cached s C name) as [p|] eqn:Ec; [|by rewrite Hl]. intros c Hv.
  destruct Hl as (s1 & e & E1 & El & He & R1 & H1). rewrite El. cbn [mbind option_bind]. rewrite He. cbn [mbind option_bind].
  assert (result e = in_progress) as Hip.
  { rewrite <- (relinked_view _ _ _ R1) in Hv. destruct (view_entry _ _ _ Hv) as (e' & He' & _ & Hr & _). rewrite He in He'. injection He' as <-.
    by eapply read_in_progress. }
  rewrite Hip, Z.eqb_refl. cbn [orb mbind option_bind]. pose proof (relinked_keeps _ _ R1) as K1.
  destruct mapped_name as [str|]; cbn [value_of] in *.
  - destruct (malloc_cache_ok _ _ _ _ _ _ H1 Hs) as (s2 & r2 & l2 & E2 & C2 & Em & Hev & Hsub & Hr2). rewrite Em. cbn [mbind option_bind].
    assert (keeps s s2) as K2 by (etransitivity; [exact K1|by eapply evicts_keeps]).
    destruct r2 as [rp|].
    + destruct Hr2 as (Hrp & H2 & N). destruct (copy_str_ok _ _ _ _ _ _ _ H2 N) as (H3 & Hu & Hv3). pose proof N as [_ _ _ [N0 Ni] _].
      destruct (set_result_ok s (copy_str s2 rp str) (<[rp := Z.of_nat (length str) + 1]> l2) W E2 C2 C p rp (Mapped str) name c) as (s4 & E4 & H4 & Hup); try done.
      * apply H.
      * etransitivity; [exact K2|by apply same_keeps].
      * unfold read_value. rewrite (proj2 (Z.eqb_neq rp 0)), (proj2 (Z.eqb_neq rp in_progress)) by done. cbn. by rewrite lookup_insert_eq.
      * auto.
      * rewrite E4. cbn. exists s4, 0. split; [done|]. left. split; [done|]. by eexists _, _, _.
    + destruct Hr2 as [H2 _]. assert (view s2 p = Some (name, InProgress, c)) as Hv2 by (apply K2; [done|by left]).
      destruct (view_entry _ _ _ Hv2) as (e2 & He2 & Hn2 & _). cbn in Hn2. rewrite He2. cbn [mbind option_bind].
      destruct (free_str_ok _ _ _ _ (ck_mem _ _ _ _ _ H2) Hn2) as (h & u & E3 & _ & _). rewrite E3. cbn [mbind option_bind].
      rewrite (upd_put _ _ _ e2) by done. cbn. eexists _, _. split; [done|]. by right.
  - destruct (set_result_ok s s1 live W E1 C C p 0 Absent name c) as (s4 & E4 & H4 & Hup); try done.
    + apply H.
    + auto.
    + rewrite E4. cbn. exists s4, 0. split; [done|]. left. split; [done|]. by eexists _, _, _.
Qed.

End Inv.
End ShmcacheInv.
