(* ===== verification/ShmcacheProcs.v ===== *)
(** * Processes that share the cache

    The processes of a node call [shmcache_lookup_or_add] for a name they need; who is
    told that the name is new asks the server and calls [shmcache_update], the others
    wait in [shmcache_waitfor_update].  [reach] has every state that such processes can
    bring about, in any interleaving of their calls, and the theorems are about all of
    them: no call touches memory that was freed, every answer is one that was stored
    under the name, and a process that waits for a name gets it when it is there. *)

From Stdlib Require Import Ascii String ZArith Lia.
From stdpp Require Import strings numbers gmap list sorting.
From S2P Require Import Prelude Bytes Sheep Shmcache ShmcacheInv.
Import Shmcache ShmcacheInv.

Module ShmcacheProcs.

Section Procs.
Context {A : Type} {HA : SharedHeap A}.
Abbreviation shm := (@Shmcache.shm A).

(** The answers that the server gives for a name. *)
Variable answer : bytes → value → Prop.
Definition good (name : bytes) (v : value) : Prop := v = InProgress ∨ answer name v.

(** ** States *)

(** The name is not known, or somebody is asking for it, or it has this answer; it is not known, or has its answer. *)
Definition fits (s : shm) (name : bytes) (mapped : option bytes) : Prop :=
  ∀ s' p r, shmcache_lookup_worker s name = Some (s', Some (p, r)) → r = in_progress ∨ read_value s' r = Some (value_of mapped).
Definition settled (s : shm) (name : bytes) : Prop :=
  ∀ s' p r, shmcache_lookup_worker s name = Some (s', Some (p, r)) → r ≠ in_progress.

(** The state of the cache, and the entries that processes wait for. *)
Inductive reach : shm → gmap nat Z → Prop :=
  | reach_init h hlimit s tbl :
      h_inv h ∅ → 0 < hlimit → init_cache (fresh_shm h) hlimit = Some (s, tbl) → tbl ≠ 0 → reach s ∅
  | reach_lookup s ws name s' r :
      reach s ws → shmcache_lookup (hash s) s name = Some (s', r) → reach s' ws
  | reach_lookup_or_add s ws name s' r :
      reach s ws → short name → shmcache_lookup_or_add (hash s) s name = Some (s', r) → reach s' ws
  | reach_add s ws name v s' r :
      reach s ws → short name → short_value v → answer name v → v ≠ InProgress → settled s name →
      shmcache_add (hash s) s name v = Some (s', r) → reach s' ws
  | reach_update s ws name mapped s' r :
      reach s ws → short_value (value_of mapped) → answer name (value_of mapped) → fits s name mapped →
      shmcache_update (hash s) s name mapped = Some (s', r) → r = 0 ∨ s' = s → reach s' ws
  | reach_wait s ws name pid s' entry :
      reach s ws → ws !! pid = None → waitfor_begin (hash s) s name = Some (s', Some (entry, true)) → reach s' (<[pid := entry]> ws)
  | reach_no_wait s ws name s' r :
      reach s ws → waitfor_begin (hash s) s name = Some (s', r) → (∀ entry, r ≠ Some (entry, true)) → reach s' ws
  | reach_woken s ws pid entry v s' :
      reach s ws → ws !! pid = Some entry → waitfor_poll s entry = Some v → v ≠ InProgress →
      waitfor_end s entry = Some s' → reach s' (delete pid ws).

(** ** The invariant *)

Definition waiting (ws : gmap nat Z) (p : Z) : Z := Z.of_nat (size (filter (λ kv, kv.2 = p) ws)).

Lemma waiting_insert ws pid e p :
  ws !! pid = None → waiting (<[pid := e]> ws) p = (if decide (p = e) then 1 else 0) + waiting ws p.
Proof.
  intros Hn. unfold waiting. case_decide as Hp.
  - rewrite map_filter_insert_True by done. rewrite map_size_insert_None; [lia|]. by apply map_lookup_filter_None_2; left.
  - rewrite map_filter_insert_False by (cbn; congruence). rewrite delete_id by done. lia.
Qed.

Lemma waiting_delete ws pid e p :
  ws !! pid = Some e → waiting ws p = (if decide (p = e) then 1 else 0) + waiting (delete pid ws) p.
Proof.
  intros Hs. rewrite <- (insert_id ws pid e Hs) at 1. rewrite <- insert_delete_eq. apply waiting_insert. apply lookup_delete_eq.
Qed.

(** Who is in progress is the one that a lookup finds. *)
Definition solo (s : shm) (C : Z → list Z) : Prop :=
  ∀ p n c, view s p = Some (n, InProgress, c) → cached s C n = Some p.

Record procs_ok (s : shm) (ws : gmap nat Z) (live : gmap Z Z) (E : list Z) (C : Z → list Z) : Prop := mk_procs_ok {
  po_cache : cache_ok good s live (waiting ws) E C;
  po_solo : solo s C;
  po_hash : hash s ≠ 0 ∧ hash s ≠ in_progress;
  po_limit : 0 < heap_limit s;
}.

Lemma on_table_ok {B} (s : shm) (off : B) call : hash s ≠ 0 ∧ hash s ≠ in_progress → on_table (hash s) s off call = call.
Proof.
  intros [H1 H2]. unfold on_table. by rewrite (proj2 (Z.eqb_neq (hash s) 0)), Z.eqb_refl, (proj2 (Z.eqb_neq (hash s) in_progress)).
Qed.

Lemma view_chain s live W E C p n v c :
  cache_ok good s live W E C → view s p = Some (n, v, c) → p ∈ C (str_hash n) ∧ good n v.
Proof.
  intros H Hv. destruct (view_entry _ _ _ Hv) as (e & He & _). destruct (ck_entry _ _ _ _ _ _ H _ _ He) as [(n' & v' & Hv' & Hk & Hg) _ _].
  rewrite Hv in Hv'. injection Hv' as <- <- _. split; [|done]. apply (ck_chain _ _ _ _ _ _ H). by exists e.
Qed.

Lemma solo_keeps s s' C C' live W E live' W' E' :
  cache_ok good s live W E C → cache_ok good s' live' W' E' C' → solo s C → (∀ k, C' k `sublist_of` C k) →
  (∀ p n c, view s' p = Some (n, InProgress, c) → ∃ c', view s p = Some (n, InProgress, c')) →
  (∀ q n v c, view s' q = Some (n, v, c) → ∃ v' c', view s q = Some (n, v', c')) → solo s' C'.
Proof.
  intros H H' Hs Hsub Hprog Hname p n c Hv. destruct (Hprog _ _ _ Hv) as (c' & Hv0). specialize (Hs _ _ _ Hv0).
  unfold cached. eapply find_sublist; [apply Hsub|exact Hs|by eapply view_chain|apply H| |].
  - unfold named. rewrite Hv. by apply bool_decide_eq_true.
  - intros q _ Hq. unfold named in *. destruct (view s' q) as [[[n2 v2] c2]|] eqn:E2; [|done].
    destruct (Hname _ _ _ _ E2) as (v3 & c3 & E3). by rewrite E3.
Qed.

Lemma keeps_names s s' : keeps s s' → ∀ q n v c, view s' q = Some (n, v, c) → ∃ v' c', view s q = Some (n, v', c').
Proof. intros K q n v c Hv. destruct (kp_view _ _ K q) as [Hq|Hq]; rewrite Hq in Hv; [done|]. eauto. Qed.

Lemma solo_after_keeps s s' C C' live W E live' W' E' :
  cache_ok good s live W E C → cache_ok good s' live' W' E' C' → solo s C → (∀ k, C' k `sublist_of` C k) → keeps s s' → solo s' C'.
Proof.
  intros H H' Hs Hsub K. eapply solo_keeps; [exact H|exact H'|done|done| |by apply keeps_names].
  intros p n c Hv. destruct (kp_view _ _ K p) as [Hp|Hp]; rewrite Hp in Hv; [done|]. eauto.
Qed.

Lemma cached_pushed s p k C n : named s n p = false → cached s (pushed p k C) n = cached s C n.
Proof. intros Hn. unfold cached, pushed. case_decide; [|done]. cbn. by rewrite Hn. Qed.

Lemma solo_added s s' C C0 live W E live' W' E' name v p :
  let C' := pushed p (str_hash name) C0 in
  cache_ok good s live W E C → cache_ok good s' live' W' E' C' → solo s C → (∀ k, C0 k `sublist_of` C k) → added s s' C' name v p →
  (∀ q c, cached s C name = Some q → view s q = Some (name, InProgress, c) → False) → solo s' C'.
Proof.
  intros C' H H' Hs Hsub [A1 A2 A3 A4 A5] Hno q n c Hv. destruct (decide (q = p)) as [-> | Hq].
  { rewrite A1 in Hv. injection Hv as <- _ _. done. }
  destruct (A4 q Hq) as [Eq|Eq]; rewrite Eq in Hv; [done|]. pose proof (Hs _ _ _ Hv) as Hc.
  assert (n ≠ name) as Hn by (intros ->; by eapply Hno).
  assert (named s' n p = false) as Hnp by (unfold named; rewrite A1; by apply bool_decide_eq_false).
  unfold C'. rewrite cached_pushed by done.
  unfold cached. eapply find_sublist; [apply Hsub|exact Hc| |apply H|unfold named; rewrite Eq, Hv; by apply bool_decide_eq_true|].
  - rewrite <- Eq in Hv. destruct (view_chain _ _ _ _ _ _ _ _ _ H' Hv) as [Hin _]. unfold C', pushed in Hin. case_decide; [|done].
    apply elem_of_cons in Hin as [?|?]; done.
  - intros q2 _ Hq2. unfold named in *. destruct (decide (q2 = p)) as [-> | Hne]; [by rewrite A1, bool_decide_false in Hq2|].
    destruct (A4 q2 Hne) as [E2|E2]; rewrite E2 in Hq2; done.
Qed.

(** ** The start *)

Lemma empty_ok h hlimit : h_inv h ∅ → 0 < hlimit → cache_ok good (set_limit hlimit (fresh_shm h)) ∅ (waiting ∅) [] (λ _, []).
Proof.
  intros Hi Hl. constructor.
  - constructor; cbn; try done; intros; by rewrite lookup_empty in *.
  - constructor; try done. apply NoDup_singleton.
  - intros p. cbn. rewrite lookup_empty. split; [by intros ?%not_elem_of_nil|by intros [? ?]].
  - intros k. unfold bucket. cbn. by rewrite lookup_empty.
  - intros k. constructor.
  - intros k p. split; [by intros ?%not_elem_of_nil|]. intros (e & He & _). cbn in He. by rewrite lookup_empty in He.
  - intros p e He. cbn in He. by rewrite lookup_empty in He.
  - intros p q e f x He. cbn in He. by rewrite lookup_empty in He.
  - intros p Hp. unfold waiting in Hp. by rewrite map_filter_empty in Hp.
  - cbn. lia.
Qed.

Lemma no_entries s live W E C : cache_ok good s live W E C → (∀ p, view s p = None) → E = [] ∧ ents s = ∅.
Proof.
  intros H Hv. assert (ents s = ∅) as Ee.
  { apply map_eq. intros p. rewrite lookup_empty. destruct (ents s !! p) as [e|] eqn:He; [|done].
    destruct (ck_entry _ _ _ _ _ _ H _ _ He) as [(n & v & Hvp & _) _ _]. by rewrite Hv in Hvp. }
  split; [|done]. destruct E as [|p E]; [done|]. destruct (proj1 (ck_dom _ _ _ _ _ _ H p)) as [e He]; [by left|]. by rewrite Ee in He.
Qed.

Lemma table_request : Sheep.request_ok TABLE_SIZE.
Proof. unfold Sheep.request_ok, TABLE_SIZE, HASH_SIZE. lia. Qed.

Lemma init_cache_ok h hlimit :
  h_inv h ∅ → 0 < hlimit →
  ∃ s tbl, init_cache (fresh_shm h) hlimit = Some (s, tbl) ∧
    (tbl = 0 ∧ hash s = in_progress ∨ tbl = hash s ∧ heap_limit s = hlimit ∧ (∀ p, view s p = None) ∧ ∃ live E C, procs_ok s ∅ live E C).
Proof.
  intros Hi Hl. unfold init_cache. rewrite (proj2 (Z.eqb_neq hlimit 0)) by lia. cbn [hash set_limit fresh_shm Z.eqb].
  pose proof (empty_ok h hlimit Hi Hl) as H0.
  destruct (malloc_cache_ok _ _ _ _ _ _ _ H0 table_request) as (s1 & r & l1 & E1 & C1 & Em & Hev & Hsub & Hr). rewrite Em. cbn [mbind option_bind].
  destruct r as [p|]; [|eexists _, _; split; [done|]; by left]. destruct Hr as (_ & H1 & N).
  eexists _, _. split; [done|]. right. split; [done|]. assert (fixed s1 = (hlimit, 0)) as Ef by apply Hev. injection Ef as El Eh.
  assert (∀ q, view s1 q = None) as Hnone.
  { intros q. destruct (ev_view _ _ _ _ Hev q) as [?| ->]; [done|]. unfold view. cbn. by rewrite lookup_empty. }
  split; [done|]. split; [exact Hnone|]. exists (<[p := TABLE_SIZE]> l1), [], (λ _, []).
  destruct (no_entries _ _ _ _ _ H1 Hnone) as [-> Ee]. destruct N as [Nl Nu Ns Nr _].
  destruct H1 as [[M1 M2 M3 M4 M5 M6 M7] L D Hh Hn Hc He Ho Hw Hli].
  split; [|intros q n c Hq; change (view s1 q = Some (n, InProgress, c)) in Hq; by rewrite Hnone in Hq|done|by rewrite <- El in Hl]. constructor; try done.
  - constructor; try done. intros _. cbn. rewrite Ee. by rewrite lookup_insert_eq, lookup_empty.
  - destruct L as [L1 L2 L3 L4]. by constructor.
  - intros k. constructor.
  - intros k q. cbn. rewrite Ee. split; [by intros ?%not_elem_of_nil|]. intros (e & Heq & _). by rewrite lookup_empty in Heq.
  - intros q e. cbn. rewrite Ee. by rewrite lookup_empty.
Qed.

(** ** Calls *)

Lemma procs_fixed s s' ws ws' live E C live' E' C' :
  procs_ok s ws live E C → cache_ok good s' live' (waiting ws') E' C' → solo s' C' → fixed s' = fixed s → procs_ok s' ws' live' E' C'.
Proof. unfold fixed. intros [_ _ Hh Hl] H' Hs' [= El Eh]. split; [done|done|by rewrite Eh|by rewrite El]. Qed.

Lemma relinked_fixed (s s' : shm) : relinked s s' → fixed s' = fixed s.
Proof. intros R. apply (kp_limit _ _ (relinked_keeps _ _ R)). Qed.

Lemma procs_keeps s s' ws live E C live' E' C' :
  procs_ok s ws live E C → cache_ok good s' live' (waiting ws) E' C' → (∀ k, C' k `sublist_of` C k) → keeps s s' → procs_ok s' ws live' E' C'.
Proof.
  intros H H' Hsub K. eapply procs_fixed; [exact H|done| |apply K]. by eapply (solo_after_keeps s s'); [apply H| |apply H| |].
Qed.

Lemma lookup_procs s ws live E C name :
  procs_ok s ws live E C →
  ∃ s' r, shmcache_lookup_worker s name = Some (s', r) ∧ (∃ E', procs_ok s' ws live E' C) ∧ relinked s s' ∧
    match r with
    | None => cached s C name = None ∧ s' = s
    | Some (p, res) => cached s C name = Some p ∧ ∃ v c e, view s p = Some (name, v, c) ∧ ents s' !! p = Some e ∧ result e = res ∧ read_value s' res = Some v
    end.
Proof.
  intros H. pose proof (lookup_worker_ok _ _ _ _ _ _ name (po_cache _ _ _ _ _ H)) as Hl. destruct (cached s C name) as [p|] eqn:Ec.
  - destruct Hl as (s' & e & E' & El & He & R & H'). exists s', (Some (p, result e)). split; [done|].
    split; [|split; [done|]].
    + exists E'. eapply procs_keeps; [exact H|exact H'|done|by apply relinked_keeps].
    + split; [done|]. destruct (cached_some _ _ _ _ Ec) as (_ & v & c & Hv). exists v, c, e. split; [done|]. split; [done|]. split; [done|].
      rewrite <- (relinked_view _ _ _ R) in Hv. destruct (view_entry _ _ _ Hv) as (e' & He' & _ & Hr & _). rewrite He in He'. by injection He' as <-.
  - exists s, None. split; [done|]. split; [by exists E|]. split; [reflexivity|done].
Qed.

Lemma fits_value s ws live E C name mapped p v c :
  procs_ok s ws live E C → fits s name mapped → cached s C name = Some p → view s p = Some (name, v, c) → v = InProgress ∨ v = value_of mapped.
Proof.
  intros H Hf Hc Hv. destruct (lookup_procs _ _ _ _ _ name H) as (s' & r & El & _ & R & Hr). destruct r as [[q res]|]; [|destruct Hr; congruence].
  destruct Hr as (Hc' & v' & c' & e & Hv' & He & Hres & Hread). rewrite Hc in Hc'. injection Hc' as <-. rewrite Hv in Hv'. injection Hv' as <- <-.
  destruct (Hf _ _ _ El) as [Hip|Hsame]; [left|right; congruence]. rewrite Hip in Hread. unfold read_value in Hread. rewrite Z.eqb_refl in Hread. destruct (in_progress =? 0) eqn:E0; [|congruence].
  apply Z.eqb_eq in E0. destruct (po_hash _ _ _ _ _ H) as [Hz1 Hz2].
  destruct (mo_table _ _ (ck_mem _ _ _ _ _ _ (po_cache _ _ _ _ _ H)) Hz1) as [T _].
  pose proof (h_range_law _ _ _ (mo_heap _ _ (ck_mem _ _ _ _ _ _ (po_cache _ _ _ _ _ H))) (mk_is_Some _ _ T)). unfold in_progress in E0. lia.
Qed.

Lemma settled_value s ws live E C name p c :
  procs_ok s ws live E C → settled s name → cached s C name = Some p → view s p = Some (name, InProgress, c) → False.
Proof.
  intros H Hf Hc Hv. destruct (lookup_procs _ _ _ _ _ name H) as (s' & r & El & _ & R & Hr). destruct r as [[q res]|]; [|destruct Hr; congruence].
  destruct Hr as (Hc' & v' & c' & e & Hv' & He & Hres & Hread). rewrite Hc in Hc'. injection Hc' as <-. rewrite Hv in Hv'. injection Hv' as <- <-.
  apply (Hf _ _ _ El). by eapply read_in_progress.
Qed.

Lemma add_procs s ws live E C name v :
  procs_ok s ws live E C → good name v → short name → short_value v →
  (∀ q c, cached s C name = Some q → view s q = Some (name, InProgress, c) → False) →
  ∃ s' r live' E' C', shmcache_add_new s name v = Some (s', r) ∧ procs_ok s' ws live' E' C' ∧
    (r = -1 ∨ r = 0 ∧ ∃ p, view s' p = Some (name, v, 0) ∧ cached s' C' name = Some p).
Proof.
  intros H Hg Hn Hv Hno. pose proof H as [Hc Hs _ _].
  destruct (add_new_ok _ _ _ _ _ _ _ _ Hc Hg Hn Hv) as (s' & r & live' & E' & C' & Ea & H' & Hr).
  exists s', r, live', E', C'. split; [done|]. destruct Hr as [(-> & K & Hsub)|(-> & p & C0 & Had & -> & Hsub)].
  - split; [by eapply procs_keeps|by left].
  - split; [|right; split; [done|]; exists p; split; apply Had].
    eapply procs_fixed; [exact H|done| |apply Had]. by apply (solo_added s s' C C0 live (waiting ws) E live' (waiting ws) E' name v p).
Qed.

Lemma update_procs s ws live E C name mapped :
  procs_ok s ws live E C → good name (value_of mapped) → short_value (value_of mapped) → fits s name mapped →
  match cached s C name with
  | None => shmcache_add_update s name mapped = Some (s, -1)
  | Some p => ∃ s' r, shmcache_add_update s name mapped = Some (s', r) ∧
      (r = 0 ∧ (∃ c live' E' C', procs_ok s' ws live' E' C' ∧ updated s s' C' name (value_of mapped) p c) ∨ r = -1)
  end.
Proof.
  intros H Hg Hs Hf. pose proof H as [Hc Hso _ _]. pose proof (cache_update_ok _ _ _ _ _ _ name mapped Hc Hg Hs) as Hu.
  destruct (cached s C name) as [p|] eqn:Ec; [|done]. destruct (cached_some _ _ _ _ Ec) as (_ & v & c & Hv).
  assert (∃ s' r, shmcache_add_update s name mapped = Some (s', r) ∧
    (r = 0 ∧ (∃ live' E' C', cache_ok good s' live' (waiting ws) E' C' ∧ updated s s' C' name (value_of mapped) p c ∧ ∀ k, C' k `sublist_of` C k) ∨
     r = -1 ∧ mapped ≠ None)) as (s' & r & E' & Hr).
  { destruct (fits_value _ _ _ _ _ _ _ _ _ _ H Hf Ec Hv) as [-> | ->]; [by apply Hu|].
    destruct (cache_same_ok _ _ _ _ _ _ _ _ _ _ Hc (or_introl eq_refl) Hg Hs Ec Hv) as (s' & l' & E' & C' & Ea & Hrest).
    exists s', 0. split; [done|]. left. split; [done|]. eauto. }
  exists s', r. split; [done|]. destruct Hr as [(-> & live' & E2 & C' & H' & Hup & Hsub)|[-> _]]; [left|by right]. split; [done|]. exists c, live', E2, C'. split; [|done].
  pose proof Hup as [U1 U2 U3 U4 U5]. eapply procs_fixed; [exact H|done| |done].
  eapply solo_keeps; [exact Hc|exact H'|done|done| |].
  - intros q n c' Hq. destruct (decide (q = p)) as [-> | Hne]; [rewrite U1 in Hq; by destruct mapped|].
    destruct (U4 q Hne) as [Eq|Eq]; rewrite Eq in Hq; [done|eauto].
  - intros q n v' c' Hq. destruct (decide (q = p)) as [-> | Hne]; [rewrite U1 in Hq; injection Hq as <- <- <-; eauto|].
    destruct (U4 q Hne) as [Eq|Eq]; rewrite Eq in Hq; [done|eauto].
Qed.

(** A process begins or ends to wait for [p]. *)
Lemma pending_procs s ws ws' live E C p e d :
  procs_ok s ws live E C → ents s !! p = Some e → (∀ q, waiting ws' q = (if decide (q = p) then d else 0) + waiting ws q) →
  ∃ s', upd s p (λ e, set_pending (pending_count e + d) e) = Some s' ∧ procs_ok s' ws' live E C ∧
    (∀ q, waitfor_poll s' q = waitfor_poll s q) ∧ fixed s' = fixed s.
Proof.
  intros [H Hs Hh Hli] He Hw. destruct (ck_entry _ _ _ _ _ _ H _ _ He) as [(n & v & Hv & _ & Hg) _ Hwp].
  destruct (view_entry _ _ _ Hv) as (e' & He' & Hn & Hr & _). rewrite He in He'. injection He' as <-. cbn in Hn, Hr.
  rewrite (upd_put _ _ _ _ He). eexists. split; [done|].
  destruct (change_entry _ s live (waiting ws) (waiting ws') E C p e (result e) (pending_count e + d) v n H He Hn Hr Hg) as [H' Hv'].
  { auto. }
  { intros q Hq. rewrite Hw, decide_False by done. lia. }
  { rewrite Hw, decide_True by done. lia. }
  change (set_pending (pending_count e + d) e) with (with_result (result e) (pending_count e + d) e).
  split; [|split; [|done]].
  - split; [done| |done|done]. eapply solo_keeps; [exact H|exact H'|done|done| |].
    + intros q n' c' Hq. destruct (decide (q = p)) as [-> | Hne]; [rewrite Hv' in Hq; injection Hq as <- -> _; eauto|rewrite put_view in Hq by done; eauto].
    + intros q n' v' c' Hq. destruct (decide (q = p)) as [-> | Hne]; [rewrite Hv' in Hq; injection Hq as <- -> _; eauto|rewrite put_view in Hq by done; eauto].
  - intros q. unfold waitfor_poll. cbn. destruct (decide (q = p)) as [-> | Hne]; [by rewrite lookup_insert_eq, He|by rewrite lookup_insert_ne].
Qed.

Lemma lookup_or_add_procs s ws live E C name :
  procs_ok s ws live E C → short name →
  ∃ s' r, shmcache_lookup_or_add (hash s) s name = Some (s', r) ∧ (∃ live' E' C', procs_ok s' ws live' E' C') ∧
    match r with Some v => good name v ∧ ∃ p c, cached s C name = Some p ∧ view s p = Some (name, v, c) | None => cached s C name = None end.
Proof.
  intros H Hn. unfold shmcache_lookup_or_add. rewrite on_table_ok by apply H.
  destruct (lookup_procs _ _ _ _ _ name H) as (s1 & r & El & [E1 H1] & R & Hr). rewrite El. cbn [mbind option_bind]. destruct r as [[p res]|].
  - destruct Hr as (Hc & v & c & e & Hv & _ & _ & Hread). rewrite Hread. cbn. exists s1, (Some v). split; [done|]. split; [eauto|].
    split; [by eapply view_chain; [apply H|]|eauto].
  - destruct Hr as [Hc ->]. destruct (add_procs s ws live E C name InProgress H (or_introl eq_refl) Hn I) as (s2 & r2 & l2 & E2 & C2 & Ea & H2 & _).
    { intros q c Hq. congruence. }
    rewrite Ea. cbn. exists s2, None. split; [done|]. eauto.
Qed.

Lemma begin_procs s ws live E C name pid :
  procs_ok s ws live E C → ws !! pid = None →
  ∃ s' r, waitfor_begin (hash s) s name = Some (s', r) ∧
    match r with
    | Some (entry, true) => ∃ E', procs_ok s' (<[pid := entry]> ws) live E' C
    | _ => ∃ E', procs_ok s' ws live E' C
    end.
Proof.
  intros H Hp. unfold waitfor_begin. rewrite on_table_ok by apply H.
  destruct (lookup_procs _ _ _ _ _ name H) as (s1 & r & El & [E1 H1] & R & Hr). rewrite El. cbn [mbind option_bind].
  destruct r as [[p res]|]; [|exists s1, None; eauto]. destruct Hr as (_ & v & c & e & _ & He & Hres & _). destruct (res =? in_progress); [|eexists _, (Some (p, false)); eauto].
  destruct (pending_procs s1 ws (<[pid := p]> ws) live E1 C p e 1 H1 He) as (s2 & E2 & H2 & _); [intros q; by apply waiting_insert|].
  rewrite E2. cbn. eexists _, (Some (p, true)). eauto.
Qed.

Lemma waiter_procs s ws live E C pid p :
  procs_ok s ws live E C → ws !! pid = Some p →
  ∃ e s', ents s !! p = Some e ∧ waitfor_end s p = Some s' ∧ procs_ok s' (delete pid ws) live E C.
Proof.
  intros H Hw. destruct (proj1 (ck_dom _ _ _ _ _ _ (po_cache _ _ _ _ _ H) p)) as [e He].
  { apply (ck_wait _ _ _ _ _ _ (po_cache _ _ _ _ _ H)). rewrite (waiting_delete _ _ _ p Hw), decide_True by done. unfold waiting. lia. }
  destruct (pending_procs s ws (delete pid ws) live E C p e (-1) H He) as (s' & E' & H' & _).
  { intros q. rewrite (waiting_delete _ _ _ q Hw). destruct (decide (q = p)); lia. }
  exists e, s'. split; [done|]. split; [|done]. exact E'.
Qed.

Lemma reach_ok s ws : reach s ws → ∃ live E C, procs_ok s ws live E C.
Proof.
  induction 1 as [h hlimit s tbl Hi Hl Hc Ht|s ws name s' r _ (l & E & C & H) Hs|s ws name s' r _ (l & E & C & H) Hn Hs
    |s ws name v s' r _ (l & E & C & H) Hn Hv Ha Hp Hse Hs|s ws name mapped s' r _ (l & E & C & H) Hv Ha Hf Hs Hr
    |s ws name pid s' entry _ (l & E & C & H) Hp Hs|s ws name s' r _ (l & E & C & H) Hs Hr|s ws pid entry v s' _ (l & E & C & H) Hw _ _ Hs].
  - destruct (init_cache_ok h hlimit Hi Hl) as (s2 & t2 & E2 & Hr). rewrite E2 in Hc. injection Hc as -> ->. destruct Hr as [[? _]|(_ & _ & _ & ?)]; done.
  - unfold shmcache_lookup in Hs. rewrite on_table_ok in Hs by apply H. destruct (lookup_procs _ _ _ _ _ name H) as (s1 & r1 & El & [E1 H1] & _).
    rewrite El in Hs. injection Hs as <- _. eauto.
  - destruct (lookup_or_add_procs _ _ _ _ _ name H Hn) as (s1 & r1 & El & (l1 & E1 & C1 & H1) & _). rewrite El in Hs. injection Hs as <- _. eauto.
  - unfold shmcache_add in Hs. rewrite on_table_ok in Hs by apply H.
    destruct (add_procs s ws l E C name v H (or_intror Ha) Hn Hv) as (s1 & r1 & l1 & E1 & C1 & El & H1 & _).
    { intros q c Hq Hvq. by eapply settled_value. }
    rewrite El in Hs. injection Hs as <- _. eauto.
  - unfold shmcache_update in Hs. rewrite on_table_ok in Hs by apply H.
    pose proof (update_procs s ws l E C name mapped H (or_intror Ha) Hv Hf) as Hu. destruct (cached s C name) as [p|].
    + destruct Hu as (s1 & r1 & El & Hr1). rewrite El in Hs. injection Hs as <- <-. destruct Hr1 as [(_ & c & l1 & E1 & C1 & H1 & _)|Hm1]; [eauto|].
      destruct Hr as [?| ->]; [congruence|eauto].
    + rewrite Hu in Hs. injection Hs as <- _. eauto.
  - destruct (begin_procs _ _ _ _ _ name pid H Hp) as (s1 & r1 & El & Hr1). rewrite El in Hs. injection Hs as <- ->. destruct Hr1. eauto.
  - destruct (begin_procs _ _ _ _ _ name (fresh (dom ws)) H) as (s1 & r1 & El & Hr1).
    { apply not_elem_of_dom, is_fresh. }
    rewrite El in Hs. injection Hs as <- <-. destruct r1 as [[entry []]|]; [by destruct (Hr entry)|destruct Hr1; eauto|destruct Hr1; eauto].
  - destruct (waiter_procs _ _ _ _ _ _ _ H Hw) as (e & s1 & _ & E1 & H1). rewrite E1 in Hs. injection Hs as <-. eauto.
Qed.

Lemma poll_value (s : shm) p n v c : view s p = Some (n, v, c) → waitfor_poll s p = Some v.
Proof. intros Hv. destruct (view_entry _ _ _ Hv) as (e & He & _ & Hr & _). unfold waitfor_poll. by rewrite He. Qed.

(** The name of an entry. *)
Definition entry_name (s : shm) (p : Z) : option bytes := e ← ents s !! p; strs s !! libname e.

Lemma waiter_view s ws live E C pid p :
  procs_ok s ws live E C → ws !! pid = Some p → ∃ n v c, view s p = Some (n, v, c) ∧ entry_name s p = Some n ∧ good n v.
Proof.
  intros H Hw. destruct (waiter_procs _ _ _ _ _ _ _ H Hw) as (e & _ & He & _). destruct (ck_entry _ _ _ _ _ _ (po_cache _ _ _ _ _ H) _ _ He) as [(n & v & Hv & _ & Hg) _ _].
  exists n, v, (pending_count e). split; [done|]. split; [|done]. destruct (view_entry _ _ _ Hv) as (e' & He' & Hn & _).
  unfold entry_name. rewrite He'. exact Hn.
Qed.

(** ** Theorems *)


(** when a process has stored the answer for a name, the next process that looks the name up
    gets this answer, and so does every process that was waiting for it; no other name is affected as long as it is in
    progress or waited for. *)
Theorem shmcache_serves s ws name mapped s' :
  reach s ws → short name → short_value (value_of mapped) → answer name (value_of mapped) → fits s name mapped →
  shmcache_update (hash s) s name mapped = Some (s', 0) →
  (∃ s2, shmcache_lookup_or_add (hash s') s' name = Some (s2, Some (value_of mapped))) ∧
  ∀ pid entry, ws !! pid = Some entry → waitfor_poll s entry = Some InProgress →
    if decide (entry_name s entry = Some name) then waitfor_poll s' entry = Some (value_of mapped)
    else waitfor_poll s' entry = Some InProgress ∧ entry_name s' entry = entry_name s entry.
Proof.
  intros (live & E & C & H)%reach_ok Hsn Hv Ha Hf Hu. unfold shmcache_update in Hu. rewrite on_table_ok in Hu by apply H.
  pose proof (update_procs s ws live E C name mapped H (or_intror Ha) Hv Hf) as Hup. destruct (cached s C name) as [p|] eqn:Ec; [|congruence].
  destruct Hup as (s1 & r & E1 & Hr). rewrite E1 in Hu. injection Hu as -> ->. destruct Hr as [(_ & c & l1 & E' & C' & H' & [U1 U2 U3 U4 U5])|?]; [|done]. split.
  - destruct (lookup_or_add_procs _ _ _ _ _ name H' Hsn) as (s2 & r2 & El & _ & Hr2). exists s2. rewrite El.
    destruct r2 as [v|]; [|congruence]. destruct Hr2 as (_ & q & c2 & Hq & Hvq). rewrite U2 in Hq. injection Hq as <-. rewrite U1 in Hvq. by injection Hvq as <- _.
  - intros pid entry Hw Hpoll. destruct (waiter_view _ _ _ _ _ _ _ H Hw) as (n & v & c2 & Hve & Hne & _).
    pose proof (poll_value _ _ _ _ _ Hve) as Hp2. rewrite Hpoll in Hp2. injection Hp2 as <-. rewrite Hne. case_decide as Hd.
    + injection Hd as ->. pose proof (po_solo _ _ _ _ _ H _ _ _ Hve) as Hso. rewrite Ec in Hso. injection Hso as <-. by eapply poll_value.
    + assert (view s' entry = Some (n, InProgress, c2)) as Hv'.
      { apply U3; [|done|by left]. intros ->. destruct (cached_some _ _ _ _ Ec) as (_ & v0 & c0 & Hv0). rewrite Hve in Hv0. congruence. }
      split; [by eapply poll_value|]. destruct (view_entry _ _ _ Hv') as (e & He & Hn & _). unfold entry_name. rewrite He. exact Hn.
Qed.

End Procs.
(** ** Examples *)

Section Examples.
#[local] Instance small_heap : SharedHeap Sheep.sheep := sheep_heap 12288 false.

Definition na : bytes := lit "a".
Definition va : bytes := lit "r".
Definition says (n : bytes) (v : value) : Prop := n = na ∧ v = Mapped va.

(** A process waits for [na], which another one has asked for. *)
Lemma waiting_state : ∃ s, reach says s {[ 1%nat := 4160 ]} ∧ fits s na (Some va) ∧ entry_name s 4160 = Some na ∧
  waitfor_poll s 4160 = Some InProgress ∧ ∃ s', shmcache_update (hash s) s na (Some va) = Some (s', 0).
Proof.
  destruct (Sheep.init_sheep 12288 false) as [h|] eqn:Eh; [|discriminate Eh].
  pose proof (Sheep.client_init 12288 false h Eh : h_inv (A := Sheep.sheep) h ∅) as H0. vm_compute in Eh. injection Eh as <-.
  eapply (reach_init says _ 4400) in H0; [|lia|vm_compute; reflexivity|discriminate].
  eapply (reach_lookup_or_add says _ _ na) in H0; [|vm_compute; split; reflexivity|vm_compute; reflexivity].
  eapply (reach_wait says _ _ na 1) in H0; [|reflexivity|vm_compute; reflexivity].
  eexists. split; [exact H0|]. split; [|split; [|split; [|eexists]]]; [|vm_compute; reflexivity..].
  intros s' p r Hl. vm_compute in Hl. injection Hl as _ _ <-. left. reflexivity.
Qed.


Lemma shmcache_serves_witness :
  ∃ s s', reach says s {[ 1%nat := 4160 ]} ∧ shmcache_update (hash s) s na (Some va) = Some (s', 0) ∧
    waitfor_poll s 4160 = Some InProgress ∧ waitfor_poll s' 4160 = Some (Mapped va).
Proof.
  destruct waiting_state as (s & Hr & Hf & Hn & Hp & s' & Hu). exists s, s'. split; [exact Hr|]. split; [exact Hu|]. split; [exact Hp|].
  destruct (shmcache_serves says s {[ 1%nat := 4160 ]} na (Some va) s' Hr) as [_ H].
  - vm_compute. split; reflexivity.
  - vm_compute. split; reflexivity.
  - split; reflexivity.
  - exact Hf.
  - exact Hu.
  - specialize (H 1%nat 4160 eq_refl Hp). rewrite Hn in H. exact H.
Defined.

(** ** What goes wrong *)

(** A cache of a given limit, and calls of it. *)
Definition start (hlimit : Z) : option (shm (A := Sheep.sheep) * Z) :=
  h ← Sheep.init_sheep 12288 false; init_cache (fresh_shm h) hlimit.

(** When the table does not fit, the first process goes on without it.  The next one takes the mark for the
    failure to be the table. *)
Lemma failed_table_is_used :
  ∃ s tbl, start 4000 = Some (s, 0) ∧ init_cache s 4000 = Some (s, tbl) ∧ tbl ≠ 0 ∧ shmcache_lookup tbl s na = None.
Proof. eexists _, _. split; [vm_compute; reflexivity|]. split; [vm_compute; reflexivity|]. split; [discriminate|reflexivity]. Qed.

(** An update of a name that has its answer frees the answer before it looks for memory, and the search for memory may
    throw out the entry itself: its answer is freed twice. *)
Lemma second_update_frees_twice :
  ∃ s0 s1 s2 tbl, start 4208 = Some (s0, tbl) ∧ shmcache_lookup_or_add tbl s0 na = Some (s1, None) ∧
    shmcache_update tbl s1 na (Some va) = Some (s2, 0) ∧ shmcache_update tbl s2 na (Some (lit "a longer result name")) = None.
Proof. eexists _, _, _, _. do 3 (split; [vm_compute; reflexivity|]). vm_compute. reflexivity. Qed.

(** An update that finds no memory leaves an entry in the wrong bucket; the next process that needs memory
    follows a null pointer when it looks for it. *)
Lemma failed_update_breaks_bucket :
  ∃ s0 s1 s2 tbl, start 4184 = Some (s0, tbl) ∧ shmcache_lookup_or_add tbl s0 na = Some (s1, None) ∧
    shmcache_update tbl s1 na (Some va) = Some (s2, -1) ∧ shmcache_lookup_or_add tbl s2 (lit "b") = None.
Proof. eexists _, _, _, _. do 3 (split; [vm_compute; reflexivity|]). vm_compute. reflexivity. Qed.

(** The pointer that [shmcache_lookup] gives is read after the lock is released, when another process may have
    thrown the string out. *)
Lemma lookup_result_dangles :
  ∃ s0 s1 s2 s3 tbl p, start 4208 = Some (s0, tbl) ∧ shmcache_add tbl s0 na (Mapped va) = Some (s1, 0) ∧
    shmcache_lookup tbl s1 na = Some (s2, Some p) ∧ shmcache_lookup_or_add tbl s2 (lit "b") = Some (s3, None) ∧
    is_Some (strs s2 !! p) ∧ read_value s3 p ≠ Some (Mapped va).
Proof.
  eexists _, _, _, _, _, _. do 4 (split; [vm_compute; reflexivity|]). split; [eexists; vm_compute; reflexivity|]. vm_compute. discriminate.
Qed.

End Examples.

End ShmcacheProcs.
