(* ===== verification/Requestors.v ===== *)
(** * Requestor lists (ldcs_audit_server_requestors.c)

    For every file, directory or piece of metadata a server is waiting for it
    keeps the peers that asked for it.  The C code keeps them in a hash table of
    1024 chains; each chain entry owns a growable array of peers.  The model
    keeps the table, the chains in their order and the capacity of each array,
    and the refinement theorem at the end relates it to a finite map from names
    to duplicate-free lists of peers. *)

From Stdlib Require Import Ascii String ZArith Lia.
From stdpp Require Import strings numbers gmap list.
From S2P Require Import Prelude Bytes.

(** ** The interface the message handlers use *)

(** [node_peer_t]: the special peers of ldcs_audit_server_md.h and
    msgbundle.c, any other value being the handle of a connection. *)
Abbreviation node_peer_t := Z.

Definition NODE_PEER_NULL : node_peer_t := 0.
Definition NODE_PEER_CLIENT : node_peer_t := 1.
Definition NODE_PEER_ALL : node_peer_t := 2.

(** Adding a peer keeps the list duplicate free and in order of arrival. *)
Definition add_peer (peer : node_peer_t) (ps : list node_peer_t) : list node_peer_t :=
  if decide (peer ∈ ps) then ps else ps ++ [peer].

(** What a requestor list promises: it is a finite map from names to
    duplicate-free lists of peers. *)
Class RequestorStore (T : Type) := {
  rs_new : T;
  rs_add : T → bytes → node_peer_t → T;
  rs_clear : T → bytes → T;
  rs_get : T → bytes → option (list node_peer_t);
  rs_wf : T → Prop;
  rs_new_wf : rs_wf rs_new;
  rs_add_wf t f p : rs_wf t → rs_wf (rs_add t f p);
  rs_clear_wf t f : rs_wf t → rs_wf (rs_clear t f);
  rs_get_new f : rs_get rs_new f = None;
  rs_get_add t f p g : rs_wf t →
    rs_get (rs_add t f p) g =
      if decide (f = g) then Some (add_peer p (default [] (rs_get t f)))
      else rs_get t g;
  rs_get_clear t f g : rs_wf t →
    rs_get (rs_clear t f) g = if decide (f = g) then None else rs_get t g;
}.

(** ** The hash table *)

Module Requestors.

Record requested_file := mk_requested_file {
  path : bytes;
  hash_val : nat;
  requestors_size : nat;            (** capacity of the array *)
  requestors : list node_peer_t;    (** its first [requestors_num] elements *)
}.

Definition requestors_num (r : requested_file) : nat := length (requestors r).

Definition INITIAL_PEER_SIZE : nat := 8.
Definition REQUESTORS_TABLE_SIZE : nat := 1024.

(** [requested_file_t **]: one chain per hash value. *)
Abbreviation table := (list (list requested_file)).

Definition new_requestor_list : table := replicate REQUESTORS_TABLE_SIZE [].

(** [hash = ((hash << 5) + hash) + c] on [unsigned int], with the
    sign-extended [char] converted to [unsigned int]. *)
Fixpoint hash_loop (hash : Z) (str : bytes) : Z :=
  match str with
  | [] => hash
  | ch :: str' =>
      let c := wrap32 (schar_val ch) in
      if c =? 0 then hash
      else hash_loop (wrap32 (wrap32 (wrap32 (Z.shiftl hash 5) + hash) + c)) str'
  end.

Definition hashval (str : bytes) : nat :=
  Z.to_nat (hash_loop 5381 str mod Z.of_nat REQUESTORS_TABLE_SIZE).

(** The test of the chain walk. *)
Definition entry_matches (val : nat) (file : bytes) (cur : requested_file) : bool :=
  Nat.eqb (hash_val cur) val && bool_decide (path cur = file).

Definition chain_of (rl : table) (val : nat) : list requested_file :=
  default [] (rl !! val).

(** [get_requestor] with [add = 0]. *)
Definition lookup_requestor (rl : table) (file : bytes) : option requested_file :=
  List.find (entry_matches (hashval file) file) (chain_of rl (hashval file)).

Definition fresh_entry (val : nat) (file : bytes) : requested_file :=
  mk_requested_file file val INITIAL_PEER_SIZE [].

(** [get_requestor]: with [add] a missing entry is pushed on its chain. *)
Definition get_requestor (rl : table) (file : bytes) (add : bool)
    : table * option requested_file :=
  let val := hashval file in
  match lookup_requestor rl file with
  | Some cur => (rl, Some cur)
  | None =>
      if add then
        let cur := fresh_entry val file in
        (<[val := cur :: chain_of rl val]> rl, Some cur)
      else (rl, None)
  end.

Definition been_requested (rl : table) (file : bytes) : bool :=
  bool_decide (is_Some (snd (get_requestor rl file false))).

(** The body of [add_requestor] on the entry: the duplicate scan, the growth of
    the array and the store.  [None] stands for a store out of bounds. *)
Definition append_peer (cur : requested_file) (peer : node_peer_t)
    : option requested_file :=
  if existsb (Z.eqb peer) (requestors cur) then Some cur
  else
    let size := if Nat.eqb (requestors_num cur) (requestors_size cur)
                then (requestors_size cur * 2)%nat else requestors_size cur in
    if (requestors_num cur <? size)%nat
    then Some (mk_requested_file (path cur) (hash_val cur) size (requestors cur ++ [peer]))
    else None.

(** Replaces the entry the pointer [cur] designates, the first match of the chain. *)
Fixpoint update_first (f : requested_file → bool) (new : requested_file)
    (chain : list requested_file) : list requested_file :=
  match chain with
  | [] => []
  | c :: chain' => if f c then new :: chain' else c :: update_first f new chain'
  end.

Definition set_entry (rl : table) (file : bytes) (new : requested_file) : table :=
  let val := hashval file in
  <[val := update_first (entry_matches val file) new (chain_of rl val)]> rl.

Definition add_requestor_opt (rl : table) (file : bytes) (peer : node_peer_t)
    : option table :=
  match get_requestor rl file true with
  | (rl1, Some cur) => new ← append_peer cur peer; Some (set_entry rl1 file new)
  | (_, None) => None
  end.

(** [add_requestor]; [add_requestor_in_bounds] below shows that the store
    never leaves the array on a well-formed table. *)
Definition add_requestor (rl : table) (file : bytes) (peer : node_peer_t) : table :=
  default rl (add_requestor_opt rl file peer).

Definition get_requestors (rl : table) (file : bytes) : option (list node_peer_t) :=
  requestors <$> snd (get_requestor rl file false).

(** The nested loops of [get_requestors2]: what the first list lacks is
    appended in the order of the second. *)
Definition combine_requestors (l1 l2 : list node_peer_t) : list node_peer_t :=
  l1 ++ List.filter (λ p, negb (existsb (Z.eqb p) l1)) l2.

Definition get_requestors2 (rl rl2 : table) (file : bytes)
    : option (list node_peer_t) :=
  match snd (get_requestor rl file false), snd (get_requestor rl2 file false) with
  | None, None => None
  | req1, req2 =>
      Some (combine_requestors (default [] (requestors <$> req1))
                               (default [] (requestors <$> req2)))
  end.

(** Unlinking of the first match of a chain. *)
Fixpoint remove_first (f : requested_file → bool) (chain : list requested_file)
    : list requested_file :=
  match chain with
  | [] => []
  | c :: chain' => if f c then chain' else c :: remove_first f chain'
  end.

Definition clear_requestor (rl : table) (file : bytes) : table :=
  match get_requestor rl file false with
  | (_, Some cur) =>
      <[hash_val cur :=
          remove_first (entry_matches (hashval file) file) (chain_of rl (hash_val cur))]> rl
  | (_, None) => rl
  end.

Definition peer_requested (rl : table) (file : bytes) (peer : node_peer_t) : bool :=
  match snd (get_requestor rl file false) with
  | None => false
  | Some cur => existsb (Z.eqb peer) (requestors cur)
  end.

(** ** Well-formedness *)

Definition entry_wf (val : nat) (e : requested_file) : Prop :=
  hash_val e = val ∧ hashval (path e) = val ∧
  (requestors_num e ≤ requestors_size e)%nat ∧ (0 < requestors_size e)%nat ∧
  NoDup (requestors e).

Definition chain_wf (val : nat) (chain : list requested_file) : Prop :=
  Forall (entry_wf val) chain ∧ NoDup (path <$> chain).

Definition wf (rl : table) : Prop :=
  length rl = REQUESTORS_TABLE_SIZE ∧ ∀ val, chain_wf val (chain_of rl val).

Lemma hashval_lt f : (hashval f < REQUESTORS_TABLE_SIZE)%nat.
Proof.
  unfold hashval.
  pose proof (Z.mod_pos_bound (hash_loop 5381 f) (Z.of_nat REQUESTORS_TABLE_SIZE)).
  unfold REQUESTORS_TABLE_SIZE in *. lia.
Qed.

Lemma entry_matches_true val f e :
  entry_matches val f e = true ↔ hash_val e = val ∧ path e = f.
Proof.
  unfold entry_matches. rewrite andb_true_iff, Nat.eqb_eq, bool_decide_eq_true. done.
Qed.

Lemma existsb_eqb_elem p ps : existsb (Z.eqb p) ps = bool_decide (p ∈ ps).
Proof.
  apply Bool.eq_true_iff_eq. rewrite existsb_exists, bool_decide_eq_true.
  setoid_rewrite list_elem_of_In. split.
  - intros (x & Hx & E). by apply Z.eqb_eq in E as ->.
  - intros H. exists p. by rewrite Z.eqb_refl.
Qed.

(** *** Chains *)

Section chain.
  Variables (val : nat) (f : bytes).
  Local Abbreviation M := (entry_matches val f).

Lemma find_path chain e : List.find M chain = Some e → hash_val e = val ∧ path e = f ∧ e ∈ chain.
Proof.
  intros [Hin Hm]%find_some. apply entry_matches_true in Hm as [??].
  by rewrite list_elem_of_In.
Qed.

Lemma find_update_first_eq chain e new :
  List.find M chain = Some e → M new = true → List.find M (update_first M new chain) = Some new.
Proof.
  intros H Hn. induction chain as [|c chain IH]; simpl in *; [done|].
  destruct (M c) eqn:Hc; simpl; [by rewrite Hn|]. rewrite Hc. auto.
Qed.

Lemma find_update_first_ne chain new g :
  f ≠ g → path new = f →
  List.find (entry_matches val g) (update_first M new chain)
  = List.find (entry_matches val g) chain.
Proof.
  intros Hne Hp.
  assert (∀ c, path c = f → entry_matches val g c = false) as Hf.
  { intros c Hc. apply not_true_is_false. rewrite entry_matches_true. naive_solver. }
  induction chain as [|c chain IH]; simpl; [done|].
  destruct (M c) eqn:Hc; simpl.
  - apply entry_matches_true in Hc as [_ Hc]. by rewrite !Hf.
  - by rewrite IH.
Qed.

Lemma update_first_paths chain new :
  path new = f → path <$> update_first M new chain = path <$> chain.
Proof.
  intros Hp. induction chain as [|c chain IH]; simpl; [done|].
  destruct (M c) eqn:Hc; csimpl.
  - apply entry_matches_true in Hc as [_ <-]. by rewrite Hp.
  - by rewrite IH.
Qed.

Lemma update_first_wf chain new :
  entry_wf val new → path new = f → chain_wf val chain → chain_wf val (update_first M new chain).
Proof.
  intros Hn Hp [HF Hnd]. split; [|by rewrite update_first_paths].
  clear Hnd. induction HF as [|c chain ? ? IH]; simpl; [done|].
  destruct (M c); by constructor.
Qed.

Lemma remove_first_subseteq chain : remove_first M chain ⊆ chain.
Proof.
  induction chain as [|c chain IH]; simpl; [done|].
  destruct (M c); set_solver.
Qed.

Lemma remove_first_wf chain : chain_wf val chain → chain_wf val (remove_first M chain).
Proof.
  intros [HF Hnd]. split.
  - rewrite Forall_forall in *. intros x Hx. apply HF. by apply remove_first_subseteq.
  - clear HF. induction chain as [|c chain IH]; csimpl in *; [done|].
    apply NoDup_cons in Hnd as [Hc Hnd]. destruct (M c); csimpl; [done|].
    apply NoDup_cons. split; [|auto].
    intros (x & Hpx & Hx)%list_elem_of_fmap. apply Hc, list_elem_of_fmap.
    exists x. split; [done|]. by apply remove_first_subseteq.
Qed.

Lemma find_remove_first_eq chain :
  NoDup (path <$> chain) → List.find M (remove_first M chain) = None.
Proof.
  induction chain as [|c chain IH]; csimpl; [done|].
  intros [Hc Hnd]%NoDup_cons. destruct (M c) eqn:HM; simpl; [|rewrite HM; auto].
  apply find_none_iff, Forall_forall. intros x Hx.
  apply not_true_is_false. rewrite entry_matches_true. intros [_ Hp].
  apply entry_matches_true in HM as [_ Hpc].
  apply Hc, list_elem_of_fmap. exists x. by rewrite Hpc, Hp.
Qed.

Lemma find_remove_first_ne chain g :
  f ≠ g →
  List.find (entry_matches val g) (remove_first M chain)
  = List.find (entry_matches val g) chain.
Proof.
  intros Hne. induction chain as [|c chain IH]; simpl; [done|].
  destruct (M c) eqn:Hc; simpl; [|by rewrite IH].
  destruct (entry_matches val g c) eqn:Hg; [|done].
  apply entry_matches_true in Hc, Hg. naive_solver.
Qed.
End chain.

(** *** Tables *)

Lemma lookup_requestor_wf rl f e :
  wf rl → lookup_requestor rl f = Some e → path e = f ∧ entry_wf (hashval f) e.
Proof.
  intros [_ Hc] H. unfold lookup_requestor in H.
  apply find_path in H as (_ & Hp & Hin). destruct (Hc (hashval f)) as [HF _].
  rewrite Forall_forall in HF. auto.
Qed.

Lemma chain_of_insert_eq rl v c :
  length rl = REQUESTORS_TABLE_SIZE → (v < REQUESTORS_TABLE_SIZE)%nat →
  chain_of (<[v := c]> rl) v = c.
Proof. intros Hl Hv. unfold chain_of. rewrite list_lookup_insert_eq; [done|lia]. Qed.

Lemma chain_of_insert_ne rl v w c : v ≠ w → chain_of (<[v := c]> rl) w = chain_of rl w.
Proof. intros Hne. unfold chain_of. by rewrite list_lookup_insert_ne. Qed.

Lemma insert_chain_wf rl v c :
  wf rl → (v < REQUESTORS_TABLE_SIZE)%nat → chain_wf v c → wf (<[v := c]> rl).
Proof.
  intros [Hl Hc] Hv H. split; [by rewrite length_insert|]. intros w.
  destruct (decide (v = w)) as [->|]; [by rewrite chain_of_insert_eq|].
  by rewrite chain_of_insert_ne.
Qed.

(** Replacing the chain of [f] by one that only differs on [f]. *)
Lemma lookup_insert_chain rl f c g :
  wf rl →
  (f ≠ g → List.find (entry_matches (hashval f) g) c
           = List.find (entry_matches (hashval f) g) (chain_of rl (hashval f))) →
  lookup_requestor (<[hashval f := c]> rl) g =
    if decide (f = g) then List.find (entry_matches (hashval f) f) c
    else lookup_requestor rl g.
Proof.
  intros [Hl _] Hne. unfold lookup_requestor.
  destruct (decide (f = g)) as [<-|Hfg].
  { by rewrite chain_of_insert_eq by auto using hashval_lt. }
  destruct (decide (hashval f = hashval g)) as [E|E].
  - rewrite <- E, chain_of_insert_eq by auto using hashval_lt. auto.
  - by rewrite chain_of_insert_ne.
Qed.

Lemma append_peer_ok val cur p :
  entry_wf val cur →
  ∃ new, append_peer cur p = Some new ∧ path new = path cur ∧ entry_wf val new ∧
         requestors new = add_peer p (requestors cur).
Proof.
  intros (Hh & Hp & Hn & Hs & Hd). unfold append_peer, add_peer.
  rewrite existsb_eqb_elem. case_bool_decide as Hin.
  { exists cur. rewrite decide_True by done. by repeat split. }
  rewrite decide_False by done.
  unfold requestors_num in *.
  destruct (Nat.eqb _ _) eqn:E; bool_to_prop.
  all: rewrite (proj2 (Nat.ltb_lt _ _)) by lia.
  all: eexists; split; [reflexivity|]; split; [done|]; split; [|done].
  all: unfold entry_wf, requestors_num; simpl; rewrite length_app; simpl.
  all: split_and!; try done; try lia.
  all: apply NoDup_app; split_and!; [done| |apply NoDup_singleton].
  all: intros x Hx ->%list_elem_of_singleton; done.
Qed.

Lemma fresh_chain_wf rl f :
  wf rl → lookup_requestor rl f = None →
  chain_wf (hashval f) (fresh_entry (hashval f) f :: chain_of rl (hashval f)).
Proof.
  intros [_ Hc] Hnone. destruct (Hc (hashval f)) as [HF Hnd]. split.
  - constructor; [|done]. unfold entry_wf, requestors_num, INITIAL_PEER_SIZE; simpl.
    split_and!; [done|done|lia|unfold INITIAL_PEER_SIZE; lia|constructor].
  - csimpl. apply NoDup_cons. split; [|done].
    intros (e & He & Hin)%list_elem_of_fmap.
    unfold lookup_requestor in Hnone. apply find_none_iff in Hnone.
    rewrite Forall_forall in Hnone, HF. specialize (Hnone e Hin).
    destruct (HF e Hin) as [Hh _].
    assert (entry_matches (hashval f) f e = true) by (apply entry_matches_true; auto).
    congruence.
Qed.

(** What [get_requestor] with [add] leaves: a well-formed table holding an entry
    for the file, with the peers it had before. *)
Lemma get_requestor_add rl f :
  wf rl → ∃ rl1 cur, get_requestor rl f true = (rl1, Some cur) ∧ wf rl1 ∧
    lookup_requestor rl1 f = Some cur ∧
    requestors cur = default [] (requestors <$> lookup_requestor rl f) ∧
    ∀ g, f ≠ g → lookup_requestor rl1 g = lookup_requestor rl g.
Proof.
  intros Hwf. unfold get_requestor.
  destruct (lookup_requestor rl f) as [cur|] eqn:E; [by eexists _, _|].
  assert (entry_matches (hashval f) f (fresh_entry (hashval f) f) = true) as Hm.
  { by apply entry_matches_true. }
  assert (∀ g, f ≠ g → entry_matches (hashval f) g (fresh_entry (hashval f) f) = false) as Hg.
  { intros g Hne. apply not_true_is_false. rewrite entry_matches_true. naive_solver. }
  eexists _, _. split_and!; [done| | |done|].
  - apply insert_chain_wf; auto using hashval_lt, fresh_chain_wf.
  - rewrite lookup_insert_chain by (auto; intros; simpl; by rewrite Hg).
    rewrite decide_True by done. simpl. by rewrite Hm.
  - intros g Hne. rewrite lookup_insert_chain by (auto; intros; simpl; by rewrite Hg).
    by rewrite decide_False.
Qed.

Lemma add_requestor_spec rl f p :
  wf rl → ∃ rl', add_requestor_opt rl f p = Some rl' ∧ wf rl' ∧
    ∀ g, requestors <$> lookup_requestor rl' g =
      if decide (f = g) then Some (add_peer p (default [] (requestors <$> lookup_requestor rl f)))
      else requestors <$> lookup_requestor rl g.
Proof.
  intros Hwf.
  destruct (get_requestor_add rl f Hwf) as (rl1 & cur & E & Hwf1 & Hl & Hr & Hg).
  destruct (lookup_requestor_wf _ _ _ Hwf1 Hl) as [Hp Hcur].
  destruct (append_peer_ok _ _ p Hcur) as (new & En & Hpn & Hwn & Hrn).
  unfold add_requestor_opt. rewrite E. simpl. rewrite En. simpl.
  eexists. split; [done|]. unfold set_entry. split.
  { apply insert_chain_wf; auto using hashval_lt.
    apply update_first_wf; [done|congruence|apply Hwf1]. }
  intros g. rewrite lookup_insert_chain; [|done|].
  2:{ intros Hne. rewrite find_update_first_ne; [done..|congruence]. }
  destruct (decide (f = g)) as [<-|Hne].
  - rewrite (find_update_first_eq _ _ _ cur); [simpl; congruence|done|].
    apply entry_matches_true. destruct Hwn as [? _]. split; congruence.
  - by rewrite Hg.
Qed.

Lemma clear_requestor_spec rl f :
  wf rl → wf (clear_requestor rl f) ∧
    ∀ g, lookup_requestor (clear_requestor rl f) g =
      if decide (f = g) then None else lookup_requestor rl g.
Proof.
  intros Hwf. unfold clear_requestor, get_requestor.
  destruct (lookup_requestor rl f) as [cur|] eqn:E.
  - destruct (lookup_requestor_wf _ _ _ Hwf E) as [_ (-> & _)].
    split.
    + apply insert_chain_wf; auto using hashval_lt. apply remove_first_wf, Hwf.
    + intros g. rewrite lookup_insert_chain by (auto using find_remove_first_ne).
      destruct (decide (f = g)); [|done]. apply find_remove_first_eq, Hwf.
  - split; [done|]. intros g. destruct (decide (f = g)); naive_solver.
Qed.

Lemma new_requestor_list_wf : wf new_requestor_list.
Proof.
  split; [apply length_replicate|]. intros v. unfold chain_of, new_requestor_list.
  destruct (decide (v < REQUESTORS_TABLE_SIZE)%nat).
  - rewrite lookup_replicate_2 by done. split; constructor.
  - rewrite lookup_ge_None_2 by (rewrite length_replicate; lia). split; constructor.
Qed.

Lemma lookup_requestor_new f : lookup_requestor new_requestor_list f = None.
Proof.
  unfold lookup_requestor, chain_of, new_requestor_list.
  rewrite lookup_replicate_2 by apply hashval_lt. done.
Qed.

Lemma get_requestors_lookup rl f :
  get_requestors rl f = requestors <$> lookup_requestor rl f.
Proof. unfold get_requestors, get_requestor. by destruct (lookup_requestor rl f). Qed.

Lemma add_requestor_wf rl f p : wf rl → wf (add_requestor rl f p).
Proof.
  intros Hwf. unfold add_requestor.
  by destruct (add_requestor_spec rl f p Hwf) as (rl' & -> & H & _).
Qed.

Lemma clear_requestor_wf rl f : wf rl → wf (clear_requestor rl f).
Proof. intros Hwf. by apply clear_requestor_spec. Qed.

Lemma get_requestors_new f : get_requestors new_requestor_list f = None.
Proof. by rewrite get_requestors_lookup, lookup_requestor_new. Qed.

Lemma get_requestors_add rl f p g :
  wf rl →
  get_requestors (add_requestor rl f p) g =
    if decide (f = g) then Some (add_peer p (default [] (get_requestors rl f)))
    else get_requestors rl g.
Proof.
  intros Hwf. unfold add_requestor.
  destruct (add_requestor_spec rl f p Hwf) as (rl' & -> & _ & H). simpl.
  rewrite !get_requestors_lookup. apply H.
Qed.

Lemma get_requestors_clear rl f g :
  wf rl →
  get_requestors (clear_requestor rl f) g =
    if decide (f = g) then None else get_requestors rl g.
Proof.
  intros Hwf. rewrite !get_requestors_lookup.
  rewrite (proj2 (clear_requestor_spec rl f Hwf)). by destruct (decide (f = g)).
Qed.

#[export] Instance table_store : RequestorStore table := {|
  rs_new := new_requestor_list;
  rs_add := add_requestor;
  rs_clear := clear_requestor;
  rs_get := get_requestors;
  rs_wf := wf;
  rs_new_wf := new_requestor_list_wf;
  rs_add_wf := add_requestor_wf;
  rs_clear_wf := clear_requestor_wf;
  rs_get_new := get_requestors_new;
  rs_get_add := get_requestors_add;
  rs_get_clear := get_requestors_clear;
|}.

(** ** The abstract specification *)

Inductive op :=
  | OpAdd (file : bytes) (peer : node_peer_t)
  | OpClear (file : bytes)
  | OpBeenRequested (file : bytes)
  | OpGetRequestors (file : bytes)
  | OpPeerRequested (file : bytes) (peer : node_peer_t).

Inductive obs :=
  | ObsUnit
  | ObsFlag (b : bool)
  | ObsPeers (ps : option (list node_peer_t)).

Definition impl_step (rl : table) (o : op) : table * obs :=
  match o with
  | OpAdd f p => (add_requestor rl f p, ObsUnit)
  | OpClear f => (clear_requestor rl f, ObsUnit)
  | OpBeenRequested f => (rl, ObsFlag (been_requested rl f))
  | OpGetRequestors f => (rl, ObsPeers (get_requestors rl f))
  | OpPeerRequested f p => (rl, ObsFlag (peer_requested rl f p))
  end.

(** The specification: a finite map from names to lists of peers. *)
Definition spec_step (m : gmap bytes (list node_peer_t)) (o : op)
    : gmap bytes (list node_peer_t) * obs :=
  match o with
  | OpAdd f p => (<[f := add_peer p (default [] (m !! f))]> m, ObsUnit)
  | OpClear f => (delete f m, ObsUnit)
  | OpBeenRequested f => (m, ObsFlag (bool_decide (is_Some (m !! f))))
  | OpGetRequestors f => (m, ObsPeers (m !! f))
  | OpPeerRequested f p => (m, ObsFlag (bool_decide (p ∈ default [] (m !! f))))
  end.

Fixpoint run {S : Type} (step : S → op → S * obs) (s : S) (ops : list op) : list obs :=
  match ops with
  | [] => []
  | o :: ops' => let '(s', r) := step s o in r :: run step s' ops'
  end.

(** The abstraction relation. *)
Definition represents (rl : table) (m : gmap bytes (list node_peer_t)) : Prop :=
  wf rl ∧ ∀ f, get_requestors rl f = m !! f.

Lemma get_requestor_false rl f : snd (get_requestor rl f false) = lookup_requestor rl f.
Proof. unfold get_requestor. by destruct (lookup_requestor rl f). Qed.

Lemma been_requested_get rl f :
  been_requested rl f = bool_decide (is_Some (get_requestors rl f)).
Proof.
  unfold been_requested. rewrite get_requestor_false, get_requestors_lookup.
  apply bool_decide_ext. by rewrite fmap_is_Some.
Qed.

Lemma peer_requested_get rl f p :
  peer_requested rl f p = bool_decide (p ∈ default [] (get_requestors rl f)).
Proof.
  unfold peer_requested. rewrite get_requestor_false, get_requestors_lookup.
  destruct (lookup_requestor rl f); simpl; [apply existsb_eqb_elem|done].
Qed.

Lemma step_refines rl m o :
  represents rl m →
  represents (fst (impl_step rl o)) (fst (spec_step m o)) ∧
  snd (impl_step rl o) = snd (spec_step m o).
Proof.
  intros [Hwf Hm]. destruct o as [f p|f|f|f|f p]; simpl.
  - split; [|done]. split; [by apply add_requestor_wf|]. intros g.
    rewrite get_requestors_add by done. rewrite !Hm.
    by rewrite lookup_insert.
  - split; [|done]. split; [by apply clear_requestor_wf|]. intros g.
    rewrite get_requestors_clear by done. rewrite !Hm.
    by rewrite lookup_delete.
  - by rewrite been_requested_get, Hm.
  - by rewrite Hm.
  - by rewrite peer_requested_get, Hm.
Qed.

Lemma run_refines ops : ∀ rl m,
  represents rl m → run impl_step rl ops = run spec_step m ops.
Proof.
  induction ops as [|o ops IH]; intros rl m H; simpl; [done|].
  destruct (step_refines rl m o H) as [H1 H2].
  destruct (impl_step rl o), (spec_step m o). simpl in *. subst. f_equal. auto.
Qed.

Lemma represents_new : represents new_requestor_list ∅.
Proof.
  split; [apply new_requestor_list_wf|]. intros f.
  by rewrite get_requestors_lookup, lookup_requestor_new, lookup_empty.
Qed.

(** Starting from a new table, every sequence of requestor operations
    answers exactly as a finite map from names to duplicate-free lists of peers
    in order of arrival does: hashing, chaining and array growth are invisible. *)
Theorem requestors_refine_map (ops : list op) :
  run impl_step new_requestor_list ops = run spec_step ∅ ops.
Proof. apply run_refines, represents_new. Qed.

(** On a well-formed table [add_requestor] never stores outside the peer
    array of the entry, and the table stays well formed. *)
Theorem add_requestor_in_bounds (rl : table) (f : bytes) (p : node_peer_t) :
  wf rl → is_Some (add_requestor_opt rl f p) ∧ wf (add_requestor rl f p).
Proof.
  intros Hwf. destruct (add_requestor_spec rl f p Hwf) as (rl' & E & Hwf' & _).
  unfold add_requestor. rewrite E. eauto.
Qed.

Lemma add_requestor_in_bounds_witness :
  is_Some (add_requestor_opt new_requestor_list (lit "/usr/lib/libm.so") 7) ∧
  wf (add_requestor new_requestor_list (lit "/usr/lib/libm.so") 7).
Proof. apply (add_requestor_in_bounds _ _ _ new_requestor_list_wf). Defined.

Lemma get_requestors_NoDup rl f ps :
  wf rl → get_requestors rl f = Some ps → NoDup ps.
Proof.
  rewrite get_requestors_lookup. intros Hwf (e & He & ->)%fmap_Some.
  by destruct (lookup_requestor_wf _ _ _ Hwf He) as (_ & _ & _ & _ & _ & ?).
Qed.

Lemma combine_requestors_spec l1 l2 :
  NoDup l1 → NoDup l2 →
  NoDup (combine_requestors l1 l2) ∧
  ∀ p, p ∈ combine_requestors l1 l2 ↔ p ∈ l1 ∨ p ∈ l2.
Proof.
  intros H1 H2. unfold combine_requestors.
  assert (∀ p, p ∈ List.filter (λ p, negb (existsb (Z.eqb p) l1)) l2 ↔ p ∈ l2 ∧ p ∉ l1) as Hf.
  { intros p. rewrite list_elem_of_In, filter_In, <- list_elem_of_In, existsb_eqb_elem.
    rewrite negb_true_iff, bool_decide_eq_false. done. }
  split.
  - apply NoDup_app. split_and!; [done|intros p; rewrite Hf; naive_solver|].
    apply NoDup_ListNoDup. apply List.NoDup_filter. by apply NoDup_ListNoDup.
  - intros p. rewrite elem_of_app, Hf. destruct (decide (p ∈ l1)); naive_solver.
Qed.

(** [get_requestors2] fails exactly when neither list knows the file; else
    it returns, each once, the peers of either list. *)
Theorem get_requestors2_union (rl rl2 : table) (f : bytes) :
  wf rl → wf rl2 →
  match get_requestors2 rl rl2 f with
  | None => get_requestors rl f = None ∧ get_requestors rl2 f = None
  | Some ps => NoDup ps ∧
      ∀ p, p ∈ ps ↔ p ∈ default [] (get_requestors rl f) ∨ p ∈ default [] (get_requestors rl2 f)
  end.
Proof.
  intros H1 H2. unfold get_requestors2. rewrite !get_requestor_false.
  pose proof (get_requestors_NoDup rl f) as N1. pose proof (get_requestors_NoDup rl2 f) as N2.
  rewrite !get_requestors_lookup in *.
  destruct (lookup_requestor rl f), (lookup_requestor rl2 f); simpl in *; [..|done].
  all: apply combine_requestors_spec; try apply NoDup_nil; eauto.
Qed.

Definition example_table (x y : node_peer_t) : table :=
  add_requestor (add_requestor new_requestor_list (lit "/a") x) (lit "/a") y.

Lemma example_table_wf x y : wf (example_table x y).
Proof. exact (add_requestor_wf _ _ _ (add_requestor_wf _ _ _ new_requestor_list_wf)). Qed.

Lemma get_requestors2_union_witness :
  get_requestors2 (example_table 3 4) (example_table 4 9) (lit "/a") = Some [3; 4; 9] ∧
  NoDup [3; 4; 9].
Proof.
  pose proof (get_requestors2_union _ _ (lit "/a") (example_table_wf 3 4) (example_table_wf 4 9)) as H.
  assert (get_requestors2 (example_table 3 4) (example_table 4 9) (lit "/a") = Some [3; 4; 9]) as E
    by (vm_compute; reflexivity).
  rewrite E in H. split; [exact E|apply H].
Defined.

End Requestors.
