(* ===== verification/Cobo.v ===== *)
(** * The COBO overlay network (cobo.c)

    The servers of a session form a tree.  Every rank computes its parent, its
    children and the size of each child's subtree from its rank and the number
    of ranks ([cobo_compute_children]); the collectives then move data along
    the sockets of that tree.  The model keeps each rank's local computation as
    in the C code and composes the ranks by feeding what a rank writes to a
    socket to the read at the other end (the sockets are reliable byte streams
    and every collective reads exactly what its peers write). *)

From Stdlib Require Import Ascii String ZArith Lia.
From stdpp Require Import strings numbers gmap list.
From S2P Require Import Prelude Bytes.

(** ** What the rest of the server relies on: a tree of ranks *)

(** A rooted tree over the ranks [0 .. rt_size-1] with root 0, in which every
    rank knows its parent and its children consistently with its peers. *)
Class RankTree := {
  rt_size : Z;
  rt_parent : Z → Z;
  rt_children : Z → list Z;
  rt_parent_lt c : 0 < c < rt_size → 0 <= rt_parent c < c;
  rt_children_spec r c : 0 <= r < rt_size →
    c ∈ rt_children r ↔ 0 < c < rt_size ∧ rt_parent c = r;
  rt_children_NoDup r : 0 <= r < rt_size → NoDup (rt_children r);
}.

Module Cobo.

(** ** The tree of a rank *)

Record cobo_tree := mk_cobo_tree {
  cobo_parent : Z;
  cobo_child : list Z;
  cobo_child_incl : list Z;
  cobo_num_child_incl : Z;
}.

Definition cobo_num_child (t : cobo_tree) : nat := length (cobo_child t).

(** [while (n < cobo_nprocs) { n <<= 1; max_children++; }] *)
Fixpoint max_children_loop (fuel : nat) (nprocs n : Z) (max_children : nat) : option nat :=
  match fuel with
  | O => None
  | S fuel' =>
      if n <? nprocs then max_children_loop fuel' nprocs (Z.shiftl n 1) (S max_children)
      else Some max_children
  end.

(** [int mid = (high - low) / 2 + (high - low) % 2 + low;] *)
Definition split_mid (low high : Z) : Z := (high - low) / 2 + (high - low) mod 2 + low.

(** The variables of the second loop. *)
Record cstate := mk_cstate { low : Z; high : Z; tree : cobo_tree }.

(** One iteration of [while (high - low > 0)]; [None] when the loop ends. *)
Definition children_step (me : Z) (st : cstate) : option cstate :=
  let lo := low st in let hi := high st in let t := tree st in
  if hi - lo >? 0 then
    let mid := split_mid lo hi in
    let t1 :=
      if lo =? me then
        mk_cobo_tree (cobo_parent t) (cobo_child t ++ [mid])
          (cobo_child_incl t ++ [hi - mid + 1]) (cobo_num_child_incl t + (hi - mid + 1))
      else t in
    let t2 :=
      if mid =? me then
        mk_cobo_tree lo (cobo_child t1) (cobo_child_incl t1) (cobo_num_child_incl t1)
      else t1 in
    Some (if mid <=? me then mk_cstate mid hi t2 else mk_cstate lo (mid - 1) t2)
  else None.

(** The loop; [None] when the fuel is spent or a child is stored past the end of
    the arrays of [max_children] elements. *)
Fixpoint children_loop (fuel : nat) (max_children : nat) (me : Z) (st : cstate)
    : option cobo_tree :=
  if (cobo_num_child (tree st) <=? max_children)%nat then
    match fuel with
    | O => None
    | S fuel' =>
        match children_step me st with
        | None => Some (tree st)
        | Some st' => children_loop fuel' max_children me st'
        end
    end
  else None.

Definition tree_init : cobo_tree := mk_cobo_tree 0 [] [] 0.

(** The first loop runs at most 31 times for any [int] below 2^30, the second at
    most [cobo_nprocs] times since every iteration shrinks [high - low]. *)
Definition cobo_compute_children (me nprocs : Z) : option cobo_tree :=
  max_children ← max_children_loop 32 nprocs 1 0;
  children_loop (S (Z.to_nat nprocs)) max_children me
    (mk_cstate 0 (nprocs - 1) tree_init).

(** ** Collectives *)

(** [cobo_read_fd] of [size] bytes from a socket holding [stream]. *)
Definition cobo_read_fd (stream : bytes) (size : Z) : option bytes :=
  if (0 <=? size) && (size <=? Z.of_nat (length stream))
  then Some (take (Z.to_nat size) stream) else None.

Definition INT_MAX : Z := 2 ^ 31 - 1.

(** The children with their subtree sizes, in the order the arrays have them. *)
Definition child_pairs (t : cobo_tree) : list (Z * Z) :=
  zip (cobo_child t) (cobo_child_incl t).

(** The receive loop of [cobo_gather_tree], over the children from the last to
    the first; [streams c] is what child [c] wrote to its parent. *)
Fixpoint gather_reads (sendcount : Z) (streams : Z → bytes) (cs : list (Z * Z))
    (bigbuf : bytes) : option bytes :=
  match cs with
  | [] => Some bigbuf
  | (c, incl) :: cs' =>
      d ← cobo_read_fd (streams c) (sendcount * incl);
      gather_reads sendcount streams cs' (bigbuf ++ d)
  end.

(** [cobo_gather_tree]: the gathered buffer, which the root keeps and any other
    rank writes to its parent. *)
Definition cobo_gather_tree (t : cobo_tree) (sendbuf : bytes) (sendcount : Z)
    (streams : Z → bytes) : option bytes :=
  let bigcount := (cobo_num_child_incl t + 1) * sendcount in
  if bigcount <=? INT_MAX then
    gather_reads sendcount streams (rev (child_pairs t)) (take (Z.to_nat sendcount) sendbuf)
  else None.

(** All ranks together: what rank [r] has gathered, its children's messages
    being what they gathered themselves. *)
Fixpoint gather_msg (fuel : nat) (nprocs sendcount : Z) (data : Z → bytes) (r : Z)
    : option bytes :=
  match fuel with
  | O => None
  | S fuel' =>
      t ← cobo_compute_children r nprocs;
      cobo_gather_tree t (data r) sendcount
        (λ c, default [] (gather_msg fuel' nprocs sendcount data c))
  end.

(** [cobo_bcast_tree]: the buffer of a rank after the broadcast, which it also
    writes to every child. *)
Definition cobo_bcast_tree (me : Z) (buf : bytes) (size : Z) (parent_stream : bytes)
    : option bytes :=
  if negb (me =? 0) then cobo_read_fd parent_stream size
  else Some (take (Z.to_nat size) buf).

Fixpoint bcast_buf (fuel : nat) (nprocs size : Z) (buf : bytes) (r : Z) : option bytes :=
  match fuel with
  | O => None
  | S fuel' =>
      t ← cobo_compute_children r nprocs;
      cobo_bcast_tree r buf size
        (if r =? 0 then [] else default [] (bcast_buf fuel' nprocs size buf (cobo_parent t)))
  end.

(** [cobo_scatter_tree]: a rank holding [bigbuf] writes to its children, first to
    last, consecutive pieces of it and keeps the first [sendcount] bytes.  The
    result lists what each child is sent. *)
Fixpoint scatter_writes (sendcount : Z) (bigbuf : bytes) (offset : Z) (cs : list (Z * Z))
    : list (Z * bytes) :=
  match cs with
  | [] => []
  | (c, incl) :: cs' =>
      (c, take (Z.to_nat (sendcount * incl)) (drop (Z.to_nat offset) bigbuf))
        :: scatter_writes sendcount bigbuf (offset + sendcount * incl) cs'
  end.

Fixpoint scatter_bigbuf (fuel : nat) (nprocs sendcount : Z) (sendbuf : bytes) (r : Z)
    : option bytes :=
  match fuel with
  | O => None
  | S fuel' =>
      if r =? 0 then Some sendbuf
      else
        t ← cobo_compute_children r nprocs;
        let p := cobo_parent t in
        tp ← cobo_compute_children p nprocs;
        pbuf ← scatter_bigbuf fuel' nprocs sendcount sendbuf p;
        snd <$> List.find (λ x, fst x =? r)
                  (scatter_writes sendcount pbuf sendcount (child_pairs tp))
  end.

Definition cobo_scatter_tree (nprocs sendcount : Z) (sendbuf : bytes) (r : Z)
    : option bytes :=
  take (Z.to_nat sendcount) <$> scatter_bigbuf (S (Z.to_nat r)) nprocs sendcount sendbuf r.

(** [cobo_allgather]: a gather to rank 0, then a broadcast of the result. *)
Definition cobo_allgather (nprocs sendcount : Z) (data : Z → bytes) (r : Z) : option bytes :=
  all ← gather_msg (Z.to_nat nprocs) nprocs sendcount data 0;
  bcast_buf (S (Z.to_nat r)) nprocs (sendcount * nprocs) all r.

(** ** Reductions *)

Inductive cobo_op_t :=
  | COBO_OP_MIN | COBO_OP_MAX | COBO_OP_BITWISE_AND | COBO_OP_BITWISE_OR
  | COBO_OP_LOGICAL_AND | COBO_OP_LOGICAL_OR | COBO_OP_SUM | COBO_OP_NOOP | NUM_COBO_OP.

(** The [switch] of [cobo_allreduce] on [uint64_t] values. *)
Definition cobo_apply_op (op : cobo_op_t) (pval child_val : Z) : Z :=
  match op with
  | COBO_OP_MIN => if child_val <? pval then child_val else pval
  | COBO_OP_MAX => if child_val >? pval then child_val else pval
  | COBO_OP_BITWISE_AND => Z.land pval child_val
  | COBO_OP_BITWISE_OR => Z.lor pval child_val
  | COBO_OP_LOGICAL_AND => if negb (pval =? 0) && negb (child_val =? 0) then 1 else 0
  | COBO_OP_LOGICAL_OR => if negb (pval =? 0) || negb (child_val =? 0) then 1 else 0
  | COBO_OP_SUM => wrap64 (pval + child_val)
  | COBO_OP_NOOP => pval
  | NUM_COBO_OP => pval  (** the default case: the operator is ignored *)
  end.

(** The receive loop, from the last child to the first. *)
Definition reduce_children (f : Z → Z → Z) (t : cobo_tree) (pval : Z) (vals : Z → Z) : Z :=
  fold_left (λ acc c, f acc (vals c)) (rev (cobo_child t)) pval.

(** What rank [r] sends to its parent (or, at the root, the reduced value). *)
Fixpoint reduce_msg (fuel : nat) (f : Z → Z → Z) (nprocs : Z) (vals : Z → Z) (r : Z)
    : option Z :=
  match fuel with
  | O => None
  | S fuel' =>
      t ← cobo_compute_children r nprocs;
      Some (reduce_children f t (vals r)
              (λ c, default 0 (reduce_msg fuel' f nprocs vals c)))
  end.

(** [cobo_allreduce]: reduce to rank 0 and broadcast the eight bytes of the result. *)
Definition cobo_allreduce (op : cobo_op_t) (nprocs : Z) (vals : Z → Z) (r : Z) : option Z :=
  v ← reduce_msg (Z.to_nat nprocs) (cobo_apply_op op) nprocs vals 0;
  le_decode <$> bcast_buf (S (Z.to_nat r)) nprocs 8 (le64 v) r.

(** [cobo_allreduce_max_int_tree], on [int] values. *)
Definition max_int (max_val child_val : Z) : Z :=
  if child_val >? max_val then child_val else max_val.

Definition cobo_allreduce_max_int_tree (nprocs : Z) (vals : Z → Z) (r : Z) : option Z :=
  v ← reduce_msg (Z.to_nat nprocs) max_int nprocs vals 0;
  (λ b, rd_i32 b 0) <$> bcast_buf (S (Z.to_nat r)) nprocs 4 (le32 v) r.

(** [cobo_allgather_str]: the strings padded to the longest, gathered, and read
    back from the slots of the receive buffer. *)
Definition pad_str (maxlen : Z) (s : bytes) : bytes :=
  s ++ replicate (Z.to_nat maxlen - length s) NUL.

Definition cobo_allgather_str (nprocs : Z) (strs : Z → bytes) (r : Z) : option (list bytes) :=
  maxlen ← cobo_allreduce_max_int_tree nprocs (λ q, Z.of_nat (length (strs q)) + 1) r;
  stringbuf ← cobo_allgather nprocs maxlen (λ q, pad_str maxlen (strs q)) r;
  Some ((λ i, cstr (drop (i * Z.to_nat maxlen) stringbuf)) <$> seq 0 (Z.to_nat nprocs)).

(** ** The host table *)

(** The two loops of [cobo_server_open]: an [int] offset per host, then the
    strings with their terminators. *)
Fixpoint host_offsets (offset : Z) (hosts : list bytes) : list Z :=
  match hosts with
  | [] => []
  | h :: hosts' => offset :: host_offsets (offset + Z.of_nat (length h) + 1) hosts'
  end.

Definition cobo_hostlist (hosts : list bytes) : bytes :=
  concat (le32 <$> host_offsets (4 * Z.of_nat (length hosts)) hosts)
    ++ concat ((λ h, h ++ [NUL]) <$> hosts).

(** [cobo_expand_hostname]: the string at the offset stored for the rank. *)
Definition cobo_expand_hostname (hostlist : bytes) (rank : Z) : bytes :=
  cstr (drop (Z.to_nat (rd_i32 hostlist (Z.to_nat (rank * 4)))) hostlist).

(** ** The tree every rank computes a part of *)

(** The children of a rank that is responsible for the ranks up to [hi], with
    their subtree sizes, in the order they are found. *)
Fixpoint kids_f (fuel : nat) (r hi : Z) : list (Z * Z) :=
  match fuel with
  | O => []
  | S fuel' =>
      if hi - r >? 0 then
        let mid := split_mid r hi in (mid, hi - mid + 1) :: kids_f fuel' r (mid - 1)
      else []
  end.

Definition kids (r hi : Z) : list (Z * Z) := kids_f (Z.to_nat (hi - r)) r hi.

(** [node n p r hi]: in the tree over [n] ranks, [r] has parent [p] (0 for the
    root) and is responsible for the ranks [r .. hi]. *)
Inductive node (n : Z) : Z → Z → Z → Prop :=
  | node_root : 0 < n → node n 0 0 (n - 1)
  | node_kid p r hi c k : node n p r hi → (c, k) ∈ kids r hi → node n r c (c + k - 1).

Lemma gtb_lt a b : (a >? b) = true ↔ b < a.
Proof. rewrite Z.gtb_ltb. apply Z.ltb_lt. Qed.

Lemma gtb_ge a b : (a >? b) = false ↔ a <= b.
Proof. rewrite Z.gtb_ltb. apply Z.ltb_ge. Qed.

Lemma split_mid_bounds lo hi : lo < hi → lo < split_mid lo hi <= hi.
Proof.
  intros H. unfold split_mid.
  pose proof (Z.div_mod (hi - lo) 2). pose proof (Z.mod_pos_bound (hi - lo) 2).
  assert (0 <= (hi - lo) / 2) by (apply Z.div_pos; lia). lia.
Qed.

(** What is left of the range after a split is half of it. *)
Lemma split_mid_half lo hi : lo < hi → 2 * (split_mid lo hi - lo) <= hi - lo + 1.
Proof.
  intros H. unfold split_mid.
  pose proof (Z.div_mod (hi - lo) 2). pose proof (Z.mod_pos_bound (hi - lo) 2). lia.
Qed.

Lemma kids_f_enough fuel r hi :
  hi - r <= Z.of_nat fuel → kids_f fuel r hi = kids r hi.
Proof.
  unfold kids. remember (Z.to_nat (hi - r)) as m eqn:Em.
  assert (hi - r <= Z.of_nat m) as Hm by lia. clear Em.
  revert hi fuel Hm. induction m as [|m IH]; intros hi fuel Hm Hf.
  - destruct fuel; simpl; [done|]. by rewrite (proj2 (gtb_ge _ _)) by lia.
  - destruct fuel; simpl.
    + by rewrite (proj2 (gtb_ge _ _)) by lia.
    + destruct (hi - r >? 0) eqn:E; [|done]. apply gtb_lt in E.
      pose proof (split_mid_bounds r hi). f_equal. apply IH; lia.
Qed.

Lemma kids_nil r hi : hi <= r → kids r hi = [].
Proof. intros H. unfold kids. by replace (Z.to_nat (hi - r)) with O by lia. Qed.

Lemma kids_cons r hi :
  r < hi → kids r hi = (split_mid r hi, hi - split_mid r hi + 1) :: kids r (split_mid r hi - 1).
Proof.
  intros H. unfold kids at 1. pose proof (split_mid_bounds r hi).
  destruct (Z.to_nat (hi - r)) as [|m] eqn:E; [lia|]. simpl.
  rewrite (proj2 (gtb_lt _ _)) by lia. by rewrite kids_f_enough by lia.
Qed.

(** Induction along the children of a rank. *)
Lemma kids_ind (r : Z) (P : Z → Prop) :
  (∀ hi, hi <= r → P hi) →
  (∀ hi, r < hi → P (split_mid r hi - 1) → P hi) → ∀ hi, P hi.
Proof.
  intros Hnil Hcons hi. remember (Z.to_nat (hi - r)) as m eqn:Em.
  revert hi Em. induction (lt_wf m) as [m _ IH]. intros hi ->.
  destruct (Z_le_dec hi r) as [|Hlt]; [auto|].
  pose proof (split_mid_bounds r hi). apply Hcons; [lia|]. eapply IH; [|reflexivity]. lia.
Qed.

Lemma kids_bounds r hi c k :
  (c, k) ∈ kids r hi → r < c ∧ 0 < k ∧ c + k - 1 <= hi.
Proof.
  induction hi as [hi H|hi H IH] using (kids_ind r).
  - rewrite kids_nil by lia. set_solver.
  - rewrite kids_cons by lia. pose proof (split_mid_bounds r hi).
    rewrite elem_of_cons. intros [[= -> ->]|Hin]; [lia|]. apply IH in Hin. lia.
Qed.

(** The subtrees of the children, last child first, tile the ranks behind [r]. *)
Lemma kids_cover r hi q :
  r < q <= hi → ∃ c k, (c, k) ∈ kids r hi ∧ c <= q <= c + k - 1.
Proof.
  induction hi as [hi H|hi H IH] using (kids_ind r); [lia|]. intros Hq.
  pose proof (split_mid_bounds r hi). rewrite kids_cons by lia.
  destruct (Z_le_dec (split_mid r hi) q).
  - do 2 eexists. split; [left|lia].
  - destruct IH as (c & k & Hin & Hc); [lia|]. exists c, k. split; [by right|done].
Qed.

Lemma kids_length r hi (m : nat) :
  hi - r + 1 < 2 ^ (Z.of_nat m + 1) → (length (kids r hi) ≤ m)%nat.
Proof.
  revert m. induction hi as [hi H|hi H IH] using (kids_ind r); intros m Hm.
  - rewrite kids_nil by lia. simpl. lia.
  - rewrite kids_cons by lia. simpl. pose proof (split_mid_bounds r hi).
    pose proof (split_mid_half r hi).
    destruct m as [|m]; [change (2 ^ (Z.of_nat 0 + 1)) with 2 in Hm; lia|].
    rewrite Nat2Z.inj_succ in Hm. unfold Z.succ in Hm.
    rewrite (Z.pow_add_r 2 (Z.of_nat m + 1) 1) in Hm by lia.
    specialize (IH m). lia.
Qed.

Lemma kids_sum r hi : r <= hi → fold_right Z.add 0 (kids r hi).*2 = hi - r.
Proof.
  induction hi as [hi H|hi H IH] using (kids_ind r); intros Hr.
  - rewrite kids_nil by lia. simpl. lia.
  - rewrite kids_cons by lia. csimpl. pose proof (split_mid_bounds r hi).
    rewrite IH by lia. lia.
Qed.

Lemma kids_NoDup r hi : NoDup (kids r hi).*1.
Proof.
  induction hi as [hi H|hi H IH] using (kids_ind r).
  - rewrite kids_nil by lia. constructor.
  - rewrite kids_cons by lia. csimpl. constructor; [|done].
    intros ((c & k) & E & Hin)%list_elem_of_fmap. simpl in E. subst c.
    apply kids_bounds in Hin. lia.
Qed.

(** *** The nodes of the tree *)

Lemma node_bounds n p r hi : node n p r hi → 0 <= r <= hi ∧ hi < n.
Proof.
  induction 1 as [|p r hi c k _ IH Hk]; [lia|]. apply kids_bounds in Hk. lia.
Qed.

Lemma node_parent n p r hi : node n p r hi → r = 0 ∧ p = 0 ∧ hi = n - 1 ∨ 0 <= p < r.
Proof.
  destruct 1 as [|p r hi c k Hn Hk]; [auto|].
  apply node_bounds in Hn. apply kids_bounds in Hk. lia.
Qed.

(** Every rank of a node's range is a node. *)
Lemma node_inside n p r hi q :
  node n p r hi → r <= q <= hi → ∃ p' hi', node n p' q hi'.
Proof.
  remember (Z.to_nat (hi - r)) as m eqn:Em. revert p r hi Em.
  induction (lt_wf m) as [m _ IH]. intros p r hi -> Hn Hq.
  destruct (decide (q = r)) as [->|]; [eauto|].
  destruct (kids_cover r hi q) as (c & k & Hk & Hc); [lia|].
  pose proof (kids_bounds _ _ _ _ Hk).
  eapply (IH _ ltac:(shelve) r c (c + k - 1) eq_refl); [by eapply node_kid|lia].
  Unshelve. lia.
Qed.

Lemma node_exists n q : 0 <= q < n → ∃ p hi, node n p q hi.
Proof. intros H. apply (node_inside n 0 0 (n - 1)); [constructor; lia|lia]. Qed.

(** *** The loop finds the node of its rank *)

Abbreviation steps me := (rtc (λ s s', children_step me s = Some s')).

Definition with_parent (p : Z) : cobo_tree := mk_cobo_tree p [] [] 0.

Lemma step_other me lo hi :
  lo < hi → lo ≠ me →
  children_step me (mk_cstate lo hi tree_init) =
    Some (if split_mid lo hi <=? me
          then mk_cstate (split_mid lo hi) hi
                 (with_parent (if split_mid lo hi =? me then lo else 0))
          else mk_cstate lo (split_mid lo hi - 1) tree_init).
Proof.
  intros Hlt Hne. unfold children_step. simpl.
  rewrite (proj2 (gtb_lt _ _)), (proj2 (Z.eqb_neq lo me)) by lia.
  destruct (split_mid lo hi <=? me) eqn:E1, (split_mid lo hi =? me) eqn:E2; try done.
  apply Z.eqb_eq in E2. apply Z.leb_gt in E1. lia.
Qed.

Lemma steps_to_kid me r hi c k :
  (c, k) ∈ kids r hi → c <= me <= c + k - 1 →
  steps me (mk_cstate r hi tree_init)
           (mk_cstate c (c + k - 1) (with_parent (if c =? me then r else 0))).
Proof.
  induction hi as [hi H|hi H IH] using (kids_ind r); intros Hk Hme.
  { rewrite kids_nil in Hk by lia. by apply elem_of_nil in Hk. }
  pose proof (kids_bounds _ _ _ _ Hk). pose proof (split_mid_bounds r hi).
  eapply rtc_l; [apply step_other; lia|].
  rewrite kids_cons, elem_of_cons in Hk by lia. destruct Hk as [[= -> ->]|Hk].
  - rewrite (proj2 (Z.leb_le _ _)) by lia.
    by replace (split_mid r hi + (hi - split_mid r hi + 1) - 1) with hi by lia.
  - pose proof (kids_bounds _ _ _ _ Hk). rewrite (proj2 (Z.leb_gt _ _)) by lia. auto.
Qed.

Lemma steps_to_node n p r hi me :
  node n p r hi → r <= me <= hi →
  steps me (mk_cstate 0 (n - 1) tree_init)
           (mk_cstate r hi (with_parent (if r =? me then p else 0))).
Proof.
  intros Hn. revert me. induction Hn as [|p r hi c k Hn IH Hk]; intros me Hme.
  - destruct (0 =? me); apply rtc_refl.
  - pose proof (kids_bounds _ _ _ _ Hk).
    etrans; [apply IH; lia|]. rewrite (proj2 (Z.eqb_neq r me)) by lia.
    by apply steps_to_kid.
Qed.

Lemma children_step_measure me st st' :
  children_step me st = Some st' →
  0 <= high st' - low st' < high st - low st ∧
  (cobo_num_child (tree st) ≤ cobo_num_child (tree st'))%nat.
Proof.
  destruct st as [lo hi t]. unfold children_step, cobo_num_child. simpl.
  destruct (hi - lo >? 0) eqn:E; [|done]. apply gtb_lt in E.
  pose proof (split_mid_bounds lo hi).
  destruct (split_mid lo hi <=? me) eqn:E1, (split_mid lo hi =? me), (lo =? me);
    intros [= <-]; simpl; rewrite ?length_app; simpl; bool_to_prop; lia.
Qed.

Lemma children_loop_steps me mc st st' fuel :
  steps me st st' → high st - low st < Z.of_nat fuel →
  (cobo_num_child (tree st') ≤ mc)%nat →
  ∃ fuel', high st' - low st' < Z.of_nat fuel' ∧
           children_loop fuel mc me st = children_loop fuel' mc me st'.
Proof.
  intros Hs. revert fuel. induction Hs as [st|st st1 st2 H1 Hs IH]; intros fuel Hf Hmc; [eauto|].
  pose proof (children_step_measure _ _ _ H1) as [Hm Hc].
  assert (cobo_num_child (tree st1) ≤ cobo_num_child (tree st2))%nat as Hc2.
  { clear -Hs. induction Hs as [|? ? ? H ? IH]; [done|].
    apply children_step_measure in H. lia. }
  destruct fuel as [|fuel]; [lia|].
  destruct (IH fuel) as (fuel' & Hf' & E); [lia|done|]. exists fuel'. split; [done|].
  rewrite <- E. simpl. rewrite (proj2 (Nat.leb_le _ _)) by lia. by rewrite H1.
Qed.

(** Once [low] is the own rank the loop collects the children. *)
Lemma children_loop_collect me mc hi t fuel :
  me <= hi → hi - me < Z.of_nat fuel →
  (cobo_num_child t + length (kids me hi) ≤ mc)%nat →
  children_loop fuel mc me (mk_cstate me hi t) =
    Some (mk_cobo_tree (cobo_parent t) (cobo_child t ++ (kids me hi).*1)
            (cobo_child_incl t ++ (kids me hi).*2) (cobo_num_child_incl t + (hi - me))).
Proof.
  revert t fuel. induction hi as [hi H|hi H IH] using (kids_ind me); intros t fuel Hme Hf Hmc.
  - assert (hi = me) as -> by lia. rewrite kids_nil in * by lia. simpl in Hmc.
    destruct fuel as [|fuel]; [lia|]. simpl. rewrite (proj2 (Nat.leb_le _ _)) by lia.
    unfold children_step. simpl. rewrite (proj2 (gtb_ge _ _)) by lia.
    destruct t; simpl. by rewrite !app_nil_r, Z.sub_diag, Z.add_0_r.
  - rewrite kids_cons in * by lia. pose proof (split_mid_bounds me hi).
    set (mid := split_mid me hi) in *. simpl in Hmc.
    destruct fuel as [|fuel]; [lia|]. simpl. rewrite (proj2 (Nat.leb_le _ _)) by lia.
    unfold children_step. simpl. fold mid.
    rewrite (proj2 (gtb_lt _ _)), Z.eqb_refl, (proj2 (Z.eqb_neq mid me)),
      (proj2 (Z.leb_gt mid me)) by lia.
    rewrite IH by (unfold cobo_num_child in *; simpl; rewrite ?length_app; simpl; lia).
    csimpl. rewrite <- !(assoc_L (++)). simpl. do 2 f_equal. lia.
Qed.

Lemma max_children_loop_ok fuel nprocs mc :
  nprocs <= 2 ^ (Z.of_nat mc + Z.of_nat fuel) →
  ∃ m, max_children_loop (S fuel) nprocs (2 ^ Z.of_nat mc) mc = Some m ∧
       nprocs <= 2 ^ Z.of_nat m.
Proof.
  revert mc. induction fuel as [|fuel IH]; intros mc H; simpl max_children_loop.
  - rewrite Z.add_0_r in H. rewrite (proj2 (Z.ltb_ge _ _)) by lia. eauto.
  - destruct (_ <? nprocs) eqn:E; bool_to_prop; [|by eauto].
    destruct (IH (S mc)) as (m & Hm & Hle).
    { by replace (Z.of_nat (S mc) + Z.of_nat fuel) with (Z.of_nat mc + Z.of_nat (S fuel)) by lia. }
    exists m. split; [|done]. rewrite <- Hm. cbn [max_children_loop].
    rewrite Z.shiftl_mul_pow2, Nat2Z.inj_succ, Z.pow_succ_r by lia.
    by rewrite (Z.mul_comm _ 2).
Qed.

(** Every node of the tree is what its rank computes. *)
Lemma compute_children_node n p r hi :
  n <= 2 ^ 30 → node n p r hi →
  cobo_compute_children r n =
    Some (mk_cobo_tree p (kids r hi).*1 (kids r hi).*2 (hi - r)).
Proof.
  intros Hn Hnode. pose proof (node_bounds _ _ _ _ Hnode) as Hb.
  unfold cobo_compute_children.
  destruct (max_children_loop_ok 31 n 0) as (m & Hm & Hle); [simpl; lia|].
  simpl Z.pow in Hm. change (2 ^ Z.of_nat 0) with 1 in Hm. rewrite Hm. cbn [mbind option_bind].
  destruct (children_loop_steps r m _ _ (S (Z.to_nat n))
              (steps_to_node n p r hi r Hnode ltac:(lia))) as (fuel' & Hf & ->).
  { simpl. lia. }
  { unfold cobo_num_child. simpl. lia. }
  rewrite Z.eqb_refl. simpl in Hf.
  rewrite children_loop_collect; [by unfold with_parent|lia|lia|].
  unfold cobo_num_child, with_parent. simpl. apply kids_length.
  rewrite Z.pow_add_r by lia. lia.
Qed.

Lemma compute_children_exists n r :
  0 <= r < n → n <= 2 ^ 30 →
  ∃ p hi, node n p r hi ∧
    cobo_compute_children r n = Some (mk_cobo_tree p (kids r hi).*1 (kids r hi).*2 (hi - r)).
Proof.
  intros Hr Hn. destruct (node_exists n r Hr) as (p & hi & Hnode).
  exists p, hi. split; [done|]. by apply compute_children_node.
Qed.

Lemma child_pairs_kids p r hi m :
  child_pairs (mk_cobo_tree p (kids r hi).*1 (kids r hi).*2 m) = kids r hi.
Proof. unfold child_pairs. simpl. apply zip_fst_snd. Qed.

Lemma elem_of_kid_ranks r hi c : c ∈ (kids r hi).*1 ↔ ∃ k, (c, k) ∈ kids r hi.
Proof.
  rewrite list_elem_of_fmap. split.
  - intros ((c' & k) & -> & H). eauto.
  - intros (k & H). by exists (c, k).
Qed.

(** *** The collectives, one node at a time *)

Lemma cobo_read_fd_exact s n : Z.of_nat (length s) = n → cobo_read_fd s n = Some s.
Proof.
  intros <-. unfold cobo_read_fd.
  rewrite (proj2 (Z.leb_le _ _)), (proj2 (Z.leb_le _ _)) by lia. simpl.
  by rewrite Nat2Z.id, firstn_all.
Qed.

Lemma gather_reads_app sc st l1 l2 buf :
  gather_reads sc st (l1 ++ l2) buf = gather_reads sc st l1 buf ≫= gather_reads sc st l2.
Proof.
  revert buf. induction l1 as [|[c k] l1 IH]; intros buf; simpl; [done|].
  destruct (cobo_read_fd _ _); simpl; auto.
Qed.

(** The data of the ranks [lo .. lo+k-1], in rank order. *)
Definition ranks_data (data : Z → bytes) (lo k : Z) : bytes := concat (data <$> seqZ lo k).

Lemma ranks_data_app data lo k1 k2 :
  0 <= k1 → 0 <= k2 →
  ranks_data data lo (k1 + k2) = ranks_data data lo k1 ++ ranks_data data (lo + k1) k2.
Proof.
  intros H1 H2. unfold ranks_data. by rewrite seqZ_app, fmap_app, concat_app by done.
Qed.

Lemma ranks_data_one data lo : ranks_data data lo 1 = data lo.
Proof. unfold ranks_data. simpl. by rewrite app_nil_r, Z.add_0_l. Qed.

Lemma ranks_data_length data lo k sc :
  0 <= k → 0 <= sc → (∀ q, lo <= q < lo + k → Z.of_nat (length (data q)) = sc) →
  Z.of_nat (length (ranks_data data lo k)) = sc * k.
Proof.
  intros Hk Hsc. revert lo. pattern k. apply natlike_ind; [| |done].
  - intros lo _. unfold ranks_data. simpl. lia.
  - intros x Hx IH lo Hd. unfold Z.succ. rewrite Z.add_comm, ranks_data_app by lia.
    rewrite length_app, Nat2Z.inj_add, ranks_data_one, Hd by lia.
    rewrite IH; [lia|]. intros q Hq. apply Hd. lia.
Qed.

Section collectives.
  Context (n : Z) (Hn : n <= 2 ^ 30).

Lemma gather_reads_kids sc data streams r hi buf :
  0 <= sc → r <= hi →
  (∀ q, r <= q <= hi → Z.of_nat (length (data q)) = sc) →
  (∀ c k, (c, k) ∈ kids r hi → streams c = ranks_data data c k) →
  gather_reads sc streams (rev (kids r hi)) buf
    = Some (buf ++ ranks_data data (r + 1) (hi - r)).
Proof.
  intros Hsc. induction hi as [hi H|hi H IH] using (kids_ind r); intros Hr Hd Hs.
  - rewrite kids_nil by lia. assert (hi = r) as -> by lia.
    unfold ranks_data. rewrite Z.sub_diag. simpl. by rewrite app_nil_r.
  - pose proof (split_mid_bounds r hi). set (mid := split_mid r hi) in *.
    assert (streams mid = ranks_data data mid (hi - mid + 1)) as Hm.
    { apply Hs. rewrite kids_cons by lia. left. }
    rewrite kids_cons by lia. fold mid. simpl rev.
    rewrite gather_reads_app, IH; [|lia|intros; apply Hd; lia|].
    2:{ intros c k Hk. apply Hs. rewrite kids_cons by lia. by right. }
    simpl. rewrite Hm, cobo_read_fd_exact.
    2:{ apply ranks_data_length; [lia..|]. intros q Hq. apply Hd. lia. }
    simpl. rewrite <- (assoc_L (++)). do 2 f_equal.
    replace (hi - r) with ((mid - 1 - r) + (hi - mid + 1)) by lia.
    rewrite (ranks_data_app data (r + 1)) by lia.
    by replace (r + 1 + (mid - 1 - r)) with mid by lia.
Qed.

Lemma gather_msg_node sc data p r hi fuel :
  0 <= sc → n * sc <= INT_MAX → node n p r hi →
  (∀ q, 0 <= q < n → Z.of_nat (length (data q)) = sc) →
  hi - r < Z.of_nat fuel →
  gather_msg fuel n sc data r = Some (ranks_data data r (hi - r + 1)).
Proof.
  intros Hsc Hint Hnode Hd. revert p r hi Hnode.
  induction fuel as [|fuel IH]; intros p r hi Hnode Hf; pose proof (node_bounds _ _ _ _ Hnode); [lia|].
  cbn [gather_msg]. rewrite (compute_children_node n p r hi) by done. cbn [mbind option_bind].
  unfold cobo_gather_tree. rewrite child_pairs_kids. cbn [cobo_num_child_incl].
  rewrite (proj2 (Z.leb_le _ _)) by nia.
  rewrite (gather_reads_kids _ data); [|lia|lia|intros; apply Hd; lia|].
  - f_equal. replace (hi - r + 1) with (1 + (hi - r)) by lia.
    rewrite ranks_data_app, ranks_data_one by lia. f_equal.
    apply take_ge. specialize (Hd r). lia.
  - intros c k Hk. pose proof (kids_bounds _ _ _ _ Hk).
    rewrite (IH r c (c + k - 1)); [|by eapply node_kid|lia]. simpl. f_equal. lia.
Qed.

Lemma bcast_buf_ok size buf r fuel :
  0 <= size <= Z.of_nat (length buf) → 0 <= r < n → r < Z.of_nat fuel →
  bcast_buf fuel n size buf r = Some (take (Z.to_nat size) buf).
Proof.
  intros Hs. revert r. induction fuel as [|fuel IH]; intros r Hr Hf; [lia|].
  destruct (compute_children_exists n r Hr Hn) as (p & hi & Hnode & E).
  cbn [bcast_buf]. rewrite E. cbn [mbind option_bind cobo_parent].
  unfold cobo_bcast_tree. destruct (r =? 0) eqn:E0; bool_to_prop; simpl; [done|].
  destruct (node_parent _ _ _ _ Hnode) as [|Hp]; [lia|].
  rewrite IH by lia. simpl. apply cobo_read_fd_exact. rewrite length_take. lia.
Qed.

Lemma reduce_children_kids f vals sub p r hi m v :
  (∀ a b c, f (f a b) c = f a (f b c)) → r <= hi →
  (∀ c k, (c, k) ∈ kids r hi → sub c = fold_left f (vals <$> seqZ (c + 1) (k - 1)) (vals c)) →
  reduce_children f (mk_cobo_tree p (kids r hi).*1 (kids r hi).*2 m) v sub
    = fold_left f (vals <$> seqZ (r + 1) (hi - r)) v.
Proof.
  intros Hassoc. unfold reduce_children. cbn [cobo_child].
  induction hi as [hi H|hi H IH] using (kids_ind r); intros Hr Hs.
  - rewrite kids_nil by lia. assert (hi = r) as -> by lia. by rewrite Z.sub_diag.
  - pose proof (split_mid_bounds r hi). set (mid := split_mid r hi) in *.
    assert (sub mid = fold_left f (vals <$> seqZ (mid + 1) (hi - mid)) (vals mid)) as Hm.
    { rewrite (Hs mid (hi - mid + 1)); [do 3 f_equal; lia|]. rewrite kids_cons by lia. left. }
    rewrite kids_cons by lia. fold mid. csimpl. rewrite fold_left_app, IH; [|lia|].
    2:{ intros c k Hk. apply Hs. rewrite kids_cons by lia. by right. }
    simpl. rewrite Hm. replace (hi - r) with ((mid - 1 - r) + (1 + (hi - mid))) by lia.
    rewrite (seqZ_app _ (mid - 1 - r)), fmap_app, fold_left_app by lia.
    generalize (fold_left f (vals <$> seqZ (r + 1) (mid - 1 - r)) v). intros acc.
    replace (r + 1 + (mid - 1 - r)) with mid by lia.
    rewrite (seqZ_app mid 1), fmap_app, fold_left_app by lia. simpl. rewrite Z.add_0_l.
    generalize (vals mid). generalize (vals <$> seqZ (mid + 1) (hi - mid)). clear -Hassoc.
    intros l. revert acc. induction l as [|x l IHl]; intros acc y; simpl; [done|].
    by rewrite IHl, Hassoc.
Qed.

Lemma reduce_msg_node f vals p r hi fuel :
  (∀ a b c, f (f a b) c = f a (f b c)) → node n p r hi → hi - r < Z.of_nat fuel →
  reduce_msg fuel f n vals r
    = Some (fold_left f (vals <$> seqZ (r + 1) (hi - r)) (vals r)).
Proof.
  intros Hassoc Hnode. revert p r hi Hnode.
  induction fuel as [|fuel IH]; intros p r hi Hnode Hf; pose proof (node_bounds _ _ _ _ Hnode); [lia|].
  cbn [reduce_msg]. rewrite (compute_children_node n p r hi) by done. cbn [mbind option_bind].
  f_equal. apply reduce_children_kids; [done|lia|].
  intros c k Hk. pose proof (kids_bounds _ _ _ _ Hk).
  rewrite (IH r c (c + k - 1)); [|by eapply node_kid|lia]. simpl. do 3 f_equal. lia.
Qed.
End collectives.

(** ** Theorems *)

(** The tree a rank holds after [cobo_compute_children] returned. *)
Definition tree_of (n r : Z) : cobo_tree := default tree_init (cobo_compute_children r n).

Lemma tree_of_node n p r hi :
  n <= 2 ^ 30 → node n p r hi →
  tree_of n r = mk_cobo_tree p (kids r hi).*1 (kids r hi).*2 (hi - r).
Proof. intros Hn H. unfold tree_of. by rewrite (compute_children_node n p r hi). Qed.

Lemma tree_of_children n r c :
  n <= 2 ^ 30 → 0 <= r < n →
  c ∈ cobo_child (tree_of n r) ↔ 0 < c < n ∧ cobo_parent (tree_of n c) = r.
Proof.
  intros Hn Hr. destruct (node_exists n r Hr) as (p & hi & Hnode).
  rewrite (tree_of_node n p r hi) by done. cbn [cobo_child].
  rewrite elem_of_kid_ranks. split.
  - intros (k & Hk). pose proof (kids_bounds _ _ _ _ Hk).
    pose proof (node_bounds _ _ _ _ Hnode). split; [lia|].
    by rewrite (tree_of_node n r c (c + k - 1)) by (eauto using node_kid).
  - intros [Hc Hp]. destruct (node_exists n c) as (p' & hi' & Hc'); [lia|].
    rewrite (tree_of_node n p' c hi') in Hp by done. simpl in Hp. subst p'.
    inversion Hc' as [|p2 r2 hi2 c2 k Hn2 Hk]; subst; [lia|].
    assert (hi2 = hi) as ->; [|by eauto].
    pose proof (compute_children_node n _ _ _ Hn Hn2) as E1.
    rewrite (compute_children_node n _ _ _ Hn Hnode) in E1. injection E1. lia.
Qed.

Lemma tree_of_parent_lt n c :
  n <= 2 ^ 30 → 0 < c < n → 0 <= cobo_parent (tree_of n c) < c.
Proof.
  intros Hn Hc. destruct (node_exists n c) as (p & hi & Hnode); [lia|].
  rewrite (tree_of_node n p c hi) by done. simpl.
  destruct (node_parent _ _ _ _ Hnode); lia.
Qed.

Lemma tree_of_NoDup n r : n <= 2 ^ 30 → 0 <= r < n → NoDup (cobo_child (tree_of n r)).
Proof.
  intros Hn Hr. destruct (node_exists n r Hr) as (p & hi & Hnode).
  rewrite (tree_of_node n p r hi) by done. apply kids_NoDup.
Qed.

(** The COBO tree provides the interface the server works against. *)
Definition cobo_rank_tree (n : Z) (Hn : n <= 2 ^ 30) : RankTree := {|
  rt_size := n;
  rt_parent c := cobo_parent (tree_of n c);
  rt_children r := cobo_child (tree_of n r);
  rt_parent_lt c := tree_of_parent_lt n c Hn;
  rt_children_spec r c := tree_of_children n r c Hn;
  rt_children_NoDup r := tree_of_NoDup n r Hn;
|}.

(** C4 For every rank of a job of at most 2^30 ranks, [cobo_compute_children]
    terminates without storing past its arrays, and the trees the ranks compute
    independently agree: a rank lists exactly the ranks that name it as their
    parent, each once, and records for each child the size of that child's
    subtree; a parent always has a smaller rank than its child. *)
Theorem compute_children_consistent (n r : Z) :
  n <= 2 ^ 30 → 0 <= r < n →
  ∃ t, cobo_compute_children r n = Some t ∧
    NoDup (cobo_child t) ∧
    (∀ c, c ∈ cobo_child t ↔ 0 < c < n ∧ cobo_parent (tree_of n c) = r) ∧
    (∀ c k, (c, k) ∈ child_pairs t → k = cobo_num_child_incl (tree_of n c) + 1) ∧
    (0 < r → 0 <= cobo_parent t < r).
Proof.
  intros Hn Hr. destruct (compute_children_exists n r Hr Hn) as (p & hi & Hnode & E).
  pose proof (tree_of_node n p r hi Hn Hnode) as Et.
  eexists. split; [exact E|]. rewrite <- Et.
  split_and!; [by apply tree_of_NoDup|intros c; by apply tree_of_children| |].
  - intros c k. rewrite Et, child_pairs_kids. intros Hk.
    rewrite (tree_of_node n r c (c + k - 1)) by (eauto using node_kid). simpl. lia.
  - intros Hpos. apply tree_of_parent_lt; lia.
Qed.

Lemma compute_children_consistent_witness :
  ∃ t, cobo_compute_children 0 6 = Some t ∧ NoDup (cobo_child t).
Proof.
  destruct (compute_children_consistent 6 0) as (t & E & H & _); [lia|lia|]. by exists t.
Defined.

(** A gather delivers to rank 0 the contributions of all ranks, each at the
    position of its rank. *)
Theorem gather_in_rank_order (n sc : Z) (data : Z → bytes) :
  0 < n <= 2 ^ 30 → 0 <= sc → n * sc <= INT_MAX →
  (∀ q, 0 <= q < n → Z.of_nat (length (data q)) = sc) →
  gather_msg (Z.to_nat n) n sc data 0 = Some (concat (data <$> seqZ 0 n)).
Proof.
  intros Hn Hsc Hint Hd.
  rewrite (gather_msg_node n ltac:(lia) sc data 0 0 (n - 1)); [|done..|constructor; lia|done|lia].
  unfold ranks_data. do 4 f_equal. lia.
Qed.

Lemma gather_in_rank_order_witness :
  gather_msg 6 6 1 (λ q, [byte_of (97 + q)]) 0 = Some (lit "abcdef").
Proof.
  etransitivity; [apply (gather_in_rank_order 6 1 (λ q, [byte_of (97 + q)]))|vm_compute; reflexivity];
    [lia|lia|unfold INT_MAX; lia|reflexivity].
Defined.

Lemma allgather_ok n sc data r :
  0 <= r < n → n <= 2 ^ 30 → 0 <= sc → n * sc <= INT_MAX →
  (∀ q, 0 <= q < n → Z.of_nat (length (data q)) = sc) →
  cobo_allgather n sc data r = Some (ranks_data data 0 n).
Proof.
  intros Hr Hn Hsc Hint Hd. unfold cobo_allgather.
  rewrite (gather_msg_node n ltac:(lia) sc data 0 0 (n - 1)); [|done..|constructor; lia|done|lia].
  replace (n - 1 - 0 + 1) with n by lia. cbn [mbind option_bind].
  assert (Z.of_nat (length (ranks_data data 0 n)) = sc * n) as Hl.
  { apply ranks_data_length; [lia..|]. intros q Hq. apply Hd. lia. }
  rewrite bcast_buf_ok by nia. f_equal. apply take_ge. lia.
Qed.

(** After an allgather every rank holds the contributions of all ranks in
    rank order. *)
Theorem allgather_all_ranks (n sc : Z) (data : Z → bytes) (r : Z) :
  0 <= r < n → n <= 2 ^ 30 → 0 <= sc → n * sc <= INT_MAX →
  (∀ q, 0 <= q < n → Z.of_nat (length (data q)) = sc) →
  cobo_allgather n sc data r = Some (concat (data <$> seqZ 0 n)).
Proof. apply allgather_ok. Qed.

Lemma allgather_all_ranks_witness :
  cobo_allgather 5 1 (λ q, [byte_of (97 + q)]) 3 = Some (lit "abcde").
Proof.
  rewrite (allgather_all_ranks 5 1 (λ q, [byte_of (97 + q)]) 3);
    [vm_compute; reflexivity|lia|lia|lia|unfold INT_MAX; lia|reflexivity].
Defined.

(** *** Reductions *)

Lemma cobo_apply_op_assoc op a b c :
  cobo_apply_op op (cobo_apply_op op a b) c = cobo_apply_op op a (cobo_apply_op op b c).
Proof.
  destruct op; simpl; try done.
  - destruct (b <? a) eqn:?, (c <? b) eqn:?, (c <? a) eqn:?; bool_to_prop; simpl;
      repeat case_match_goal; bool_to_prop; lia.
  - rewrite !Z.gtb_ltb.
    destruct (a <? b) eqn:?, (b <? c) eqn:?, (a <? c) eqn:?; bool_to_prop; simpl;
      rewrite ?Z.gtb_ltb; repeat case_match_goal; bool_to_prop; lia.
  - by rewrite Z.land_assoc.
  - by rewrite Z.lor_assoc.
  - destruct (a =? 0), (b =? 0), (c =? 0); done.
  - destruct (a =? 0), (b =? 0), (c =? 0); done.
  - unfold wrap64. rewrite Z.add_mod_idemp_l, Z.add_mod_idemp_r by lia. f_equal. lia.
Qed.

Lemma lor_range a b w : 0 <= w → 0 <= a < 2 ^ w → 0 <= b < 2 ^ w → 0 <= Z.lor a b < 2 ^ w.
Proof.
  intros Hw Ha Hb. assert (0 <= Z.lor a b) by (apply Z.lor_nonneg; lia). split; [done|].
  destruct (decide (a = 0)) as [->|]; [rewrite Z.lor_0_l; lia|].
  destruct (decide (b = 0)) as [->|]; [rewrite Z.lor_0_r; lia|].
  assert (Z.lor a b ≠ 0) by (rewrite Z.lor_eq_0_iff; lia).
  apply Z.log2_lt_pow2; [lia|]. rewrite Z.log2_lor by lia.
  apply Z.max_lub_lt; apply Z.log2_lt_pow2; lia.
Qed.

Lemma land_range a b w : 0 <= w → 0 <= a < 2 ^ w → 0 <= Z.land a b < 2 ^ w.
Proof.
  intros Hw Ha. assert (Z.land a b = Z.land a b mod 2 ^ w) as ->.
  { rewrite <- Z.land_ones, <- Z.land_assoc, (Z.land_comm b), Z.land_assoc by done.
    by rewrite (Z.land_ones a), (Z.mod_small a) by done. }
  apply Z.mod_pos_bound. lia.
Qed.

Lemma cobo_apply_op_range op a b :
  0 <= a < 2 ^ 64 → 0 <= b < 2 ^ 64 → 0 <= cobo_apply_op op a b < 2 ^ 64.
Proof.
  intros Ha Hb. destruct op; simpl; try lia.
  - case_match_goal; lia.
  - case_match_goal; lia.
  - apply (land_range _ _ 64); lia.
  - apply (lor_range _ _ 64); lia.
  - case_match_goal; lia.
  - case_match_goal; lia.
  - apply Z.mod_pos_bound. lia.
Qed.

Lemma fold_left_range (f : Z → Z → Z) (P : Z → Prop) l v :
  (∀ a b, P a → P b → P (f a b)) → P v → Forall P l → P (fold_left f l v).
Proof.
  intros Hf Hv HP. revert v Hv. induction HP as [|x l Hx HP IH]; intros v Hv; simpl; auto.
Qed.

Lemma reduce_root n f vals :
  0 < n <= 2 ^ 30 → (∀ a b c, f (f a b) c = f a (f b c)) →
  reduce_msg (Z.to_nat n) f n vals 0
    = Some (fold_left f (vals <$> seqZ 1 (n - 1)) (vals 0)).
Proof.
  intros Hn Hf. rewrite (reduce_msg_node n ltac:(lia) f vals 0 0 (n - 1));
    [|done|constructor; lia|lia]. by rewrite Z.sub_0_r.
Qed.

Lemma vals_range (P : Z → Prop) (vals : Z → Z) n :
  (∀ q, 0 <= q < n → P (vals q)) → Forall P (vals <$> seqZ 1 (n - 1)).
Proof.
  intros H. apply Forall_fmap, Forall_forall. intros q Hq%elem_of_seqZ. apply H. lia.
Qed.

(** C38 An allreduce returns at every rank the combination, in rank order, of
    the values of all ranks, for each of the operators. *)
Theorem allreduce_all_ranks (op : cobo_op_t) (n : Z) (vals : Z → Z) (r : Z) :
  n <= 2 ^ 30 → 0 <= r < n → (∀ q, 0 <= q < n → 0 <= vals q < 2 ^ 64) →
  cobo_allreduce op n vals r
    = Some (fold_left (cobo_apply_op op) (vals <$> seqZ 1 (n - 1)) (vals 0)).
Proof.
  intros Hn Hr Hv. unfold cobo_allreduce.
  rewrite reduce_root by (lia || apply cobo_apply_op_assoc). cbn [mbind option_bind].
  set (v := fold_left _ _ _).
  assert (0 <= v < 2 ^ 64) as Hrange.
  { apply (fold_left_range _ (λ v, 0 <= v < 2 ^ 64)); [apply cobo_apply_op_range|apply Hv; lia|].
    by apply (vals_range (λ v, 0 <= v < 2 ^ 64)). }
  rewrite bcast_buf_ok by (unfold le64; rewrite ?le_encode_length; lia).
  cbn [fmap option_fmap option_map]. f_equal.
  rewrite take_ge by (unfold le64; rewrite le_encode_length; lia).
  apply le_decode_encode_small. apply Hrange.
Qed.

Lemma allreduce_all_ranks_witness :
  cobo_allreduce COBO_OP_BITWISE_AND 4 (λ q, 15 - Z.shiftl 1 q) 2 = Some 0.
Proof.
  etransitivity; [apply (allreduce_all_ranks COBO_OP_BITWISE_AND 4 (λ q, 15 - Z.shiftl 1 q) 2)|];
    [lia|lia| |vm_compute; reflexivity].
  intros q Hq. assert (q = 0 ∨ q = 1 ∨ q = 2 ∨ q = 3) as [->|[->|[->| ->]]] by lia; vm_compute; intuition congruence.
Defined.

Lemma max_int_max a b : max_int a b = Z.max a b.
Proof. unfold max_int. rewrite Z.gtb_ltb. destruct (a <? b) eqn:?; bool_to_prop; lia. Qed.

(** The maximum over all ranks. *)
Definition max_over (n : Z) (vals : Z → Z) : Z :=
  fold_left Z.max (vals <$> seqZ 1 (n - 1)) (vals 0).

Lemma fold_left_max_ge l v : v <= fold_left Z.max l v ∧ Forall (λ x, x <= fold_left Z.max l v) l.
Proof.
  revert v. induction l as [|x l IH]; intros v; simpl; [split; [lia|constructor]|].
  destruct (IH (Z.max v x)). split; [lia|]. constructor; [lia|done].
Qed.

Lemma max_over_ge n vals q : 0 <= q < n → vals q <= max_over n vals.
Proof.
  intros Hq. unfold max_over.
  destruct (fold_left_max_ge (vals <$> seqZ 1 (n - 1)) (vals 0)) as [H0 HF].
  destruct (decide (q = 0)) as [->|]; [done|].
  rewrite Forall_fmap, Forall_forall in HF. apply HF, elem_of_seqZ. lia.
Qed.

Lemma max_over_range n vals (P : Z → Prop) :
  (∀ q, 0 <= q < n → P (vals q)) → 0 < n → P (max_over n vals).
Proof.
  intros HP Hn. apply (fold_left_range Z.max P); [|apply HP; lia|by apply vals_range].
  intros a b Ha Hb. by destruct (Z.max_spec a b) as [[_ ->]|[_ ->]].
Qed.

Lemma allreduce_max_ok n vals r :
  n <= 2 ^ 30 → 0 <= r < n → (∀ q, 0 <= q < n → - 2 ^ 31 <= vals q < 2 ^ 31) →
  cobo_allreduce_max_int_tree n vals r = Some (max_over n vals).
Proof.
  intros Hn Hr Hv. unfold cobo_allreduce_max_int_tree.
  rewrite reduce_root by (lia || (intros; rewrite !max_int_max; lia)). cbn [mbind option_bind].
  assert (fold_left max_int (vals <$> seqZ 1 (n - 1)) (vals 0) = max_over n vals) as ->.
  { unfold max_over. generalize (vals 0). generalize (vals <$> seqZ 1 (n - 1)). clear.
    intros l. induction l as [|x l IH]; intros v; simpl; [done|]. by rewrite max_int_max. }
  rewrite bcast_buf_ok by (unfold le32; rewrite ?le_encode_length; lia).
  cbn [fmap option_fmap option_map]. f_equal.
  rewrite take_ge by (unfold le32; rewrite le_encode_length; lia).
  rewrite <- (app_nil_r (le32 _)). apply (rd_i32_le32 []); [done|].
  apply (max_over_range n vals (λ v, - 2 ^ 31 <= v < 2 ^ 31)); [done|lia].
Qed.

Lemma pad_str_length m s : Z.of_nat (length s) < m → Z.of_nat (length (pad_str m s)) = m.
Proof. intros H. unfold pad_str. rewrite length_app, length_replicate. lia. Qed.

Lemma pad_str_cstr m s t :
  no_nul s = true → Z.of_nat (length s) < m → cstr (pad_str m s ++ t) = s.
Proof.
  intros Hs H. unfold pad_str.
  destruct (Z.to_nat m - length s)%nat as [|k] eqn:E; [lia|]. simpl.
  rewrite <- (assoc_L (++)). by apply cstr_app_nul.
Qed.

(** [cobo_allgather_str] gives every rank the strings of all ranks, indexed
    by rank, whatever their lengths. *)
Theorem allgather_str_all_ranks (n : Z) (strs : Z → bytes) (r : Z) :
  n <= 2 ^ 30 → 0 <= r < n →
  (∀ q, 0 <= q < n → no_nul (strs q) = true) →
  n * max_over n (λ q, Z.of_nat (length (strs q)) + 1) <= INT_MAX →
  cobo_allgather_str n strs r = Some (strs <$> seqZ 0 n).
Proof.
  intros Hn Hr Hs Hint. unfold cobo_allgather_str.
  set (len := λ q, Z.of_nat (length (strs q)) + 1) in *.
  assert (max_over n len <= INT_MAX) as Hm1.
  { pose proof (max_over_ge n len 0 ltac:(lia)). unfold len in *. nia. }
  assert (∀ q, 0 <= q < n → Z.of_nat (length (strs q)) < max_over n len) as Hlen.
  { intros q Hq. pose proof (max_over_ge n len q Hq). unfold len in *. lia. }
  rewrite allreduce_max_ok; [|done|done|].
  2:{ intros q Hq. specialize (Hlen q Hq). unfold INT_MAX, len in *. lia. }
  cbn [mbind option_bind]. set (m := max_over n len) in *.
  assert (0 < m) as Hm0 by (specialize (Hlen 0); lia). clearbody m.
  rewrite allgather_ok; [|done|done|lia|nia|].
  2:{ intros q Hq. apply pad_str_length. auto. }
  cbn [mbind option_bind]. f_equal. unfold seqZ. rewrite <- list_fmap_compose.
  apply list_fmap_ext. intros i x Hx. apply lookup_seq in Hx as [-> Hi]. simpl.
  replace (Z.of_nat i + 0) with (Z.of_nat i) by lia.
  replace n with (Z.of_nat i + (1 + (n - Z.of_nat i - 1))) at 1 by lia.
  rewrite ranks_data_app by lia. rewrite drop_app_exact.
  - rewrite ranks_data_app, ranks_data_one by lia.
    apply pad_str_cstr; [apply Hs|apply Hlen]; lia.
  - apply Nat2Z.inj. rewrite (ranks_data_length _ _ _ m); [lia..|].
    intros q Hq. apply pad_str_length, Hlen. lia.
Qed.

Lemma allgather_str_all_ranks_witness :
  cobo_allgather_str 3 (λ q, if q =? 1 then lit "node-long" else lit "n") 2
  = Some [lit "n"; lit "node-long"; lit "n"].
Proof.
  etransitivity; [apply (allgather_str_all_ranks 3 (λ q, if q =? 1 then lit "node-long" else lit "n") 2)|];
    [lia|lia| |vm_compute; congruence|vm_compute; reflexivity].
  intros q _. by destruct (q =? 1).
Defined.

(** *** The host table *)

Definition host_strings (hosts : list bytes) : bytes := concat ((λ h, h ++ [NUL]) <$> hosts).

Lemma host_offsets_lookup off hosts i :
  (i < length hosts)%nat →
  host_offsets off hosts !! i = Some (off + Z.of_nat (length (host_strings (take i hosts)))).
Proof.
  revert off i. induction hosts as [|h hosts IH]; intros off i Hi; simpl in *; [lia|].
  destruct i as [|i]; simpl; [f_equal; unfold host_strings; simpl; lia|].
  rewrite IH by lia. f_equal. unfold host_strings. csimpl. rewrite !length_app. simpl. lia.
Qed.

Lemma host_offsets_length off hosts : length (host_offsets off hosts) = length hosts.
Proof. revert off. induction hosts; intros off; simpl; auto. Qed.

Lemma concat_le32_length l : length (concat (le32 <$> l)) = (4 * length l)%nat.
Proof.
  induction l as [|x l IH]; [done|]. rewrite fmap_cons. cbn [concat length].
  rewrite length_app, IH. unfold le32. rewrite le_encode_length. lia.
Qed.

Lemma rd_i32_table offs i o t :
  offs !! i = Some o → - 2 ^ 31 <= o < 2 ^ 31 →
  rd_i32 (concat (le32 <$> offs) ++ t) (4 * i) = o.
Proof.
  intros Hi Ho. rewrite <- (take_drop_middle offs i o Hi).
  rewrite fmap_app, concat_app, fmap_cons. cbn [concat]. rewrite <- !(assoc_L (++)).
  apply rd_i32_le32; [|done]. rewrite concat_le32_length, length_take.
  apply lookup_lt_Some in Hi. lia.
Qed.

(** The host table that the front end sends down the tree gives back, for
    every rank, exactly the host name it was built from. *)
Theorem hostlist_roundtrip (hosts : list bytes) (rank : nat) (h : bytes) :
  Forall (λ s, no_nul s = true) hosts →
  4 * Z.of_nat (length hosts) + Z.of_nat (length (host_strings hosts)) <= INT_MAX →
  hosts !! rank = Some h →
  cobo_expand_hostname (cobo_hostlist hosts) (Z.of_nat rank) = h.
Proof.
  intros Hnul Hsize Hr. pose proof (lookup_lt_Some _ _ _ Hr) as Hlt.
  pose proof (take_drop_middle hosts rank h Hr) as Hsplit.
  set (pre := host_strings (take rank hosts)).
  assert (host_strings hosts
          = pre ++ (h ++ [NUL]) ++ host_strings (drop (S rank) hosts)) as Hstr.
  { rewrite <- Hsplit at 1. unfold host_strings. by rewrite fmap_app, concat_app. }
  assert (length (host_strings hosts) ≥ length pre)%nat as Hpre.
  { rewrite Hstr, length_app. lia. }
  unfold cobo_expand_hostname, cobo_hostlist. fold (host_strings hosts).
  replace (Z.to_nat (Z.of_nat rank * 4)) with (4 * rank)%nat by lia.
  rewrite (rd_i32_table _ rank (4 * Z.of_nat (length hosts) + Z.of_nat (length pre))).
  2:{ by apply host_offsets_lookup. }
  2:{ unfold INT_MAX in Hsize. lia. }
  rewrite Hstr, (assoc_L (++)), drop_app_exact.
  - rewrite <- (assoc_L (++)). simpl. apply cstr_app_nul.
    rewrite Forall_forall in Hnul. apply Hnul. by eapply list_elem_of_lookup_2.
  - rewrite length_app, concat_le32_length, host_offsets_length. lia.
Qed.

Lemma hostlist_roundtrip_witness :
  cobo_expand_hostname (cobo_hostlist [lit "alpha"; lit "beta2"; lit "c"]) 1 = lit "beta2".
Proof.
  apply (hostlist_roundtrip [lit "alpha"; lit "beta2"; lit "c"] 1 (lit "beta2"));
    [by repeat constructor|vm_compute; congruence|reflexivity].
Defined.

(** The scatter writes the pieces of its buffer to the children first to
    last although the child ranks descend: with four ranks, the chunks of ranks
    1, 2 and 3 reach ranks 2, 3 and 1. *)
Theorem scatter_misroutes :
  (cobo_scatter_tree 4 1 (lit "abcd") <$> [0; 1; 2; 3])
  = [Some (lit "a"); Some (lit "d"); Some (lit "b"); Some (lit "c")].
Proof. vm_compute. reflexivity. Qed.

End Cobo.
