(* ===== verification/Message.v ===== *)
(** * Messages and their transport (ldcs_api.h, cobo_comm.c, ldcs_audit_server_md_cobo.c)

    Servers exchange typed messages over the byte streams of the COBO sockets.
    This file has the message type, the loops that move a number of bytes
    through [read] and [write] whatever chunks the operating system transfers,
    and the framing of messages on a stream. *)

From Stdlib Require Import Ascii String ZArith Lia.
From stdpp Require Import strings numbers gmap list.
From S2P Require Import Prelude Bytes.

(** ** Message types *)

Inductive ldcs_message_ids_t :=
  | LDCS_MSG_FILE_QUERY | LDCS_MSG_FILE_QUERY_EXACT_PATH | LDCS_MSG_DSO_QUERY
  | LDCS_MSG_DSO_QUERY_EXACT_PATH | LDCS_MSG_FILE_QUERY_ANSWER | LDCS_MSG_FILE_ERRCODE
  | LDCS_MSG_FILE_REQUEST | LDCS_MSG_STAT_QUERY | LDCS_MSG_LSTAT_QUERY
  | LDCS_MSG_STAT_ANSWER | LDCS_MSG_STAT_ANSWER_SELF | LDCS_MSG_STAT_NET_REQUEST
  | LDCS_MSG_LSTAT_NET_REQUEST | LDCS_MSG_STAT_NET_RESULT | LDCS_MSG_LSTAT_NET_RESULT
  | LDCS_MSG_EXISTS_QUERY | LDCS_MSG_EXISTS_ANSWER | LDCS_MSG_ORIGPATH_QUERY
  | LDCS_MSG_ORIGPATH_ANSWER | LDCS_MSG_END | LDCS_MSG_CWD
  | LDCS_MSG_PID | LDCS_MSG_COMMPATH | LDCS_MSG_CPU
  | LDCS_MSG_MYRANKINFO_QUERY | LDCS_MSG_MYRANKINFO_QUERY_ANSWER | LDCS_MSG_CACHE_ENTRIES
  | LDCS_MSG_ACK | LDCS_MSG_DESTROY | LDCS_MSG_FILE_DATA
  | LDCS_MSG_FILE_DATA_PART | LDCS_MSG_PYTHONPREFIX_REQ | LDCS_MSG_PYTHONPREFIX_RESP
  | LDCS_MSG_DIRLISTS_REQ | LDCS_MSG_DIRLISTS_RESP | LDCS_MSG_LOADER_DATA_REQ
  | LDCS_MSG_LOADER_DATA_RESP | LDCS_MSG_LOADER_DATA_NET_REQ | LDCS_MSG_LOADER_DATA_NET_RESP
  | LDCS_MSG_MD_HOSTINFO | LDCS_MSG_MD_HOSTLIST | LDCS_MSG_MD_BOOTSTRAP
  | LDCS_MSG_MD_BOOTSTRAP_END | LDCS_MSG_MD_BOOTSTRAP_END_OK | LDCS_MSG_MD_BOOTSTRAP_END_NOT_OK
  | LDCS_MSG_PRELOAD_FILELIST | LDCS_MSG_PRELOAD_DIR | LDCS_MSG_PRELOAD_FILE
  | LDCS_MSG_PRELOAD_DONE | LDCS_MSG_SELFLOAD_FILE | LDCS_MSG_SETTINGS
  | LDCS_MSG_EXIT_READY | LDCS_MSG_EXIT_CANCEL | LDCS_MSG_EXIT
  | LDCS_MSG_BUNDLE | LDCS_MSG_ALIAS | LDCS_MSG_PROCMAPS_REQ
  | LDCS_MSG_PROCMAPS_RESP | LDCS_MSG_PICKONE_REQ | LDCS_MSG_PICKONE_RESP
  | LDCS_MSG_ALIVE_REQ | LDCS_MSG_ALIVE_RESP | LDCS_MSG_CHOSEN_CACHEPATH_REQUEST
  | LDCS_MSG_CHOSEN_CACHEPATH | LDCS_MSG_CRASH_REPORT | LDCS_MSG_CRASH_RESPONSE
  | LDCS_MSG_CLIENT_STATICTLS | LDCS_MSG_CLIENT_STATICTLS_RESP | LDCS_MSG_STATICTLS
  | LDCS_MSG_STATICTLS_RESP | LDCS_MSG_CRASH_LOG | LDCS_MSG_CRASH_EXE
  | LDCS_MSG_CRASH_COREPATH | LDCS_MSG_UNKNOWN.

(** The values of the C enumeration. *)
Definition msg_ids : list ldcs_message_ids_t :=
  [LDCS_MSG_FILE_QUERY; LDCS_MSG_FILE_QUERY_EXACT_PATH; LDCS_MSG_DSO_QUERY;
   LDCS_MSG_DSO_QUERY_EXACT_PATH; LDCS_MSG_FILE_QUERY_ANSWER; LDCS_MSG_FILE_ERRCODE;
   LDCS_MSG_FILE_REQUEST; LDCS_MSG_STAT_QUERY; LDCS_MSG_LSTAT_QUERY;
   LDCS_MSG_STAT_ANSWER; LDCS_MSG_STAT_ANSWER_SELF; LDCS_MSG_STAT_NET_REQUEST;
   LDCS_MSG_LSTAT_NET_REQUEST; LDCS_MSG_STAT_NET_RESULT; LDCS_MSG_LSTAT_NET_RESULT;
   LDCS_MSG_EXISTS_QUERY; LDCS_MSG_EXISTS_ANSWER; LDCS_MSG_ORIGPATH_QUERY;
   LDCS_MSG_ORIGPATH_ANSWER; LDCS_MSG_END; LDCS_MSG_CWD;
   LDCS_MSG_PID; LDCS_MSG_COMMPATH; LDCS_MSG_CPU;
   LDCS_MSG_MYRANKINFO_QUERY; LDCS_MSG_MYRANKINFO_QUERY_ANSWER; LDCS_MSG_CACHE_ENTRIES;
   LDCS_MSG_ACK; LDCS_MSG_DESTROY; LDCS_MSG_FILE_DATA;
   LDCS_MSG_FILE_DATA_PART; LDCS_MSG_PYTHONPREFIX_REQ; LDCS_MSG_PYTHONPREFIX_RESP;
   LDCS_MSG_DIRLISTS_REQ; LDCS_MSG_DIRLISTS_RESP; LDCS_MSG_LOADER_DATA_REQ;
   LDCS_MSG_LOADER_DATA_RESP; LDCS_MSG_LOADER_DATA_NET_REQ; LDCS_MSG_LOADER_DATA_NET_RESP;
   LDCS_MSG_MD_HOSTINFO; LDCS_MSG_MD_HOSTLIST; LDCS_MSG_MD_BOOTSTRAP;
   LDCS_MSG_MD_BOOTSTRAP_END; LDCS_MSG_MD_BOOTSTRAP_END_OK; LDCS_MSG_MD_BOOTSTRAP_END_NOT_OK;
   LDCS_MSG_PRELOAD_FILELIST; LDCS_MSG_PRELOAD_DIR; LDCS_MSG_PRELOAD_FILE;
   LDCS_MSG_PRELOAD_DONE; LDCS_MSG_SELFLOAD_FILE; LDCS_MSG_SETTINGS;
   LDCS_MSG_EXIT_READY; LDCS_MSG_EXIT_CANCEL; LDCS_MSG_EXIT;
   LDCS_MSG_BUNDLE; LDCS_MSG_ALIAS; LDCS_MSG_PROCMAPS_REQ;
   LDCS_MSG_PROCMAPS_RESP; LDCS_MSG_PICKONE_REQ; LDCS_MSG_PICKONE_RESP;
   LDCS_MSG_ALIVE_REQ; LDCS_MSG_ALIVE_RESP; LDCS_MSG_CHOSEN_CACHEPATH_REQUEST;
   LDCS_MSG_CHOSEN_CACHEPATH; LDCS_MSG_CRASH_REPORT; LDCS_MSG_CRASH_RESPONSE;
   LDCS_MSG_CLIENT_STATICTLS; LDCS_MSG_CLIENT_STATICTLS_RESP; LDCS_MSG_STATICTLS;
   LDCS_MSG_STATICTLS_RESP; LDCS_MSG_CRASH_LOG; LDCS_MSG_CRASH_EXE;
   LDCS_MSG_CRASH_COREPATH; LDCS_MSG_UNKNOWN].

Definition msg_code (t : ldcs_message_ids_t) : nat :=
  match t with
  | LDCS_MSG_FILE_QUERY => 0
  | LDCS_MSG_FILE_QUERY_EXACT_PATH => 1
  | LDCS_MSG_DSO_QUERY => 2
  | LDCS_MSG_DSO_QUERY_EXACT_PATH => 3
  | LDCS_MSG_FILE_QUERY_ANSWER => 4
  | LDCS_MSG_FILE_ERRCODE => 5
  | LDCS_MSG_FILE_REQUEST => 6
  | LDCS_MSG_STAT_QUERY => 7
  | LDCS_MSG_LSTAT_QUERY => 8
  | LDCS_MSG_STAT_ANSWER => 9
  | LDCS_MSG_STAT_ANSWER_SELF => 10
  | LDCS_MSG_STAT_NET_REQUEST => 11
  | LDCS_MSG_LSTAT_NET_REQUEST => 12
  | LDCS_MSG_STAT_NET_RESULT => 13
  | LDCS_MSG_LSTAT_NET_RESULT => 14
  | LDCS_MSG_EXISTS_QUERY => 15
  | LDCS_MSG_EXISTS_ANSWER => 16
  | LDCS_MSG_ORIGPATH_QUERY => 17
  | LDCS_MSG_ORIGPATH_ANSWER => 18
  | LDCS_MSG_END => 19
  | LDCS_MSG_CWD => 20
  | LDCS_MSG_PID => 21
  | LDCS_MSG_COMMPATH => 22
  | LDCS_MSG_CPU => 23
  | LDCS_MSG_MYRANKINFO_QUERY => 24
  | LDCS_MSG_MYRANKINFO_QUERY_ANSWER => 25
  | LDCS_MSG_CACHE_ENTRIES => 26
  | LDCS_MSG_ACK => 27
  | LDCS_MSG_DESTROY => 28
  | LDCS_MSG_FILE_DATA => 29
  | LDCS_MSG_FILE_DATA_PART => 30
  | LDCS_MSG_PYTHONPREFIX_REQ => 31
  | LDCS_MSG_PYTHONPREFIX_RESP => 32
  | LDCS_MSG_DIRLISTS_REQ => 33
  | LDCS_MSG_DIRLISTS_RESP => 34
  | LDCS_MSG_LOADER_DATA_REQ => 35
  | LDCS_MSG_LOADER_DATA_RESP => 36
  | LDCS_MSG_LOADER_DATA_NET_REQ => 37
  | LDCS_MSG_LOADER_DATA_NET_RESP => 38
  | LDCS_MSG_MD_HOSTINFO => 39
  | LDCS_MSG_MD_HOSTLIST => 40
  | LDCS_MSG_MD_BOOTSTRAP => 41
  | LDCS_MSG_MD_BOOTSTRAP_END => 42
  | LDCS_MSG_MD_BOOTSTRAP_END_OK => 43
  | LDCS_MSG_MD_BOOTSTRAP_END_NOT_OK => 44
  | LDCS_MSG_PRELOAD_FILELIST => 45
  | LDCS_MSG_PRELOAD_DIR => 46
  | LDCS_MSG_PRELOAD_FILE => 47
  | LDCS_MSG_PRELOAD_DONE => 48
  | LDCS_MSG_SELFLOAD_FILE => 49
  | LDCS_MSG_SETTINGS => 50
  | LDCS_MSG_EXIT_READY => 51
  | LDCS_MSG_EXIT_CANCEL => 52
  | LDCS_MSG_EXIT => 53
  | LDCS_MSG_BUNDLE => 54
  | LDCS_MSG_ALIAS => 55
  | LDCS_MSG_PROCMAPS_REQ => 56
  | LDCS_MSG_PROCMAPS_RESP => 57
  | LDCS_MSG_PICKONE_REQ => 58
  | LDCS_MSG_PICKONE_RESP => 59
  | LDCS_MSG_ALIVE_REQ => 60
  | LDCS_MSG_ALIVE_RESP => 61
  | LDCS_MSG_CHOSEN_CACHEPATH_REQUEST => 62
  | LDCS_MSG_CHOSEN_CACHEPATH => 63
  | LDCS_MSG_CRASH_REPORT => 64
  | LDCS_MSG_CRASH_RESPONSE => 65
  | LDCS_MSG_CLIENT_STATICTLS => 66
  | LDCS_MSG_CLIENT_STATICTLS_RESP => 67
  | LDCS_MSG_STATICTLS => 68
  | LDCS_MSG_STATICTLS_RESP => 69
  | LDCS_MSG_CRASH_LOG => 70
  | LDCS_MSG_CRASH_EXE => 71
  | LDCS_MSG_CRASH_COREPATH => 72
  | LDCS_MSG_UNKNOWN => 73
  end.

Definition msg_of_code (code : nat) : option ldcs_message_ids_t := msg_ids !! code.

Lemma msg_of_code_code t : msg_of_code (msg_code t) = Some t.
Proof. by destruct t. Qed.

#[export] Instance msg_code_inj : Inj (=) (=) msg_code.
Proof.
  intros t u H. assert (Some t = Some u) as [= ->]; [|done].
  by rewrite <- !msg_of_code_code, H.
Qed.

#[export] Instance ldcs_message_ids_eq_dec : EqDecision ldcs_message_ids_t.
Proof.
  refine (λ t u, if decide (msg_code t = msg_code u) then left _ else right _); [by apply (inj msg_code)|naive_solver].
Defined.

Lemma msg_code_lt t : (msg_code t < 74)%nat.
Proof. destruct t; simpl; lia. Qed.

(** [ldcs_message_t]: the header holds the type and the length; a NULL [data]
    pointer is [None].  The length is a field of its own, as in the code. *)
Record ldcs_message_t := mk_msg {
  msg_type : ldcs_message_ids_t;
  msg_len : Z;
  msg_data : option bytes;
}.

(** [sizeof(ldcs_message_header_t)] and [sizeof(ldcs_message_t)] on LP64. *)
Definition HEADER_SIZE : nat := 16.
Definition MSG_SIZE : nat := 24.

(** The bytes of a header in memory: the enumeration, four bytes of padding
    with indeterminate contents, the length. *)
Definition header_bytes (pad : bytes) (m : ldcs_message_t) : bytes :=
  le32 (Z.of_nat (msg_code (msg_type m))) ++ pad ++ le64 (msg_len m).

Definition read_header (b : bytes) : option (ldcs_message_ids_t * Z) :=
  t ← msg_of_code (Z.to_nat (rd_u 4 b 0));
  Some (t, rd_u 8 b 8).

Lemma header_bytes_length pad m : length pad = 4%nat → length (header_bytes pad m) = HEADER_SIZE.
Proof.
  intros Hp. unfold header_bytes, le32, le64, HEADER_SIZE.
  rewrite !length_app, !le_encode_length. lia.
Qed.

Lemma read_header_bytes pad m t :
  length pad = 4%nat → 0 <= msg_len m < 2 ^ 64 →
  read_header (header_bytes pad m ++ t) = Some (msg_type m, msg_len m).
Proof.
  intros Hp Hl. pose proof (msg_code_lt (msg_type m)).
  unfold read_header, header_bytes, le32, le64. rewrite <- !(assoc_L (++)).
  rewrite (rd_u_front 4), le_decode_encode_small, Nat2Z.id, msg_of_code_code
    by (simpl; rewrite ?le_encode_length; lia). cbn [mbind option_bind].
  rewrite rd_u_app_skip, rd_u_app_skip by (rewrite ?le_encode_length; lia).
  rewrite le_encode_length, Hp. simpl Nat.sub.
  rewrite rd_u_front, le_decode_encode_small
    by (simpl; rewrite ?le_encode_length; lia). done.
Qed.

(** ** Moving bytes through [read] and [write] *)

Module Comm.

(** What one system call does: transfer up to [k] bytes, report end of file, be
    interrupted ([EINTR], [EAGAIN]), or fail. *)
Inductive io :=
  | IoBytes (k : nat)
  | IoEof
  | IoRetry
  | IoError.

(** The outcome of a transfer loop: done, failed, or still waiting after the
    given calls. *)
Inductive xfer (A : Type) :=
  | XDone (a : A)
  | XFail
  | XBlocked.
Arguments XDone {A} a.
Arguments XFail {A}.
Arguments XBlocked {A}.

(** [ll_read]: [pos < count] is tested before each call; [got] are the bytes
    stored so far, [stream] what the socket still holds.  One element of [calls]
    is consumed by each [read].  The result is the bytes read, the rest of the
    stream and of the calls. *)
Fixpoint ll_read (count : nat) (got stream : bytes) (calls : list io)
    : xfer (bytes * bytes * list io) :=
  if (length got <? count)%nat then
    match calls with
    | [] => XBlocked
    | IoBytes k :: calls' =>
        let k' := (Nat.min k (Nat.min (count - length got) (length stream)))%nat in
        match k' with
        | O => XFail
        | S _ => ll_read count (got ++ take k' stream) (drop k' stream) calls'
        end
    | IoEof :: _ => XFail
    | IoRetry :: calls' => ll_read count got stream calls'
    | IoError :: _ => XFail
    end
  else XDone (got, stream, calls).

(** [ll_write]: [sent] are the bytes the socket accepted so far. *)
Fixpoint ll_write (buf sent : bytes) (calls : list io) : xfer (bytes * list io) :=
  if (length sent <? length buf)%nat then
    match calls with
    | [] => XBlocked
    | IoBytes k :: calls' =>
        let k' := (Nat.min k (length buf - length sent))%nat in
        match k' with
        | O => XFail
        | S _ => ll_write buf (sent ++ take k' (drop (length sent) buf)) calls'
        end
    | IoEof :: _ => XFail
    | IoRetry :: calls' => ll_write buf sent calls'
    | IoError :: _ => XFail
    end
  else XDone (sent, calls).

(** The calls make progress and none fails. *)
Definition good_io (i : io) : bool :=
  match i with IoBytes k => (0 <? k)%nat | IoRetry => true | _ => false end.

Definition io_bytes (i : io) : nat := match i with IoBytes k => k | _ => O end.

Definition budget (calls : list io) : nat := sum_list (io_bytes <$> calls).

Lemma ll_read_gen count calls : ∀ got stream,
  (length got ≤ count)%nat → (count - length got ≤ length stream)%nat →
  forallb good_io calls = true → (count - length got ≤ budget calls)%nat →
  ∃ calls', ll_read count got stream calls =
    XDone (got ++ take (count - length got) stream, drop (count - length got) stream, calls').
Proof.
  unfold budget. induction calls as [|i calls IH]; intros got stream Hg Hs Hc Hb; csimpl in Hb.
  - exists []. simpl. rewrite (proj2 (Nat.ltb_ge _ _)) by lia.
    replace (count - length got)%nat with O by lia. by rewrite app_nil_r.
  - simpl ll_read. destruct (length got <? count)%nat eqn:E; bool_to_prop.
    2:{ exists (i :: calls). replace (count - length got)%nat with O by lia. by rewrite app_nil_r. }
    simpl in Hc. apply andb_true_iff in Hc as [Hi Hc].
    destruct i as [k| | |]; cbn [good_io io_bytes] in Hi, Hb; [|done| |done].
    + apply Nat.ltb_lt in Hi.
      destruct (Nat.min k _) as [|k''] eqn:Ek; [lia|].
      remember (S k'') as k' eqn:Ek'. clear k'' Ek'.
      destruct (IH (got ++ take k' stream) (drop k' stream)) as (calls' & ->);
        rewrite ?length_app, ?length_take, ?length_drop; try lia; try done.
      exists calls'. rewrite Nat.min_l by lia. rewrite <- (assoc_L (++)), drop_drop.
      replace (count - length got)%nat with (k' + (count - (length got + k')))%nat by lia.
      by rewrite take_take_drop.
    + destruct (IH got stream) as (calls' & ->); eauto.
Qed.

(** However the operating system splits the transfer into chunks and
    however often a call is interrupted, once the calls have offered enough
    bytes [ll_read] has returned exactly the next [count] bytes of the stream,
    and left the rest of the stream untouched. *)
Theorem ll_read_exact (count : nat) (stream : bytes) (calls : list io) :
  (count ≤ length stream)%nat → forallb good_io calls = true → (count ≤ budget calls)%nat →
  ∃ calls', ll_read count [] stream calls = XDone (take count stream, drop count stream, calls').
Proof.
  intros Hs Hc Hb. destruct (ll_read_gen count calls [] stream) as (calls' & H);
    simpl; try lia; try done.
  rewrite H. simpl. rewrite Nat.sub_0_r. eauto.
Qed.

Lemma ll_read_exact_witness :
  ∃ calls', ll_read 5 [] (lit "hello, world") [IoBytes 2; IoRetry; IoBytes 1; IoBytes 9]
            = XDone (lit "hello", lit ", world", calls').
Proof.
  apply (ll_read_exact 5 (lit "hello, world") [IoBytes 2; IoRetry; IoBytes 1; IoBytes 9]);
    [vm_compute; lia|reflexivity|vm_compute; lia].
Defined.

Lemma ll_write_gen buf calls : ∀ sent,
  sent = take (length sent) buf → forallb good_io calls = true →
  (length buf - length sent ≤ budget calls)%nat →
  ∃ calls', ll_write buf sent calls = XDone (buf, calls').
Proof.
  unfold budget. induction calls as [|i calls IH]; intros sent Hs Hc Hb; csimpl in Hb.
  - exists []. simpl. rewrite (proj2 (Nat.ltb_ge _ _)) by lia.
    rewrite Hs at 1. by rewrite take_ge by lia.
  - simpl ll_write. destruct (length sent <? length buf)%nat eqn:E; bool_to_prop.
    2:{ exists (i :: calls). rewrite Hs at 1. by rewrite take_ge by lia. }
    simpl in Hc. apply andb_true_iff in Hc as [Hi Hc].
    destruct i as [k| | |]; cbn [good_io io_bytes] in Hi, Hb; [|done| |done].
    + apply Nat.ltb_lt in Hi.
      destruct (Nat.min k _) as [|k''] eqn:Ek; [lia|].
      remember (S k'') as k' eqn:Ek'. clear k'' Ek'.
      apply IH; [|done|]; rewrite length_app, length_take, length_drop, Nat.min_l by lia; [|lia].
      rewrite Hs at 1. by rewrite take_take_drop.
    + by apply IH.
Qed.

(** [ll_write] hands the whole buffer to the socket, in order, whatever chunks
    the system calls accept. *)
Lemma ll_write_exact buf calls :
  forallb good_io calls = true → (length buf ≤ budget calls)%nat →
  ∃ calls', ll_write buf [] calls = XDone (buf, calls').
Proof. intros Hc Hb. apply ll_write_gen; [done|done|simpl; lia]. Qed.

(** ** Framing of messages on a stream *)

(** The in-memory image of an [ldcs_message_t]: header and [data] pointer. *)
Definition msg_bytes (pad ptr : bytes) (m : ldcs_message_t) : bytes :=
  header_bytes pad m ++ ptr.

(** [write_msg]: what a message puts on the stream. *)
Definition write_msg (pad ptr : bytes) (m : ldcs_message_t) : bytes :=
  msg_bytes pad ptr m ++
    (if negb (msg_len m =? 0) then
       match msg_data m with Some d => take (Z.to_nat (msg_len m)) d | None => [] end
     else []).

(** The messages whose payload [read_msg] leaves on the socket. *)
Definition postponed (t : ldcs_message_ids_t) : bool :=
  match t with LDCS_MSG_FILE_DATA | LDCS_MSG_PRELOAD_FILE => true | _ => false end.

(** [ll_read] of [n] bytes once the peer has sent them. *)
Definition take_bytes (n : nat) (stream : bytes) : option (bytes * bytes) :=
  if (n <=? length stream)%nat then Some (take n stream, drop n stream) else None.

(** [read_msg]: the message read and what is left on the stream. *)
Definition read_msg (stream : bytes) : option (ldcs_message_t * bytes) :=
  '(hdr, rest) ← take_bytes MSG_SIZE stream;
  '(t, len) ← read_header hdr;
  if postponed t then Some (mk_msg t len None, rest)
  else if negb (len =? 0) then
    '(d, rest') ← take_bytes (Z.to_nat len) rest;
    Some (mk_msg t len (Some d), rest')
  else Some (mk_msg t len None, rest).

(** [ldcs_audit_server_md_complete_msg_read]: the postponed payload. *)
Definition complete_msg_read (m : ldcs_message_t) (size : Z) (stream : bytes)
    : option (bytes * bytes) :=
  if size <=? msg_len m then take_bytes (Z.to_nat size) stream else None.

(** [ldcs_audit_server_md_send_noncontig]: the payload from two buffers. *)
Definition send_noncontig (pad ptr : bytes) (m : ldcs_message_t) (secondary_data : bytes)
    (secondary_size : Z) : option bytes :=
  if secondary_size =? 0 then Some (write_msg pad ptr m)
  else if secondary_size <=? msg_len m then
    let initial_size := msg_len m - secondary_size in
    if initial_size =? 0 then
      Some (msg_bytes pad ptr m ++ take (Z.to_nat secondary_size) secondary_data)
    else
      d ← msg_data m;
      Some (msg_bytes pad ptr m ++ take (Z.to_nat initial_size) d
              ++ take (Z.to_nat secondary_size) secondary_data)
  else None.

(** A message the code builds: the length is that of its data, and there is
    data exactly when there is a length. *)
Definition msg_wf (m : ldcs_message_t) : Prop :=
  0 <= msg_len m < 2 ^ 64 ∧
  match msg_data m with
  | Some d => msg_len m = Z.of_nat (length d) ∧ msg_len m ≠ 0
  | None => msg_len m = 0
  end.

Lemma take_bytes_app n a b : length a = n → take_bytes n (a ++ b) = Some (a, b).
Proof.
  intros <-. unfold take_bytes. rewrite length_app, (proj2 (Nat.leb_le _ _)) by lia.
  by rewrite take_app_length, drop_app_length.
Qed.

Lemma read_msg_header pad ptr m t :
  length pad = 4%nat → length ptr = 8%nat → 0 <= msg_len m < 2 ^ 64 →
  take_bytes MSG_SIZE (msg_bytes pad ptr m ++ t) = Some (msg_bytes pad ptr m, t) ∧
  read_header (msg_bytes pad ptr m) = Some (msg_type m, msg_len m).
Proof.
  intros Hp Hq Hl. split.
  - apply take_bytes_app. unfold msg_bytes.
    rewrite length_app, header_bytes_length by done. unfold HEADER_SIZE, MSG_SIZE. lia.
  - by apply read_header_bytes.
Qed.

(** What one server writes the next one reads: a message written to a
    stream is read back with its type, length and data and nothing of what
    follows is consumed; a message whose payload is postponed leaves that
    payload on the stream, where [complete_msg_read] picks it up. *)
Theorem read_write_msg (pad ptr t : bytes) (m : ldcs_message_t) :
  length pad = 4%nat → length ptr = 8%nat → msg_wf m →
  if postponed (msg_type m) then
    read_msg (write_msg pad ptr m ++ t)
      = Some (mk_msg (msg_type m) (msg_len m) None, default [] (msg_data m) ++ t) ∧
    complete_msg_read m (msg_len m) (default [] (msg_data m) ++ t)
      = Some (default [] (msg_data m), t)
  else read_msg (write_msg pad ptr m ++ t) = Some (m, t).
Proof.
  intros Hp Hq [Hl Hd]. unfold read_msg, write_msg, complete_msg_read.
  rewrite <- (assoc_L (++)). set (body := if negb _ then _ else _).
  assert (body = default [] (msg_data m) ∧ length body = Z.to_nat (msg_len m)) as [-> Hb].
  { unfold body. destruct (msg_data m) as [d|]; simpl.
    - destruct Hd as [-> Hnz]. rewrite (proj2 (Z.eqb_neq _ _)) by done. simpl.
      rewrite Nat2Z.id, firstn_all. done.
    - rewrite Hd. done. }
  destruct (read_msg_header pad ptr m (default [] (msg_data m) ++ t)) as [-> E]; [done..|].
  cbn [mbind option_bind]. rewrite E. cbn [mbind option_bind].
  rewrite Z.leb_refl, take_bytes_app by done.
  destruct (postponed (msg_type m)); [done|].
  destruct m as [ty len [d|]]; simpl in *.
  - rewrite (proj2 (Z.eqb_neq _ _)) by tauto. done.
  - by subst len.
Qed.

Lemma read_write_msg_witness :
  read_msg (write_msg (lit "pppp") (lit "pointer.") (mk_msg LDCS_MSG_EXIT 0 None) ++ lit "next")
  = Some (mk_msg LDCS_MSG_EXIT 0 None, lit "next").
Proof.
  apply (read_write_msg (lit "pppp") (lit "pointer.") (lit "next") (mk_msg LDCS_MSG_EXIT 0 None));
    [reflexivity|reflexivity|unfold msg_wf; simpl; lia].
Defined.

(** Sending the payload from two buffers is sending their concatenation. *)
Lemma send_noncontig_write pad ptr ty d1 d2 :
  d1 ++ d2 ≠ [] → Z.of_nat (length (d1 ++ d2)) < 2 ^ 64 →
  send_noncontig pad ptr (mk_msg ty (Z.of_nat (length (d1 ++ d2))) (Some d1)) d2
    (Z.of_nat (length d2))
  = Some (write_msg pad ptr (mk_msg ty (Z.of_nat (length (d1 ++ d2))) (Some (d1 ++ d2)))).
Proof.
  intros Hne Hlen. unfold send_noncontig, write_msg, msg_bytes, header_bytes. simpl.
  assert (length (d1 ++ d2) ≠ 0%nat) by (by intros ?%nil_length_inv).
  rewrite (proj2 (Z.eqb_neq (Z.of_nat (length (d1 ++ d2))) 0)) by lia. simpl.
  rewrite Nat2Z.id, firstn_all. rewrite length_app in *.
  destruct (_ =? 0) eqn:E; bool_to_prop.
  { destruct d2; simpl in *; [|lia]. by rewrite !app_nil_r, Nat.add_0_r, firstn_all. }
  rewrite (proj2 (Z.leb_le _ _)) by lia.
  replace (Z.of_nat (length d1 + length d2) - Z.of_nat (length d2)) with (Z.of_nat (length d1)) by lia.
  rewrite !Nat2Z.id. destruct (Z.of_nat (length d1) =? 0) eqn:E1; bool_to_prop.
  - destruct d1; simpl in *; [|lia]. by rewrite firstn_all.
  - simpl. by rewrite !firstn_all.
Qed.

End Comm.
