(* ===== verification/Msgbundle.v ===== *)
(** * Message bundling (msgbundle.c, handle_msgbundle)

    Small messages to the same destination are collected in a buffer per
    destination and sent as one [LDCS_MSG_BUNDLE]; the receiver takes the bundle
    apart and handles the messages one by one.  A timer thread asks the event
    loop to flush the buffers after a while. *)

From Stdlib Require Import Ascii String ZArith Lia.
From stdpp Require Import strings numbers gmap list.
From S2P Require Import Prelude Bytes Requestors Message.

Module Msgbundle.

Definition BROADCAST : node_peer_t := -2.
Definition PARENT : node_peer_t := -3.

(** [msgbundle_entry_t]: the destination and the first [position] bytes of its
    buffer. *)
Record msgbundle_entry := mk_mb { node : node_peer_t; cache : bytes }.

Definition position (mb : msgbundle_entry) : Z := Z.of_nat (length (cache mb)).

(** The part of the process data the bundling uses, with the calls made to the
    network layer, oldest first, as pairs of a destination and a message. *)
Record bstate := mk_bstate {
  msgbundle_entries : list msgbundle_entry;
  md_calls : list (node_peer_t * ldcs_message_t);
}.

(** The settings: [OPT_MSGBUNDLE], the buffer size, the number of children. *)
Record bconf := mk_bconf {
  opt_msgbundle : bool;
  msgbundle_cache_size_kb : Z;
  num_children : Z;
}.

Definition capacity (c : bconf) : Z := wrap64 (msgbundle_cache_size_kb c * 1024).

Section bundle.
  (** The contents of the padding of a header in memory are indeterminate. *)
  Variable pad : ldcs_message_t → bytes.

(** A call of the network layer ([ldcs_audit_server_md_send], [_broadcast] or
    [_forward_query] according to the destination). *)
Definition md_call (st : bstate) (d : node_peer_t) (m : ldcs_message_t) : bstate :=
  mk_bstate (msgbundle_entries st) (md_calls st ++ [(d, m)]).

Definition set_entries (st : bstate) (es : list msgbundle_entry) : bstate :=
  mk_bstate es (md_calls st).

(** [flush_msgbuffer] on the entry at index [i]. *)
Definition flush_msgbuffer (st : bstate) (i : nat) : bstate :=
  match msgbundle_entries st !! i with
  | Some mb =>
      if position mb =? 0 then st
      else
        let msg := mk_msg LDCS_MSG_BUNDLE (position mb) (Some (cache mb)) in
        set_entries (md_call st (node mb) msg)
          (<[i := mk_mb (node mb) []]> (msgbundle_entries st))
  | None => st
  end.

(** [flush_msgbuffer_cb]: every entry in list order. *)
Fixpoint flush_from (st : bstate) (i n : nat) : bstate :=
  match n with
  | O => st
  | S n' => flush_from (flush_msgbuffer st i) (S i) n'
  end.

Definition flush_msgbuffer_cb (st : bstate) : bstate :=
  flush_from st 0 (length (msgbundle_entries st)).

Definition msgbundle_force_flush (c : bconf) (st : bstate) : bstate :=
  if negb (opt_msgbundle c) then st else flush_msgbuffer_cb st.

(** [for (mb = entries; mb && mb->node != node; mb = mb->next);] *)
Fixpoint find_entry (es : list msgbundle_entry) (d : node_peer_t) : option nat :=
  match es with
  | [] => None
  | mb :: es' => if node mb =? d then Some O else S <$> find_entry es' d
  end.

(** The payload of a message given in one or two buffers. *)
Definition full_payload (m : ldcs_message_t) (secondary_data : bytes) (secondary_size : Z) : bytes :=
  take (Z.to_nat (wrap64 (msg_len m - secondary_size))) (default [] (msg_data m))
    ++ take (Z.to_nat secondary_size) secondary_data.

(** The three [memcpy]s; [None] when they leave the buffer. *)
Definition append_msg (c : bconf) (mb : msgbundle_entry) (m : ldcs_message_t)
    (secondary_data : bytes) (secondary_size : Z) : option msgbundle_entry :=
  let cache' := cache mb ++ header_bytes (pad m) m ++ full_payload m secondary_data secondary_size in
  if Z.of_nat (length cache') <=? capacity c then Some (mk_mb (node mb) cache') else None.

(** [spindle_send_worker]; the flag of the result is [PASSTHROUGH]. *)
Definition spindle_send_worker (c : bconf) (st : bstate) (m : ldcs_message_t)
    (d : node_peer_t) (secondary_data : bytes) (secondary_size : Z)
    : option (bstate * bool) :=
  if negb (opt_msgbundle c) then Some (st, true)
  else if (num_children c =? 0) && (d =? BROADCAST) then Some (st, false)
  else
    let mb := find_entry (msgbundle_entries st) d in
    if wrap64 (Z.of_nat HEADER_SIZE * 2 + msg_len m) >=? capacity c then
      Some (match mb with Some i => flush_msgbuffer st i | None => st end, true)
    else
      let '(st1, i) :=
        match mb with
        | Some i => (st, i)
        | None => (set_entries st (mk_mb d [] :: msgbundle_entries st), O)
        end in
      mb1 ← msgbundle_entries st1 !! i;
      let st2 :=
        if wrap64 (Z.of_nat HEADER_SIZE + msg_len m + position mb1) >=? capacity c
        then flush_msgbuffer st1 i else st1 in
      mb2 ← msgbundle_entries st2 !! i;
      mb3 ← append_msg c mb2 m secondary_data secondary_size;
      Some (set_entries st2 (<[i := mb3]> (msgbundle_entries st2)), false).

(** The network layer's non-contiguous sends put both buffers on the wire. *)
Definition noncontig_msg (m : ldcs_message_t) (sdata : bytes) (ssize : Z) : ldcs_message_t :=
  mk_msg (msg_type m) (msg_len m) (Some (full_payload m sdata ssize)).

Definition spindle_send_noncontig (c : bconf) (st : bstate) (m : ldcs_message_t)
    (d : node_peer_t) (sdata : bytes) (ssize : Z) : option bstate :=
  '(st1, passthrough) ← spindle_send_worker c st m d sdata ssize;
  Some (if (passthrough : bool) then md_call st1 d (noncontig_msg m sdata ssize) else st1).

Definition spindle_send (c : bconf) (st : bstate) (m : ldcs_message_t) (d : node_peer_t)
    : option bstate :=
  '(st1, passthrough) ← spindle_send_worker c st m d [] 0;
  Some (if (passthrough : bool) then md_call st1 d m else st1).

Definition spindle_broadcast_noncontig (c : bconf) (st : bstate) (m : ldcs_message_t)
    (sdata : bytes) (ssize : Z) : option bstate :=
  '(st1, passthrough) ← spindle_send_worker c st m BROADCAST sdata ssize;
  Some (if (passthrough : bool) then md_call st1 BROADCAST (noncontig_msg m sdata ssize) else st1).

Definition spindle_broadcast (c : bconf) (st : bstate) (m : ldcs_message_t) : option bstate :=
  '(st1, passthrough) ← spindle_send_worker c st m BROADCAST [] 0;
  Some (if (passthrough : bool) then md_call st1 BROADCAST m else st1).

Definition spindle_forward_query (c : bconf) (st : bstate) (m : ldcs_message_t) : option bstate :=
  '(st1, passthrough) ← spindle_send_worker c st m PARENT [] 0;
  Some (if (passthrough : bool) then md_call st1 PARENT m else st1).

(** ** Taking a bundle apart *)

(** The loop of [handle_msgbundle]: the submessages in the order they are
    handled.  [None] when a header is cut off or names no message type. *)
Fixpoint unbundle (fuel : nat) (buffer : bytes) : option (list (ldcs_message_ids_t * bytes)) :=
  match fuel with
  | O => if (0 <? length buffer)%nat then None else Some []
  | S fuel' =>
      if (0 <? length buffer)%nat then
        if (HEADER_SIZE <=? length buffer)%nat then
          '(t, len) ← read_header buffer;
          let body := drop HEADER_SIZE buffer in
          rest ← unbundle fuel' (drop (Z.to_nat len) body);
          Some ((t, take (Z.to_nat len) body) :: rest)
        else None
      else Some []
  end.

Definition handle_msgbundle (buffer : bytes) : option (list (ldcs_message_ids_t * bytes)) :=
  unbundle (length buffer) buffer.

(** What a message from the network layer means to its receiver. *)
Definition received (m : ldcs_message_t) : list (ldcs_message_ids_t * bytes) :=
  match msg_type m with
  | LDCS_MSG_BUNDLE => default [] (handle_msgbundle (default [] (msg_data m)))
  | t => [(t, take (Z.to_nat (msg_len m)) (default [] (msg_data m)))]
  end.

(** ** Correctness *)

(** The operations of a server on the bundling layer; [OpFlush] is the callback
    of the timer. *)
Inductive bop :=
  | OpSendNoncontig (m : ldcs_message_t) (d : node_peer_t) (sdata : bytes) (ssize : Z)
  | OpSend (m : ldcs_message_t) (d : node_peer_t)
  | OpBroadcastNoncontig (m : ldcs_message_t) (sdata : bytes) (ssize : Z)
  | OpBroadcast (m : ldcs_message_t)
  | OpForwardQuery (m : ldcs_message_t)
  | OpFlush.

Definition run_op (c : bconf) (st : bstate) (o : bop) : option bstate :=
  match o with
  | OpSendNoncontig m d sdata ssize => spindle_send_noncontig c st m d sdata ssize
  | OpSend m d => spindle_send c st m d
  | OpBroadcastNoncontig m sdata ssize => spindle_broadcast_noncontig c st m sdata ssize
  | OpBroadcast m => spindle_broadcast c st m
  | OpForwardQuery m => spindle_forward_query c st m
  | OpFlush => Some (flush_msgbuffer_cb st)
  end.

Fixpoint run_ops (c : bconf) (st : bstate) (os : list bop) : option bstate :=
  match os with
  | [] => Some st
  | o :: os' => st' ← run_op c st o; run_ops c st' os'
  end.

Definition bstate_init : bstate := mk_bstate [] [].

(** The destination and the contents of what an operation sends. *)
Definition op_sent (o : bop) : option (node_peer_t * (ldcs_message_ids_t * bytes)) :=
  match o with
  | OpSendNoncontig m d sdata ssize => Some (d, (msg_type m, full_payload m sdata ssize))
  | OpSend m d => Some (d, (msg_type m, default [] (msg_data m)))
  | OpBroadcastNoncontig m sdata ssize => Some (BROADCAST, (msg_type m, full_payload m sdata ssize))
  | OpBroadcast m => Some (BROADCAST, (msg_type m, default [] (msg_data m)))
  | OpForwardQuery m => Some (PARENT, (msg_type m, default [] (msg_data m)))
  | OpFlush => None
  end.

(** What a sequence of operations sends to [d], in order. *)
Definition sent_to (d : node_peer_t) (os : list bop) : list (ldcs_message_ids_t * bytes) :=
  omap (λ o, match op_sent o with
             | Some (d', x) => if d' =? d then Some x else None
             | None => None
             end) os.

(** What the receiver at [d] handles, in order. *)
Definition received_by (d : node_peer_t) (st : bstate) : list (ldcs_message_ids_t * bytes) :=
  concat ((λ x, if fst x =? d then received (snd x) else []) <$> md_calls st).

(** A message given with the buffers its length announces. *)
Definition op_msg_ok (m : ldcs_message_t) (sdata : bytes) (ssize : Z) : Prop :=
  msg_type m ≠ LDCS_MSG_BUNDLE ∧ 0 <= msg_len m < 2 ^ 63 ∧
  ssize = Z.of_nat (length sdata) ∧
  msg_len m = Z.of_nat (length (default [] (msg_data m))) + ssize.

Definition op_ok (o : bop) : Prop :=
  match o with
  | OpSendNoncontig m _ sdata ssize | OpBroadcastNoncontig m sdata ssize =>
      op_msg_ok m sdata ssize
  | OpSend m _ | OpBroadcast m | OpForwardQuery m => op_msg_ok m [] 0
  | OpFlush => True
  end.

Context (Hpad : ∀ m, length (pad m) = 4%nat).

(** A message in a buffer, with its payload. *)
Abbreviation bmsg := (ldcs_message_t * bytes)%type.
Definition enc (x : bmsg) : bytes := header_bytes (pad (fst x)) (fst x) ++ snd x.
Definition canon (x : bmsg) : ldcs_message_ids_t * bytes := (msg_type (fst x), snd x).
Definition bmsg_ok (x : bmsg) : Prop :=
  0 <= msg_len (fst x) < 2 ^ 64 ∧ msg_len (fst x) = Z.of_nat (length (snd x)).

Lemma enc_length x : length (enc x) = (HEADER_SIZE + length (snd x))%nat.
Proof. unfold enc. by rewrite length_app, header_bytes_length by apply Hpad. Qed.

Lemma unbundle_enc ms fuel :
  Forall bmsg_ok ms → (length (concat (enc <$> ms)) ≤ fuel)%nat →
  unbundle fuel (concat (enc <$> ms)) = Some (canon <$> ms).
Proof.
  intros Hms. revert fuel. induction Hms as [|[m p] ms [Hr Hl] Hms IH]; intros fuel Hf.
  { by destruct fuel. }
  rewrite fmap_cons in *. cbn [concat] in *. rewrite length_app, enc_length in Hf.
  unfold HEADER_SIZE in Hf. simpl in Hl, Hr. cbn [snd] in Hf.
  destruct fuel as [|fuel]; [lia|]. cbn [unbundle].
  rewrite length_app, enc_length, (proj2 (Nat.ltb_lt _ _)), (proj2 (Nat.leb_le _ _))
    by (unfold HEADER_SIZE; lia).
  assert (HEADER_SIZE = length (header_bytes (pad m) m)) as EH
    by (by rewrite header_bytes_length).
  unfold enc at 1 3 5. cbn [fst snd]. rewrite <- (assoc_L (++)).
  rewrite read_header_bytes by done. cbn [mbind option_bind].
  rewrite drop_app_exact by done. rewrite Hl, Nat2Z.id, drop_app_exact, take_app_exact by done.
  rewrite IH by lia. done.
Qed.

Lemma handle_msgbundle_enc ms :
  Forall bmsg_ok ms → handle_msgbundle (concat (enc <$> ms)) = Some (canon <$> ms).
Proof. intros H. by apply unbundle_enc. Qed.

(** *** Entries *)

Definition pend (es : list msgbundle_entry) (d : node_peer_t) : bytes :=
  match find_entry es d with
  | Some i => default [] (cache <$> es !! i)
  | None => []
  end.

Lemma find_entry_Some es d i :
  find_entry es d = Some i → ∃ mb, es !! i = Some mb ∧ node mb = d.
Proof.
  revert i. induction es as [|mb es IH]; intros i; simpl; [done|].
  destruct (node mb =? d) eqn:E; bool_to_prop.
  - intros [= <-]. by exists mb.
  - intros (j & Hj & ->)%fmap_Some. by apply IH.
Qed.

Lemma find_entry_None es d : find_entry es d = None ↔ d ∉ node <$> es.
Proof.
  induction es as [|mb es IH]; csimpl; [set_solver|].
  destruct (node mb =? d) eqn:E; bool_to_prop.
  - split; [done|]. intros H. destruct H. subst d. left.
  - rewrite fmap_None, IH, elem_of_cons. naive_solver.
Qed.

Lemma find_entry_lookup es i mb :
  NoDup (node <$> es) → es !! i = Some mb → find_entry es (node mb) = Some i.
Proof.
  intros Hnd Hi. destruct (find_entry es (node mb)) as [j|] eqn:E.
  - apply find_entry_Some in E as (mb' & Hj & Hn). f_equal.
    apply (NoDup_lookup _ _ _ (node mb) Hnd); rewrite list_lookup_fmap.
    + by rewrite Hj; simpl; rewrite Hn.
    + by rewrite Hi.
  - apply find_entry_None in E. destruct E. apply list_elem_of_fmap.
    exists mb. split; [done|]. by eapply list_elem_of_lookup_2.
Qed.

Lemma find_entry_insert es i mb mb' d :
  es !! i = Some mb → node mb' = node mb → find_entry (<[i := mb']> es) d = find_entry es d.
Proof.
  revert i. induction es as [|x es IH]; intros i; [done|].
  destruct i as [|i]; simpl; intros Hi Hn; [simplify_eq; by rewrite Hn|].
  by rewrite IH.
Qed.

Lemma pend_insert es i mb mb' d :
  NoDup (node <$> es) → es !! i = Some mb → node mb' = node mb →
  pend (<[i := mb']> es) d = if d =? node mb then cache mb' else pend es d.
Proof.
  intros Hnd Hi Hn. unfold pend. rewrite (find_entry_insert es i mb mb' d Hi Hn).
  pose proof (lookup_lt_Some _ _ _ Hi).
  destruct (d =? node mb) eqn:E; bool_to_prop.
  - subst d. rewrite (find_entry_lookup es i mb) by done.
    by rewrite list_lookup_insert_eq by done.
  - destruct (find_entry es d) as [j|] eqn:Ej; [|done].
    rewrite list_lookup_insert_ne; [done|]. intros ->.
    apply find_entry_Some in Ej as (? & ? & ?). naive_solver.
Qed.

Lemma pend_lookup es i mb :
  NoDup (node <$> es) → es !! i = Some mb → pend es (node mb) = cache mb.
Proof.
  intros Hnd Hi. unfold pend. by rewrite (find_entry_lookup es i mb), Hi.
Qed.

Lemma nodes_insert (es : list msgbundle_entry) (i : nat) mb mb' :
  es !! i = Some mb → node mb' = node mb → node <$> <[i := mb']> es = node <$> es.
Proof.
  intros Hi Hn. rewrite list_fmap_insert, Hn. apply list_insert_id.
  by rewrite list_lookup_fmap, Hi.
Qed.

Lemma received_by_call d d' m st es :
  received_by d (set_entries (md_call st d' m) es)
  = received_by d st ++ (if d' =? d then received m else []).
Proof.
  unfold received_by, set_entries, md_call. simpl.
  rewrite fmap_app, concat_app. simpl. by rewrite app_nil_r.
Qed.

(** *** The invariant *)

Context (c : bconf).

Lemma capacity_nonneg : 0 <= capacity c.
Proof. apply Z.mod_pos_bound. lia. Qed.

(** A broadcast of a leaf has no recipients and is dropped. *)
Definition live (d : node_peer_t) : Prop := ¬ (num_children c = 0 ∧ d = BROADCAST).

(** Each buffer holds whole messages, fits its allocation, and, behind what the
    receiver was given, makes up what was sent. *)
Definition buffered_ok (st : bstate) (d : node_peer_t)
    (sent : list (ldcs_message_ids_t * bytes)) : Prop :=
  ∃ ms, pend (msgbundle_entries st) d = concat (enc <$> ms) ∧ Forall bmsg_ok ms ∧
    Z.of_nat (length (pend (msgbundle_entries st) d)) <= capacity c ∧
    (live d → received_by d st ++ (canon <$> ms) = sent).

Definition Inv (st : bstate) (sent : node_peer_t → list (ldcs_message_ids_t * bytes)) : Prop :=
  NoDup (node <$> msgbundle_entries st) ∧ ∀ d, buffered_ok st d (sent d).

Lemma inv_flush st i sent : Inv st sent → Inv (flush_msgbuffer st i) sent.
Proof.
  intros [Hnd Hd]. unfold flush_msgbuffer.
  destruct (msgbundle_entries st !! i) as [mb|] eqn:Hi; [|done].
  destruct (position mb =? 0) eqn:Hp; [done|].
  split; [simpl; by rewrite (nodes_insert _ _ mb)|]. intros d.
  destruct (Hd d) as (ms & Hpend & Hok & Hcap & Hrecv). unfold buffered_ok.
  simpl msgbundle_entries. rewrite (pend_insert _ _ mb) by done. rewrite received_by_call.
  destruct (d =? node mb) eqn:E; bool_to_prop.
  - subst d. exists []. split_and!; [done|done|apply capacity_nonneg|].
    intros Hlive. rewrite Z.eqb_refl, app_nil_r, <- Hrecv by done. f_equal.
    rewrite (pend_lookup _ i) in Hpend by done.
    unfold received. simpl. by rewrite Hpend, handle_msgbundle_enc.
  - exists ms. split_and!; try done. rewrite (proj2 (Z.eqb_neq _ _)) by done.
    by rewrite app_nil_r.
Qed.

Lemma flush_keeps_nodes st i :
  node <$> msgbundle_entries (flush_msgbuffer st i) = node <$> msgbundle_entries st.
Proof.
  unfold flush_msgbuffer. destruct (_ !! i) as [mb|] eqn:Hi; [|done].
  destruct (_ =? 0); [done|]. simpl. by rewrite (nodes_insert _ _ mb).
Qed.

(** Flushing entry [i] empties it and leaves the other entries alone. *)
Lemma flush_lookup st i j :
  cache <$> msgbundle_entries (flush_msgbuffer st i) !! j =
    if decide (i = j) then (λ _, []) <$> msgbundle_entries st !! j
    else cache <$> msgbundle_entries st !! j.
Proof.
  unfold flush_msgbuffer. destruct (decide (i = j)) as [->|Hne].
  - destruct (msgbundle_entries st !! j) as [mb|] eqn:Hj; [|by rewrite Hj].
    destruct (position mb =? 0) eqn:E; simpl.
    + rewrite Hj. simpl. f_equal. bool_to_prop. unfold position in E.
      apply nil_length_inv. lia.
    + by rewrite list_lookup_insert_eq by (by eapply lookup_lt_Some).
  - destruct (msgbundle_entries st !! i) as [mb|]; [|done]. destruct (_ =? 0); [done|]. simpl.
    by rewrite list_lookup_insert_ne.
Qed.

Lemma inv_flush_from n : ∀ st i sent, Inv st sent → Inv (flush_from st i n) sent.
Proof. induction n as [|n IH]; intros st i sent H; simpl; [done|]. apply IH, inv_flush, H. Qed.

Lemma flush_from_empties n : ∀ st i,
  (∀ j, (j < i)%nat → default [] (cache <$> msgbundle_entries st !! j) = []) →
  ∀ j, (j < i + n)%nat → default [] (cache <$> msgbundle_entries (flush_from st i n) !! j) = [].
Proof.
  induction n as [|n IH]; intros st i H j Hj; simpl; [apply H; lia|].
  apply IH; [|lia]. intros j' Hj'. rewrite flush_lookup.
  destruct (decide (i = j')) as [->|]; [by destruct (_ !! j')|apply H; lia].
Qed.

Lemma flush_from_length n : ∀ st i,
  length (msgbundle_entries (flush_from st i n)) = length (msgbundle_entries st).
Proof.
  induction n as [|n IH]; intros st i; simpl; [done|]. rewrite IH.
  pose proof (flush_keeps_nodes st i) as H. apply (f_equal length) in H.
  by rewrite !length_fmap in H.
Qed.

Lemma flush_cb_pend st d : pend (msgbundle_entries (flush_msgbuffer_cb st)) d = [].
Proof.
  unfold pend, flush_msgbuffer_cb. destruct (find_entry _ d) as [i|] eqn:E; [|done].
  apply find_entry_Some in E as (mb & Hi & _). apply lookup_lt_Some in Hi.
  rewrite flush_from_length in Hi. apply flush_from_empties; lia.
Qed.

(** *** One send *)

Definition sent_add (sent : node_peer_t → list (ldcs_message_ids_t * bytes)) (d : node_peer_t)
    (x : ldcs_message_ids_t * bytes) : node_peer_t → list (ldcs_message_ids_t * bytes) :=
  λ d', sent d' ++ (if d =? d' then [x] else []).

Lemma inv_new_entry st d sent :
  Inv st sent → find_entry (msgbundle_entries st) d = None →
  Inv (set_entries st (mk_mb d [] :: msgbundle_entries st)) sent.
Proof.
  intros [Hnd Hd] Hnone. split.
  { csimpl. apply NoDup_cons. split; [by apply find_entry_None|done]. }
  intros d'. destruct (Hd d') as (ms & Hpend & Hok & Hcap & Hrecv).
  exists ms. enough (pend (mk_mb d [] :: msgbundle_entries st) d' = pend (msgbundle_entries st) d') as E.
  { simpl. rewrite E. split_and!; done. }
  unfold pend. simpl. destruct (d =? d') eqn:E; bool_to_prop.
  - subst d'. by rewrite Hnone.
  - by destruct (find_entry (msgbundle_entries st) d').
Qed.

Lemma full_payload_length m sdata ssize :
  op_msg_ok m sdata ssize → Z.of_nat (length (full_payload m sdata ssize)) = msg_len m.
Proof.
  intros (_ & Hr & Hs & Hl). unfold full_payload, wrap64.
  rewrite Z.mod_small by lia. rewrite length_app, !length_take. lia.
Qed.

Lemma inv_append st i mb m sdata ssize sent :
  Inv st sent → op_msg_ok m sdata ssize → msgbundle_entries st !! i = Some mb →
  position mb + Z.of_nat HEADER_SIZE + msg_len m <= capacity c →
  ∃ mb', append_msg c mb m sdata ssize = Some mb' ∧
    Inv (set_entries st (<[i := mb']> (msgbundle_entries st)))
        (sent_add sent (node mb) (msg_type m, full_payload m sdata ssize)).
Proof.
  intros [Hnd Hd] Hm Hi Hfit. pose proof (full_payload_length _ _ _ Hm) as Hpl.
  set (mb' := mk_mb (node mb) (cache mb ++ enc (m, full_payload m sdata ssize))).
  assert (Z.of_nat (length (cache mb')) <= capacity c) as Hlen.
  { unfold mb', position in *. cbn [cache]. rewrite length_app, enc_length. cbn [snd]. lia. }
  exists mb'. split.
  { unfold append_msg. by rewrite (proj2 (Z.leb_le _ _)). }
  split; [simpl; by rewrite (nodes_insert _ _ mb)|].
  intros d. destruct (Hd d) as (ms & Hpend & Hok & Hcap & Hrecv).
  unfold buffered_ok. simpl msgbundle_entries. rewrite (pend_insert _ _ mb) by done.
  unfold sent_add. rewrite (Z.eqb_sym (node mb)).
  destruct (d =? node mb) eqn:E; bool_to_prop.
  - subst d. exists (ms ++ [(m, full_payload m sdata ssize)]).
    rewrite (pend_lookup _ i) in Hpend by done. rewrite !fmap_app, concat_app. simpl.
    rewrite app_nil_r, <- Hpend. split_and!; [done| |done|].
    + apply Forall_app. split; [done|]. constructor; [|done].
      destruct Hm as (_ & Hr & _). split; simpl; lia.
    + intros Hlive. rewrite (assoc_L (++)). f_equal. by apply Hrecv.
  - exists ms. rewrite app_nil_r. done.
Qed.

Lemma position_flushed st i mb :
  msgbundle_entries (flush_msgbuffer st i) !! i = Some mb → position mb = 0.
Proof.
  intros H. pose proof (flush_lookup st i i) as E. rewrite H, decide_True in E by done.
  destruct (msgbundle_entries st !! i); [|done]. simpl in E. injection E as E.
  unfold position. by rewrite E.
Qed.

Context (Hcap : 0 < msgbundle_cache_size_kb c < 2 ^ 50).

Lemma capacity_small : 0 < capacity c < 2 ^ 60.
Proof. unfold capacity, wrap64. rewrite Z.mod_small; lia. Qed.

(** Without bundling there are no buffers. *)
Definition off_ok (st : bstate) : Prop := opt_msgbundle c = false → msgbundle_entries st = [].

Lemma off_ok_pend st d : off_ok st → opt_msgbundle c = false → pend (msgbundle_entries st) d = [].
Proof. intros H Hoff. by rewrite H. Qed.

Lemma pend_None es d : find_entry es d = None → pend es d = [].
Proof. unfold pend. by intros ->. Qed.

Lemma flush_pend st i mb :
  NoDup (node <$> msgbundle_entries st) → msgbundle_entries st !! i = Some mb →
  pend (msgbundle_entries (flush_msgbuffer st i)) (node mb) = [].
Proof.
  intros Hnd Hi. destruct (msgbundle_entries (flush_msgbuffer st i) !! i) as [mb'|] eqn:Hi'.
  - assert (node mb' = node mb) as <-.
    { pose proof (flush_keeps_nodes st i) as H. apply (f_equal (lookup i)) in H.
      rewrite !list_lookup_fmap, Hi, Hi' in H. by injection H. }
    rewrite (pend_lookup _ i) by (rewrite ?flush_keeps_nodes; done).
    apply position_flushed in Hi'. unfold position in Hi'. apply nil_length_inv. lia.
  - apply lookup_ge_None in Hi'. apply lookup_lt_Some in Hi.
    pose proof (flush_keeps_nodes st i) as H. apply (f_equal length) in H.
    rewrite !length_fmap in H. lia.
Qed.

(** The part of the worker behind the choice of the entry. *)
Lemma buffer_msg_ok st i mb m sdata ssize sent :
  Inv st sent → op_msg_ok m sdata ssize → msgbundle_entries st !! i = Some mb →
  wrap64 (Z.of_nat HEADER_SIZE * 2 + msg_len m) < capacity c →
  ∃ st2 mb2 mb3,
    (if wrap64 (Z.of_nat HEADER_SIZE + msg_len m + position mb) >=? capacity c
     then flush_msgbuffer st i else st) = st2 ∧
    msgbundle_entries st2 !! i = Some mb2 ∧ append_msg c mb2 m sdata ssize = Some mb3 ∧
    Inv (set_entries st2 (<[i := mb3]> (msgbundle_entries st2)))
        (sent_add sent (node mb) (msg_type m, full_payload m sdata ssize)).
Proof.
  intros Hinv Hm Hi Hsz. pose proof capacity_small as Hc. unfold HEADER_SIZE, wrap64 in Hsz.
  assert (0 <= msg_len m < 2 ^ 63) as Hlen by apply Hm.
  rewrite Z.mod_small in Hsz by lia.
  assert (0 <= position mb <= capacity c) as Hpos.
  { destruct Hinv as [Hnd Hd]. destruct (Hd (node mb)) as (ms & _ & _ & Hle & _).
    rewrite (pend_lookup _ i) in Hle by done. unfold position. lia. }
  rewrite Z.geb_leb. destruct (capacity c <=? _) eqn:E; bool_to_prop.
  - destruct (msgbundle_entries (flush_msgbuffer st i) !! i) as [mb2|] eqn:Hi2.
    2:{ apply lookup_ge_None in Hi2. apply lookup_lt_Some in Hi.
        pose proof (flush_keeps_nodes st i) as H. apply (f_equal length) in H.
        rewrite !length_fmap in H. lia. }
    assert (node mb2 = node mb) as Hn.
    { pose proof (flush_keeps_nodes st i) as H. apply (f_equal (lookup i)) in H.
      rewrite !list_lookup_fmap, Hi, Hi2 in H. by injection H. }
    destruct (inv_append (flush_msgbuffer st i) i mb2 m sdata ssize sent) as (mb3 & Ha & Hinv3);
      [by apply inv_flush|done|done| |].
    { apply position_flushed in Hi2. unfold HEADER_SIZE. lia. }
    rewrite Hn in Hinv3. by exists (flush_msgbuffer st i), mb2, mb3.
  - unfold wrap64, HEADER_SIZE in E. rewrite Z.mod_small in E by lia.
    destruct (inv_append st i mb m sdata ssize sent) as (mb3 & Ha & Hinv3);
      [done..|unfold HEADER_SIZE; lia|].
    by exists st, mb, mb3.
Qed.

Lemma worker_ok st m d sdata ssize sent :
  Inv st sent → off_ok st → op_msg_ok m sdata ssize →
  ∃ st1 pass, spindle_send_worker c st m d sdata ssize = Some (st1, pass) ∧ off_ok st1 ∧
    if (pass : bool) then Inv st1 sent ∧ pend (msgbundle_entries st1) d = []
    else Inv st1 (sent_add sent d (msg_type m, full_payload m sdata ssize)) ∨
         ¬ live d ∧ Inv st1 sent.
Proof.
  intros Hinv Hoff Hm. unfold spindle_send_worker.
  destruct (opt_msgbundle c) eqn:Hopt; simpl negb.
  2:{ exists st, true. split_and!; [done..|by apply off_ok_pend]. }
  assert (∀ s, off_ok s) as Hon by (intros s ?; congruence).
  destruct ((num_children c =? 0) && (d =? BROADCAST)) eqn:Hleaf.
  { bool_to_prop. exists st, false. split_and!; [done..|]. right. split; [|done].
    unfold live. tauto. }
  rewrite Z.geb_leb. destruct (capacity c <=? _) eqn:Hbig; bool_to_prop.
  { destruct (find_entry (msgbundle_entries st) d) as [i|] eqn:Hf.
    - exists (flush_msgbuffer st i), true. split_and!; [done|done|by apply inv_flush|].
      apply find_entry_Some in Hf as (mb & Hi & <-). apply flush_pend; [apply Hinv|done].
    - exists st, true. split_and!; [done..|by apply pend_None]. }
  destruct (find_entry (msgbundle_entries st) d) as [i|] eqn:Hf.
  - apply find_entry_Some in Hf as (mb & Hi & <-). rewrite Hi. cbn [mbind option_bind].
    destruct (buffer_msg_ok st i mb m sdata ssize sent) as (st2 & mb2 & mb3 & -> & -> & Ha & H3);
      [done..|]. cbn [mbind option_bind]. rewrite Ha. cbn [mbind option_bind].
    eexists _, false. split_and!; [done|done|by left].
  - set (st1 := set_entries st (mk_mb d [] :: msgbundle_entries st)).
    assert (msgbundle_entries st1 !! 0%nat = Some (mk_mb d [])) as Hi by done.
    rewrite Hi. cbn [mbind option_bind].
    destruct (buffer_msg_ok st1 0 (mk_mb d []) m sdata ssize sent)
      as (st2 & mb2 & mb3 & -> & -> & Ha & H3); [by apply inv_new_entry|done..|].
    cbn [mbind option_bind]. rewrite Ha. cbn [mbind option_bind].
    eexists _, false. split_and!; [done|done|by left].
Qed.

(** *** Sequences of operations *)

Lemma inv_dead st sent d x : ¬ live d → Inv st sent → Inv st (sent_add sent d x).
Proof.
  intros Hdead [Hnd Hd]. split; [done|]. intros d'.
  destruct (Hd d') as (ms & Hpend & Hok & Hc & Hrecv). exists ms. split_and!; [done..|].
  intros Hlive. unfold sent_add. rewrite (proj2 (Z.eqb_neq _ _)) by (intros ->; done).
  rewrite app_nil_r. auto.
Qed.

Lemma inv_call st sent d m x :
  Inv st sent → pend (msgbundle_entries st) d = [] → received m = [x] →
  Inv (md_call st d m) (sent_add sent d x).
Proof.
  intros [Hnd Hd] Hp Hx. split; [done|]. intros d'.
  destruct (Hd d') as (ms & Hpend & Hok & Hc & Hrecv). exists ms. split_and!; [done..|].
  intros Hlive. unfold md_call, sent_add. rewrite <- (Hrecv Hlive).
  unfold received_by. simpl. rewrite fmap_app, concat_app. simpl. rewrite app_nil_r.
  destruct (d =? d') eqn:E; bool_to_prop; [|by rewrite !app_nil_r]. subst d'.
  assert (ms = []) as ->.
  { destruct ms as [|y ms]; [done|]. apply (f_equal length) in Hpend.
    rewrite fmap_cons in Hpend. cbn [concat] in Hpend.
    rewrite Hp, length_app, enc_length in Hpend. unfold HEADER_SIZE in Hpend. simpl in Hpend. lia. }
  by rewrite Hx, !app_nil_r.
Qed.

Lemma received_plain t len p :
  t ≠ LDCS_MSG_BUNDLE → len = Z.of_nat (length p) → received (mk_msg t len (Some p)) = [(t, p)].
Proof.
  intros Ht ->. unfold received. simpl. rewrite Nat2Z.id, firstn_all. by destruct t.
Qed.

Lemma full_payload_plain m : op_msg_ok m [] 0 → full_payload m [] 0 = default [] (msg_data m).
Proof.
  intros (_ & Hr & _ & Hl). unfold full_payload, wrap64. simpl take.
  rewrite app_nil_r, Z.mod_small by lia. apply take_ge. lia.
Qed.

Lemma received_msg m :
  op_msg_ok m [] 0 → received m = [(msg_type m, default [] (msg_data m))].
Proof.
  intros (Ht & Hr & _ & Hl). unfold received. rewrite take_ge by lia. by destruct (msg_type m).
Qed.

(** A wrapper: the worker, and the network layer when it passes the message on. *)
Lemma wrapper_ok st sent m d sdata ssize m' :
  Inv st sent → off_ok st → op_msg_ok m sdata ssize →
  received m' = [(msg_type m, full_payload m sdata ssize)] →
  ∃ st', ('(st1, passthrough) ← spindle_send_worker c st m d sdata ssize;
          Some (if (passthrough : bool) then md_call st1 d m' else st1)) = Some st' ∧
    off_ok st' ∧ Inv st' (sent_add sent d (msg_type m, full_payload m sdata ssize)).
Proof.
  intros Hinv Hoff Hm Hm'.
  destruct (worker_ok st m d sdata ssize sent) as (st1 & pass & -> & Hoff1 & H); [done..|].
  cbn [mbind option_bind]. eexists. split; [done|]. destruct pass.
  - destruct H. split; [done|]. by apply inv_call.
  - split; [done|]. destruct H as [H|[Hdead H]]; [done|]. by apply inv_dead.
Qed.

Definition sent_op (sent : node_peer_t → list (ldcs_message_ids_t * bytes)) (o : bop)
    : node_peer_t → list (ldcs_message_ids_t * bytes) :=
  match op_sent o with Some (d, x) => sent_add sent d x | None => sent end.

Lemma flush_cb_ok st sent :
  Inv st sent → off_ok st → off_ok (flush_msgbuffer_cb st) ∧ Inv (flush_msgbuffer_cb st) sent.
Proof.
  intros Hinv Hoff. split; [|by apply inv_flush_from].
  intros H. apply Hoff in H. apply nil_length_inv.
  unfold flush_msgbuffer_cb. by rewrite flush_from_length, H.
Qed.

Lemma run_op_ok st sent o :
  Inv st sent → off_ok st → op_ok o →
  ∃ st', run_op c st o = Some st' ∧ off_ok st' ∧ Inv st' (sent_op sent o).
Proof.
  intros Hinv Hoff Ho. pose proof full_payload_plain as Hplain.
  destruct o as [m d sd ss|m d|m sd ss|m|m|]; unfold sent_op; simpl op_sent; simpl in Ho; cbv iota beta.
  - apply wrapper_ok; [done..|]. apply received_plain; [apply Ho|].
    symmetry. by apply full_payload_length.
  - rewrite <- Hplain by done. apply wrapper_ok; [done..|]. rewrite Hplain by done. by apply received_msg.
  - apply wrapper_ok; [done..|]. apply received_plain; [apply Ho|].
    symmetry. by apply full_payload_length.
  - rewrite <- Hplain by done. apply wrapper_ok; [done..|]. rewrite Hplain by done. by apply received_msg.
  - rewrite <- Hplain by done. apply wrapper_ok; [done..|]. rewrite Hplain by done. by apply received_msg.
  - eexists. split; [done|]. by apply flush_cb_ok.
Qed.

Lemma sent_op_to sent o os d :
  sent_op sent o d ++ sent_to d os = sent d ++ sent_to d (o :: os).
Proof.
  unfold sent_op, sent_to, sent_add. simpl.
  destruct (op_sent o) as [[d' x]|]; [|done].
  destruct (d' =? d); rewrite <- (assoc_L (++)); done.
Qed.

Lemma run_ops_ok os : ∀ st sent,
  Inv st sent → off_ok st → Forall op_ok os →
  ∃ st', run_ops c st os = Some st' ∧ off_ok st' ∧ Inv st' (λ d, sent d ++ sent_to d os).
Proof.
  induction os as [|o os IH]; intros st sent Hinv Hoff Hos.
  { exists st. split_and!; [done..|]. destruct Hinv as [Hnd Hd]. split; [done|].
    intros d. simpl. rewrite app_nil_r. apply Hd. }
  apply Forall_cons in Hos as [Ho Hos].
  destruct (run_op_ok st sent o) as (st1 & E1 & Hoff1 & Hinv1); [done..|].
  destruct (IH st1 _ Hinv1 Hoff1 Hos) as (st2 & E2 & Hoff2 & [Hnd Hd]).
  exists st2. simpl. rewrite E1. split_and!; [done..|]. split; [done|].
  intros d. specialize (Hd d). cbv beta in *. by rewrite sent_op_to in Hd.
Qed.

Lemma inv_init : Inv bstate_init (λ _, []).
Proof.
  split; [constructor|]. intros d. exists []. split_and!; [done|done|apply capacity_nonneg|done].
Qed.

End bundle.

Lemma run_ops_flush_pend pad c os d : ∀ st0 st,
  run_ops pad c st0 (os ++ [OpFlush]) = Some st → pend (msgbundle_entries st) d = [].
Proof.
  induction os as [|o os IH]; intros st0 st; simpl.
  - intros [= <-]. apply flush_cb_pend.
  - destruct (run_op pad c st0 o); simpl; [apply IH|done].
Qed.

Lemma enc_nil pad ms :
  (∀ m, length (pad m) = 4%nat) → concat (enc pad <$> ms) = [] → ms = [].
Proof.
  intros Hpad H. destruct ms as [|x ms]; [done|]. apply (f_equal length) in H.
  rewrite fmap_cons in H. cbn [concat] in H. rewrite length_app, enc_length in H by done.
  unfold HEADER_SIZE in H. simpl in H. lia.
Qed.


Definition example_ops : list bop :=
  [OpSend (mk_msg LDCS_MSG_FILE_REQUEST 3 (Some (lit "F/a"))) 5;
   OpBroadcast (mk_msg LDCS_MSG_EXIT 0 None);
   OpSend (mk_msg LDCS_MSG_CACHE_ENTRIES 1100 (Some (replicate 1100 NUL))) 5;
   OpSendNoncontig (mk_msg LDCS_MSG_ALIAS 5 (Some (lit "ab"))) 5 (lit "cde") 3].


(** ** The flush timer

    [thrd_main] runs beside the event loop.  The two share [active_timeout] and
    [active_flush] under a mutex, and the pipe through which the thread asks for
    a flush.  A step is a part of the code without a lock operation or system
    call in its middle. *)

Module Timer.

(** Where the thread is. *)
Inductive tpc :=
  | WaitTimeout   (** in the first [pthread_cond_wait] loop *)
  | Sleeping      (** in [usleep] *)
  | Written       (** the byte is in the pipe, the mutex not yet taken again *)
  | WaitFlush.    (** in the second [pthread_cond_wait] loop *)

(** Where the event loop is: outside of [flush_msgbuffer_cb], or between its
    flushes and the reset of [active_flush]. *)
Inductive mpc := Idle | InCallback.

Record tstate := mk_tstate {
  thread : tpc;
  loop : mpc;
  active_timeout : bool;
  active_flush : bool;
  pipe : nat;          (** bytes in the pipe *)
  buffered : bool;     (** some message buffer is not empty *)
}.

Definition timer_init : tstate := mk_tstate WaitTimeout Idle false false 0 false.

(** [thrd_main] and the event loop, without [msgbundle_done]. *)
Inductive tstep : tstate → tstate → Prop :=
  (** a message is buffered: [start_cache_timeout] *)
  | step_send s : loop s = Idle →
      tstep s (mk_tstate (thread s) Idle true (active_flush s) (pipe s) true)
  | step_wake s : thread s = WaitTimeout → active_timeout s = true →
      tstep s (mk_tstate Sleeping (loop s) (active_timeout s) (active_flush s) (pipe s) (buffered s))
  | step_write s : thread s = Sleeping →
      tstep s (mk_tstate Written (loop s) (active_timeout s) (active_flush s) (S (pipe s)) (buffered s))
  | step_flags s : thread s = Written →
      tstep s (mk_tstate WaitFlush (loop s) false true (pipe s) (buffered s))
  | step_again s : thread s = WaitFlush → active_flush s = false →
      tstep s (mk_tstate WaitTimeout (loop s) (active_timeout s) (active_flush s) (pipe s) (buffered s))
  (** [flush_msgbuffer_cb]: read a byte and flush, then reset the flag *)
  | step_flush s n : loop s = Idle → pipe s = S n →
      tstep s (mk_tstate (thread s) InCallback (active_timeout s) (active_flush s) n false)
  | step_reset s : loop s = InCallback →
      tstep s (mk_tstate (thread s) Idle (active_timeout s) false (pipe s) (buffered s)).

Definition treachable (s : tstate) : Prop := rtc tstep timer_init s.

(** The thread waits for a flush nobody will announce. *)
Definition stalled : tstate := mk_tstate WaitFlush Idle true true 0 true.

Lemma stalled_steps s : tstep stalled s → s = stalled.
Proof. inversion 1; simpl in *; simplify_eq; done. Qed.

(** The timer can stall for good: when the event loop completes the flush
    between the thread's write to the pipe and its setting of [active_flush],
    the thread waits for the reset of a flag that was already reset; a message
    buffered afterwards is never flushed by the timer. *)
Theorem timer_can_stall :
  ∃ s, treachable s ∧ buffered s = true ∧ ∀ s', rtc tstep s s' → buffered s' = true.
Proof.
  exists stalled. split; [|split; [done|]].
  - unfold treachable, timer_init, stalled.
    eapply rtc_l; [by apply step_send|]. simpl.
    eapply rtc_l; [by apply step_wake|]. simpl.
    eapply rtc_l; [by apply step_write|]. simpl.
    eapply rtc_l; [by eapply step_flush|]. simpl.
    eapply rtc_l; [by apply step_reset|]. simpl.
    eapply rtc_l; [by apply step_flags|]. simpl.
    eapply rtc_l; [by apply step_send|]. simpl. apply rtc_refl.
  - assert (∀ s s', rtc tstep s s' → s = stalled → s' = stalled) as H.
    { induction 1 as [|s s1 s2 H1 _ IH]; [done|]. intros ->. apply IH. by apply stalled_steps. }
    intros s' Hs. by rewrite (H _ _ Hs eq_refl).
Qed.

(** The steps in which the thread wins that race: the event loop does not pick up
    the byte before the flags are set. *)
Definition orderly (s s' : tstate) : Prop :=
  tstep s s' ∧ ¬ (thread s = Written ∧ loop s = Idle ∧ loop s' = InCallback).

(** A flush is under way for everything that is buffered. *)
Definition scheduled (s : tstate) : Prop :=
  match thread s with
  | WaitTimeout => loop s = Idle ∧ pipe s = O ∧ active_flush s = false ∧
                   (buffered s = true → active_timeout s = true)
  | Sleeping => loop s = Idle ∧ pipe s = O
  | Written => loop s = Idle ∧ pipe s = 1%nat
  | WaitFlush =>
      match loop s with
      | InCallback => pipe s = O ∧ active_flush s = true ∧ buffered s = false
      | Idle => (pipe s = 1%nat ∧ active_flush s = true) ∨
                (pipe s = O ∧ active_flush s = false ∧
                 (buffered s = true → active_timeout s = true))
      end
  end.

Lemma scheduled_step s s' : scheduled s → orderly s s' → scheduled s'.
Proof.
  unfold scheduled. intros Hs [H Hno].
  destruct H; destruct s as [[] [] tmo fl p b]; simpl in *; intuition (simplify_eq; auto; try lia).
Qed.

(** As long as the thread wins that race, whatever is buffered is
    scheduled: the thread is on its way to write to the pipe, the pipe holds the
    request, or [active_timeout] tells the thread to start again. *)
Theorem timer_schedules_flush (s : tstate) :
  rtc orderly timer_init s → scheduled s.
Proof.
  intros H. assert (scheduled timer_init) as H0 by (repeat split; done).
  revert H0. induction H as [|x y z Hxy _ IH]; [done|]. intros Hx.
  apply IH. by eapply scheduled_step.
Qed.

Lemma timer_schedules_flush_witness :
  scheduled (mk_tstate Sleeping Idle true false 0 true).
Proof.
  apply (timer_schedules_flush (mk_tstate Sleeping Idle true false 0 true)).
  eapply rtc_l; [split; [by apply step_send|naive_solver]|]. simpl.
  eapply rtc_l; [split; [by apply step_wake|naive_solver]|]. simpl. apply rtc_refl.
Defined.

End Timer.

End Msgbundle.
