(* ===== verification/CrashHandler.v ===== *)
(** * Crash reports: the handlers of one server
    (ldcs_audit_server_crash_handler.c, ldcs_audit_server_crash_log.c)

    When a client process crashes it reports the crash site to its server.  The
    servers elect, over the tree, one process per site that writes a core file;
    each server remembers the sites it has seen and the one peer that waits for
    the decision.  With the crash log enabled the reports themselves travel up
    the tree as well and the root writes them to a CSV file.

    Arrays that the code grows by doubling before each store are lists here. *)

From Stdlib Require Import Ascii String ZArith Lia.
From stdpp Require Import strings numbers gmap list.
From S2P Require Import Prelude Bytes Requestors Message.

Module Crash.

(** ** State *)

(** [crash_waiter_t] *)
Inductive crash_waiter :=
  | CRASH_WAITER_LOCAL (nc : nat) (global_rank : Z)
  | CRASH_WAITER_CHILD (peer : node_peer_t).

(** [crash_log_rank_t]; the host name is a C string. *)
Record crash_log_rank := mk_log_rank {
  lr_rank : Z;
  lr_pid : Z;
  lr_timestamp : Z;
  lr_hostname : bytes;
}.

(** [crash_site_entry_t] *)
Record crash_site_entry := mk_site {
  site : bytes;
  resolved : bool;
  waiter : crash_waiter;
  exemplar_rank : Z;
  exemplar_corepath : option bytes;
  log_ranks : list crash_log_rank;
}.

(** The part of [ldcs_client_t] the crash handling uses. *)
Record client := mk_client {
  active : bool;       (** [state == LDCS_CLIENT_STATUS_ACTIVE] *)
  connid : Z;
  remote_pid : Z;
  crash_exe : option bytes;
  crash_corepath : option bytes;
}.

(** What a handler sends: a message to a client's connection (with the site it is
    about), to a child ([spindle_send]) or to the parent
    ([spindle_forward_query]). *)
Inductive output :=
  | ToClient (nc : nat) (about : bytes) (m : ldcs_message_t)
  | ToPeer (peer : node_peer_t) (m : ldcs_message_t)
  | ToParent (m : ldcs_message_t).

(** The part of [ldcs_process_data_t] the crash handling uses, with the messages
    sent so far, oldest first. *)
Record cstate := mk_cstate {
  opt_crash_handler : bool;   (** [opts & OPT_CRASH_HANDLER] *)
  opt_crash_log : bool;       (** [opts & OPT_CRASH_LOG] *)
  md_rank : Z;
  hostname : bytes;
  client_table : list client;
  crash_sites : list crash_site_entry;
  sent : list output;
}.

Definition set_sites (st : cstate) (l : list crash_site_entry) : cstate :=
  mk_cstate (opt_crash_handler st) (opt_crash_log st) (md_rank st) (hostname st)
    (client_table st) l (sent st).
Definition set_clients (st : cstate) (l : list client) : cstate :=
  mk_cstate (opt_crash_handler st) (opt_crash_log st) (md_rank st) (hostname st)
    l (crash_sites st) (sent st).
Definition emit (st : cstate) (o : output) : cstate :=
  mk_cstate (opt_crash_handler st) (opt_crash_log st) (md_rank st) (hostname st)
    (client_table st) (crash_sites st) (sent st ++ [o]).

(** [ldcs_audit_server_md_is_responsible] *)
Definition is_responsible (st : cstate) : bool := md_rank st =? 0.

(** ** Sites *)

(** [crash_site_find]: the index of the entry. *)
Fixpoint find_site (l : list crash_site_entry) (s : bytes) : option nat :=
  match l with
  | [] => None
  | e :: l' => if bool_decide (site e = s) then Some O else S <$> find_site l' s
  end.

Definition crash_site_find (st : cstate) (s : bytes) : option nat := find_site (crash_sites st) s.

(** [crash_site_insert]: a zeroed entry with [exemplar_rank = -1], at the end.
    The zeroed waiter reads as [CRASH_WAITER_LOCAL], which has the value 0. *)
Definition new_site (s : bytes) : crash_site_entry :=
  mk_site s false (CRASH_WAITER_LOCAL 0 0) (-1) None [].

Definition crash_site_insert (st : cstate) (s : bytes) : cstate * nat :=
  (set_sites st (crash_sites st ++ [new_site s]), length (crash_sites st)).

Definition update_site (st : cstate) (i : nat) (f : crash_site_entry → crash_site_entry) : cstate :=
  set_sites st (alter f i (crash_sites st)).

(** ** Wire formats *)

(** [crash_pack] *)
Definition crash_pack (rank : Z) (s : bytes) : bytes :=
  le32 rank ++ le32 (Z.of_nat (length s)) ++ s.

(** [crash_pack_report] *)
Definition crash_pack_report (dedup_rank display_rank : Z) (s : bytes) (corepath : option bytes)
    : bytes :=
  let cp := match corepath with Some c => c ++ [NUL] | None => [] end in
  le32 dedup_rank ++ le32 display_rank ++ le32 (Z.of_nat (length s)) ++ s
    ++ le32 (Z.of_nat (length cp)) ++ cp.

(** [crash_parse_report]: both ranks, the site and the core path. *)
Definition crash_parse_report (m : ldcs_message_t) : option (Z * Z * bytes * option bytes) :=
  let data := default [] (msg_data m) in
  let len := msg_len m in
  if len <? 12 then None
  else
    let name_len := rd_i32 data 8 in
    if (name_len <=? 0) || (len - 12 <? name_len) then None
    else
      let s := take (Z.to_nat name_len) (drop 12 data) in
      let used := 12 + name_len in
      if used =? len then Some (rd_i32 data 0, rd_i32 data 4, s, None)
      else if len - used <? 4 then None
      else
        let cp_len := rd_i32 data (Z.to_nat used) in
        let used2 := used + 4 in
        if (cp_len <? 0) || negb (cp_len =? len - used2) ||
           ((0 <? cp_len) &&
            negb (is_nul (default "001"%char (data !! Z.to_nat (len - 1)))))
        then None
        else Some (rd_i32 data 0, rd_i32 data 4, s,
                   if 0 <? cp_len then Some (cstr (drop (Z.to_nat used2) data)) else None).

(** [crash_parse_response]: the rank and the site; the third component is the
    [site_len] the code goes on with. *)
Definition crash_parse_response (m : ldcs_message_t) : option (Z * bytes * Z) :=
  let data := default [] (msg_data m) in
  if msg_len m <? 8 then None
  else
    let name_len := rd_i32 data 4 in
    if name_len <=? 0 then None
    else Some (rd_i32 data 0, take (Z.to_nat name_len) (drop 8 data), name_len).

(** ** The decision *)

Definition response_msg (d : bytes) : ldcs_message_t :=
  mk_msg LDCS_MSG_CRASH_RESPONSE (Z.of_nat (length d)) (Some d).

(** [send_crash_response_to_waiter] *)
Definition send_crash_response_to_waiter (st : cstate) (w : crash_waiter)
    (winning_rank : Z) (s : bytes) : cstate :=
  match w with
  | CRASH_WAITER_LOCAL nc _ =>
      match client_table st !! nc with
      | Some cl =>
          if active cl && (0 <=? connid cl)
          then emit st (ToClient nc s (response_msg (le32 winning_rank)))
          else st
      | None => st
      end
  | CRASH_WAITER_CHILD peer =>
      emit st (ToPeer peer (response_msg (crash_pack winning_rank s)))
  end.

Definition set_resolved (e : crash_site_entry) : crash_site_entry :=
  mk_site (site e) true (waiter e) (exemplar_rank e) (exemplar_corepath e) (log_ranks e).
Definition set_waiter (w : crash_waiter) (e : crash_site_entry) : crash_site_entry :=
  mk_site (site e) (resolved e) w (exemplar_rank e) (exemplar_corepath e) (log_ranks e).
Definition set_exemplar (r : Z) (e : crash_site_entry) : crash_site_entry :=
  mk_site (site e) (resolved e) (waiter e) r (exemplar_corepath e) (log_ranks e).
Definition set_corepath (cp : option bytes) (e : crash_site_entry) : crash_site_entry :=
  mk_site (site e) (resolved e) (waiter e) (exemplar_rank e) cp (log_ranks e).
Definition set_log_ranks (l : list crash_log_rank) (e : crash_site_entry) : crash_site_entry :=
  mk_site (site e) (resolved e) (waiter e) (exemplar_rank e) (exemplar_corepath e) l.

(** [crash_resolve] *)
Definition crash_resolve (st : cstate) (i : nat) (winning_rank : Z) : cstate :=
  match crash_sites st !! i with
  | Some e =>
      update_site (send_crash_response_to_waiter st (waiter e) winning_rank (site e)) i set_resolved
  | None => st
  end.

(** [forward_crash_query_up] *)
Definition forward_crash_query_up (st : cstate) (s : bytes) (corepath : option bytes)
    (first_waiter_rank first_waiter_display_rank : Z) : cstate :=
  let d := crash_pack_report first_waiter_rank first_waiter_display_rank s corepath in
  emit st (ToParent (mk_msg LDCS_MSG_CRASH_REPORT (Z.of_nat (length d)) (Some d))).

(** [crash_report_common]; the index is that of the entry of the site. *)
Definition crash_report_common (st : cstate) (w : crash_waiter)
    (reporter_rank reporter_display_rank : Z) (s : bytes) (corepath : option bytes)
    : cstate * nat :=
  match crash_site_find st s with
  | Some i => (send_crash_response_to_waiter st w (-1) s, i)
  | None =>
      let '(st1, i) := crash_site_insert st s in
      let st2 := update_site st1 i (set_waiter w) in
      if is_responsible st2 then
        let st3 :=
          if opt_crash_log st2 then
            let st' := update_site st2 i (set_exemplar reporter_display_rank) in
            match corepath with
            | Some cp => update_site st' i (set_corepath (Some cp))
            | None => st'
            end
          else st2 in
        (crash_resolve st3 i reporter_rank, i)
      else (forward_crash_query_up st2 s corepath reporter_rank reporter_display_rank, i)
  end.

(** ** Keys *)

(** The index of the last occurrence of [pat], as the [strstr] loop finds it. *)
Fixpoint last_index (pat s : bytes) (pos : nat) : option nat :=
  match s with
  | [] => None
  | _ :: s' =>
      match last_index pat s' (S pos) with
      | Some i => Some i
      | None => if bool_decide (take (length pat) s = pat) then Some pos else None
      end
  end.

(** [crash_site_offset]: where the "+0x<offset>" part begins. *)
Definition crash_site_offset (s : bytes) : option nat :=
  if bool_decide (take 6 s = lit "abort:") then None else last_index (lit "+0x") s 0.

Section keys.
  (** The relocation table of global_name.c. *)
  Variable lookup_global_name : bytes → option bytes.

Definition crash_original_path (path : bytes) : bytes :=
  match lookup_global_name path with Some orig => orig | None => path end.

Definition crash_original_site (s : bytes) : bytes :=
  match crash_site_offset s with
  | None => s
  | Some off => crash_original_path (take off s) ++ drop off s
  end.

(** [crash_build_key]; the key includes its terminator. *)
Definition crash_build_key (exe s : bytes) : bytes :=
  crash_original_path exe ++ lit "|" ++ crash_original_site (cstr s) ++ [NUL].
End keys.

(** ** The crash log *)

(** [crash_log_append_rank] *)
Definition crash_log_append_rank (row : crash_log_rank) (e : crash_site_entry) : crash_site_entry :=
  set_log_ranks (log_ranks e ++ [row]) e.

Definition crash_log_free_ranks (e : crash_site_entry) : crash_site_entry := set_log_ranks [] e.

(** One row on the wire: rank, pid, timestamp, length and bytes of the host. *)
Definition pack_row (row : crash_log_rank) : bytes :=
  le32 (lr_rank row) ++ le32 (lr_pid row) ++ le64 (lr_timestamp row)
    ++ le32 (Z.of_nat (length (lr_hostname row))) ++ lr_hostname row.

(** [crash_log_entry_pack] *)
Definition crash_log_entry_pack (e : crash_site_entry) : bytes :=
  le32 (Z.of_nat (length (site e))) ++ site e ++ le32 (exemplar_rank e)
    ++ le32 (Z.of_nat (length (log_ranks e))) ++ concat (pack_row <$> log_ranks e).

(** [CRASH_LOG_RANK_WIRE_SIZE] *)
Definition CRASH_LOG_RANK_WIRE_SIZE : Z := 20.

Definition rd_i64 (b : bytes) (pos : nat) : Z := to_signed 64 (rd_u 8 b pos).

(** [crash_log_parse_row] at [pos] of a message of [len] bytes: the row and the
    position behind it. *)
Definition crash_log_parse_row (data : bytes) (len : Z) (pos : Z) : option (crash_log_rank * Z) :=
  let p := Z.to_nat pos in
  if len <? pos + CRASH_LOG_RANK_WIRE_SIZE then None
  else
    let host_len := rd_i32 data (p + 16) in
    if (host_len <? 0) || (len <? pos + CRASH_LOG_RANK_WIRE_SIZE + host_len) then None
    else Some (mk_log_rank (rd_i32 data p) (rd_i32 data (p + 4)) (rd_i64 data (p + 8))
                 (take (Z.to_nat host_len) (drop (p + 20) data)),
               pos + CRASH_LOG_RANK_WIRE_SIZE + host_len).

(** The row loops of [crash_log_parse_entry] and [crash_log_merge_entry]. *)
Fixpoint parse_rows (data : bytes) (len : Z) (pos : Z) (nranks : nat)
    : option (list crash_log_rank * Z) :=
  match nranks with
  | O => Some ([], pos)
  | S n =>
      '(row, pos1) ← crash_log_parse_row data len pos;
      '(rows, pos2) ← parse_rows data len pos1 n;
      Some (row :: rows, pos2)
  end.

(** [crash_log_entry_t], with the rows its [ranks] region holds. *)
Record crash_log_entry := mk_log_entry {
  ent_site : bytes;
  ent_exemplar : Z;
  ent_rows : list crash_log_rank;
}.

(** [crash_log_parse_entry] *)
Definition crash_log_parse_entry (data : bytes) (len : Z) (pos : Z)
    : option (crash_log_entry * Z) :=
  if len <? pos + 4 then None
  else
    let site_len := rd_i32 data (Z.to_nat pos) in
    let p1 := pos + 4 in
    if (site_len <=? 0) || (len <? p1 + site_len) then None
    else
      let s := take (Z.to_nat site_len) (drop (Z.to_nat p1) data) in
      let p2 := p1 + site_len in
      if len <? p2 + 8 then None
      else
        let exemplar := rd_i32 data (Z.to_nat p2) in
        let nranks := rd_i32 data (Z.to_nat p2 + 4) in
        if nranks <? 0 then None
        else
          '(rows, p3) ← parse_rows data len (p2 + 8) (Z.to_nat nranks);
          Some (mk_log_entry s exemplar rows, p3).

(** The host name of a merged row is stored as a C string. *)
Definition merged_row (row : crash_log_rank) : crash_log_rank :=
  mk_log_rank (lr_rank row) (lr_pid row) (lr_timestamp row) (cstr (lr_hostname row)).

(** [crash_log_merge_entry] *)
Definition crash_log_merge_entry (st : cstate) (ent : crash_log_entry) : cstate :=
  let '(st1, i) :=
    match crash_site_find st (ent_site ent) with
    | Some i => (st, i)
    | None =>
        let '(st', i) := crash_site_insert st (ent_site ent) in
        (update_site st' i set_resolved, i)
    end in
  let st2 := if negb (ent_exemplar ent =? -1) then update_site st1 i (set_exemplar (ent_exemplar ent))
             else st1 in
  fold_left (λ st row, update_site st i (crash_log_append_rank (merged_row row))) (ent_rows ent) st2.

(** [crash_log_flush_to_parent] *)
Definition pending_sites (st : cstate) : list crash_site_entry :=
  List.filter (λ e, negb (Nat.eqb (length (log_ranks e)) 0)) (crash_sites st).

Definition crash_log_msg (es : list crash_site_entry) : ldcs_message_t :=
  let d := le32 (Z.of_nat (length es)) ++ concat (crash_log_entry_pack <$> es) in
  mk_msg LDCS_MSG_CRASH_LOG (Z.of_nat (length d)) (Some d).

Definition crash_log_clear_pending (st : cstate) : cstate :=
  set_sites st (crash_log_free_ranks <$> crash_sites st).

Definition crash_log_flush_to_parent (st : cstate) : cstate :=
  if negb (opt_crash_log st) then st
  else if is_responsible st then st
  else match pending_sites st with
       | [] => st
       | es => crash_log_clear_pending (emit st (ToParent (crash_log_msg es)))
       end.

(** The merge loop of [handle_crash_log_recv]: entries are merged as they are
    parsed; the flag tells whether all of them parsed. *)
Fixpoint merge_entries (st : cstate) (data : bytes) (len pos : Z) (site_count : nat)
    : cstate * bool :=
  match site_count with
  | O => (st, true)
  | S n =>
      match crash_log_parse_entry data len pos with
      | None => (st, false)
      | Some (ent, pos') => merge_entries (crash_log_merge_entry st ent) data len pos' n
      end
  end.

Definition handle_crash_log_recv (st : cstate) (from_parent : bool) (m : ldcs_message_t)
    : cstate * Z :=
  let data := default [] (msg_data m) in
  let len := msg_len m in
  if from_parent then (st, -1)
  else if len <? 4 then (st, -1)
  else
    let site_count := rd_i32 data 0 in
    if site_count <? 0 then (st, -1)
    else match merge_entries st data len 4 (Z.to_nat site_count) with
         | (st1, true) => (crash_log_flush_to_parent st1, 0)
         | (st1, false) => (st1, -1)
         end.

(** ** The handlers *)

Definition update_client (st : cstate) (nc : nat) (f : client → client) : cstate :=
  set_clients st (alter f nc (client_table st)).

(** [handle_client_crash_string] *)
Definition handle_client_crash_string (st : cstate) (nc : nat) (m : ldcs_message_t) : cstate * Z :=
  let data := default [] (msg_data m) in
  if negb (opt_crash_handler st) then (st, 0)
  else
    let store (f : client → client) : cstate * Z :=
      if (msg_len m =? 0) || negb (is_nul (default "001"%char (data !! Z.to_nat (msg_len m - 1))))
      then (st, -1) else (update_client st nc f, 0) in
    match msg_type m with
    | LDCS_MSG_CRASH_EXE =>
        store (λ c, mk_client (active c) (connid c) (remote_pid c)
                      (Some (cstr data)) (crash_corepath c))
    | LDCS_MSG_CRASH_COREPATH =>
        store (λ c, mk_client (active c) (connid c) (remote_pid c)
                      (crash_exe c) (Some (cstr data)))
    | _ => (st, -1)
    end.

(** [crash_free_client_stash] *)
Definition crash_free_client_stash (c : client) : client :=
  mk_client (active c) (connid c) (remote_pid c) None None.

Section handlers.
  Variable lookup_global_name : bytes → option bytes.

(** [handle_client_crash_report]; [now] is [time(NULL)]. *)
Definition handle_client_crash_report (st : cstate) (nc : nat) (now : Z) (m : ldcs_message_t)
    : cstate * Z :=
  if negb (opt_crash_handler st) then (st, 0)
  else match crash_parse_report m with
  | None => (st, -1)
  | Some (rank_raw, display_rank, s, _) =>
      match client_table st !! nc with
      | None => (st, -1)
      | Some cl =>
          match crash_exe cl with
          | None => (st, -1)
          | Some exe =>
              let key := crash_build_key lookup_global_name exe s in
              let '(st1, i) :=
                crash_report_common st (CRASH_WAITER_LOCAL nc rank_raw) rank_raw display_rank
                  key (crash_corepath cl) in
              let st2 :=
                if opt_crash_log st1 then
                  crash_log_flush_to_parent
                    (update_site st1 i (crash_log_append_rank
                       (mk_log_rank display_rank (remote_pid cl) now (hostname st1))))
                else st1 in
              (update_client st2 nc crash_free_client_stash, 0)
          end
      end
  end.
End handlers.

(** [handle_crash_report_recv] *)
Definition handle_crash_report_recv (st : cstate) (peer : node_peer_t) (from_parent : bool)
    (m : ldcs_message_t) : cstate * Z :=
  if from_parent then (st, -1)
  else match crash_parse_report m with
  | None => (st, -1)
  | Some (rank, display_rank, s, corepath) =>
      (fst (crash_report_common st (CRASH_WAITER_CHILD peer) rank display_rank s corepath), 0)
  end.

(** [handle_crash_response_recv] *)
Definition handle_crash_response_recv (st : cstate) (from_parent : bool) (m : ldcs_message_t)
    : cstate * Z :=
  if negb from_parent then (st, -1)
  else match crash_parse_response m with
  | None => (st, -1)
  | Some (selected_rank, s, _) =>
      match crash_site_find st s with
      | None => (st, -1)
      | Some i =>
          match crash_sites st !! i with
          | Some e => if resolved e then (st, -1) else (crash_resolve st i selected_rank, 0)
          | None => (st, -1)
          end
      end
  end.

(** ** Wire formats: round trips and bounds *)

Definition i32 (z : Z) : Prop := - 2 ^ 31 <= z < 2 ^ 31.

(** A site that fits the formats. *)
Definition site_ok (s : bytes) : Prop := 0 < Z.of_nat (length s) < 2 ^ 31.

Definition corepath_ok (cp : option bytes) : Prop :=
  match cp with Some c => no_nul c = true ∧ Z.of_nat (length c) + 1 < 2 ^ 31 | None => True end.

Definition report_msg (w d : Z) (s : bytes) (cp : option bytes) : ldcs_message_t :=
  let b := crash_pack_report w d s cp in
  mk_msg LDCS_MSG_CRASH_REPORT (Z.of_nat (length b)) (Some b).

Lemma rd_i32_range b p : i32 (rd_i32 b p).
Proof. apply (to_signed_range 32). lia. Qed.

Lemma le32_length z : length (le32 z) = 4%nat.
Proof. apply le_encode_length. Qed.

(** Reading an [int32_t] that follows a prefix of known length. *)
Lemma rd_i32_at pre z t pos :
  length pre = pos → i32 z → rd_i32 (pre ++ le32 z ++ t) pos = z.
Proof. apply rd_i32_le32. Qed.

Lemma crash_parse_response_pack (x : Z) (s : bytes) :
  i32 x → site_ok s →
  crash_parse_response (response_msg (crash_pack x s)) = Some (x, s, Z.of_nat (length s)).
Proof.
  intros Hx [Hs0 Hs1]. unfold crash_parse_response, response_msg. cbn [msg_data msg_len from_option id].
  assert (rd_i32 (crash_pack x s) 0 = x) as E0 by (by apply (rd_i32_at [])).
  assert (rd_i32 (crash_pack x s) 4 = Z.of_nat (length s)) as E4.
  { unfold crash_pack. apply rd_i32_at; [apply le32_length|unfold i32; lia]. }
  rewrite E0, E4. unfold crash_pack. rewrite !length_app, !le32_length.
  rewrite (proj2 (Z.ltb_ge _ _)), (proj2 (Z.leb_gt _ _)) by lia.
  rewrite (assoc_L (++)), drop_app_exact by (by rewrite length_app, !le32_length).
  by rewrite Nat2Z.id, firstn_all.
Qed.

Definition cp_bytes (cp : option bytes) : bytes :=
  match cp with Some c => c ++ [NUL] | None => [] end.

Lemma last_lookup_nul (l : bytes) n c :
  n = length l → (l ++ [c]) !! n = Some c.
Proof. intros ->. by rewrite lookup_app_r, Nat.sub_diag by lia. Qed.

Lemma parse_report_msg w d s cp :
  i32 w → i32 d → site_ok s → corepath_ok cp →
  crash_parse_report (report_msg w d s cp) = Some (w, d, s, cp).
Proof.
  intros Hw Hd [Hs0 Hs1] Hcp. unfold crash_parse_report, report_msg.
  cbn [msg_data msg_len from_option id].
  set (b := crash_pack_report w d s cp).
  assert (b = le32 w ++ le32 d ++ le32 (Z.of_nat (length s)) ++ s
              ++ le32 (Z.of_nat (length (cp_bytes cp))) ++ cp_bytes cp) as Eb by done.
  assert (length b = 16 + length s + length (cp_bytes cp))%nat as Hlen.
  { rewrite Eb, !length_app, !le32_length. lia. }
  assert (Z.of_nat (length (cp_bytes cp)) < 2 ^ 31) as Hcpl.
  { destruct cp; simpl in *; rewrite ?length_app; simpl; lia. }
  assert (rd_i32 b 0 = w) as -> by (rewrite Eb; by apply (rd_i32_at [])).
  assert (rd_i32 b 4 = d) as -> by (rewrite Eb; apply rd_i32_at; [apply le32_length|done]).
  assert (rd_i32 b 8 = Z.of_nat (length s)) as ->.
  { rewrite Eb, (assoc_L (++)). apply rd_i32_at; [by rewrite length_app, !le32_length|unfold i32; lia]. }
  assert (rd_i32 b (Z.to_nat (12 + Z.of_nat (length s))) = Z.of_nat (length (cp_bytes cp))) as Ecp.
  { rewrite Eb, !(assoc_L (++)), <- (assoc_L (++)).
    apply rd_i32_at; [rewrite !length_app, !le32_length; lia|unfold i32; lia]. }
  assert (take (length s) (drop 12 b) = s) as Es.
  { rewrite Eb, !(assoc_L (++)), <- !(assoc_L (++)), (assoc_L (++) (le32 w)), (assoc_L (++) (le32 w ++ _)).
    rewrite drop_app_exact by (by rewrite !length_app, !le32_length). by rewrite take_app_length. }
  assert (drop (Z.to_nat (16 + Z.of_nat (length s))) b = cp_bytes cp) as Ed.
  { rewrite Eb, !(assoc_L (++)). apply drop_app_exact. rewrite !length_app, !le32_length. lia. }
  rewrite Ecp, Nat2Z.id, Es.
  rewrite (proj2 (Z.ltb_ge _ 12)), (proj2 (Z.leb_gt _ 0)), (proj2 (Z.ltb_ge _ (Z.of_nat (length s)))) by lia.
  rewrite (proj2 (Z.eqb_neq (12 + _) _)), (proj2 (Z.ltb_ge _ 4)) by lia. cbn [orb].
  rewrite (proj2 (Z.ltb_ge _ 0)) by lia.
  rewrite (proj2 (Z.eqb_eq (Z.of_nat (length (cp_bytes cp))) _)) by lia. cbn [negb orb].
  replace (12 + Z.of_nat (length s) + 4) with (16 + Z.of_nat (length s)) by lia. rewrite Ed.
  destruct cp as [c|]; [|done].
  assert (b !! Z.to_nat (Z.of_nat (length b) - 1) = Some NUL) as ->.
  { rewrite Hlen, Eb. cbn [cp_bytes]. rewrite !(assoc_L (++)). apply last_lookup_nul.
    rewrite !length_app, !le32_length. simpl. lia. }
  rewrite (proj2 (Z.ltb_lt 0 _)) by (cbn [cp_bytes]; rewrite length_app; simpl; lia).
  cbn [andb negb from_option id]. cbn [cp_bytes].
  rewrite cstr_app_nul by apply Hcp. done.
Qed.

(** A crash report survives its journey: what [crash_pack_report] builds,
    [crash_parse_report] reads back, with and without a core path. *)
Theorem crash_report_roundtrip (w d : Z) (s : bytes) (cp : option bytes) :
  i32 w → i32 d → site_ok s → corepath_ok cp →
  crash_parse_report (report_msg w d s cp) = Some (w, d, s, cp).
Proof. apply parse_report_msg. Qed.

Lemma crash_report_roundtrip_witness :
  crash_parse_report (report_msg 3 5 (lit "app|libm.so+0x10") (Some (lit "/tmp/core.3")))
  = Some (3, 5, lit "app|libm.so+0x10", Some (lit "/tmp/core.3")).
Proof.
  apply (crash_report_roundtrip 3 5 (lit "app|libm.so+0x10") (Some (lit "/tmp/core.3")));
    [unfold i32; lia|unfold i32; lia|vm_compute; split; congruence|split; [reflexivity|vm_compute; congruence]].
Defined.

(** *** The crash log *)

Definition row_ok (row : crash_log_rank) : Prop :=
  i32 (lr_rank row) ∧ i32 (lr_pid row) ∧ - 2 ^ 63 <= lr_timestamp row < 2 ^ 63 ∧
  Z.of_nat (length (lr_hostname row)) < 2 ^ 31 ∧ no_nul (lr_hostname row) = true.

Definition log_entry_ok (e : crash_site_entry) : Prop :=
  site_ok (site e) ∧ i32 (exemplar_rank e) ∧ Z.of_nat (length (log_ranks e)) < 2 ^ 31 ∧
  Forall row_ok (log_ranks e).

(** What the parser makes of a packed entry. *)
Definition ent_of (e : crash_site_entry) : crash_log_entry :=
  mk_log_entry (site e) (exemplar_rank e) (log_ranks e).

Lemma rd_i32_eq data pos p z t :
  data = p ++ le32 z ++ t → length p = pos → i32 z → rd_i32 data pos = z.
Proof. intros ->. apply rd_i32_le32. Qed.

Lemma rd_i64_eq data pos p z t :
  data = p ++ le64 z ++ t → length p = pos → - 2 ^ 63 <= z < 2 ^ 63 → rd_i64 data pos = z.
Proof.
  intros -> Hp Hz. unfold rd_i64. rewrite rd_u_app by (done || apply le_encode_length).
  unfold le64. rewrite le_decode_encode. change (256 ^ Z.of_nat 8) with (2 ^ 64).
  apply to_signed_small; lia.
Qed.

Lemma pack_row_length row : length (pack_row row) = (20 + length (lr_hostname row))%nat.
Proof.
  unfold pack_row, le64. rewrite !length_app, !le32_length, le_encode_length. lia.
Qed.

(** Right-nested appends on both sides. *)
Ltac app_eq := unfold pack_row, crash_log_entry_pack; rewrite <- ?(assoc_L (++)); done.

Lemma parse_row_pack pre row t data len :
  row_ok row → data = pre ++ pack_row row ++ t → len = Z.of_nat (length data) →
  crash_log_parse_row data len (Z.of_nat (length pre))
  = Some (row, Z.of_nat (length (pre ++ pack_row row))).
Proof.
  intros (Hr & Hp & Ht & Hh & _) Ed El. unfold crash_log_parse_row, CRASH_LOG_RANK_WIRE_SIZE.
  assert (len = Z.of_nat (length pre) + 20 + Z.of_nat (length (lr_hostname row)) + Z.of_nat (length t)) as El'.
  { rewrite El, Ed, !length_app, pack_row_length. lia. }
  rewrite Nat2Z.id.
  rewrite (rd_i32_eq data (length pre) pre (lr_rank row)
             (le32 (lr_pid row) ++ le64 (lr_timestamp row) ++ le32 (Z.of_nat (length (lr_hostname row)))
               ++ lr_hostname row ++ t)) by (done || (rewrite Ed; app_eq)).
  rewrite (rd_i32_eq data (length pre + 4) (pre ++ le32 (lr_rank row)) (lr_pid row)
             (le64 (lr_timestamp row) ++ le32 (Z.of_nat (length (lr_hostname row)))
               ++ lr_hostname row ++ t))
    by (done || (rewrite Ed; app_eq) || (rewrite length_app, le32_length; lia)).
  rewrite (rd_i64_eq data (length pre + 8) (pre ++ le32 (lr_rank row) ++ le32 (lr_pid row))
             (lr_timestamp row) (le32 (Z.of_nat (length (lr_hostname row))) ++ lr_hostname row ++ t))
    by (done || (rewrite Ed; app_eq) || (rewrite !length_app, !le32_length; lia)).
  rewrite (rd_i32_eq data (length pre + 16)
             (pre ++ le32 (lr_rank row) ++ le32 (lr_pid row) ++ le64 (lr_timestamp row))
             (Z.of_nat (length (lr_hostname row))) (lr_hostname row ++ t))
    by ((rewrite Ed; app_eq) || (unfold le64; rewrite !length_app, !le32_length, le_encode_length; lia)
        || (unfold i32; lia)).
  rewrite (proj2 (Z.ltb_ge _ _)), (proj2 (Z.ltb_ge _ 0)), (proj2 (Z.ltb_ge len _)) by lia. cbn [orb].
  assert (drop (length pre + 20) data = lr_hostname row ++ t) as ->.
  { rewrite Ed. replace (pre ++ pack_row row ++ t)
      with ((pre ++ le32 (lr_rank row) ++ le32 (lr_pid row) ++ le64 (lr_timestamp row)
               ++ le32 (Z.of_nat (length (lr_hostname row)))) ++ lr_hostname row ++ t) by app_eq.
    apply drop_app_exact. unfold le64. rewrite !length_app, !le32_length, le_encode_length. lia. }
  rewrite Nat2Z.id, take_app_length, length_app, pack_row_length.
  destruct row; simpl. do 2 f_equal. lia.
Qed.

Lemma parse_rows_pack rows : ∀ pre t data len,
  Forall row_ok rows → data = pre ++ concat (pack_row <$> rows) ++ t →
  len = Z.of_nat (length data) →
  parse_rows data len (Z.of_nat (length pre)) (length rows)
  = Some (rows, Z.of_nat (length (pre ++ concat (pack_row <$> rows)))).
Proof.
  induction rows as [|row rows IH]; intros pre t data len Hok Ed El.
  { simpl. by rewrite app_nil_r. }
  apply Forall_cons in Hok as [Hrow Hok]. rewrite fmap_cons in *. cbn [concat] in *.
  cbn [length parse_rows].
  rewrite (parse_row_pack pre row (concat (pack_row <$> rows) ++ t) data len)
    by (done || (rewrite Ed, <- !(assoc_L (++)); done)).
  cbn [mbind option_bind].
  rewrite (IH (pre ++ pack_row row) t data len) by (done || (rewrite Ed, <- !(assoc_L (++)); done)).
  cbn [mbind option_bind]. by rewrite (assoc_L (++)).
Qed.

Lemma parse_entry_pack pre e t data len :
  log_entry_ok e → data = pre ++ crash_log_entry_pack e ++ t → len = Z.of_nat (length data) →
  crash_log_parse_entry data len (Z.of_nat (length pre))
  = Some (ent_of e, Z.of_nat (length (pre ++ crash_log_entry_pack e))).
Proof.
  intros ((Hs0 & Hs1) & Hx & Hn & Hrows) Ed El. unfold crash_log_parse_entry.
  set (rows := concat (pack_row <$> log_ranks e)) in *.
  set (nr := Z.of_nat (length (log_ranks e))) in *. set (sl := Z.of_nat (length (site e))) in *.
  assert (len = Z.of_nat (length pre) + 12 + sl + Z.of_nat (length rows) + Z.of_nat (length t)) as El'.
  { rewrite El, Ed. unfold crash_log_entry_pack. rewrite !length_app, !le32_length.
    fold rows. unfold sl. lia. }
  rewrite Nat2Z.id.
  rewrite (rd_i32_eq data (length pre) pre sl
             (site e ++ le32 (exemplar_rank e) ++ le32 nr ++ rows ++ t))
    by ((rewrite Ed; app_eq) || done || (unfold i32; lia)).
  rewrite (proj2 (Z.ltb_ge _ _)), (proj2 (Z.leb_gt _ 0)), (proj2 (Z.ltb_ge len _)) by lia. cbn [orb].
  rewrite (proj2 (Z.ltb_ge len _)) by lia.
  replace (Z.to_nat (Z.of_nat (length pre) + 4)) with (length pre + 4)%nat by lia.
  replace (Z.to_nat (Z.of_nat (length pre) + 4 + sl)) with (length pre + 4 + length (site e))%nat by lia.
  rewrite (rd_i32_eq data (length pre + 4 + length (site e)) (pre ++ le32 sl ++ site e)
             (exemplar_rank e) (le32 nr ++ rows ++ t))
    by ((rewrite Ed; app_eq) || done || (rewrite !length_app, !le32_length; lia)).
  rewrite (rd_i32_eq data (length pre + 4 + length (site e) + 4)
             (pre ++ le32 sl ++ site e ++ le32 (exemplar_rank e)) nr (rows ++ t))
    by ((rewrite Ed; app_eq) || (rewrite !length_app, !le32_length; lia) || (unfold i32; lia)).
  rewrite (proj2 (Z.ltb_ge nr 0)) by lia.
  assert (take (Z.to_nat sl) (drop (length pre + 4) data) = site e) as ->.
  { rewrite Ed. replace (pre ++ crash_log_entry_pack e ++ t)
      with ((pre ++ le32 sl) ++ site e ++ (le32 (exemplar_rank e) ++ le32 nr ++ rows ++ t)) by app_eq.
    rewrite drop_app_exact by (rewrite length_app, le32_length; lia).
    unfold sl. by rewrite Nat2Z.id, take_app_length. }
  set (pre' := pre ++ le32 sl ++ site e ++ le32 (exemplar_rank e) ++ le32 nr).
  replace (Z.of_nat (length pre) + 4 + sl + 8) with (Z.of_nat (length pre'))
    by (unfold pre'; rewrite !length_app, !le32_length; lia).
  unfold nr at 1. rewrite Nat2Z.id.
  rewrite (parse_rows_pack (log_ranks e) pre' t data len) by (done || (rewrite Ed; unfold pre'; app_eq)).
  cbn [mbind option_bind]. fold rows. do 4 f_equal. unfold pre'. app_eq.
Qed.

Lemma merge_entries_pack es : ∀ st pre t data len,
  Forall log_entry_ok es → data = pre ++ concat (crash_log_entry_pack <$> es) ++ t →
  len = Z.of_nat (length data) →
  merge_entries st data len (Z.of_nat (length pre)) (length es)
  = (fold_left crash_log_merge_entry (ent_of <$> es) st, true).
Proof.
  induction es as [|e es IH]; intros st pre t data len Hok Ed El; [done|].
  apply Forall_cons in Hok as [He Hok]. rewrite fmap_cons in Ed. rewrite fmap_cons.
  cbn [concat] in Ed. cbn [length merge_entries].
  rewrite (parse_entry_pack pre e (concat (crash_log_entry_pack <$> es) ++ t) data len)
    by (done || (rewrite Ed, <- !(assoc_L (++)); done)).
  apply (IH _ (pre ++ crash_log_entry_pack e) t); [done| |done].
  by rewrite Ed, <- !(assoc_L (++)).
Qed.

(** A crash-log message is merged by the parent exactly as the child packed
    it: every pending site with its exemplar and all its rows, in order, and the
    parent then passes its own pending sites on. *)
Theorem crash_log_transfer (st : cstate) (es : list crash_site_entry) :
  Forall log_entry_ok es → Z.of_nat (length es) < 2 ^ 31 →
  handle_crash_log_recv st false (crash_log_msg es)
  = (crash_log_flush_to_parent (fold_left crash_log_merge_entry (ent_of <$> es) st), 0).
Proof.
  intros Hes Hn. unfold handle_crash_log_recv, crash_log_msg.
  cbn [msg_data msg_len from_option id].
  set (n := Z.of_nat (length es)). set (d := le32 n ++ concat (crash_log_entry_pack <$> es)).
  assert (4 <= Z.of_nat (length d)).
  { unfold d. rewrite length_app, le32_length. lia. }
  rewrite (rd_i32_eq d 0 [] n (concat (crash_log_entry_pack <$> es))) by (done || (unfold i32, n; lia)).
  rewrite (proj2 (Z.ltb_ge _ _)), (proj2 (Z.ltb_ge _ _)) by lia.
  unfold n. rewrite Nat2Z.id. change 4 with (Z.of_nat (length (le32 n))).
  rewrite (merge_entries_pack es st (le32 n) [] d _) by (done || (unfold d; by rewrite app_nil_r)).
  done.
Qed.

Definition example_row (r : Z) (h : bytes) : crash_log_rank := mk_log_rank r 100 1700000000 h.
Definition example_site : crash_site_entry :=
  mk_site (lit "app|main+0x4") false (CRASH_WAITER_LOCAL 0 0) (-1) None
    [example_row 2 (lit "node1"); example_row 0 (lit "node0")].
Definition example_server (rank : Z) : cstate :=
  mk_cstate true true rank (lit "host") [] [] [].

Lemma crash_log_transfer_witness :
  (crash_sites (fst (handle_crash_log_recv (example_server 0) false (crash_log_msg [example_site]))))
  = [mk_site (lit "app|main+0x4") true (CRASH_WAITER_LOCAL 0 0) (-1) None
       [example_row 2 (lit "node1"); example_row 0 (lit "node0")]].
Proof.
  rewrite (crash_log_transfer (example_server 0) [example_site]).
  - vm_compute. reflexivity.
  - repeat constructor; vm_compute; congruence.
  - vm_compute. reflexivity.
Defined.

(** *** Malformed messages *)

Lemma parse_row_bounds data len pos row pos' :
  0 <= pos → crash_log_parse_row data len pos = Some (row, pos') → pos < pos' <= len.
Proof.
  intros Hpos. unfold crash_log_parse_row, CRASH_LOG_RANK_WIRE_SIZE.
  destruct (len <? pos + 20) eqn:E1; [done|].
  set (h := rd_i32 data _). destruct ((h <? 0) || _) eqn:E2; [done|].
  intros H. simplify_eq. bool_to_prop. lia.
Qed.

Lemma parse_rows_bounds data len n : ∀ pos rows pos',
  0 <= pos <= len → parse_rows data len pos n = Some (rows, pos') →
  pos <= pos' <= len ∧ length rows = n.
Proof.
  induction n as [|n IH]; intros pos rows pos' Hpos; simpl.
  - intros [= <- <-]. simpl. lia.
  - destruct (crash_log_parse_row data len pos) as [[row p1]|] eqn:E1; [|done]. simpl.
    destruct (parse_rows data len p1 n) as [[rows' p2]|] eqn:E2; [|done]. simpl.
    intros [= <- <-]. apply parse_row_bounds in E1; [|lia]. apply IH in E2; [|lia]. simpl. lia.
Qed.

(** However malformed a crash-log message is, an entry that the parser
    accepts lies within the message: its site and all its rows do, and the
    parser advances, never past the end. *)
Theorem crash_log_parse_in_bounds (data : bytes) (len pos : Z) (ent : crash_log_entry) (pos' : Z) :
  0 <= pos <= len → crash_log_parse_entry data len pos = Some (ent, pos') →
  pos + 12 + rd_i32 data (Z.to_nat pos) <= pos' <= len ∧ 0 < rd_i32 data (Z.to_nat pos) ∧
  ent_site ent = take (Z.to_nat (rd_i32 data (Z.to_nat pos))) (drop (Z.to_nat (pos + 4)) data).
Proof.
  intros Hpos. unfold crash_log_parse_entry.
  set (sl := rd_i32 data (Z.to_nat pos)).
  destruct (len <? pos + 4) eqn:E1; [done|].
  destruct (sl <=? 0) eqn:E2; [done|]. cbn [orb].
  destruct (len <? pos + 4 + sl) eqn:E3; [done|].
  destruct (len <? pos + 4 + sl + 8) eqn:E4; [done|].
  destruct (_ <? 0) eqn:E5; [done|].
  destruct (parse_rows _ _ _ _) as [[rows p3]|] eqn:E6; [|done]. simpl.
  intros [= <- <-]. bool_to_prop. apply parse_rows_bounds in E6; [|lia]. simpl.
  split_and!; [lia..|done].
Qed.

Lemma crash_log_parse_in_bounds_witness :
  ∃ ent pos', crash_log_parse_entry (crash_log_entry_pack example_site) 74 0 = Some (ent, pos') ∧
    pos' <= 74.
Proof.
  destruct (crash_log_parse_entry (crash_log_entry_pack example_site) 74 0) as [[ent pos']|] eqn:E.
  - exists ent, pos'. split; [reflexivity|].
    apply (crash_log_parse_in_bounds _ 74 0 ent pos') in E; [|lia]. apply E.
  - vm_compute in E. discriminate.
Defined.

(** [crash_parse_response] has no upper bound on the length of the site: it
    accepts a message of eight bytes whose site would extend beyond it. *)
Theorem crash_response_overread :
  ∃ m rank s site_len, msg_len m = 8 ∧ msg_data m = Some (le32 0 ++ le32 100) ∧
    crash_parse_response m = Some (rank, s, site_len) ∧ msg_len m < 8 + site_len.
Proof.
  exists (mk_msg LDCS_MSG_CRASH_RESPONSE 8 (Some (le32 0 ++ le32 100))), 0, [], 100.
  split_and!; reflexivity || (simpl; lia).
Qed.

(** ** The CSV file the root writes *)

Definition COMMA : ascii := ",".
Definition QUOTE : ascii := byte_of 34.
Definition BACKSLASH : ascii := byte_of 92.
Definition NEWLINE : ascii := byte_of 10.

(** The [switch] of [write_csv_field]. *)
Definition csv_escape (c : ascii) : bytes :=
  if bool_decide (c = BACKSLASH) then [BACKSLASH; BACKSLASH]
  else if bool_decide (c = NEWLINE) then [BACKSLASH; "n"%char]
  else if bool_decide (c = QUOTE) then [QUOTE; QUOTE]
  else [c].

Definition csv_needs_quote (s : bytes) : bool :=
  existsb (λ c, bool_decide (c = COMMA) || bool_decide (c = QUOTE)) s.

(** [write_csv_field] *)
Definition write_csv_field (s : bytes) : bytes :=
  let body := concat (csv_escape <$> s) in
  if csv_needs_quote s then QUOTE :: body ++ [QUOTE] else body.

(** [strcmp] *)
Fixpoint strcmp (a b : bytes) : Z :=
  match a, b with
  | [], [] => 0
  | [], _ => -1
  | _, [] => 1
  | x :: a', y :: b' =>
      if byte_val x <? byte_val y then -1
      else if byte_val y <? byte_val x then 1 else strcmp a' b'
  end.

(** [rank_cmp] *)
Definition rank_cmp (ra rb : crash_log_rank) : Z :=
  if lr_rank ra <? lr_rank rb then -1
  else if lr_rank rb <? lr_rank ra then 1
  else
    let c := strcmp (lr_hostname ra) (lr_hostname rb) in
    if negb (c =? 0) then c
    else if lr_pid ra <? lr_pid rb then -1
    else if lr_pid rb <? lr_pid ra then 1 else 0.

(** [qsort] with [rank_cmp]. *)
Fixpoint insert_row (r : crash_log_rank) (l : list crash_log_rank) : list crash_log_rank :=
  match l with
  | [] => [r]
  | x :: l' => if rank_cmp r x <=? 0 then r :: l else x :: insert_row r l'
  end.

Definition sort_rows (l : list crash_log_rank) : list crash_log_rank := fold_right insert_row [] l.

(** [strchr (e->site, '|')] splits the key into executable and site. *)
Fixpoint split_key (s : bytes) : option (bytes * bytes) :=
  match s with
  | [] => None
  | c :: s' =>
      if bool_decide (c = "|"%char) then Some ([], s')
      else '(a, b) ← split_key s'; Some (c :: a, b)
  end.

Definition key_exe (e : crash_site_entry) : bytes :=
  match split_key (cstr (site e)) with Some (a, _) => a | None => [] end.
Definition key_site (e : crash_site_entry) : bytes :=
  match split_key (cstr (site e)) with Some (_, b) => b | None => cstr (site e) end.

Section csv.
  (** [format_timestamp]: local time formatting of the C library. *)
  Variable format_timestamp : Z → bytes.

(** The body of the row loop, without the final newline. *)
Definition csv_row (e : crash_site_entry) (row : crash_log_rank) : bytes :=
  dec (lr_rank row) ++ [COMMA] ++ write_csv_field (lr_hostname row) ++ [COMMA]
    ++ dec (lr_pid row) ++ [COMMA] ++ format_timestamp (lr_timestamp row) ++ [COMMA]
    ++ write_csv_field (key_exe e) ++ [COMMA] ++ write_csv_field (key_site e) ++ [COMMA]
    ++ dec (exemplar_rank e) ++ [COMMA] ++ write_csv_field (default [] (exemplar_corepath e)).

Definition csv_site (e : crash_site_entry) : bytes :=
  concat ((λ row, csv_row e row ++ [NEWLINE]) <$> sort_rows (log_ranks e)).

Definition CRASH_LOG_HEADER : bytes :=
  lit "rank,hostname,pid,timestamp,exe,site,exemplar,corepath".

(** [crash_log_root_write]: what is appended to a log of [st_size] bytes. *)
Definition crash_log_root_write (st : cstate) (crash_log : bytes) (st_size : Z) : option bytes :=
  if negb (opt_crash_log st) then None
  else if negb (is_responsible st) then None
  else if bool_decide (crash_log = []) then None
  else match pending_sites st with
       | [] => None
       | es => Some ((if st_size =? 0 then CRASH_LOG_HEADER ++ [NEWLINE] else [])
                       ++ concat (csv_site <$> es))
       end.
End csv.

(** *** Reading the file back *)

Inductive csv_mode := Start | Plain | Quoted | QuoteSeen.

(** The fields of a CSV line, quotes removed. *)
Fixpoint csv_split (mode : csv_mode) (cur : bytes) (s : bytes) : list bytes :=
  match s with
  | [] => [cur]
  | c :: s' =>
      match mode with
      | Quoted =>
          if bool_decide (c = QUOTE) then csv_split QuoteSeen cur s'
          else csv_split Quoted (cur ++ [c]) s'
      | QuoteSeen =>
          if bool_decide (c = QUOTE) then csv_split Quoted (cur ++ [QUOTE]) s'
          else if bool_decide (c = COMMA) then cur :: csv_split Start [] s'
          else csv_split Plain (cur ++ [c]) s'
      | Start =>
          if bool_decide (c = QUOTE) then csv_split Quoted cur s'
          else if bool_decide (c = COMMA) then cur :: csv_split Start [] s'
          else csv_split Plain (cur ++ [c]) s'
      | Plain =>
          if bool_decide (c = COMMA) then cur :: csv_split Start [] s'
          else csv_split Plain (cur ++ [c]) s'
      end
  end.

Fixpoint csv_unescape (s : bytes) : bytes :=
  match s with
  | [] => []
  | c :: s' =>
      if bool_decide (c = BACKSLASH) then
        match s' with
        | d :: s'' =>
            (if bool_decide (d = "n"%char) then NEWLINE else d) :: csv_unescape s''
        | [] => [c]
        end
      else c :: csv_unescape s'
  end.

Definition read_csv_row (line : bytes) : list bytes := csv_unescape <$> csv_split Start [] line.

(** A field as a reader sees it before the backslash escapes are undone. *)
Definition half_escape (c : ascii) : bytes :=
  if bool_decide (c = QUOTE) then [QUOTE] else csv_escape c.

Lemma csv_unescape_half s : csv_unescape (concat (half_escape <$> s)) = s.
Proof.
  induction s as [|c s IH]; [done|]. rewrite fmap_cons. cbn [concat].
  unfold half_escape at 1, csv_escape.
  destruct (bool_decide (c = QUOTE)) eqn:Eq; bool_to_prop.
  { subst c. simpl. by rewrite IH. }
  destruct (bool_decide (c = BACKSLASH)) eqn:Eb; bool_to_prop; [subst c; simpl; by rewrite IH|].
  destruct (bool_decide (c = NEWLINE)) eqn:En; bool_to_prop; [subst c; simpl; by rewrite IH|].
  cbn [app csv_unescape]. rewrite bool_decide_false by done. by rewrite IH.
Qed.

(** What follows a field: the end of the line or a comma. *)
Definition field_end (rest : bytes) : Prop := rest = [] ∨ ∃ t, rest = COMMA :: t.

Definition after_field (rest : bytes) : list bytes :=
  match rest with [] => [] | _ :: t => csv_split Start [] t end.

Lemma csv_split_end mode cur rest :
  mode ≠ Quoted → field_end rest → csv_split mode cur rest = cur :: after_field rest.
Proof. intros Hm [->|[t ->]]; destruct mode; done. Qed.

Lemma csv_split_plain s : ∀ mode cur rest,
  mode = Start ∨ mode = Plain → csv_needs_quote s = false → field_end rest →
  csv_split mode cur (concat (csv_escape <$> s) ++ rest)
  = (cur ++ concat (half_escape <$> s)) :: after_field rest.
Proof.
  unfold csv_needs_quote.
  induction s as [|c s IH]; intros mode cur rest Hm Hq Hr.
  { simpl. rewrite app_nil_r. apply csv_split_end; [naive_solver|done]. }
  simpl in Hq. apply orb_false_iff in Hq as [[Hc Hqu]%orb_false_iff Hq].
  rewrite !fmap_cons. cbn [concat]. unfold half_escape at 1, csv_escape. rewrite Hqu.
  assert (∀ x m cur t, x ≠ COMMA → x ≠ QUOTE → m = Start ∨ m = Plain →
            csv_split m cur (x :: t) = csv_split Plain (cur ++ [x]) t) as Hstep.
  { intros x m cur' t H1 H2 [->| ->]; simpl; by rewrite ?(bool_decide_false (x = QUOTE)),
      (bool_decide_false (x = COMMA)). }
  bool_to_prop.
  destruct (bool_decide (c = BACKSLASH)); [|destruct (bool_decide (c = NEWLINE))];
    cbn [app]; rewrite !Hstep by (done || auto); rewrite IH by auto;
    by rewrite <- !(assoc_L (++)).
Qed.

Lemma csv_split_quoted s : ∀ cur rest,
  field_end rest →
  csv_split Quoted cur (concat (csv_escape <$> s) ++ QUOTE :: rest)
  = (cur ++ concat (half_escape <$> s)) :: after_field rest.
Proof.
  induction s as [|c s IH]; intros cur rest Hr.
  { simpl. rewrite app_nil_r. by apply csv_split_end. }
  rewrite !fmap_cons. cbn [concat]. unfold half_escape at 1, csv_escape.
  assert (∀ x cur t, x ≠ QUOTE →
            csv_split Quoted cur (x :: t) = csv_split Quoted (cur ++ [x]) t) as Hstep.
  { intros x cur' t H. simpl. by rewrite bool_decide_false. }
  destruct (bool_decide (c = QUOTE)) eqn:Eq; bool_to_prop.
  { subst c. change (bool_decide (QUOTE = BACKSLASH)) with false.
    change (bool_decide (QUOTE = NEWLINE)) with false. cbn iota.
    rewrite <- (assoc_L (++)). cbn [app].
    assert (∀ t, csv_split Quoted cur (QUOTE :: QUOTE :: t) = csv_split Quoted (cur ++ [QUOTE]) t) as ->
      by done.
    rewrite IH by done. by rewrite <- (assoc_L (++)). }
  destruct (bool_decide (c = BACKSLASH)); [|destruct (bool_decide (c = NEWLINE))];
    cbn [app]; rewrite !Hstep by done; rewrite IH by done; by rewrite <- !(assoc_L (++)).
Qed.

Lemma csv_split_field s rest :
  field_end rest →
  csv_split Start [] (write_csv_field s ++ rest) = concat (half_escape <$> s) :: after_field rest.
Proof.
  intros Hr. unfold write_csv_field. destruct (csv_needs_quote s) eqn:E.
  - cbn [app]. rewrite <- (assoc_L (++)). by apply (csv_split_quoted s []).
  - by apply csv_split_plain; auto.
Qed.

(** Fields without special characters are written as they are. *)
Definition csv_plain (s : bytes) : Prop :=
  Forall (λ c, c ≠ COMMA ∧ c ≠ QUOTE ∧ c ≠ BACKSLASH ∧ c ≠ NEWLINE) s.

Lemma write_csv_plain s : csv_plain s → write_csv_field s = s.
Proof.
  intros H. unfold write_csv_field.
  assert (csv_needs_quote s = false ∧ concat (csv_escape <$> s) = s) as [-> ->]; [|done].
  induction H as [|c s (Hc & Hq & Hb & Hn) _ [IH1 IH2]]; [done|].
  unfold csv_needs_quote in *. split; [cbn [existsb]; by rewrite IH1, !bool_decide_false|].
  rewrite fmap_cons. cbn [concat]. rewrite IH2. unfold csv_escape. by rewrite !bool_decide_false.
Qed.

Lemma digit_plain d : 0 <= d < 10 → csv_plain [byte_of (48 + d)].
Proof.
  intros Hd. constructor; [|constructor].
  assert (d = 0 ∨ d = 1 ∨ d = 2 ∨ d = 3 ∨ d = 4 ∨ d = 5 ∨ d = 6 ∨ d = 7 ∨ d = 8 ∨ d = 9) as H by lia.
  repeat (destruct H as [->|H]; [split_and!; discriminate|]). subst d. split_and!; discriminate.
Qed.

Lemma dec_digits_plain fuel : ∀ n acc, 0 <= n → csv_plain acc → csv_plain (dec_digits fuel n acc).
Proof.
  induction fuel as [|fuel IH]; intros n acc Hn Hacc; simpl; [done|].
  assert (csv_plain (byte_of (48 + n mod 10) :: acc)) as H.
  { apply (Forall_app_2 _ [_]); [|done]. apply digit_plain, Z.mod_pos_bound. lia. }
  destruct (n <? 10); [done|]. apply IH; [|done]. apply Z.div_pos; lia.
Qed.

Lemma dec_plain z : csv_plain (dec z).
Proof.
  unfold dec. destruct (z <? 0) eqn:E; bool_to_prop.
  - apply Forall_app_2; [|apply dec_digits_plain; [lia|constructor]].
    repeat constructor; discriminate.
  - apply dec_digits_plain; [done|constructor].
Qed.

(** Every row of the crash log can be read back: splitting the line at its
    unquoted commas and undoing the escapes gives the rank, host, pid, time,
    executable, site, exemplar and core path that were written, whatever
    characters the paths contain. *)
Theorem csv_row_roundtrip (ft : Z → bytes) (e : crash_site_entry) (row : crash_log_rank) :
  (∀ t, csv_plain (ft t)) →
  read_csv_row (csv_row ft e row)
  = [dec (lr_rank row); lr_hostname row; dec (lr_pid row); ft (lr_timestamp row);
     key_exe e; key_site e; dec (exemplar_rank e); default [] (exemplar_corepath e)].
Proof.
  intros Hft. unfold read_csv_row, csv_row.
  rewrite <- (write_csv_plain (dec (lr_rank row))), <- (write_csv_plain (dec (lr_pid row))),
    <- (write_csv_plain (dec (exemplar_rank e))), <- (write_csv_plain (ft (lr_timestamp row)))
    by auto using dec_plain.
  rewrite <- (app_nil_r (write_csv_field (default [] _))).
  assert (∀ s t, csv_split Start [] (write_csv_field s ++ [COMMA] ++ t)
            = concat (half_escape <$> s) :: csv_split Start [] t) as Hf.
  { intros s t. rewrite csv_split_field; [done|]. right. by eexists. }
  rewrite !Hf, csv_split_field by (by left). simpl. rewrite !csv_unescape_half.
  rewrite !write_csv_plain by auto using dec_plain. done.
Qed.

Lemma csv_row_roundtrip_witness :
  read_csv_row (csv_row (λ _, lit "2024-01-01T00:00:00+0000")
    (mk_site (lit "a,b|x+0x1") true (CRASH_WAITER_LOCAL 0 0) 3 (Some (lit "/c\d")) []) (example_row 3 (lit "n0")))
  = [lit "3"; lit "n0"; lit "100"; lit "2024-01-01T00:00:00+0000"; lit "a,b"; lit "x+0x1"; lit "3"; lit "/c\d"].
Proof.
  rewrite (csv_row_roundtrip (λ _, lit "2024-01-01T00:00:00+0000")).
  - vm_compute. reflexivity.
  - intros _. repeat constructor; discriminate.
Defined.

(** ** What the handlers do to the election

    For the election an entry counts by whether it is resolved and by who
    waits on it; the crash log only touches the rest. *)

Definition lookup_site (l : list crash_site_entry) (s : bytes) : option crash_site_entry :=
  match find_site l s with Some i => l !! i | None => None end.

Definition view (st : cstate) (s : bytes) : option (bool * crash_waiter) :=
  (λ e, (resolved e, waiter e)) <$> lookup_site (crash_sites st) s.

Definition resp_out (tbl : list client) (w : crash_waiter) (x : Z) (s : bytes) : list output :=
  match w with
  | CRASH_WAITER_LOCAL nc _ =>
      match tbl !! nc with
      | Some cl => if active cl && (0 <=? connid cl)
                   then [ToClient nc s (response_msg (le32 x))] else []
      | None => []
      end
  | CRASH_WAITER_CHILD peer => [ToPeer peer (response_msg (crash_pack x s))]
  end.

(** The settings and the clients are untouched. *)
Definition same_conf (st st' : cstate) : Prop :=
  opt_crash_handler st' = opt_crash_handler st ∧ opt_crash_log st' = opt_crash_log st ∧
  md_rank st' = md_rank st ∧ client_table st' = client_table st.

#[export] Instance same_conf_preorder : PreOrder same_conf.
Proof. split; unfold same_conf; [intros ?; done|intros ???; intuition congruence]. Qed.

Lemma find_site_Some l s i : find_site l s = Some i → ∃ e, l !! i = Some e ∧ site e = s.
Proof.
  revert i. induction l as [|e l IH]; intros i; simpl; [done|].
  case_bool_decide; [intros [= <-]; eauto|]. intros (j & Hj & ->)%fmap_Some. by apply (IH j).
Qed.

Lemma find_site_app l e s :
  find_site (l ++ [e]) s =
    match find_site l s with
    | Some i => Some i
    | None => if bool_decide (site e = s) then Some (length l) else None
    end.
Proof.
  induction l as [|x l IH]; simpl; [done|].
  destruct (bool_decide (site x = s)); [done|]. rewrite IH.
  destruct (find_site l s); simpl; [done|]. by destruct (bool_decide (site e = s)).
Qed.

Lemma find_site_alter l f i s :
  (∀ e, site (f e) = site e) → find_site (alter f i l) s = find_site l s.
Proof.
  intros Hf. revert i. induction l as [|x l IH]; intros i; [by destruct i|].
  destruct i as [|i]; [simpl; by rewrite Hf|].
  change (alter f (S i) (x :: l)) with (x :: alter f i l). simpl.
  destruct (bool_decide (site x = s)); [done|]. by rewrite IH.
Qed.

Lemma lookup_site_Some l s e : lookup_site l s = Some e → site e = s.
Proof.
  unfold lookup_site. destruct (find_site l s) as [i|] eqn:E; [|done].
  apply find_site_Some in E as (e' & H1 & H2). naive_solver.
Qed.

Lemma view_alter_same st i f s :
  (∀ e, site (f e) = site e ∧ resolved (f e) = resolved e ∧ waiter (f e) = waiter e) →
  view (update_site st i f) s = view st s.
Proof.
  intros Hf. unfold view, lookup_site, update_site, set_sites. simpl.
  rewrite find_site_alter by apply Hf. destruct (find_site _ s) as [j|]; [|done].
  destruct (decide (i = j)) as [->|]; [|by rewrite list_lookup_alter_ne].
  rewrite list_lookup_alter_eq. destruct (_ !! j); [|done]. simpl.
  destruct (Hf c) as (_ & -> & ->). done.
Qed.

Lemma view_alter st i f s0 s :
  (∀ e, site (f e) = site e) → find_site (crash_sites st) s0 = Some i →
  view (update_site st i f) s =
    if decide (s0 = s) then (λ e, (resolved (f e), waiter (f e))) <$> lookup_site (crash_sites st) s0
    else view st s.
Proof.
  intros Hf Hi. unfold view, lookup_site, update_site, set_sites. simpl.
  rewrite find_site_alter by done. destruct (decide (s0 = s)) as [<-|Hne].
  - rewrite Hi, list_lookup_alter_eq. by destruct (_ !! i).
  - destruct (find_site _ s) as [j|] eqn:Ej; [|done].
    rewrite list_lookup_alter_ne; [done|]. intros ->.
    apply find_site_Some in Hi as (? & ? & ?), Ej as (? & ? & ?). naive_solver.
Qed.

Lemma send_response_eq st w x s :
  send_crash_response_to_waiter st w x s =
    mk_cstate (opt_crash_handler st) (opt_crash_log st) (md_rank st) (hostname st)
      (client_table st) (crash_sites st) (sent st ++ resp_out (client_table st) w x s).
Proof.
  unfold send_crash_response_to_waiter, resp_out. destruct w as [nc g|p]; [|done].
  destruct (client_table st !! nc) as [cl|]; [|rewrite app_nil_r; by destruct st].
  destruct (active cl && _); [done|]. rewrite app_nil_r. by destruct st.
Qed.

(** Resolving the first entry of a site answers its waiter. *)
Lemma crash_resolve_effect st i s x w b :
  find_site (crash_sites st) s = Some i → view st s = Some (b, w) →
  same_conf st (crash_resolve st i x) ∧
  sent (crash_resolve st i x) = sent st ++ resp_out (client_table st) w x s ∧
  ∀ s', view (crash_resolve st i x) s' = if decide (s = s') then Some (true, w) else view st s'.
Proof.
  intros Hi Hv. pose proof (find_site_Some _ _ _ Hi) as (e & He & Hs).
  unfold crash_resolve. rewrite He, send_response_eq.
  assert (waiter e = w) as ->.
  { unfold view, lookup_site in Hv. rewrite Hi, He in Hv. simpl in Hv. congruence. }
  rewrite Hs. split_and!; [done..|]. intros s'.
  rewrite (view_alter _ i set_resolved s) by done. unfold lookup_site. simpl. rewrite Hi, He.
  unfold view, lookup_site in Hv. rewrite Hi, He in Hv. simpl in Hv. simpl.
  destruct (decide (s = s')); [|done]. congruence.
Qed.

Lemma insert_effect st s f :
  view st s = None → (∀ e, site (f e) = site e) →
  let '(st1, i) := crash_site_insert st s in
  let st2 := update_site st1 i f in
  find_site (crash_sites st2) s = Some i ∧ same_conf st st2 ∧ sent st2 = sent st ∧
  ∀ s', view st2 s' = if decide (s = s')
                      then Some (resolved (f (new_site s)), waiter (f (new_site s)))
                      else view st s'.
Proof.
  intros Hv Hsite. simpl.
  assert (find_site (crash_sites st) s = None) as Hn.
  { unfold view, lookup_site in Hv. destruct (find_site _ s) as [j|] eqn:E; [|done].
    apply find_site_Some in E as (e & He & _). by rewrite He in Hv. }
  assert (find_site (crash_sites st ++ [new_site s]) s = Some (length (crash_sites st))) as Hf.
  { rewrite find_site_app, Hn. by rewrite bool_decide_true. }
  split_and!; [simpl; by rewrite find_site_alter|done|done|]. intros s'.
  rewrite (view_alter _ _ _ s) by done. unfold lookup_site. simpl. rewrite Hf.
  rewrite lookup_app_r, Nat.sub_diag by lia. simpl.
  destruct (decide (s = s')) as [|Hne]; [done|].
  unfold view, lookup_site. simpl. rewrite find_site_app.
  destruct (find_site (crash_sites st) s') as [j|] eqn:Ej.
  - apply find_site_Some in Ej as (e & He & _).
    rewrite lookup_app_l by (by eapply lookup_lt_Some). done.
  - by rewrite bool_decide_false.
Qed.

(** The whole of [crash_report_common]. *)
Lemma crash_report_common_effect st w rank disp s cp st' i :
  crash_report_common st w rank disp s cp = (st', i) →
  find_site (crash_sites st') s = Some i ∧ same_conf st st' ∧
  match view st s with
  | Some _ =>
      sent st' = sent st ++ resp_out (client_table st) w (-1) s ∧ ∀ s', view st' s' = view st s'
  | None =>
      if is_responsible st then
        sent st' = sent st ++ resp_out (client_table st) w rank s ∧
        ∀ s', view st' s' = if decide (s = s') then Some (true, w) else view st s'
      else
        sent st' = sent st ++ [ToParent (report_msg rank disp s cp)] ∧
        ∀ s', view st' s' = if decide (s = s') then Some (false, w) else view st s'
  end.
Proof.
  unfold crash_report_common, crash_site_find.
  destruct (find_site (crash_sites st) s) as [j|] eqn:Ej.
  { intros [= <- <-]. rewrite send_response_eq. split; [done|]. split; [done|].
    destruct (find_site_Some _ _ _ Ej) as (e & He & _).
    assert (view st s = Some (resolved e, waiter e)) as ->; [|done].
    unfold view, lookup_site. by rewrite Ej, He. }
  assert (view st s = None) as Hv by (unfold view, lookup_site; by rewrite Ej).
  rewrite Hv. pose proof (insert_effect st s (set_waiter w) Hv ltac:(done)) as Hins.
  destruct (crash_site_insert st s) as [st1 k]. destruct Hins as (Hk & Hconf & Hsent & Hview).
  set (st2 := update_site st1 k (set_waiter w)) in *.
  assert (is_responsible st2 = is_responsible st) as Hresp.
  { unfold is_responsible. by destruct Hconf as (_ & _ & -> & _). }
  rewrite Hresp. destruct (is_responsible st); intros [= <- <-].
  2:{ split; [done|]. split; [done|]. split; [|done].
      unfold forward_crash_query_up, emit. cbn [sent]. by rewrite Hsent. }
  match goal with |- context [crash_resolve ?X k rank] => set (st3 := X) end.
  assert (find_site (crash_sites st3) s = Some k ∧ same_conf st st3 ∧ sent st3 = sent st ∧
          ∀ s', view st3 s' = view st2 s') as (Hk3 & Hconf3 & Hsent3 & Hview3).
  { unfold st3. destruct (opt_crash_log st1); [|by split_and!].
    destruct cp as [c|]; split_and!; try done; try (intros s'; by rewrite !view_alter_same).
    all: cbn [update_site set_sites crash_sites]; rewrite !find_site_alter by done; done. }
  destruct (crash_resolve_effect st3 k s rank w false) as (Hc & Hs & Hvw); [done| |].
  { rewrite Hview3, Hview. by rewrite decide_True. }
  split_and!.
  - unfold crash_resolve. destruct (crash_sites st3 !! k); [|done]. simpl.
    rewrite send_response_eq. simpl. by rewrite find_site_alter.
  - by etrans.
  - rewrite Hs, Hsent3. by destruct Hconf3 as (_ & _ & _ & ->).
  - intros s'. rewrite Hvw, Hview3, Hview. by destruct (decide (s = s')).
Qed.

(** *** The crash log does not interfere *)

Definition is_log (o : output) : Prop :=
  match o with ToParent m => msg_type m = LDCS_MSG_CRASH_LOG | _ => False end.

Lemma find_site_fmap l f s :
  (∀ e, site (f e) = site e) → find_site (f <$> l) s = find_site l s.
Proof.
  intros Hf. induction l as [|e l IH]; [done|]. rewrite fmap_cons. simpl. rewrite Hf, IH. done.
Qed.

Lemma flush_effect st :
  same_conf st (crash_log_flush_to_parent st) ∧
  (∃ logs, sent (crash_log_flush_to_parent st) = sent st ++ logs ∧ Forall is_log logs) ∧
  ∀ s, view (crash_log_flush_to_parent st) s = view st s.
Proof.
  unfold crash_log_flush_to_parent.
  destruct (negb (opt_crash_log st)), (is_responsible st);
    try (split_and!; [done|exists []; by rewrite app_nil_r|done]).
  destruct (pending_sites st) as [|e es];
    [split_and!; [done|exists []; by rewrite app_nil_r|done]|].
  split_and!; [done| |].
  - exists [ToParent (crash_log_msg (e :: es))]. split; [done|]. by repeat constructor.
  - intros s. unfold view, lookup_site, crash_log_clear_pending, set_sites. simpl.
    change (list_fmap _ _ crash_log_free_ranks (crash_sites st))
      with (crash_log_free_ranks <$> crash_sites st).
    rewrite find_site_fmap by done. destruct (find_site _ s) as [j|]; [|done].
    rewrite list_lookup_fmap. by destruct (_ !! j).
Qed.

(** Sites stay known with their resolution and waiter; a site that only the
    crash log brings counts as resolved. *)
Definition view_grows (st st' : cstate) : Prop :=
  ∀ s, view st' s = view st s ∨
       view st s = None ∧ view st' s = Some (true, CRASH_WAITER_LOCAL 0 0).

#[export] Instance view_grows_preorder : PreOrder view_grows.
Proof.
  split; [intros st s; by left|]. intros a b c Hab Hbc s.
  destruct (Hab s) as [<-|[Ha Hb]], (Hbc s) as [->|[Hb' Hc]]; naive_solver.
Qed.

Lemma update_log_effect st i f :
  (∀ e, site (f e) = site e ∧ resolved (f e) = resolved e ∧ waiter (f e) = waiter e) →
  same_conf st (update_site st i f) ∧ sent (update_site st i f) = sent st ∧
  ∀ s, view (update_site st i f) s = view st s.
Proof. intros Hf. split_and!; [done..|]. intros s. by apply view_alter_same. Qed.

Lemma merge_rows_effect rows i : ∀ st,
  let st' := fold_left (λ st row, update_site st i (crash_log_append_rank (merged_row row))) rows st in
  same_conf st st' ∧ sent st' = sent st ∧ ∀ s, view st' s = view st s.
Proof.
  induction rows as [|row rows IH]; intros st; simpl; [done|].
  destruct (update_log_effect st i (crash_log_append_rank (merged_row row))) as (H1 & H2 & H3); [done|].
  destruct (IH (update_site st i (crash_log_append_rank (merged_row row)))) as (H4 & H5 & H6).
  split_and!; [by etrans|by rewrite H5|intros s; by rewrite H6].
Qed.

Lemma merge_entry_effect st ent :
  same_conf st (crash_log_merge_entry st ent) ∧ sent (crash_log_merge_entry st ent) = sent st ∧
  view_grows st (crash_log_merge_entry st ent).
Proof.
  unfold crash_log_merge_entry, crash_site_find.
  assert (∃ st1 i, match find_site (crash_sites st) (ent_site ent) with
            | Some i => (st, i)
            | None => let '(st', i) := crash_site_insert st (ent_site ent) in
                      (update_site st' i set_resolved, i) end = (st1, i) ∧
            same_conf st st1 ∧ sent st1 = sent st ∧ view_grows st st1)
    as (st1 & i & -> & Hc & Hs & Hv).
  { destruct (find_site (crash_sites st) (ent_site ent)) as [i|] eqn:E; [by exists st, i|].
    assert (view st (ent_site ent) = None) as Hn by (unfold view, lookup_site; by rewrite E).
    pose proof (insert_effect st (ent_site ent) set_resolved Hn ltac:(done)) as Hins.
    destruct (crash_site_insert st (ent_site ent)) as [st' i]. destruct Hins as (_ & Hc & Hs & Hview).
    eexists _, _. split; [reflexivity|]. split_and!; [done..|].
    intros s. rewrite Hview. destruct (decide (ent_site ent = s)) as [<-|]; [by right|by left]. }
  set (st2 := if negb (ent_exemplar ent =? -1) then _ else st1).
  assert (same_conf st1 st2 ∧ sent st2 = sent st1 ∧ ∀ s, view st2 s = view st1 s) as (Hc2 & Hs2 & Hv2).
  { unfold st2. destruct (negb _); [|done]. by apply update_log_effect. }
  destruct (merge_rows_effect (ent_rows ent) i st2) as (Hc3 & Hs3 & Hv3).
  split_and!.
  - etrans; [exact Hc|]. by etrans.
  - by rewrite Hs3, Hs2.
  - intros s. rewrite Hv3, Hv2. apply Hv.
Qed.

Lemma merge_entries_effect data len n : ∀ st pos st' ok,
  merge_entries st data len pos n = (st', ok) →
  same_conf st st' ∧ sent st' = sent st ∧ view_grows st st'.
Proof.
  induction n as [|n IH]; intros st pos st' ok; simpl; [intros [= <- <-]; by split_and!|].
  destruct (crash_log_parse_entry data len pos) as [[ent p']|]; [|intros [= <- <-]; by split_and!].
  intros H. apply IH in H as (H1 & H2 & H3).
  destruct (merge_entry_effect st ent) as (H4 & H5 & H6).
  split_and!; [by etrans|congruence|by etrans].
Qed.

Lemma log_recv_effect st fp m :
  let st' := fst (handle_crash_log_recv st fp m) in
  same_conf st st' ∧ (∃ logs, sent st' = sent st ++ logs ∧ Forall is_log logs) ∧ view_grows st st'.
Proof.
  unfold handle_crash_log_recv.
  assert (same_conf st st ∧ (∃ logs, sent st = sent st ++ logs ∧ Forall is_log logs) ∧ view_grows st st)
    as Hid by (split_and!; [done|exists []; by rewrite app_nil_r|done]).
  destruct fp; [done|]. destruct (_ <? 4); [done|]. destruct (_ <? 0); [done|].
  destruct (merge_entries _ _ _ _ _) as [st1 ok] eqn:E.
  apply merge_entries_effect in E as (H1 & H2 & H3).
  destruct ok; simpl; [|rewrite H2; split_and!; [done|exists []; by rewrite app_nil_r|done]].
  destruct (flush_effect st1) as (H4 & (logs & H5 & H6) & H7). split_and!; [by etrans| |].
  - exists logs. by rewrite H5, H2.
  - etrans; [done|]. intros s. left. apply H7.
Qed.

(** The connections of the clients, which decide who can be answered. *)
Definition conns (st : cstate) : list (bool * Z) := (λ c, (active c, connid c)) <$> client_table st.

Lemma conns_update st nc f :
  (∀ c, active (f c) = active c ∧ connid (f c) = connid c) →
  conns (update_client st nc f) = conns st.
Proof.
  intros Hf. unfold conns, update_client, set_clients. simpl.
  change (list_fmap _ _ ?g ?l) with (g <$> l).
  apply list_eq. intros i. rewrite !list_lookup_fmap.
  destruct (decide (nc = i)) as [->|]; [|by rewrite list_lookup_alter_ne].
  rewrite list_lookup_alter_eq. destruct (_ !! i) as [c|]; [|done]. simpl.
  by destruct (Hf c) as [-> ->].
Qed.

Lemma client_string_effect st nc m :
  let st' := fst (handle_client_crash_string st nc m) in
  md_rank st' = md_rank st ∧ conns st' = conns st ∧ sent st' = sent st ∧
  (∀ s, view st' s = view st s) ∧ opt_crash_log st' = opt_crash_log st.
Proof.
  unfold handle_client_crash_string. destruct (negb _); [done|].
  destruct (msg_type m); try done; destruct (_ || _); try done; simpl;
    by rewrite conns_update.
Qed.

(** The site, rank and core path of a client's report the server goes on with. *)
Definition report_accepted (lgn : bytes → option bytes) (st : cstate) (nc : nat) (m : ldcs_message_t)
    : option (bytes * Z * option bytes) :=
  if opt_crash_handler st then
    '(rank, _, s0, _) ← crash_parse_report m;
    cl ← client_table st !! nc;
    exe ← crash_exe cl;
    Some (crash_build_key lgn exe s0, rank, crash_corepath cl)
  else None.

Lemma parse_report_ranks m rank disp s cp :
  crash_parse_report m = Some (rank, disp, s, cp) → i32 rank ∧ i32 disp.
Proof.
  unfold crash_parse_report.
  repeat case_match_goal; intros; simplify_eq; split; apply rd_i32_range.
Qed.

(** A report of a local client, or nothing at all. *)
Lemma client_report_effect lgn st nc now m :
  let st' := fst (handle_client_crash_report lgn st nc now m) in
  md_rank st' = md_rank st ∧ conns st' = conns st ∧ opt_crash_log st' = opt_crash_log st ∧
  match report_accepted lgn st nc m with
  | None => sent st' = sent st ∧ ∀ s, view st' s = view st s
  | Some (key, rank, cp) =>
      ∃ disp st1 i logs, i32 rank ∧ i32 disp ∧
        crash_report_common st (CRASH_WAITER_LOCAL nc rank) rank disp key cp = (st1, i) ∧
        sent st' = sent st1 ++ logs ∧ Forall is_log logs ∧ (opt_crash_log st = false → logs = []) ∧
        ∀ s, view st' s = view st1 s
  end.
Proof.
  unfold handle_client_crash_report, report_accepted.
  destruct (opt_crash_handler st) eqn:Eo; simpl negb; [|done].
  destruct (crash_parse_report m) as [[[[rank disp] s0] cp0]|] eqn:Ep; [|done]. cbn [mbind option_bind].
  destruct (client_table st !! nc) as [cl|]; [|done]. cbn [mbind option_bind].
  destruct (crash_exe cl) as [exe|] eqn:Ee; [|done]. cbn [mbind option_bind].
  destruct (crash_report_common _ _ _ _ _ _) as [st1 i] eqn:Ec.
  pose proof (crash_report_common_effect _ _ _ _ _ _ _ _ Ec) as (_ & Hconf & _).
  match goal with |- context [update_client ?X nc crash_free_client_stash] => set (st2 := X) end.
  assert (opt_crash_log st1 = opt_crash_log st) as Eo1 by apply Hconf.
  assert (same_conf st1 st2 ∧ (∃ logs, sent st2 = sent st1 ++ logs ∧ Forall is_log logs ∧
            (opt_crash_log st = false → logs = [])) ∧
          ∀ s, view st2 s = view st1 s) as (Hc2 & (logs & Hs2 & Hl & Hoff) & Hv2).
  { unfold st2. destruct (opt_crash_log st1) eqn:E1;
      [|split_and!; [done|exists []; by rewrite app_nil_r|done]].
    match goal with |- context [crash_log_flush_to_parent ?X] => set (st1' := X) end.
    destruct (flush_effect st1') as (H1 & H2 & H3).
    destruct H2 as (logs & H2 & Hl).
    split_and!; [by etrans; [|exact H1]|exists logs; split_and!; [done|done|congruence]|].
    intros s. rewrite H3. unfold st1'. by rewrite view_alter_same. }
  assert (same_conf st st2) as Hc by (by etrans).
  split; [apply Hc|]. split; [|split; [apply Hc|]].
  - simpl. rewrite conns_update by done. unfold conns. by destruct Hc as (_ & _ & _ & ->).
  - exists disp, st1, i, logs. destruct (parse_report_ranks _ _ _ _ _ Ep). split_and!; done.
Qed.

(** A response from the parent resolves an unresolved site and is an error
    otherwise. *)
Lemma response_recv_effect st m x s n :
  crash_parse_response m = Some (x, s, n) →
  match view st s with
  | Some (false, w) =>
      let st' := fst (handle_crash_response_recv st true m) in
      snd (handle_crash_response_recv st true m) = 0 ∧ same_conf st st' ∧
      sent st' = sent st ++ resp_out (client_table st) w x s ∧
      ∀ s', view st' s' = if decide (s = s') then Some (true, w) else view st s'
  | _ => handle_crash_response_recv st true m = (st, -1)
  end.
Proof.
  intros Hm. unfold handle_crash_response_recv. simpl negb. rewrite Hm. unfold crash_site_find.
  destruct (find_site (crash_sites st) s) as [i|] eqn:Ei.
  2:{ unfold view, lookup_site. by rewrite Ei. }
  destruct (find_site_Some _ _ _ Ei) as (e & He & Hs). rewrite He.
  assert (view st s = Some (resolved e, waiter e)) as Hv.
  { unfold view, lookup_site. by rewrite Ei, He. }
  rewrite Hv. destruct (resolved e); [done|]. simpl. split; [done|].
  by eapply crash_resolve_effect.
Qed.

End Crash.
