(* ===== verification/CrashTree.v ===== *)
(** * The election of core-dumping ranks over the server tree

    The servers of [CrashHandler] run on the ranks of a tree ([RankTree], which
    the COBO tree provides) and exchange crash reports and responses over
    reliable first-in first-out links.  The system is a step relation over all
    servers, the messages in flight and the answers the clients got; its steps
    run the handlers of the code.  The theorems are about every reachable
    state: at most one client per site is told to dump core, that client is
    told its own rank, and once no message is in flight every report has been
    answered. *)

From Stdlib Require Import Ascii String ZArith Lia.
From stdpp Require Import strings numbers gmap functions list.
From S2P Require Import Prelude Bytes Requestors Cobo Message CrashHandler.
Import Crash.

Module CrashTree.

(** ** The system *)

(** A message on the link between rank [c] and its parent. *)
Inductive packet :=
  | Up (c : Z) (m : ldcs_message_t)
  | Down (c : Z) (m : ldcs_message_t).

Definition same_link (p q : packet) : Prop :=
  match p, q with
  | Up c _, Up d _ | Down c _, Down d _ => c = d
  | _, _ => False
  end.

(** An answer: rank of the server, client, site, value. *)
Abbreviation answer := (Z * nat * bytes * Z)%type.

Record sys := mk_sys {
  servers : Z → cstate;
  net : list packet;          (** in flight, in the order of sending *)
  answers : list answer;      (** delivered to clients *)
  reports : list answer;      (** accepted from clients: server, client, site, rank *)
}.

Section system.
  Context {T : RankTree}.
  (** The handle under which a parent knows its child. *)
  Variable peer_of : Z → node_peer_t.
  Hypothesis peer_of_inj : ∀ c d, peer_of c = peer_of d → c = d.
  (** The relocation tables of the servers. *)
  Variable lgn : Z → bytes → option bytes.

(** Where the messages of a handler go. *)
Definition route_out (r : Z) (o : output) : list packet :=
  match o with
  | ToParent m => if r =? 0 then [] else [Up r m]
  | ToPeer p m => (λ c, Down c m) <$> List.filter (λ c, peer_of c =? p) (rt_children r)
  | ToClient _ _ _ => []
  end.

Definition answer_out (r : Z) (o : output) : list answer :=
  match o with
  | ToClient nc s m => [(r, nc, s, rd_i32 (default [] (msg_data m)) 0)]
  | _ => []
  end.

Definition route (r : Z) (os : list output) : list packet := concat (route_out r <$> os).
Definition answer_all (r : Z) (os : list output) : list answer := concat (answer_out r <$> os).

Definition clear_sent (st : cstate) : cstate :=
  mk_cstate (opt_crash_handler st) (opt_crash_log st) (md_rank st) (hostname st)
    (client_table st) (crash_sites st) [].

(** Rank [r] has run a handler, ending in [st]; [n0] is the network without the
    message it handled. *)
Definition deliver (S : sys) (r : Z) (st : cstate) (n0 : list packet) (reps : list answer) : sys :=
  mk_sys (<[r := clear_sent st]> (servers S)) (n0 ++ route r (sent st))
    (answers S ++ answer_all r (sent st)) (reports S ++ reps).

(** Keys and core paths are far shorter than 2^31 bytes. *)
Definition sizes_ok (a : option (bytes * Z * option bytes)) : Prop :=
  match a with Some (key, _, cp) => site_ok key ∧ corepath_ok cp | None => True end.

Definition accepted_report (r : Z) (nc : nat) (a : option (bytes * Z * option bytes)) : list answer :=
  match a with Some (key, rank, _) => [(r, nc, key, rank)] | None => [] end.

(** The dispatch of [handle_server_message] for messages from a child. *)
Definition handle_up (st : cstate) (c : Z) (m : ldcs_message_t) : cstate :=
  match msg_type m with
  | LDCS_MSG_CRASH_REPORT => fst (handle_crash_report_recv st (peer_of c) false m)
  | LDCS_MSG_CRASH_LOG => fst (handle_crash_log_recv st false m)
  | _ => st
  end.

Definition set_inactive (c : client) : client :=
  mk_client false (connid c) (remote_pid c) (crash_exe c) (crash_corepath c).

Inductive step : sys → sys → Prop :=
  (** a client sends its executable or core path *)
  | step_string S r nc m : 0 <= r < rt_size →
      step S (deliver S r (fst (handle_client_crash_string (servers S r) nc m)) (net S) [])
  (** a client reports a crash *)
  | step_report S r nc now m : 0 <= r < rt_size →
      sizes_ok (report_accepted (lgn r) (servers S r) nc m) →
      step S (deliver S r (fst (handle_client_crash_report (lgn r) (servers S r) nc now m)) (net S)
                (accepted_report r nc (report_accepted (lgn r) (servers S r) nc m)))
  (** a client goes away *)
  | step_disconnect S r nc : 0 <= r < rt_size →
      step S (deliver S r (update_client (servers S r) nc set_inactive) (net S) [])
  (** the oldest message on a link is delivered *)
  | step_up S c m n1 n2 : 0 < c < rt_size →
      net S = n1 ++ Up c m :: n2 → Forall (λ p, ¬ same_link (Up c m) p) n1 →
      step S (deliver S (rt_parent c) (handle_up (servers S (rt_parent c)) c m) (n1 ++ n2) [])
  | step_down S c m n1 n2 : 0 < c < rt_size →
      net S = n1 ++ Down c m :: n2 → Forall (λ p, ¬ same_link (Down c m) p) n1 →
      step S (deliver S c (fst (handle_crash_response_recv (servers S c) true m)) (n1 ++ n2) []).

(** Servers as they start: no sites, nothing sent, each knowing its rank. *)
Definition initial (S : sys) : Prop :=
  (∀ r, 0 <= r < rt_size → md_rank (servers S r) = r ∧ crash_sites (servers S r) = [] ∧
                           sent (servers S r) = []) ∧
  net S = [] ∧ answers S = [] ∧ reports S = [].

Definition reachable (S : sys) : Prop := ∃ S0, initial S0 ∧ rtc step S0 S.

(** ** The abstract steps

    What a step does to the view of each server, the network and the answers. *)

(** Does the packet report site [s] from rank [c]; does it answer it? *)
Definition is_report (c : Z) (s : bytes) (p : packet) : bool :=
  match p with
  | Up c' m =>
      (c' =? c) && bool_decide (msg_type m = LDCS_MSG_CRASH_REPORT) &&
      match crash_parse_report m with Some (_, _, s', _) => bool_decide (s' = s) | None => false end
  | Down _ _ => false
  end.

Definition is_resp (c : Z) (s : bytes) (p : packet) : bool :=
  match p with
  | Up _ _ => false
  | Down c' m =>
      (c' =? c) &&
      match crash_parse_response m with Some (_, s', _) => bool_decide (s' = s) | None => false end
  end.

(** A response in flight that selects a rank for [s]. *)
Definition is_win (s : bytes) (p : packet) : bool :=
  match p with
  | Up _ _ => false
  | Down _ m =>
      match crash_parse_response m with
      | Some (x, s', _) => bool_decide (s' = s) && negb (x =? -1)
      | None => false
      end
  end.

Definition ans_win (s : bytes) (a : answer) : bool :=
  let '(_, _, s', x) := a in bool_decide (s' = s) && negb (x =? -1).

Definition cnt {A} (f : A → bool) (l : list A) : nat := length (List.filter f l).

Definition known (S : sys) (r : Z) (s : bytes) : option (bool * crash_waiter) := view (servers S r) s.

Lemma cnt_app {A} (f : A → bool) l k : cnt f (l ++ k) = (cnt f l + cnt f k)%nat.
Proof. unfold cnt. by rewrite List.filter_app, length_app. Qed.

Lemma cnt_cons {A} (f : A → bool) x l : cnt f (x :: l) = ((if f x then 1 else 0) + cnt f l)%nat.
Proof. unfold cnt. simpl. by destruct (f x). Qed.

Lemma cnt_zero {A} (f : A → bool) l : Forall (λ x, f x = false) l → cnt f l = O.
Proof. induction 1 as [|x l Hx _ IH]; [done|]. by rewrite cnt_cons, Hx, IH. Qed.

Lemma cnt_pos {A} (f : A → bool) l x : x ∈ l → f x = true → (0 < cnt f l)%nat.
Proof.
  induction 1 as [x l|x y l Hx IH]; intros Hf; rewrite cnt_cons; [rewrite Hf; lia|].
  specialize (IH Hf). lia.
Qed.

(** A message in flight is what the handlers build. *)
Definition pkt_ok (p : packet) : Prop :=
  match p with
  | Up _ m =>
      msg_type m = LDCS_MSG_CRASH_LOG ∨
      ∃ x d s cp, m = report_msg x d s cp ∧ i32 x ∧ i32 d ∧ site_ok s ∧ corepath_ok cp
  | Down _ m => ∃ x s, m = response_msg (crash_pack x s) ∧ i32 x ∧ site_ok s
  end.

(** The network with the packet [p0], if any, taken out. *)
Definition removed (n : list packet) (p0 : option packet) (n0 : list packet) : Prop :=
  match p0 with
  | Some p => ∃ n1 n2, n = n1 ++ p :: n2 ∧ n0 = n1 ++ n2
  | None => n0 = n
  end.

Definition b2n (b : bool) : nat := if b then 1%nat else 0%nat.

Definition opt_b (f : packet → bool) (p0 : option packet) : bool :=
  match p0 with Some p => f p | None => false end.

Lemma cnt_removed f n p0 n0 : removed n p0 n0 → cnt f n = (b2n (opt_b f p0) + cnt f n0)%nat.
Proof.
  destruct p0 as [p|]; simpl; [|by intros ->].
  intros (n1 & n2 & -> & ->). rewrite !cnt_app, cnt_cons. unfold b2n. destruct (f p); lia.
Qed.

Lemma Forall_removed (P : packet → Prop) n p0 n0 :
  removed n p0 n0 → Forall P n → Forall P n0 ∧ match p0 with Some p => P p | None => True end.
Proof.
  destruct p0 as [p|]; simpl; [|by intros ->].
  intros (n1 & n2 & -> & ->) H. apply Forall_app in H as [H1 H2]. apply Forall_cons in H2 as [Hp H2].
  split; [by apply Forall_app|done].
Qed.

(** What the handling of a message (or of a client's request, [None]) by rank [r]
    amounts to. *)
Inductive effect (r : Z) (st0 st : cstate) : option packet → list answer → Prop :=
  | eff_quiet p0 :
      match p0 with None => True | Some (Up _ m) => msg_type m = LDCS_MSG_CRASH_LOG | _ => False end →
      view_grows st0 st → Forall is_log (sent st) → effect r st0 st p0 []
  | eff_report p0 w x d s cp logs reps :
      (p0 = None ∧ ∃ nc, w = CRASH_WAITER_LOCAL nc x ∧ reps = [(r, nc, s, x)]) ∨
      (∃ c, p0 = Some (Up c (report_msg x d s cp)) ∧ w = CRASH_WAITER_CHILD (peer_of c) ∧ reps = [] ∧
            0 < c < rt_size ∧ rt_parent c = r) →
      i32 x → i32 d → site_ok s → corepath_ok cp → Forall is_log logs →
      match view st0 s with
      | Some _ =>
          sent st = resp_out (client_table st0) w (-1) s ++ logs ∧ ∀ s', view st s' = view st0 s'
      | None =>
          if r =? 0 then
            sent st = resp_out (client_table st0) w x s ++ logs ∧
            ∀ s', view st s' = if decide (s = s') then Some (true, w) else view st0 s'
          else
            sent st = ToParent (report_msg x d s cp) :: logs ∧
            ∀ s', view st s' = if decide (s = s') then Some (false, w) else view st0 s'
      end → effect r st0 st p0 reps
  | eff_resp w x s :
      i32 x → site_ok s → 0 < r < rt_size → view st0 s = Some (false, w) →
      sent st = resp_out (client_table st0) w x s →
      (∀ s', view st s' = if decide (s = s') then Some (true, w) else view st0 s') →
      effect r st0 st (Some (Down r (response_msg (crash_pack x s)))) []
  | eff_drop x s :
      i32 x → site_ok s → 0 < r < rt_size → (∀ w, view st0 s ≠ Some (false, w)) →
      (∀ s', view st s' = view st0 s') → sent st = [] →
      effect r st0 st (Some (Down r (response_msg (crash_pack x s)))) [].

(** *** Counting what a handler sends *)

Lemma route_app r os os' : route r (os ++ os') = route r os ++ route r os'.
Proof. unfold route. by rewrite fmap_app, concat_app. Qed.

Lemma route_report r m logs : r ≠ 0 → route r (ToParent m :: logs) = Up r m :: route r logs.
Proof.
  intros H. unfold route. rewrite fmap_cons. cbn [concat route_out].
  by rewrite (proj2 (Z.eqb_neq r 0)).
Qed.

Lemma answer_app r os os' : answer_all r (os ++ os') = answer_all r os ++ answer_all r os'.
Proof. unfold answer_all. by rewrite fmap_app, concat_app. Qed.

Lemma route_logs_cnt f r logs :
  (∀ m, msg_type m = LDCS_MSG_CRASH_LOG → f (Up r m) = false) →
  Forall is_log logs → cnt f (route r logs) = O.
Proof.
  intros Hf H. apply cnt_zero. unfold route.
  induction H as [|o logs Ho _ IH]; [constructor|]. rewrite fmap_cons. cbn [concat].
  apply Forall_app. split; [|done]. destruct o as [| |m]; try done. simpl.
  destruct (r =? 0); [constructor|]. constructor; [by apply Hf|constructor].
Qed.

Lemma answer_logs r logs : Forall is_log logs → answer_all r logs = [].
Proof.
  unfold answer_all. induction 1 as [|o logs Ho _ IH]; [done|]. rewrite fmap_cons. cbn [concat].
  rewrite IH. by destruct o.
Qed.

Lemma filter_children r c :
  0 <= r < rt_size → 0 < c < rt_size → rt_parent c = r →
  List.filter (λ d, peer_of d =? peer_of c) (rt_children r) = [c].
Proof.
  intros Hr Hc Hp. assert (c ∈ rt_children r) as Hin by (by apply rt_children_spec).
  pose proof (rt_children_NoDup r Hr) as Hnd.
  induction Hnd as [|x l Hx Hnd IH]; [by apply elem_of_nil in Hin|]. simpl.
  destruct (peer_of x =? peer_of c) eqn:E; bool_to_prop.
  - apply peer_of_inj in E as ->. f_equal.
    clear -Hx peer_of_inj. induction l as [|y l IH]; [done|]. simpl.
    destruct (peer_of y =? peer_of c) eqn:E; bool_to_prop.
    + apply peer_of_inj in E as ->. set_solver.
    + apply IH. set_solver.
  - apply elem_of_cons in Hin as [->|Hin]; [done|]. auto.
Qed.

(** The ranks a response to peer [p] of rank [r] goes to. *)
Definition peer_ranks (r : Z) (p : node_peer_t) : list Z :=
  List.filter (λ c, peer_of c =? p) (rt_children r).

Lemma route_resp_child r tbl p x s :
  route r (resp_out tbl (CRASH_WAITER_CHILD p) x s)
  = (λ c, Down c (response_msg (crash_pack x s))) <$> peer_ranks r p.
Proof. unfold route. simpl. by rewrite app_nil_r. Qed.

Lemma route_resp_local r tbl nc g x s : route r (resp_out tbl (CRASH_WAITER_LOCAL nc g) x s) = [].
Proof.
  unfold route, resp_out. destruct (tbl !! nc); [|done]. by destruct (active _ && _).
Qed.

Lemma peer_ranks_cases r p :
  0 <= r < rt_size →
  peer_ranks r p = [] ∨ ∃ c, peer_ranks r p = [c] ∧ 0 < c < rt_size ∧ rt_parent c = r ∧ p = peer_of c.
Proof.
  intros Hr. destruct (peer_ranks r p) as [|c l] eqn:E; [by left|]. right. exists c.
  assert (c ∈ peer_ranks r p) as Hc by (rewrite E; left).
  unfold peer_ranks in Hc. rewrite list_elem_of_In, filter_In, <- list_elem_of_In in Hc.
  destruct Hc as [Hc Hp]. bool_to_prop. apply rt_children_spec in Hc as [Hc1 Hc2]; [|done].
  subst p. split_and!; try done; try lia. rewrite <- E. by apply filter_children.
Qed.

Lemma is_report_msg c0 s0 c x d s cp :
  i32 x → i32 d → site_ok s → corepath_ok cp →
  is_report c0 s0 (Up c (report_msg x d s cp)) = (c =? c0) && bool_decide (s = s0).
Proof.
  intros. unfold is_report. rewrite parse_report_msg by done. rewrite bool_decide_true by done.
  by rewrite andb_true_r.
Qed.

Lemma is_resp_msg c0 s0 c x s :
  i32 x → site_ok s →
  is_resp c0 s0 (Down c (response_msg (crash_pack x s))) = (c =? c0) && bool_decide (s = s0).
Proof. intros. unfold is_resp. by rewrite crash_parse_response_pack by done. Qed.

Lemma is_win_msg s0 c x s :
  i32 x → site_ok s →
  is_win s0 (Down c (response_msg (crash_pack x s))) = bool_decide (s = s0) && negb (x =? -1).
Proof. intros. unfold is_win. by rewrite crash_parse_response_pack by done. Qed.

(** Does waiter [w] of rank [r] stand for child [c]? *)
Definition waits (w : crash_waiter) (r c : Z) : bool :=
  match w with CRASH_WAITER_CHILD p => (rt_parent c =? r) && (p =? peer_of c) | _ => false end.

Lemma waits_ne w r c : r ≠ rt_parent c → waits w r c = false.
Proof.
  intros H. destruct w; [done|]. simpl. by rewrite (proj2 (Z.eqb_neq _ _)) by congruence.
Qed.

Lemma resp_cnt r tbl w x s c0 s0 :
  0 <= r < rt_size → 0 < c0 < rt_size → i32 x → site_ok s →
  cnt (is_resp c0 s0) (route r (resp_out tbl w x s)) = b2n (waits w r c0 && bool_decide (s = s0)).
Proof.
  intros Hr Hc Hx Hs. destruct w as [nc g|p]; [by rewrite route_resp_local|].
  rewrite route_resp_child. simpl waits.
  destruct (peer_ranks_cases r p Hr) as [E|(c & E & Hc1 & Hc2 & ->)]; rewrite E; simpl.
  - destruct (_ && bool_decide _) eqn:Eb; [|done].
    apply andb_true_iff in Eb as [Eb _]. bool_to_prop. subst p.
    unfold peer_ranks in E. by rewrite filter_children in E by lia.
  - rewrite cnt_cons, is_resp_msg by done. unfold cnt. simpl.
    destruct (c =? c0) eqn:E1; bool_to_prop.
    + subst c. rewrite Hc2, !Z.eqb_refl. by destruct (bool_decide _).
    + assert ((peer_of c =? peer_of c0) = false) as ->.
      { apply Z.eqb_neq. by intros ?%peer_of_inj. }
      by rewrite andb_false_r.
Qed.

Lemma resp_no_report r tbl w x s c0 s0 :
  cnt (is_report c0 s0) (route r (resp_out tbl w x s)) = O.
Proof.
  destruct w as [nc g|p]; [by rewrite route_resp_local|]. rewrite route_resp_child.
  apply cnt_zero, Forall_fmap, Forall_forall. done.
Qed.

(** The selections for [s0] that a handler's messages carry. *)
Definition wins (r : Z) (os : list output) (s0 : bytes) : nat :=
  (cnt (is_win s0) (route r os) + cnt (ans_win s0) (answer_all r os))%nat.

Lemma wins_app r os os' s0 : wins r (os ++ os') s0 = (wins r os s0 + wins r os' s0)%nat.
Proof. unfold wins. rewrite route_app, answer_app, !cnt_app. lia. Qed.

Lemma wins_logs r logs s0 : Forall is_log logs → wins r logs s0 = O.
Proof. intros H. unfold wins. rewrite answer_logs by done. by rewrite route_logs_cnt. Qed.

Lemma wins_parent r m s0 : wins r [ToParent m] s0 = O.
Proof. unfold wins, route. simpl. by destruct (r =? 0). Qed.

Lemma wins_parent_logs r m logs s0 : Forall is_log logs → wins r (ToParent m :: logs) s0 = O.
Proof.
  intros H. change (ToParent m :: logs) with ([ToParent m] ++ logs).
  by rewrite wins_app, wins_parent, wins_logs.
Qed.

(** A response is one packet or one answer at most. *)
Lemma resp_wins_le r tbl w x s s0 :
  0 <= r < rt_size → i32 x → site_ok s →
  (wins r (resp_out tbl w x s) s0 ≤ b2n (bool_decide (s = s0) && negb (x =? -1)%Z))%nat.
Proof.
  intros Hr Hx Hs. unfold wins. destruct w as [nc g|p].
  - rewrite route_resp_local. unfold resp_out, answer_all.
    destruct (tbl !! nc) as [cl|]; [|unfold cnt; simpl; lia].
    destruct (active cl && _); [|unfold cnt; simpl; lia].
    change (concat _) with [(r, nc, s, rd_i32 (le32 x) 0)].
    assert (rd_i32 (le32 x) 0 = x) as ->.
    { rewrite <- (app_nil_r (le32 x)). by apply (rd_i32_at []). }
    rewrite cnt_cons. unfold ans_win at 1, cnt. simpl.
    destruct (bool_decide (s = s0) && _); simpl; lia.
  - assert (answer_all r (resp_out tbl (CRASH_WAITER_CHILD p) x s) = []) as -> by done.
    rewrite route_resp_child.
    destruct (peer_ranks_cases r p Hr) as [->|(c & -> & _)]; simpl; [unfold cnt; simpl; lia|].
    rewrite cnt_cons, is_win_msg by done. unfold cnt. simpl.
    destruct (bool_decide (s = s0) && _); simpl; lia.
Qed.

(** *** The invariant *)

Definition unres (v : option (bool * crash_waiter)) : nat :=
  match v with Some (false, _) => 1 | _ => 0 end.

(** The parent's entry waits for rank [c]. *)
Definition parent_waits (c : Z) (v : option (bool * crash_waiter)) : nat :=
  match v with Some (false, w) => b2n (waits w (rt_parent c) c) | _ => 0 end.

(** Each unresolved site of a rank has its report in flight, or held by the
    parent, or its answer in flight: exactly one of them. *)
Definition inv_pending (S : sys) : Prop := ∀ c s, 0 < c < rt_size →
  (cnt (is_report c s) (net S) + cnt (is_resp c s) (net S)
   + parent_waits c (known S (rt_parent c) s))%nat = unres (known S c s).

Definition inv_root (S : sys) : Prop := ∀ s, unres (known S 0 s) = O.

(** The rights to select a rank for [s]: the root's while it does not know the
    site, those in flight and those exercised. *)
Definition absent (r : Z) (v : option (bool * crash_waiter)) : nat :=
  if (r =? 0)%Z then match v with None => 1 | Some _ => 0 end else 0.

Definition tokens (S : sys) (s : bytes) : nat :=
  (absent 0 (known S 0 s) + cnt (is_win s) (net S) + cnt (ans_win s) (answers S))%nat.

(** The right to select is handed on, never copied. *)
Definition inv_token (S : sys) : Prop := ∀ s, (tokens S s ≤ 1)%nat.

Definition inv_local (S : sys) : Prop :=
  Forall pkt_ok (net S) ∧
  ∀ r, 0 <= r < rt_size → md_rank (servers S r) = r ∧ sent (servers S r) = [].

Lemma known_deliver S r st n0 reps r' s :
  known (deliver S r st n0 reps) r' s = if decide (r = r') then view st s else known S r' s.
Proof.
  unfold known, deliver. simpl. destruct (decide (r = r')) as [->|].
  - by rewrite fn_lookup_insert.
  - by rewrite fn_lookup_insert_ne.
Qed.

Lemma view_grows_unres st0 st s :
  view_grows st0 st → unres (view st s) = unres (view st0 s) ∧
  ∀ c, parent_waits c (view st s) = parent_waits c (view st0 s).
Proof. intros H. by destruct (H s) as [->|[-> ->]]. Qed.

Lemma log_not_report r m c s : msg_type m = LDCS_MSG_CRASH_LOG → is_report c s (Up r m) = false.
Proof. intros E. simpl. rewrite E. by rewrite andb_false_r. Qed.

(** Case analysis on whether the handling rank [r] is rank [c] or its parent, and
    on whether the handled site [s] is [s0]. *)
Ltac split_ranks :=
  match goal with
  | Ev : view (servers ?S ?r) ?s = _, Hinv : context [rt_parent ?c] |- context [decide (?s = ?s0)] =>
      destruct (decide (r = rt_parent c)) as [Ep|Ep], (decide (r = c)) as [Ec|Ec],
        (decide (s = s0)) as [Es|Es]; try lia;
      rewrite ?(bool_decide_false (s = s0)) in * by done;
      rewrite ?(bool_decide_true (s = s0)) in * by done;
      try (rewrite <- Ep in * ); try (subst c); try (subst s0);
      rewrite ?waits_ne in * by done; rewrite ?Ev in *
  end.

Ltac ranks_lia :=
  split_ranks; rewrite ?Z.eqb_refl in *;
  rewrite ?andb_true_r, ?andb_false_r, ?andb_false_l in *; simpl in *;
  repeat match goal with
  | E : ?r = rt_parent ?c |- context [rt_parent ?c] => rewrite <- E
  | E : ?r = rt_parent ?c, H : (_ + _)%nat = _ |- _ =>
      match type of H with context [rt_parent c] => rewrite <- E in H end
  end;
  rewrite ?waits_ne in * by done;
  repeat match goal with
  | H : ?r ≠ ?c |- context [?r =? ?c] => rewrite (proj2 (Z.eqb_neq r c) H)
  | H : ?r ≠ ?c, H2 : context [?r =? ?c] |- _ => rewrite (proj2 (Z.eqb_neq r c) H) in H2
  end; simpl in *; lia.

Lemma inv_pending_step S r st p0 n0 reps :
  0 <= r < rt_size → effect r (servers S r) st p0 reps → removed (net S) p0 n0 →
  inv_pending S → inv_pending (deliver S r st n0 reps).
Proof.
  intros Hr Heff Hrem Hinv c s0 Hc. specialize (Hinv c s0 Hc).
  pose proof (rt_parent_lt c Hc) as Hpc.
  rewrite !(cnt_removed _ _ _ _ Hrem) in Hinv. rewrite !known_deliver.
  unfold deliver. cbn [net]. rewrite !cnt_app.
  assert (∀ logs, Forall is_log logs → cnt (is_report c s0) (route r logs) = O ∧
            cnt (is_resp c s0) (route r logs) = O) as Hlogs.
  { intros logs Hl. split; apply route_logs_cnt; try done. intros m. apply log_not_report. }
  destruct Heff as [p0 Hp0 Hgrow Hl|p0 w x d s cp logs reps Hsrc Hx Hd Hs Hcp Hl Hst
                   |w x s Hx Hs Hr0 Hv Hsent Hview|x s Hx Hs Hr0 Hv Hview Hsent].
  - destruct (Hlogs _ Hl) as [-> ->].
    assert (opt_b (is_report c s0) p0 = false ∧ opt_b (is_resp c s0) p0 = false) as [E1 E2].
    { destruct p0 as [[c' m|c' m]|]; try done. split; [by apply log_not_report|done]. }
    rewrite E1, E2 in Hinv. destruct (view_grows_unres _ _ s0 Hgrow) as [Hu Hw].
    assert (parent_waits c (if decide (r = rt_parent c) then view st s0 else known S (rt_parent c) s0)
            = parent_waits c (known S (rt_parent c) s0)) as ->.
    { destruct (decide _) as [->|]; [apply Hw|done]. }
    assert (unres (if decide (r = c) then view st s0 else known S c s0) = unres (known S c s0)) as ->.
    { destruct (decide _) as [->|]; [apply Hu|done]. }
    simpl in Hinv. lia.
  - (* a report *)
    assert (opt_b (is_resp c s0) p0 = false ∧
            b2n (opt_b (is_report c s0) p0) = b2n (waits w r c && bool_decide (s = s0))) as [E1 E2].
    { destruct Hsrc as [(-> & nc & -> & _)|(c' & -> & -> & _ & Hc' & Hp')]; [done|]. split; [done|].
      cbn [opt_b]. rewrite is_report_msg by done. simpl. destruct (c' =? c) eqn:Ec; bool_to_prop.
      - subst c'. by rewrite Hp', !Z.eqb_refl.
      - assert ((peer_of c' =? peer_of c) = false) as ->; [|by rewrite andb_false_r].
        apply Z.eqb_neq. by intros ?%peer_of_inj. }
    rewrite E1, E2 in Hinv. clear E1 E2. destruct (Hlogs _ Hl) as [Hl1 Hl2].
    destruct (view (servers S r) s) as [v|] eqn:Ev.
    + (* already known: answered *)
      destruct Hst as [-> Hview]. rewrite route_app, !cnt_app, Hl1, Hl2, resp_no_report, resp_cnt
        by (done || lia || (unfold i32; lia)).
      rewrite !Hview. unfold known in *. repeat destruct (decide _); subst; simpl in *; lia.
    + assert (r ≠ c ∨ r ≠ rt_parent c) as Hrc by lia.
      destruct (r =? 0) eqn:E0; bool_to_prop; destruct Hst as [-> Hview]; rewrite !Hview.
      * (* new at the root: selected *)
        rewrite route_app, !cnt_app, Hl1, Hl2, resp_no_report, resp_cnt by (done || lia).
        unfold known in *. ranks_lia.
      * (* new elsewhere: passed on *)
        rewrite route_report, !cnt_cons, Hl1, Hl2, is_report_msg by done. unfold known in *.
        ranks_lia.
  - (* a response that resolves *)
    cbn [opt_b] in Hinv. rewrite is_resp_msg in Hinv by done.
    rewrite Hsent, !Hview, resp_no_report, resp_cnt by (done || lia). unfold known in *.
    assert (r ≠ c ∨ r ≠ rt_parent c) as Hrc by lia.
    rename Hv into Ev. ranks_lia.
  - (* a response nobody waits for: impossible *)
    cbn [opt_b] in Hinv. rewrite is_resp_msg in Hinv by done. rewrite Hsent, !Hview.
    change (route r []) with (@nil packet). unfold known in *.
    assert (unres (view (servers S r) s) = O) as Hu.
    { destruct (view (servers S r) s) as [[[] w]|] eqn:E; [done| |done]. by destruct (Hv w). }
    destruct (decide (r = c)) as [<-|Hrc], (decide (s = s0)) as [<-|Hss].
    + rewrite Z.eqb_refl, bool_decide_true in Hinv by done. simpl in Hinv. lia.
    + rewrite (bool_decide_false (s = s0)), andb_false_r in Hinv by done. simpl in Hinv.
      rewrite decide_False by lia. unfold cnt in *. simpl. lia.
    + rewrite (proj2 (Z.eqb_neq r c)) in Hinv by done. simpl in Hinv. unfold cnt in *. simpl.
      destruct (decide _) as [E|]; [rewrite <- E in Hinv|]; lia.
    + rewrite (proj2 (Z.eqb_neq r c)) in Hinv by done. simpl in Hinv. unfold cnt in *. simpl.
      destruct (decide _) as [E|]; [rewrite <- E in Hinv|]; lia.
Qed.

Lemma inv_root_step S r st p0 n0 reps :
  effect r (servers S r) st p0 reps → inv_root S → inv_root (deliver S r st n0 reps).
Proof.
  intros Heff Hroot s0. specialize (Hroot s0). rewrite known_deliver. unfold known in *.
  destruct (decide (r = 0)) as [->|]; [|done].
  destruct Heff as [p0 _ Hgrow _|p0 w x d s cp logs reps _ _ _ _ _ _ Hst|w x s _ _ Hr0|x s _ _ Hr0].
  - by rewrite (proj1 (view_grows_unres _ _ s0 Hgrow)).
  - simpl in Hst. destruct (view (servers S 0) s); destruct Hst as [_ Hview]; rewrite Hview; [done|].
    by destruct (decide _).
  - lia.
  - lia.
Qed.

Lemma resp_ok r tbl w x s : i32 x → site_ok s → Forall pkt_ok (route r (resp_out tbl w x s)).
Proof.
  intros Hx Hs. destruct w as [nc g|p]; [rewrite route_resp_local; constructor|].
  rewrite route_resp_child. apply Forall_fmap, Forall_forall. intros c _. simpl. eauto.
Qed.

Lemma logs_ok r logs : Forall is_log logs → Forall pkt_ok (route r logs).
Proof.
  unfold route. induction 1 as [|o logs Ho _ IH]; [constructor|]. rewrite fmap_cons. cbn [concat].
  apply Forall_app. split; [|done]. destruct o as [| |m]; try done. simpl.
  destruct (r =? 0); repeat constructor. done.
Qed.

Lemma effect_route_ok r st0 st p0 reps :
  effect r st0 st p0 reps → Forall pkt_ok (route r (sent st)).
Proof.
  intros [p _ _ Hl|p w x d s cp logs reps' _ Hx Hd Hs Hcp Hl Hst|w x s Hx Hs _ _ -> _|x s _ _ _ _ _ ->].
  - by apply logs_ok.
  - destruct (view st0 s); [|destruct (r =? 0) eqn:E]; destruct Hst as [-> _].
    + rewrite route_app. apply Forall_app. split; [apply resp_ok; [unfold i32; lia|done]|by apply logs_ok].
    + rewrite route_app. apply Forall_app. split; [by apply resp_ok|by apply logs_ok].
    + bool_to_prop. rewrite route_report by done. constructor; [|by apply logs_ok].
      right. by exists x, d, s, cp.
  - by apply resp_ok.
  - constructor.
Qed.

Lemma tokens_deliver S r st p0 n0 reps s :
  removed (net S) p0 n0 →
  (tokens (deliver S r st n0 reps) s + absent r (view (servers S r) s) + b2n (opt_b (is_win s) p0)
   = tokens S s + absent r (view st s) + wins r (sent st) s)%nat.
Proof.
  intros Hrem. unfold tokens, wins. rewrite known_deliver, (cnt_removed _ _ _ _ Hrem).
  unfold deliver. cbn [net answers]. rewrite !cnt_app. unfold known, absent.
  destruct (decide (r = 0)) as [->|]; simpl; [lia|]. rewrite (proj2 (Z.eqb_neq r 0)) by done. lia.
Qed.

Lemma effect_tokens r st0 st p0 reps s0 :
  0 <= r < rt_size → effect r st0 st p0 reps →
  (absent r (view st s0) + wins r (sent st) s0 ≤ absent r (view st0 s0) + b2n (opt_b (is_win s0) p0))%nat.
Proof.
  intros Hr Heff.
  destruct Heff as [p0 Hp0 Hgrow Hl|p0 w x d s cp logs reps Hsrc Hx Hd Hs Hcp Hl Hst
                   |w x s Hx Hs Hr0 Hv Hsent Hview|x s Hx Hs Hr0 Hv Hview Hsent].
  - rewrite wins_logs by done. destruct (Hgrow s0) as [->|[-> ->]]; unfold absent; destruct (r =? 0); lia.
  - destruct (view st0 s) as [v|] eqn:Ev; [|destruct (r =? 0) eqn:Er]; destruct Hst as [-> Hview]; rewrite Hview.
    + rewrite wins_app, (wins_logs r logs) by done.
      pose proof (resp_wins_le r (client_table st0) w (-1) s s0 Hr ltac:(unfold i32; lia) Hs) as Hw.
      rewrite andb_false_r in Hw. simpl in Hw. lia.
    + rewrite wins_app, (wins_logs r logs) by done. unfold absent. rewrite Er.
      pose proof (resp_wins_le r (client_table st0) w x s s0 Hr Hx Hs) as Hw.
      destruct (decide (s = s0)) as [<-|]; [rewrite Ev; destruct (bool_decide _ && _); simpl in *; lia|].
      rewrite bool_decide_false in Hw by done. simpl in Hw. lia.
    + rewrite wins_parent_logs by done. unfold absent. rewrite Er. lia.
  - cbn [opt_b]. rewrite is_win_msg, Hsent by done. unfold absent. rewrite (proj2 (Z.eqb_neq r 0)) by lia.
    by apply resp_wins_le.
  - rewrite Hsent, Hview. change (wins r [] s0) with O. lia.
Qed.

Lemma inv_token_step S r st p0 n0 reps :
  0 <= r < rt_size → effect r (servers S r) st p0 reps → removed (net S) p0 n0 →
  inv_token S → inv_token (deliver S r st n0 reps).
Proof.
  intros Hr Heff Hrem Hinv s. specialize (Hinv s).
  pose proof (tokens_deliver S r st p0 n0 reps s Hrem).
  pose proof (effect_tokens _ _ _ _ _ s Hr Heff). lia.
Qed.

(** *** Every step is an effect *)

(** A client that can be answered. *)
Definition connected (st : cstate) (nc : nat) : Prop :=
  ∃ k, conns st !! nc = Some (true, k) ∧ 0 <= k.

Lemma connected_conns st st' nc : conns st' = conns st → connected st' nc → connected st nc.
Proof. unfold connected. by intros ->. Qed.

Lemma connected_inactive st nc0 nc :
  connected (update_client st nc0 set_inactive) nc → connected st nc.
Proof.
  unfold connected, conns, update_client, set_clients. simpl.
  change (list_fmap _ _ ?g ?l) with (g <$> l). intros (k & Hk & Hk0). exists k. split; [|done].
  rewrite list_lookup_fmap in *. destruct (decide (nc0 = nc)) as [->|].
  - rewrite list_lookup_alter_eq in Hk. destruct (_ !! nc); by simpl in Hk.
  - by rewrite list_lookup_alter_ne in Hk by done.
Qed.

Lemma view_grows_refl_eq st0 st : (∀ s, view st s = view st0 s) → view_grows st0 st.
Proof. intros H s. by left. Qed.

Lemma same_conf_conns st st' : same_conf st st' → md_rank st' = md_rank st ∧ conns st' = conns st.
Proof. intros (_ & _ & H1 & H2). unfold conns. by rewrite H1, H2. Qed.

(** The case analysis of [crash_report_common] in the form of [eff_report]. *)
Lemma common_effect r st w x d s cp st1 i :
  md_rank st = r → sent st = [] → crash_report_common st w x d s cp = (st1, i) →
  same_conf st st1 ∧
  match view st s with
  | Some _ =>
      sent st1 = resp_out (client_table st) w (-1) s ∧ ∀ s', view st1 s' = view st s'
  | None =>
      if r =? 0 then
        sent st1 = resp_out (client_table st) w x s ∧
        ∀ s', view st1 s' = if decide (s = s') then Some (true, w) else view st s'
      else
        sent st1 = [ToParent (report_msg x d s cp)] ∧
        ∀ s', view st1 s' = if decide (s = s') then Some (false, w) else view st s'
  end.
Proof.
  intros Hr Hs H. apply crash_report_common_effect in H as (_ & Hc & H). split; [done|].
  unfold is_responsible in H. rewrite Hr, Hs in H. done.
Qed.

(** Without the crash log a step sends no log messages, and sites become known
    only through reports. *)
Definition log_free (st0 st : cstate) (p0 : option packet) (reps : list answer) : Prop :=
  opt_crash_log st0 = false →
  match p0 with Some (Up _ m) => msg_type m ≠ LDCS_MSG_CRASH_LOG | _ => True end →
  opt_crash_log st = false ∧ Forall (λ o, ¬ is_log o) (sent st) ∧
  (p0 = None → reps = [] → ∀ s, view st s = view st0 s).

Lemma resp_not_log tbl w x s : Forall (λ o, ¬ is_log o) (resp_out tbl w x s).
Proof.
  destruct w as [nc g|p]; simpl; [|repeat constructor; tauto].
  destruct (tbl !! nc); [|done]. destruct (_ && _); repeat constructor. tauto.
Qed.

Lemma common_not_log st w x d s cp st1 i :
  sent st = [] → crash_report_common st w x d s cp = (st1, i) → Forall (λ o, ¬ is_log o) (sent st1).
Proof.
  intros Hs H. destruct (common_effect (md_rank st) st w x d s cp st1 i eq_refl Hs H) as [_ Hc].
  destruct (view st s); [|destruct (md_rank st =? 0)]; destruct Hc as [-> _];
    [apply resp_not_log..|]. repeat constructor. done.
Qed.

Lemma step_effect S S' :
  step S S' → inv_local S →
  ∃ r st p0 n0 reps, 0 <= r < rt_size ∧ S' = deliver S r st n0 reps ∧ removed (net S) p0 n0 ∧
    effect r (servers S r) st p0 reps ∧ md_rank st = md_rank (servers S r) ∧
    (∀ nc, connected st nc → connected (servers S r) nc) ∧ log_free (servers S r) st p0 reps.
Proof.
  intros Hstep [Hnet Hloc].
  destruct Hstep as [S r nc m Hr|S r nc now m Hr Hsz|S r nc Hr|S c m n1 n2 Hc Hn _|S c m n1 n2 Hc Hn _].
  - destruct (Hloc r Hr) as [Hmd Hsent].
    destruct (client_string_effect (servers S r) nc m) as (H1 & H2 & H3 & H4 & H5).
    eexists r, _, None, (net S), []. do 2 (split; [done|]). split; [done|]. split_and!; [|done|..].
    + apply eff_quiet; [done|by apply view_grows_refl_eq|by rewrite H3, Hsent].
    + intros nc'. by apply connected_conns.
    + intros Hoff _. rewrite H5, H3, Hsent. done.
  - destruct (Hloc r Hr) as [Hmd Hsent].
    destruct (client_report_effect (lgn r) (servers S r) nc now m) as (H1 & H2 & H5 & H3).
    set (st := fst (handle_client_crash_report (lgn r) (servers S r) nc now m)) in *.
    exists r, st, None, (net S), (accepted_report r nc (report_accepted (lgn r) (servers S r) nc m)).
    do 3 (split; [done|]). enough (effect r (servers S r) st None
      (accepted_report r nc (report_accepted (lgn r) (servers S r) nc m)) ∧ log_free (servers S r) st None
      (accepted_report r nc (report_accepted (lgn r) (servers S r) nc m))) as [HA HB].
    { split_and!; [done|done|intros nc'; by apply connected_conns|done]. }
    destruct (report_accepted (lgn r) (servers S r) nc m) as [[[key rank] cp]|].
    + destruct H3 as (disp & st1 & i & logs & Hrank & Hdisp & Hcom & Hs & Hl & Hoff & Hv).
      destruct Hsz as [Hkey Hcp]. split.
      2:{ intros Ho _. rewrite H5, Hs, Hoff, app_nil_r by done.
          split_and!; [done|by eapply common_not_log|done]. }
      apply (common_effect r) in Hcom as [_ Hcom]; [|done..].
      apply (eff_report _ _ _ _ (CRASH_WAITER_LOCAL nc rank) rank disp key cp logs); try done.
      * left. split; [done|]. by exists nc.
      * destruct (view (servers S r) key); [|destruct (r =? 0)]; destruct Hcom as [E Hview];
          rewrite Hs, E; (split; [done|intros s'; by rewrite Hv, Hview]).
    + destruct H3 as [H3 H4]. split; [|intros Ho _; by rewrite H5, H3, Hsent].
      apply eff_quiet; [done|by apply view_grows_refl_eq|by rewrite H3, Hsent].
  - destruct (Hloc r Hr) as [Hmd Hsent].
    exists r, (update_client (servers S r) nc set_inactive), None, (net S), [].
    do 3 (split; [done|]). split_and!; [|done|..].
    + apply eff_quiet; [done|by apply view_grows_refl_eq|simpl; by rewrite Hsent].
    + intros nc'. apply connected_inactive.
    + intros Hoff _. simpl. rewrite Hsent. done.
  - pose proof (rt_parent_lt c Hc) as Hp. set (r := rt_parent c) in *.
    destruct (Hloc r ltac:(lia)) as [Hmd Hsent].
    rewrite Hn in Hnet. apply Forall_app in Hnet as [_ Hnet]. apply Forall_cons in Hnet as [Hm _].
    exists r, (handle_up (servers S r) c m), (Some (Up c m)), (n1 ++ n2), [].
    split; [lia|]. split; [done|]. split; [by exists n1, n2|].
    destruct Hm as [Hlog|(x & d & s & cp & -> & Hx & Hd & Hs & Hcp)]; unfold handle_up.
    + rewrite Hlog. destruct (log_recv_effect (servers S r) false m) as (H1 & (logs & H2 & H3) & H4).
      apply same_conf_conns in H1 as [H1 H1'].
      split_and!; [|done|intros nc; by apply connected_conns|by intros _ ?].
      apply eff_quiet; [done|done|]. by rewrite H2, Hsent.
    + simpl msg_type. cbn iota. unfold handle_crash_report_recv. rewrite parse_report_msg by done.
      cbn iota zeta. destruct (crash_report_common _ _ _ _ _ _) as [st1 i] eqn:Ec. cbn [fst].
      pose proof (common_not_log _ _ _ _ _ _ _ _ Hsent Ec) as Hnl.
      apply (common_effect r) in Ec as [Hconf Hcom]; [|done..].
      assert (opt_crash_log st1 = opt_crash_log (servers S r)) as Eo by apply Hconf.
      apply same_conf_conns in Hconf as [H1 H1'].
      split_and!; [|done|intros nc; by apply connected_conns|intros Ho _; by rewrite Eo].
      apply (eff_report _ _ _ _ (CRASH_WAITER_CHILD (peer_of c)) x d s cp []); try done.
      all: rewrite ?app_nil_r; try done. right. by exists c.
  - destruct (Hloc c ltac:(lia)) as [Hmd Hsent].
    rewrite Hn in Hnet. apply Forall_app in Hnet as [_ Hnet]. apply Forall_cons in Hnet as [Hm _].
    destruct Hm as (x & s & -> & Hx & Hs).
    pose proof (response_recv_effect (servers S c) _ x s _ (crash_parse_response_pack x s Hx Hs)) as H.
    eexists c, _, (Some (Down c (response_msg (crash_pack x s)))), (n1 ++ n2), [].
    split; [lia|]. split; [done|]. split; [by exists n1, n2|].
    destruct (view (servers S c) s) as [[[] w]|] eqn:Ev.
    + rewrite H. split_and!; [|done|done|intros Ho _; simpl; by rewrite Hsent].
      apply eff_drop; simpl; try done. by rewrite Ev.
    + destruct H as (_ & Hconf & Hs' & Hv).
      assert (opt_crash_log (fst (handle_crash_response_recv (servers S c) true
        (response_msg (crash_pack x s)))) = opt_crash_log (servers S c)) as Eo by apply Hconf.
      apply same_conf_conns in Hconf as [H1 H1'].
      split_and!; [|done|intros nc; by apply connected_conns|].
      2:{ intros Ho _. rewrite Eo, Hs', Hsent. split_and!; [done|apply resp_not_log|done]. }
      apply (eff_resp _ _ _ w); try done. by rewrite Hs', Hsent.
    + rewrite H. split_and!; [|done|done|intros Ho _; simpl; by rewrite Hsent].
      apply eff_drop; simpl; try done. by rewrite Ev.
Qed.

(** *** Who a selection goes to *)

(** The client whose report rank [r] passed on for site [s] reported rank [x]. *)
Inductive origin (S : sys) (s : bytes) : Z → Z → Prop :=
  | origin_local r b nc x : known S r s = Some (b, CRASH_WAITER_LOCAL nc x) → origin S s r x
  | origin_child r b c x :
      known S r s = Some (b, CRASH_WAITER_CHILD (peer_of c)) → 0 < c < rt_size → rt_parent c = r →
      origin S s c x → origin S s r x.

Definition pkt_origin (S : sys) (p : packet) : Prop :=
  match p with
  | Up c m =>
      ∀ x d s cp, msg_type m = LDCS_MSG_CRASH_REPORT → crash_parse_report m = Some (x, d, s, cp) →
      origin S s c x
  | Down c m => ∀ x s k, crash_parse_response m = Some (x, s, k) → x ≠ -1 → origin S s c x
  end.

(** Waiters are clients that reported. *)
Definition inv_origin (S : sys) : Prop :=
  Forall (pkt_origin S) (net S) ∧
  (∀ r s nc x, 0 <= r < rt_size → known S r s = Some (false, CRASH_WAITER_LOCAL nc x) →
     (r, nc, s, x) ∈ reports S) ∧
  (∀ r nc s x, (r, nc, s, x) ∈ answers S → x ≠ -1 → (r, nc, s, x) ∈ reports S).

(** Reports of connected clients are answered or wait at their server. *)
Definition inv_answered (S : sys) : Prop := ∀ r nc s x,
  (r, nc, s, x) ∈ reports S → connected (servers S r) nc →
  (∃ y, (r, nc, s, y) ∈ answers S) ∨ known S r s = Some (false, CRASH_WAITER_LOCAL nc x).

Lemma effect_stable r st0 st p0 reps s b w :
  effect r st0 st p0 reps → view st0 s = Some (b, w) → ∃ b', view st s = Some (b', w).
Proof.
  intros Heff Hv.
  destruct Heff as [p0 _ Hgrow _|p0 w' x d s' cp logs reps _ _ _ _ _ _ Hst|w' x s' _ _ _ Hv' _ Hview|x s' _ _ _ _ Hview _].
  - destruct (Hgrow s) as [E|[E _]]; [|congruence]. rewrite E. eauto.
  - destruct (view st0 s') eqn:Ev; [|destruct (r =? 0)]; destruct Hst as [_ Hview]; rewrite Hview;
      [eauto|..]; (destruct (decide (s' = s)) as [->|]; [congruence|eauto]).
  - rewrite Hview. destruct (decide (s' = s)) as [->|]; [|eauto]. rewrite Hv in Hv'. simplify_eq. eauto.
  - rewrite Hview. eauto.
Qed.

Lemma origin_step S r st p0 n0 reps s c x :
  effect r (servers S r) st p0 reps → origin S s c x → origin (deliver S r st n0 reps) s c x.
Proof.
  intros Heff. assert (∀ r' b w, known S r' s = Some (b, w) →
    ∃ b', known (deliver S r st n0 reps) r' s = Some (b', w)) as Hst.
  { intros r' b w Hv. rewrite known_deliver. destruct (decide (r = r')) as [<-|]; [|eauto].
    by eapply effect_stable. }
  induction 1 as [r' b nc x Hv|r' b c x Hv Hc Hp _ IH].
  - apply Hst in Hv as [b' Hv]. by eapply origin_local.
  - apply Hst in Hv as [b' Hv]. by eapply origin_child.
Qed.

Lemma pkt_origin_step S r st p0 n0 reps p :
  effect r (servers S r) st p0 reps → pkt_origin S p → pkt_origin (deliver S r st n0 reps) p.
Proof.
  intros Heff. destruct p as [c m|c m]; simpl; intros H; intros; eapply origin_step; eauto.
Qed.

Lemma pkt_origin_logs S r logs : Forall is_log logs → Forall (pkt_origin S) (route r logs).
Proof.
  unfold route. induction 1 as [|o logs Ho _ IH]; [constructor|]. rewrite fmap_cons. cbn [concat].
  apply Forall_app. split; [|done]. destruct o as [| |m]; try done. simpl in *.
  destruct (r =? 0); constructor; [|constructor]. simpl. congruence.
Qed.

(** A response to the waiter [w] of rank [r], whose report has origin [x]. *)
Lemma pkt_origin_resp S r tbl w x s :
  0 <= r < rt_size → i32 x → site_ok s →
  (∀ c, x ≠ -1 → w = CRASH_WAITER_CHILD (peer_of c) → 0 < c < rt_size → rt_parent c = r →
        origin S s c x) →
  Forall (pkt_origin S) (route r (resp_out tbl w x s)).
Proof.
  intros Hr Hx Hs Ho. destruct w as [nc g|p]; [rewrite route_resp_local; constructor|].
  rewrite route_resp_child.
  destruct (peer_ranks_cases r p Hr) as [->|(c & -> & Hc & Hp & ->)]; [constructor|].
  constructor; [|constructor]. intros x' s' k. rewrite crash_parse_response_pack by done.
  intros [= <- <- _] Hne. by apply Ho.
Qed.

Lemma answers_resp r tbl w x s a :
  i32 x → a ∈ answer_all r (resp_out tbl w x s) → ∃ nc g, w = CRASH_WAITER_LOCAL nc g ∧ a = (r, nc, s, x).
Proof.
  intros Hx. destruct w as [nc g|p]; simpl; [|set_solver].
  destruct (tbl !! nc) as [cl|]; [|set_solver]. destruct (active cl && _); [|set_solver].
  unfold answer_all. simpl. rewrite list_elem_of_singleton. intros ->. exists nc, g. split; [done|].
  assert (rd_i32 (le32 x) 0 = x) as E; [|by rewrite <- E at 2].
  rewrite <- (app_nil_r (le32 x)). by apply (rd_i32_at []).
Qed.

Lemma answers_resp_connected r st nc g x s :
  i32 x → connected st nc →
  (r, nc, s, x) ∈ answer_all r (resp_out (client_table st) (CRASH_WAITER_LOCAL nc g) x s).
Proof.
  intros Hx (k & Hk & Hk0). unfold conns in Hk. rewrite list_lookup_fmap in Hk.
  unfold resp_out. destruct (client_table st !! nc) as [cl|]; [|done]. simpl in Hk.
  injection Hk as Ha Hk. rewrite Ha, Hk, (proj2 (Z.leb_le 0 k)) by done.
  unfold answer_all. simpl.
  assert (rd_i32 (le32 x) 0 = x) as E.
  { rewrite <- (app_nil_r (le32 x)). by apply (rd_i32_at []). }
  rewrite <- E at 1. left.
Qed.

Lemma inv_local_step S r st p0 n0 reps :
  effect r (servers S r) st p0 reps → removed (net S) p0 n0 → md_rank st = md_rank (servers S r) →
  inv_local S → inv_local (deliver S r st n0 reps).
Proof.
  intros Heff Hrem Hmd [Hnet Hloc]. split.
  - apply Forall_app. split; [by apply (Forall_removed _ _ _ _ Hrem)|by eapply effect_route_ok].
  - intros r' Hr'. unfold deliver. cbn [servers]. destruct (decide (r = r')) as [<-|Hne].
    + rewrite fn_lookup_insert. destruct (Hloc r Hr') as [H1 _]. split; [|done]. simpl. congruence.
    + rewrite fn_lookup_insert_ne by done. by apply Hloc.
Qed.

(** The waiter an entry gets was the origin of the report. *)
Lemma report_origin S' r p0 w x d s cp reps b :
  i32 x → i32 d → site_ok s → corepath_ok cp →
  (p0 = None ∧ ∃ nc, w = CRASH_WAITER_LOCAL nc x ∧ reps = [(r, nc, s, x)]) ∨
  (∃ c, p0 = Some (Up c (report_msg x d s cp)) ∧ w = CRASH_WAITER_CHILD (peer_of c) ∧ reps = [] ∧
        0 < c < rt_size ∧ rt_parent c = r) →
  match p0 with Some p => pkt_origin S' p | None => True end →
  known S' r s = Some (b, w) → origin S' s r x.
Proof.
  intros Hx Hd Hs Hcp [(-> & nc & -> & _)|(c & -> & -> & _ & Hc & Hp)] Hp0 Hk;
    [by eapply origin_local|].
  eapply origin_child; [done..|]. simpl in Hp0. eapply Hp0; [done|]. by apply parse_report_msg.
Qed.

Lemma pkt_origin_effect S r st p0 n0 reps :
  0 <= r < rt_size → effect r (servers S r) st p0 reps →
  match p0 with Some p => pkt_origin S p | None => True end →
  Forall (pkt_origin (deliver S r st n0 reps)) (route r (sent st)).
Proof.
  intros Hr Heff Hp0.
  assert (match p0 with Some p => pkt_origin (deliver S r st n0 reps) p | None => True end) as Hp0'.
  { destruct p0; [|done]. by eapply pkt_origin_step. }
  pose proof (λ s', known_deliver S r st n0 reps r s') as Hkn. revert Hp0' Hkn.
  generalize (deliver S r st n0 reps) as S'. intros S' Hp0' Hkn.
  setoid_rewrite decide_True in Hkn; [|done].
  destruct Heff as [p0 _ _ Hl|p0 w x d s cp logs reps Hsrc Hx Hd Hs Hcp Hl Hst
                   |w x s Hx Hs Hr0 Hv Hsent Hview|x s _ _ _ _ _ Hsent].
  - by apply pkt_origin_logs.
  - pose proof (λ b, report_origin S' r p0 w x d s cp reps b Hx Hd Hs Hcp Hsrc Hp0') as Ho.
    destruct (view (servers S r) s) as [v|] eqn:Ev; [|destruct (r =? 0) eqn:Er];
      destruct Hst as [-> Hview]; bool_to_prop.
    + rewrite route_app. apply Forall_app. split; [|by apply pkt_origin_logs].
      by apply pkt_origin_resp.
    + rewrite route_app. apply Forall_app. split; [|by apply pkt_origin_logs].
      apply pkt_origin_resp; try done. intros c _ -> Hc Hp.
      destruct Hsrc as [(_ & nc & [=] & _)|(c' & -> & [= Hcc] & _)].
      apply peer_of_inj in Hcc as <-. simpl in Hp0'. eapply Hp0'; [done|]. by apply parse_report_msg.
    + rewrite route_report by done. constructor; [|by apply pkt_origin_logs].
      intros x' d' s' cp' _. rewrite parse_report_msg by done. intros [= <- _ <- _].
      apply (Ho false). rewrite Hkn, Hview. by rewrite decide_True.
  - rewrite Hsent. apply pkt_origin_resp; try done. intros c Hne -> Hc Hp.
    simpl in Hp0'. specialize (Hp0' x s _ (crash_parse_response_pack x s Hx Hs) Hne).
    assert (known S' r s = Some (true, CRASH_WAITER_CHILD (peer_of c))) as Hk.
    { rewrite Hkn, Hview. by rewrite decide_True. }
    inversion Hp0' as [? b nc x' Hk'|? b c' x' Hk' Hc' Hp' Ho]; subst; [congruence|].
    rewrite Hk in Hk'. injection Hk' as _ Hcc. by apply peer_of_inj in Hcc as ->.
  - rewrite Hsent. constructor.
Qed.

(** The entries a step leaves unresolved, and the answers it gives, come from
    reports. *)
Lemma effect_waiters S r st p0 reps s nc x :
  effect r (servers S r) st p0 reps → view st s = Some (false, CRASH_WAITER_LOCAL nc x) →
  view (servers S r) s = Some (false, CRASH_WAITER_LOCAL nc x) ∨ (r, nc, s, x) ∈ reps.
Proof.
  intros Heff Hv.
  destruct Heff as [p0 _ Hgrow _|p0 w x' d s' cp logs reps Hsrc _ _ _ _ _ Hst
                   |w x' s' _ _ _ Hv' _ Hview|x' s' _ _ _ _ Hview _].
  - destruct (Hgrow s) as [E|[_ E]]; rewrite E in Hv; [by left|done].
  - destruct (view (servers S r) s') eqn:Ev; [|destruct (r =? 0)]; destruct Hst as [_ Hview];
      rewrite Hview in Hv; [by left|..]; (destruct (decide (s' = s)) as [<-|]; [|by left]); [done|].
    simplify_eq. destruct Hsrc as [(_ & nc' & [= -> ->] & ->)|(c & _ & [=] & _)]. right. left.
  - rewrite Hview in Hv. destruct (decide (s' = s)); [done|by left].
  - rewrite Hview in Hv. by left.
Qed.

Lemma effect_answers S r st p0 reps r' nc s x :
  effect r (servers S r) st p0 reps →
  match p0 with Some p => pkt_origin S p | None => True end →
  (r', nc, s, x) ∈ answer_all r (sent st) → x ≠ -1 →
  r' = r ∧ (view (servers S r) s = Some (false, CRASH_WAITER_LOCAL nc x) ∨ (r, nc, s, x) ∈ reps).
Proof.
  intros Heff Hp0 Ha Hne.
  destruct Heff as [p0 _ _ Hl|p0 w x' d s' cp logs reps Hsrc Hx _ _ _ Hl Hst
                   |w x' s' Hx Hs _ Hv Hsent Hview|x' s' _ _ _ _ _ Hsent].
  - rewrite answer_logs in Ha by done. by apply elem_of_nil in Ha.
  - destruct (view (servers S r) s') eqn:Ev; [|destruct (r =? 0)]; destruct Hst as [E _]; rewrite E in Ha.
    + rewrite answer_app, (answer_logs r logs), app_nil_r in Ha by done.
      apply answers_resp in Ha as (nc' & g & -> & [= -> -> -> ->]); [done|unfold i32; lia].
    + rewrite answer_app, (answer_logs r logs), app_nil_r in Ha by done.
      apply answers_resp in Ha as (nc' & g & -> & [= -> -> -> ->]); [|done].
      destruct Hsrc as [(_ & nc & [= -> ->] & ->)|(c & _ & [=] & _)]. split; [done|]. right. left.
    + change (ToParent ?m :: logs) with ([ToParent m] ++ logs) in Ha.
      rewrite answer_app, (answer_logs r logs), app_nil_r in Ha by done. by apply elem_of_nil in Ha.
  - rewrite Hsent in Ha. apply answers_resp in Ha as (nc' & g & -> & [= -> -> -> ->]); [|done].
    split; [done|]. left. simpl in Hp0.
    specialize (Hp0 x' s' _ (crash_parse_response_pack x' s' Hx Hs) Hne).
    inversion Hp0 as [? b nc x Hk|? b c x Hk]; subst; unfold known in Hk; rewrite Hv in Hk; by simplify_eq.
  - rewrite Hsent in Ha. by apply elem_of_nil in Ha.
Qed.

Lemma inv_origin_step S r st p0 n0 reps :
  0 <= r < rt_size → effect r (servers S r) st p0 reps → removed (net S) p0 n0 →
  inv_origin S → inv_origin (deliver S r st n0 reps).
Proof.
  intros Hr Heff Hrem (Hnet & Hwait & Hans). destruct (Forall_removed _ _ _ _ Hrem Hnet) as [Hn0 Hp0].
  split; [|split].
  - apply Forall_app. split.
    + eapply Forall_impl; [exact Hn0|]. intros p. by eapply pkt_origin_step.
    + by eapply pkt_origin_effect.
  - intros r' s nc x Hr' Hk. apply elem_of_app. rewrite known_deliver in Hk.
    destruct (decide (r = r')) as [<-|]; [|left; by apply Hwait].
    destruct (effect_waiters _ _ _ _ _ _ _ _ Heff Hk) as [H|H]; [left|by right]. by apply Hwait.
  - intros r' nc s x Ha Hne. apply elem_of_app. apply elem_of_app in Ha as [Ha|Ha]; [left; by apply Hans|].
    destruct (effect_answers _ _ _ _ _ _ _ _ _ Heff Hp0 Ha Hne) as [-> [H|H]]; [left|by right].
    by apply Hwait.
Qed.

(** A report is answered, or its client waits. *)
Lemma effect_reports S r st p0 reps r' nc s x :
  effect r (servers S r) st p0 reps → (∀ nc, connected st nc → connected (servers S r) nc) →
  (r', nc, s, x) ∈ reps → r' = r ∧ (connected st nc →
  (∃ y, (r, nc, s, y) ∈ answer_all r (sent st)) ∨ view st s = Some (false, CRASH_WAITER_LOCAL nc x)).
Proof.
  intros Heff Hconn Hin.
  destruct Heff as [p0 _ _ Hl|p0 w x' d s' cp logs reps Hsrc Hx _ _ _ Hl Hst| |];
    [by apply elem_of_nil in Hin| |by apply elem_of_nil in Hin..].
  destruct Hsrc as [(_ & nc' & -> & ->)|(c & _ & _ & -> & _)]; [|by apply elem_of_nil in Hin].
  apply list_elem_of_singleton in Hin as [= -> -> -> ->]. split; [done|]. intros Hc. apply Hconn in Hc.
  destruct (view (servers S r) s'); [|destruct (r =? 0)]; destruct Hst as [-> Hview].
  - left. exists (-1). rewrite answer_app. apply elem_of_app. left.
    apply answers_resp_connected; [unfold i32; lia|done].
  - left. exists x'. rewrite answer_app. apply elem_of_app. left. by apply answers_resp_connected.
  - right. rewrite Hview. by rewrite decide_True.
Qed.

(** A waiting client goes on waiting, or is answered. *)
Lemma effect_waiting S r st p0 reps nc s x :
  effect r (servers S r) st p0 reps → connected (servers S r) nc →
  view (servers S r) s = Some (false, CRASH_WAITER_LOCAL nc x) →
  (∃ y, (r, nc, s, y) ∈ answer_all r (sent st)) ∨ view st s = Some (false, CRASH_WAITER_LOCAL nc x).
Proof.
  intros Heff Hc Hv.
  destruct Heff as [p0 _ Hgrow _|p0 w x' d s' cp logs reps _ _ _ _ _ _ Hst
                   |w x' s' Hx _ _ Hv' Hsent Hview|x' s' _ _ _ _ Hview _].
  - right. destruct (Hgrow s) as [->|[E _]]; congruence.
  - right. destruct (view (servers S r) s') eqn:Ev; [|destruct (r =? 0)]; destruct Hst as [_ Hview];
      rewrite Hview; [done|..]; (rewrite decide_False; [done|intros ->; congruence]).
  - destruct (decide (s' = s)) as [->|Hne].
    + left. rewrite Hv in Hv'. simplify_eq. exists x'. rewrite Hsent. by apply answers_resp_connected.
    + right. rewrite Hview. by rewrite decide_False.
  - right. by rewrite Hview.
Qed.

Lemma inv_answered_step S r st p0 n0 reps :
  effect r (servers S r) st p0 reps → (∀ nc, connected st nc → connected (servers S r) nc) →
  inv_answered S → inv_answered (deliver S r st n0 reps).
Proof.
  intros Heff Hconn Hinv r' nc s x Hrep Hc. rewrite known_deliver. unfold deliver in *. simpl in *.
  setoid_rewrite elem_of_app. apply elem_of_app in Hrep as [Hrep|Hrep].
  - destruct (decide (r = r')) as [<-|Hne].
    + rewrite fn_lookup_insert in Hc. change (connected st nc) in Hc. apply Hconn in Hc.
      destruct (Hinv _ _ _ _ Hrep Hc) as [[y Hy]|Hk]; [left; eauto|].
      destruct (effect_waiting _ _ _ _ _ _ _ _ Heff Hc Hk) as [[y Hy]|]; [left; eauto|by right].
    + rewrite fn_lookup_insert_ne in Hc by done.
      destruct (Hinv _ _ _ _ Hrep Hc) as [[y Hy]|Hk]; [left; eauto|by right].
  - destruct (effect_reports _ _ _ _ _ _ _ _ _ Heff Hconn Hrep) as [-> H].
    rewrite decide_True by done. rewrite fn_lookup_insert in Hc. change (connected st nc) in Hc.
    destruct (H Hc) as [[y Hy]|]; [left; eauto|by right].
Qed.

(** *** All of it, for every reachable state *)

Record inv (S : sys) : Prop := mk_inv {
  i_pending : inv_pending S;
  i_root : inv_root S;
  i_token : inv_token S;
  i_local : inv_local S;
  i_origin : inv_origin S;
  i_answered : inv_answered S;
}.

Lemma inv_step S S' : step S S' → inv S → inv S'.
Proof.
  intros Hstep [H1 H2 H3 H4 H5 H6].
  destruct (step_effect S S' Hstep H4) as (r & st & p0 & n0 & reps & Hr & -> & Hrem & Heff & Hmd & Hc & _).
  constructor.
  - by eapply inv_pending_step.
  - by eapply inv_root_step.
  - by eapply inv_token_step.
  - by eapply inv_local_step.
  - by eapply inv_origin_step.
  - by eapply inv_answered_step.
Qed.

Lemma view_no_sites st s : crash_sites st = [] → view st s = None.
Proof. unfold view. by intros ->. Qed.

Lemma inv_initial S : 0 < rt_size → initial S → inv S.
Proof.
  intros Hn (Hsrv & Hnet & Hans & Hrep).
  assert (∀ r s, 0 <= r < rt_size → known S r s = None) as Hk.
  { intros r s Hr. apply view_no_sites. by apply Hsrv. }
  constructor.
  - intros c s Hc. pose proof (rt_parent_lt c Hc). rewrite Hnet, !Hk by lia. done.
  - intros s. rewrite Hk by lia. done.
  - intros s. unfold tokens. rewrite Hnet, Hans, Hk by lia. done.
  - split; [by rewrite Hnet|]. intros r Hr. split; by apply Hsrv.
  - split; [by rewrite Hnet|]. split.
    + intros r s nc x Hr. by rewrite Hk.
    + rewrite Hans. intros r nc s x H. by apply elem_of_nil in H.
  - intros r nc s x. rewrite Hrep. intros H. by apply elem_of_nil in H.
Qed.

Lemma reachable_inv S : 0 < rt_size → reachable S → inv S.
Proof.
  intros Hn (S0 & H0 & Hsteps). pose proof (inv_initial S0 Hn H0) as Hinv. clear H0.
  induction Hsteps as [|S0 S1 S2 Hs _ IH]; [done|]. apply IH. by eapply inv_step.
Qed.

(** With an empty network no site is unresolved: a rank's entry could only wait
    for its parent's. *)
Lemma quiet_resolved S r s : inv S → net S = [] → 0 <= r < rt_size → unres (known S r s) = O.
Proof.
  intros Hinv Hnet Hr. assert (0 <= r) as H0 by lia. revert Hr.
  revert r H0. apply (Z_lt_induction (λ r, 0 <= r < rt_size → unres (known S r s) = O)).
  intros r IH Hr. destruct (decide (r = 0)) as [->|]; [apply Hinv|].
  assert (0 < r < rt_size) as Hr' by lia. pose proof (rt_parent_lt r Hr') as Hp.
  rewrite <- (i_pending S Hinv r s Hr'), Hnet. simpl.
  assert (unres (known S (rt_parent r) s) = O) as IH' by (apply IH; lia).
  by destruct (known S (rt_parent r) s) as [[[] w]|].
Qed.

(** *** Delivery ends

    A message goes up or turns round once and goes down: its weight shrinks with
    every hop, and a hop sends at most one message on. *)

Definition weight (p : packet) : Z :=
  match p with Up c _ => rt_size + c | Down c _ => rt_size - c end.

Definition total (n : list packet) : Z := foldr (λ p z, weight p + z) 0 n.

(** A step that delivers a message. *)
Inductive delivery : sys → sys → Prop :=
  | del_up S c m n1 n2 : 0 < c < rt_size →
      net S = n1 ++ Up c m :: n2 → Forall (λ p, ¬ same_link (Up c m) p) n1 →
      delivery S (deliver S (rt_parent c) (handle_up (servers S (rt_parent c)) c m) (n1 ++ n2) [])
  | del_down S c m n1 n2 : 0 < c < rt_size →
      net S = n1 ++ Down c m :: n2 → Forall (λ p, ¬ same_link (Down c m) p) n1 →
      delivery S (deliver S c (fst (handle_crash_response_recv (servers S c) true m)) (n1 ++ n2) []).

Lemma delivery_step S S' : delivery S S' → step S S'.
Proof. destruct 1; by constructor. Qed.

Definition pkt_rank_ok (p : packet) : Prop :=
  match p with Up c _ | Down c _ => 0 < c < rt_size end.

Lemma total_app n k : total (n ++ k) = total n + total k.
Proof. unfold total. induction n as [|p n IH]; [done|]. simpl in *. lia. Qed.

Lemma total_nonneg n : Forall pkt_rank_ok n → 0 <= total n.
Proof. unfold total. induction 1 as [|[c m|c m] n Hp _ IH]; simpl in *; lia. Qed.

Lemma route_rank_ok r os : 0 <= r < rt_size → Forall pkt_rank_ok (route r os).
Proof.
  intros Hr. unfold route. induction os as [|o os IH]; [constructor|]. rewrite fmap_cons. cbn [concat].
  apply Forall_app. split; [|done]. destruct o as [nc s m|p m|m]; simpl.
  - constructor.
  - apply Forall_fmap, Forall_forall. intros c Hc.
    rewrite list_elem_of_In, filter_In, <- list_elem_of_In in Hc. destruct Hc as [Hc _].
    by apply rt_children_spec in Hc as [Hc _].
  - destruct (r =? 0) eqn:E; bool_to_prop; repeat constructor; simpl; lia.
Qed.

(** The response to the waiter of a rank weighs less than the response it got. *)
Lemma resp_weight r tbl w x s : 0 <= r < rt_size → total (route r (resp_out tbl w x s)) < rt_size - r.
Proof.
  intros Hr. destruct w as [nc g|p]; [rewrite route_resp_local; unfold total; simpl; lia|].
  rewrite route_resp_child. unfold total.
  destruct (peer_ranks_cases r p Hr) as [->|(c & -> & Hc & Hp & _)]; simpl; [lia|].
  pose proof (rt_parent_lt c Hc). lia.
Qed.

(** A report answered at once is answered to the child that sent it. *)
Lemma turn_weight r tbl c x s :
  0 <= r < rt_size → 0 < c < rt_size → rt_parent c = r →
  total (route r (resp_out tbl (CRASH_WAITER_CHILD (peer_of c)) x s)) = rt_size - c.
Proof.
  intros Hr Hc Hp. rewrite route_resp_child. unfold peer_ranks. rewrite filter_children by done.
  unfold total. simpl. lia.
Qed.

Lemma up_weight r m : 0 <= r < rt_size → total (route r [ToParent m]) <= rt_size + r.
Proof. intros Hr. unfold total, route. simpl. destruct (r =? 0); simpl; lia. Qed.

Lemma log_recv_sends st m :
  let st' := fst (handle_crash_log_recv st false m) in
  sent st' = sent st ∨ ∃ m', sent st' = sent st ++ [ToParent m'].
Proof.
  unfold handle_crash_log_recv. destruct (_ <? 4); [by left|]. destruct (_ <? 0); [by left|].
  destruct (merge_entries _ _ _ _ _) as [st1 ok] eqn:E.
  apply merge_entries_effect in E as (_ & H & _). destruct ok; simpl; [|by left].
  unfold crash_log_flush_to_parent. destruct (negb _); [by left|]. destruct (is_responsible st1); [by left|].
  destruct (pending_sites st1); [by left|]. right. simpl. rewrite H. eauto.
Qed.

Lemma delivery_decreases S S' :
  inv_local S → delivery S S' → total (net S') < total (net S).
Proof.
  intros [Hnet Hloc] Hd.
  destruct Hd as [S c m n1 n2 Hc Hn _|S c m n1 n2 Hc Hn _]; unfold deliver; simpl net; rewrite Hn in *;
    apply Forall_app in Hnet as [_ Hnet]; apply Forall_cons in Hnet as [Hm _];
    rewrite !total_app; change (total (?p :: n2)) with (weight p + total n2); simpl weight.
  - pose proof (rt_parent_lt c Hc) as Hp. set (r := rt_parent c) in *.
    destruct (Hloc r ltac:(lia)) as [Hmd Hsent].
    enough (total (route r (sent (handle_up (servers S r) c m))) < rt_size + c) by lia.
    destruct Hm as [Hlog|(x & d & s & cp & -> & Hx & Hd & Hs & Hcp)]; unfold handle_up.
    + rewrite Hlog. destruct (log_recv_sends (servers S r) m) as [->|[m' ->]]; rewrite Hsent.
      * unfold total. simpl. lia.
      * pose proof (up_weight r m' ltac:(lia)). simpl app. lia.
    + simpl msg_type. cbn iota. unfold handle_crash_report_recv. rewrite parse_report_msg by done.
      cbn iota zeta. destruct (crash_report_common _ _ _ _ _ _) as [st1 i] eqn:Ec. cbn [fst].
      apply (common_effect r) in Ec as [_ Hcom]; [|done..].
      destruct (view (servers S r) s); [|destruct (r =? 0)]; destruct Hcom as [-> _];
        [rewrite turn_weight by (done || lia); lia..|].
      pose proof (up_weight r (report_msg x d s cp) ltac:(lia)). lia.
  - destruct (Hloc c ltac:(lia)) as [Hmd Hsent]. destruct Hm as (x & s & -> & Hx & Hs).
    pose proof (response_recv_effect (servers S c) _ x s _ (crash_parse_response_pack x s Hx Hs)) as H.
    destruct (view (servers S c) s) as [[[] w]|];
      [rewrite H; simpl fst; rewrite Hsent; unfold total at 3; simpl; lia| |
       rewrite H; simpl fst; rewrite Hsent; unfold total at 3; simpl; lia].
    destruct H as (_ & _ & -> & _). rewrite Hsent. simpl app.
    pose proof (resp_weight c (client_table (servers S c)) w x s ltac:(lia)). lia.
Qed.

Lemma delivery_rank_ok S S' :
  Forall pkt_rank_ok (net S) → step S S' → Forall pkt_rank_ok (net S').
Proof.
  intros Hok Hs.
  destruct Hs as [S r nc m Hr|S r nc now m Hr Hsz|S r nc Hr|S c m n1 n2 Hc Hn _|S c m n1 n2 Hc Hn _];
    unfold deliver; simpl net; (apply Forall_app; split; [try done|]);
    try (apply route_rank_ok; first [done|pose proof (rt_parent_lt c Hc); lia]);
    (rewrite Hn in Hok; apply Forall_app in Hok as [H1 H2]; apply Forall_cons in H2 as [_ H2];
     by apply Forall_app).
Qed.

Lemma reachable_rank_ok S : reachable S → Forall pkt_rank_ok (net S).
Proof.
  intros (S0 & (_ & Hn & _) & Hs). assert (Forall pkt_rank_ok (net S0)) as H by (by rewrite Hn).
  clear Hn. induction Hs as [|S0 S1 S2 Hs _ IH]; [done|]. apply IH. by eapply delivery_rank_ok.
Qed.

Lemma reachable_step S S' : reachable S → step S S' → reachable S'.
Proof. intros (S0 & H0 & Hs) H. exists S0. split; [done|]. by eapply rtc_r. Qed.

Lemma delivery_bound k S S' :
  0 < rt_size → reachable S → nsteps delivery k S S' → Z.of_nat k <= total (net S).
Proof.
  intros Hn HS Hk. induction Hk as [S|k S S1 S2 Hd Hk IH].
  - by apply total_nonneg, reachable_rank_ok.
  - pose proof (delivery_decreases S S1 (i_local _ (reachable_inv S Hn HS)) Hd).
    specialize (IH ltac:(eapply reachable_step; [done|by apply delivery_step])). lia.
Qed.

Lemma delivery_enabled S : reachable S → net S ≠ [] → ∃ S', delivery S S'.
Proof.
  intros HS Hne. pose proof (reachable_rank_ok S HS) as Hok.
  destruct (net S) as [|[c m|c m] n] eqn:E; [done|..]; apply Forall_cons in Hok as [Hc _].
  - eexists. apply (del_up S c m [] n); [done|done|constructor].
  - eexists. apply (del_down S c m [] n); [done|done|constructor].
Qed.

Lemma delivery_drains S : 0 < rt_size → reachable S → ∃ S', rtc delivery S S' ∧ net S' = [].
Proof.
  intros Hn. remember (Z.to_nat (total (net S))) as k eqn:Hk. revert S Hk.
  induction (lt_wf k) as [k _ IH]. intros S -> HS.
  destruct (decide (net S = [])) as [|Hne]; [by exists S|].
  destruct (delivery_enabled S HS Hne) as [S1 Hd].
  pose proof (delivery_decreases S S1 (i_local _ (reachable_inv S Hn HS)) Hd).
  assert (reachable S1) as HS1 by (eapply reachable_step; [done|by apply delivery_step]).
  pose proof (total_nonneg _ (reachable_rank_ok S1 HS1)).
  destruct (IH (Z.to_nat (total (net S1))) ltac:(lia) S1 eq_refl HS1) as (S2 & H1 & H2).
  exists S2. split; [|done]. by eapply rtc_l.
Qed.

(** *** Exactly one selection, without the crash log *)

Definition not_log (p : packet) : Prop :=
  match p with Up _ m => msg_type m ≠ LDCS_MSG_CRASH_LOG | Down _ _ => True end.

Definition no_log (S : sys) : Prop :=
  (∀ r, 0 <= r < rt_size → opt_crash_log (servers S r) = false) ∧ Forall not_log (net S).

(** Every waiter is a client that reported or a child. *)
Definition inv_waiters (S : sys) : Prop := ∀ r s b w,
  0 <= r < rt_size → known S r s = Some (b, w) →
  match w with
  | CRASH_WAITER_LOCAL nc x => (r, nc, s, x) ∈ reports S
  | CRASH_WAITER_CHILD p => ∃ c, p = peer_of c ∧ 0 < c < rt_size ∧ rt_parent c = r
  end.

(** A site known to a rank is known to its parent, or its report is on the way;
    what a client reported is known to its server. *)
Definition inv_upward (S : sys) : Prop :=
  (∀ c s v, 0 < c < rt_size → known S c s = Some v →
     is_Some (known S (rt_parent c) s) ∨ (0 < cnt (is_report c s) (net S))%nat) ∧
  ∀ r nc s x, (r, nc, s, x) ∈ reports S → 0 <= r < rt_size ∧ is_Some (known S r s).

(** A client that cannot be selected for [s] reported it. *)
Definition unselectable (S : sys) (s : bytes) : Prop :=
  ∃ r nc x, (r, nc, s, x) ∈ reports S ∧ (x = -1 ∨ ¬ connected (servers S r) nc).

Definition inv_exact (S : sys) : Prop := ∀ s, unselectable S s ∨ tokens S s = 1%nat.

Lemma route_not_log r os : Forall (λ o, ¬ is_log o) os → Forall not_log (route r os).
Proof.
  unfold route. induction 1 as [|o os Ho _ IH]; [constructor|]. rewrite fmap_cons. cbn [concat].
  apply Forall_app. split; [|done]. destruct o as [nc s m|p m|m]; simpl in *.
  - constructor.
  - by apply Forall_fmap, Forall_true.
  - destruct (r =? 0); by repeat constructor.
Qed.

Lemma no_log_step S r st p0 n0 reps :
  0 <= r < rt_size → removed (net S) p0 n0 → log_free (servers S r) st p0 reps →
  no_log S → no_log (deliver S r st n0 reps) ∧
  (p0 = None → reps = [] → ∀ s, view st s = view (servers S r) s).
Proof.
  intros Hr Hrem Hlf [Hoff Hnet]. destruct (Forall_removed _ _ _ _ Hrem Hnet) as [Hn0 Hp0].
  destruct Hlf as (H1 & H2 & H3); [by apply Hoff|by destruct p0 as [[]|]|]. split; [split|done].
  - intros r' Hr'. unfold deliver. simpl. destruct (decide (r = r')) as [<-|].
    + by rewrite fn_lookup_insert.
    + rewrite fn_lookup_insert_ne by done. by apply Hoff.
  - apply Forall_app. split; [done|]. by apply route_not_log.
Qed.

(** Without log messages the view of a rank changes by reports and responses
    only. *)
Definition sharp (r : Z) (st0 st : cstate) (p0 : option packet) (reps : list answer) : Prop :=
  match p0 with Some p => not_log p | None => True end ∧
  (p0 = None → reps = [] → ∀ s, view st s = view st0 s).

Lemma sharp_new r st0 st p0 reps s b w :
  effect r st0 st p0 reps → sharp r st0 st p0 reps → view st s = Some (b, w) →
  (∃ b', view st0 s = Some (b', w)) ∨
  match w with
  | CRASH_WAITER_LOCAL nc x => (r, nc, s, x) ∈ reps
  | CRASH_WAITER_CHILD p => ∃ c, p = peer_of c ∧ 0 < c < rt_size ∧ rt_parent c = r
  end ∧ (r = 0 ∨ ∃ m, Up r m ∈ route r (sent st) ∧ is_report r s (Up r m) = true).
Proof.
  intros Heff [Hnl Hsh] Hv.
  destruct Heff as [p0 Hp0 _ _|p0 w' x d s' cp logs reps Hsrc Hx Hd Hs Hcp _ Hst
                   |w' x s' _ _ _ Hv' _ Hview|x s' _ _ _ _ Hview _].
  - destruct p0 as [[c m|c m]|]; [by destruct Hnl|done|]. rewrite Hsh in Hv by done. eauto.
  - destruct (view st0 s') eqn:Ev.
    { destruct Hst as [_ Hview]. rewrite Hview in Hv. eauto. }
    assert (s' = s → w' = w → match w with
      | CRASH_WAITER_LOCAL nc x => (r, nc, s, x) ∈ reps
      | CRASH_WAITER_CHILD p => ∃ c, p = peer_of c ∧ 0 < c < rt_size ∧ rt_parent c = r
      end) as Hw.
    { intros -> ->. destruct Hsrc as [(_ & nc & -> & ->)|(c & _ & -> & _ & Hc)]; [left|eauto]. }
    destruct (r =? 0) eqn:Er; bool_to_prop; destruct Hst as [Hsent Hview]; rewrite Hview in Hv;
      (destruct (decide (s' = s)) as [<-|]; [|eauto]); injection Hv as <- <-; right;
      (split; [by apply Hw|]); [by left|right].
    exists (report_msg x d s' cp). rewrite Hsent, route_report by done. split; [left|].
    rewrite is_report_msg by done. by rewrite Z.eqb_refl, bool_decide_true.
  - rewrite Hview in Hv. destruct (decide (s' = s)) as [<-|]; [|eauto]. simplify_eq. eauto.
  - rewrite Hview in Hv. eauto.
Qed.

Lemma inv_waiters_step S r st p0 n0 reps :
  effect r (servers S r) st p0 reps → sharp r (servers S r) st p0 reps →
  inv_waiters S → inv_waiters (deliver S r st n0 reps).
Proof.
  intros Heff Hsh Hinv r' s b w Hr' Hk. rewrite known_deliver in Hk.
  assert (∀ b', known S r' s = Some (b', w) → match w with
    | CRASH_WAITER_LOCAL nc x => (r', nc, s, x) ∈ reports S ++ reps
    | CRASH_WAITER_CHILD p => ∃ c, p = peer_of c ∧ 0 < c < rt_size ∧ rt_parent c = r' end) as Hold.
  { intros b' Hb. specialize (Hinv r' s b' w Hr' Hb). destruct w; [|done]. apply elem_of_app. by left. }
  destruct (decide (r = r')) as [<-|]; [|by eapply Hold].
  destruct (sharp_new _ _ _ _ _ _ _ _ Heff Hsh Hk) as [[b' Hb]|[Hw _]]; [by eapply Hold|].
  destruct w; [|done]. apply elem_of_app. by right.
Qed.

(** A handled report leaves the site known. *)
Lemma effect_learns r st0 st p0 reps s :
  effect r st0 st p0 reps →
  (∀ c, opt_b (is_report c s) p0 = true → rt_parent c = r ∧ is_Some (view st s)) ∧
  (∀ r' nc x, (r', nc, s, x) ∈ reps → r' = r ∧ is_Some (view st s)).
Proof.
  intros Heff.
  destruct Heff as [p0 Hp0 _ _|p0 w x d s' cp logs reps Hsrc Hx Hd Hs Hcp _ Hst| |].
  2:{ assert (is_Some (view st s')) as Hk.
      { destruct (view st0 s') eqn:Ev; [|destruct (r =? 0)]; destruct Hst as [_ Hview]; rewrite Hview;
          [by rewrite Ev|by rewrite decide_True..]. }
      destruct Hsrc as [(-> & nc & _ & ->)|(c & -> & _ & -> & _ & Hp)].
      - split; [done|]. intros r' nc' x' Hin. by apply list_elem_of_singleton in Hin as [= -> -> -> ->].
      - split; [|intros r' nc' x' Hin; by apply elem_of_nil in Hin].
        intros c'. cbn [opt_b]. rewrite is_report_msg by done. intros Hc.
        apply andb_prop in Hc as [Hc Hs']. apply bool_decide_eq_true in Hs' as <-.
        apply Z.eqb_eq in Hc as <-. done. }
  all: split; [|intros r' nc' x' Hin; by apply elem_of_nil in Hin].
  all: intros c Hc; try done. destruct p0 as [[c' m|c' m]|]; try done. cbn [opt_b] in Hc.
  by rewrite log_not_report in Hc.
Qed.

Lemma known_stable S r st p0 n0 reps r' s :
  effect r (servers S r) st p0 reps → is_Some (known S r' s) →
  is_Some (known (deliver S r st n0 reps) r' s).
Proof.
  intros Heff [[b w] Hk]. rewrite known_deliver. destruct (decide (r = r')) as [<-|]; [|by rewrite Hk].
  destruct (effect_stable _ _ _ _ _ _ _ _ Heff Hk) as [b' ->]. done.
Qed.

Lemma inv_upward_step S r st p0 n0 reps :
  0 <= r < rt_size → effect r (servers S r) st p0 reps → sharp r (servers S r) st p0 reps →
  removed (net S) p0 n0 → inv_upward S → inv_upward (deliver S r st n0 reps).
Proof.
  intros Hr Heff Hsh Hrem [Hup Hrep]. split.
  - intros c s v Hc Hk.
    assert (is_Some (known S c s) ∨ (0 < cnt (is_report c s) (route r (sent st)))%nat) as [[v' Hold]|Hnew].
    { rewrite known_deliver in Hk. destruct (decide (r = c)) as [<-|]; [|by left]. destruct v as [b w].
      destruct (sharp_new _ _ _ _ _ _ _ _ Heff Hsh Hk) as [[b' Hb]|[_ [->|(m & Hm & Hf)]]];
        [left; by exists (b', w)|lia|right]. by eapply cnt_pos. }
    2:{ right. unfold deliver. simpl. rewrite cnt_app. lia. }
    destruct (Hup c s v' Hc Hold) as [Hp|Hcnt]; [left; by eapply known_stable|].
    rewrite (cnt_removed _ _ _ _ Hrem) in Hcnt.
    destruct (opt_b (is_report c s) p0) eqn:E.
    + apply (effect_learns _ _ _ _ _ s Heff) in E as [-> Hs]. left. rewrite known_deliver.
      by rewrite decide_True.
    + right. unfold deliver. simpl in *. rewrite cnt_app. lia.
  - intros r' nc s x Hin. apply elem_of_app in Hin as [Hin|Hin].
    + destruct (Hrep _ _ _ _ Hin). split; [done|]. by eapply known_stable.
    + apply (effect_learns _ _ _ _ _ s Heff) in Hin as [-> Hs]. split; [done|].
      rewrite known_deliver. by rewrite decide_True.
Qed.

(** A response to the waiter [w] of rank [r] gets through. *)
Definition answerable (r : Z) (st : cstate) (w : crash_waiter) : Prop :=
  match w with
  | CRASH_WAITER_LOCAL nc _ => connected st nc
  | CRASH_WAITER_CHILD p => ∃ c, p = peer_of c ∧ 0 < c < rt_size ∧ rt_parent c = r
  end.

Lemma resp_wins r st w x s s0 :
  0 <= r < rt_size → i32 x → site_ok s → (s = s0 → answerable r st w) →
  wins r (resp_out (client_table st) w x s) s0 = b2n (bool_decide (s = s0) && negb (x =? -1)).
Proof.
  intros Hr Hx Hs Hw. pose proof (resp_wins_le r (client_table st) w x s s0 Hr Hx Hs) as Hle.
  destruct (bool_decide (s = s0) && negb (x =? -1)) eqn:E; simpl in *; [|lia].
  apply andb_prop in E as [E1 E2]. apply bool_decide_eq_true in E1 as <-. specialize (Hw eq_refl).
  unfold wins in *. destruct w as [nc g|p].
  - enough (0 < cnt (ans_win s) (answer_all r (resp_out (client_table st) (CRASH_WAITER_LOCAL nc g) x s)))%nat
      by lia.
    eapply cnt_pos; [by apply answers_resp_connected|]. unfold ans_win. by rewrite bool_decide_true.
  - destruct Hw as (c & -> & Hc & Hp).
    enough (0 < cnt (is_win s) (route r (resp_out (client_table st) (CRASH_WAITER_CHILD (peer_of c)) x s)))%nat
      by lia.
    rewrite route_resp_child. unfold peer_ranks. rewrite filter_children by done. simpl.
    rewrite cnt_cons, is_win_msg by done. rewrite bool_decide_true, E2 by done. simpl. lia.
Qed.

#[local] Instance connected_dec st nc : Decision (connected st nc).
Proof.
  unfold connected. destruct (conns st !! nc) as [[[] k]|]; [|right..].
  - destruct (decide (0 <= k)) as [H|H]; [left; by exists k|right; intros (k' & [= <-] & Hk); lia].
  - by intros (k' & [=] & _).
  - by intros (k' & [=] & _).
Qed.

Lemma unselectable_step S r st n0 reps s :
  (∀ nc, connected st nc → connected (servers S r) nc) →
  (∃ r' nc x, (r', nc, s, x) ∈ reports S ++ reps ∧ (x = -1 ∨ ¬ connected (servers S r') nc)) →
  unselectable (deliver S r st n0 reps) s.
Proof.
  intros Hconn (r' & nc & x & Hin & H). exists r', nc, x. split; [done|].
  destruct H as [H|H]; [by left|right]. contradict H. unfold deliver in H. simpl in H.
  destruct (decide (r = r')) as [<-|].
  - rewrite fn_lookup_insert in H. by apply Hconn.
  - by rewrite fn_lookup_insert_ne in H.
Qed.

Lemma origin_reported S s c x :
  inv_waiters S → 0 <= c < rt_size → origin S s c x → ∃ r nc, (r, nc, s, x) ∈ reports S.
Proof.
  intros Hw Hc Ho. induction Ho as [r b nc x Hk|r b c x Hk Hc' Hp _ IH].
  - exists r, nc. by apply (Hw r s b _ Hc Hk).
  - apply IH. lia.
Qed.

(** The client behind a report can be selected, or is one that cannot. *)
Lemma report_selectable S r p0 reps w x d s cp :
  inv_waiters S → i32 x → i32 d → site_ok s → corepath_ok cp →
  (p0 = None ∧ ∃ nc, w = CRASH_WAITER_LOCAL nc x ∧ reps = [(r, nc, s, x)]) ∨
  (∃ c, p0 = Some (Up c (report_msg x d s cp)) ∧ w = CRASH_WAITER_CHILD (peer_of c) ∧ reps = [] ∧
        0 < c < rt_size ∧ rt_parent c = r) →
  match p0 with Some p => pkt_origin S p | None => True end →
  (∃ r' nc x, (r', nc, s, x) ∈ reports S ++ reps ∧ (x = -1 ∨ ¬ connected (servers S r') nc)) ∨
  x ≠ -1 ∧ answerable r (servers S r) w.
Proof.
  intros Hw Hx Hd Hs Hcp Hsrc Hp0.
  destruct Hsrc as [(-> & nc & -> & ->)|(c & -> & -> & -> & Hc & Hp)].
  - destruct (decide (x ≠ -1 ∧ connected (servers S r) nc)) as [[??]|Hn]; [by right|]. left.
    exists r, nc, x. split; [apply elem_of_app; right; left|].
    destruct (decide (x = -1)); [by left|right; tauto].
  - destruct (decide (x = -1)) as [->|]; [|right; unfold answerable; eauto]. left.
    simpl in Hp0. specialize (Hp0 _ _ _ _ eq_refl (parse_report_msg _ _ _ _ Hx Hd Hs Hcp)).
    destruct (origin_reported S s c (-1) Hw ltac:(lia) Hp0) as (r' & nc & Hin).
    exists r', nc, (-1). split; [|by left]. apply elem_of_app. by left.
Qed.

(** A response in flight is expected. *)
Lemma response_expected S c x s :
  inv_pending S → 0 < c < rt_size → i32 x → site_ok s →
  Down c (response_msg (crash_pack x s)) ∈ net S → ∃ w, view (servers S c) s = Some (false, w).
Proof.
  intros Hinv Hc Hx Hs Hin. specialize (Hinv c s Hc).
  assert (0 < cnt (is_resp c s) (net S))%nat as Hpos.
  { eapply cnt_pos; [exact Hin|]. rewrite is_resp_msg by done.
    by rewrite Z.eqb_refl, bool_decide_true. }
  unfold known in Hinv. destruct (view (servers S c) s) as [[[] w]|]; simpl in Hinv; [lia|eauto|lia].
Qed.

Lemma removed_elem n p n0 : removed n (Some p) n0 → p ∈ n.
Proof. intros (n1 & n2 & -> & _). apply elem_of_app. right. left. Qed.

(** A step keeps the rights to select, unless a client that cannot be selected
    reported. *)
Lemma effect_tokens_eq S r st p0 n0 reps s0 :
  0 <= r < rt_size → effect r (servers S r) st p0 reps → sharp r (servers S r) st p0 reps →
  removed (net S) p0 n0 → inv_waiters S → inv_pending S → inv_origin S →
  (∃ r' nc x, (r', nc, s0, x) ∈ reports S ++ reps ∧ (x = -1 ∨ ¬ connected (servers S r') nc)) ∨
  (absent r (view st s0) + wins r (sent st) s0
   = absent r (view (servers S r) s0) + b2n (opt_b (is_win s0) p0))%nat.
Proof.
  intros Hr Heff [Hnl Hsh] Hrem Hw Hpend Horig.
  pose proof (Forall_removed _ _ _ _ Hrem (proj1 Horig)) as [_ Hp0].
  pose proof (effect_tokens _ _ _ _ _ s0 Hr Heff) as Hle.
  destruct Heff as [p0 Hq Hgrow Hl|p0 w x d s cp logs reps Hsrc Hx Hd Hs Hcp Hl Hst
                   |w x s Hx Hs Hr0 Hv Hsent Hview|x s Hx Hs Hr0 Hv Hview Hsent].
  - destruct p0 as [[c m|c m]|]; [by destruct Hnl|done|]. right.
    rewrite wins_logs, Hsh by done. simpl. lia.
  - assert (opt_b (is_win s0) p0 = false) as E0 by (by destruct Hsrc as [(-> & _)|(c & -> & _)]).
    rewrite E0 in *. simpl in *.
    destruct (view (servers S r) s) as [v|] eqn:Ev; [|destruct (r =? 0) eqn:Er];
      destruct Hst as [Hsent Hview]; rewrite Hview in *.
    + right. lia.
    + destruct (report_selectable S r p0 reps w x d s cp) as [Hu|[Hx1 Hwt]]; try done;
        (destruct (decide (s = s0)) as [<-|Hne];
         [|right; unfold absent in *; rewrite Er in *; destruct (view (servers S r) s0); lia]);
        [by left|right].
      unfold absent in *. rewrite Er, Ev, Hsent, wins_app, (wins_logs r logs) by done.
      rewrite resp_wins by done. rewrite bool_decide_true by done.
      by rewrite (proj2 (Z.eqb_neq x (-1))).
    + right. rewrite Hsent, wins_parent_logs by done. unfold absent. rewrite Er. lia.
  - cbn [opt_b] in *. rewrite is_win_msg in * by done. unfold absent in *.
    rewrite (proj2 (Z.eqb_neq r 0)) in * by lia. rewrite Hsent.
    pose proof (Hw r s false w Hr Hv) as Hwt.
    destruct (decide (s = s0)) as [<-|Hne]; [|right; rewrite resp_wins; try done; lia].
    destruct w as [nc g|p]; [|right; by rewrite resp_wins].
    destruct (decide (connected (servers S r) nc)) as [Hc|Hc]; [right; by rewrite resp_wins|].
    left. exists r, nc, g. split; [apply elem_of_app; by left|by right].
  - destruct (response_expected S r x s Hpend Hr0 Hx Hs) as [w E]; [|by destruct (Hv w)].
    by apply removed_elem in Hrem.
Qed.

Lemma inv_exact_step S r st p0 n0 reps :
  0 <= r < rt_size → effect r (servers S r) st p0 reps → sharp r (servers S r) st p0 reps →
  removed (net S) p0 n0 → (∀ nc, connected st nc → connected (servers S r) nc) →
  inv_waiters S → inv_pending S → inv_origin S →
  inv_exact S → inv_exact (deliver S r st n0 reps).
Proof.
  intros Hr Heff Hsh Hrem Hconn Hw Hpend Horig Hinv s.
  destruct (effect_tokens_eq S r st p0 n0 reps s) as [Hu|Heq]; try done;
    [left; by apply unselectable_step|].
  destruct (Hinv s) as [(r' & nc & x & Hin & Hu)|Htok].
  - left. apply unselectable_step; [done|]. exists r', nc, x. split; [|done]. apply elem_of_app. by left.
  - right. pose proof (tokens_deliver S r st p0 n0 reps s Hrem). lia.
Qed.

Record inv_plain (S : sys) : Prop := mk_inv_plain {
  p_inv : inv S;
  p_no_log : no_log S;
  p_waiters : inv_waiters S;
  p_upward : inv_upward S;
  p_exact : inv_exact S;
}.

Lemma inv_plain_step S S' : step S S' → inv_plain S → inv_plain S'.
Proof.
  intros Hstep [H0 H1 H2 H3 H4].
  pose proof (inv_step S S' Hstep H0) as H0'. destruct H0 as [G1 _ _ G4 G5 _].
  destruct (step_effect S S' Hstep G4)
    as (r & st & p0 & n0 & reps & Hr & -> & Hrem & Heff & Hmd & Hc & Hlf).
  destruct (no_log_step _ _ _ _ _ _ Hr Hrem Hlf H1) as [H1' Hview].
  assert (sharp r (servers S r) st p0 reps) as Hsh.
  { split; [|done]. by apply (Forall_removed _ _ _ _ Hrem (proj2 H1)). }
  constructor; [done|done|..].
  - by eapply inv_waiters_step.
  - by eapply inv_upward_step.
  - by eapply inv_exact_step.
Qed.

Lemma inv_plain_initial S : 0 < rt_size → initial S → no_log S → inv_plain S.
Proof.
  intros Hn H0 Hnl. pose proof (inv_initial S Hn H0) as Hi. destruct H0 as (Hsrv & Hnet & Hans & Hrep).
  assert (∀ r s, 0 <= r < rt_size → known S r s = None) as Hk.
  { intros r s Hr. apply view_no_sites. by apply Hsrv. }
  constructor; try done.
  - intros r s b w Hr. by rewrite Hk.
  - split; [intros c s v Hc; by rewrite Hk by lia|].
    intros r nc s x. rewrite Hrep. intros H. by apply elem_of_nil in H.
  - intros s. right. unfold tokens. rewrite Hnet, Hans, Hk by lia. done.
Qed.

(** In a quiet system the root knows what any rank knows. *)
Lemma quiet_root_knows S r s :
  inv_plain S → net S = [] → 0 <= r < rt_size → is_Some (known S r s) → is_Some (known S 0 s).
Proof.
  intros Hinv Hnet Hr. assert (0 <= r) as H0 by lia. revert Hr.
  revert r H0. apply (Z_lt_induction (λ r, 0 <= r < rt_size → is_Some (known S r s) → _)).
  intros r IH Hr [v Hv]. destruct (decide (r = 0)) as [->|]; [by rewrite Hv|].
  assert (0 < r < rt_size) as Hr' by lia. pose proof (rt_parent_lt r Hr') as Hp.
  destruct (proj1 (p_upward S Hinv) r s v Hr' Hv) as [Hk|Hc].
  - apply (IH (rt_parent r)); [lia|lia|done].
  - rewrite Hnet in Hc. unfold cnt in Hc. simpl in Hc. lia.
Qed.

(** ** What the election guarantees *)

(** C7 Whatever the order of crashes, disconnects and deliveries: at most one
    client of the whole job is told to dump core for a site, and who is told is a
    client that reported that site, with the rank it reported. *)
Theorem exemplar_at_most_one S s :
  0 < rt_size → reachable S →
  (cnt (ans_win s) (answers S) ≤ 1)%nat ∧
  ∀ r nc x, (r, nc, s, x) ∈ answers S → x ≠ -1 → (r, nc, s, x) ∈ reports S.
Proof.
  intros Hn HS. pose proof (reachable_inv S Hn HS) as Hinv. split.
  - pose proof (i_token S Hinv s). unfold tokens in *. lia.
  - intros r nc x. apply (i_origin S Hinv).
Qed.


(** C10 Every report is answered: from any reachable state the messages in flight
    can be delivered to the end, no sequence of deliveries is longer than the weight
    of the messages in flight, and when none is left every report of a client that
    is still connected has its answer. *)
Theorem crash_reports_answered S :
  0 < rt_size → reachable S →
  (∃ S', rtc delivery S S' ∧ net S' = []) ∧
  (∀ k S', nsteps delivery k S S' → Z.of_nat k <= total (net S)) ∧
  (net S = [] → ∀ r nc s x, 0 <= r < rt_size → (r, nc, s, x) ∈ reports S →
     connected (servers S r) nc → ∃ y, (r, nc, s, y) ∈ answers S).
Proof.
  intros Hn HS. split_and!.
  - by apply delivery_drains.
  - intros k S'. by apply delivery_bound.
  - intros Hnet r nc s x Hr Hin Hc. pose proof (reachable_inv S Hn HS) as Hinv.
    destruct (i_answered S Hinv _ _ _ _ Hin Hc) as [|Hk]; [done|].
    pose proof (quiet_resolved S r s Hinv Hnet Hr) as Hq. rewrite Hk in Hq. done.
Qed.

(** C40: No response is unexpected: every response in flight is about a site that
    the rank it is on its way to knows and has not resolved, so
    [handle_crash_response_recv] never returns its error. *)
Theorem crash_response_never_unexpected S c m :
  0 < rt_size → reachable S → 0 < c < rt_size → Down c m ∈ net S →
  snd (handle_crash_response_recv (servers S c) true m) = 0.
Proof.
  intros Hn HS Hc Hin. pose proof (reachable_inv S Hn HS) as Hinv.
  pose proof (proj1 (i_local S Hinv)) as Hok. rewrite Forall_forall in Hok.
  destruct (Hok _ Hin) as (x & s & -> & Hx & Hs).
  destruct (response_expected S c x s (i_pending S Hinv) Hc Hx Hs Hin) as [w Hv].
  pose proof (response_recv_effect (servers S c) _ x s _ (crash_parse_response_pack x s Hx Hs)) as H.
  rewrite Hv in H. apply H.
Qed.

End system.

(** ** A run on three ranks

    The clients of ranks 1 and 2 crash at the same site; rank 1's report reaches
    the root first. *)
Section example.

Definition tree3 : RankTree := Cobo.cobo_rank_tree 3 ltac:(lia).

Definition ex_start : sys :=
  mk_sys (λ r, mk_cstate true false r (lit "node") [mk_client true 7 100 (Some (lit "/bin/app")) None] [] [])
    [] [] [].

Definition ex_key : bytes := crash_build_key (λ _, None) (lit "/bin/app") (lit "libm.so+0x10").

Definition ex_crash (S : sys) (r : Z) : sys :=
  let m := report_msg (40 + r) (40 + r) (lit "libm.so+0x10") None in
  deliver (T := tree3) id S r
    (fst (handle_client_crash_report (λ _, None) (servers S r) 0 5 m)) (net S)
    (accepted_report r 0 (report_accepted (λ _, None) (servers S r) 0 m)).

Definition ex_up (S : sys) (c : Z) : sys :=
  match net S with
  | Up c' m :: n =>
      if c' =? c then
        deliver (T := tree3) id S (rt_parent (RankTree := tree3) c)
          (handle_up id (servers S (rt_parent (RankTree := tree3) c)) c m) n []
      else S
  | _ => S
  end.

Definition ex_down (S : sys) (c : Z) : sys :=
  match net S with
  | Down c' m :: n =>
      if c' =? c then
        deliver (T := tree3) id S c (fst (handle_crash_response_recv (servers S c) true m)) n []
      else S
  | _ => S
  end.

Abbreviation ex_step := (step (T := tree3) id (λ _ _, None)).

Lemma ex_up_steps S c : 0 < c < 3 → rtc ex_step S (ex_up S c).
Proof.
  intros Hc. unfold ex_up. destruct (net S) as [|[c' m|c' m] n] eqn:E; try done.
  destruct (c' =? c) eqn:Ec; [|done]. apply Z.eqb_eq in Ec as ->.
  apply rtc_once. by apply (step_up (T := tree3) id _ S c m [] n).
Qed.

Lemma ex_down_steps S c : 0 < c < 3 → rtc ex_step S (ex_down S c).
Proof.
  intros Hc. unfold ex_down. destruct (net S) as [|[c' m|c' m] n] eqn:E; try done.
  destruct (c' =? c) eqn:Ec; [|done]. apply Z.eqb_eq in Ec as ->.
  apply rtc_once. by apply (step_down (T := tree3) id _ S c m [] n).
Qed.

(** Both crash, then the reports go up. *)
Definition ex_mid : sys := ex_up (ex_crash (ex_crash ex_start 1) 2) 1.
Definition ex_end : sys := ex_down (ex_down (ex_up ex_mid 2) 1) 2.

Lemma ex_crash_step S r :
  0 <= r < 3 → sizes_ok (report_accepted (λ _, None) (servers S r) 0
    (report_msg (40 + r) (40 + r) (lit "libm.so+0x10") None)) → ex_step S (ex_crash S r).
Proof. intros Hr Hs. exact (step_report (T := tree3) id (λ _ _, None) S r 0 5 _ Hr Hs). Qed.

Lemma ex_mid_run : rtc ex_step ex_start ex_mid.
Proof.
  unfold ex_mid. etrans; [|apply ex_up_steps; lia].
  apply rtc_l with (ex_crash ex_start 1); [|apply rtc_once];
    (apply ex_crash_step; [lia|vm_compute; repeat split; reflexivity]).
Qed.

Lemma ex_end_run : rtc ex_step ex_start ex_end.
Proof.
  etrans; [exact ex_mid_run|]. unfold ex_end.
  etrans; [|apply ex_down_steps; lia]. etrans; [|apply ex_down_steps; lia]. apply ex_up_steps. lia.
Qed.

Lemma ex_start_initial : initial (T := tree3) ex_start.
Proof. repeat split. Qed.

Lemma ex_mid_reachable : reachable (T := tree3) id (λ _ _, None) ex_mid.
Proof. exact (ex_intro _ ex_start (conj ex_start_initial ex_mid_run)). Qed.

Lemma ex_end_reachable : reachable (T := tree3) id (λ _ _, None) ex_end.
Proof. exact (ex_intro _ ex_start (conj ex_start_initial ex_end_run)). Qed.

Lemma ex_reports : reports ex_end = [(1, 0%nat, ex_key, 41); (2, 0%nat, ex_key, 42)].
Proof. vm_compute. reflexivity. Qed.

Lemma ex_connected r : r = 1 ∨ r = 2 → connected (servers ex_end r) 0.
Proof. intros [-> | ->]; exists 7; (split; [vm_compute; reflexivity|lia]). Qed.

Lemma ex_quiet : net ex_end = [].
Proof. vm_compute. reflexivity. Qed.

Lemma id_inj (c d : Z) : id c = id d → c = d.
Proof. done. Qed.

Lemma exemplar_at_most_one_witness :
  cnt (ans_win ex_key) (answers ex_end) = 1%nat ∧ (cnt (ans_win ex_key) (answers ex_end) ≤ 1)%nat.
Proof.
  split; [vm_compute; reflexivity|].
  exact (proj1 (exemplar_at_most_one (T := tree3) id id_inj (λ _ _, None) ex_end ex_key
                  eq_refl ex_end_reachable)).
Defined.


Lemma crash_reports_answered_witness : ∃ y, (2, 0%nat, ex_key, y) ∈ answers ex_end.
Proof.
  apply (proj2 (proj2 (crash_reports_answered (T := tree3) id id_inj (λ _ _, None) ex_end
           eq_refl ex_end_reachable)) ex_quiet 2 0%nat ex_key 42).
  - simpl; lia.
  - rewrite ex_reports. right. left.
  - apply ex_connected. auto.
Defined.

Definition ex_response : ldcs_message_t := response_msg (crash_pack 41 ex_key).

Lemma crash_response_never_unexpected_witness :
  snd (handle_crash_response_recv (servers ex_mid 1) true ex_response) = 0.
Proof.
  apply (crash_response_never_unexpected (T := tree3) id id_inj (λ _ _, None) ex_mid 1 ex_response
           eq_refl ex_mid_reachable); [simpl; lia|].
  assert (net ex_mid !! 1%nat = Some (Down 1 ex_response)) as H by (vm_compute; reflexivity).
  exact (list_elem_of_lookup_2 _ _ _ H).
Defined.

End example.
End CrashTree.
