(* ===== verification/Cache.v ===== *)
(** * The file cache of a server

    [ldcs_cache.cc] keeps one entry per file and per directory it has heard of,
    keyed by directory and file name; a directory's key has the empty file name
    and its entry lists the files in it.  [stat_cache.cc] keeps the results of
    [stat], [lstat] and loader queries.  Strings are byte strings without NUL;
    a failing [assert] (or a read of bytes that are not there) is [None]. *)

From Stdlib Require Import Ascii String ZArith Lia.
From stdpp Require Import strings numbers gmap list.
From S2P Require Import Prelude Bytes.

Definition MAX_PATH_LEN : Z := 4096.

Module Cache.

(** ** Data *)

Inductive ldcs_cache_result_t :=
  | LDCS_CACHE_DIR_PARSED_AND_EXISTS
  | LDCS_CACHE_DIR_PARSED_AND_NOT_EXISTS
  | LDCS_CACHE_DIR_NOT_PARSED
  | LDCS_CACHE_FILE_FOUND
  | LDCS_CACHE_FILE_NOT_FOUND
  | LDCS_CACHE_UNKNOWN.

Inductive ldcs_hash_fileobj_t :=
  | LDCS_CACHE_FILEOBJ_DSO
  | LDCS_CACHE_FILEOBJ_FILE
  | LDCS_CACHE_FILEOBJ_EITHER.

(** Directory and file name. *)
Abbreviation file_location_t := (bytes * bytes)%type.

(** [buffer] is the address of the mapped contents, 0 for [NULL]. *)
Record cached_contents_t := mk_contents {
  path : bytes;
  buffer : Z;
  buffer_size : Z;
}.

Definition no_contents : cached_contents_t := mk_contents [] 0 0.

(** [direntries] are pointers to the entries of the files; entries are never
    removed and never change their name, so the file name stands for the pointer. *)
Record entry_t := mk_entry {
  file_contents : cached_contents_t;
  dso_contents : cached_contents_t;
  alias : bytes;
  errcode : Z;
  replication : bool;
  direntries : list bytes;
}.

Definition new_entry : entry_t := mk_entry no_contents no_contents [] 0 false [].

Definition set_errcode (n : Z) (e : entry_t) : entry_t :=
  mk_entry (file_contents e) (dso_contents e) (alias e) n (replication e) (direntries e).
Definition set_alias (a : bytes) (e : entry_t) : entry_t :=
  mk_entry (file_contents e) (dso_contents e) a (errcode e) (replication e) (direntries e).
Definition set_replication (b : bool) (e : entry_t) : entry_t :=
  mk_entry (file_contents e) (dso_contents e) (alias e) (errcode e) b (direntries e).
Definition set_contents (f d : cached_contents_t) (e : entry_t) : entry_t :=
  mk_entry f d (alias e) (errcode e) (replication e) (direntries e).
Definition push_direntry (f : bytes) (e : entry_t) : entry_t :=
  mk_entry (file_contents e) (dso_contents e) (alias e) (errcode e) (replication e)
    (direntries e ++ [f]).

Abbreviation cache_t := (gmap file_location_t entry_t).

(** ** Operations *)

Definition addDirectory (c : cache_t) (dirname : bytes) (exists_ : bool) : cache_t :=
  match c !! (dirname, []) with
  | Some _ => c
  | None => <[(dirname, []) := if exists_ then new_entry else set_errcode (-1) new_entry]> c
  end.

(** The directory must be there: [assert (j != cache.end ())]. *)
Definition addFile (c : cache_t) (dirname filename : bytes) : option cache_t :=
  match c !! (dirname, filename) with
  | Some _ => Some c
  | None =>
      let c1 := <[(dirname, filename) := new_entry]> c in
      match c1 !! (dirname, []) with
      | None => None
      | Some dir => Some (<[(dirname, []) := push_direntry filename dir]> c1)
      end
  end.

Definition ldcs_cache_findDirInCache (c : cache_t) (dirname : bytes) : ldcs_cache_result_t :=
  match c !! (dirname, []) with
  | None => LDCS_CACHE_DIR_NOT_PARSED
  | Some e => if errcode e =? -1 then LDCS_CACHE_DIR_PARSED_AND_NOT_EXISTS
              else LDCS_CACHE_DIR_PARSED_AND_EXISTS
  end.

(** The [switch] on the object type. *)
Definition contents_for (e : entry_t) (objt : ldcs_hash_fileobj_t) : cached_contents_t :=
  match objt with
  | LDCS_CACHE_FILEOBJ_DSO => dso_contents e
  | LDCS_CACHE_FILEOBJ_FILE => file_contents e
  | LDCS_CACHE_FILEOBJ_EITHER =>
      match path (dso_contents e) with [] => file_contents e | _ => dso_contents e end
  end.

(** An empty C++ string is handed out as [NULL]. *)
Definition or_null (s : bytes) : option bytes := match s with [] => None | _ => Some s end.

(** Result, [*localpath], [*errcode]. *)
Definition ldcs_cache_findFileDirInCache (c : cache_t) (filename dirname : bytes)
    (objt : ldcs_hash_fileobj_t) : ldcs_cache_result_t * option bytes * Z :=
  match c !! (dirname, filename) with
  | None => (LDCS_CACHE_FILE_NOT_FOUND, None, 0)
  | Some e => (LDCS_CACHE_FILE_FOUND, or_null (path (contents_for e objt)), errcode e)
  end.

Definition ldcs_cache_getAlias (c : cache_t) (filename dirname : bytes)
    : ldcs_cache_result_t * option bytes :=
  match c !! (dirname, filename) with
  | None => (LDCS_CACHE_FILE_NOT_FOUND, None)
  | Some e => (LDCS_CACHE_FILE_FOUND, or_null (alias e))
  end.

Definition ldcs_cache_isReplicated (c : cache_t) (filename dirname : bytes)
    : ldcs_cache_result_t * bool :=
  match c !! (dirname, filename) with
  | None => (LDCS_CACHE_FILE_NOT_FOUND, false)
  | Some e => (LDCS_CACHE_FILE_FOUND, replication e)
  end.

(** An update of an entry that must exist. *)
Definition update_entry (c : cache_t) (filename dirname : bytes) (f : entry_t → entry_t)
    : ldcs_cache_result_t * cache_t :=
  match c !! (dirname, filename) with
  | None => (LDCS_CACHE_FILE_NOT_FOUND, c)
  | Some e => (LDCS_CACHE_FILE_FOUND, <[(dirname, filename) := f e]> c)
  end.

Definition ldcs_cache_updateAlias (c : cache_t) (filename dirname alias_to : bytes) :=
  update_entry c filename dirname (set_alias alias_to).

Definition ldcs_cache_updateReplication (c : cache_t) (filename dirname : bytes) (r : bool) :=
  update_entry c filename dirname (set_replication r).

Definition clear_path (k : cached_contents_t) : cached_contents_t :=
  mk_contents [] (buffer k) (buffer_size k).

Definition ldcs_cache_updateErrcode (c : cache_t) (filename dirname : bytes) (n : Z) :=
  update_entry c filename dirname (λ e,
    let e1 := set_errcode n e in
    if n =? 0 then e1
    else set_contents (clear_path (file_contents e1)) (clear_path (dso_contents e1)) e1).

Definition ldcs_cache_updateBuffer (c : cache_t) (filename dirname : bytes)
    (localname : option bytes) (buf size : Z) (n : Z) (is_stripped : bool) :=
  update_entry c filename dirname (λ e,
    if negb (n =? 0) then set_errcode n (set_contents no_contents no_contents e)
    else
      let k := mk_contents (default [] localname) buf size in
      set_errcode 0
        (if is_stripped then set_contents (file_contents e) k e
         else set_contents k (dso_contents e) e)).

(** [*buffer] and [*size]; [None] is the result -1. *)
Definition ldcs_cache_get_buffer (c : cache_t) (dirname filename : bytes)
    (objt : ldcs_hash_fileobj_t) : option (Z * Z) :=
  e ← c !! (dirname, filename);
  Some (buffer (contents_for e objt), buffer_size (contents_for e objt)).

(** [addFile] for each name in turn. *)
Fixpoint addFiles (c : cache_t) (dirname : bytes) (names : list bytes) : option cache_t :=
  match names with
  | [] => Some c
  | f :: names' => c1 ← addFile c dirname f; addFiles c1 dirname names'
  end.

(** [d_type] of a directory entry. *)
Inductive d_type := DT_UNKNOWN | DT_DIR | DT_REG | DT_LNK | DT_OTHER.

Definition visible (dent : bytes * d_type) : bool :=
  match snd dent with DT_OTHER => false | _ => true end.

(** The loop over [readdir_r]; [ls] is what [opendir] and [readdir_r] give. *)
Definition lsAndCacheFiles (c : cache_t) (dirname : bytes) (ls : option (list (bytes * d_type)))
    : option cache_t :=
  match ls with
  | None => Some (addDirectory c dirname false)
  | Some l => addFiles (addDirectory c dirname true) dirname (List.map fst (List.filter visible l))
  end.

Definition ldcs_cache_processDirectory (c : cache_t) (dirname : bytes)
    (ls : option (list (bytes * d_type))) : option (ldcs_cache_result_t * cache_t) :=
  match c !! (dirname, []) with
  | Some _ => Some (LDCS_CACHE_DIR_PARSED_AND_EXISTS, c)
  | None => c1 ← lsAndCacheFiles c dirname ls; Some (ldcs_cache_findDirInCache c1 dirname, c1)
  end.

Definition INITIAL_BUFFER_SIZE : Z := 8192.

Definition encode_name (f : bytes) : bytes :=
  match f with [] => le32 0 | _ => le32 (Z.of_nat (length f) + 1) ++ f ++ [NUL] end.

(** [Some None] is the result -1, [None] the failing [assert]. *)
Definition ldcs_cache_encodeDirContents (c : cache_t) (dir : bytes) : option (option bytes) :=
  match c !! (dir, []) with
  | None => Some None
  | Some de =>
      let length_dir := Z.of_nat (length dir) + 1 in
      if 4 + length_dir <? INITIAL_BUFFER_SIZE then
        Some (Some (le32 length_dir ++ dir ++ [NUL] ++ concat (encode_name <$> direntries de)))
      else None
  end.

(** The string that [memcpy (str, buffer + pos, n)] and
    [str[MAX_PATH_LEN] = '\0'] leave in [str]: it must lie in the buffer and be
    terminated. *)
Definition copied_string (b : bytes) (pos : nat) (n : Z) : option bytes :=
  let s := take (Z.to_nat n) (drop pos b) in
  let s1 := if n =? MAX_PATH_LEN + 1 then take (Z.to_nat MAX_PATH_LEN) s ++ [NUL] else s in
  if (0 <? n) && (Z.of_nat (length s) =? n) && has_nul s1 then Some (cstr s1) else None.

Fixpoint decode_names (fuel : nat) (c : cache_t) (dirname b : bytes) (pos : nat) : option cache_t :=
  if (length b <=? pos)%nat then Some c
  else match fuel with
  | O => None
  | S fuel' =>
      let fn_length := rd_i32 b pos in
      if (MAX_PATH_LEN + 1 <? fn_length) || (length b <? pos + 4)%nat then None
      else if fn_length =? 0 then decode_names fuel' c dirname b (pos + 4)
      else
        filename ← copied_string b (pos + 4) fn_length;
        c1 ← addFile c dirname filename;
        decode_names fuel' c1 dirname b (pos + 4 + Z.to_nat fn_length)
  end.

(** The buffer is the payload of the message; the result is the cache and the
    directory's name. *)
Definition ldcs_cache_decodeDirContents (c : cache_t) (b : bytes) : option (cache_t * bytes) :=
  let dn_length := rd_i32 b 0 in
  if (length b <? 4)%nat || (dn_length =? 0) || (MAX_PATH_LEN + 1 <=? dn_length) then None
  else
    dirname ← copied_string b 4 dn_length;
    let pos := (4 + Z.to_nat dn_length)%nat in
    let c1 := addDirectory c dirname (pos <? length b)%nat in
    c2 ← decode_names (length b) c1 dirname b pos;
    Some (c2, dirname).

Definition ldcs_cache_addFileDir (c : cache_t) (dname fname : bytes) : option cache_t :=
  addFile c dname fname.

(** ** The pick-one set *)

Definition ldcs_cache_pickone_get (s : gset bytes) (key : bytes) : bool := bool_decide (key ∈ s).
Definition ldcs_cache_pickone_set (s : gset bytes) (key : bytes) : gset bytes := {[key]} ∪ s.

(** ** The stat cache *)

Inductive metadata_t := metadata_none | metadata_stat | metadata_lstat | metadata_loader.

(** The local file with the result, [None] when the file does not exist. *)
Record stat_cache := mk_stat_cache {
  stat_table : gmap bytes (option bytes);
  lstat_table : gmap bytes (option bytes);
  ldso_table : gmap bytes (option bytes);
}.

(** [std::map::insert] keeps the first entry of a key. *)
Definition map_insert (m : gmap bytes (option bytes)) (k : bytes) (v : option bytes) :=
  match m !! k with Some _ => m | None => <[k := v]> m end.

Definition add_stat_cache (s : stat_cache) (pathname : bytes) (data : option bytes)
    (t : metadata_t) : option stat_cache :=
  match t with
  | metadata_none => None
  | metadata_stat =>
      Some (mk_stat_cache (map_insert (stat_table s) pathname data) (lstat_table s) (ldso_table s))
  | metadata_lstat =>
      Some (mk_stat_cache (stat_table s) (map_insert (lstat_table s) pathname data) (ldso_table s))
  | metadata_loader =>
      Some (mk_stat_cache (stat_table s) (lstat_table s) (map_insert (ldso_table s) pathname data))
  end.

(** [Some None] is the result -1, [None] the failing [assert]. *)
Definition lookup_stat_cache (s : stat_cache) (pathname : bytes) (t : metadata_t)
    : option (option (option bytes)) :=
  match t with
  | metadata_none => None
  | metadata_stat => Some (stat_table s !! pathname)
  | metadata_lstat => Some (lstat_table s !! pathname)
  | metadata_loader => Some (ldso_table s !! pathname)
  end.

#[export] Instance metadata_t_eq_dec : EqDecision metadata_t.
Proof. solve_decision. Defined.
#[export] Instance ldcs_cache_result_t_eq_dec : EqDecision ldcs_cache_result_t.
Proof. solve_decision. Defined.

(** ** The invariant

    Directory entries and files match: a file is in the cache exactly when the
    entry of its directory lists it, and it is listed once. *)

Record cache_wf (c : cache_t) : Prop := mk_cache_wf {
  wf_listed : ∀ d f e, c !! (d, f) = Some e → f ≠ [] →
    ∃ de, c !! (d, []) = Some de ∧ f ∈ direntries de;
  wf_present : ∀ d de f, c !! (d, []) = Some de → f ∈ direntries de →
    f ≠ [] ∧ is_Some (c !! (d, f));
  wf_once : ∀ d de, c !! (d, []) = Some de → NoDup (direntries de);
}.

(** The listed files of a directory. *)
Definition files_of (c : cache_t) (d : bytes) : list bytes :=
  match c !! (d, []) with Some de => direntries de | None => [] end.

Definition dir_known (c : cache_t) (d : bytes) : Prop := is_Some (c !! (d, [])).

Lemma cache_wf_empty : cache_wf ∅.
Proof. constructor; intros *; by rewrite lookup_empty. Qed.

Lemma addDirectory_known c d b : dir_known (addDirectory c d b) d.
Proof.
  unfold dir_known, addDirectory. destruct (c !! (d, [])) eqn:E; [by rewrite E|].
  by rewrite lookup_insert_eq.
Qed.

Lemma addDirectory_other c d b k : k ≠ (d, []) → addDirectory c d b !! k = c !! k.
Proof.
  intros H. unfold addDirectory. destruct (c !! (d, [])); [done|]. by rewrite lookup_insert_ne.
Qed.

Lemma addDirectory_new c d b :
  c !! (d, []) = None → addDirectory c d b !! (d, []) = Some (if b then new_entry else set_errcode (-1) new_entry).
Proof. intros E. unfold addDirectory. rewrite E. by rewrite lookup_insert_eq. Qed.

Lemma addDirectory_wf c d b : cache_wf c → cache_wf (addDirectory c d b).
Proof.
  intros [H1 H2 H3]. destruct (c !! (d, [])) eqn:E.
  { unfold addDirectory. by rewrite E. }
  pose proof (addDirectory_new c d b E) as Hn. pose proof (addDirectory_other c d b) as Ho.
  assert (∀ de f, addDirectory c d b !! (d, []) = Some de → f ∉ direntries de) as Hnil.
  { intros de f Hde. rewrite Hn in Hde. destruct b; injection Hde as <-; simpl; set_solver. }
  constructor.
  - intros d' f e He Hf. rewrite Ho in He by congruence.
    destruct (H1 _ _ _ He Hf) as (de & Hde & Hin). exists de. split; [|done]. rewrite Ho; congruence.
  - intros d' de f Hde Hin. destruct (decide (d' = d)) as [->|Hne]; [by destruct (Hnil de f)|].
    rewrite Ho in Hde by congruence. destruct (H2 _ _ _ Hde Hin) as [Hf Hs]. split; [done|].
    rewrite Ho by congruence. done.
  - intros d' de Hde. destruct (decide (d' = d)) as [->|Hne].
    + rewrite Hn in Hde. destruct b; injection Hde as <-; constructor.
    + rewrite Ho in Hde by congruence. by eapply H3.
Qed.

(** [addFile] in a known directory appends the name once. *)
Lemma addFile_spec c d f :
  cache_wf c → dir_known c d → f ≠ [] →
  ∃ c', addFile c d f = Some c' ∧ cache_wf c' ∧ dir_known c' d ∧
    files_of c' d = files_of c d ++ (if decide (f ∈ files_of c d) then [] else [f]) ∧
    (∀ k, k ≠ (d, []) → k ≠ (d, f) → c' !! k = c !! k) ∧
    ldcs_cache_findDirInCache c' d = ldcs_cache_findDirInCache c d ∧
    (is_Some (c !! (d, f)) → c' = c).
Proof.
  intros Hwf [de Hde] Hf. unfold addFile, files_of. rewrite Hde.
  destruct (c !! (d, f)) as [e|] eqn:Ef.
  { exists c. destruct (wf_listed c Hwf _ _ _ Ef Hf) as (de' & Hde' & Hin).
    rewrite Hde in Hde'. injection Hde' as <-.
    rewrite decide_True by done. rewrite app_nil_r, Hde. split_and!; try done. by exists de. }
  assert (f ∉ direntries de) as Hnin.
  { intros Hin. destruct (wf_present c Hwf _ _ _ Hde Hin) as [_ [? H]]. congruence. }
  rewrite decide_False by done. rewrite lookup_insert_ne by congruence. rewrite Hde.
  set (c' := <[(d, []) := push_direntry f de]> (<[(d, f) := new_entry]> c)).
  assert (c' !! (d, []) = Some (push_direntry f de)) as Hd' by apply lookup_insert_eq.
  assert (∀ k, k ≠ (d, []) → k ≠ (d, f) → c' !! k = c !! k) as Ho.
  { intros k H1 H2. unfold c'. by rewrite !lookup_insert_ne. }
  assert (c' !! (d, f) = Some new_entry) as Hf'.
  { unfold c'. rewrite lookup_insert_ne by congruence. by rewrite lookup_insert_eq. }
  exists c'. split; [done|].
  enough (cache_wf c') as Hwf'.
  { split; [done|]. split; [by eexists|]. split; [by rewrite Hd'|]. split; [done|]. split.
    - unfold ldcs_cache_findDirInCache. by rewrite Hd', Hde.
    - intros [? ?]. congruence. }
  constructor.
  - intros d0 f0 e He Hf0. destruct (decide (d0 = d)) as [->|Hne].
    + exists (push_direntry f de). split; [done|]. simpl. apply elem_of_app.
      destruct (decide (f0 = f)) as [->|Hnf]; [right; left|left].
      rewrite Ho in He by congruence. destruct (wf_listed c Hwf _ _ _ He Hf0) as (de' & Hde' & Hin).
      congruence.
    + rewrite Ho in He by congruence. destruct (wf_listed c Hwf _ _ _ He Hf0) as (de' & Hde' & Hin).
      exists de'. split; [|done]. rewrite Ho by congruence. done.
  - intros d0 de0 f0 Hde0 Hin. destruct (decide (d0 = d)) as [->|Hne].
    + rewrite Hd' in Hde0. injection Hde0 as <-. simpl in Hin. apply elem_of_app in Hin as [Hin|Hin].
      * destruct (wf_present c Hwf _ _ _ Hde Hin) as [Hf0 Hs]. split; [done|].
        rewrite Ho; [done|congruence|]. intros [= ->]. done.
      * apply list_elem_of_singleton in Hin as ->. split; [done|]. by eexists.
    + rewrite Ho in Hde0 by congruence. destruct (wf_present c Hwf _ _ _ Hde0 Hin) as [Hf0 Hs].
      split; [done|]. rewrite Ho by congruence. done.
  - intros d0 de0 Hde0. destruct (decide (d0 = d)) as [->|Hne].
    + rewrite Hd' in Hde0. injection Hde0 as <-. simpl. apply NoDup_app. split_and!.
      * by eapply wf_once.
      * intros x Hx Hx'. apply list_elem_of_singleton in Hx' as ->. done.
      * apply NoDup_singleton.
    + rewrite Ho in Hde0 by congruence. by eapply wf_once.
Qed.

Lemma addFiles_spec c d names :
  cache_wf c → dir_known c d → Forall (λ f, f ≠ []) names →
  ∃ c', addFiles c d names = Some c' ∧ cache_wf c' ∧ dir_known c' d ∧
    (∀ f, f ∈ files_of c' d ↔ f ∈ files_of c d ∨ f ∈ names) ∧
    (NoDup (files_of c d ++ names) → files_of c' d = files_of c d ++ names) ∧
    (∀ k, k ≠ (d, []) → is_Some (c !! k) ∨ fst k ≠ d → c' !! k = c !! k) ∧
    ldcs_cache_findDirInCache c' d = ldcs_cache_findDirInCache c d.
Proof.
  revert c. induction names as [|f names IH]; intros c Hwf Hk Hn.
  { exists c. simpl. rewrite app_nil_r. split_and!; try done. set_solver. }
  apply Forall_cons in Hn as [Hf Hn].
  destruct (addFile_spec c d f Hwf Hk Hf) as (c1 & E1 & Hwf1 & Hk1 & Hfs1 & Ho1 & Hd1 & Hs1).
  destruct (IH c1 Hwf1 Hk1 Hn) as (c2 & E2 & Hwf2 & Hk2 & Hin2 & Hfs2 & Ho2 & Hd2).
  exists c2. cbn [addFiles]. rewrite E1. cbn [mbind option_bind]. split_and!; try done.
  - intros f0. rewrite Hin2, Hfs1. destruct (decide (f ∈ files_of c d)); set_solver.
  - intros Hnd. assert (f ∉ files_of c d) as Hnin.
    { intros H. apply NoDup_app in Hnd as (_ & H' & _). apply (H' f H). left. }
    rewrite decide_False in Hfs1 by done. rewrite Hfs1, <- app_assoc in Hfs2. by apply Hfs2.
  - intros k H1 [H2|H2].
    + destruct (decide (k = (d, f))) as [->|Hne].
      * specialize (Hs1 H2) as ->. apply Ho2; auto.
      * rewrite Ho2; rewrite ?Ho1; auto.
    + assert (k ≠ (d, f)) by (intros ->; done). rewrite Ho2; rewrite ?Ho1; auto.
  - congruence.
Qed.

Lemma wf_unknown c d f : cache_wf c → ¬ dir_known c d → c !! (d, f) = None.
Proof.
  intros Hwf Hk. destruct (c !! (d, f)) as [e|] eqn:E; [|done]. destruct Hk.
  destruct f as [|a f]; [by exists e|].
  destruct (wf_listed c Hwf _ _ _ E) as (de & Hde & _); [done|]. by exists de.
Qed.

(** A file is found exactly when its directory's entry lists it. *)
Lemma found_iff c f d objt :
  cache_wf c → f ≠ [] →
  fst (fst (ldcs_cache_findFileDirInCache c f d objt)) = LDCS_CACHE_FILE_FOUND ↔ f ∈ files_of c d.
Proof.
  intros Hwf Hf. unfold ldcs_cache_findFileDirInCache, files_of.
  destruct (c !! (d, f)) as [e|] eqn:E; simpl.
  - destruct (wf_listed c Hwf _ _ _ E Hf) as (de & -> & Hin). done.
  - split; [done|]. destruct (c !! (d, [])) as [de|] eqn:Ed; [|by intros ?%elem_of_nil].
    intros Hin. destruct (wf_present c Hwf _ _ _ Ed Hin) as [_ [? H]]. congruence.
Qed.

(** The updates keep the directory structure. *)
Lemma update_entry_wf c f d g r c' :
  (∀ e, direntries (g e) = direntries e) → cache_wf c → update_entry c f d g = (r, c') → cache_wf c'.
Proof.
  intros Hg Hwf. unfold update_entry. destruct (c !! (d, f)) as [e|] eqn:E; intros [= <- <-]; [|done].
  assert (∀ k e', <[(d, f) := g e]> c !! k = Some e' →
            ∃ e0, c !! k = Some e0 ∧ direntries e' = direntries e0) as Hback.
  { intros k e' H. destruct (decide (k = (d, f))) as [->|].
    - rewrite lookup_insert_eq in H. injection H as <-. eauto.
    - rewrite lookup_insert_ne in H by done. eauto. }
  assert (∀ k, is_Some (c !! k) → is_Some (<[(d, f) := g e]> c !! k)) as Hfwd.
  { intros k H. apply lookup_insert_is_Some'. by right. }
  constructor.
  - intros d0 f0 e0 H0 Hf0. destruct (Hback _ _ H0) as (e1 & H1 & _).
    destruct (wf_listed c Hwf _ _ _ H1 Hf0) as (de & Hde & Hin).
    destruct (Hfwd (d0, []) ltac:(eauto)) as [de' Hde']. exists de'. split; [done|].
    destruct (Hback _ _ Hde') as (de2 & Hde2 & ->). congruence.
  - intros d0 de f0 Hde Hin. destruct (Hback _ _ Hde) as (de0 & Hde0 & Eq). rewrite Eq in Hin.
    destruct (wf_present c Hwf _ _ _ Hde0 Hin) as [? ?]. split; [done|]. by apply Hfwd.
  - intros d0 de Hde. destruct (Hback _ _ Hde) as (de0 & Hde0 & ->). by eapply wf_once.
Qed.

Lemma updates_wf c f d :
  cache_wf c →
  (∀ a, cache_wf (snd (ldcs_cache_updateAlias c f d a))) ∧
  (∀ b, cache_wf (snd (ldcs_cache_updateReplication c f d b))) ∧
  (∀ n, cache_wf (snd (ldcs_cache_updateErrcode c f d n))) ∧
  (∀ l b s n k, cache_wf (snd (ldcs_cache_updateBuffer c f d l b s n k))).
Proof.
  intros Hwf. split_and!; intros; (eapply update_entry_wf; [|exact Hwf|apply surjective_pairing]);
    intros e; repeat case_match_goal; done.
Qed.

Definition names_ok (names : list bytes) : Prop :=
  Forall (λ f, f ≠ [] ∧ no_nul f = true ∧ Z.of_nat (length f) <= MAX_PATH_LEN) names.

Lemma names_ok_ne names : names_ok names → Forall (λ f, f ≠ []) names.
Proof. intros H. eapply Forall_impl; [exact H|]. simpl. tauto. Qed.

(** Parsing a directory gives exactly the names that [readdir] shows. *)
Lemma process_new c d ls :
  cache_wf c → ¬ dir_known c d →
  match ls with Some l => Forall (λ f, f ≠ []) (List.map fst l) | None => True end →
  ∃ c', ldcs_cache_processDirectory c d ls
          = Some (match ls with Some _ => LDCS_CACHE_DIR_PARSED_AND_EXISTS
                  | None => LDCS_CACHE_DIR_PARSED_AND_NOT_EXISTS end, c') ∧
    cache_wf c' ∧ dir_known c' d ∧
    (∀ f, f ∈ files_of c' d ↔ f ∈ List.map fst (List.filter visible (default [] ls))) ∧
    (∀ k, fst k ≠ d → c' !! k = c !! k).
Proof.
  intros Hwf Hk Hn. unfold ldcs_cache_processDirectory.
  assert (c !! (d, []) = None) as E by (by apply wf_unknown). rewrite E.
  remember (match ls with Some _ => true | None => false end) as b eqn:Hb.
  pose proof (addDirectory_new c d b E) as Ha. pose proof (addDirectory_other c d b) as Ho.
  pose proof (addDirectory_known c d b) as Hk'. pose proof (addDirectory_wf c d b Hwf) as Hwf'.
  assert (files_of (addDirectory c d b) d = []) as Hf by (unfold files_of; rewrite Ha; by destruct b).
  assert (ldcs_cache_findDirInCache (addDirectory c d b) d
          = match ls with Some _ => LDCS_CACHE_DIR_PARSED_AND_EXISTS
            | None => LDCS_CACHE_DIR_PARSED_AND_NOT_EXISTS end) as Hd.
  { unfold ldcs_cache_findDirInCache. rewrite Ha, Hb. by destruct ls. }
  destruct ls as [l|]; simpl in *; subst b.
  - destruct (addFiles_spec _ d (List.map fst (List.filter visible l)) Hwf' Hk')
      as (c2 & -> & Hwf2 & Hk2 & Hin & _ & Ho2 & Hd2).
    { rewrite Forall_forall in *. intros f Hin. apply Hn. rewrite list_elem_of_In, in_map_iff in *.
      destruct Hin as (x & <- & Hx). apply filter_In in Hx as [Hx _]. eauto. }
    exists c2. cbn [mbind option_bind]. rewrite Hd2, Hd. split_and!; try done.
    + intros f. rewrite Hin, Hf. set_solver.
    + intros k Hne. rewrite Ho2; [apply Ho|..]; try (by right); by intros ->.
  - exists (addDirectory c d false). rewrite Hd. split_and!; try done.
    + intros f. rewrite Hf. done.
    + intros k Hne. apply Ho. by intros ->.
Qed.

(** ** The transfer of a directory *)

Lemma copied_name p f t pos n :
  length p = pos → n = Z.of_nat (length f) + 1 → no_nul f = true →
  copied_string (p ++ (f ++ [NUL]) ++ t) pos n = Some f.
Proof.
  intros <- -> Hf. unfold copied_string. rewrite drop_app_length.
  rewrite take_app_exact by (rewrite length_app; simpl; lia).
  assert ((if Z.of_nat (length f) + 1 =? MAX_PATH_LEN + 1
           then take (Z.to_nat MAX_PATH_LEN) (f ++ [NUL]) ++ [NUL] else f ++ [NUL]) = f ++ [NUL]) as ->.
  { destruct (_ =? _) eqn:E; [|done]. bool_to_prop. by rewrite take_app_exact by lia. }
  rewrite length_app. simpl length. rewrite (proj2 (Z.ltb_lt _ _)) by lia.
  rewrite (proj2 (Z.eqb_eq _ _)) by lia. unfold has_nul. rewrite no_nul_app, andb_false_r. simpl.
  by rewrite cstr_app_nul.
Qed.

Lemma encode_name_ok f : f ≠ [] → encode_name f = le32 (Z.of_nat (length f) + 1) ++ f ++ [NUL].
Proof. by destruct f. Qed.

Lemma decode_names_encode names p c d fuel :
  names_ok names → (length names <= fuel)%nat →
  decode_names fuel c d (p ++ concat (encode_name <$> names)) (length p) = addFiles c d names.
Proof.
  revert p c fuel. induction names as [|f names IH]; intros p c fuel Hok Hfuel.
  { rewrite app_nil_r. destruct fuel; simpl; by rewrite Nat.leb_refl. }
  apply Forall_cons in Hok as [(Hf & Hnul & Hlen) Hok]. destruct fuel as [|fuel]; simpl in Hfuel; [lia|].
  rewrite fmap_cons. cbn [concat]. rewrite encode_name_ok by done. cbn [decode_names addFiles].
  set (n := Z.of_nat (length f) + 1). set (rest := concat (encode_name <$> names)).
  unfold MAX_PATH_LEN in *.
  assert (rd_i32 (p ++ (le32 n ++ f ++ [NUL]) ++ rest) (length p) = n) as ->.
  { rewrite <- (app_assoc (le32 n)). apply rd_i32_le32; [done|]. unfold n. lia. }
  assert (length (p ++ (le32 n ++ f ++ [NUL]) ++ rest) = length p + 5 + length f + length rest)%nat as E.
  { rewrite !length_app. unfold le32. rewrite le_encode_length. simpl. lia. }
  rewrite E. rewrite (proj2 (Nat.leb_gt _ _)) by lia. rewrite (proj2 (Z.ltb_ge _ _)) by lia.
  rewrite (proj2 (Nat.ltb_ge _ _)) by lia. rewrite (proj2 (Z.eqb_neq n 0)) by lia. cbn [orb].
  assert (p ++ (le32 n ++ f ++ [NUL]) ++ rest = (p ++ le32 n) ++ (f ++ [NUL]) ++ rest) as ->.
  { by rewrite <- !app_assoc. }
  rewrite copied_name;
    [|rewrite length_app; unfold le32; rewrite le_encode_length; lia|done|done].
  cbn [mbind option_bind]. destruct (addFile c d f) as [c1|]; [|done]. cbn [mbind option_bind].
  rewrite (app_assoc (p ++ le32 n) (f ++ [NUL]) rest).
  assert (length p + 4 + Z.to_nat n = length ((p ++ le32 n) ++ f ++ [NUL]))%nat as ->.
  { rewrite !length_app. unfold le32. rewrite le_encode_length. simpl. lia. }
  apply IH; [done|lia].
Qed.

Lemma length_concat_names names : (length names <= length (concat (encode_name <$> names)))%nat.
Proof.
  induction names as [|f names IH]; [done|]. rewrite fmap_cons. cbn [concat]. rewrite length_app.
  assert (0 < length (encode_name f))%nat; [|simpl; lia].
  destruct f; simpl; rewrite ?length_app; lia.
Qed.

Lemma decode_encoded d names c :
  no_nul d = true → Z.of_nat (length d) < MAX_PATH_LEN → names_ok names →
  ldcs_cache_decodeDirContents c
    (le32 (Z.of_nat (length d) + 1) ++ d ++ [NUL] ++ concat (encode_name <$> names))
  = c2 ← addFiles (addDirectory c d (negb (bool_decide (names = [])))) d names; Some (c2, d).
Proof.
  intros Hd Hlen Hok. unfold ldcs_cache_decodeDirContents, MAX_PATH_LEN in *.
  set (n := Z.of_nat (length d) + 1). set (rest := concat (encode_name <$> names)).
  set (b := le32 n ++ d ++ [NUL] ++ rest).
  assert (rd_i32 b 0 = n) as -> by (unfold b; apply (rd_i32_le32 []); [done|unfold n; lia]).
  assert (length b = 5 + length d + length rest)%nat as E.
  { unfold b, le32. rewrite !length_app, le_encode_length. simpl. lia. }
  rewrite (proj2 (Nat.ltb_ge _ _)) by lia. rewrite (proj2 (Z.eqb_neq n 0)) by lia.
  rewrite (proj2 (Z.leb_gt _ _)) by lia. cbn [orb].
  assert (b = le32 n ++ (d ++ [NUL]) ++ rest) as Eb by (unfold b; by rewrite <- app_assoc).
  rewrite Eb at 1. rewrite copied_name; [|unfold le32; apply le_encode_length|done|done].
  cbn [mbind option_bind].
  assert (4 + Z.to_nat n = length (le32 n ++ d ++ [NUL]))%nat as Epos.
  { rewrite !length_app. unfold le32. rewrite le_encode_length. simpl. lia. }
  assert ((4 + Z.to_nat n <? length b)%nat = negb (bool_decide (names = []))) as ->.
  { rewrite E. unfold rest. destruct names as [|f names].
    - rewrite bool_decide_true by done. apply Nat.ltb_ge. simpl. lia.
    - rewrite bool_decide_false by done. apply Nat.ltb_lt.
      pose proof (length_concat_names (f :: names)). simpl in *. lia. }
  rewrite Epos. assert (b = (le32 n ++ d ++ [NUL]) ++ rest) as -> by (unfold b; by rewrite <- !app_assoc).
  unfold rest. rewrite decode_names_encode; [done|done|].
  rewrite length_app. pose proof (length_concat_names names). lia.
Qed.

(** A directory is parsed as missing exactly when it has no entries. *)
Definition dir_consistent (c : cache_t) (d : bytes) : Prop :=
  files_of c d = [] ↔ ldcs_cache_findDirInCache c d = LDCS_CACHE_DIR_PARSED_AND_NOT_EXISTS.

(** C25 Sending a directory to another server tells it what this one knows: the
    message that [ldcs_cache_encodeDirContents] builds for a known directory is
    accepted by [ldcs_cache_decodeDirContents] on any server that has not heard of
    the directory, and afterwards that server lists the same files, answers the
    same about the directory, and knows the same about everything else as before. *)
Theorem directory_transfer A B d :
  cache_wf A → cache_wf B → dir_known A d → dir_consistent A d → ¬ dir_known B d →
  no_nul d = true → Z.of_nat (length d) < MAX_PATH_LEN → names_ok (files_of A d) →
  ∃ b B', ldcs_cache_encodeDirContents A d = Some (Some b) ∧
    ldcs_cache_decodeDirContents B b = Some (B', d) ∧ cache_wf B' ∧
    files_of B' d = files_of A d ∧
    ldcs_cache_findDirInCache B' d = ldcs_cache_findDirInCache A d ∧
    ∀ k, fst k ≠ d → B' !! k = B !! k.
Proof.
  intros HA HB [de Hde] Hcons HkB Hd Hlen Hok.
  assert (files_of A d = direntries de) as Ef by (unfold files_of; by rewrite Hde).
  rewrite Ef in *. set (b := negb (bool_decide (direntries de = []))).
  assert (B !! (d, []) = None) as EB by (by apply wf_unknown).
  pose proof (addDirectory_new B d b EB) as Ha. pose proof (addDirectory_other B d b) as Ho.
  assert (files_of (addDirectory B d b) d = []) as Hf by (unfold files_of; rewrite Ha; by destruct b).
  destruct (addFiles_spec (addDirectory B d b) d (direntries de)
    (addDirectory_wf B d b HB) (addDirectory_known B d b) (names_ok_ne _ Hok))
    as (c2 & E2 & Hwf2 & _ & _ & Hfs & Ho2 & Hd2).
  eexists _, c2. unfold ldcs_cache_encodeDirContents. rewrite Hde. unfold INITIAL_BUFFER_SIZE, MAX_PATH_LEN in *.
  rewrite (proj2 (Z.ltb_lt _ _)) by lia. split; [done|].
  rewrite decode_encoded by done. fold b. rewrite E2. cbn [mbind option_bind].
  split_and!; try done.
  - rewrite Hfs, Hf; [done|]. rewrite Hf. simpl. exact (wf_once A HA d de Hde).
  - rewrite Hd2. unfold ldcs_cache_findDirInCache at 1. rewrite Ha. unfold dir_consistent in Hcons.
    rewrite Ef in Hcons. unfold b. destruct (decide (direntries de = [])) as [E|E].
    + rewrite bool_decide_true by done. simpl. symmetry. tauto.
    + rewrite bool_decide_false by done. simpl. unfold ldcs_cache_findDirInCache in *. rewrite Hde in *.
      destruct (errcode de =? -1); [tauto|done].
  - intros k Hk. rewrite Ho2; [apply Ho|..]; try (by right); by intros ->.
Qed.

(** C26 What a server answers about files is what the file system shows: after a
    directory is parsed, a file is found in it exactly when [readdir] lists it with
    a type that programs load (not a device, socket or pipe); a directory that
    cannot be opened is reported as missing, with no file in it; nothing is learnt
    about other directories. *)
Theorem parsed_directory_is_faithful c d ls :
  cache_wf c → ¬ dir_known c d →
  match ls with Some l => Forall (λ f, f ≠ []) (List.map fst l) | None => True end →
  ∃ c', ldcs_cache_processDirectory c d ls
          = Some (match ls with Some _ => LDCS_CACHE_DIR_PARSED_AND_EXISTS
                  | None => LDCS_CACHE_DIR_PARSED_AND_NOT_EXISTS end, c') ∧
    cache_wf c' ∧
    (∀ f objt, f ≠ [] →
       fst (fst (ldcs_cache_findFileDirInCache c' f d objt)) = LDCS_CACHE_FILE_FOUND
       ↔ ∃ t, (f, t) ∈ default [] ls ∧ t ≠ DT_OTHER) ∧
    (∀ k, fst k ≠ d → c' !! k = c !! k).
Proof.
  intros Hwf Hk Hn. destruct (process_new c d ls Hwf Hk Hn) as (c' & E & Hwf' & _ & Hin & Ho).
  exists c'. split_and!; try done. intros f objt Hf. rewrite found_iff by done. rewrite Hin.
  rewrite list_elem_of_In, in_map_iff. split.
  - intros ([f' t] & <- & Hx). apply filter_In in Hx as [Hx Hv]. exists t.
    rewrite list_elem_of_In. split; [done|]. by intros ->.
  - intros (t & Hx & Ht). exists (f, t). split; [done|]. apply filter_In. rewrite <- list_elem_of_In.
    split; [done|]. unfold visible. simpl. by destruct t.
Qed.

(** The caches' answers follow the updates: a buffer that is stored is what the
    lookups and [ldcs_cache_get_buffer] return, an error code hides every buffer of
    the file, and no update touches another file's entry. *)
Theorem cache_updates_answer c f d e localname buf size n strip :
  c !! (d, f) = Some e → localname ≠ [] →
  let '(r, c') := ldcs_cache_updateBuffer c f d (Some localname) buf size n strip in
  let objt := if strip then LDCS_CACHE_FILEOBJ_DSO else LDCS_CACHE_FILEOBJ_FILE in
  r = LDCS_CACHE_FILE_FOUND ∧
  (n = 0 → ldcs_cache_findFileDirInCache c' f d objt = (LDCS_CACHE_FILE_FOUND, Some localname, 0) ∧
           ldcs_cache_get_buffer c' d f objt = Some (buf, size)) ∧
  (n ≠ 0 → ∀ objt, ldcs_cache_findFileDirInCache c' f d objt = (LDCS_CACHE_FILE_FOUND, None, n)) ∧
  ∀ k, k ≠ (d, f) → c' !! k = c !! k.
Proof.
  intros E Hl. unfold ldcs_cache_updateBuffer, update_entry. rewrite E. cbn iota zeta.
  split; [done|]. unfold ldcs_cache_findFileDirInCache, ldcs_cache_get_buffer.
  rewrite lookup_insert_eq. split_and!.
  - intros ->. destruct strip; simpl; destruct localname; done.
  - intros Hn. rewrite (proj2 (Z.eqb_neq n 0)) by done. simpl. by intros [].
  - intros k Hk. by rewrite lookup_insert_ne.
Qed.

(** *** Witnesses *)

Definition example_listing : list (bytes * d_type) :=
  [(lit ".", DT_DIR); (lit "..", DT_DIR); (lit "libm.so", DT_REG); (lit "log", DT_OTHER);
   (lit "libc.so", DT_LNK)].

Definition example_cache : cache_t :=
  match ldcs_cache_processDirectory ∅ (lit "/lib") (Some example_listing) with
  | Some (_, c) => c
  | None => ∅
  end.

Lemma empty_unknown d : ¬ dir_known ∅ d.
Proof. intros [e H]. by rewrite lookup_empty in H. Qed.

Lemma example_cache_wf : cache_wf example_cache.
Proof.
  destruct (process_new ∅ (lit "/lib") (Some example_listing) cache_wf_empty (empty_unknown _))
    as (c' & E & Hwf & _); [repeat constructor; done|]. unfold example_cache. by rewrite E.
Qed.

Lemma parsed_directory_is_faithful_witness :
  ∃ c', cache_wf c' ∧ ∃ t, (lit "libm.so", t) ∈ example_listing ∧ t ≠ DT_OTHER ∧
  fst (fst (ldcs_cache_findFileDirInCache c' (lit "libm.so") (lit "/lib") LDCS_CACHE_FILEOBJ_FILE))
  = LDCS_CACHE_FILE_FOUND.
Proof.
  destruct (parsed_directory_is_faithful ∅ (lit "/lib") (Some example_listing) cache_wf_empty
    (empty_unknown _) ltac:(repeat constructor; done)) as (c' & _ & Hwf & Hf & _).
  exists c'. split; [done|]. exists DT_REG.
  assert ((lit "libm.so", DT_REG) ∈ example_listing) as Hin by (vm_compute; do 2 right; left).
  split_and!; [done|done|]. apply Hf; [done|]. by exists DT_REG.
Defined.

Lemma directory_transfer_witness :
  ∃ b B', ldcs_cache_encodeDirContents example_cache (lit "/lib") = Some (Some b) ∧
    ldcs_cache_decodeDirContents ∅ b = Some (B', lit "/lib") ∧
    files_of B' (lit "/lib") = [lit "."; lit ".."; lit "libm.so"; lit "libc.so"].
Proof.
  destruct (directory_transfer example_cache ∅ (lit "/lib")) as (b & B' & H1 & H2 & _ & H3 & _).
  - exact example_cache_wf.
  - exact cache_wf_empty.
  - vm_compute. by eexists.
  - split; intros H; vm_compute in H; congruence.
  - apply empty_unknown.
  - by vm_compute.
  - by vm_compute.
  - vm_compute. repeat constructor; done.
  - exists b, B'. rewrite H3. split_and!; [done|done|by vm_compute].
Defined.

Lemma cache_updates_answer_witness :
  fst (ldcs_cache_updateBuffer example_cache (lit "libm.so") (lit "/lib") (Some (lit "/tmp/0-x")) 4096 10 0 true)
  = LDCS_CACHE_FILE_FOUND.
Proof.
  pose proof (cache_updates_answer example_cache (lit "libm.so") (lit "/lib") new_entry
    (lit "/tmp/0-x") 4096 10 0 true ltac:(by vm_compute) ltac:(done)) as H.
  destruct (ldcs_cache_updateBuffer _ _ _ _ _ _ _ _). apply H.
Defined.

End Cache.
