(* ===== verification/GlobalName.v ===== *)
(** * Local names and the way back to global names

    A server stores a file under a local name that
    [filemngt_calc_localname] makes up from a counter; [global_name.c] keeps the
    way back from the counter's value in the local name to the file's original
    (global) name, so that a client that asks about a local name gets the
    original.  A pointer past the end of a string is [None]. *)

From Stdlib Require Import Ascii String ZArith Lia.
From stdpp Require Import strings numbers gmap list.
From S2P Require Import Prelude Bytes Cache.

Module GlobalName.

(** ** Strings *)

Definition SLASH : ascii := "/"%char.
Definition DASH : ascii := "-"%char.

Definition starts_with (p s : bytes) : bool := bool_decide (take (length p) s = p).

(** [strchr]: the rest of the string from the first [c]. *)
Fixpoint strchr (s : bytes) (c : ascii) : option bytes :=
  match s with
  | [] => None
  | a :: s' => if Ascii.eqb a c then Some s else strchr s' c
  end.

(** [strrchr]: the text before and behind the last [c]. *)
Fixpoint strrchr (s : bytes) (c : ascii) : option (bytes * bytes) :=
  match s with
  | [] => None
  | a :: s' =>
      match strrchr s' c with
      | Some (x, y) => Some (a :: x, y)
      | None => if Ascii.eqb a c then Some ([], s') else None
      end
  end.

Definition isxdigit (c : ascii) : bool :=
  let v := byte_val c in
  ((48 <=? v) && (v <=? 57)) || ((65 <=? v) && (v <=? 70)) || ((97 <=? v) && (v <=? 102)).

Definition xdigit_val (c : ascii) : Z :=
  let v := byte_val c in
  if v <=? 57 then v - 48 else if v <=? 70 then v - 55 else v - 87.

(** [sscanf (s, "%x", &val)] of hexadecimal digits: [strtoul], which stops at the
    largest [unsigned long], stored into an [int]. *)
Definition hex_value (s : bytes) : Z := fold_left (λ n c, 16 * n + xdigit_val c) s 0.
Definition scan_hex (s : bytes) : Z := to_signed 32 (Z.min (hex_value s) (2 ^ 64 - 1)).

(** [%x] of a 32-bit value. *)
Definition hex_char (d : Z) : ascii := byte_of (if d <? 10 then 48 + d else 87 + d).

Fixpoint hex_digits (fuel : nat) (n : Z) (acc : bytes) : bytes :=
  match fuel with
  | O => acc
  | S fuel' =>
      let acc' := hex_char (n mod 16) :: acc in
      if n / 16 =? 0 then acc' else hex_digits fuel' (n / 16) acc'
  end.

Definition print_hex (n : Z) : bytes := hex_digits 8 (wrap32 n) [].

(** ** The state: [global_name.c] and the counter of [filemngt_calc_localname] *)

Record gstate := mk_gstate {
  global_name_array : list (option bytes);
  current_global_name_array_size : Z;
  hiwat_global_name_array_size : Z;
  global_name_array_max_index : Z;
  unique_str_num : Z;
}.

Definition INITIAL_GLOBAL_NAME_ARRAY_SIZE : Z := 10 * 1024.

Definition init_global_name_list : gstate :=
  let n := INITIAL_GLOBAL_NAME_ARRAY_SIZE in
  mk_gstate (replicate (Z.to_nat n) None) n ((n * 8) / 10) 0 0.

(** [int newsize]: the doubling and [newsize * 8] are computed in [int]. *)
Definition grow_global_name_list (st : gstate) : gstate :=
  let newsize := to_signed 32 (current_global_name_array_size st * 2) in
  mk_gstate
    (global_name_array st ++
       replicate (Z.to_nat (newsize - current_global_name_array_size st)) None)
    newsize (Z.quot (to_signed 32 (newsize * 8)) 10) (global_name_array_max_index st) (unique_str_num st).

(** [while (index > hiwat) grow]. *)
Fixpoint grow_until (fuel : nat) (st : gstate) (index : Z) : option gstate :=
  if index <=? hiwat_global_name_array_size st then Some st
  else match fuel with
       | O => None
       | S fuel' => grow_until fuel' (grow_global_name_list st) index
       end.

Section names.
(** [_ldcs_audit_server_cachepath] and [normalized_tmpdir]. *)
Variables cachepath normalized_tmpdir : bytes.

(** The offset of the result in the argument. *)
Definition ldcs_is_a_cachedfile (filename : bytes) : option nat :=
  if starts_with cachepath filename then Some (length cachepath + 1)%nat
  else if starts_with normalized_tmpdir filename then Some (length normalized_tmpdir + 1)%nat
  else None.

(** The digits up to the first dash; [None] is the result -1. *)
Fixpoint index_digits (cnt : nat) (s : bytes) : option bytes :=
  match s with
  | [] => Some []
  | c :: s' =>
      if Ascii.eqb c DASH && (0 <? cnt)%nat then Some []
      else if isxdigit c then rest ← index_digits (cnt + 1) s'; Some (c :: rest)
      else None
  end.

Definition get_global_file_index (file : bytes) : Z :=
  if MAX_PATH_LEN + 1 <=? Z.of_nat (length file) then -1
  else match index_digits 0 file with
       | None | Some [] => -1
       | Some digits => scan_hex digits
       end.

(** [*dpart] and [*index_val]. *)
Definition parse_name (st : gstate) (localpath : bytes) : option (option bytes * Z) :=
  match ldcs_is_a_cachedfile localpath with
  | None => Some (None, -1)
  | Some off =>
      if (length localpath <? off)%nat then None
      else
        let dname :=
          match drop off localpath with
          | a :: _ => if Ascii.eqb a SLASH then drop off localpath else drop (off - 1) localpath
          | [] => drop (off - 1) localpath
          end in
        let fname := match strrchr dname SLASH with Some (_, f) => f | None => dname end in
        match strchr fname DASH with
        | None => Some (Some dname, -1)
        | Some dash =>
            if negb (starts_with (lit "-spindlens-") dash) then Some (Some dname, -1)
            else
              let index := get_global_file_index fname in
              if index <? 0 then Some (Some dname, -1)
              else if 10 * current_global_name_array_size st <? index then Some (Some dname, -1)
              else Some (Some dname, index)
        end
  end.

(** [None] also when the array would be written out of bounds. *)
Definition add_global_name (st : gstate) (pathname localpath : bytes) : option gstate :=
  '(_, index) ← parse_name st localpath;
  if index =? -1 then Some st
  else
    st1 ← grow_until 32 st index;
    let st2 := mk_gstate (global_name_array st1) (current_global_name_array_size st1)
                 (hiwat_global_name_array_size st1)
                 (if global_name_array_max_index st1 <=? index then index
                  else global_name_array_max_index st1) (unique_str_num st1) in
    slot ← global_name_array st2 !! Z.to_nat index;
    match slot with
    | Some _ => Some st2
    | None =>
        Some (mk_gstate (<[Z.to_nat index := Some pathname]> (global_name_array st2))
                (current_global_name_array_size st2) (hiwat_global_name_array_size st2)
                (global_name_array_max_index st2) (unique_str_num st2))
    end.

(** [Some None] is the result [NULL]. *)
Definition lookup_global_name (st : gstate) (localpath : bytes) : option (option bytes) :=
  '(dname, index) ← parse_name st localpath;
  match dname with
  | None => Some None
  | Some d =>
      let fallback := Some (Some (take (Z.to_nat MAX_PATH_LEN) d)) in
      if (0 <=? index) && (index <=? global_name_array_max_index st) then
        slot ← global_name_array st !! Z.to_nat index;
        match slot with Some g => Some (Some g) | None => fallback end
      else fallback
  end.

(** ** Making up local names *)

Inductive calc_local_t :=
  | clt_unknown | clt_stat | clt_lstat | clt_ldso | clt_file | clt_dso | clt_numafile | clt_numadso.

Definition prefix_of (t : calc_local_t) : bytes :=
  lit match t with
      | clt_unknown => "spindlens-unknown"
      | clt_stat => "spindlens-stat"
      | clt_lstat => "spindlens-lstat"
      | clt_ldso => "spindlens-ldso"
      | clt_file => "spindlens-file"
      | clt_dso => "spindlens-dso"
      | clt_numafile => "spindlens-numafile-XXXXXX"
      | clt_numadso => "spindlens-numadso-XXXXXX"
      end.

(** [snprintf] and [strncpy] into a buffer of [MAX_PATH_LEN + 1] bytes. *)
Definition clip (s : bytes) : bytes := take (Z.to_nat MAX_PATH_LEN) s.

Definition endslash : bytes :=
  match strrchr cachepath SLASH with Some (_, []) => [] | _ => [SLASH] end.

(** Directory and file part; [None] is a failing [assert]. *)
Definition split_global (global_name : bytes) : option (bytes * bytes) :=
  match strrchr global_name SLASH with
  | None => Some (lit "unknown_path", clip global_name)
  | Some (d, f) =>
      if (MAX_PATH_LEN + 1 <=? Z.of_nat (length f)) || (MAX_PATH_LEN + 1 <=? Z.of_nat (length d))
      then None else Some (d, f)
  end.

Definition cut_slash (d : bytes) : bytes :=
  match d with a :: d' => if Ascii.eqb a SLASH then d' else d | [] => [] end.

Definition filemngt_calc_localname (st : gstate) (global_name : bytes) (reqtype : calc_local_t)
    : option (gstate * bytes) :=
  '(dirpart, filepart) ← split_global global_name;
  let num := unique_str_num st in
  let filepart1 := clip (print_hex num ++ [DASH] ++ prefix_of reqtype ++ [DASH] ++ filepart) in
  let target := clip (cachepath ++ endslash ++ cut_slash dirpart ++ [SLASH] ++ filepart1) in
  Some (mk_gstate (global_name_array st) (current_global_name_array_size st)
          (hiwat_global_name_array_size st) (global_name_array_max_index st) (wrap32 (num + 1)),
        target).

(** How the handlers use them: [handle_setup_file_buffer], [handle_cache_metadata]
    and [handle_cache_ldso] make up a name and record it at once. *)
Definition name_file (st : gstate) (global_name : bytes) (reqtype : calc_local_t)
    : option (gstate * bytes) :=
  '(st1, localname) ← filemngt_calc_localname st global_name reqtype;
  st2 ← add_global_name st1 global_name localname;
  Some (st2, localname).

Fixpoint name_files (st : gstate) (reqs : list (bytes * calc_local_t)) : option (gstate * list bytes) :=
  match reqs with
  | [] => Some (st, [])
  | (g, t) :: reqs' =>
      '(st1, l) ← name_file st g t;
      '(st2, ls) ← name_files st1 reqs';
      Some (st2, l :: ls)
  end.
End names.

(** ** Facts on strings and hexadecimal numbers *)

Lemma strrchr_none s c : c ∉ s → strrchr s c = None.
Proof.
  induction s as [|a s IH]; [done|]. rewrite not_elem_of_cons. intros [Hne Hs]. simpl.
  rewrite IH by done. destruct (Ascii.eqb_spec a c); [congruence|done].
Qed.

Lemma strrchr_last x c f : c ∉ f → strrchr (x ++ c :: f) c = Some (x, f).
Proof.
  intros Hf. induction x as [|a x IH]; simpl.
  - rewrite strrchr_none by done. by rewrite Ascii.eqb_refl.
  - by rewrite IH.
Qed.

Lemma strrchr_Some s c x f : strrchr s c = Some (x, f) → s = x ++ c :: f ∧ c ∉ f.
Proof.
  revert x. induction s as [|a s IH]; [done|]. intros x. simpl.
  destruct (strrchr s c) as [[x' f']|] eqn:E.
  - intros [= <- <-]. destruct (IH x' eq_refl) as [-> ?]. done.
  - destruct (Ascii.eqb_spec a c) as [->|]; [|done]. intros [= <- <-]. split; [done|].
    clear -E. induction s as [|b s IH]; [set_solver|]. simpl in E.
    destruct (strrchr s c) as [[]|]; [done|]. destruct (Ascii.eqb_spec b c); [done|]. set_solver.
Qed.

Lemma strchr_first x c f : c ∉ x → strchr (x ++ c :: f) c = Some (c :: f).
Proof.
  induction x as [|a x IH]; simpl; [by rewrite Ascii.eqb_refl|].
  rewrite not_elem_of_cons. intros [Hne Hx]. destruct (Ascii.eqb_spec a c); [congruence|auto].
Qed.

Lemma starts_with_app p s : starts_with p (p ++ s) = true.
Proof. unfold starts_with. rewrite take_app_length. by apply bool_decide_eq_true. Qed.

Lemma hex_char_facts d :
  0 <= d < 16 → xdigit_val (hex_char d) = d ∧ isxdigit (hex_char d) = true ∧
  hex_char d ≠ DASH ∧ hex_char d ≠ SLASH.
Proof.
  intros Hd.
  assert (d = 0 ∨ d = 1 ∨ d = 2 ∨ d = 3 ∨ d = 4 ∨ d = 5 ∨ d = 6 ∨ d = 7 ∨ d = 8 ∨ d = 9 ∨
          d = 10 ∨ d = 11 ∨ d = 12 ∨ d = 13 ∨ d = 14 ∨ d = 15) as H by lia.
  destruct_or!; subst d; by vm_compute.
Qed.

Definition is_hex (c : ascii) : Prop := isxdigit c = true ∧ c ≠ DASH ∧ c ≠ SLASH.

Lemma hex_digits_hex fuel n acc : Forall is_hex acc → Forall is_hex (hex_digits fuel n acc).
Proof.
  revert n acc. induction fuel as [|fuel IH]; intros n acc Ha; [done|]. simpl.
  assert (Forall is_hex (hex_char (n mod 16) :: acc)) as H.
  { constructor; [|done]. split_and!; apply hex_char_facts; apply Z.mod_pos_bound; lia. }
  destruct (n / 16 =? 0); auto.
Qed.

Lemma hex_digits_value fuel n acc :
  0 <= n < 16 ^ Z.of_nat fuel →
  fold_left (λ n c, 16 * n + xdigit_val c) (hex_digits fuel n acc) 0
  = fold_left (λ n c, 16 * n + xdigit_val c) acc n.
Proof.
  revert n acc. induction fuel as [|fuel IH]; intros n acc Hn.
  { simpl in *. by replace n with 0 by lia. }
  rewrite Nat2Z.inj_succ, Z.pow_succ_r in Hn by lia. cbn [hex_digits].
  assert (0 <= n mod 16 < 16) as Hm by (apply Z.mod_pos_bound; lia).
  pose proof (Z.div_mod n 16 ltac:(lia)) as Hdm. destruct (n / 16 =? 0) eqn:E; bool_to_prop.
  - cbn [fold_left]. rewrite (proj1 (hex_char_facts _ Hm)). f_equal. lia.
  - rewrite IH by (split; [apply Z.div_pos; lia|apply Z.div_lt_upper_bound; lia]).
    cbn [fold_left]. rewrite (proj1 (hex_char_facts _ Hm)). f_equal. lia.
Qed.

Lemma hex_digits_length fuel n acc :
  (length (hex_digits fuel n acc) <= fuel + length acc)%nat ∧
  ((0 < fuel)%nat → hex_digits fuel n acc ≠ []).
Proof.
  revert n acc. induction fuel as [|fuel IH]; intros n acc; simpl; [split; lia|].
  destruct (n / 16 =? 0); [simpl; split; [lia|done]|].
  destruct (IH (n / 16) (hex_char (n mod 16) :: acc)) as [H1 H2]. simpl in *.
  split; [lia|]. intros _. destruct fuel; [done|]. apply H2. lia.
Qed.

Lemma print_hex_hex n : Forall is_hex (print_hex n).
Proof. apply hex_digits_hex. constructor. Qed.

Lemma print_hex_scan n : 0 <= n < 2 ^ 31 → scan_hex (print_hex n) = n.
Proof.
  intros Hn. unfold scan_hex, print_hex, hex_value, wrap32.
  rewrite hex_digits_value by (change (16 ^ Z.of_nat 8) with (2 ^ 32); apply Z.mod_pos_bound; lia).
  cbn [fold_left]. rewrite Z.mod_small, Z.min_l by lia.
  rewrite <- (Z.mod_small n (2 ^ 32)) at 1 by lia. apply to_signed_small; lia.
Qed.

Lemma index_digits_hex cnt s r :
  Forall is_hex s → (0 < cnt + length s)%nat → index_digits cnt (s ++ DASH :: r) = Some s.
Proof.
  intros Hs. revert cnt. induction Hs as [|c s [Hc [Hd _]] _ IH]; intros cnt Hlen; simpl in *.
  - rewrite (proj2 (Nat.ltb_lt 0 cnt)) by lia. done.
  - destruct (Ascii.eqb_spec c DASH); [congruence|]. simpl. rewrite Hc, IH by lia. done.
Qed.

Lemma hex_no c s : Forall is_hex s → c = DASH ∨ c = SLASH → c ∉ s.
Proof. intros Hs Hc Hin. rewrite Forall_forall in Hs. destruct (Hs c Hin) as (_ & ? & ?). naive_solver. Qed.

Lemma index_of_local n r :
  0 <= n < 2 ^ 31 → Z.of_nat (length (print_hex n ++ DASH :: r)) <= MAX_PATH_LEN →
  get_global_file_index (print_hex n ++ DASH :: r) = n.
Proof.
  intros Hn Hlen. unfold get_global_file_index, MAX_PATH_LEN in *.
  rewrite (proj2 (Z.leb_gt _ _)) by lia.
  destruct (hex_digits_length 8 (wrap32 n) []) as [_ Hne]. fold (print_hex n) in Hne.
  rewrite index_digits_hex;
    [|apply print_hex_hex|destruct (print_hex n); simpl; [by destruct (Hne ltac:(lia))|lia]].
  destruct (print_hex n) eqn:E; [by destruct (Hne ltac:(lia))|]. rewrite <- E. by apply print_hex_scan.
Qed.

(** ** The invariant of the table *)

(** The sizes the array can have while its arithmetic fits into [int]. *)
Definition array_size (k : nat) : Z := 10240 * 2 ^ Z.of_nat k.

Lemma array_size_S k : array_size (S k) = array_size k * 2.
Proof. unfold array_size. rewrite Nat2Z.inj_succ, Z.pow_succ_r by lia. lia. Qed.

Lemma array_size_bound k : (k <= 14)%nat → 10240 <= array_size k <= 167772160.
Proof.
  intros Hk. unfold array_size.
  assert (2 ^ 0 <= 2 ^ Z.of_nat k <= 2 ^ 14) as H by (split; apply Z.pow_le_mono_r; lia).
  change (2 ^ 14) with 16384 in H. change (2 ^ 0) with 1 in H. lia.
Qed.

Record sized (st : gstate) (k : nat) : Prop := mk_sized {
  s_bound : (k <= 14)%nat;
  s_size : current_global_name_array_size st = array_size k;
  s_len : Z.of_nat (length (global_name_array st)) = array_size k;
  s_hiwat : hiwat_global_name_array_size st = array_size k * 8 / 10;
}.

(** The names recorded so far, in the order of their numbers. *)
Record named (st : gstate) (gs : list bytes) : Prop := mk_named {
  n_sized : ∃ k, sized st k;
  n_array : ∃ m, global_name_array st = (Some <$> gs) ++ replicate m None;
  n_max : gs = [] ∨ Z.of_nat (length gs) <= global_name_array_max_index st + 1;
  n_max0 : 0 <= global_name_array_max_index st;
}.

Lemma grow_sized st k :
  (k < 14)%nat → sized st k →
  sized (grow_global_name_list st) (S k) ∧
  ∃ m, global_name_array (grow_global_name_list st) = global_name_array st ++ replicate m None.
Proof.
  intros Hk [_ H1 H2 H3]. pose proof (array_size_bound (S k) ltac:(lia)) as Hb.
  assert (to_signed 32 (current_global_name_array_size st * 2) = array_size (S k)) as Es.
  { rewrite H1, <- array_size_S. apply to_signed_id; lia. }
  split; [|by eexists]. constructor; unfold grow_global_name_list; cbn -[Z.mul Z.quot to_signed array_size].
  - lia.
  - done.
  - rewrite length_app, length_replicate, Nat2Z.inj_add, H2, Es, H1.
    rewrite array_size_S in *. lia.
  - rewrite Es, to_signed_id by lia. apply Z.quot_div_nonneg; lia.
Qed.

Lemma grow_until_sized fuel st k index :
  sized st k → 0 <= index <= 2 ^ 27 → (14 < fuel + k)%nat →
  ∃ st', grow_until fuel st index = Some st' ∧ (∃ k', sized st' k') ∧ index <= hiwat_global_name_array_size st' ∧
    (∃ m, global_name_array st' = global_name_array st ++ replicate m None) ∧
    global_name_array_max_index st' = global_name_array_max_index st ∧ unique_str_num st' = unique_str_num st.
Proof.
  revert st k. induction fuel as [|fuel IH]; intros st k Hs Hi Hf; pose proof (s_bound _ _ Hs).
  { lia. }
  cbn [grow_until]. destruct (index <=? hiwat_global_name_array_size st) eqn:E; bool_to_prop.
  { exists st. split_and!; try done; [by exists k|]. exists O. by rewrite app_nil_r. }
  assert (k ≠ 14)%nat.
  { intros ->. rewrite (s_hiwat _ _ Hs) in E. change (array_size 14 * 8 / 10) with (2 ^ 27) in E. lia. }
  destruct (grow_sized st k ltac:(lia) Hs) as [Hs' [m Hm]].
  destruct (IH _ _ Hs' Hi ltac:(lia)) as (st' & E' & Hk & Hh & [m' Hm'] & Hx & Hu).
  exists st'. split_and!; try done. exists (m + m')%nat. by rewrite Hm', Hm, <- app_assoc, <- replicate_add.
Qed.

Section parsing.
Context (cachepath normalized_tmpdir : bytes).

Lemma parse_local st mid n r :
  0 <= n < 2 ^ 31 → n <= 10 * current_global_name_array_size st →
  starts_with (lit "-spindlens-") (DASH :: r) = true → SLASH ∉ r →
  Z.of_nat (length (print_hex n ++ DASH :: r)) <= MAX_PATH_LEN →
  ∃ d, parse_name cachepath normalized_tmpdir st
         (cachepath ++ mid ++ SLASH :: (print_hex n ++ DASH :: r)) = Some (Some d, n).
Proof.
  intros Hn Hsz Hpre Hr Hlen. unfold parse_name, ldcs_is_a_cachedfile. rewrite starts_with_app.
  set (file := print_hex n ++ DASH :: r) in *.
  assert (SLASH ∉ file) as Hfile.
  { unfold file. rewrite not_elem_of_app, not_elem_of_cons. split_and!; [|done|done].
    apply hex_no; [apply print_hex_hex|by right]. }
  rewrite !length_app. simpl length. rewrite (proj2 (Nat.ltb_ge _ _)) by lia.
  rewrite <- (drop_drop _ 1). rewrite drop_app_length.
  replace (length cachepath + 1 - 1)%nat with (length cachepath) by lia. rewrite drop_app_length.
  match goal with |- context [strrchr ?d SLASH] => set (dname := d) end.
  assert (∃ x, strrchr dname SLASH = Some (x, file)) as [x ->].
  { unfold dname. destruct mid as [|a mid].
    - assert (drop 1 ([] ++ SLASH :: file) = file) as -> by done. exists [].
      destruct file as [|b f']; simpl; [done|].
      destruct (Ascii.eqb_spec b SLASH) as [->|]; [set_solver|]. by apply (strrchr_last []).
    - change (drop 1 ((a :: mid) ++ SLASH :: file)) with (mid ++ SLASH :: file).
      destruct (mid ++ SLASH :: file) as [|b t] eqn:Et; [by destruct mid|].
      destruct (Ascii.eqb b SLASH); [exists mid|exists (a :: mid)];
        [rewrite <- Et; by apply strrchr_last|by apply (strrchr_last (a :: mid))]. }
  exists dname. unfold file at 1. rewrite strchr_first by (apply hex_no; [apply print_hex_hex|by left]).
  rewrite Hpre. cbn [negb]. unfold file. rewrite index_of_local by done.
  by rewrite (proj2 (Z.ltb_ge n 0)), (proj2 (Z.ltb_ge _ n)) by lia.
Qed.
End parsing.

(** ** Names that fit *)

Definition fits (cachepath : bytes) (g : bytes) : Prop :=
  Z.of_nat (length cachepath + length g) + 50 <= MAX_PATH_LEN.

(** The shape of a local name with number [n]. *)
Definition local_shape (cachepath : bytes) (n : Z) (l : bytes) : Prop :=
  ∃ mid r, l = cachepath ++ mid ++ SLASH :: (print_hex n ++ DASH :: r) ∧
    starts_with (lit "-spindlens-") (DASH :: r) = true ∧ (SLASH ∉ r) ∧
    Z.of_nat (length (print_hex n ++ DASH :: r)) <= MAX_PATH_LEN.

Lemma split_global_fits g :
  Z.of_nat (length g) <= MAX_PATH_LEN →
  ∃ d f, split_global g = Some (d, f) ∧ (SLASH ∉ f) ∧ (length d + length f <= length g + 12)%nat.
Proof.
  unfold split_global, MAX_PATH_LEN. intros Hg. destruct (strrchr g SLASH) as [[d f]|] eqn:E.
  - apply strrchr_Some in E as [-> Hf]. rewrite length_app in Hg. simpl in Hg.
    rewrite !(proj2 (Z.leb_gt _ _)) by lia. exists d, f. rewrite length_app. simpl. split_and!; [done|done|lia].
  - exists (lit "unknown_path"), (clip g). unfold clip. split; [done|]. split.
    + intros Hin. apply subseteq_take in Hin. clear Hg.
      induction g as [|a g IH]; [set_solver|]. simpl in E.
      destruct (strrchr g SLASH) as [[]|]; [done|]. destruct (Ascii.eqb_spec a SLASH); [done|].
      apply elem_of_cons in Hin as [Heq|Hin]; [congruence|]. by apply IH.
    + rewrite length_take. change (length (lit "unknown_path")) with 12%nat. lia.
Qed.

Lemma prefix_facts t : (length (prefix_of t) <= 25)%nat ∧ (SLASH ∉ prefix_of t) ∧
  ∃ s, DASH :: prefix_of t = lit "-spindlens-" ++ s.
Proof.
  split_and!; [destruct t; simpl; lia|destruct t; vm_compute; set_solver|].
  exists (drop 10 (prefix_of t)). by destruct t.
Qed.

Lemma clip_id s : Z.of_nat (length s) <= MAX_PATH_LEN → clip s = s.
Proof. intros H. unfold clip. apply take_ge. lia. Qed.

Section naming.
Context (cachepath normalized_tmpdir : bytes).

Lemma calc_localname_shape st g t :
  fits cachepath g → 0 <= unique_str_num st < 2 ^ 31 →
  ∃ l, filemngt_calc_localname cachepath st g t =
         Some (mk_gstate (global_name_array st) (current_global_name_array_size st)
           (hiwat_global_name_array_size st) (global_name_array_max_index st)
           (wrap32 (unique_str_num st + 1)), l) ∧
    local_shape cachepath (unique_str_num st) l.
Proof.
  unfold fits, MAX_PATH_LEN. intros Hfit Hn. set (n := unique_str_num st) in *.
  destruct (split_global_fits g) as (d & f & Es & Hf & Hlen); [unfold MAX_PATH_LEN; lia|].
  destruct (prefix_facts t) as (Hp1 & Hp2 & s & Hp3).
  destruct (hex_digits_length 8 (wrap32 n) []) as [Hh _]. fold (print_hex n) in Hh. simpl in Hh.
  set (r := prefix_of t ++ [DASH] ++ f).
  assert (length r <= 26 + length f)%nat as Hr by (unfold r; rewrite !length_app; simpl; lia).
  assert (length (endslash cachepath) <= 1)%nat as He.
  { unfold endslash. destruct (strrchr cachepath SLASH) as [[? []]|]; simpl; lia. }
  assert (length (cut_slash d) <= length d)%nat as Hc.
  { destruct d as [|a d]; simpl; [lia|]. destruct (Ascii.eqb a SLASH); simpl; lia. }
  assert (length (print_hex n ++ DASH :: r) <= 35 + length f)%nat as Hl.
  { rewrite length_app. simpl. lia. }
  eexists. unfold filemngt_calc_localname. rewrite Es. cbn [mbind option_bind]. fold n. split; [done|].
  exists (endslash cachepath ++ cut_slash d), r. split_and!.
  - change (print_hex n ++ [DASH] ++ prefix_of t ++ [DASH] ++ f) with (print_hex n ++ DASH :: r).
    rewrite (clip_id (print_hex n ++ DASH :: r)) by (unfold MAX_PATH_LEN; lia).
    rewrite clip_id; [by rewrite <- !app_assoc|].
    unfold MAX_PATH_LEN. rewrite !length_app in *. simpl in *. lia.
  - unfold r. change (DASH :: prefix_of t ++ [DASH] ++ f) with ((DASH :: prefix_of t) ++ [DASH] ++ f).
    rewrite Hp3, <- app_assoc. apply starts_with_app.
  - unfold r. rewrite !not_elem_of_app. split_and!; [done|set_solver|done].
  - unfold MAX_PATH_LEN. lia.
Qed.

Lemma lookup_named st gs i g l :
  named st gs → gs !! i = Some g → Z.of_nat i < 2 ^ 27 → local_shape cachepath (Z.of_nat i) l →
  lookup_global_name cachepath normalized_tmpdir st l = Some (Some g).
Proof.
  intros [[k Hs] [m Ha] Hmax Hmax0] Hi Hi27 (mid & r & -> & Hpre & Hr & Hlen).
  assert (i < length gs)%nat as Hlt by (by eapply lookup_lt_Some).
  assert (Z.of_nat i < current_global_name_array_size st).
  { rewrite (s_size _ _ Hs), <- (s_len _ _ Hs), Ha, length_app, length_fmap. lia. }
  destruct (parse_local cachepath normalized_tmpdir st mid (Z.of_nat i) r) as [d E]; try done; try lia.
  unfold lookup_global_name. rewrite E. cbn [mbind option_bind].
  rewrite (proj2 (Z.leb_le 0 _)) by lia. rewrite (proj2 (Z.leb_le _ _)).
  2:{ destruct Hmax as [->|]; simpl in *; lia. }
  cbn [andb]. rewrite Nat2Z.id, Ha, lookup_app_l by (by rewrite length_fmap).
  by rewrite list_lookup_fmap, Hi.
Qed.

Lemma name_file_named st gs g t :
  named st gs → unique_str_num st = Z.of_nat (length gs) → Z.of_nat (length gs) < 2 ^ 27 →
  fits cachepath g →
  ∃ st' l, name_file cachepath normalized_tmpdir st g t = Some (st', l) ∧
    named st' (gs ++ [g]) ∧ unique_str_num st' = Z.of_nat (length gs) + 1 ∧
    local_shape cachepath (Z.of_nat (length gs)) l.
Proof.
  intros [[k Hs] [m Ha] Hmax Hmax0] Hu Hlt Hfit.
  destruct (calc_localname_shape st g t Hfit ltac:(lia)) as (l & E & Hl). rewrite Hu in *.
  set (n := Z.of_nat (length gs)) in *. unfold name_file. rewrite E. cbn [mbind option_bind].
  set (st1 := mk_gstate _ _ _ _ (wrap32 (n + 1))).
  assert (sized st1 k) as Hs1 by (destruct Hs; by constructor).
  assert (wrap32 (n + 1) = n + 1) as Hw by (apply Z.mod_small; lia).
  pose proof (s_len _ _ Hs) as Hlen. rewrite Ha, length_app, length_fmap, length_replicate in Hlen.
  assert (n <= 10 * current_global_name_array_size st1) as Hn10.
  { simpl. rewrite (s_size _ _ Hs), <- Hlen. lia. }
  pose proof Hl as (mid & r & El & Hpre & Hr & Hll).
  destruct (parse_local cachepath normalized_tmpdir st1 mid n r) as [d Ep]; try done; [lia|].
  destruct (grow_until_sized 32 st1 k n Hs1 ltac:(lia) ltac:(pose proof (s_bound _ _ Hs); lia))
    as (st2 & E2 & [k2 Hs2] & Hhi & [m2 Hm2] & Hx2 & Hu2).
  unfold add_global_name. rewrite El, Ep. cbn [mbind option_bind].
  rewrite (proj2 (Z.eqb_neq n (-1))), E2 by lia. cbn [mbind option_bind global_name_array].
  assert (global_name_array st2 = (Some <$> gs) ++ replicate (m + m2) None) as Ha2.
  { rewrite Hm2. simpl. by rewrite Ha, <- app_assoc, <- replicate_add. }
  pose proof (array_size_bound k2 (s_bound _ _ Hs2)).
  assert (0 < m + m2)%nat as Hpos.
  { pose proof (s_len _ _ Hs2) as H2. rewrite Ha2, length_app, length_fmap, length_replicate in H2.
    rewrite (s_hiwat _ _ Hs2) in Hhi. pose proof (Z.div_lt_upper_bound (array_size k2 * 8) 10 (array_size k2)). lia. }
  rewrite Ha2. replace (Z.to_nat n) with (length (Some <$> gs) + 0)%nat
    by (rewrite length_fmap; unfold n; lia).
  rewrite lookup_app_r by lia. rewrite Nat.add_0_r, Nat.sub_diag.
  destruct (m + m2)%nat as [|mm] eqn:Em; [lia|]. cbn [replicate]. simpl lookup. cbn [mbind option_bind].
  eexists _, _. split; [done|]. split; [|split; [simpl; rewrite Hu2; exact Hw|by exists mid, r]].
  assert (<[length (Some <$> gs) := Some g]> ((Some <$> gs) ++ None :: replicate mm None)
          = (Some <$> (gs ++ [g])) ++ replicate mm None) as Eins.
  { replace (length (Some <$> gs)) with (length (Some <$> gs) + 0)%nat by lia.
    rewrite insert_app_r. simpl. by rewrite fmap_app, <- app_assoc. }
  constructor; cbn [global_name_array global_name_array_max_index current_global_name_array_size hiwat_global_name_array_size].
  - exists k2. destruct Hs2 as [B1 B2 B3 B4]. constructor; simpl; try done.
    rewrite length_insert. simpl in B3. by rewrite Ha2 in B3.
  - exists mm. exact Eins.
  - right. rewrite length_app. simpl. destruct (global_name_array_max_index st2 <=? n) eqn:?; bool_to_prop; lia.
  - rewrite Hx2. simpl. destruct (_ <=? _); lia.
Qed.
End naming.

Lemma local_shape_inj cachepath i j l :
  0 <= i < 2 ^ 31 → 0 <= j < 2 ^ 31 → local_shape cachepath i l → local_shape cachepath j l → i = j.
Proof.
  intros Hi Hj (m1 & r1 & E1 & _ & H1 & L1) (m2 & r2 & E2 & _ & H2 & L2).
  assert (∀ n r, SLASH ∉ r → SLASH ∉ print_hex n ++ DASH :: r) as Hno.
  { intros n r Hr. rewrite not_elem_of_app, not_elem_of_cons.
    split_and!; [apply hex_no; [apply print_hex_hex|by right]|done|done]. }
  rewrite E1 in E2. rewrite !(app_assoc cachepath) in E2.
  pose proof (strrchr_last (cachepath ++ m1) SLASH _ (Hno i r1 H1)) as S1.
  pose proof (strrchr_last (cachepath ++ m2) SLASH _ (Hno j r2 H2)) as S2.
  rewrite E2, S2 in S1. injection S1 as _ E.
  rewrite <- (index_of_local i r1 Hi L1), <- (index_of_local j r2 Hj L2). by rewrite E.
Qed.

Lemma name_files_named cachepath normalized_tmpdir reqs st gs :
  named st gs → unique_str_num st = Z.of_nat (length gs) →
  Z.of_nat (length gs + length reqs) <= 2 ^ 27 → Forall (λ r, fits cachepath (fst r)) reqs →
  ∃ st' ls, name_files cachepath normalized_tmpdir st reqs = Some (st', ls) ∧
    named st' (gs ++ (fst <$> reqs)) ∧
    ∀ i, (i < length reqs)%nat → ∃ l, ls !! i = Some l ∧
      local_shape cachepath (Z.of_nat (length gs + i)) l.
Proof.
  revert st gs. induction reqs as [|[g t] reqs IH]; intros st gs Hst Hu Hlen Hf.
  { exists st, []. rewrite app_nil_r. split_and!; try done. simpl. lia. }
  apply Forall_cons in Hf as [Hg Hf]. simpl in Hlen, Hg.
  destruct (name_file_named cachepath normalized_tmpdir st gs g t Hst Hu ltac:(lia) Hg)
    as (st1 & l & E1 & Hst1 & Hu1 & Hl).
  destruct (IH st1 (gs ++ [g])) as (st2 & ls & E2 & Hst2 & Hls); try done.
  { rewrite Hu1, length_app. simpl. lia. }
  { rewrite length_app. simpl. lia. }
  exists st2, (l :: ls). cbn [name_files]. rewrite E1. cbn [mbind option_bind]. rewrite E2.
  cbn [mbind option_bind]. split; [done|]. rewrite <- app_assoc in Hst2. split; [done|].
  intros [|i] Hi; simpl in Hi.
  - exists l. by rewrite Nat.add_0_r.
  - destruct (Hls i ltac:(lia)) as (l' & Hl' & Hs). exists l'. split; [done|].
    rewrite length_app in Hs. simpl in Hs. by replace (length gs + S i)%nat with (length gs + 1 + i)%nat by lia.
Qed.

Lemma init_named : named init_global_name_list [].
Proof.
  constructor.
  - exists O. constructor; [lia|done|by vm_compute|by vm_compute].
  - by eexists.
  - by left.
  - done.
Qed.

(** C29 Every local name leads back to its file.  Whatever files a server stores,
    and under whatever kinds, the local names it makes up are different, the table
    is never written out of bounds, and [lookup_global_name] translates each local
    name into the global name it was made for.  The hypotheses are that paths fit
    into the buffers (50 bytes suffice for what is added) and that at most [2^27]
    names are made up, the point at which the array's [int] arithmetic overflows. *)
Theorem global_names_roundtrip cachepath normalized_tmpdir reqs :
  Z.of_nat (length reqs) <= 2 ^ 27 → Forall (λ r, fits cachepath (fst r)) reqs →
  ∃ st ls, name_files cachepath normalized_tmpdir init_global_name_list reqs = Some (st, ls) ∧
    length ls = length reqs ∧ NoDup ls ∧
    ∀ i g t l, reqs !! i = Some (g, t) → ls !! i = Some l →
      lookup_global_name cachepath normalized_tmpdir st l = Some (Some g).
Proof.
  intros Hlen Hf.
  destruct (name_files_named cachepath normalized_tmpdir reqs init_global_name_list [] init_named)
    as (st & ls & E & Hst & Hls); try done.
  assert (length ls = length reqs) as El.
  { clear -E. revert E. generalize init_global_name_list as st0. revert ls st.
    induction reqs as [|[g t] reqs IH]; intros ls st st0; simpl; [by intros [= _ <-]|].
    destruct (name_file _ _ _ _ _) as [[s1 l]|]; [|done]. cbn [mbind option_bind].
    destruct (name_files _ _ _ _) as [[s2 ls2]|] eqn:E2; [|done]. cbn [mbind option_bind].
    intros [= _ <-]. simpl. f_equal. by eapply IH. }
  exists st, ls. split_and!; try done.
  - apply NoDup_alt. intros i j l Hi Hj.
    assert (i < length reqs)%nat as Hil by (rewrite <- El; by eapply lookup_lt_Some).
    assert (j < length reqs)%nat as Hjl by (rewrite <- El; by eapply lookup_lt_Some).
    destruct (Hls i Hil) as (l1 & H1 & S1). destruct (Hls j Hjl) as (l2 & H2 & S2). simplify_eq.
    simpl in S1, S2. enough (Z.of_nat i = Z.of_nat j) by lia.
    eapply local_shape_inj; [| |exact S1|exact S2]; lia.
  - intros i g t l Hi Hl. assert (i < length reqs)%nat as Hil by (by eapply lookup_lt_Some).
    destruct (Hls i Hil) as (l1 & H1 & S1). simplify_eq. simpl in S1.
    apply (lookup_named cachepath normalized_tmpdir st (fst <$> reqs) i g l); [exact Hst| |lia|exact S1].
    by rewrite list_lookup_fmap, Hi.
Qed.

Definition example_reqs : list (bytes * calc_local_t) :=
  [(lit "/usr/lib/libm.so", clt_dso); (lit "/etc/passwd", clt_stat)].

Lemma global_names_roundtrip_witness :
  ∃ st ls, name_files (lit "/tmp/sp") (lit "/tmp/sp") init_global_name_list example_reqs = Some (st, ls) ∧
    lookup_global_name (lit "/tmp/sp") (lit "/tmp/sp") st
      (lit "/tmp/sp/usr/lib/0-spindlens-dso-libm.so") = Some (Some (lit "/usr/lib/libm.so")).
Proof.
  destruct (global_names_roundtrip (lit "/tmp/sp") (lit "/tmp/sp") example_reqs)
    as (st & ls & E & Hl & _ & H).
  - by vm_compute.
  - repeat constructor; by vm_compute.
  - exists st, ls. split; [exact E|]. apply (H 0%nat _ clt_dso); [done|].
    destruct (name_files (lit "/tmp/sp") (lit "/tmp/sp") init_global_name_list example_reqs)
      as [[st' ls']|] eqn:E'; [|done].
    assert (ls' !! 0%nat = Some (lit "/tmp/sp/usr/lib/0-spindlens-dso-libm.so")) as H0.
    { assert (fmap snd (name_files (lit "/tmp/sp") (lit "/tmp/sp") init_global_name_list example_reqs)
              ≫= (λ l, l !! 0%nat) = Some (lit "/tmp/sp/usr/lib/0-spindlens-dso-libm.so")) as H1
        by (vm_compute; reflexivity).
      by rewrite E' in H1. }
    by injection E as <- <-.
Defined.

End GlobalName.
