(* ===== verification/Pathfn.v ===== *)
(** * Parsing path names

    [pathfn.c] splits the path of a request into directory and file name.  Both
    become keys of the cache and of the requestor lists, so the two functions
    that do it have to agree.  [parseFilenameNoAlloc2] normalises a client's
    path (relative to its working directory); [parseFilenameNoAlloc] splits a
    path that is normalised already.  A write behind the end of a buffer is
    [None]. *)

From Stdlib Require Import Ascii String ZArith Lia.
From stdpp Require Import strings numbers gmap list.
From S2P Require Import Prelude Bytes Cache GlobalName.
Import GlobalName.

Module Pathfn.

(** [strncpy (dst, s, n); dst[n-1] = 0] *)
Definition clip_to (n : Z) (s : bytes) : bytes := take (Z.to_nat (n - 1)) s.

(** File and directory. *)
Definition parseFilenameNoAlloc (name : bytes) (result_size : Z) : bytes * bytes :=
  match strrchr name SLASH with
  | Some (d, f) =>
      (clip_to result_size f, match d with [] => [SLASH] | _ => clip_to result_size d end)
  | None => (clip_to result_size name, [])
  end.

Fixpoint skip_slashes (s : bytes) : bytes :=
  match s with
  | a :: s' => if Ascii.eqb a SLASH then skip_slashes s' else s
  | [] => []
  end.

(** The text up to the next slash, and the rest. *)
Fixpoint span_component (s : bytes) : bytes * bytes :=
  match s with
  | a :: s' =>
      if Ascii.eqb a SLASH then ([], s)
      else let '(c, r) := span_component s' in (a :: c, r)
  | [] => ([], [])
  end.

Definition DOT : bytes := lit ".".

(** The loop over the components; [path_component] has [MAX_PATH_LEN] bytes and
    [dir] has [result_size], terminators included. *)
Fixpoint add_components (fuel : nat) (result_size : Z) (dir name : bytes) : option bytes :=
  match fuel with
  | O => None
  | S fuel' =>
      match skip_slashes name with
      | [] => Some dir
      | s =>
          let '(c, rest) := span_component s in
          if MAX_PATH_LEN <=? Z.of_nat (length c) then None
          else if bool_decide (c = DOT) then add_components fuel' result_size dir rest
          else
            let dir1 := dir ++ c ++ [SLASH] in
            if result_size <=? Z.of_nat (length dir1) then None
            else add_components fuel' result_size dir1 rest
      end
  end.

Definition ends_with_slash (s : bytes) : bool :=
  match strrchr s SLASH with Some (_, []) => true | _ => false end.

(** The end of [parseFilenameNoAlloc2]: split [dir] at its last slash. *)
Definition split_dir (dir : bytes) : bytes * bytes :=
  let dir1 := if (1 <? length dir)%nat && ends_with_slash dir then removelast dir else dir in
  match strrchr dir1 SLASH with
  | Some ([], f) => (f, take 1 dir1)
  | Some (d, f) => (f, d)
  | None => (drop 1 dir1, take 1 dir1)
  end.

(** Result, file and directory; [cwd] is what [readlink] gives for
    [/proc/<pid>/cwd]. *)
Definition parseFilenameNoAlloc2 (name : bytes) (result_size : Z) (cwd : option bytes)
    : option (Z * bytes * bytes) :=
  let start :=
    match name with
    | a :: _ => if Ascii.eqb a SLASH then Some [SLASH] else clip_to result_size <$> cwd
    | [] => clip_to result_size <$> cwd
    end in
  match start with
  | None => Some (-1, [], [])
  | Some d0 =>
      let d1 := if (1 <? length d0)%nat && negb (ends_with_slash d0) then d0 ++ [SLASH] else d0 in
      dir ← add_components (S (length name)) result_size d1 name;
      let '(file, dir2) := split_dir dir in
      Some (0, file, dir2)
  end.

(** The global path that [handle_client_file_request] puts together. *)
Definition global_path (dir file : bytes) : bytes :=
  take (Z.to_nat MAX_PATH_LEN) (dir ++ (if ends_with_slash dir then [] else [SLASH]) ++ file).

(** ** The specification: components *)

(** The components of a path, without empty ones. *)
Fixpoint components (cur : bytes) (s : bytes) : list bytes :=
  match s with
  | [] => match cur with [] => [] | _ => [cur] end
  | a :: s' =>
      if Ascii.eqb a SLASH
      then match cur with [] => [] | _ => [cur] end ++ components [] s'
      else components (cur ++ [a]) s'
  end.

Definition canonical (s : bytes) : list bytes :=
  List.filter (λ c, negb (bool_decide (c = DOT))) (components [] s).

Definition render (cs : list bytes) : bytes := concat (cons SLASH <$> cs).

Definition component_ok (c : bytes) : Prop := c ≠ [] ∧ (SLASH ∉ c) ∧ c ≠ DOT.

Lemma components_skip s : components [] (skip_slashes s) = components [] s.
Proof. induction s as [|a s IH]; [done|]. simpl. destruct (Ascii.eqb a SLASH) eqn:E; simpl; [done|by rewrite E]. Qed.

Lemma components_span cur s :
  components cur s =
    let '(c, r) := span_component s in
    match cur ++ c with [] => [] | w => [w] end ++ components [] r.
Proof.
  revert cur. induction s as [|a s IH]; intros cur.
  { simpl. rewrite !app_nil_r. by destruct cur. }
  simpl. destruct (Ascii.eqb a SLASH) eqn:E.
  - rewrite app_nil_r. cbn [components]. rewrite E. by destruct cur.
  - rewrite IH. destruct (span_component s) as [c r]. by rewrite <- app_assoc.
Qed.

Lemma skip_slashes_head s a t : skip_slashes s = a :: t → a ≠ SLASH.
Proof.
  induction s as [|b s IH]; [done|]. simpl. destruct (Ascii.eqb_spec b SLASH); [done|]. congruence.
Qed.

Lemma skip_slashes_length s : (length (skip_slashes s) <= length s)%nat.
Proof. induction s as [|a s IH]; simpl; [lia|]. destruct (Ascii.eqb a SLASH); simpl; lia. Qed.

Lemma span_component_spec s c r :
  span_component s = (c, r) → s = c ++ r ∧ (SLASH ∉ c) ∧ (r = [] ∨ ∃ t, r = SLASH :: t).
Proof.
  revert c. induction s as [|a s IH]; intros c; simpl.
  { intros [= <- <-]. split_and!; [done|set_solver|by left]. }
  destruct (Ascii.eqb_spec a SLASH) as [->|Ha].
  - intros [= <- <-]. split_and!; [done|set_solver|right; eauto].
  - destruct (span_component s) as [c' r'] eqn:E. intros [= <- <-].
    destruct (IH c' eq_refl) as (-> & Hc & Hr). split_and!; [done|set_solver|done].
Qed.

Lemma components_ok cur s :
  (SLASH ∉ cur) → Forall (λ c, c ≠ [] ∧ (SLASH ∉ c)) (components cur s).
Proof.
  revert cur. induction s as [|a s IH]; intros cur Hcur; simpl.
  { destruct cur; repeat constructor; done. }
  destruct (Ascii.eqb_spec a SLASH) as [->|Ha].
  - apply Forall_app. split; [destruct cur; repeat constructor; done|]. apply IH. set_solver.
  - apply IH. set_solver.
Qed.

Lemma canonical_ok s : Forall component_ok (canonical s).
Proof.
  unfold canonical. pose proof (components_ok [] s ltac:(set_solver)) as H.
  induction H as [|c cs [H1 H2] _ IH]; simpl; [constructor|].
  destruct (bool_decide (c = DOT)) eqn:E; simpl; [done|]. apply bool_decide_eq_false in E.
  constructor; [|done]. done.
Qed.

Definition spell (cs : list bytes) : bytes := concat ((λ c, c ++ [SLASH]) <$> cs).

Lemma spell_render cs : SLASH :: spell cs = render cs ++ [SLASH].
Proof.
  unfold spell, render. induction cs as [|c cs IH]; [done|]. rewrite !fmap_cons. cbn [concat].
  rewrite <- (app_assoc (SLASH :: c)), <- IH. simpl. by rewrite <- app_assoc.
Qed.

Lemma render_app cs ds : render (cs ++ ds) = render cs ++ render ds.
Proof. unfold render. by rewrite fmap_app, concat_app. Qed.

Lemma canonical_step s a t c r :
  skip_slashes s = a :: t → span_component (a :: t) = (c, r) →
  c ≠ [] ∧ canonical s = (if bool_decide (c = DOT) then [] else [c]) ++ canonical r.
Proof.
  intros Es Ec. pose proof (skip_slashes_head _ _ _ Es) as Ha.
  assert (c ≠ []) as Hc.
  { intros ->. simpl in Ec. destruct (Ascii.eqb_spec a SLASH); [done|].
    destruct (span_component t). congruence. }
  split; [done|]. unfold canonical. rewrite <- (components_skip s), Es, components_span, Ec.
  simpl. destruct c as [|b c]; [done|]. simpl. destruct (bool_decide (b :: c = DOT)); done.
Qed.

Lemma add_components_spec fuel n dir s :
  (length s < fuel)%nat → Z.of_nat (length s) <= MAX_PATH_LEN - 1 →
  skip_slashes s = [] ∨ Z.of_nat (length dir + length (skip_slashes s)) + 2 <= n →
  add_components fuel n dir s = Some (dir ++ spell (canonical s)).
Proof.
  revert dir s. induction fuel as [|fuel IH]; intros dir s Hf Hlen Hn; [lia|]. cbn [add_components].
  destruct (skip_slashes s) as [|a t] eqn:Es.
  { unfold canonical. rewrite <- components_skip, Es. simpl. by rewrite app_nil_r. }
  destruct (span_component (a :: t)) as [c r] eqn:Ec.
  destruct (canonical_step s a t c r Es Ec) as [Hc ->].
  destruct (span_component_spec _ _ _ Ec) as (Eat & _ & Hr).
  pose proof (skip_slashes_length s) as Hsk. rewrite Es, Eat, length_app in Hsk.
  destruct Hn as [Hn|Hn]; [done|]. rewrite Eat, length_app in Hn.
  assert (0 < length c)%nat by (destruct c; simpl; [done|lia]).
  rewrite (proj2 (Z.leb_gt _ _)) by lia.
  assert (skip_slashes r = [] ∨ (length (skip_slashes r) + 1 <= length r)%nat) as Hr'.
  { destruct Hr as [->|[u ->]]; [by left|right]. simpl. pose proof (skip_slashes_length u). lia. }
  destruct (bool_decide (c = DOT)).
  - rewrite IH; [done|lia|lia|]. destruct Hr'; [by left|right; lia].
  - rewrite (proj2 (Z.leb_gt _ _)) by (rewrite !length_app; simpl; lia).
    rewrite IH; [by rewrite <- app_assoc|lia|lia|].
    destruct Hr'; [by left|right]. rewrite !length_app. simpl. lia.
Qed.

Lemma ends_slash x : ends_with_slash (x ++ [SLASH]) = true.
Proof. unfold ends_with_slash. by rewrite strrchr_last by set_solver. Qed.

Lemma ends_no_slash x a : a ≠ SLASH → ends_with_slash (x ++ [a]) = false.
Proof.
  intros Ha. unfold ends_with_slash. destruct (strrchr (x ++ [a]) SLASH) as [[d [|b f]]|] eqn:E; try done.
  apply strrchr_Some in E as [E _]. by apply app_inj_tail in E as [_ ->].
Qed.

(** Directory and file of a list of components. *)
Definition dir_of (cs : list bytes) : bytes :=
  match render (removelast cs) with [] => [SLASH] | d => d end.
Definition file_of (cs : list bytes) : bytes := List.last cs [].

Lemma split_dir_spec cs :
  Forall component_ok cs → split_dir (SLASH :: spell cs) = (file_of cs, dir_of cs).
Proof.
  intros Hok. destruct cs as [|c cs] using rev_ind; [done|]. clear IHcs.
  apply Forall_app in Hok as [_ Hc]. apply Forall_cons in Hc as [(Hc & Hs & _) _].
  unfold split_dir. rewrite spell_render, ends_slash, render_app.
  assert (render [c] = SLASH :: c) as -> by (unfold render; simpl; by rewrite app_nil_r).
  rewrite (proj2 (Nat.ltb_lt _ _)) by (rewrite !length_app; destruct c; simpl; [done|lia]). cbn [andb].
  rewrite removelast_last, strrchr_last by done. unfold file_of, dir_of.
  rewrite last_last, removelast_last. by destruct (render cs).
Qed.

Lemma parse2_absolute name n cwd :
  (∃ s, name = SLASH :: s) → Z.of_nat (length name) <= MAX_PATH_LEN - 1 →
  Z.of_nat (length (skip_slashes name)) + 3 <= n →
  parseFilenameNoAlloc2 name n cwd = Some (0, file_of (canonical name), dir_of (canonical name)).
Proof.
  intros [s ->] Hlen Hn. unfold parseFilenameNoAlloc2. rewrite Ascii.eqb_refl.
  match goal with |- context [add_components _ _ ?d _] => change d with [SLASH] end.
  rewrite add_components_spec; [|lia|done|right; simpl in *; lia]. cbn [mbind option_bind].
  change ([SLASH] ++ spell (canonical (SLASH :: s))) with (SLASH :: spell (canonical (SLASH :: s))).
  by rewrite split_dir_spec by apply canonical_ok.
Qed.

Lemma components_render cs cur :
  Forall component_ok cs → components cur (render cs) = match cur with [] => [] | _ => [cur] end ++ cs.
Proof.
  intros Hok. revert cur. induction Hok as [|c cs (Hc & Hs & _) _ IH]; intros cur.
  { simpl. by rewrite app_nil_r. }
  change (render (c :: cs)) with (SLASH :: (c ++ render cs)). cbn [components]. rewrite Ascii.eqb_refl. f_equal.
  assert (∀ k, components k (c ++ render cs) = components (k ++ c) (render cs)) as ->.
  { clear -Hs. induction c as [|a c IHc]; intros k; [by rewrite app_nil_r|]. simpl.
    apply not_elem_of_cons in Hs as [Ha Hs]. destruct (Ascii.eqb_spec a SLASH); [congruence|].
    rewrite IHc by done. by rewrite <- app_assoc. }
  rewrite IH. by destruct c.
Qed.

Lemma canonical_render cs : Forall component_ok cs → canonical (render cs) = cs.
Proof.
  intros Hok. unfold canonical. rewrite components_render by done. simpl.
  induction Hok as [|c cs (_ & _ & Hd) _ IH]; [done|]. simpl. rewrite bool_decide_false by done. simpl. by f_equal.
Qed.

Lemma render_removelast_last cs :
  cs ≠ [] → render cs = render (removelast cs) ++ SLASH :: file_of cs.
Proof.
  intros H. destruct cs as [|c cs _] using rev_ind; [done|]. rewrite removelast_last, render_app.
  unfold file_of. rewrite last_last. unfold render. simpl. by rewrite app_nil_r.
Qed.

Lemma render_end cs : Forall component_ok cs → cs ≠ [] → ends_with_slash (render cs) = false.
Proof.
  intros Hok Hne. destruct cs as [|c cs _] using rev_ind; [done|]. rewrite render_app.
  apply Forall_app in Hok as [_ Hok]. apply Forall_cons in Hok as [(Hc & Hs & _) _].
  assert (render [c] = SLASH :: c) as -> by (unfold render; simpl; by rewrite app_nil_r).
  destruct c as [|b c _] using rev_ind; [done|].
  change (SLASH :: c ++ [b]) with ((SLASH :: c) ++ [b]). rewrite app_assoc. apply ends_no_slash. set_solver.
Qed.

Lemma global_path_render cs :
  Forall component_ok cs → cs ≠ [] → Z.of_nat (length (render cs)) <= MAX_PATH_LEN →
  global_path (dir_of cs) (file_of cs) = render cs.
Proof.
  intros Hok Hne Hlen. unfold global_path. rewrite take_ge.
  2:{ rewrite (render_removelast_last cs Hne), length_app in Hlen. simpl in Hlen. unfold dir_of.
      destruct (render (removelast cs)) as [|a d] eqn:E; rewrite !length_app; simpl; [lia|].
      destruct (ends_with_slash (a :: d)); simpl in *; lia. }
  rewrite (render_removelast_last cs Hne). unfold dir_of.
  destruct (render (removelast cs)) as [|a d] eqn:E; [done|].
  assert (ends_with_slash (a :: d) = false) as ->; [|done].
  rewrite <- E. apply render_end; [|by intros E0; rewrite E0 in E].
  destruct cs as [|c cs _] using rev_ind; [done|]. rewrite removelast_last. by apply Forall_app in Hok as [Hok _].
Qed.

Lemma parse_render cs n :
  Forall component_ok cs → cs ≠ [] → Z.of_nat (length (render cs)) <= n - 1 →
  parseFilenameNoAlloc (render cs) n = (file_of cs, dir_of cs).
Proof.
  intros Hok Hne Hlen. unfold parseFilenameNoAlloc.
  rewrite (render_removelast_last cs Hne) in *. rewrite length_app in Hlen. simpl in Hlen.
  rewrite strrchr_last.
  2:{ destruct cs as [|c cs _] using rev_ind; [done|]. unfold file_of. rewrite last_last.
      apply Forall_app in Hok as [_ Hok]. apply Forall_cons in Hok as [(_ & Hs & _) _]. done. }
  unfold clip_to, dir_of. rewrite (take_ge (file_of cs)) by lia.
  destruct (render (removelast cs)) as [|a d]; [done|]. by rewrite take_ge by lia.
Qed.

Lemma render_length cs : length (render cs) = (length (spell cs))%nat.
Proof.
  pose proof (f_equal length (spell_render cs)) as H. rewrite length_app in H. simpl in H. lia.
Qed.

Lemma spell_length s : (length (spell (canonical s)) <= length (skip_slashes s) + 1)%nat.
Proof.
  remember (length s) as n eqn:Hn. revert s Hn. induction (lt_wf n) as [n _ IH]. intros s ->.
  destruct (skip_slashes s) as [|a t] eqn:Es.
  { unfold canonical. rewrite <- components_skip, Es. simpl. lia. }
  destruct (span_component (a :: t)) as [c r] eqn:Ec.
  destruct (canonical_step s a t c r Es Ec) as [Hc ->].
  destruct (span_component_spec _ _ _ Ec) as (Eat & _ & Hr).
  pose proof (skip_slashes_length s) as Hsk. rewrite Es in Hsk. rewrite Eat, length_app in *.
  assert (0 < length c)%nat by (destruct c; simpl; [done|lia]).
  pose proof (IH (length r) ltac:(lia) r eq_refl) as IHr.
  assert (length (spell (canonical r)) <= length r)%nat as IHr'.
  { destruct Hr as [->|[u ->]]; [done|]. simpl in *. pose proof (skip_slashes_length u). lia. }
  destruct (bool_decide (c = DOT)); simpl; [lia|]. unfold spell in *. rewrite fmap_cons. cbn [concat].
  rewrite !length_app. simpl. lia.
Qed.

(** A path relative to the directory [base]. *)
Lemma parse2_relative name n base :
  Forall component_ok base → (∀ s, name ≠ SLASH :: s) → Z.of_nat (length name) <= MAX_PATH_LEN - 1 →
  Z.of_nat (length (render base) + length name) + 4 <= n →
  parseFilenameNoAlloc2 name n (Some match base with [] => [SLASH] | _ => render base end)
  = let cs := base ++ canonical name in Some (0, file_of cs, dir_of cs).
Proof.
  intros Hok Hname Hlen Hn. unfold parseFilenameNoAlloc2.
  set (start := match base with [] => [SLASH] | _ => render base end).
  assert (∀ r, match name with
    | [] => clip_to n <$> Some start
    | a :: _ => if Ascii.eqb a SLASH then Some [SLASH] else clip_to n <$> Some start end = r →
    r = Some start) as Hstart.
  { assert (clip_to n start = start) as Eclip.
    { unfold clip_to. apply take_ge. unfold start. destruct base; [simpl in *; lia|lia]. }
    intros r <-. cbn. rewrite Eclip. destruct name as [|a s]; [done|].
    destruct (Ascii.eqb_spec a SLASH) as [-> | _]; [by destruct (Hname s)|done]. }
  rewrite (Hstart _ eq_refl). clear Hstart.
  assert ((if (1 <? length start)%nat && negb (ends_with_slash start) then start ++ [SLASH] else start)
    = SLASH :: spell base) as ->.
  { unfold start. destruct base as [|c base]; [done|]. rewrite render_end by done. cbn [negb].
    rewrite andb_true_r, (proj2 (Nat.ltb_lt _ _)); [by rewrite spell_render|].
    apply Forall_cons in Hok as [(Hc & _) _]. unfold render. simpl. destruct c; [done|]. simpl. lia. }
  pose proof (skip_slashes_length name). pose proof (render_length base).
  rewrite add_components_spec; [|lia|done|right; simpl; lia]. cbn [mbind option_bind].
  assert ((SLASH :: spell base) ++ spell (canonical name) = SLASH :: spell (base ++ canonical name)) as ->.
  { unfold spell. rewrite fmap_app, concat_app. done. }
  rewrite split_dir_spec; [done|]. apply Forall_app. split; [done|apply canonical_ok].
Qed.

(** C31 The two parsers agree.  For an absolute path that fits, [parseFilenameNoAlloc2]
    gives the directory and the file of the path without empty and [.] components; the
    global path that the server puts together from them is that normalised path; and
    both parsers take the global path apart into the same directory and file, so the
    client's query and the messages between servers use the same keys. *)
Theorem parsers_agree name cwd :
  (∃ s, name = SLASH :: s) → Z.of_nat (length name) + 2 <= MAX_PATH_LEN → canonical name ≠ [] →
  let cs := canonical name in
  parseFilenameNoAlloc2 name MAX_PATH_LEN cwd = Some (0, file_of cs, dir_of cs) ∧
  global_path (dir_of cs) (file_of cs) = render cs ∧
  parseFilenameNoAlloc (render cs) MAX_PATH_LEN = (file_of cs, dir_of cs) ∧
  parseFilenameNoAlloc2 (render cs) MAX_PATH_LEN cwd = Some (0, file_of cs, dir_of cs).
Proof.
  intros [s ->] Hlen Hne cs. pose proof (canonical_ok (SLASH :: s)) as Hok. fold cs in Hok, Hne.
  pose proof (spell_length (SLASH :: s)) as Hsp. fold cs in Hsp. rewrite <- render_length in Hsp.
  assert (skip_slashes (SLASH :: s) = skip_slashes s) as Esk by done. rewrite Esk in Hsp.
  pose proof (skip_slashes_length s) as Hsk. simpl length in Hlen.
  split_and!.
  - apply parse2_absolute; [eauto|simpl; lia|rewrite Esk; lia].
  - apply global_path_render; [done|done|lia].
  - apply parse_render; [done|done|lia].
  - rewrite <- (canonical_render cs Hok) at 2 3. apply parse2_absolute.
    + destruct cs as [|c cs']; [done|]. exists (c ++ render cs'). done.
    + lia.
    + assert (length (skip_slashes (render cs)) + 1 <= length (render cs))%nat; [|lia].
      destruct cs as [|c cs']; [done|]. change (render (c :: cs')) with (SLASH :: (c ++ render cs')).
      simpl. pose proof (skip_slashes_length (c ++ render cs')). lia.
Qed.

(** A path as long as the system allows overflows the buffer: for the longest
    absolute path, 4095 bytes in one component, [parseFilenameNoAlloc2] writes behind
    the end of the [MAX_PATH_LEN] bytes that its callers give it, because the loop
    never looks at [result_size]. *)
Theorem longest_path_overflows :
  let name := SLASH :: replicate 4094 "x"%char in
  Z.of_nat (length name) = MAX_PATH_LEN - 1 ∧ parseFilenameNoAlloc2 name MAX_PATH_LEN None = None.
Proof. split; vm_compute; reflexivity. Qed.

Lemma parsers_agree_witness :
  let name := lit "/usr//lib/./libm.so" in
  parseFilenameNoAlloc2 name MAX_PATH_LEN None = Some (0, lit "libm.so", lit "/usr/lib").
Proof.
  pose proof (parsers_agree (lit "/usr//lib/./libm.so") None) as H. cbv zeta in *.
  destruct H as [H _]; [by eexists|by vm_compute|by vm_compute|].
  etransitivity; [exact H|by vm_compute].
Defined.

End Pathfn.
