(* ===== verification/Parseloc.v ===== *)
(** * Locations, local prefixes and the cache path that all servers agree on

    [parseloc.c] expands the locations that the user gives (escapes, environment
    variables, [$NUMBER]), splits colon-separated prefix lists, decides which
    candidate cache paths work on a node, and picks the one that works on all.
    The environment and the file system are parameters. *)

From Stdlib Require Import Ascii String ZArith Lia.
From stdpp Require Import strings numbers gmap list.
From S2P Require Import Prelude Bytes Cache GlobalName.
Import GlobalName.

Module Parseloc.

Definition COLON : ascii := ":"%char.
Definition DOLLAR : ascii := "$"%char.
Definition ESCAPE : ascii := byte_of 92.

Definition is_envvar_char (c : ascii) : bool :=
  let v := byte_val c in
  ((97 <=? v) && (v <=? 122)) || ((65 <=? v) && (v <=? 90)) || (v =? 95).

(** The C escapes; any other character stands for itself. *)
Definition unescape (c : ascii) : ascii :=
  if Ascii.eqb c "a" then byte_of 7 else if Ascii.eqb c "b" then byte_of 8
  else if Ascii.eqb c "f" then byte_of 12 else if Ascii.eqb c "n" then byte_of 10
  else if Ascii.eqb c "r" then byte_of 13 else if Ascii.eqb c "t" then byte_of 9
  else if Ascii.eqb c "v" then byte_of 11 else c.

Fixpoint span_envvar (s : bytes) : bytes * bytes :=
  match s with
  | a :: s' =>
      if is_envvar_char a then let '(v, r) := span_envvar s' in (a :: v, r) else ([], s)
  | [] => ([], [])
  end.

(** [%lx] of a 64-bit value. *)
Definition print_lx (n : Z) : bytes := hex_digits 16 (wrap64 n) [].

(** ** Expansion *)

Inductive located :=
  | Located (s : bytes)     (** the expanded location *)
  | Failed                  (** [NULL], with a message *)
  | Overrun.                (** the terminator does not fit *)

Section expand.
Variable getenv : bytes → option bytes.
Variable number : Z.

Definition env_value (envvar : bytes) : option bytes :=
  if bool_decide (envvar = lit "NUMBER") then Some (print_lx number) else getenv envvar.

(** The loop; [newloc] is the text so far, [j] its length. *)
Fixpoint expand (fuel : nat) (print_on_error is_escaped : bool) (loc newloc : bytes) : located :=
  match fuel with
  | O => Failed
  | S fuel' =>
      match loc with
      | [] => if MAX_PATH_LEN <? Z.of_nat (length newloc) then Overrun else Located newloc
      | c :: loc' =>
          if MAX_PATH_LEN <=? Z.of_nat (length newloc) then Failed
          else if is_escaped then expand fuel' print_on_error false loc' (newloc ++ [unescape c])
          else if Ascii.eqb c ESCAPE then expand fuel' print_on_error true loc' newloc
          else if Ascii.eqb c DOLLAR then
            let '(envvar, rest) := span_envvar loc' in
            if MAX_PATH_LEN <? Z.of_nat (length envvar) then Failed
            else match env_value envvar with
                 | None => if print_on_error then Failed else Located []
                 | Some v =>
                     if MAX_PATH_LEN <? Z.of_nat (length v) + Z.of_nat (length newloc) then Failed
                     else expand fuel' print_on_error false rest (newloc ++ v)
                 end
          else expand fuel' print_on_error false loc' (newloc ++ [c])
      end
  end.

Definition parse_location_impl (loc : bytes) (print_on_error : bool) : located :=
  expand (S (length loc)) print_on_error false loc [].

Definition parse_location (loc : bytes) : located := parse_location_impl loc true.
Definition parse_location_noerr (loc : bytes) : located := parse_location_impl loc false.

(** ** Colon-separated prefixes *)

Fixpoint skip_colons (s : bytes) : bytes :=
  match s with
  | a :: s' => if Ascii.eqb a COLON then skip_colons s' else s
  | [] => []
  end.

Fixpoint span_prefix (s : bytes) : bytes * bytes :=
  match s with
  | a :: s' => if Ascii.eqb a COLON then ([], s) else let '(c, r) := span_prefix s' in (a :: c, r)
  | [] => ([], [])
  end.

Fixpoint split_prefixes (fuel : nat) (s : bytes) : list bytes :=
  match fuel with
  | O => []
  | S fuel' =>
      match skip_colons s with
      | [] => []
      | s1 => let '(c, r) := span_prefix s1 in c :: split_prefixes fuel' r
      end
  end.

(** [NULL] ends the array, so a prefix that does not expand ends the list of
    those that [is_local_prefix] sees. *)
Fixpoint until_null (l : list located) : list bytes :=
  match l with
  | Located s :: l' => s :: until_null l'
  | _ => []
  end.

Definition parse_colonsep_prefixes (colonsep_list : bytes) : list bytes :=
  until_null (List.map parse_location_noerr (split_prefixes (S (length colonsep_list)) colonsep_list)).
End expand.

Definition is_local_prefix (path : bytes) (local_prefixes : list bytes) : bool :=
  match path with
  | a :: _ =>
      Ascii.eqb a SLASH &&
      existsb (λ p, match p with [] => false | _ => starts_with p path end) local_prefixes
  | [] => false
  end.

(** ** The cache path *)

(** [1 << k] computed in [int] and converted to [uint64_t]: defined up to 30; the
    shift into the sign bit is extended to 64 bits, and beyond that it is
    undefined. *)
Definition int_bit (k : Z) : option Z :=
  if k <? 31 then Some (2 ^ k) else if k =? 31 then Some (2 ^ 64 - 2 ^ 31) else None.

Section validate.
Variable getenv : bytes → option bytes.
Variable number : Z.
(** Whether [stat] succeeds, what [realpath] gives, whether [spindle_mkdir] succeeds. *)
Variable os_stat : bytes → bool.
Variable os_realpath : bytes → option bytes.
Variable spindle_mkdir : bytes → bool.

(** The loop that cuts off components until [stat] succeeds: what is left, and what
    was cut off. *)
Fixpoint cut_missing (fuel : nat) (origpath : bytes) (cut : option bytes) : option (bytes * option bytes) :=
  if os_stat origpath then Some (origpath, cut)
  else match fuel with
  | O => None
  | S fuel' =>
      match strrchr origpath SLASH with
      | None => None
      | Some (d, f) => cut_missing fuel' d (Some (match cut with None => f | Some c => f ++ SLASH :: c end))
      end
  end.

Definition strip_slash (s : bytes) : bytes :=
  match strrchr s SLASH with Some (d, []) => d | _ => s end.

Definition realize (path : bytes) : option bytes :=
  '(origpath, cut) ← cut_missing (length path) path None;
  newpath ← os_realpath origpath;
  match cut with
  | None => Some (strip_slash newpath)
  | Some c =>
      if MAX_PATH_LEN <? Z.of_nat (length newpath + length c) then Some path
      else Some (strip_slash (take (Z.to_nat MAX_PATH_LEN) (newpath ++ SLASH :: c)))
  end.

(** The realized and the parsed path of a candidate that is valid. *)
Definition validateCandidatePath (candidatePath : bytes) : option (bytes * bytes) :=
  match parse_location getenv number candidatePath with
  | Located parsed =>
      realized ← realize parsed;
      if spindle_mkdir parsed then Some (realized, parsed) else None
  | _ => None
  end.
End validate.

(** The candidates of a node: any function in the place of its
    [validateCandidatePath]. *)
Section cachepath.
Variable validate : bytes → option (bytes * bytes).

Record candidate := mk_candidate {
  realizedCachePath : bytes;
  parsedCachePath : bytes;
  symbolicCachePath : bytes;
}.

(** The loop over the candidates ([strtok_r] skips empty ones); the tables hold
    the candidates that are valid. *)
Fixpoint valid_paths (cands : list bytes) (bitoffset : Z) (idx : Z) (tbl : gmap Z candidate)
    : option (Z * gmap Z candidate) :=
  match cands with
  | [] => Some (idx, tbl)
  | c :: cands' =>
      if 64 <=? bitoffset then Some (idx, tbl)
      else match validate c with
           | None => valid_paths cands' (bitoffset + 1) idx tbl
           | Some (r, p) =>
               bit ← int_bit bitoffset;
               valid_paths cands' (bitoffset + 1) (Z.lor idx bit)
                 (<[bitoffset := mk_candidate r p c]> tbl)
           end
  end.

Definition determineValidCachePaths (origPathList : bytes) : option (Z * gmap Z candidate) :=
  valid_paths (split_prefixes (S (length origPathList)) origPathList) 0 0 ∅.
End cachepath.

(** The scan for the lowest bit; [None] is an undefined shift. *)
Fixpoint first_bit (fuel : nat) (bitoffset validBitIdx : Z) : option Z :=
  match fuel with
  | O => Some bitoffset
  | S fuel' =>
      bit ← int_bit bitoffset;
      if Z.land bit validBitIdx =? 0 then first_bit fuel' (bitoffset + 1) validBitIdx
      else Some bitoffset
  end.

(** [Some None]: no path is set. *)
Definition getValidCachePathByIndex (validBitIdx : Z) (tbl : gmap Z candidate)
    : option (option candidate) :=
  if validBitIdx =? 0 then Some None
  else k ← first_bit 64 0 validBitIdx; Some (tbl !! k).

(** ** Facts *)

Lemma expand_in_bounds getenv number fuel poe esc loc newloc :
  Z.of_nat (length newloc) <= MAX_PATH_LEN →
  match expand getenv number fuel poe esc loc newloc with
  | Located s => Z.of_nat (length s) <= MAX_PATH_LEN
  | Failed => True
  | Overrun => False
  end.
Proof.
  revert esc loc newloc. induction fuel as [|fuel IH]; intros esc loc newloc Hl; [done|].
  assert (∀ x, (MAX_PATH_LEN <=? Z.of_nat (length newloc)) = false →
            Z.of_nat (length (newloc ++ [x : ascii])) <= MAX_PATH_LEN) as Hone.
  { intros x Hx. bool_to_prop. rewrite length_app. simpl. lia. }
  cbn [expand]. destruct loc as [|c loc].
  { by rewrite (proj2 (Z.ltb_ge _ _)). }
  destruct (MAX_PATH_LEN <=? Z.of_nat (length newloc)) eqn:E; [done|].
  destruct esc; [by apply IH, Hone|].
  destruct (Ascii.eqb c ESCAPE); [by apply IH|].
  destruct (Ascii.eqb c DOLLAR); [|by apply IH, Hone].
  destruct (span_envvar loc) as [v r]. destruct (MAX_PATH_LEN <? Z.of_nat (length v)); [done|].
  destruct (env_value getenv number v) as [w|]; [|destruct poe; [done|simpl; unfold MAX_PATH_LEN; lia]].
  destruct (MAX_PATH_LEN <? Z.of_nat (length w) + Z.of_nat (length newloc)) eqn:E2; [done|].
  apply IH. bool_to_prop. rewrite length_app. lia.
Qed.

Lemma land_pow2_zero k x : 0 <= k → (Z.land (2 ^ k) x =? 0) = negb (Z.testbit x k).
Proof.
  intros Hk. destruct (Z.testbit x k) eqn:E; simpl.
  - apply Z.eqb_neq. intros H. pose proof (f_equal (λ z, Z.testbit z k) H) as Hb. cbv beta in Hb.
    by rewrite Z.land_spec, Z.pow2_bits_true, E, Z.bits_0 in Hb by done.
  - apply Z.eqb_eq. apply Z.bits_inj'. intros j Hj. rewrite Z.land_spec, Z.bits_0.
    destruct (decide (j = k)) as [->|]; [by rewrite E, andb_false_r|].
    by rewrite Z.pow2_bits_false by done.
Qed.

(** The number of a candidate, and whether it is valid. *)
Definition valid_at (validate : bytes → option (bytes * bytes)) (cands : list bytes) (k : Z)
    : option candidate :=
  if decide (0 <= k) then
    c ← cands !! Z.to_nat k; '(r, p) ← validate c; Some (mk_candidate r p c)
  else None.

Lemma valid_at_cons validate c cands k b :
  valid_at validate (c :: cands) (k - b) =
    if decide (k = b) then '(r, p) ← validate c; Some (mk_candidate r p c)
    else valid_at validate cands (k - (b + 1)).
Proof.
  unfold valid_at. destruct (decide (k = b)) as [->|Hne].
  { by rewrite Z.sub_diag. }
  destruct (decide (0 <= k - b)), (decide (0 <= k - (b + 1))); try done; try lia.
  replace (Z.to_nat (k - b)) with (S (Z.to_nat (k - (b + 1)))) by lia. done.
Qed.

Lemma valid_paths_spec validate cands b idx tbl :
  0 <= b → b + Z.of_nat (length cands) <= 31 →
  ∃ idx' tbl', valid_paths validate cands b idx tbl = Some (idx', tbl') ∧ (0 <= idx → 0 <= idx') ∧
    (∀ k, 0 <= k → Z.testbit idx' k = Z.testbit idx k || bool_decide (is_Some (valid_at validate cands (k - b)))) ∧
    ∀ k, tbl' !! k = match valid_at validate cands (k - b) with Some c => Some c | None => tbl !! k end.
Proof.
  revert b idx tbl. induction cands as [|c cands IH]; intros b idx tbl Hb Hlen.
  { assert (∀ k, valid_at validate [] k = None) as Hn.
    { intros k. unfold valid_at. destruct (decide _); [|done]. by rewrite lookup_nil. }
    exists idx, tbl. do 2 (split; [done|]). split; intros k; intros; rewrite Hn; [|done].
    by rewrite bool_decide_false, orb_false_r by (by intros []). }
  simpl in Hlen. cbn [valid_paths]. rewrite (proj2 (Z.leb_gt 64 b)) by lia.
  assert (∀ k, b <= k → valid_at validate cands (b - (b + 1)) = None) as Hb0.
  { intros k _. unfold valid_at. by rewrite decide_False by lia. }
  destruct (validate c) as [[r p]|] eqn:Ev.
  - unfold int_bit. rewrite (proj2 (Z.ltb_lt b 31)) by lia. cbn [mbind option_bind].
    destruct (IH (b + 1) (Z.lor idx (2 ^ b)) (<[b := mk_candidate r p c]> tbl) ltac:(lia) ltac:(lia))
      as (idx' & tbl' & -> & Hp & Hi & Ht).
    exists idx', tbl'. split; [done|].
    split; [intros H0; apply Hp, Z.lor_nonneg; split; [done|apply Z.pow_nonneg; lia]|].
    split; intros k; intros; rewrite ?Hi, ?Ht by done;
      rewrite valid_at_cons; destruct (decide (k = b)) as [->|Hne].
    + rewrite Z.lor_spec, Z.pow2_bits_true by lia. rewrite Ev. cbn [mbind option_bind].
      rewrite (bool_decide_true (is_Some (Some _))) by (by eexists). by rewrite !orb_true_r.
    + rewrite Z.lor_spec, Z.pow2_bits_false by lia. by rewrite orb_false_r.
    + rewrite (Hb0 b) by lia. rewrite Ev. cbn [mbind option_bind]. by rewrite lookup_insert_eq.
    + by rewrite lookup_insert_ne.
  - destruct (IH (b + 1) idx tbl ltac:(lia) ltac:(lia)) as (idx' & tbl' & -> & Hp & Hi & Ht).
    exists idx', tbl'. do 2 (split; [done|]). split; intros k; intros; rewrite ?Hi, ?Ht by done;
      rewrite valid_at_cons; destruct (decide (k = b)) as [->|Hne]; try done.
    + rewrite (Hb0 b), Ev by lia. done.
    + rewrite (Hb0 b), Ev by lia. done.
Qed.

Lemma first_bit_spec fuel b idx k :
  0 <= b <= k → k < 31 → k < b + Z.of_nat fuel →
  Z.testbit idx k = true → (∀ j, b <= j < k → Z.testbit idx j = false) →
  first_bit fuel b idx = Some k.
Proof.
  revert b. induction fuel as [|fuel IH]; intros b Hb Hk Hf Hbit Hlow; [lia|].
  cbn [first_bit]. unfold int_bit. rewrite (proj2 (Z.ltb_lt b 31)) by lia. cbn [mbind option_bind].
  rewrite land_pow2_zero by lia. destruct (decide (b = k)) as [->|Hne]; [by rewrite Hbit|].
  rewrite Hlow by lia. simpl. apply IH; try lia; [done|]. intros j Hj. apply Hlow. lia.
Qed.

Lemma least_bit idx n :
  (∀ k, 0 <= k → Z.testbit idx k = true → k < n) → 0 < idx →
  ∃ k, 0 <= k < n ∧ Z.testbit idx k = true ∧ ∀ j, 0 <= j < k → Z.testbit idx j = false.
Proof.
  intros Hn Hidx.
  assert (Z.testbit idx (Z.log2 idx) = true) as Ht by (by apply Z.bit_log2).
  pose proof (Z.log2_nonneg idx) as Hl.
  revert Ht. generalize (Z.log2 idx) as m, (Z.log2_nonneg idx). clear Hl. intros m Hm. revert m Hm.
  apply (Z_lt_induction (λ m, Z.testbit idx m = true → _)). intros m IH Ht.
  destruct (decide (0 <= m)) as [Hm|Hm]; [|by rewrite Z.testbit_neg_r in Ht by lia].
  destruct (decide (Exists (λ j, Z.testbit idx (Z.of_nat j) = true) (seq 0 (Z.to_nat m)))) as [He|He].
  - apply Exists_exists in He as (j & Hj & Hb). apply elem_of_seq in Hj. apply (IH (Z.of_nat j)); [lia|done].
  - exists m. split_and!; [done|by apply Hn|done|]. intros j Hj.
    rewrite <- Forall_Exists_neg, Forall_forall in He.
    specialize (He (Z.to_nat j)). rewrite elem_of_seq, Z2Nat.id in He by lia.
    destruct (Z.testbit idx j); [|done]. destruct He; [lia|done].
Qed.

(** [handle_cachepath_consensus] after the reduction: the cache path, with the
    parsed and the symbolic one when there is one. *)
Definition handle_cachepath_consensus (cachepath_bitidx : Z) (tbl : gmap Z candidate)
    (commpath : bytes) : option (bytes * option candidate) :=
  if cachepath_bitidx =? 0 then Some (commpath, None)
  else
    c ← getValidCachePathByIndex cachepath_bitidx tbl;
    match c with
    | Some c => Some (realizedCachePath c, Some c)
    | None => None
    end.

(** The value all servers get from [ldcs_audit_server_md_allreduce_AND]. *)
Definition allreduce_AND (idxs : list Z) : Z := foldr Z.land (-1) idxs.

Lemma allreduce_bit idxs k : 0 <= k → Z.testbit (allreduce_AND idxs) k = forallb (λ i, Z.testbit i k) idxs.
Proof.
  intros Hk. unfold allreduce_AND. induction idxs as [|i idxs IH]; simpl; [by rewrite Z.bits_m1|].
  by rewrite Z.land_spec, IH.
Qed.

(** What a server knows after testing the candidates. *)
Definition tested (cands : list bytes) (v : bytes → option (bytes * bytes)) (r : Z * gmap Z candidate) : Prop :=
  0 <= fst r ∧
  (∀ k, 0 <= k → Z.testbit (fst r) k = bool_decide (is_Some (valid_at v cands k))) ∧
  ∀ k, snd r !! k = valid_at v cands k.

Lemma candidates_tested validates paths :
  let cands := split_prefixes (S (length paths)) paths in
  (length cands <= 31)%nat →
  ∃ results, Forall2 (λ v r, determineValidCachePaths v paths = Some r) validates results ∧
             Forall2 (tested cands) validates results.
Proof.
  intros cands Hlen. induction validates as [|v vs (rs & IH1 & IH2)]; [by exists []|].
  destruct (valid_paths_spec v cands 0 0 ∅) as (idx & tbl & E & Hp & Hi & Ht); [lia|lia|].
  exists ((idx, tbl) :: rs). split; constructor; try done. split; [by apply Hp|].
  split; intros k; intros.
  - simpl. rewrite Hi, Z.bits_0 by done. by rewrite Z.sub_0_r.
  - simpl. rewrite Ht, Z.sub_0_r, lookup_empty. by destruct (valid_at v cands k).
Qed.

Lemma valid_at_small v cands k : is_Some (valid_at v cands k) → 0 <= k < Z.of_nat (length cands).
Proof.
  intros [c Hc]. unfold valid_at in Hc. destruct (decide (0 <= k)) as [Hk|]; [|done].
  destruct (cands !! Z.to_nat k) as [x|] eqn:Ex; [|done]. apply lookup_lt_Some in Ex. lia.
Qed.

Lemma valid_everywhere_dec (vs : list (bytes → option (bytes * bytes))) cands k :
  (∀ v, v ∈ vs → is_Some (valid_at v cands k)) ∨ ∃ v, v ∈ vs ∧ valid_at v cands k = None.
Proof.
  induction vs as [|v vs [IH|(w & Hw & E)]]; [left; set_solver| |right; set_solver].
  destruct (valid_at v cands k) eqn:E; [left|right; set_solver].
  intros w Hw. apply elem_of_cons in Hw as [->|Hw]; [by rewrite E|auto].
Qed.

Lemma consensus_bits cands validates results k :
  0 <= k → Forall2 (tested cands) validates results →
  Z.testbit (allreduce_AND (fst <$> results)) k = true
  ↔ ∀ v, v ∈ validates → is_Some (valid_at v cands k).
Proof.
  intros Hk Hres. rewrite allreduce_bit by done.
  induction Hres as [|v r vs rs (_ & Hr & _) _ IH]; simpl; [set_solver|].
  rewrite andb_true_iff, IH, Hr by done. rewrite bool_decide_eq_true. set_solver.
Qed.

Lemma consensus_nonneg cands validates results :
  validates ≠ [] → Forall2 (tested cands) validates results → 0 <= allreduce_AND (fst <$> results).
Proof.
  intros Hne Hres. destruct Hres as [|v r vs rs (H0 & _) _]; [done|]. simpl.
  apply Z.land_nonneg. by left.
Qed.

(** C32 All servers settle on the same cache path, the first candidate that works on
    every one of them.  Each server tests the same list of candidates (at most 31, for
    which the shifts are defined) on its own node; after the reduction every server
    takes the candidate with the lowest number that is valid everywhere, with its own
    node's realized form of it, and when no candidate is valid everywhere all of them
    fall back to their communication path. *)
Theorem cachepath_consensus (validates : list (bytes → option (bytes * bytes))) paths commpath :
  let cands := split_prefixes (S (length paths)) paths in
  validates ≠ [] → (length cands <= 31)%nat →
  ∃ results, Forall2 (λ v r, determineValidCachePaths v paths = Some r) validates results ∧
    let idx := allreduce_AND (fst <$> results) in
    ((∃ k, (∀ v, v ∈ validates → is_Some (valid_at v cands k)) ∧
           (∀ j, 0 <= j < k → ∃ v, v ∈ validates ∧ valid_at v cands j = None) ∧
           Forall2 (λ v r, ∃ c, valid_at v cands k = Some c ∧
             handle_cachepath_consensus idx (snd r) commpath = Some (realizedCachePath c, Some c))
             validates results) ∨
     ((∀ k, ∃ v, v ∈ validates ∧ valid_at v cands k = None) ∧
      Forall (λ r, handle_cachepath_consensus idx (snd r) commpath = Some (commpath, None)) results)).
Proof.
  intros cands Hne Hlen. destruct (candidates_tested validates paths Hlen) as (results & Hdet & Hres).
  fold cands in Hres. exists results. split; [done|]. cbv zeta.
  set (idx := allreduce_AND (fst <$> results)).
  pose proof (λ k Hk, consensus_bits cands validates results k Hk Hres) as Hbit. fold idx in Hbit.
  pose proof (consensus_nonneg cands validates results Hne Hres) as Hpos. fold idx in Hpos.
  assert (∃ v, v ∈ validates) as [v0 Hv0] by (destruct validates; [done|]; eexists; left).
  assert (∀ k, 0 <= k → Z.testbit idx k = true → k < 31) as Hsmall.
  { intros k Hk Hb. pose proof (valid_at_small v0 cands k (proj1 (Hbit k Hk) Hb v0 Hv0)). lia. }
  unfold handle_cachepath_consensus, getValidCachePathByIndex. destruct (decide (idx = 0)) as [E0|E0].
  - right. rewrite E0. split; [|by apply Forall_true].
    intros k. destruct (valid_everywhere_dec validates cands k) as [Hall|]; [|done].
    pose proof (valid_at_small v0 cands k (Hall v0 Hv0)).
    apply Hbit in Hall; [|lia]. by rewrite E0, Z.bits_0 in Hall.
  - left. destruct (least_bit idx 31 Hsmall ltac:(lia)) as (k & Hk & Hb & Hlow).
    rewrite (proj2 (Z.eqb_neq idx 0)) by done.
    rewrite (first_bit_spec 64 0 idx k) by (done || lia). cbn [mbind option_bind].
    pose proof (proj1 (Hbit k ltac:(lia)) Hb) as Hall. exists k. split_and!; [done|..].
    + intros j Hj. destruct (valid_everywhere_dec validates cands j) as [Ha|]; [|done].
      apply Hbit in Ha; [|lia]. by rewrite Hlow in Ha.
    + clear -Hres Hall. induction Hres as [|v r vs rs (_ & _ & Ht) _ IH]; constructor.
      * destruct (Hall v ltac:(left)) as [c Hc]. exists c. by rewrite Ht, Hc.
      * apply IH. intros w Hw. apply Hall. by right.
Qed.

(** Expanding a location never writes behind the end of the buffer: whatever the
    location and the environment, the result is a string that fits together with its
    terminator, or an error. *)
Theorem parse_location_in_bounds getenv number loc print_on_error :
  match parse_location_impl getenv number loc print_on_error with
  | Located s => Z.of_nat (length s) <= MAX_PATH_LEN
  | Failed => True
  | Overrun => False
  end.
Proof. apply expand_in_bounds. simpl. unfold MAX_PATH_LEN. lia. Qed.

(** The list of candidates is documented to hold up to 64 paths, but the bit of
    the 33rd is computed by an undefined shift of an [int]. *)
Theorem cachepath_33_undefined :
  let paths := concat (replicate 33 (lit "/a:")) in
  (length (split_prefixes (S (length paths)) paths) = 33)%nat ∧
  determineValidCachePaths (λ c, Some (c, c)) paths = None.
Proof. split; vm_compute; reflexivity. Qed.

Lemma cachepath_consensus_witness :
  ∃ results, Forall2 (λ v r, determineValidCachePaths v (lit "/a:/b") = Some r)
    [(λ c, if bool_decide (c = lit "/b") then Some (c, c) else None); (λ c, Some (c, c))] results.
Proof.
  destruct (cachepath_consensus
    [(λ c, if bool_decide (c = lit "/b") then Some (c, c) else None); (λ c, Some (c, c))]
    (lit "/a:/b") (lit "/c")) as (results & H & _); [done|vm_compute; lia|]. by exists results.
Defined.

End Parseloc.
