(* ===== verification/Config.v ===== *)
(** * Configuration of the front end

    [fe/startup/config_mgr.cc], [config_parser.cc] and [parseargs.cc]: the table of options, the values that are given by defaults, by two files and by the command line, and how
    they are checked and merged.  What the compiler is given at build time and the calls that [argp_parse] makes are parameters.
    [None] stands for an exception that is not caught and for undefined behaviour. *)

From Stdlib Require Import Ascii String ZArith Lia.
From stdpp Require Import strings numbers gmap list.
From S2P Require Import Prelude Bytes.

Module Config.

(** ** The options *)

Inductive SpindleConfigID :=
  | confCmdlineOnly | confCmdlineNewgroup | confPort | confNumPorts | confCommPaths | confCachePaths | confCachePrefix
  | confPythonPrefix | confLocalPrefix | confStrip | confRelocAout | confRelocLibs | confRelocPython | confRelocExec
  | confFollowFork | confStopReloc | confSpindleLevel | confPushpull | confNetwork | confSecurity | confJoblauncher
  | confNuma | confNumaIncludes | confNumaExcludes | confAuditType | confShmcacheSize | confDebug | confPreload
  | confHostbin | confNoclean | confDisableLogging | confNoHide | confPersist | confMsgcacheBuffer | confMsgcacheTimeout
  | confCleanupProc | confExecExcludes | confEnableRsh | confRshCommand | confStartSession | confStartMultiSession
  | confEndSession | confRunSession | confPatchLdso | confCrashDedup | confCalcTLS | confCrashAltstack | confCrashLog.
(** In the order of the enumeration, which is the order of a [map]. *)
Definition all_ids : list SpindleConfigID :=
  [confCmdlineOnly; confCmdlineNewgroup; confPort; confNumPorts; confCommPaths; confCachePaths; confCachePrefix;
   confPythonPrefix; confLocalPrefix; confStrip; confRelocAout; confRelocLibs; confRelocPython; confRelocExec;
   confFollowFork; confStopReloc; confSpindleLevel; confPushpull; confNetwork; confSecurity; confJoblauncher; confNuma;
   confNumaIncludes; confNumaExcludes; confAuditType; confShmcacheSize; confDebug; confPreload; confHostbin; confNoclean;
   confDisableLogging; confNoHide; confPersist; confMsgcacheBuffer; confMsgcacheTimeout; confCleanupProc; confExecExcludes;
   confEnableRsh; confRshCommand; confStartSession; confStartMultiSession; confEndSession; confRunSession; confPatchLdso;
   confCrashDedup; confCalcTLS; confCrashAltstack; confCrashLog].

#[global] Instance SpindleConfigID_eq_dec : EqDecision SpindleConfigID.
Proof. solve_decision. Defined.
Fixpoint index_of (id : SpindleConfigID) (l : list SpindleConfigID) : nat :=
  match l with [] => O | x :: l' => if decide (x = id) then O else S (index_of id l') end.
Lemma all_ids_index id : all_ids !! index_of id all_ids = Some id.
Proof. destruct id; vm_compute; reflexivity. Qed.
#[global] Program Instance SpindleConfigID_countable : Countable SpindleConfigID :=
  inj_countable (λ id, index_of id all_ids) (λ n, all_ids !! n) all_ids_index.

Definition shortNone : Z := 0.
Definition shortRelocAout : Z := 97.
Definition shortSharedCacheSize : Z := 98.
Definition shortCobo : Z := 99.
Definition shortDebug : Z := 100.
Definition shortPreload : Z := 101.
Definition shortFollowFork : Z := 102.
Definition shortHide : Z := 104.
Definition shortAuditType : Z := 107.
Definition shortRelocSO : Z := 108.
Definition shortNoClean : Z := 110.
Definition shortCommPaths : Z := 111.
Definition shortPush : Z := 112.
Definition shortPull : Z := 113.
Definition shortPythonPrefix : Z := 114.
Definition shortStrip : Z := 115.
Definition shortPort : Z := 116.
Definition shortNUMA : Z := 117.
Definition shortStopReloc : Z := 119.
Definition shortRelocExec : Z := 120.
Definition shortRelocPy : Z := 121.
Definition shortDisableLogging : Z := 122.
Definition shortSecMunge : Z := 256.
Definition shortSecKeyLMon : Z := 257.
Definition shortSecKeyFile : Z := 258.
Definition shortSecNull : Z := 259.
Definition shortNoMPI : Z := 273.
Definition shortHostbin : Z := 274.
Definition shortPersist : Z := 275.
Definition shortStartSession : Z := 276.
Definition shortStartMultiSession : Z := 277.
Definition shortRunSession : Z := 278.
Definition shortEndSession : Z := 279.
Definition shortLauncherStartup : Z := 280.
Definition shortMsgcacheBuffer : Z := 281.
Definition shortMsgcacheTimeout : Z := 282.
Definition shortCleanupProc : Z := 283.
Definition shortRSHMode : Z := 284.
Definition shortNUMAIncludes : Z := 285.
Definition shortNUMAExcludes : Z := 286.
Definition shortCachePrefix : Z := 287.
Definition shortNumPorts : Z := 288.
Definition shortSerial : Z := 289.
Definition shortRSHCmd : Z := 290.
Definition shortPushPull : Z := 291.
Definition shortSecuritySet : Z := 292.
Definition shortLauncher : Z := 293.
Definition shortNetwork : Z := 294.
Definition shortHostbinEnable : Z := 295.
Definition shortSpindleLevel : Z := 296.
Definition shortLocalPrefix : Z := 297.
Definition shortExecExcludes : Z := 298.
Definition shortPatchLdso : Z := 299.
Definition shortCachePaths : Z := 300.
Definition shortCrashDedup : Z := 301.
Definition shortCrashAltstack : Z := 302.
Definition shortCrashLog : Z := 303.
Definition shortCalcTLS : Z := 304.

Inductive ConfigValueType := cvBool | cvInteger | cvString | cvStringOptional | cvList | cvEnum.
#[global] Instance ConfigValueType_eq_dec : EqDecision ConfigValueType.
Proof. solve_decision. Defined.

Record SpindleOption := mk_option {
  config_id : SpindleConfigID;
  cmdline_long : bytes;
  cmdline_key : Z;
  conftype : ConfigValueType;
  enum_values : list bytes;
  default_value : bytes;
}.

(** What is fixed when Spindle is built. *)
Record build := mk_build {
  AUDITTYPE_STR : bytes;
  CLEANUP_PROC_STR : bytes;
  DEFAULT_CALC_TLS : bytes;
  DEFAULT_CRASH_DEDUP_STR : bytes;
  DEFAULT_LAUNCHER_STR : bytes;
  DEFAULT_PATCH_LDSO : bytes;
  DISABLE_LOGGING_STR : bytes;
  HOSTBIN_ENABLE_STR : bytes;
  HOSTBIN_PATH_STR : bytes;
  PYTHON_PREFIX_DEFAULT : bytes;
  RSHCMD_STR : bytes;
  RSHLAUNCH_STR : bytes;
  SECURITY_DEFAULT_STR : bytes;
  SHMCACHE_SIZE_STR : bytes;
  SPINDLE_CACHEPATHS_STR : bytes;
  SPINDLE_COMMPATHS_STR : bytes;
  SPINDLE_LOCAL_PREFIX_STR : bytes;
  SPINDLE_NUM_PORTS_STR : bytes;
  SPINDLE_PORT_STR : bytes;
}.
(** What [configure] defines, and the values that follow from it. *)
Record defines := mk_defines {
  SPINDLE_PORT : option bytes;
  NUM_COBO_PORTS : option bytes;
  COMMPATHS : option bytes;
  COMMPATH : option bytes;
  CACHEPATHS : option bytes;
  CACHEPATH : option bytes;
  SPINDLE_LOCAL_PREFIX : option bytes;
  TESTRM : option bytes;
  ENABLE_FLUX_PLUGIN : bool;
  ENABLE_SLURM_PLUGIN : bool;
  ENABLE_SLURM : bool;
  MUNGE : bool;
  KEYFILE : bool;
  SECLMON : bool;
  USE_SUBAUDIT_BY_DEFAULT : bool;
  os_bluegene : bool;
  HOSTBIN_PATH : option bytes;
  USAGE_LOGGING_FILE : bool;
  DEFAULT_CLEANUP_PROC : bool;
  RSHLAUNCH_ENABLED : bool;
  RSHLAUNCH_CMD : option bytes;
  CRASH_DEDUP_ENABLED_BY_DEFAULT : bool;
  PYTHON_INST_PREFIX : option bytes;
  STATIC_TLS_ALLOC_BUG : bool;
  BINARY_PATCH_LDSO : bool;
}.
Definition bool_str (x : bool) : bytes := if x then lit "true" else lit "false".
Definition build_of (d : defines) : build := {|
  AUDITTYPE_STR := if USE_SUBAUDIT_BY_DEFAULT d then lit "subaudit" else lit "audit";
  CLEANUP_PROC_STR := bool_str (DEFAULT_CLEANUP_PROC d);
  DEFAULT_CALC_TLS := bool_str (STATIC_TLS_ALLOC_BUG d);
  DEFAULT_CRASH_DEDUP_STR := bool_str (CRASH_DEDUP_ENABLED_BY_DEFAULT d);
  DEFAULT_LAUNCHER_STR :=
    match TESTRM d with
    | Some rm => rm
    | None => if ENABLE_FLUX_PLUGIN d then lit "flux" else if ENABLE_SLURM_PLUGIN d then lit "slurm-plugin" else if ENABLE_SLURM d then lit "slurm" else lit "serial"
    end;
  DEFAULT_PATCH_LDSO := bool_str (BINARY_PATCH_LDSO d);
  DISABLE_LOGGING_STR := bool_str (negb (USAGE_LOGGING_FILE d));
  HOSTBIN_ENABLE_STR := match HOSTBIN_PATH d with Some _ => lit "true" | None => lit "false" end;
  HOSTBIN_PATH_STR := default [] (HOSTBIN_PATH d);
  PYTHON_PREFIX_DEFAULT := default [] (PYTHON_INST_PREFIX d);
  RSHCMD_STR := default [] (RSHLAUNCH_CMD d);
  RSHLAUNCH_STR := bool_str (RSHLAUNCH_ENABLED d);
  SECURITY_DEFAULT_STR := if MUNGE d then lit "munge" else if KEYFILE d then lit "keyfile" else if SECLMON d then lit "launchmon" else lit "none";
  SHMCACHE_SIZE_STR := if os_bluegene d then lit "2048" else lit "0";
  SPINDLE_CACHEPATHS_STR := match CACHEPATHS d, CACHEPATH d with Some p, _ => p | None, Some p => p | None, None => lit "$TMPDIR" end;
  SPINDLE_COMMPATHS_STR := match COMMPATHS d, COMMPATH d with Some p, _ => p | None, Some p => p | None, None => lit "$TMPDIR" end;
  SPINDLE_LOCAL_PREFIX_STR := default (lit "/var/:/tmp/:/proc/:/dev/:/sys/") (SPINDLE_LOCAL_PREFIX d);
  SPINDLE_NUM_PORTS_STR := default (lit "250") (NUM_COBO_PORTS d);
  SPINDLE_PORT_STR := default (lit "21940") (SPINDLE_PORT d);
|}.
Definition DEFAULT_CRASH_ALTSTACK_STR : bytes := lit "false".
Definition DEFAULT_EXEC_EXCLUDE_LIST : bytes :=
  lit "gcc:g++:cc:CC:clang:clang++:hipcc:amdclang:amdclang++:craycc:crayCC:ld:ld.lld:mpicc:mpic++:mpicxx:make:gmake:cmake".

Section config.
Context (b : build).

Definition Options : list SpindleOption :=
  [
   mk_option confCmdlineNewgroup ([]) shortNone cvBool [] ([]);
   mk_option confRelocAout (lit "reloc-aout") shortRelocAout cvBool [] (lit "true");
   mk_option confRelocLibs (lit "reloc-libs") shortRelocSO cvBool [] (lit "true");
   mk_option confRelocPython (lit "reloc-python") shortRelocPy cvBool [] (lit "true");
   mk_option confRelocExec (lit "reloc-exec") shortRelocExec cvBool [] (lit "true");
   mk_option confFollowFork (lit "follow-fork") shortFollowFork cvBool [] (lit "true");
   mk_option confStopReloc (lit "stop-reloc") shortStopReloc cvBool [] (lit "false");
   mk_option confSpindleLevel (lit "level") shortSpindleLevel cvEnum [lit "high"; lit "medium"; lit "low"; lit "off"; lit "default"] (lit "default");
   mk_option confCmdlineNewgroup ([]) shortNone cvBool [] ([]);
   mk_option confCmdlineOnly (lit "push") shortPush cvBool [] (lit "true");
   mk_option confCmdlineOnly (lit "pull") shortPull cvBool [] (lit "false");
   mk_option confPushpull (lit "pushpull") shortPushPull cvEnum [lit "push"; lit "pull"] (lit "push");
   mk_option confCmdlineNewgroup ([]) shortNone cvBool [] ([]);
   mk_option confCmdlineOnly (lit "cobo") shortCobo cvBool [] (lit "true");
   mk_option confNetwork (lit "network") shortNetwork cvEnum [lit "cobo"] (lit "cobo");
   mk_option confPort (lit "port") shortPort cvInteger [] (SPINDLE_PORT_STR b);
   mk_option confNumPorts (lit "num-ports") shortNumPorts cvInteger [] (SPINDLE_NUM_PORTS_STR b);
   mk_option confCmdlineNewgroup ([]) shortNone cvBool [] ([]);
   mk_option confCmdlineOnly (lit "security-munge") shortSecMunge cvBool [] ([]);
   mk_option confCmdlineOnly (lit "security-lmon") shortSecKeyLMon cvBool [] ([]);
   mk_option confCmdlineOnly (lit "security-keyfile") shortSecKeyFile cvBool [] ([]);
   mk_option confCmdlineOnly (lit "security-none") shortSecNull cvBool [] ([]);
   mk_option confSecurity (lit "security") shortSecuritySet cvEnum [lit "munge"; lit "keyfile"; lit "launchmon"; lit "none"] (SECURITY_DEFAULT_STR b);
   mk_option confCmdlineNewgroup ([]) shortNone cvBool [] ([]);
   mk_option confCmdlineOnly (lit "launcher-startup") shortLauncherStartup cvBool [] (lit "false");
   mk_option confCmdlineOnly (lit "no-mpi") shortNoMPI cvBool [] (lit "no");
   mk_option confCmdlineOnly (lit "serial") shortSerial cvBool [] (lit "no");
   mk_option confCmdlineOnly (lit "enable-hostbin") shortHostbinEnable cvBool [] (HOSTBIN_ENABLE_STR b);
   mk_option confHostbin (lit "hostbin") shortHostbin cvString [] (HOSTBIN_PATH_STR b);
   mk_option confJoblauncher (lit "launcher") shortLauncher cvEnum [lit "slurm"; lit "flux"; lit "flux-plugin"; lit "slurm-plugin"; lit "serial"; lit "hostbin"; lit "unknown"] (DEFAULT_LAUNCHER_STR b);
   mk_option confCmdlineNewgroup ([]) shortNone cvBool [] ([]);
   mk_option confStartSession (lit "start-session") shortStartSession cvBool [] ([]);
   mk_option confStartMultiSession (lit "start-multi-session") shortStartMultiSession cvBool [] ([]);
   mk_option confEndSession (lit "end-session") shortEndSession cvStringOptional [] ([]);
   mk_option confRunSession (lit "run-in-session") shortRunSession cvString [] ([]);
   mk_option confCmdlineNewgroup ([]) shortNone cvBool [] ([]);
   mk_option confNuma (lit "numa") shortNUMA cvBool [] (lit "false");
   mk_option confNumaIncludes (lit "numa-includes") shortNUMAIncludes cvList [] ([]);
   mk_option confNumaExcludes (lit "numa-excludes") shortNUMAExcludes cvList [] ([]);
   mk_option confCmdlineNewgroup ([]) shortNone cvBool [] ([]);
   mk_option confAuditType (lit "audit-type") shortAuditType cvEnum [lit "audit"; lit "subaudit"] (AUDITTYPE_STR b);
   mk_option confShmcacheSize (lit "shmcache-size") shortSharedCacheSize cvInteger [] (SHMCACHE_SIZE_STR b);
   mk_option confPythonPrefix (lit "python-prefix") shortPythonPrefix cvList [] (PYTHON_PREFIX_DEFAULT b);
   mk_option confCachePrefix (lit "cache-prefix") shortCachePrefix cvList [] ([]);
   mk_option confExecExcludes (lit "exec-excludes") shortExecExcludes cvList [] (DEFAULT_EXEC_EXCLUDE_LIST);
   mk_option confLocalPrefix (lit "local-prefix") shortLocalPrefix cvList [] (SPINDLE_LOCAL_PREFIX_STR b);
   mk_option confDebug (lit "debug") shortDebug cvBool [] (lit "false");
   mk_option confPatchLdso (lit "patch-ldso") shortPatchLdso cvBool [] (DEFAULT_PATCH_LDSO b);
   mk_option confPreload (lit "preload") shortPreload cvString [] ([]);
   mk_option confStrip (lit "strip") shortStrip cvBool [] (lit "true");
   mk_option confCommPaths (lit "commpaths") shortCommPaths cvString [] (SPINDLE_COMMPATHS_STR b);
   mk_option confCommPaths (lit "commpath") shortNone cvString [] (SPINDLE_COMMPATHS_STR b);
   mk_option confCachePaths (lit "cachepaths") shortCachePaths cvString [] (SPINDLE_CACHEPATHS_STR b);
   mk_option confCachePaths (lit "cachepath") shortNone cvString [] (SPINDLE_CACHEPATHS_STR b);
   mk_option confNoclean (lit "noclean") shortNoClean cvBool [] (lit "false");
   mk_option confDisableLogging (lit "disable-logging") shortDisableLogging cvBool [] (DISABLE_LOGGING_STR b);
   mk_option confNoHide (lit "no-hide") shortHide cvBool [] (lit "false");
   mk_option confPersist (lit "persist") shortPersist cvBool [] (lit "false");
   mk_option confMsgcacheBuffer (lit "msgcache-buffer") shortMsgcacheBuffer cvInteger [] (lit "0");
   mk_option confMsgcacheTimeout (lit "msgcache-timeout") shortMsgcacheTimeout cvInteger [] (lit "0");
   mk_option confCleanupProc (lit "cleanup-proc") shortCleanupProc cvBool [] (CLEANUP_PROC_STR b);
   mk_option confEnableRsh (lit "enable-rsh") shortRSHMode cvBool [] (RSHLAUNCH_STR b);
   mk_option confRshCommand (lit "rsh-command") shortRSHCmd cvString [] (RSHCMD_STR b);
   mk_option confCrashDedup (lit "crash-dedup") shortCrashDedup cvBool [] (DEFAULT_CRASH_DEDUP_STR b);
   mk_option confCalcTLS (lit "calc-tls") shortCalcTLS cvBool [] (DEFAULT_CALC_TLS b);
   mk_option confCrashAltstack (lit "crash-altstack") shortCrashAltstack cvBool [] (DEFAULT_CRASH_ALTSTACK_STR);
   mk_option confCrashLog (lit "crash-log") shortCrashLog cvStringOptional [] ([])].

Definition cmdline_only (id : SpindleConfigID) : bool := bool_decide (id = confCmdlineOnly) || bool_decide (id = confCmdlineNewgroup).

(** The maps keep the first option that is inserted for a key. *)
Definition getOptionsByID (name : SpindleConfigID) : option SpindleOption :=
  List.find (λ o, negb (cmdline_only (config_id o)) && bool_decide (config_id o = name)) Options.
Definition getOptionsByKey (key : Z) : option SpindleOption :=
  List.find (λ o, negb (cmdline_key o =? shortNone) && (cmdline_key o =? key)) Options.
Definition getOptionsByLongName (name : bytes) : option SpindleOption :=
  List.find (λ o, match cmdline_long o with [] => false | _ => bool_decide (cmdline_long o = name) end) Options.

(** ** Values *)

Definition lower (c : ascii) : ascii := if (65 <=? byte_val c) && (byte_val c <=? 90) then byte_of (byte_val c + 32) else c.
Definition strcasecmp_eq (s t : bytes) : bool := bool_decide (lower <$> cstr s = lower <$> cstr t).

(** Whether the value is one, and which. *)
Definition strToBool (s : bytes) : bool * bool :=
  if strcasecmp_eq s (lit "true") then (true, true)
  else if strcasecmp_eq s (lit "yes") then (true, true)
  else if strcasecmp_eq s (lit "1") then (true, true)
  else if strcasecmp_eq s (lit "false") then (true, false)
  else if strcasecmp_eq s (lit "no") then (true, false)
  else if strcasecmp_eq s (lit "0") then (true, false)
  else (false, false).

Definition digit_val (c : ascii) : Z :=
  let v := byte_val c in
  if (48 <=? v) && (v <=? 57) then v - 48 else if (97 <=? v) && (v <=? 122) then v - 87 else if (65 <=? v) && (v <=? 90) then v - 55 else 99.
Fixpoint digits_in (base : Z) (s : bytes) : list Z :=
  match s with c :: s' => if digit_val c <? base then digit_val c :: digits_in base s' else [] | [] => [] end.
Definition digits_value (base : Z) (ds : list Z) : Z := fold_left (λ n d, base * n + d) ds 0.

(** The base that [strtol] finds, and the text behind its prefix. *)
Definition base_of (s : bytes) : Z * bytes :=
  match s with
  | z :: x :: s' =>
      if Ascii.eqb z "0" then
        if (Ascii.eqb x "x" || Ascii.eqb x "X") && match s' with d :: _ => digit_val d <? 16 | [] => false end then (16, s') else (8, s)
      else (10, s)
  | [z] => if Ascii.eqb z "0" then (8, s) else (10, s)
  | [] => (10, s)
  end.

(** [std::stol] with base 0. *)
Inductive stol_result := Number (l : Z) (pos : Z) | Invalid_argument | Out_of_range.
Definition stol (s : bytes) : stol_result :=
  let text := cstr s in
  let t := skip_space text in
  let '(neg, body) := match t with c :: t' => if Ascii.eqb c "-" then (true, t') else if Ascii.eqb c "+" then (false, t') else (false, t) | [] => (false, t) end in
  let '(base, body) := base_of body in
  let ds := digits_in base body in
  match ds with
  | [] => Invalid_argument
  | _ =>
      let l := if neg : bool then - digits_value base ds else digits_value base ds in
      if (- 2 ^ 63 <=? l) && (l <? 2 ^ 63) then Number l (Z.of_nat (length text) - Z.of_nat (length body) + Z.of_nat (length ds)) else Out_of_range
  end.

(** [None]: the exception that is not caught. *)
Definition strToLong (s : bytes) : option (bool * Z) :=
  match stol s with
  | Number l pos => if (pos =? 0) || negb (Z.of_nat (length s) =? pos) then Some (false, 0) else Some (true, l)
  | Invalid_argument => Some (false, 0)
  | Out_of_range => None
  end.

Definition strToEnum (name : SpindleConfigID) (value : bytes) : bool * bytes :=
  match getOptionsByID name with
  | None => (false, [])
  | Some opt => if existsb (λ s, strcasecmp_eq s value) (enum_values opt) then (true, value) else (false, [])
  end.

(** ** Maps *)

Record ConfigMap := mk_map {
  name_values : gmap SpindleConfigID bytes;
  app_commandline : list bytes;
  unique_id_saved : Z;
  number_saved : Z;
}.
Definition empty_map : ConfigMap := mk_map ∅ [] 0 0.
Definition put_value (m : ConfigMap) (name : SpindleConfigID) (value : bytes) : ConfigMap :=
  mk_map (<[name := value]> (name_values m)) (app_commandline m) (unique_id_saved m) (number_saved m).
Definition setApplicationCmdline (m : ConfigMap) (argv : list bytes) : ConfigMap :=
  mk_map (name_values m) (app_commandline m ++ argv) (unique_id_saved m) (number_saved m).

Definition COLON : ascii := ":".
Definition LIST_RESET_TOKEN : bytes := lit "NONE".

(** [string::find] of a string. *)
Fixpoint find_from (n : nat) (pat s : bytes) : option nat :=
  if bool_decide (take (length pat) s = pat) then Some n else match s with [] => None | _ :: s' => find_from (S n) pat s' end.

Definition join_lists (value existing : bytes) : bytes := match existing with [] => value | _ => value ++ COLON :: existing end.
Definition mergeLists (value existing : bytes) : bytes :=
  match find_from 0 LIST_RESET_TOKEN value with
  | None => join_lists value existing
  | Some pos =>
      let next_term_start := (pos + 4)%nat in
      let none_starts_term := (pos =? 0)%nat || bool_decide (value !! (pos - 1)%nat = Some COLON) in
      let none_ends_term := (next_term_start =? length value)%nat || bool_decide (value !! next_term_start = Some COLON) in
      if negb none_starts_term || negb none_ends_term then join_lists value existing
      else if (next_term_start =? length value)%nat then [] else drop (next_term_start + 1) value
  end.

(** The values of a map in its order. *)
Definition entries (m : ConfigMap) : list (SpindleConfigID * bytes) := omap (λ id, pair id <$> name_values m !! id) all_ids.

Definition merged_value (m : ConfigMap) (opt : SpindleOption) (name : SpindleConfigID) (value : bytes) : bytes :=
  if decide (conftype opt = cvList) then mergeLists value (default [] (name_values m !! name)) else value.

(** The loop; [false] when it stops at an option that is not known. *)
Fixpoint merge_entries (m : ConfigMap) (l : list (SpindleConfigID * bytes)) : bool * ConfigMap :=
  match l with
  | [] => (true, m)
  | (name, value) :: l' =>
      match getOptionsByID name with
      | None => (false, m)
      | Some opt => merge_entries (put_value m name (merged_value m opt name value)) l'
      end
  end.
Definition mergeOnto (m other : ConfigMap) : bool * ConfigMap :=
  let '(ok, m) := merge_entries m (entries other) in
  if negb ok then (false, m)
  else (true, mk_map (name_values m) (match app_commandline other with [] => app_commandline m | c => c end)
    (if unique_id_saved other =? 0 then unique_id_saved m else unique_id_saved other)
    (if number_saved other =? 0 then number_saved m else number_saved other)).

Definition type_error (opt : SpindleOption) (value : bytes) : bytes :=
  lit "Expected bool type for " ++ cmdline_long opt ++ lit ". Got '" ++ value ++ lit "'." ++ [byte_of 10].
Fixpoint enum_list (first : bool) (l : list bytes) : bytes :=
  match l with [] => [] | s :: l' => (if first then [] else lit ", ") ++ lit "'" ++ s ++ lit "'" ++ enum_list false l' end.
Definition enum_error (opt : SpindleOption) (value : bytes) : bytes :=
  lit "Unexpected enum value for " ++ cmdline_long opt ++ lit ". Got '" ++ value ++ lit "'. Expected: " ++ enum_list true (enum_values opt) ++ [byte_of 10].

(** The map, or [errstring] when it fails. *)
Definition set (m : ConfigMap) (name : SpindleConfigID) (value : bytes) : option (ConfigMap + bytes) :=
  match getOptionsByID name with
  | None => Some (inr [])
  | Some opt =>
      match conftype opt with
      | cvBool => if fst (strToBool value) then Some (inl (put_value m name value)) else Some (inr (type_error opt value))
      | cvInteger => '(ok, _) ← strToLong value; if ok : bool then Some (inl (put_value m name value)) else Some (inr (type_error opt value))
      | cvEnum => if fst (strToEnum name value) then Some (inl (put_value m name value)) else Some (inr (enum_error opt value))
      | _ => Some (inl (put_value m name value))
      end
  end.

Definition getValueString (m : ConfigMap) (name : SpindleConfigID) : bool * bytes := match name_values m !! name with None => (false, []) | Some v => (true, v) end.
Definition getValueEnum (m : ConfigMap) (name : SpindleConfigID) : bool * bytes := match name_values m !! name with None => (false, []) | Some v => strToEnum name v end.
Definition getValueIntegral (m : ConfigMap) (name : SpindleConfigID) : option (bool * Z) := match name_values m !! name with None => Some (false, 0) | Some v => strToLong v end.
Definition getValueBool (m : ConfigMap) (name : SpindleConfigID) : bool * bool := match name_values m !! name with None => (false, false) | Some v => strToBool v end.
Definition isSet (m : ConfigMap) (name : SpindleConfigID) : bool := match name_values m !! name with None => false | Some _ => true end.

Inductive session_status_t := sstatus_unused | sstatus_start | sstatus_run | sstatus_end.
Definition getSessionStatus (m : ConfigMap) : session_status_t :=
  if isSet m confStartSession then sstatus_start
  else if isSet m confStartMultiSession then sstatus_start
  else if isSet m confEndSession then sstatus_end
  else if isSet m confRunSession then sstatus_run
  else sstatus_unused.
(** [None]: the failing [assert]. *)
Definition getArgSessionId (m : ConfigMap) : option bytes :=
  if isSet m confRunSession then Some (snd (getValueString m confRunSession))
  else if isSet m confEndSession then Some (snd (getValueString m confEndSession))
  else None.

(** ** Defaults *)

Fixpoint set_defaults (m : ConfigMap) (l : list SpindleOption) : option (ConfigMap + bytes) :=
  match l with
  | [] => Some (inl m)
  | opt :: l' =>
      if cmdline_only (config_id opt) then set_defaults m l'
      else match default_value opt with
      | [] => set_defaults m l'
      | _ => r ← set m (config_id opt) (default_value opt); match r with inl m => set_defaults m l' | inr e => Some (inr e) end
      end
  end.
Definition getDefaultsConfigMap (m : ConfigMap) : option (ConfigMap + bytes) := set_defaults m Options.

(** ** Files *)

Definition is_white (c : ascii) : bool := let v := byte_val c in (v =? 32) || (v =? 9) || (v =? 10) || (v =? 13) || (v =? 12).
Fixpoint drop_white (s : bytes) : bytes := match s with c :: s' => if is_white c then drop_white s' else s | [] => [] end.
Definition trim (s : bytes) : bytes := drop_white (reverse (drop_white (reverse s))).

Definition EQUALS : ascii := "=".
Fixpoint split_equals (s : bytes) : option (bytes * bytes) :=
  match s with
  | [] => None
  | c :: s' => if Ascii.eqb c EQUALS then Some ([], s') else '(x, y) ← split_equals s'; Some (c :: x, y)
  end.

(** What a line makes of the map: [Bad_line] sets [parse_error]; after [Bad_value] the rest of the file is not read either. *)
Inductive line_result := Line_ok (m : ConfigMap) | Bad_line | Bad_value.
Definition parseLine (m : ConfigMap) (line : bytes) : option line_result :=
  match line with
  | [] => Some (Line_ok m)
  | c :: _ =>
      if Ascii.eqb c "#" then Some (Line_ok m)
      else match split_equals line with
      | None => Some Bad_line
      | Some (n, v) =>
          let name := trim n in
          let value := trim v in
          match name, value with
          | [], _ => Some Bad_line
          | _, [] => Some (Line_ok m)
          | _, _ =>
              match getOptionsByLongName name with
              | None => Some (Line_ok m)
              | Some opt => r ← set m (config_id opt) value; Some (match r with inl m => Line_ok m | inr _ => Bad_value end)
              end
          end
      end
  end.

(** The lines that [getline] reads: what is behind the last newline is one unless it is empty. *)
Definition NEWLINE : ascii := byte_of 10.
Fixpoint file_lines (s : bytes) : list bytes :=
  match s with
  | [] => []
  | c :: s' =>
      if Ascii.eqb c NEWLINE then [] :: file_lines s'
      else match file_lines s' with
      | l :: ls => (c :: l) :: ls
      | [] => [[c]]
      end
  end.

(** [string::back] of an empty string reads the byte before its text, which the language leaves undefined. *)
Context (byte_before : ascii).
Definition BACKSLASH : ascii := byte_of 92.
Definition back (s : bytes) : ascii := default byte_before (last s).

(** A file: its map, and whether [parse_error] is set. *)
Fixpoint parse_lines (m : ConfigMap) (prev_incomplete_line : bytes) (ls : list bytes) : option (ConfigMap * bool) :=
  match ls with
  | [] => Some (m, match prev_incomplete_line with [] => false | _ => true end)
  | l :: ls' =>
      let line := prev_incomplete_line ++ trim l in
      if Ascii.eqb (back line) BACKSLASH then
        match line with
        | [] => None
        | _ => parse_lines m (take (length line - 1) line) ls'
        end
      else
        r ← parseLine m line;
        match r with
        | Line_ok m => parse_lines m [] ls'
        | Bad_line => Some (m, true)
        | Bad_value => Some (m, false)
        end
  end.
Definition ConfigFile_parse (contents : bytes) : option (ConfigMap * bool) := parse_lines empty_map [] (file_lines contents).

(** ** The command line *)

(** The calls that [argp_parse] makes: an option with its argument, an argument that is none ([argc] is not 0), the rest of the command line, that there is no rest, or one of
    the calls at the beginning and the end. *)
Inductive argp_call := Key (key : Z) (arg : option bytes) | ARGP_KEY_ARG | ARGP_KEY_ARGS (argv : list bytes) | ARGP_KEY_NO_ARGS | ARGP_KEY_END | ARGP_KEY_ERROR | ARGP_KEY_OTHER.

(** [argmap] and [done], and the result; [Unknown] is [ARGP_ERR_UNKNOWN]. *)
Inductive parse_result := Done0 | Unknown | Failed.
Definition pstate : Type := ConfigMap * bool.

(** The options that stand for another one with a value. *)
Definition deprecated (long : bytes) : option (SpindleConfigID * bytes) :=
  if bool_decide (long = lit "push") then Some (confPushpull, lit "push")
  else if bool_decide (long = lit "pull") then Some (confPushpull, lit "pull")
  else if bool_decide (long = lit "cobo") then Some (confNetwork, lit "cobo")
  else if bool_decide (long = lit "security-munge") then Some (confSecurity, lit "munge")
  else if bool_decide (long = lit "security-lmon") then Some (confSecurity, lit "launchmon")
  else if bool_decide (long = lit "security-keyfile") then Some (confSecurity, lit "keyfile")
  else if bool_decide (long = lit "security-none") then Some (confSecurity, lit "none")
  else if bool_decide (long = lit "launcher-startup") then Some (confJoblauncher, lit "slurm")
  else if bool_decide (long = lit "enable-hostbin") then Some (confJoblauncher, lit "hostbin")
  else if bool_decide (long = lit "no-mpi") || bool_decide (long = lit "serial") then Some (confJoblauncher, lit "serial")
  else None.

Definition option_value (opt : SpindleOption) (arg : option bytes) : bytes :=
  match arg with
  | Some (c :: s) => c :: s
  | _ => if decide (conftype opt = cvBool) then lit "true" else []
  end.

Definition parse_cmdline_only (m : ConfigMap) (opt : SpindleOption) (value : bytes) : option (ConfigMap * parse_result) :=
  let '(ok, on) := strToBool value in
  if bool_decide (conftype opt = cvBool) && negb ok then Some (m, Failed)
  else if bool_decide (conftype opt = cvBool) && negb on then Some (m, Done0)
  else match deprecated (cmdline_long opt) with
  | Some (name, v) =>
      r ← set m name v;
      Some (match r with inl m => (m, Done0) | inr [] => (m, Done0) | inr _ => (m, Failed) end)
  | None => Some (m, Failed)
  end.

Definition parse (st : pstate) (call : argp_call) : option (pstate * parse_result) :=
  let '(argmap, done) := st in
  match call with
  | ARGP_KEY_END => Some (st, Done0)
  | _ =>
      if done : bool then Some (st, Done0)
      else match call with
      | ARGP_KEY_ARG => Some (st, Unknown)
      | ARGP_KEY_ARGS argv => Some ((setApplicationCmdline argmap argv, true), Done0)
      | ARGP_KEY_NO_ARGS => Some (st, match getSessionStatus argmap with sstatus_start | sstatus_end => Done0 | _ => Failed end)
      | ARGP_KEY_ERROR => Some (st, Failed)
      | Key key arg =>
          match getOptionsByKey key with
          | None => Some (st, Unknown)
          | Some opt =>
              let value := option_value opt arg in
              if decide (config_id opt = confCmdlineOnly) then '(m, r) ← parse_cmdline_only argmap opt value; Some ((m, done), r)
              else
                r ← set argmap (config_id opt) value;
                Some (match r with inl m => ((m, done), Done0) | inr _ => (st, Failed) end)
          end
      | _ => Some (st, Done0)
      end
  end.

(** An argument that is not taken is offered again with the rest of the line; any other result but 0 ends the parsing. *)
Fixpoint parse_calls (st : pstate) (calls : list argp_call) : option (pstate * bool) :=
  match calls with
  | [] => Some (st, true)
  | c :: calls' =>
      '(st, r) ← parse st c;
      match r, c with
      | Done0, _ => parse_calls st calls'
      | Unknown, ARGP_KEY_ARG => parse_calls st calls'
      | _, _ => Some (st, false)
      end
  end.

(** [argmap] is kept from one call to the next. *)
Definition parseArgs (argmap : ConfigMap) (calls : list argp_call) : option (ConfigMap * bool) :=
  '((m, _), ok) ← parse_calls (argmap, false) calls; Some (m, ok).

(** ** All of them *)

(** The contents of the two files, [None] when they cannot be opened.  The new [config] and [argmap], and whether all went well. *)
Definition merge_file (config : ConfigMap) (file : option bytes) : option (ConfigMap * bool) :=
  match file with
  | None => Some (config, true)
  | Some contents =>
      '(m, parse_error) ← ConfigFile_parse contents;
      if parse_error : bool then Some (config, false) else Some (snd (mergeOnto config m), true)
  end.

Definition gatherAllConfigInfo (config argmap : ConfigMap) (system_conf user_conf : option bytes) (calls : list argp_call) : option (ConfigMap * ConfigMap * bool) :=
  d ← getDefaultsConfigMap empty_map;
  match d with
  | inr _ => Some (config, argmap, false)
  | inl defaults =>
      let config := snd (mergeOnto config defaults) in
      '(config, ok) ← merge_file config system_conf;
      if negb ok then Some (config, argmap, false)
      else
        '(config, ok) ← merge_file config user_conf;
        if negb ok then Some (config, argmap, false)
        else
          '(argmap, ok) ← parseArgs argmap calls;
          if negb ok then Some (config, argmap, false) else Some (snd (mergeOnto config argmap), argmap, true)
  end.

(** ** Values have the types of their options *)

Definition has_type (name : SpindleConfigID) (opt : SpindleOption) (v : bytes) : Prop :=
  match conftype opt with
  | cvBool => fst (strToBool v) = true
  | cvInteger => ∃ l, strToLong v = Some (true, l)
  | cvEnum => fst (strToEnum name v) = true
  | _ => True
  end.
Definition typed (m : ConfigMap) : Prop := ∀ name v, name_values m !! name = Some v → ∃ opt, getOptionsByID name = Some opt ∧ has_type name opt v.

Lemma put_typed m name v opt : typed m → getOptionsByID name = Some opt → has_type name opt v → typed (put_value m name v).
Proof.
  intros H Ho Hv name' v'. cbn [put_value name_values]. destruct (decide (name = name')) as [<-|Hne].
  - rewrite lookup_insert_eq. intros [= <-]. by exists opt.
  - rewrite lookup_insert_ne by done. apply H.
Qed.
Lemma empty_typed : typed empty_map.
Proof. intros name v. cbn [empty_map name_values]. by rewrite lookup_empty. Qed.

Lemma set_accepts m name v r : set m name v = Some (inl r) → ∃ opt, getOptionsByID name = Some opt ∧ has_type name opt v ∧ r = put_value m name v.
Proof.
  unfold set, has_type. destruct (getOptionsByID name) as [opt|]; [|done]. intros H. exists opt. split; [done|]. revert H.
  destruct (conftype opt); try (by intros [= <-]).
  - destruct (fst (strToBool v)); [by intros [= <-] | done].
  - destruct (strToLong v) as [[[|] l]|]; [|done..]. cbn [mbind option_bind]. intros [= <-]. split; [by exists l | done].
  - destruct (fst (strToEnum name v)); [by intros [= <-] | done].
Qed.
Lemma set_typed m name v r : typed m → set m name v = Some (inl r) → typed r.
Proof. intros H E. destruct (set_accepts _ _ _ _ E) as (opt & Ho & Hv & ->). by eapply put_typed. Qed.

(** *** Merging *)

Lemma entries_lookup m name v : (name, v) ∈ entries m ↔ name_values m !! name = Some v.
Proof.
  unfold entries. rewrite list_elem_of_omap. split.
  - intros (id & _ & E). destruct (name_values m !! id) as [w|] eqn:El; [|done]. by injection E as -> ->.
  - intros E. exists name. split; [eapply list_elem_of_lookup_2, all_ids_index | by rewrite E].
Qed.
Lemma all_ids_nodup : NoDup all_ids.
Proof. apply (bool_decide_unpack _). vm_compute. exact I. Qed.
Lemma entries_nodup m : NoDup (entries m).*1.
Proof.
  unfold entries. pose proof all_ids_nodup as H. revert H. generalize all_ids. intros l H. induction H as [|id l Hid _ IH]; [constructor|].
  cbn [omap list_omap]. destruct (name_values m !! id) as [v|]; [|exact IH]. cbn [fmap option_fmap option_map list_fmap fst]. constructor; [|exact IH].
  intros ([id' v'] & E & Hin)%list_elem_of_fmap. cbn in E. subst id'. apply list_elem_of_omap in Hin as (x & Hx & E). destruct (name_values m !! x); [|done]. injection E as -> ->. done.
Qed.

Lemma merge_entries_lookup l m : NoDup l.*1 → (∀ name v, (name, v) ∈ l → getOptionsByID name ≠ None) →
  fst (merge_entries m l) = true ∧ ∀ name,
    name_values (snd (merge_entries m l)) !! name =
      match (list_to_map l : gmap SpindleConfigID bytes) !! name, getOptionsByID name with Some v, Some opt => Some (merged_value m opt name v) | _, _ => name_values m !! name end.
Proof.
  revert m. induction l as [|[n v] l IH]; intros m Hnd Hk; cbn [merge_entries list_to_map foldr fmap list_fmap fst] in *; [by split; [|intros name; rewrite lookup_empty]|].
  apply NoDup_cons in Hnd as [Hn Hnd]. destruct (getOptionsByID n) as [opt|] eqn:Eo; [|by destruct (Hk n v (list_elem_of_here _ _) Eo)].
  destruct (IH (put_value m n (merged_value m opt n v)) Hnd) as [IH1 IH2]; [intros; eapply Hk; by right|]. split; [done|].
  intros name. rewrite IH2. cbn [fst snd]. destruct (decide (n = name)) as [<-|Hne].
  - rewrite lookup_insert_eq, Eo, (not_elem_of_list_to_map_1 l n) by done. cbn [put_value name_values]. by rewrite lookup_insert_eq.
  - rewrite lookup_insert_ne by done. destruct (_ !! name); [|cbn [put_value name_values]; by rewrite lookup_insert_ne].
    destruct (getOptionsByID name); [|cbn [put_value name_values]; by rewrite lookup_insert_ne].
    unfold merged_value. cbn [put_value name_values]. by rewrite lookup_insert_ne.
Qed.
Lemma entries_map m name : (list_to_map (entries m) : gmap SpindleConfigID bytes) !! name = name_values m !! name.
Proof.
  destruct (name_values m !! name) as [v|] eqn:E.
  - apply elem_of_list_to_map_1; [apply entries_nodup | by apply entries_lookup].
  - apply not_elem_of_list_to_map_1. intros ([n v] & -> & Hin)%list_elem_of_fmap. apply entries_lookup in Hin. cbn in E. congruence.
Qed.

(** The merged map has the values of the second one, lists joined to the first one's, and else those of the first one. *)
Lemma mergeOnto_lookup m other : typed other → fst (mergeOnto m other) = true ∧ ∀ name,
  name_values (snd (mergeOnto m other)) !! name =
    match name_values other !! name, getOptionsByID name with Some v, Some opt => Some (merged_value m opt name v) | _, _ => name_values m !! name end.
Proof.
  intros Ht. destruct (merge_entries_lookup (entries other) m (entries_nodup other)) as [H1 H2].
  { intros name v Hin%entries_lookup. destruct (Ht _ _ Hin) as (opt & -> & _). done. }
  unfold mergeOnto. destruct (merge_entries m (entries other)) as [ok m']. cbn [fst snd] in *. subst ok. cbn [negb fst snd name_values]. split; [done|].
  intros name. by rewrite H2, entries_map.
Qed.
Lemma mergeOnto_typed m other : typed m → typed other → typed (snd (mergeOnto m other)).
Proof.
  intros Hm Ho name v. rewrite (proj2 (mergeOnto_lookup m other Ho)). destruct (name_values other !! name) as [w|] eqn:E; [|apply Hm].
  destruct (Ho _ _ E) as (opt & Eo & Hw). rewrite Eo. intros [= <-]. exists opt. split; [done|]. unfold merged_value. case_decide as Hc; [|done]. unfold has_type. by rewrite Hc.
Qed.

(** *** The sources of values *)

Lemma set_defaults_typed l m r : typed m → set_defaults m l = Some (inl r) → typed r.
Proof.
  revert m. induction l as [|opt l IH]; intros m H; cbn [set_defaults]; [by intros [= <-]|]. destruct (cmdline_only _); [by apply IH|].
  destruct (default_value opt) as [|c s]; [by apply IH|]. destruct (set m _ _) as [[m'|]|] eqn:E; [|done..]. cbn [mbind option_bind]. apply IH. by eapply set_typed.
Qed.
Lemma getDefaults_typed r : getDefaultsConfigMap empty_map = Some (inl r) → typed r.
Proof. unfold getDefaultsConfigMap. apply set_defaults_typed, empty_typed. Qed.
Lemma parseLine_typed m line r : typed m → parseLine m line = Some (Line_ok r) → typed r.
Proof.
  intros H. unfold parseLine. destruct line as [|c line]; [by intros [= <-]|]. destruct (Ascii.eqb c "#"); [by intros [= <-]|].
  destruct (split_equals _) as [[n v]|]; [|done]. destruct (trim n) as [|? ?], (trim v) as [|? ?]; try done; [by intros [= <-]|].
  destruct (getOptionsByLongName _) as [opt|]; [|by intros [= <-]]. destruct (set _ _ _) as [[m'|]|] eqn:E; [|done..]. cbn [mbind option_bind]. intros [= <-]. by eapply set_typed.
Qed.
Lemma parse_lines_typed ls m prev r e : typed m → parse_lines m prev ls = Some (r, e) → typed r.
Proof.
  revert m prev. induction ls as [|l ls IH]; intros m prev H; cbn [parse_lines]; [by intros [= <- _]|].
  destruct (Ascii.eqb _ BACKSLASH); [destruct (prev ++ trim l); [done | by apply IH]|].
  destruct (parseLine m _) as [[m'| |]|] eqn:E; cbn [mbind option_bind]; [|by intros [= <- _] | by intros [= <- _] | done]. apply IH. by eapply parseLine_typed.
Qed.
Lemma parse_typed st c st' r : typed (fst st) → parse st c = Some (st', r) → typed (fst st').
Proof.
  destruct st as [m fin]. cbn [fst]. intros H. unfold parse. destruct c as [key arg| |argv| | | |]; [|by destruct fin; intros [= <- _]..].
  destruct fin; [by intros [= <- _]|]. destruct (getOptionsByKey key) as [opt|]; [|by intros [= <- _]]. destruct (decide (config_id opt = confCmdlineOnly)).
  - unfold parse_cmdline_only. destruct (strToBool _) as [ok on]. destruct (_ && negb ok); [by intros [= <- _]|]. destruct (_ && negb on); [by intros [= <- _]|].
    destruct (deprecated _) as [[n v]|]; [|by intros [= <- _]]. destruct (set m n v) as [[m'|[|]]|] eqn:E; [| | |done]; cbn [mbind option_bind]; [|by intros [= <- _]..]. intros [= <- _]. by eapply set_typed.
  - destruct (set m _ _) as [[m'|]|] eqn:E; [| |done]; cbn [mbind option_bind]; [|by intros [= <- _]]. intros [= <- _]. by eapply set_typed.
Qed.
Lemma parse_calls_typed calls st st' ok : typed (fst st) → parse_calls st calls = Some (st', ok) → typed (fst st').
Proof.
  revert st. induction calls as [|c calls IH]; intros st H; cbn [parse_calls]; [by intros [= <- _]|].
  destruct (parse st c) as [[st1 r]|] eqn:E; [|done]. cbn [mbind option_bind]. pose proof (parse_typed _ _ _ _ H E) as H1.
  destruct r; [by apply IH | destruct c; try (by intros [= <- _]); by apply IH | by intros [= <- _]].
Qed.
Lemma parseArgs_typed m calls r ok : typed m → parseArgs m calls = Some (r, ok) → typed r.
Proof. unfold parseArgs. intros H. destruct (parse_calls _ _) as [[[m' d] o]|] eqn:E; [|done]. cbn [mbind option_bind]. intros [= <- _]. apply (parse_calls_typed calls (m, false) (m', d) o H E). Qed.
Lemma merge_file_typed m file r ok : typed m → merge_file m file = Some (r, ok) → typed r.
Proof.
  intros H. unfold merge_file. destruct file as [contents|]; [|by intros [= <- _]]. unfold ConfigFile_parse. destruct (parse_lines _ _ _) as [[m' e]|] eqn:E; [|done]. cbn [mbind option_bind].
  destruct e; intros [= <- _]; [done|]. apply mergeOnto_typed; [done|]. eapply parse_lines_typed; [apply empty_typed | exact E].
Qed.

Lemma gather_typed config argmap sys usr calls c' a' ok : typed config → typed argmap → gatherAllConfigInfo config argmap sys usr calls = Some (c', a', ok) → typed c' ∧ typed a'.
Proof.
  intros Hc Ha. unfold gatherAllConfigInfo. destruct (getDefaultsConfigMap empty_map) as [[d|]|] eqn:Ed; [| |discriminate]; cbn [mbind option_bind]; [|by intros [= <- <- _]].
  assert (typed d) as Hd by exact (getDefaults_typed _ Ed). pose proof (mergeOnto_typed _ _ Hc Hd) as H0.
  destruct (merge_file _ sys) as [[c1 ok1]|] eqn:E1; [|done]. cbn [mbind option_bind]. pose proof (merge_file_typed _ _ _ _ H0 E1) as H1. destruct ok1; cbn [negb]; [|by intros [= <- <- _]].
  destruct (merge_file _ usr) as [[c2 ok2]|] eqn:E2; [|done]. cbn [mbind option_bind]. pose proof (merge_file_typed _ _ _ _ H1 E2) as H2. destruct ok2; cbn [negb]; [|by intros [= <- <- _]].
  destruct (parseArgs argmap calls) as [[a1 ok3]|] eqn:E3; [|done]. cbn [mbind option_bind]. pose proof (parseArgs_typed _ _ _ _ Ha E3) as H3. destruct ok3; cbn [negb]; [|by intros [= <- <- _]].
  intros [= <- <- _]. split; [by apply mergeOnto_typed | done].
Qed.
(** C24: values are typed.  Starting from configurations whose values have the types of their options - the empty one is such - the values that defaults, the two files and the command
    line leave are all those of known options, and each is one that the accessor of its option's type accepts: the accessor of a truth value, of a number, of one of the words of an
    enumeration.  It holds also when the gathering is given up in the middle. *)
Theorem config_typed config argmap sys usr calls c a ok : typed config → typed argmap → gatherAllConfigInfo config argmap sys usr calls = Some (c, a, ok) →
  typed c ∧ typed a ∧ ∀ name v, name_values c !! name = Some v → ∃ opt, getOptionsByID name = Some opt ∧
    match conftype opt with
    | cvBool => ∃ x, getValueBool c name = (true, x)
    | cvInteger => ∃ x, getValueIntegral c name = Some (true, x)
    | cvEnum => ∃ x, getValueEnum c name = (true, x)
    | _ => getValueString c name = (true, v)
    end.
Proof.
  intros Hc Ha E. destruct (gather_typed _ _ _ _ _ _ _ _ Hc Ha E) as [H1 H2]. split; [done|]. split; [done|]. intros name v Hv.
  destruct (H1 _ _ Hv) as (opt & Ho & Ht). exists opt. split; [done|]. unfold has_type in Ht. unfold getValueBool, getValueIntegral, getValueEnum, getValueString. rewrite Hv.
  destruct (conftype opt); try done.
  - destruct (strToBool v) as [[] x]; [by exists x | done].
  - destruct (strToEnum name v) as [[] x]; [by exists x | done].
Qed.

(** ** Which source decides *)

Definition file_map (file : option bytes) : option ConfigMap :=
  match file with None => Some empty_map | Some contents => '(m, parse_error) ← ConfigFile_parse contents; if parse_error : bool then None else Some m end.
(** A later value of an option over an earlier one. *)
Definition layer (t : ConfigValueType) (later earlier : option bytes) : option bytes :=
  match later with
  | None => earlier
  | Some v => Some (if decide (t = cvList) then mergeLists v (default [] earlier) else v)
  end.

Lemma mergeOnto_layer m other name opt : typed other → getOptionsByID name = Some opt →
  name_values (snd (mergeOnto m other)) !! name = layer (conftype opt) (name_values other !! name) (name_values m !! name).
Proof. intros Ht Ho. rewrite (proj2 (mergeOnto_lookup m other Ht)), Ho. by destruct (name_values other !! name). Qed.
Lemma file_map_typed file m : file_map file = Some m → typed m.
Proof.
  destruct file as [contents|]; cbn [file_map]; [|intros [= <-]; apply empty_typed]. unfold ConfigFile_parse. destruct (parse_lines _ _ _) as [[m' []]|] eqn:E; cbn [mbind option_bind]; try done.
  intros [= <-]. eapply parse_lines_typed; [apply empty_typed | exact E].
Qed.
Lemma merge_file_map m file r : merge_file m file = Some (r, true) → ∃ f, file_map file = Some f ∧ ∀ name opt, getOptionsByID name = Some opt → name_values r !! name = layer (conftype opt) (name_values f !! name) (name_values m !! name).
Proof.
  intros H. assert (∃ f, file_map file = Some f ∧ (name_values r = name_values m ∧ f = empty_map ∨ r = snd (mergeOnto m f))) as (f & Ef & Hf).
  { revert H. destruct file as [contents|]; cbn [merge_file file_map]; [|intros [= <-]; exists empty_map; split; [done | by left]].
    destruct (ConfigFile_parse contents) as [[f []]|]; cbn [mbind option_bind]; try done. intros [= <-]. exists f. split; [done | by right]. }
  exists f. split; [done|]. intros name opt Ho. destruct Hf as [[-> ->]| ->]; [cbn [empty_map name_values]; by rewrite lookup_empty|]. apply mergeOnto_layer; [by eapply file_map_typed | done].
Qed.

(** ** Configuration files *)

Lemma drop_white_length s : (length (drop_white s) ≤ length s)%nat.
Proof. induction s as [|c s IH]; cbn [drop_white]; [done|]. destruct (is_white c); cbn [length]; lia. Qed.
Lemma drop_white_same s : length (drop_white s) = length s → drop_white s = s.
Proof. destruct s as [|c s]; cbn [drop_white]; [done|]. destruct (is_white c); [|done]. pose proof (drop_white_length s). cbn [length]. lia. Qed.
Lemma drop_white_skip w s : forallb is_white w = true → drop_white (w ++ s) = drop_white s.
Proof. induction w as [|c w IH]; cbn [forallb app drop_white]; [done|]. intros [-> Hw]%andb_prop. by apply IH. Qed.
Lemma drop_white_solid s t : s ≠ [] → drop_white s = s → drop_white (s ++ t) = s ++ t.
Proof.
  destruct s as [|c s]; [done|]. intros _ H. cbn [drop_white app] in *. destruct (is_white c); [|done].
  pose proof (drop_white_length s) as Hl. rewrite H in Hl. cbn [length] in Hl. lia.
Qed.
(** Text that has no white space at its ends. *)
Definition solid (s : bytes) : Prop := s ≠ [] ∧ drop_white s = s ∧ drop_white (reverse s) = reverse s.
Lemma trim_solid s : s ≠ [] → trim s = s → solid s.
Proof.
  intros Hs H. unfold trim in H. pose proof (drop_white_length (reverse s)) as H1. pose proof (drop_white_length (reverse (drop_white (reverse s)))) as H2.
  rewrite H, length_reverse in H2. rewrite length_reverse in H1.
  assert (drop_white (reverse s) = reverse s) as Hr by (apply drop_white_same; rewrite length_reverse; lia). rewrite Hr, reverse_involutive in H. by split.
Qed.
Lemma trim_between x s y : forallb is_white x = true → forallb is_white y = true → solid s → trim (x ++ s ++ y) = s.
Proof.
  intros Hx Hy (Hn & Hs & Hr). unfold trim. rewrite !reverse_app, <- app_assoc, drop_white_skip.
  2: { apply forallb_forall. intros c Hc. rewrite forallb_forall in Hy. apply Hy, list_elem_of_In, elem_of_reverse, list_elem_of_In, Hc. }
  assert (reverse s ≠ []) as Hn' by (intros E; apply Hn, (inj reverse); by rewrite E).
  rewrite drop_white_solid by done. by rewrite reverse_app, !reverse_involutive, drop_white_skip.
Qed.
Lemma solid_app s t u : solid s → solid u → solid (s ++ t ++ u).
Proof.
  intros (Hs1 & Hs2 & Hs3) (Hu1 & Hu2 & Hu3). split; [by destruct s|]. split; [by apply drop_white_solid|].
  rewrite !reverse_app, <- app_assoc. apply drop_white_solid; [|done]. intros E. apply Hu1, (inj reverse). by rewrite E.
Qed.

Lemma split_equals_app n v : EQUALS ∉ n → split_equals (n ++ EQUALS :: v) = Some (n, v).
Proof.
  induction n as [|c n IH]; intros Hn; cbn [app split_equals]; [by rewrite Ascii.eqb_refl|].
  destruct (Ascii.eqb_spec c EQUALS) as [->|_]; [destruct Hn; left|]. rewrite IH; [done|]. intros Hin. apply Hn. by right.
Qed.
Lemma file_lines_app l rest : NEWLINE ∉ l → file_lines (l ++ NEWLINE :: rest) = l :: file_lines rest.
Proof.
  induction l as [|c l IH]; intros Hl; cbn [app file_lines]; [by rewrite Ascii.eqb_refl|].
  destruct (Ascii.eqb_spec c NEWLINE) as [->|_]; [destruct Hl; left|]. rewrite IH; [done|]. intros Hin. apply Hl. by right.
Qed.

Definition name_ok (n : bytes) : bool :=
  (match n with [] => false | c :: _ => negb (Ascii.eqb c "#") end) && bool_decide (drop_white n = n) && bool_decide (drop_white (reverse n) = reverse n)
  && bool_decide (EQUALS ∉ n) && bool_decide (NEWLINE ∉ n).
Lemma option_names_ok : forallb (λ o, match cmdline_long o with [] => true | n => name_ok n end) Options = true.
Proof. vm_compute. reflexivity. Qed.
Lemma long_name_ok n opt : getOptionsByLongName n = Some opt → name_ok n = true.
Proof.
  unfold getOptionsByLongName. intros [Hin H]%List.find_some. pose proof option_names_ok as Hall. rewrite forallb_forall in Hall. specialize (Hall _ Hin).
  destruct (cmdline_long opt) as [|c l]; [done|]. apply bool_decide_eq_true in H. by rewrite <- H.
Qed.

Definition print_line (entry : bytes * bytes) : bytes := entry.1 ++ lit " = " ++ entry.2 ++ [NEWLINE].
(** The name of an option that may be in a file, and a value of its type that can be written in a line. *)
Definition writable (entry : bytes * bytes) : Prop :=
  ∃ opt o, getOptionsByLongName entry.1 = Some opt ∧ getOptionsByID (config_id opt) = Some o ∧ has_type (config_id opt) o entry.2 ∧
    entry.2 ≠ [] ∧ trim entry.2 = entry.2 ∧ (NEWLINE ∉ entry.2) ∧ last entry.2 ≠ Some BACKSLASH.
Definition put_entry (m : ConfigMap) (entry : bytes * bytes) : ConfigMap :=
  match getOptionsByLongName entry.1 with Some opt => put_value m (config_id opt) entry.2 | None => m end.

Lemma set_has_type m name o v : getOptionsByID name = Some o → has_type name o v → set m name v = Some (inl (put_value m name v)).
Proof. intros Ho Ht. unfold set, has_type in *. rewrite Ho. destruct (conftype o); try done; [by rewrite Ht | by destruct Ht as [l ->] | by rewrite Ht]. Qed.

Lemma parseLine_entry m n v : writable (n, v) → parseLine m (n ++ lit " = " ++ v) = Some (Line_ok (put_entry m (n, v))).
Proof.
  intros (opt & o & Hn & Ho & Ht & Hv & Hv' & _). cbn [fst snd] in *. pose proof (long_name_ok _ _ Hn) as Hok. unfold name_ok in Hok.
  apply andb_prop in Hok as [Hok _]. apply andb_prop in Hok as [Hok H4%bool_decide_eq_true]. apply andb_prop in Hok as [Hok H3%bool_decide_eq_true]. apply andb_prop in Hok as [Hok H2%bool_decide_eq_true].
  assert (trim (n ++ lit " ") = n) as En. { apply (trim_between [] n (lit " ")); [done..|]. by split; [destruct n|]. }
  assert (trim (lit " " ++ v) = v) as Ev. { rewrite <- (app_nil_r v) at 1. apply trim_between; [done..|]. by apply trim_solid. }
  replace (n ++ lit " = " ++ v) with ((n ++ lit " ") ++ EQUALS :: (lit " " ++ v)) by (by rewrite <- app_assoc).
  unfold parseLine, put_entry. rewrite split_equals_app by (rewrite elem_of_app; intros [?|?%list_elem_of_singleton]; done). cbn [fst snd]. rewrite En, Ev.
  destruct n as [|c n]; [done|]. cbn [app]. apply negb_true_iff in Hok. rewrite Hok. destruct v as [|d v]; [done|]. rewrite Hn, (set_has_type _ _ o) by done. done.
Qed.

Lemma newline_sep : NEWLINE ∉ lit " = ".
Proof. apply (bool_decide_unpack _). vm_compute. exact I. Qed.
Lemma print_parse l m : (∀ e, e ∈ l → writable e) → parse_lines m [] (file_lines (l ≫= print_line)) = Some (foldl put_entry m l, false).
Proof.
  revert m. induction l as [|[n v] l IH]; intros m Hl; [done|]. cbn [mbind list_bind foldl]. pose proof (Hl (n, v) (list_elem_of_here _ _)) as Hw.
  pose proof Hw as (opt & o & Hn & _ & _ & Hv & Hv' & Hnl & Hbs). cbn [fst snd] in *. pose proof (long_name_ok _ _ Hn) as Hok. unfold name_ok in Hok.
  apply andb_prop in Hok as [Hok H5%bool_decide_eq_true]. apply andb_prop in Hok as [Hok _]. apply andb_prop in Hok as [Hok H3%bool_decide_eq_true]. apply andb_prop in Hok as [Hok H2%bool_decide_eq_true].
  unfold print_line at 1. cbn [fst snd]. rewrite <- !app_assoc. cbn [app]. rewrite (app_assoc (lit " = ")), (app_assoc n).
  rewrite file_lines_app by (rewrite !elem_of_app; intros [?|[?|?]]; [done | by apply newline_sep | done]). cbn [parse_lines app].
  assert (solid (n ++ lit " = " ++ v)) as Hs by (apply solid_app; [by split; [destruct n|] | by apply trim_solid]).
  assert (trim (n ++ lit " = " ++ v) = n ++ lit " = " ++ v) as -> by (etransitivity; [|apply (trim_between [] _ [] eq_refl eq_refl Hs)]; by rewrite app_nil_r).
  assert (back (n ++ lit " = " ++ v) ≠ BACKSLASH) as Hb.
  { unfold back. rewrite app_assoc, last_app. destruct (last v) as [c|] eqn:El; [|by apply last_None in El]. cbn [default from_option]. unfold id. congruence. }
  destruct (Ascii.eqb_spec (back (n ++ lit " = " ++ v)) BACKSLASH); [done|]. rewrite parseLine_entry by done. cbn [mbind option_bind]. apply IH. intros e He. apply Hl. by right.
Qed.

(** a configuration file is read as it is written.  A file that has a line of the form name = value for each of some options, with values of their types that fit in a line, is
    parsed to its end without an error, and gives exactly these values, the last one for an option that occurs more than once. *)
Theorem config_file_read l : (∀ e, e ∈ l → writable e) → ConfigFile_parse (l ≫= print_line) = Some (foldl put_entry empty_map l, false).
Proof. apply print_parse. Qed.
(** ** What the files and lists do not do *)

(** A value that does not have its type ends the parsing without an error: the lines behind it are ignored. *)
Lemma bad_value_hides_rest rest : ConfigFile_parse (lit "port = x" ++ NEWLINE :: rest) = Some (empty_map, false).
Proof. unfold ConfigFile_parse. rewrite file_lines_app by (apply (bool_decide_unpack _); vm_compute; exact I). vm_compute. reflexivity. Qed.
(** The same for an option that is only for the command line. *)
Lemma cmdline_only_hides_rest rest : ConfigFile_parse (lit "push = true" ++ NEWLINE :: rest) = Some (empty_map, false).
Proof. unfold ConfigFile_parse. rewrite file_lines_app by (apply (bool_decide_unpack _); vm_compute; exact I). vm_compute. reflexivity. Qed.
(** A number that does not fit raises an exception that nothing catches. *)
Lemma big_number_aborts : ConfigFile_parse (lit "port = 9223372036854775808") = None.
Proof. vm_compute. reflexivity. Qed.
(** Only the first occurrence of the token is looked at: a term that ends in it hides a reset. *)
Lemma hidden_reset : mergeLists (lit "/MYNONE:NONE:/a") (lit "/b") = lit "/MYNONE:NONE:/a:/b".
Proof. vm_compute. reflexivity. Qed.
End config.

(** ** The defaults of a build *)

Definition default_ok (b : build) (o : SpindleOption) : Prop :=
  cmdline_only (config_id o) = true ∨ default_value o = [] ∨ ∃ o', getOptionsByID b (config_id o) = Some o' ∧ has_type b (config_id o) o' (default_value o).
Lemma set_defaults_ok b l m : Forall (default_ok b) l → ∃ r, set_defaults b m l = Some (inl r).
Proof.
  intros H. revert m. induction H as [|o l Ho _ IH]; intros m; cbn [set_defaults]; [by eexists|]. destruct (cmdline_only (config_id o)) eqn:Ec; [apply IH|].
  destruct (default_value o) as [|c s] eqn:Ed; [apply IH|]. destruct Ho as [Ho|[Ho|(o' & Ho & Ht)]]; [congruence..|].
  rewrite Ed in Ht. rewrite (set_has_type b m (config_id o) o' (c :: s) Ho Ht). cbn [mbind option_bind]. apply IH.
Qed.
(** No default is rejected, when the ports of the build are numbers and the launcher that is tested is a known one. *)
Lemma defaults_accepted d : (∀ p, SPINDLE_PORT d = Some p → ∃ l, strToLong p = Some (true, l)) → (∀ p, NUM_COBO_PORTS d = Some p → ∃ l, strToLong p = Some (true, l)) →
  (∀ rm, TESTRM d = Some rm → fst (strToEnum (build_of d) confJoblauncher rm) = true) → ∃ r, getDefaultsConfigMap (build_of d) empty_map = Some (inl r).
Proof.
  intros H1 H2 H3. apply set_defaults_ok.
  assert (∀ x, fst (strToBool (bool_str x)) = true) as Hb by (intros []; reflexivity).
  unfold Options. repeat (apply Forall_cons; split); try (by apply Forall_nil);
    first [ by left | by right; left | right; right; eexists; split; [reflexivity|]; unfold has_type; cbn [conftype config_id default_value] ];
    try exact I; try (cbn [build_of CLEANUP_PROC_STR DEFAULT_CALC_TLS DEFAULT_CRASH_DEDUP_STR DEFAULT_PATCH_LDSO DISABLE_LOGGING_STR RSHLAUNCH_STR]; apply Hb); try reflexivity;
    cbn [build_of SPINDLE_PORT_STR SPINDLE_NUM_PORTS_STR SHMCACHE_SIZE_STR SECURITY_DEFAULT_STR DEFAULT_LAUNCHER_STR AUDITTYPE_STR].
  - destruct (SPINDLE_PORT d) as [p|]; [by apply H1 | by eexists].
  - destruct (NUM_COBO_PORTS d) as [p|]; [by apply H2 | by eexists].
  - by destruct (MUNGE d), (KEYFILE d), (SECLMON d).
  - destruct (TESTRM d) as [rm|]; [by apply H3 | by destruct (ENABLE_FLUX_PLUGIN d), (ENABLE_SLURM_PLUGIN d), (ENABLE_SLURM d)].
  - by destruct (USE_SUBAUDIT_BY_DEFAULT d).
  - destruct (os_bluegene d); by eexists.
  - by eexists.
  - by eexists.
Qed.

(** ** An example *)

Definition example_build : build :=
  mk_build (lit "audit") (lit "false") (lit "true") (lit "false") (lit "serial") (lit "true") (lit "false") (lit "false") [] (lit "/usr/lib/python") (lit "ssh") (lit "false") (lit "munge")
    (lit "0") (lit "$TMPDIR") (lit "$TMPDIR") (lit "/opt") (lit "25") (lit "21940").
Definition example_system : option bytes := Some (lit "port = 7000" ++ NEWLINE :: lit "cache-prefix = /sys" ++ NEWLINE :: lit "strip=no").
Definition example_user : option bytes := Some (lit "# mine" ++ NEWLINE :: lit "cache-prefix = /usr" ++ NEWLINE :: lit "  port = 0x1f40  ").
Definition example_calls : list argp_call := [Key shortCachePrefix (Some (lit "/cmd")); Key shortPush None; Key shortSpindleLevel (Some (lit "HIGH")); ARGP_KEY_ARG; ARGP_KEY_ARGS [lit "ls"]; ARGP_KEY_END].
Definition example_gather (config argmap : ConfigMap) : option (ConfigMap * ConfigMap * bool) :=
  gatherAllConfigInfo example_build "000" config argmap example_system example_user example_calls.

Definition gathered_list (r : option (ConfigMap * ConfigMap * bool)) (name : SpindleConfigID) : option bytes :=
  match r with Some (c, _, true) => name_values c !! name | _ => None end.

(** The configuration and the arguments are kept: a second call joins the same lists again. *)
Lemma lists_joined_again : gathered_list (example_gather empty_map empty_map) confCachePrefix = Some (lit "/cmd:/usr:/sys") ∧
  gathered_list ('(c, a, _) ← example_gather empty_map empty_map; example_gather c a) confCachePrefix = Some (lit "/cmd:/usr:/sys:/cmd:/usr:/sys").
Proof. split; vm_compute; reflexivity. Qed.

Lemma example_done : match example_gather empty_map empty_map with Some (_, _, ok) => ok | None => false end = true.
Proof. vm_compute. reflexivity. Qed.
Lemma config_typed_witness : ∃ c a, example_gather empty_map empty_map = Some (c, a, true) ∧ typed example_build c.
Proof.
  pose proof example_done as H. destruct (example_gather empty_map empty_map) as [[[c a] ok]|] eqn:E; [|discriminate]. subst ok. exists c, a. split; [reflexivity|].
  apply (config_typed example_build "000" empty_map empty_map example_system example_user example_calls c a true (empty_typed _) (empty_typed _) E).
Defined.

Definition example_lines : list (bytes * bytes) := [(lit "port", lit "7000"); (lit "level", lit "High"); (lit "port", lit "8000")].
Lemma config_file_read_witness : ConfigFile_parse example_build "000" (example_lines ≫= print_line) =
  Some (put_value (put_value (put_value empty_map confPort (lit "7000")) confSpindleLevel (lit "High")) confPort (lit "8000"), false).
Proof.
  etransitivity; [apply (config_file_read example_build "000" example_lines) | vm_compute; reflexivity].
  assert (∀ v, strToLong v = Some (true, 7000) ∨ strToLong v = Some (true, 8000) → v ≠ [] → trim v = v → NEWLINE ∉ v → last v ≠ Some BACKSLASH → writable example_build (lit "port", v)) as Hp.
  { intros v Hv H1 H2 H3 H4. exists (mk_option confPort (lit "port") shortPort cvInteger [] (SPINDLE_PORT_STR example_build)), (mk_option confPort (lit "port") shortPort cvInteger [] (SPINDLE_PORT_STR example_build)).
    split; [vm_compute; reflexivity|]. split; [vm_compute; reflexivity|]. split; [destruct Hv; eexists; eassumption|]. by split. }
  intros e He. apply elem_of_cons in He as [->|He]; [|apply elem_of_cons in He as [->|He%list_elem_of_singleton]; [|subst e]].
  - apply Hp; [left; vm_compute; reflexivity | done | vm_compute; reflexivity | apply (bool_decide_unpack _); vm_compute; exact I | done].
  - pose (o := mk_option confSpindleLevel (lit "level") shortSpindleLevel cvEnum [lit "high"; lit "medium"; lit "low"; lit "off"; lit "default"] (lit "default")). exists o, o.
    split; [vm_compute; reflexivity|]. split; [vm_compute; reflexivity|]. split; [vm_compute; reflexivity|].
    split; [done|]. split; [vm_compute; reflexivity|]. split; [apply (bool_decide_unpack _); vm_compute; exact I | done].
  - apply Hp; [right; vm_compute; reflexivity | done | vm_compute; reflexivity | apply (bool_decide_unpack _); vm_compute; exact I | done].
Defined.
End Config.
