(* ===== verification/ConfigArgs.v ===== *)
(** * From the configuration to the arguments of Spindle

    [toSpindleArgs] of [fe/startup/config_mgr.cc] with what it uses: the values of a configuration become the bits and fields of [spindle_args_t] in the order of the enumeration of
    options.  The environment, the working directory, random numbers and host names are parameters. *)

From Stdlib Require Import Ascii String ZArith Lia.
From stdpp Require Import strings numbers gmap list.
From S2P Require Import Prelude Bytes Cache GlobalName Parseloc Config.
Import Config.

Module ConfigArgs.

(** ** The arguments *)

(** Fields that are strings can be null pointers. *)
Record spindle_args_t := mk_args {
  a_port : Z;
  a_num_ports : Z;
  a_opts : Z;
  a_use_launcher : Z;
  a_startup_type : Z;
  a_shm_cache_size : Z;
  a_commpaths : option bytes;
  a_candidate_cachepaths : option bytes;
  a_pythonprefix : option bytes;
  a_preloadfile : option bytes;
  a_bundle_timeout_ms : Z;
  a_bundle_cachesize_kb : Z;
  a_numa_files : option bytes;
  a_numa_excludes : option bytes;
  a_rsh_command : option bytes;
  a_local_prefixes : option bytes;
  a_exec_excludes : option bytes;
  a_crash_log : option bytes;
}.
Definition set_port (x : Z) (a : spindle_args_t) : spindle_args_t :=
  let 'mk_args _ num_ports opts use_launcher startup_type shm_cache_size commpaths candidate_cachepaths pythonprefix preloadfile bundle_timeout_ms bundle_cachesize_kb numa_files numa_excludes rsh_command local_prefixes exec_excludes crash_log := a in
  mk_args x num_ports opts use_launcher startup_type shm_cache_size commpaths candidate_cachepaths pythonprefix preloadfile bundle_timeout_ms bundle_cachesize_kb numa_files numa_excludes rsh_command local_prefixes exec_excludes crash_log.
Definition set_num_ports (x : Z) (a : spindle_args_t) : spindle_args_t :=
  let 'mk_args port _ opts use_launcher startup_type shm_cache_size commpaths candidate_cachepaths pythonprefix preloadfile bundle_timeout_ms bundle_cachesize_kb numa_files numa_excludes rsh_command local_prefixes exec_excludes crash_log := a in
  mk_args port x opts use_launcher startup_type shm_cache_size commpaths candidate_cachepaths pythonprefix preloadfile bundle_timeout_ms bundle_cachesize_kb numa_files numa_excludes rsh_command local_prefixes exec_excludes crash_log.
Definition set_opts (x : Z) (a : spindle_args_t) : spindle_args_t :=
  let 'mk_args port num_ports _ use_launcher startup_type shm_cache_size commpaths candidate_cachepaths pythonprefix preloadfile bundle_timeout_ms bundle_cachesize_kb numa_files numa_excludes rsh_command local_prefixes exec_excludes crash_log := a in
  mk_args port num_ports x use_launcher startup_type shm_cache_size commpaths candidate_cachepaths pythonprefix preloadfile bundle_timeout_ms bundle_cachesize_kb numa_files numa_excludes rsh_command local_prefixes exec_excludes crash_log.
Definition set_use_launcher (x : Z) (a : spindle_args_t) : spindle_args_t :=
  let 'mk_args port num_ports opts _ startup_type shm_cache_size commpaths candidate_cachepaths pythonprefix preloadfile bundle_timeout_ms bundle_cachesize_kb numa_files numa_excludes rsh_command local_prefixes exec_excludes crash_log := a in
  mk_args port num_ports opts x startup_type shm_cache_size commpaths candidate_cachepaths pythonprefix preloadfile bundle_timeout_ms bundle_cachesize_kb numa_files numa_excludes rsh_command local_prefixes exec_excludes crash_log.
Definition set_startup_type (x : Z) (a : spindle_args_t) : spindle_args_t :=
  let 'mk_args port num_ports opts use_launcher _ shm_cache_size commpaths candidate_cachepaths pythonprefix preloadfile bundle_timeout_ms bundle_cachesize_kb numa_files numa_excludes rsh_command local_prefixes exec_excludes crash_log := a in
  mk_args port num_ports opts use_launcher x shm_cache_size commpaths candidate_cachepaths pythonprefix preloadfile bundle_timeout_ms bundle_cachesize_kb numa_files numa_excludes rsh_command local_prefixes exec_excludes crash_log.
Definition set_shm_cache_size (x : Z) (a : spindle_args_t) : spindle_args_t :=
  let 'mk_args port num_ports opts use_launcher startup_type _ commpaths candidate_cachepaths pythonprefix preloadfile bundle_timeout_ms bundle_cachesize_kb numa_files numa_excludes rsh_command local_prefixes exec_excludes crash_log := a in
  mk_args port num_ports opts use_launcher startup_type x commpaths candidate_cachepaths pythonprefix preloadfile bundle_timeout_ms bundle_cachesize_kb numa_files numa_excludes rsh_command local_prefixes exec_excludes crash_log.
Definition set_commpaths (x : option bytes) (a : spindle_args_t) : spindle_args_t :=
  let 'mk_args port num_ports opts use_launcher startup_type shm_cache_size _ candidate_cachepaths pythonprefix preloadfile bundle_timeout_ms bundle_cachesize_kb numa_files numa_excludes rsh_command local_prefixes exec_excludes crash_log := a in
  mk_args port num_ports opts use_launcher startup_type shm_cache_size x candidate_cachepaths pythonprefix preloadfile bundle_timeout_ms bundle_cachesize_kb numa_files numa_excludes rsh_command local_prefixes exec_excludes crash_log.
Definition set_candidate_cachepaths (x : option bytes) (a : spindle_args_t) : spindle_args_t :=
  let 'mk_args port num_ports opts use_launcher startup_type shm_cache_size commpaths _ pythonprefix preloadfile bundle_timeout_ms bundle_cachesize_kb numa_files numa_excludes rsh_command local_prefixes exec_excludes crash_log := a in
  mk_args port num_ports opts use_launcher startup_type shm_cache_size commpaths x pythonprefix preloadfile bundle_timeout_ms bundle_cachesize_kb numa_files numa_excludes rsh_command local_prefixes exec_excludes crash_log.
Definition set_pythonprefix (x : option bytes) (a : spindle_args_t) : spindle_args_t :=
  let 'mk_args port num_ports opts use_launcher startup_type shm_cache_size commpaths candidate_cachepaths _ preloadfile bundle_timeout_ms bundle_cachesize_kb numa_files numa_excludes rsh_command local_prefixes exec_excludes crash_log := a in
  mk_args port num_ports opts use_launcher startup_type shm_cache_size commpaths candidate_cachepaths x preloadfile bundle_timeout_ms bundle_cachesize_kb numa_files numa_excludes rsh_command local_prefixes exec_excludes crash_log.
Definition set_preloadfile (x : option bytes) (a : spindle_args_t) : spindle_args_t :=
  let 'mk_args port num_ports opts use_launcher startup_type shm_cache_size commpaths candidate_cachepaths pythonprefix _ bundle_timeout_ms bundle_cachesize_kb numa_files numa_excludes rsh_command local_prefixes exec_excludes crash_log := a in
  mk_args port num_ports opts use_launcher startup_type shm_cache_size commpaths candidate_cachepaths pythonprefix x bundle_timeout_ms bundle_cachesize_kb numa_files numa_excludes rsh_command local_prefixes exec_excludes crash_log.
Definition set_bundle_timeout_ms (x : Z) (a : spindle_args_t) : spindle_args_t :=
  let 'mk_args port num_ports opts use_launcher startup_type shm_cache_size commpaths candidate_cachepaths pythonprefix preloadfile _ bundle_cachesize_kb numa_files numa_excludes rsh_command local_prefixes exec_excludes crash_log := a in
  mk_args port num_ports opts use_launcher startup_type shm_cache_size commpaths candidate_cachepaths pythonprefix preloadfile x bundle_cachesize_kb numa_files numa_excludes rsh_command local_prefixes exec_excludes crash_log.
Definition set_bundle_cachesize_kb (x : Z) (a : spindle_args_t) : spindle_args_t :=
  let 'mk_args port num_ports opts use_launcher startup_type shm_cache_size commpaths candidate_cachepaths pythonprefix preloadfile bundle_timeout_ms _ numa_files numa_excludes rsh_command local_prefixes exec_excludes crash_log := a in
  mk_args port num_ports opts use_launcher startup_type shm_cache_size commpaths candidate_cachepaths pythonprefix preloadfile bundle_timeout_ms x numa_files numa_excludes rsh_command local_prefixes exec_excludes crash_log.
Definition set_numa_files (x : option bytes) (a : spindle_args_t) : spindle_args_t :=
  let 'mk_args port num_ports opts use_launcher startup_type shm_cache_size commpaths candidate_cachepaths pythonprefix preloadfile bundle_timeout_ms bundle_cachesize_kb _ numa_excludes rsh_command local_prefixes exec_excludes crash_log := a in
  mk_args port num_ports opts use_launcher startup_type shm_cache_size commpaths candidate_cachepaths pythonprefix preloadfile bundle_timeout_ms bundle_cachesize_kb x numa_excludes rsh_command local_prefixes exec_excludes crash_log.
Definition set_numa_excludes (x : option bytes) (a : spindle_args_t) : spindle_args_t :=
  let 'mk_args port num_ports opts use_launcher startup_type shm_cache_size commpaths candidate_cachepaths pythonprefix preloadfile bundle_timeout_ms bundle_cachesize_kb numa_files _ rsh_command local_prefixes exec_excludes crash_log := a in
  mk_args port num_ports opts use_launcher startup_type shm_cache_size commpaths candidate_cachepaths pythonprefix preloadfile bundle_timeout_ms bundle_cachesize_kb numa_files x rsh_command local_prefixes exec_excludes crash_log.
Definition set_rsh_command (x : option bytes) (a : spindle_args_t) : spindle_args_t :=
  let 'mk_args port num_ports opts use_launcher startup_type shm_cache_size commpaths candidate_cachepaths pythonprefix preloadfile bundle_timeout_ms bundle_cachesize_kb numa_files numa_excludes _ local_prefixes exec_excludes crash_log := a in
  mk_args port num_ports opts use_launcher startup_type shm_cache_size commpaths candidate_cachepaths pythonprefix preloadfile bundle_timeout_ms bundle_cachesize_kb numa_files numa_excludes x local_prefixes exec_excludes crash_log.
Definition set_local_prefixes (x : option bytes) (a : spindle_args_t) : spindle_args_t :=
  let 'mk_args port num_ports opts use_launcher startup_type shm_cache_size commpaths candidate_cachepaths pythonprefix preloadfile bundle_timeout_ms bundle_cachesize_kb numa_files numa_excludes rsh_command _ exec_excludes crash_log := a in
  mk_args port num_ports opts use_launcher startup_type shm_cache_size commpaths candidate_cachepaths pythonprefix preloadfile bundle_timeout_ms bundle_cachesize_kb numa_files numa_excludes rsh_command x exec_excludes crash_log.
Definition set_exec_excludes (x : option bytes) (a : spindle_args_t) : spindle_args_t :=
  let 'mk_args port num_ports opts use_launcher startup_type shm_cache_size commpaths candidate_cachepaths pythonprefix preloadfile bundle_timeout_ms bundle_cachesize_kb numa_files numa_excludes rsh_command local_prefixes _ crash_log := a in
  mk_args port num_ports opts use_launcher startup_type shm_cache_size commpaths candidate_cachepaths pythonprefix preloadfile bundle_timeout_ms bundle_cachesize_kb numa_files numa_excludes rsh_command local_prefixes x crash_log.
Definition set_crash_log (x : option bytes) (a : spindle_args_t) : spindle_args_t :=
  let 'mk_args port num_ports opts use_launcher startup_type shm_cache_size commpaths candidate_cachepaths pythonprefix preloadfile bundle_timeout_ms bundle_cachesize_kb numa_files numa_excludes rsh_command local_prefixes exec_excludes _ := a in
  mk_args port num_ports opts use_launcher startup_type shm_cache_size commpaths candidate_cachepaths pythonprefix preloadfile bundle_timeout_ms bundle_cachesize_kb numa_files numa_excludes rsh_command local_prefixes exec_excludes x.

Definition OPT_COBO : Z := 2 ^ 1.
Definition OPT_DEBUG : Z := 2 ^ 2.
Definition OPT_FOLLOWFORK : Z := 2 ^ 3.
Definition OPT_PRELOAD : Z := 2 ^ 4.
Definition OPT_PUSH : Z := 2 ^ 5.
Definition OPT_PULL : Z := 2 ^ 6.
Definition OPT_RELOCAOUT : Z := 2 ^ 7.
Definition OPT_RELOCSO : Z := 2 ^ 8.
Definition OPT_RELOCEXEC : Z := 2 ^ 9.
Definition OPT_RELOCPY : Z := 2 ^ 10.
Definition OPT_STRIP : Z := 2 ^ 11.
Definition OPT_NOCLEAN : Z := 2 ^ 12.
Definition OPT_NOHIDE : Z := 2 ^ 13.
Definition OPT_REMAPEXEC : Z := 2 ^ 14.
Definition OPT_LOGUSAGE : Z := 2 ^ 15.
Definition OPT_SHMCACHE : Z := 2 ^ 16.
Definition OPT_SUBAUDIT : Z := 2 ^ 17.
Definition OPT_PERSIST : Z := 2 ^ 18.
Definition OPT_SESSION : Z := 2 ^ 22.
Definition OPT_MSGBUNDLE : Z := 2 ^ 23.
Definition OPT_SELFLAUNCH : Z := 2 ^ 24.
Definition OPT_BEEXIT : Z := 2 ^ 25.
Definition OPT_PROCCLEAN : Z := 2 ^ 26.
Definition OPT_RSHLAUNCH : Z := 2 ^ 27.
Definition OPT_STOPRELOC : Z := 2 ^ 28.
Definition OPT_NUMA : Z := 2 ^ 29.
Definition OPT_OFF : Z := 2 ^ 30.
Definition OPT_PATCHLDSO : Z := 2 ^ 31.
Definition OPT_CRASH_HANDLER : Z := 2 ^ 32.
Definition OPT_CRASH_LOG : Z := 2 ^ 33.
Definition OPT_CRASH_ALTSTACK : Z := 2 ^ 34.
Definition OPT_CALCTLS : Z := 2 ^ 35.
Definition OPT_SEC_MUNGE : Z := 0.
Definition OPT_SEC_KEYLMON : Z := 1.
Definition OPT_SEC_KEYFILE : Z := 2.
Definition OPT_SEC_NULL : Z := 3.
Definition srun_launcher : Z := 2 ^ 0.
Definition serial_launcher : Z := 2 ^ 1.
Definition openmpi_launcher : Z := 2 ^ 2.
Definition wreckrun_launcher : Z := 2 ^ 3.
Definition marker_launcher : Z := 2 ^ 4.
Definition external_launcher : Z := 2 ^ 5.
Definition slurm_plugin_launcher : Z := 2 ^ 6.
Definition jsrun_launcher : Z := 2 ^ 7.
Definition lrun_launcher : Z := 2 ^ 8.
Definition flux_plugin_launcher : Z := 2 ^ 9.
Definition flux_session_launcher : Z := 2 ^ 10.
Definition startup_serial : Z := 0.
Definition startup_lmon : Z := 1.
Definition startup_hostbin : Z := 2.
Definition startup_external : Z := 3.
Definition startup_mpi : Z := 4.
Definition startup_unknown : Z := 5.
Definition startup_lsf : Z := 6.

Section args.
Context (b : build) (getenv : bytes → option bytes) (getcwd : option bytes) (is_directory : bytes → bool) (random_number : Z).

Definition setopt (optv opttype : Z) (setv : bool) : Z := if setv then Z.lor optv opttype else Z.ldiff optv opttype.
Definition opt_ (opttype : Z) (setv : bool) (a : spindle_args_t) : spindle_args_t := set_opts (setopt (a_opts a) opttype setv) a.
Definition OPT_SET_SEC (x : Z) (a : spindle_args_t) : spindle_args_t := set_opts (Z.lor (a_opts a) (Z.shiftl x 19)) a.

(** [number_saved] is kept. *)
Definition getNumber (m : ConfigMap) : Z := if number_saved m =? 0 then random_number else number_saved m.

(** The characters are signed, the sum is a 64-bit one of which 32 bits are returned. *)
Definition str_hash (s : bytes) : Z := fold_left (λ hash c, (hash * 33 + to_signed 8 (byte_val c)) mod 2 ^ 64) (cstr s) 5381 mod 2 ^ 32.
(** The process, the host and what is read from the random device, [None] when that fails.  The map keeps the id; [None] when [false] is returned. *)
Definition getUniqueID (pid : Z) (hostname : bytes) (random : option Z) (m : ConfigMap) : option (ConfigMap * Z) :=
  if negb (unique_id_saved m =? 0) then Some (m, unique_id_saved m)
  else
    let hostname_hash := str_hash (take 255 hostname) mod 2 ^ 16 in
    random ← random;
    let unique_id := Z.lor (Z.lor (pid mod 2 ^ 16) (Z.shiftl hostname_hash 16)) (Z.shiftl random 32) in
    Some (mk_map (name_values m) (app_commandline m) unique_id (number_saved m), unique_id).

Definition default_template : bytes := lit "spindle-crash-log.$NUMBER".
(** [Some None] is a null pointer. *)
Definition resolve_crash_log_path (value : option bytes) (number : Z) : option (option bytes) :=
  let template := match value with Some (c :: s) => c :: s | _ => default_template end in
  match Parseloc.parse_location getenv number template with
  | Parseloc.Overrun => None
  | Parseloc.Failed => Some None
  | Parseloc.Located path =>
      let absolute := match path with c :: _ => if Ascii.eqb c "/" then Some path else None | [] => None end in
      match (match absolute with Some p => Some p | None => cwd ← getcwd; Some (cwd ++ lit "/" ++ path) end) with
      | None => Some None
      | Some path =>
          if is_directory path then
            match Parseloc.parse_location getenv number default_template with
            | Parseloc.Overrun => None
            | Parseloc.Failed => Some None
            | Parseloc.Located filename => Some (Some (path ++ (if bool_decide (last path = Some "/"%char) then [] else lit "/") ++ filename))
            end
          else Some (Some path)
      end
  end.

(** Each path of a list that is separated by colons gets a directory for the session. *)
Definition number_paths (s : bytes) : bytes := (s ≫= λ c, if Ascii.eqb c COLON then lit "/spindle.$NUMBER:" else [c]) ++ lit "/spindle.$NUMBER".

Definition set_level (level : bytes) (a : spindle_args_t) : spindle_args_t :=
  let relocs aout so py exec fork stop off a :=
    opt_ OPT_OFF off (opt_ OPT_STOPRELOC stop (opt_ OPT_FOLLOWFORK fork (opt_ OPT_RELOCEXEC exec (opt_ OPT_RELOCPY py (opt_ OPT_RELOCSO so (opt_ OPT_RELOCAOUT aout a)))))) in
  if bool_decide (level = lit "default") then opt_ OPT_OFF false a
  else if bool_decide (level = lit "high") then relocs true true true true true false false a
  else if bool_decide (level = lit "medium") then relocs false true true false true false false a
  else if bool_decide (level = lit "low") then relocs false false false false true true false a
  else if bool_decide (level = lit "off") then relocs false false false false false false true a
  else a.

(** [None] when the launcher is not known. *)
Definition set_launcher (launcher : bytes) (a : spindle_args_t) : option spindle_args_t :=
  let both s l := Some (set_use_launcher l (set_startup_type s a)) in
  if bool_decide (launcher = lit "slurm") then both startup_mpi srun_launcher
  else if bool_decide (launcher = lit "flux-plugin") then both startup_external flux_plugin_launcher
  else if bool_decide (launcher = lit "flux") then both startup_mpi flux_session_launcher
  else if bool_decide (launcher = lit "slurm-plugin") then both startup_external slurm_plugin_launcher
  else if bool_decide (launcher = lit "serial") then both startup_serial serial_launcher
  else if bool_decide (launcher = lit "hostbin") then both startup_hostbin marker_launcher
  else if bool_decide (launcher = lit "unknown") then Some a
  else None.

Definition set_security (mode : bytes) (a : spindle_args_t) : option spindle_args_t :=
  if bool_decide (mode = lit "munge") then Some (OPT_SET_SEC OPT_SEC_MUNGE a)
  else if bool_decide (mode = lit "keyfile") then Some (OPT_SET_SEC OPT_SEC_KEYFILE a)
  else if bool_decide (mode = lit "launchmon") then Some (OPT_SET_SEC OPT_SEC_KEYLMON a)
  else if bool_decide (mode = lit "none") then Some (OPT_SET_SEC OPT_SEC_NULL a)
  else None.

(** The number of a value of [cvInteger] and the truth of one of [cvBool], 0 and false for other types; [Some None] when the value does not have its type. *)
Definition typed_value (name : SpindleConfigID) (conftype : ConfigValueType) (value : bytes) : option (option (Z * bool)) :=
  match conftype with
  | cvBool => let '(ok, v) := strToBool value in Some (if ok then Some (0, v) else None)
  | cvInteger => '(ok, l) ← strToLong value; Some (if ok : bool then Some (l, false) else None)
  | cvEnum => Some (if fst (strToEnum b name value) then Some (0, false) else None)
  | _ => Some (Some (0, false))
  end.

Definition str (s : bytes) : option bytes := Some (cstr s).

(** One value; [Some None] when [false] is returned. *)
Definition apply_option (number : Z) (name : SpindleConfigID) (strresult : bytes) (numresult : Z) (boolresult : bool) (a : spindle_args_t) : option (option spindle_args_t) :=
  let ok a := Some (Some a) in
  let flag opttype := ok (opt_ opttype boolresult a) in
  match name with
  | confCmdlineOnly | confCmdlineNewgroup => ok a
  | confPort => ok (set_port (wrap32 numresult) a)
  | confNumPorts => ok (set_num_ports (wrap32 numresult) a)
  | confCommPaths => ok (set_commpaths (str (number_paths strresult)) a)
  | confCachePaths => ok (set_candidate_cachepaths (str (number_paths strresult)) a)
  | confCachePrefix | confPythonPrefix =>
      ok (set_pythonprefix (match a_pythonprefix a with Some p => str (p ++ lit ":" ++ strresult) | None => str strresult end) a)
  | confExecExcludes => ok (set_exec_excludes (str strresult) a)
  | confLocalPrefix => ok (set_local_prefixes (str strresult) a)
  | confStrip => flag OPT_STRIP
  | confRelocAout => flag OPT_RELOCAOUT
  | confRelocLibs => flag OPT_RELOCSO
  | confRelocPython => flag OPT_RELOCPY
  | confRelocExec => flag OPT_RELOCEXEC
  | confFollowFork => flag OPT_FOLLOWFORK
  | confStopReloc => flag OPT_STOPRELOC
  | confSpindleLevel => ok (set_level strresult a)
  | confPushpull => if bool_decide (strresult = lit "pull") then ok (opt_ OPT_PUSH false (opt_ OPT_PULL true a)) else ok (opt_ OPT_PULL false (opt_ OPT_PUSH true a))
  | confNetwork => if bool_decide (strresult = lit "cobo") then ok (opt_ OPT_COBO true a) else ok a
  | confSecurity => Some (set_security strresult a)
  | confJoblauncher => Some (set_launcher strresult a)
  | confNuma => flag OPT_NUMA
  | confNumaIncludes => ok (set_numa_files (str strresult) (opt_ OPT_NUMA true a))
  | confNumaExcludes => ok (set_numa_excludes (str strresult) a)
  | confAuditType =>
      if bool_decide (strresult = lit "audit") then ok (opt_ OPT_SUBAUDIT false a)
      else if bool_decide (strresult = lit "subaudit") then ok (opt_ OPT_SUBAUDIT true a)
      else Some None
  | confShmcacheSize => ok (opt_ OPT_SHMCACHE (negb (numresult =? 0)) (set_shm_cache_size (wrap32 numresult) a))
  | confDebug => flag OPT_DEBUG
  | confPreload => ok (set_preloadfile (str strresult) a)
  | confHostbin => match strresult with [] => ok a | _ => ok (set_use_launcher marker_launcher (set_startup_type startup_hostbin a)) end
  | confNoclean => flag OPT_NOCLEAN
  | confDisableLogging => ok (opt_ OPT_LOGUSAGE (negb boolresult) a)
  | confNoHide => flag OPT_NOHIDE
  | confPersist => flag OPT_PERSIST
  | confMsgcacheBuffer => if numresult =? 0 then ok (opt_ OPT_MSGBUNDLE false a) else ok (set_bundle_cachesize_kb (wrap32 numresult) (opt_ OPT_MSGBUNDLE true a))
  | confMsgcacheTimeout => if numresult =? 0 then ok (opt_ OPT_MSGBUNDLE false a) else ok (set_bundle_timeout_ms (wrap32 numresult) (opt_ OPT_MSGBUNDLE true a))
  | confCleanupProc => flag OPT_PROCCLEAN
  | confEnableRsh => flag OPT_RSHLAUNCH
  | confRshCommand => ok (set_rsh_command (str strresult) a)
  | confStartSession | confStartMultiSession => flag OPT_SESSION
  | confEndSession | confRunSession => ok (opt_ OPT_SESSION (match strresult with [] => false | _ => true end) a)
  | confPatchLdso => flag OPT_PATCHLDSO
  | confCrashDedup => flag OPT_CRASH_HANDLER
  | confCalcTLS => ok (opt_ OPT_CRASH_ALTSTACK boolresult (opt_ OPT_CALCTLS boolresult a))    (** there is no [break] *)
  | confCrashAltstack => flag OPT_CRASH_ALTSTACK
  | confCrashLog =>
      path ← resolve_crash_log_path (match strresult with [] => None | _ => str strresult end) number;
      Some (p ← path; Some (opt_ OPT_CRASH_HANDLER true (opt_ OPT_CRASH_LOG true (set_crash_log (Some p) a))))
  end.

Fixpoint apply_options (number : Z) (l : list (SpindleConfigID * bytes)) (a : spindle_args_t) : option (option spindle_args_t) :=
  match l with
  | [] => Some (Some a)
  | (name, value) :: l' =>
      match getOptionsByID b name with
      | None => Some None
      | Some opt =>
          t ← typed_value name (conftype opt) value;
          match t with
          | None => Some None
          | Some (numresult, boolresult) =>
              r ← apply_option number name value numresult boolresult a;
              match r with None => Some None | Some a => apply_options number l' a end
          end
      end
  end.

(** Options that depend on others. *)
Definition option_dependencies (a : spindle_args_t) : spindle_args_t :=
  let a := if a_startup_type a =? startup_serial then opt_ OPT_RSHLAUNCH false a else a in
  let a := if negb (Z.land (a_opts a) OPT_SESSION =? 0) then set_opts (Z.lor (a_opts a) OPT_PERSIST) a else a in
  if negb (Z.land (a_opts a) OPT_DEBUG =? 0) then set_opts (Z.lor (a_opts a) OPT_REMAPEXEC) a else a.

Definition toSpindleArgs (m : ConfigMap) (a : spindle_args_t) : option (option spindle_args_t) :=
  r ← apply_options (getNumber m) (entries m) a;
  Some (option_map option_dependencies r).

(** ** Success *)

(** The words of enumerations as the table spells them. *)
Definition literal (m : ConfigMap) : Prop := ∀ name opt v, name_values m !! name = Some v → getOptionsByID b name = Some opt → conftype opt = cvEnum → v ∈ enum_values opt.
Definition log_resolves (m : ConfigMap) : Prop :=
  ∀ v, name_values m !! confCrashLog = Some v → ∃ p, resolve_crash_log_path (match v with [] => None | _ => str v end) (getNumber m) = Some (Some p).

Lemma typed_value_ok name opt v : has_type b name opt v → ∃ n x, typed_value name (conftype opt) v = Some (Some (n, x)).
Proof.
  unfold has_type, typed_value. destruct (conftype opt); intros H; try (by eexists _, _).
  - destruct (strToBool v) as [[] x]; [by eexists _, _ | done].
  - destruct H as [l ->]. by eexists _, _.
  - rewrite H. by eexists _, _.
Qed.
Lemma apply_option_ok m name opt v n x a : log_resolves m → name_values m !! name = Some v → getOptionsByID b name = Some opt → (conftype opt = cvEnum → v ∈ enum_values opt) →
  ∃ a', apply_option (getNumber m) name v n x a = Some (Some a').
Proof.
  intros Hl Hv Ho He. destruct name; cbn [apply_option]; try (by eexists); try (case_match; by eexists).
  - injection Ho as <-. specialize (He eq_refl). cbn [enum_values] in He. unfold set_security. rewrite !elem_of_cons in He. destruct He as [->|[->|[->|[->|[]%elem_of_nil]]]]; vm_compute; by eexists.
  - injection Ho as <-. specialize (He eq_refl). cbn [enum_values] in He. unfold set_launcher. rewrite !elem_of_cons in He. destruct He as [->|[->|[->|[->|[->|[->|[->|[]%elem_of_nil]]]]]]]; vm_compute; by eexists.
  - injection Ho as <-. specialize (He eq_refl). cbn [enum_values] in He. rewrite !elem_of_cons in He. destruct He as [->|[->|[]%elem_of_nil]]; vm_compute; by eexists.
  - destruct (Hl _ Hv) as [p ->]. cbn [mbind option_bind]. by eexists.
Qed.
Lemma apply_options_ok m l a : typed b m → literal m → log_resolves m → (∀ name v, (name, v) ∈ l → name_values m !! name = Some v) → ∃ a', apply_options (getNumber m) l a = Some (Some a').
Proof.
  intros Ht Hlit Hlog. revert a. induction l as [|[name v] l IH]; intros a Hl; cbn [apply_options]; [by eexists|].
  pose proof (Hl _ _ (list_elem_of_here _ _)) as Hv. destruct (Ht _ _ Hv) as (opt & Ho & Hty). rewrite Ho. destruct (typed_value_ok _ _ _ Hty) as (n & x & ->). cbn [mbind option_bind].
  destruct (apply_option_ok m name opt v n x a Hlog Hv Ho (Hlit _ _ _ Hv Ho)) as [a1 ->]. cbn [mbind option_bind]. apply IH. intros. apply Hl. by right.
Qed.

(** ** Flags *)

Lemma setopt_bit o n v k : 0 ≤ n → Z.testbit (setopt o (2 ^ n) v) k = if k =? n then v else Z.testbit o k.
Proof.
  intros Hn. unfold setopt. destruct v; rewrite ?Z.lor_spec, ?Z.ldiff_spec, Z.pow2_bits_eqb by done; rewrite (Z.eqb_sym n k); destruct (k =? n); cbn [negb]; by rewrite ?orb_true_r, ?orb_false_r, ?andb_true_r, ?andb_false_r.
Qed.
Lemma opt_bit n v a k : 0 ≤ n → Z.testbit (a_opts (opt_ (2 ^ n) v a)) k = if k =? n then v else Z.testbit (a_opts a) k.
Proof. intros Hn. destruct a. cbn [opt_ set_opts a_opts]. by apply setopt_bit. Qed.

(** The bits that a value decides. *)
Definition touched (name : SpindleConfigID) (value : bytes) : list Z :=
  match name with
  | confStrip => [11] | confRelocAout => [7] | confRelocLibs => [8] | confRelocPython => [10] | confRelocExec => [9] | confFollowFork => [3] | confStopReloc => [28]
  | confSpindleLevel => if bool_decide (value = lit "default") then [30] else [7; 8; 10; 9; 3; 28; 30]
  | confPushpull => [5; 6] | confNetwork => [1] | confSecurity => [19; 20] | confNuma | confNumaIncludes => [29] | confAuditType => [17] | confShmcacheSize => [16]
  | confDebug => [2] | confNoclean => [12] | confDisableLogging => [15] | confNoHide => [13] | confPersist => [18] | confMsgcacheBuffer | confMsgcacheTimeout => [23]
  | confCleanupProc => [26] | confEnableRsh => [27] | confStartSession | confStartMultiSession | confEndSession | confRunSession => [22]
  | confPatchLdso => [31] | confCrashDedup => [32] | confCalcTLS => [35; 34] | confCrashAltstack => [34] | confCrashLog => [32; 33]
  | _ => []
  end.
Lemma opts_set_port x a : a_opts (set_port x a) = a_opts a.
Proof. by destruct a. Qed.
Lemma opts_set_num_ports x a : a_opts (set_num_ports x a) = a_opts a.
Proof. by destruct a. Qed.
Lemma opts_set_use_launcher x a : a_opts (set_use_launcher x a) = a_opts a.
Proof. by destruct a. Qed.
Lemma opts_set_startup_type x a : a_opts (set_startup_type x a) = a_opts a.
Proof. by destruct a. Qed.
Lemma opts_set_shm_cache_size x a : a_opts (set_shm_cache_size x a) = a_opts a.
Proof. by destruct a. Qed.
Lemma opts_set_commpaths x a : a_opts (set_commpaths x a) = a_opts a.
Proof. by destruct a. Qed.
Lemma opts_set_candidate_cachepaths x a : a_opts (set_candidate_cachepaths x a) = a_opts a.
Proof. by destruct a. Qed.
Lemma opts_set_pythonprefix x a : a_opts (set_pythonprefix x a) = a_opts a.
Proof. by destruct a. Qed.
Lemma opts_set_preloadfile x a : a_opts (set_preloadfile x a) = a_opts a.
Proof. by destruct a. Qed.
Lemma opts_set_bundle_timeout_ms x a : a_opts (set_bundle_timeout_ms x a) = a_opts a.
Proof. by destruct a. Qed.
Lemma opts_set_bundle_cachesize_kb x a : a_opts (set_bundle_cachesize_kb x a) = a_opts a.
Proof. by destruct a. Qed.
Lemma opts_set_numa_files x a : a_opts (set_numa_files x a) = a_opts a.
Proof. by destruct a. Qed.
Lemma opts_set_numa_excludes x a : a_opts (set_numa_excludes x a) = a_opts a.
Proof. by destruct a. Qed.
Lemma opts_set_rsh_command x a : a_opts (set_rsh_command x a) = a_opts a.
Proof. by destruct a. Qed.
Lemma opts_set_local_prefixes x a : a_opts (set_local_prefixes x a) = a_opts a.
Proof. by destruct a. Qed.
Lemma opts_set_exec_excludes x a : a_opts (set_exec_excludes x a) = a_opts a.
Proof. by destruct a. Qed.
Lemma opts_set_crash_log x a : a_opts (set_crash_log x a) = a_opts a.
Proof. by destruct a. Qed.

Lemma sec_bit x a k : 0 ≤ x < 4 → k ≠ 19 → k ≠ 20 → Z.testbit (a_opts (OPT_SET_SEC x a)) k = Z.testbit (a_opts a) k.
Proof.
  intros Hx H1 H2. destruct a. cbn [OPT_SET_SEC set_opts a_opts]. rewrite Z.lor_spec. assert (Z.testbit (Z.shiftl x 19) k = false) as ->; [|by rewrite orb_false_r].
  assert (x = 0 ∨ x = 1 ∨ x = 2 ∨ x = 3) as [->|[->|[->| ->]]] by lia.
  - apply Z.bits_0.
  - change (Z.shiftl 1 19) with (2 ^ 19). rewrite Z.pow2_bits_eqb by done. lia.
  - change (Z.shiftl 2 19) with (2 ^ 20). rewrite Z.pow2_bits_eqb by done. lia.
  - change (Z.shiftl 3 19) with (Z.lor (2 ^ 19) (2 ^ 20)). rewrite Z.lor_spec, !Z.pow2_bits_eqb by done. lia.
Qed.

(** The bit of [opt_] where it is not the one that is asked for. *)
Ltac other_bits :=
  unfold OPT_COBO, OPT_DEBUG, OPT_FOLLOWFORK, OPT_PRELOAD, OPT_PUSH, OPT_PULL, OPT_RELOCAOUT, OPT_RELOCSO, OPT_RELOCEXEC, OPT_RELOCPY, OPT_STRIP, OPT_NOCLEAN, OPT_NOHIDE, OPT_REMAPEXEC, OPT_LOGUSAGE, OPT_SHMCACHE, OPT_SUBAUDIT, OPT_PERSIST, OPT_SESSION, OPT_MSGBUNDLE, OPT_SELFLAUNCH, OPT_BEEXIT, OPT_PROCCLEAN, OPT_RSHLAUNCH, OPT_STOPRELOC, OPT_NUMA, OPT_OFF, OPT_PATCHLDSO, OPT_CRASH_HANDLER, OPT_CRASH_LOG, OPT_CRASH_ALTSTACK, OPT_CALCTLS in *;
  repeat (rewrite opt_bit by lia; match goal with |- context [if ?k =? ?n then _ else _] => destruct (Z.eqb_spec k n) as [->|]; [by exfalso; match goal with H : _ ∉ _ |- _ => apply H; apply (bool_decide_unpack _) end|] end).
Ltac opts_same := rewrite ?opts_set_port, ?opts_set_num_ports, ?opts_set_use_launcher, ?opts_set_startup_type, ?opts_set_shm_cache_size, ?opts_set_commpaths, ?opts_set_candidate_cachepaths,
  ?opts_set_pythonprefix, ?opts_set_preloadfile, ?opts_set_bundle_timeout_ms, ?opts_set_bundle_cachesize_kb, ?opts_set_numa_files, ?opts_set_numa_excludes, ?opts_set_rsh_command,
  ?opts_set_local_prefixes, ?opts_set_exec_excludes, ?opts_set_crash_log.

Lemma set_level_bit level a k : k ∉ touched confSpindleLevel level → Z.testbit (a_opts (set_level level a)) k = Z.testbit (a_opts a) k.
Proof. cbn [touched]. unfold set_level. destruct (bool_decide (level = lit "default")); intros Hk; [|repeat case_match]; by other_bits. Qed.
Lemma set_security_bit mode a a' k : k ∉ [19; 20] → set_security mode a = Some a' → Z.testbit (a_opts a') k = Z.testbit (a_opts a) k.
Proof.
  intros Hk H. assert (k ≠ 19 ∧ k ≠ 20) as [H1 H2] by (split; intros ->; apply Hk; set_solver). revert H. unfold set_security.
  repeat case_match; intros [= <-]; apply sec_bit; done.
Qed.
Lemma set_launcher_bit launcher a a' : set_launcher launcher a = Some a' → a_opts a' = a_opts a.
Proof. unfold set_launcher. repeat case_match; intros [= <-]; by opts_same. Qed.

Lemma apply_option_bit number name v n x a a' k : apply_option number name v n x a = Some (Some a') → k ∉ touched name v → Z.testbit (a_opts a') k = Z.testbit (a_opts a) k.
Proof.
  intros H Hk. destruct name; cbn [apply_option] in H; try (cbn [touched] in Hk; injection H as <-; opts_same; other_bits; by opts_same).
  - injection H as <-. by apply set_level_bit.
  - cbn [touched] in Hk. case_match; injection H as <-; by other_bits.
  - cbn [touched] in Hk. case_match; injection H as <-; by other_bits.
  - injection H as H. by eapply set_security_bit.
  - injection H as H. by rewrite (set_launcher_bit _ _ _ H).
  - cbn [touched] in Hk. case_match; [|case_match; [|done]]; injection H as <-; by other_bits.
  - case_match; injection H as <-; opts_same; done.
  - cbn [touched] in Hk. case_match; injection H as <-; opts_same; other_bits; by opts_same.
  - cbn [touched] in Hk. case_match; injection H as <-; opts_same; other_bits; by opts_same.
  - cbn [touched] in Hk. destruct (resolve_crash_log_path _ number) as [[p|]|]; try done. injection H as <-. other_bits. by opts_same.
Qed.
Lemma apply_options_cons number name v l a a' : apply_options number ((name, v) :: l) a = Some (Some a') →
  ∃ opt n x a1, getOptionsByID b name = Some opt ∧ typed_value name (conftype opt) v = Some (Some (n, x)) ∧ apply_option number name v n x a = Some (Some a1) ∧ apply_options number l a1 = Some (Some a').
Proof.
  cbn [apply_options]. destruct (getOptionsByID b name) as [opt|]; [|done]. destruct (typed_value name (conftype opt) v) as [[[n x]|]|] eqn:Et; cbn [mbind option_bind]; try done.
  destruct (apply_option number name v n x a) as [[a1|]|] eqn:E; cbn [mbind option_bind]; try done. intros H. exists opt, n, x, a1. do 3 (split; [done|]). done.
Qed.
Lemma apply_options_bit number l a a' k : apply_options number l a = Some (Some a') → (∀ name v, (name, v) ∈ l → k ∉ touched name v) → Z.testbit (a_opts a') k = Z.testbit (a_opts a) k.
Proof.
  revert a. induction l as [|[name v] l IH]; intros a H Hk; [by injection H as <-|]. apply apply_options_cons in H as (opt & n & x & a1 & _ & _ & H1 & H2).
  rewrite (IH _ H2) by (intros; apply Hk; by right). eapply apply_option_bit; [exact H1 | apply Hk; left].
Qed.

(** The last value that decides a bit decides it. *)
Lemma last_decides number l1 name v l2 a a' k : apply_options number (l1 ++ (name, v) :: l2) a = Some (Some a') → (∀ o w, (o, w) ∈ l2 → k ∉ touched o w) →
  ∃ opt n x a1 a2, getOptionsByID b name = Some opt ∧ typed_value name (conftype opt) v = Some (Some (n, x)) ∧ apply_option number name v n x a1 = Some (Some a2) ∧ Z.testbit (a_opts a') k = Z.testbit (a_opts a2) k.
Proof.
  revert a. induction l1 as [|[n0 v0] l1 IH]; intros a H Hk.
  - apply apply_options_cons in H as (opt & n & x & a1 & Ho & Ht & H1 & H2). exists opt, n, x, a, a1. do 3 (split; [done|]). by eapply apply_options_bit.
  - apply apply_options_cons in H as (_ & _ & _ & a1 & _ & _ & _ & H). by eapply IH.
Qed.

Definition later (name o : SpindleConfigID) : Prop := (index_of name all_ids < index_of o all_ids)%nat.
Lemma later_drop name o : o ∈ drop (S (index_of name all_ids)) all_ids → later name o.
Proof.
  intros Hin. assert (forallb (λ i, forallb (λ j, Nat.ltb (index_of i all_ids) (index_of j all_ids)) (drop (S (index_of i all_ids)) all_ids)) all_ids = true) as H by (vm_compute; reflexivity).
  rewrite forallb_forall in H. assert (List.In name all_ids) as Hn by (apply list_elem_of_In; eapply list_elem_of_lookup_2, all_ids_index). specialize (H _ Hn).
  rewrite forallb_forall in H. apply list_elem_of_In in Hin. specialize (H _ Hin). by apply Nat.ltb_lt in H.
Qed.
Lemma entries_split m name v : name_values m !! name = Some v → ∃ l1 l2, entries m = l1 ++ (name, v) :: l2 ∧ ∀ o w, (o, w) ∈ l2 → later name o ∧ name_values m !! o = Some w.
Proof.
  intros Hv. unfold entries. rewrite <- (take_drop_middle all_ids _ _ (all_ids_index name)), omap_app. cbn [omap list_omap]. rewrite Hv. cbn [fmap option_fmap option_map].
  eexists _, _. split; [done|]. intros o w (i & Hi & E)%list_elem_of_omap. destruct (name_values m !! i) as [u|] eqn:Eu; [|done]. injection E as -> ->. split; [by apply later_drop | done].
Qed.
(** The bit of an option that is on or off, and whether it is the bit itself or its opposite. *)
Definition bit_of (name : SpindleConfigID) : option (Z * bool) :=
  match name with
  | confStrip => Some (11, true) | confRelocAout => Some (7, true) | confRelocLibs => Some (8, true) | confRelocPython => Some (10, true) | confRelocExec => Some (9, true)
  | confFollowFork => Some (3, true) | confStopReloc => Some (28, true) | confNuma => Some (29, true) | confDebug => Some (2, true) | confNoclean => Some (12, true)
  | confDisableLogging => Some (15, false) | confNoHide => Some (13, true) | confPersist => Some (18, true) | confCleanupProc => Some (26, true) | confEnableRsh => Some (27, true)
  | confStartSession | confStartMultiSession => Some (22, true) | confPatchLdso => Some (31, true) | confCrashDedup => Some (32, true) | confCalcTLS => Some (35, true)
  | confCrashAltstack => Some (34, true)
  | _ => None
  end.
(** What a level other than default makes of the bits. *)
Definition level_bits (level : bytes) : list (Z * bool) :=
  let bits aout so py exec fork stop off := [(7, aout); (8, so); (10, py); (9, exec); (3, fork); (28, stop); (30, off)] in
  if bool_decide (level = lit "high") then bits true true true true true false false
  else if bool_decide (level = lit "medium") then bits false true true false true false false
  else if bool_decide (level = lit "low") then bits false false false false true true false
  else if bool_decide (level = lit "off") then bits false false false false false false true
  else [].

Lemma flag_written number name k pol v n x a a' : bit_of name = Some (k, pol) → apply_option number name v n x a = Some (Some a') → Z.testbit (a_opts a') k = if pol then x else negb x.
Proof.
  intros Hb H. destruct name; cbn [bit_of] in Hb; try discriminate; injection Hb as <- <-; cbn [apply_option] in H; injection H as <-;
    unfold OPT_STRIP, OPT_RELOCAOUT, OPT_RELOCSO, OPT_RELOCPY, OPT_RELOCEXEC, OPT_FOLLOWFORK, OPT_STOPRELOC, OPT_NUMA, OPT_DEBUG, OPT_NOCLEAN, OPT_LOGUSAGE, OPT_NOHIDE, OPT_PERSIST,
      OPT_PROCCLEAN, OPT_RSHLAUNCH, OPT_SESSION, OPT_PATCHLDSO, OPT_CRASH_HANDLER, OPT_CALCTLS, OPT_CRASH_ALTSTACK; by rewrite !opt_bit by lia.
Qed.
Lemma flag_type name k pol opt : bit_of name = Some (k, pol) → getOptionsByID b name = Some opt → conftype opt = cvBool.
Proof.
  assert (forallb (λ i, match bit_of i, getOptionsByID b i with Some _, Some o => bool_decide (conftype o = cvBool) | _, _ => true end) all_ids = true) as H by (vm_compute; reflexivity).
  intros Hb Ho. rewrite forallb_forall in H. specialize (H name). rewrite Hb, Ho in H. apply bool_decide_eq_true in H; [done|]. apply list_elem_of_In. eapply list_elem_of_lookup_2, all_ids_index.
Qed.
Lemma level_written level a k x : (k, x) ∈ level_bits level → level ≠ lit "default" → Z.testbit (a_opts (set_level level a)) k = x.
Proof.
  intros Hin Hd. unfold set_level. rewrite (bool_decide_eq_false_2 (level = lit "default")) by done. revert Hin. unfold level_bits.
  unfold OPT_OFF, OPT_STOPRELOC, OPT_FOLLOWFORK, OPT_RELOCEXEC, OPT_RELOCPY, OPT_RELOCSO, OPT_RELOCAOUT.
  repeat case_match; rewrite ?elem_of_cons, elem_of_nil; intros Hin; repeat destruct Hin as [[= -> ->]|Hin]; try done; by rewrite !opt_bit by lia.
Qed.

Lemma land_bit o n : 0 ≤ n → negb (Z.land o (2 ^ n) =? 0) = Z.testbit o n.
Proof.
  intros Hn. destruct (Z.eqb_spec (Z.land o (2 ^ n)) 0) as [E|E]; cbn [negb].
  - assert (Z.testbit (Z.land o (2 ^ n)) n = false) as H by (rewrite E; apply Z.bits_0). by rewrite Z.land_spec, Z.pow2_bits_true, andb_true_r in H.
  - destruct (Z.testbit o n) eqn:Eb; [done|]. destruct E. apply Z.bits_inj'. intros k Hk. rewrite Z.land_spec, Z.pow2_bits_eqb, Z.bits_0 by done.
    destruct (Z.eqb_spec n k) as [<-|_]; [by rewrite Eb | by rewrite andb_false_r].
Qed.
Lemma add_if_bit (c : bool) n a k : 0 ≤ n → Z.testbit (a_opts (if c then set_opts (Z.lor (a_opts a) (2 ^ n)) a else a)) k = (k =? n) && c || Z.testbit (a_opts a) k.
Proof. intros Hn. destruct c; [|by rewrite andb_false_r]. destruct a. cbn [set_opts a_opts]. rewrite Z.lor_spec, Z.pow2_bits_eqb, (Z.eqb_sym n k), andb_true_r, orb_comm by done. done. Qed.
Lemma clear_if_bit (c : bool) n a k : 0 ≤ n → Z.testbit (a_opts (if c then opt_ (2 ^ n) false a else a)) k = negb ((k =? n) && c) && Z.testbit (a_opts a) k.
Proof. intros Hn. destruct c; [|by rewrite andb_false_r]. rewrite opt_bit, andb_true_r by done. by destruct (k =? n). Qed.
Lemma dependencies_bit a k :
  Z.testbit (a_opts (option_dependencies a)) k =
    if k =? 27 then Z.testbit (a_opts a) 27 && negb (a_startup_type a =? startup_serial) else if k =? 18 then Z.testbit (a_opts a) 18 || Z.testbit (a_opts a) 22
    else if k =? 14 then Z.testbit (a_opts a) 14 || Z.testbit (a_opts a) 2 else Z.testbit (a_opts a) k.
Proof.
  unfold option_dependencies, OPT_RSHLAUNCH, OPT_SESSION, OPT_PERSIST, OPT_DEBUG, OPT_REMAPEXEC. rewrite !land_bit, !add_if_bit, !clear_if_bit by lia. cbn [Z.eqb Pos.eqb andb orb negb].
  destruct (Z.eqb_spec k 27) as [->|]; [cbn [Z.eqb Pos.eqb andb orb]; apply andb_comm|]. destruct (Z.eqb_spec k 18) as [->|]; [cbn [Z.eqb Pos.eqb andb orb negb]; apply orb_comm|].
  destruct (Z.eqb_spec k 14) as [->|]; [cbn [Z.eqb Pos.eqb andb orb negb]; apply orb_comm | done].
Qed.
Lemma dependencies_startup a : a_startup_type (option_dependencies a) = a_startup_type a.
Proof. destruct a. unfold option_dependencies. by repeat case_match_goal. Qed.
(** An option that is on or off decides its bit when no later one does. *)
Lemma flag_decided m a r name k pol v : apply_options (getNumber m) (entries m) a = Some (Some r) → bit_of name = Some (k, pol) → name_values m !! name = Some v →
  (∀ o w, later name o → name_values m !! o = Some w → k ∉ touched o w) → Z.testbit (a_opts r) k = (if pol then (strToBool v).2 else negb (strToBool v).2).
Proof.
  intros Hr Hb Hv Hk. destruct (entries_split m name v Hv) as (l1 & l2 & El & Hl2). rewrite El in Hr.
  destruct (last_decides _ _ _ _ _ _ _ k Hr) as (opt & n & x & a1 & a2 & Ho & Ht & Ha & ->); [intros o w Hin; destruct (Hl2 o w Hin); by eapply Hk|].
  rewrite (flag_written _ _ _ _ _ _ _ _ _ Hb Ha). rewrite (flag_type _ _ _ _ Hb Ho) in Ht. cbn [typed_value] in Ht. destruct (strToBool v) as [[] y]; [|done]. by injection Ht as _ <-.
Qed.
Lemma level_decided m a r level k x : apply_options (getNumber m) (entries m) a = Some (Some r) → name_values m !! confSpindleLevel = Some level → (k, x) ∈ level_bits level → Z.testbit (a_opts r) k = x.
Proof.
  intros Hr Hv Hk. destruct (entries_split m _ _ Hv) as (l1 & l2 & El & Hl2). rewrite El in Hr.
  destruct (last_decides _ _ _ _ _ _ _ k Hr) as (opt & n & y & a1 & a2 & _ & _ & Ha & ->).
  - intros o w [Hlt _]%Hl2 Hin. assert (k ∈ [7; 8; 10; 9; 3; 28; 30]) as Hk'.
    { revert Hk. unfold level_bits. repeat case_match; rewrite ?elem_of_cons, elem_of_nil; intros Hk; repeat destruct Hk as [[= -> _]|Hk]; try done; apply (bool_decide_unpack _); vm_compute; exact I. }
    rewrite !elem_of_cons, elem_of_nil in Hk'. revert Hlt Hin. clear -Hk'. unfold later. intros Hlt Hin. destruct o; try (exfalso; vm_compute in Hlt; lia); cbn [touched] in Hin; try (by apply elem_of_nil in Hin);
      rewrite !elem_of_cons, elem_of_nil in Hin; lia.
  - cbn [apply_option] in Ha. injection Ha as <-. apply level_written; [done|]. intros ->. vm_compute in Hk. by apply elem_of_nil in Hk.
Qed.

(** C23: the options of a session are the ones that are configured.  For a configuration whose values have their types, whose words are spelled as in the table and whose crash log can be
    placed, the arguments are made.  The bit of each option that is on or off has its configured value, unless a value that comes later is there and decides the bit; remote shells are
    off without a launcher, and sessions persist.  A level other than the default one decides its seven bits whatever the single options say. *)
Theorem flags_as_configured m a : typed b m → literal m → log_resolves m → ∃ a', toSpindleArgs m a = Some (Some a') ∧
  (∀ name k pol v, bit_of name = Some (k, pol) → name_values m !! name = Some v → (∀ o w, later name o → name_values m !! o = Some w → k ∉ touched o w) →
    let x := if pol then (strToBool v).2 else negb (strToBool v).2 in
    Z.testbit (a_opts a') k = if k =? 27 then x && negb (a_startup_type a' =? startup_serial) else if k =? 18 then x || Z.testbit (a_opts a') 22 else x) ∧
  (∀ level k x, name_values m !! confSpindleLevel = Some level → (k, x) ∈ level_bits level → Z.testbit (a_opts a') k = x).
Proof.
  intros Ht Hlit Hlog. destruct (apply_options_ok m (entries m) a Ht Hlit Hlog) as [r Hr]; [intros name v; apply entries_lookup|].
  exists (option_dependencies r). unfold toSpindleArgs. rewrite Hr. split; [done|]. split.
  - intros name k pol v Hb Hv Hk. cbn zeta. pose proof (flag_decided m a r name k pol v Hr Hb Hv Hk) as H. rewrite dependencies_startup, !dependencies_bit. cbn [Z.eqb Pos.eqb].
    destruct (Z.eqb_spec k 27) as [->|]; [by rewrite H|]. destruct (Z.eqb_spec k 18) as [->|]; [by rewrite H|]. destruct (Z.eqb_spec k 14) as [->|]; [by destruct name|]. done.
  - intros level k x Hv Hk. rewrite dependencies_bit. pose proof (level_decided m a r level k x Hr Hv Hk) as H.
    destruct (Z.eqb_spec k 27) as [->|]; [|destruct (Z.eqb_spec k 18) as [->|]; [|destruct (Z.eqb_spec k 14) as [->|]; [|done]]];
      (exfalso; revert Hk; clear; unfold level_bits; repeat case_match; rewrite ?elem_of_cons, elem_of_nil; intros Hk; repeat (destruct Hk as [Hk|Hk]; [discriminate Hk|]); destruct Hk).
Qed.

(** ** The id of a session *)

Lemma lor_shiftl x y n : 0 ≤ n → 0 ≤ x < 2 ^ n → Z.lor x (Z.shiftl y n) = x + y * 2 ^ n.
Proof.
  intros Hn Hx. rewrite <- Z.shiftl_mul_pow2 by done. symmetry. apply Z.add_nocarry_lor. apply Z.bits_inj'. intros k Hk. rewrite Z.land_spec, Z.bits_0, Z.shiftl_spec by done.
  destruct (Z.ltb_spec k n); [rewrite (Z.testbit_neg_r y) by lia; apply andb_false_r|].
  destruct (Z.eq_dec x 0) as [->|]; [by rewrite Z.bits_0|]. rewrite (Z.bits_above_log2 x k); [done | lia |]. apply Z.lt_le_trans with n; [apply Z.log2_lt_pow2; lia | done].
Qed.
(** The id has the process in its low 16 bits, the host in the next 16 and the random number above; it is kept, if it is not 0. *)
Lemma unique_id_parts pid hostname random m : unique_id_saved m = 0 → 0 ≤ random < 2 ^ 32 → ∃ m' id, getUniqueID pid hostname (Some random) m = Some (m', id) ∧
  id mod 2 ^ 16 = pid mod 2 ^ 16 ∧ (id / 2 ^ 16) mod 2 ^ 16 = str_hash (take 255 hostname) mod 2 ^ 16 ∧ id / 2 ^ 32 = random ∧ name_values m' = name_values m ∧
  (id ≠ 0 → ∀ pid' hostname' random', getUniqueID pid' hostname' random' m' = Some (m', id)).
Proof.
  intros Hm Hr. unfold getUniqueID. rewrite Hm. cbn [Z.eqb negb mbind option_bind]. set (h := str_hash _ mod 2 ^ 16).
  pose proof (Z.mod_pos_bound pid (2 ^ 16) eq_refl) as Hp. pose proof (Z.mod_pos_bound (str_hash (take 255 hostname)) (2 ^ 16) eq_refl) as Hh. fold h in Hh. set (q := pid mod 2 ^ 16) in *.
  rewrite (lor_shiftl q h 16), (lor_shiftl _ random 32) by lia. eexists _, _. split; [reflexivity|]. set (id := q + h * 2 ^ 16 + random * 2 ^ 32).
  assert (id mod 2 ^ 16 = q) as E1 by (unfold id; symmetry; apply Z.mod_unique with (h + random * 2 ^ 16); lia).
  assert (id / 2 ^ 16 = h + random * 2 ^ 16) as E2 by (unfold id; symmetry; apply Z.div_unique with q; lia).
  assert (id / 2 ^ 32 = random) as E3 by (unfold id; symmetry; apply Z.div_unique with (q + h * 2 ^ 16); lia).
  split; [done|]. split; [rewrite E2; symmetry; apply Z.mod_unique with random; lia|]. split; [done|]. split; [done|].
  intros Hid pid' hostname' random'. cbn [unique_id_saved]. destruct (Z.eqb_spec id 0); [done|]. done.
Qed.

(** ** What the arguments do not say *)

(** The option for preloading is never set, though the file is. *)
Lemma preload_never_set m a r : toSpindleArgs m a = Some (Some r) → Z.testbit (a_opts r) 4 = Z.testbit (a_opts a) 4.
Proof.
  unfold toSpindleArgs. destruct (apply_options _ _ _) as [[x|]|] eqn:E; cbn [mbind option_bind option_map]; try done. intros [= <-]. rewrite dependencies_bit. cbn [Z.eqb Pos.eqb].
  eapply apply_options_bit; [exact E|]. intros name v _. destruct name; cbn [touched]; try case_match; rewrite ?elem_of_cons, elem_of_nil; lia.
Qed.

(** A configuration with one value. *)
Definition single (name : SpindleConfigID) (v : bytes) : ConfigMap := put_value empty_map name v.
Lemma entries_single name v : entries (single name v) = [(name, v)].
Proof. destruct name; reflexivity. Qed.
Lemma args_single name v opt n x a : getOptionsByID b name = Some opt → typed_value name (conftype opt) v = Some (Some (n, x)) →
  toSpindleArgs (single name v) a = (r ← apply_option (getNumber (single name v)) name v n x a; Some (option_map option_dependencies r)).
Proof.
  intros Ho Ht. unfold toSpindleArgs. rewrite entries_single. cbn [apply_options]. rewrite Ho, Ht. cbn [mbind option_bind]. by destruct (apply_option _ _ _ _ _ _) as [[]|].
Qed.

(** Words are accepted in any case but compared as they are: the level is ignored, the security mode is an error, pull means push. *)
Lemma words_case_matters a :
  set b empty_map confSpindleLevel (lit "HIGH") = Some (inl (single confSpindleLevel (lit "HIGH"))) ∧ toSpindleArgs (single confSpindleLevel (lit "HIGH")) a = Some (Some (option_dependencies a)) ∧
  set b empty_map confSecurity (lit "NONE") = Some (inl (single confSecurity (lit "NONE"))) ∧ toSpindleArgs (single confSecurity (lit "NONE")) a = Some None ∧
  set b empty_map confPushpull (lit "PULL") = Some (inl (single confPushpull (lit "PULL"))) ∧ toSpindleArgs (single confPushpull (lit "PULL")) a = toSpindleArgs (single confPushpull (lit "push")) a.
Proof.
  split; [reflexivity|]. split; [by rewrite (args_single confSpindleLevel (lit "HIGH") _ 0 false a eq_refl eq_refl)|].
  split; [reflexivity|]. split; [by rewrite (args_single confSecurity (lit "NONE") _ 0 false a eq_refl eq_refl)|].
  split; [reflexivity|]. by rewrite (args_single confPushpull (lit "PULL") _ 0 false a eq_refl eq_refl), (args_single confPushpull (lit "push") _ 0 false a eq_refl eq_refl).
Qed.

(** A size for the buffer turns the bundling on, and the default for the timeout, which comes later, turns it off again. *)
Lemma buffer_alone_ignored m a r size : name_values m !! confMsgcacheTimeout = Some (lit "0") → name_values m !! confMsgcacheBuffer = Some size → toSpindleArgs m a = Some (Some r) → Z.testbit (a_opts r) 23 = false.
Proof.
  intros Hv _. unfold toSpindleArgs. destruct (apply_options _ _ _) as [[x|]|] eqn:E; cbn [mbind option_bind option_map]; try done. intros [= <-]. rewrite dependencies_bit. cbn [Z.eqb Pos.eqb].
  destruct (entries_split m _ _ Hv) as (l1 & l2 & El & Hl2). rewrite El in E. destruct (last_decides _ _ _ _ _ _ _ 23 E) as (opt & n & y & a1 & a2 & Ho & Ht & Ha & ->).
  - intros o w [Hlt _]%Hl2. unfold later in Hlt. destruct o; try (exfalso; vm_compute in Hlt; lia); cbn [touched]; rewrite ?elem_of_cons, elem_of_nil; lia.
  - injection Ho as <-. vm_compute in Ht. injection Ht as <- <-. cbn [apply_option Z.eqb] in Ha. injection Ha as <-. unfold OPT_MSGBUNDLE. by rewrite opt_bit by lia.
Qed.

(** Asking for the computation of thread-local storage asks for alternate signal stacks as well, when nothing says otherwise. *)
Lemma tls_sets_altstack a : ∃ r, toSpindleArgs (single confCalcTLS (lit "true")) a = Some (Some r) ∧ Z.testbit (a_opts r) 34 = true.
Proof.
  rewrite (args_single confCalcTLS (lit "true") _ 0 true a eq_refl eq_refl). cbn [apply_option mbind option_bind option_map]. eexists. split; [reflexivity|]. rewrite dependencies_bit. cbn [Z.eqb Pos.eqb].
  unfold OPT_CRASH_ALTSTACK. by rewrite opt_bit by lia.
Qed.
End args.

Definition no_args : spindle_args_t := mk_args 0 0 0 0 0 0 None None None None 0 0 None None None None None None.
Definition example_config : ConfigMap := put_value (put_value (single confSpindleLevel (lit "low")) confDebug (lit "yes")) confDisableLogging (lit "No").
Lemma flags_as_configured_witness : ∃ a', toSpindleArgs example_build (λ _, None) None (λ _, false) 7 example_config no_args = Some (Some a') ∧
  Z.testbit (a_opts a') 2 = true ∧ Z.testbit (a_opts a') 15 = true ∧ Z.testbit (a_opts a') 28 = true.
Proof.
  assert (∀ name v, name_values example_config !! name = Some v → (name, v) ∈ [(confSpindleLevel, lit "low"); (confDebug, lit "yes"); (confDisableLogging, lit "No")]) as Hm.
  { intros name v H%entries_lookup. vm_compute in H. exact H. }
  destruct (flags_as_configured example_build (λ _, None) None (λ _, false) 7 example_config no_args) as (a' & E & H1 & H2).
  - unfold example_config, single. eapply put_typed; [eapply put_typed; [eapply put_typed; [apply empty_typed | reflexivity..] | reflexivity..] | reflexivity..].
  - intros name opt v Hv Ho Ht. apply Hm in Hv. rewrite !elem_of_cons, elem_of_nil in Hv. destruct Hv as [[= -> ->]|[[= -> ->]|[[= -> ->]|[]]]]; injection Ho as <-; try discriminate Ht.
    apply (bool_decide_unpack _). vm_compute. exact I.
  - intros v Hv. apply Hm in Hv. rewrite !elem_of_cons, elem_of_nil in Hv. destruct Hv as [[=]|[[=]|[[=]|[]]]].
  - assert (∀ k name, k ∈ [2; 15] → ∀ o w, later name o → name_values example_config !! o = Some w → (o = confDisableLogging ∧ k = 15 → name = confDisableLogging) → (o = confDebug → name = confDebug) → k ∉ touched o w) as Hl.
    { intros k name Hk o w Hlt Ho%Hm Hd1 Hd2 Hin. rewrite !elem_of_cons, elem_of_nil in Hk. rewrite !elem_of_cons, elem_of_nil in Ho. destruct Ho as [[= -> ->]|[[= -> ->]|[[= -> ->]|[]]]].
      - change (k ∈ [7; 8; 10; 9; 3; 28; 30]) in Hin. rewrite !elem_of_cons, elem_of_nil in Hin. lia.
      - rewrite (Hd2 eq_refl) in Hlt. unfold later in Hlt. lia.
      - cbn [touched] in Hin. apply list_elem_of_singleton in Hin. rewrite (Hd1 (conj eq_refl Hin)) in Hlt. unfold later in Hlt. lia. }
    exists a'. split; [exact E|]. split; [|split].
    + rewrite (H1 confDebug 2 true (lit "yes") eq_refl eq_refl); [vm_compute; reflexivity|]. intros o w Hlt Ho. apply (Hl 2 confDebug); [left | done | done | intros [_ ?]; lia | done].
    + rewrite (H1 confDisableLogging 15 false (lit "No") eq_refl eq_refl); [vm_compute; reflexivity|]. intros o w Hlt Ho. apply (Hl 15 confDisableLogging); [right; left | done | done | done |].
      intros ->. exfalso. unfold later in Hlt. vm_compute in Hlt. lia.
    + apply (H2 (lit "low") 28 true eq_refl). apply (bool_decide_unpack _). vm_compute. exact I.
Defined.
End ConfigArgs.
