(* ===== verification/ElfRead.v ===== *)
(** * Reading a file, stripped if it is an ELF file (ldcs_elf_read.c)

    A server reads a library into a mapping of the size of the file.  With
    [OPT_STRIP] only the part that the loader maps is read: everything behind the
    last [PT_LOAD] segment, such as symbol tables and debug information, is left
    out.  The model works on the contents of the file and on the bytes of the
    mapping; an access outside the mapping has no result. *)

From Stdlib Require Import Ascii String ZArith Lia.
From stdpp Require Import strings numbers gmap list.
From S2P Require Import Prelude Bytes.

Module ElfRead.

Definition EI_NIDENT : Z := 16.
Definition EI_CLASS : nat := 4.
Definition ELFMAG : bytes := byte_of 127 :: lit "ELF".
Definition ELFCLASS64 : Z := 2.
Definition ET_EXEC : Z := 2.
Definition ET_DYN : Z := 3.
Definition PT_LOAD : Z := 1.
Definition PT_GNU_RELRO : Z := 1685382482.   (** 0x6474e552 *)
Definition PT_unused : Z := 2052604876.      (** 0x7a5843cc *)

(** [sizeof (Elf64_Phdr)]. *)
Abbreviation PHDR_SIZE := 56.

Inductive elf_result := ERR | NOT_ELF | ELF_OK.

(** [getpagesize ()]. *)
Definition PAGESIZE : Z := 4096.

Definition round_up (n : Z) : Z :=
  let pagediff := n mod PAGESIZE in if pagediff =? 0 then n else wrap64 (n + (PAGESIZE - pagediff)).

(** The mapping that [filemngt_create_file_space] makes for a file of [size]
    bytes: whole pages of zeros. *)
Definition new_mapping (size : Z) : bytes := replicate (Z.to_nat (round_up size)) NUL.

(** A load of [n] bytes at [buffer + pos]. *)
Definition peek (n : nat) (buffer : bytes) (pos : Z) : option Z :=
  if (0 <=? pos) && (pos + Z.of_nat n <=? Z.of_nat (length buffer))
  then Some (rd_u n buffer (Z.to_nat pos)) else None.

(** A store of the bytes [s] at [buffer + pos]. *)
Definition poke (buffer : bytes) (pos : Z) (s : bytes) : option bytes :=
  if (0 <=? pos) && (pos + Z.of_nat (length s) <=? Z.of_nat (length buffer))
  then Some (write_at buffer (Z.to_nat pos) s) else None.

(** The stream stands at [cur_pos] of the contents; [fread] gives what there is. *)
Definition readUpTo (contents buffer : bytes) (cur_pos new_size : Z) : option (bytes * Z) :=
  if new_size <=? cur_pos then Some (buffer, cur_pos)
  else
    let data := take (Z.to_nat (new_size - cur_pos)) (drop (Z.to_nat cur_pos) contents) in
    buffer1 ← poke buffer cur_pos data;
    Some (buffer1, cur_pos + Z.of_nat (length data)).

(** The loop that deletes the [PT_GNU_RELRO] headers, from the [i]th. *)
Fixpoint clear_relro (num : nat) (buffer : bytes) (phdr : Z) : option bytes :=
  match num with
  | O => Some buffer
  | S num' =>
      p_type ← peek 4 buffer phdr;
      buffer1 ← (if p_type =? PT_GNU_RELRO then poke buffer phdr (le32 PT_unused) else Some buffer);
      clear_relro num' buffer1 (phdr + PHDR_SIZE)
  end.

(** The loop that finds the end of the last segment. *)
Fixpoint find_highest (num : nat) (buffer : bytes) (phdr highest_file_addr : Z) : option Z :=
  match num with
  | O => Some highest_file_addr
  | S num' =>
      p_type ← peek 4 buffer phdr;
      if negb (p_type =? PT_LOAD) then find_highest num' buffer (phdr + PHDR_SIZE) highest_file_addr
      else
        p_offset ← peek 8 buffer (phdr + 8);
        p_filesz ← peek 8 buffer (phdr + 32);
        let cur_file_addr := wrap64 (p_offset + p_filesz) in
        find_highest num' buffer (phdr + PHDR_SIZE)
          (if highest_file_addr <? cur_file_addr then cur_file_addr else highest_file_addr)
  end.

(** Result, contents of the mapping, [*size]. *)
Definition readLoadableFileSections (contents buffer : bytes) (size : Z) (strip mod_ro_got : bool)
    : option (elf_result * bytes * Z) :=
  let filesize := size in
  '(b1, cur1) ← readUpTo contents buffer 0 4096;
  if cur1 <? EI_NIDENT then Some (NOT_ELF, b1, size)
  else
    cls ← peek 1 b1 (Z.of_nat EI_CLASS);
    e_type ← peek 2 b1 16;
    if negb (bool_decide (take 4 b1 = ELFMAG)) || negb (cls =? ELFCLASS64) ||
       negb ((e_type =? ET_EXEC) || (e_type =? ET_DYN)) then
      '(b2, _) ← readUpTo contents b1 cur1 filesize;
      Some (NOT_ELF, b2, size)
    else
      ph_start ← peek 8 b1 32;
      e_phentsize ← peek 2 b1 54;
      num_phdrs ← peek 2 b1 56;
      let ph_end := wrap64 (ph_start + e_phentsize * num_phdrs) in
      '(b2, cur2) ← readUpTo contents b1 cur1 ph_end;
      if cur2 <? ph_end then Some (ERR, b2, size)
      else
        b3 ← (if mod_ro_got then clear_relro (Z.to_nat num_phdrs) b2 ph_start else Some b2);
        if negb strip then
          '(b4, _) ← readUpTo contents b3 cur2 filesize;
          Some (ELF_OK, b4, size)
        else
          highest ← find_highest (Z.to_nat num_phdrs) b3 ph_start 0;
          let highest1 := round_up highest in
          let highest2 := if filesize <? highest1 then filesize else highest1 in
          '(b4, cur4) ← readUpTo contents b3 cur2 highest2;
          if cur4 <? highest2 then Some (ERR, b4, size)
          else Some (ELF_OK, b4, highest2).

(** The mapping, and [*size] and [*was_elf] unless the result is -1. *)
Definition read_file_and_strip (contents buffer : bytes) (size : Z) (strip mod_ro_got : bool)
    : option (bytes * option (Z * bool)) :=
  '(r, b, newsize) ← readLoadableFileSections contents buffer size strip mod_ro_got;
  match r with
  | ERR => Some (b, None)
  | NOT_ELF => Some (b, Some (newsize, false))
  | ELF_OK => Some (b, Some (newsize, true))
  end.

(** ** Facts about the mapping *)

(** The first [cur] bytes of the file are in the mapping, the rest is zero. *)
Definition holds (contents buffer : bytes) (L : nat) (cur : Z) : Prop :=
  0 <= cur <= Z.of_nat (length contents) ∧ (length contents <= L)%nat ∧
  buffer = take (Z.to_nat cur) contents ++ replicate (L - Z.to_nat cur) NUL.

Lemma holds_length contents buffer L cur : holds contents buffer L cur → length buffer = L.
Proof. intros (? & ? & ->). rewrite length_app, length_take, length_replicate. lia. Qed.

Lemma holds_take contents buffer L cur n :
  holds contents buffer L cur → n <= cur →
  take (Z.to_nat n) buffer = take (Z.to_nat n) contents.
Proof.
  intros (? & ? & ->) ?. rewrite take_app_le by (rewrite length_take; lia).
  rewrite take_take. f_equal. lia.
Qed.

Lemma le_decode_zeros b k : le_decode (b ++ replicate k NUL) = le_decode b.
Proof.
  induction b as [|c b IH]; simpl; [|by rewrite IH].
  induction k as [|k IHk]; simpl; [done|]. rewrite IHk. done.
Qed.

(** Loads from the part that has been read, or from a file that has been read
    as a whole, see the file. *)
Lemma holds_rd contents buffer L cur n pos :
  holds contents buffer L cur →
  Z.of_nat pos + Z.of_nat n <= cur ∨ cur = Z.of_nat (length contents) →
  rd_u n buffer pos = rd_u n contents pos.
Proof.
  intros (Hc & HL & ->) [H | H]; unfold rd_u.
  - f_equal. rewrite drop_app_le by (rewrite length_take; lia).
    rewrite take_app_le by (rewrite length_drop, length_take; lia).
    rewrite skipn_firstn_comm, take_take. f_equal. lia.
  - rewrite (take_ge contents) by lia. rewrite drop_app, take_app, drop_replicate, take_replicate.
    apply le_decode_zeros.
Qed.

Lemma holds_peek contents buffer L cur n pos :
  holds contents buffer L cur → 0 <= pos → pos + Z.of_nat n <= Z.of_nat L →
  pos + Z.of_nat n <= cur ∨ cur = Z.of_nat (length contents) →
  peek n buffer pos = Some (rd_u n contents (Z.to_nat pos)).
Proof.
  intros Hh H0 HL Hr. unfold peek. rewrite (holds_length _ _ _ _ Hh).
  destruct ((0 <=? pos) && (pos + Z.of_nat n <=? Z.of_nat L)) eqn:E.
  - f_equal. apply (holds_rd _ _ _ _ _ _ Hh). rewrite Z2Nat.id by lia. done.
  - apply andb_false_iff in E as [E | E]; bool_to_prop; lia.
Qed.

Lemma readUpTo_spec contents buffer L cur new :
  holds contents buffer L cur →
  ∃ b, readUpTo contents buffer cur new = Some (b, Z.max cur (Z.min new (Z.of_nat (length contents)))) ∧
    holds contents b L (Z.max cur (Z.min new (Z.of_nat (length contents)))).
Proof.
  intros Hh. pose proof Hh as (Hc & HL & Hb). unfold readUpTo.
  destruct (new <=? cur) eqn:E; bool_to_prop.
  - rewrite Z.max_l by lia. eauto.
  - set (data := take (Z.to_nat (new - cur)) (drop (Z.to_nat cur) contents)).
    assert (length data = (Z.to_nat (new - cur) `min` (length contents - Z.to_nat cur))%nat) as Hd
      by (unfold data; rewrite length_take, length_drop; done).
    unfold poke. rewrite (holds_length _ _ _ _ Hh).
    destruct ((0 <=? cur) && (cur + Z.of_nat (length data) <=? Z.of_nat L)) eqn:E2.
    2:{ apply andb_false_iff in E2 as [E2 | E2]; bool_to_prop; lia. }
    cbn [mbind option_bind]. eexists. split; [do 2 f_equal; lia|].
    split; [lia|]. split; [done|]. unfold write_at. rewrite Hb.
    rewrite take_app_exact by (rewrite length_take; lia).
    rewrite drop_app_ge by (rewrite length_take; lia).
    rewrite drop_replicate, app_assoc. f_equal.
    + unfold data. rewrite take_take_drop. apply list_eq. intros i. 
      rewrite !lookup_take. case_decide; case_decide; try done; try lia.
      apply lookup_ge_None_2. lia.
    + f_equal. rewrite length_take. lia.
Qed.

(** ** What an ELF file is *)

Definition is_elf (contents : bytes) : bool :=
  (EI_NIDENT <=? Z.of_nat (length contents)) && bool_decide (take 4 contents = ELFMAG) &&
  (rd_u 1 contents EI_CLASS =? ELFCLASS64) &&
  ((rd_u 2 contents 16 =? ET_EXEC) || (rd_u 2 contents 16 =? ET_DYN)).

Definition ph_start (contents : bytes) : Z := rd_u 8 contents 32.
Definition num_phdrs (contents : bytes) : Z := rd_u 2 contents 56.
Definition p_type (contents : bytes) (i : nat) : Z :=
  rd_u 4 contents (Z.to_nat (ph_start contents + PHDR_SIZE * Z.of_nat i)).
Definition p_offset (contents : bytes) (i : nat) : Z :=
  rd_u 8 contents (Z.to_nat (ph_start contents + PHDR_SIZE * Z.of_nat i + 8)).
Definition p_filesz (contents : bytes) (i : nat) : Z :=
  rd_u 8 contents (Z.to_nat (ph_start contents + PHDR_SIZE * Z.of_nat i + 32)).

(** The program headers have the size of the specification, and they and the
    segments they describe lie in the file. *)
Record elf_wf (contents : bytes) : Prop := mk_elf_wf {
  wf_entsize : rd_u 2 contents 54 = PHDR_SIZE;
  wf_phdrs : ph_start contents + PHDR_SIZE * num_phdrs contents <= Z.of_nat (length contents);
  wf_loads i : Z.of_nat i < num_phdrs contents → p_type contents i = PT_LOAD →
    p_offset contents i + p_filesz contents i <= Z.of_nat (length contents);
}.

Lemma round_up_ge n : 0 <= n <= 2 ^ 63 → n <= round_up n <= n + PAGESIZE.
Proof.
  intros H. unfold round_up, PAGESIZE, wrap64.
  pose proof (Z.mod_pos_bound n 4096 ltac:(lia)).
  destruct (n mod 4096 =? 0); [lia|]. rewrite Z.mod_small; lia.
Qed.

(** The loop over the program headers finds a bound of the segments that lies
    in the file. *)
Lemma find_highest_spec contents buffer L cur k i hi :
  holds contents buffer L cur →
  (∀ j, (i <= j < i + k)%nat → ph_start contents + PHDR_SIZE * Z.of_nat j + 56 <= cur) →
  (∀ j, (i <= j < i + k)%nat → p_type contents j = PT_LOAD →
     p_offset contents j + p_filesz contents j <= Z.of_nat (length contents)) →
  Z.of_nat (length contents) < 2 ^ 62 →
  0 <= hi <= Z.of_nat (length contents) →
  ∃ h, find_highest k buffer (ph_start contents + PHDR_SIZE * Z.of_nat i) hi = Some h ∧
    hi <= h <= Z.of_nat (length contents) ∧
    (∀ j, (i <= j < i + k)%nat → p_type contents j = PT_LOAD →
       p_offset contents j + p_filesz contents j <= h).
Proof.
  intros Hh. pose proof Hh as (Hc & HL & _).
  pose proof (rd_u_range 8 contents 32) as H0. fold (ph_start contents) in H0.
  revert i hi. induction k as [|k IH]; intros i hi Hph Hld Hlen Hhi; cbn [find_highest].
  { exists hi. split; [done|]. split; [lia|]. intros j ?. lia. }
  pose proof (Hph i ltac:(lia)) as Hi.
  rewrite (holds_peek contents buffer L cur 4) by (done || lia). cbn [mbind option_bind].
  fold (p_type contents i).
  replace (ph_start contents + PHDR_SIZE * Z.of_nat i + PHDR_SIZE)
    with (ph_start contents + PHDR_SIZE * Z.of_nat (S i)) by lia.
  destruct (p_type contents i =? PT_LOAD) eqn:E; bool_to_prop; cbn [negb].
  - rewrite (holds_peek contents buffer L cur 8) by (done || lia). cbn [mbind option_bind].
    rewrite (holds_peek contents buffer L cur 8) by (done || lia). cbn [mbind option_bind].
    fold (p_offset contents i) (p_filesz contents i).
    pose proof (Hld i ltac:(lia) E) as Hend.
    pose proof (rd_u_range 8 contents (Z.to_nat (ph_start contents + PHDR_SIZE * Z.of_nat i + 8))).
    pose proof (rd_u_range 8 contents (Z.to_nat (ph_start contents + PHDR_SIZE * Z.of_nat i + 32))).
    assert (wrap64 (p_offset contents i + p_filesz contents i) = p_offset contents i + p_filesz contents i)
      as -> by (apply Z.mod_small; unfold p_offset, p_filesz in *; lia).
    destruct (IH (S i) (if hi <? p_offset contents i + p_filesz contents i
                        then p_offset contents i + p_filesz contents i else hi)) as (h & -> & Hr & Hall).
    + intros j ?. apply Hph. lia.
    + intros j ?. apply Hld. lia.
    + done.
    + case_match_goal; bool_to_prop; lia.
    + exists h. split; [done|]. split; [case_match_goal; bool_to_prop; lia|].
      intros j Hj Ht. destruct (decide (j = i)) as [-> | ]; [|apply Hall; [lia|done]].
      case_match_goal; bool_to_prop; lia.
  - destruct (IH (S i) hi) as (h & -> & Hr & Hall); [..|done|done|].
    + intros j ?. apply Hph. lia.
    + intros j ?. apply Hld. lia.
    + exists h. split; [done|]. split; [lia|].
      intros j Hj Ht. destruct (decide (j = i)) as [-> | ]; [done|]. apply Hall; [lia|done].
Qed.

Lemma new_mapping_holds contents :
  Z.of_nat (length contents) < 2 ^ 62 →
  holds contents (new_mapping (Z.of_nat (length contents)))
    (Z.to_nat (round_up (Z.of_nat (length contents)))) 0.
Proof.
  intros H. pose proof (round_up_ge (Z.of_nat (length contents)) ltac:(lia)).
  split; [lia|]. split; [lia|]. unfold new_mapping. by rewrite Z2Nat.inj_0, Nat.sub_0_r.
Qed.

Lemma mapping_page n : 0 < n < 2 ^ 62 → PAGESIZE <= round_up n.
Proof.
  intros H. unfold round_up, PAGESIZE, wrap64.
  pose proof (Z.mod_pos_bound n 4096 ltac:(lia)). pose proof (Z.div_mod n 4096 ltac:(lia)).
  destruct (n mod 4096 =? 0) eqn:E; bool_to_prop.
  - lia.
  - rewrite Z.mod_small; lia.
Qed.

(** ** Reading is faithful *)

(** The fields of the header are in the first page. *)
Lemma header_peek contents b L n pos :
  holds contents b L (Z.min 4096 (Z.of_nat (length contents))) → PAGESIZE <= Z.of_nat L →
  0 <= pos → pos + Z.of_nat n <= 64 → peek n b pos = Some (rd_u n contents (Z.to_nat pos)).
Proof.
  intros Hh HL H0 Hn. unfold PAGESIZE in *. eapply holds_peek; [exact Hh|lia|lia|].
  destruct (decide (Z.of_nat (length contents) <= 4096)); [right|left]; lia.
Qed.

Definition faithful (contents : bytes) (strip : bool) (b : bytes) (n : Z) : Prop :=
  0 <= n <= Z.of_nat (length contents) ∧
  take (Z.to_nat n) b = take (Z.to_nat n) contents ∧
  (strip && is_elf contents = false → take (Z.to_nat n) b = contents) ∧
  (∀ i, is_elf contents = true → Z.of_nat i < num_phdrs contents → p_type contents i = PT_LOAD →
     p_offset contents i + p_filesz contents i <= n).

Lemma faithful_whole contents strip b L :
  holds contents b L (Z.of_nat (length contents)) → (is_elf contents = true → elf_wf contents) →
  faithful contents strip b (Z.of_nat (length contents)).
Proof.
  intros Hh Hwf. pose proof (holds_take _ _ _ _ (Z.of_nat (length contents)) Hh ltac:(lia)) as Ht.
  split; [lia|]. split; [done|]. split.
  - intros _. rewrite Ht, Nat2Z.id. apply take_ge. lia.
  - intros i He Hi Hp. by apply (wf_loads _ (Hwf He)).
Qed.

(** The whole of the rest of the file. *)
Lemma read_rest contents b L cur :
  holds contents b L cur →
  ∃ b', readUpTo contents b cur (Z.of_nat (length contents)) = Some (b', Z.of_nat (length contents)) ∧
    holds contents b' L (Z.of_nat (length contents)).
Proof.
  intros Hh. pose proof Hh as (? & _ & _).
  destruct (readUpTo_spec _ _ _ _ (Z.of_nat (length contents)) Hh) as (b' & E & Hh').
  rewrite Z.min_id, Z.max_r in * by lia. eauto.
Qed.

(** The test of the identification and the type is [is_elf]. *)
Lemma ident_test contents b L :
  holds contents b L (Z.min 4096 (Z.of_nat (length contents))) →
  EI_NIDENT <= Z.of_nat (length contents) →
  negb (bool_decide (take 4 b = ELFMAG)) || negb (rd_u 1 contents EI_CLASS =? ELFCLASS64) ||
    negb ((rd_u 2 contents 16 =? ET_EXEC) || (rd_u 2 contents 16 =? ET_DYN)) = negb (is_elf contents).
Proof.
  intros Hh Hn. unfold is_elf, EI_NIDENT in *.
  pose proof (holds_take _ _ _ _ 4 Hh ltac:(lia)) as Ht. change (Z.to_nat 4) with 4%nat in Ht.
  rewrite Ht. destruct (16 <=? Z.of_nat (length contents)) eqn:E; bool_to_prop; [|lia].
  by rewrite !negb_andb.
Qed.

(** The part behind the identification of an ELF file. *)
Lemma find_segments contents b L cur :
  elf_wf contents → Z.of_nat (length contents) < 2 ^ 62 →
  holds contents b L cur → ph_start contents + PHDR_SIZE * num_phdrs contents <= cur →
  ∃ h, find_highest (Z.to_nat (num_phdrs contents)) b (ph_start contents) 0 = Some h ∧
    0 <= h <= Z.of_nat (length contents) ∧
    (∀ i, Z.of_nat i < num_phdrs contents → p_type contents i = PT_LOAD →
       p_offset contents i + p_filesz contents i <= h).
Proof.
  intros Hwf Hlen Hh Hph.
  destruct (find_highest_spec contents b L cur (Z.to_nat (num_phdrs contents)) 0 0 Hh)
    as (h & E & Hr & Hall); [|intros; apply Hwf; [lia|done]|done|lia|].
  { intros j ?. lia. }
  exists h. rewrite Z.mul_0_r, Z.add_0_r in E. split; [done|]. split; [done|].
  intros i Hi. apply Hall. lia.
Qed.

Lemma wf_ph_end contents :
  elf_wf contents → Z.of_nat (length contents) < 2 ^ 62 →
  wrap64 (ph_start contents + PHDR_SIZE * num_phdrs contents) =
    ph_start contents + PHDR_SIZE * num_phdrs contents.
Proof.
  intros Hwf Hlen. pose proof (wf_phdrs _ Hwf).
  pose proof (rd_u_range 8 contents 32). pose proof (rd_u_range 2 contents 56).
  apply Z.mod_small. unfold ph_start, num_phdrs in *. lia.
Qed.

Lemma read_headers contents b L cur :
  elf_wf contents → Z.of_nat (length contents) < 2 ^ 62 → holds contents b L cur →
  ∃ b2 cur2,
    readUpTo contents b cur (wrap64 (ph_start contents + PHDR_SIZE * num_phdrs contents)) = Some (b2, cur2) ∧
    holds contents b2 L cur2 ∧ ph_start contents + PHDR_SIZE * num_phdrs contents <= cur2.
Proof.
  intros Hwf Hlen Hh. rewrite (wf_ph_end _ Hwf Hlen). pose proof (wf_phdrs _ Hwf).
  destruct (readUpTo_spec _ _ _ _ (ph_start contents + PHDR_SIZE * num_phdrs contents) Hh)
    as (b2 & E & Hh2).
  do 2 eexists. split; [exact E|]. split; [done|]. lia.
Qed.

(** C34 Reading a file into a mapping of its size gives the file: every byte of
    the result is the byte of the file, nothing is missing unless an ELF file is
    stripped, and stripping keeps every segment that the loader maps.  The read
    neither fails nor touches memory outside the mapping. *)
Theorem elf_read_faithful contents strip :
  0 < Z.of_nat (length contents) < 2 ^ 62 →
  (is_elf contents = true → elf_wf contents) →
  ∃ b n,
    read_file_and_strip contents (new_mapping (Z.of_nat (length contents)))
      (Z.of_nat (length contents)) strip false = Some (b, Some (n, is_elf contents)) ∧
    faithful contents strip b n.
Proof.
  intros Hlen Hwf.
  pose proof (new_mapping_holds contents ltac:(lia)) as Hh0.
  pose proof (mapping_page _ ltac:(exact Hlen)) as Hpage.
  set (L := Z.to_nat (round_up (Z.of_nat (length contents)))) in *.
  assert (PAGESIZE <= Z.of_nat L) as HL by (unfold L, PAGESIZE in *; lia).
  unfold read_file_and_strip, readLoadableFileSections.
  destruct (readUpTo_spec _ _ _ _ 4096 Hh0) as (b1 & -> & Hh1). cbn [mbind option_bind].
  rewrite Z.max_r in * by lia.
  destruct (_ <? EI_NIDENT) eqn:E1; bool_to_prop.
  { assert (is_elf contents = false) as He.
    { unfold is_elf. destruct (EI_NIDENT <=? _) eqn:E2; [|done].
      bool_to_prop. unfold EI_NIDENT in *. lia. }
    rewrite He. do 2 eexists. split; [done|]. apply (faithful_whole _ _ _ L); [|done].
    unfold EI_NIDENT in *. replace (Z.of_nat (length contents))
      with (Z.min 4096 (Z.of_nat (length contents))) by lia. done. }
  rewrite !(header_peek contents b1 L) by (done || lia). cbn [mbind option_bind].
  change (Z.to_nat 16) with 16%nat. rewrite Nat2Z.id.
  rewrite (ident_test _ _ L) by (done || unfold EI_NIDENT in *; lia).
  destruct (is_elf contents) eqn:He; cbn [negb].
  2:{ destruct (read_rest _ _ _ _ Hh1) as (b2 & -> & Hh2). cbn [mbind option_bind].
      do 2 eexists. split; [done|]. apply (faithful_whole _ _ _ L); [done|]. by rewrite He. }
  specialize (Hwf eq_refl). cbn [mbind option_bind].
  change (Z.to_nat 54) with 54%nat. rewrite (wf_entsize _ Hwf).
  change (rd_u 8 contents (Z.to_nat 32)) with (ph_start contents).
  change (rd_u 2 contents (Z.to_nat 56)) with (num_phdrs contents).
  destruct (read_headers _ _ _ _ Hwf ltac:(lia) Hh1) as (b2 & cur2 & -> & Hh2 & Hcur2).
  rewrite (wf_ph_end _ Hwf) by lia. cbn [mbind option_bind].
  destruct (cur2 <? _) eqn:E2; bool_to_prop; [lia|].
  destruct strip; cbn [negb].
  2:{ destruct (read_rest _ _ _ _ Hh2) as (b3 & -> & Hh3). cbn [mbind option_bind].
      do 2 eexists. split; [done|]. apply (faithful_whole _ _ _ L); [done|]. by rewrite He. }
  destruct (find_segments _ _ _ _ Hwf ltac:(lia) Hh2 Hcur2) as (h & -> & Hr & Hall).
  cbn [mbind option_bind]. pose proof (round_up_ge h ltac:(lia)) as Hup.
  set (h2 := if _ <? round_up h then _ else _).
  assert (h <= h2 <= Z.of_nat (length contents)) as Hh2r
    by (unfold h2; case_match_goal; bool_to_prop; lia).
  destruct (readUpTo_spec _ _ _ _ h2 Hh2) as (b3 & -> & Hh3). cbn [mbind option_bind].
  destruct (_ <? h2) eqn:E3; bool_to_prop; [lia|].
  do 2 eexists. split; [done|]. split; [lia|].
  split; [apply (holds_take _ _ _ _ _ Hh3); lia|]. split; [by rewrite He|].
  intros i _ Hi Hp. specialize (Hall i Hi Hp). lia.
Qed.

(** ** What the caller relies on *)

Lemma poke_length buffer pos data b : poke buffer pos data = Some b → length b = length buffer.
Proof.
  unfold poke. destruct (_ && _) eqn:E; [|done]. bool_to_prop. intros [= <-].
  unfold write_at. rewrite !length_app, length_take, length_drop. lia.
Qed.

Lemma readUpTo_length contents buffer cur new b c :
  readUpTo contents buffer cur new = Some (b, c) → length b = length buffer.
Proof.
  unfold readUpTo. destruct (new <=? cur); [by intros [= <- _]|].
  destruct (poke _ _ _) as [b1|] eqn:E; [|done]. intros [= <- _]. by eapply poke_length.
Qed.

(** Reading keeps the size of the mapping, and what is not an ELF file is read the
    same way whether it is to be stripped or not. *)
Lemma read_properties contents buffer size strip b r :
  read_file_and_strip contents buffer size strip false = Some (b, r) →
  length b = length buffer ∧
  (∀ n elf, r = Some (n, elf) → strip && elf = false → n = size) ∧
  (∀ n, r = Some (n, false) →
     ∀ strip', read_file_and_strip contents buffer size strip' false = Some (b, r)).
Proof.
  unfold read_file_and_strip, readLoadableFileSections.
  destruct (readUpTo contents buffer 0 4096) as [[b1 cur1]|] eqn:E1; [|done]. cbn [mbind option_bind].
  apply readUpTo_length in E1. rewrite <- E1.
  destruct (cur1 <? EI_NIDENT).
  { intros [= <- <-]. split_and!; [done|by intros ?? [= <- _]|by intros n [= <-]]. }
  destruct (peek 1 b1 _) as [cls|]; [|done]. destruct (peek 2 b1 16) as [ty|]; [|done].
  cbn [mbind option_bind]. destruct (_ || _ || _).
  { destruct (readUpTo contents b1 cur1 size) as [[b2 c2]|] eqn:E2; [|done]. cbn [mbind option_bind].
    intros [= <- <-]. split_and!; [by eapply readUpTo_length|by intros ?? [= <- _]|by intros n [= <-]]. }
  destruct (peek 8 b1 32) as [phs|]; [|done]. destruct (peek 2 b1 54) as [es|]; [|done].
  destruct (peek 2 b1 56) as [num|]; [|done]. cbn [mbind option_bind].
  destruct (readUpTo contents b1 cur1 _) as [[b2 c2]|] eqn:E2; [|done]. cbn [mbind option_bind].
  apply readUpTo_length in E2. destruct (c2 <? _); [by intros [= <- <-]|].
  destruct strip; cbn [negb].
  - destruct (find_highest _ _ _ _) as [h|]; [|done]. cbn [mbind option_bind].
    destruct (readUpTo contents b2 c2 _) as [[b4 c4]|] eqn:E4; [|done]. cbn [mbind option_bind].
    apply readUpTo_length in E4. destruct (c4 <? _); intros [= <- <-];
      (split_and!; [congruence|by intros ?? [= _ <-]|done]).
  - destruct (readUpTo contents b2 c2 size) as [[b4 c4]|] eqn:E4; [|done]. cbn [mbind option_bind].
    apply readUpTo_length in E4. intros [= <- <-].
    split_and!; [congruence|by intros ?? [= <- _]|done].
Qed.

(** ** Examples *)

(** A header with one program header, of a segment of [filesz] bytes at offset 0,
    behind it, then [rest]. *)
Definition example_elf (entsize num filesz : Z) (rest : bytes) : bytes :=
  ELFMAG ++ [byte_of 2] ++ replicate 11 NUL ++ le_encode 2 ET_DYN ++ replicate 14 NUL ++
  le64 64 ++ replicate 14 NUL ++ le_encode 2 entsize ++ le_encode 2 num ++ replicate 6 NUL ++
  le32 PT_LOAD ++ le32 0 ++ le64 0 ++ le64 0 ++ le64 0 ++ le64 filesz ++ le64 filesz ++ le64 0 ++ rest.

Lemma elf_read_faithful_witness :
  ∃ b n,
    read_file_and_strip (example_elf 56 1 130 (lit "text and symbols")) (new_mapping 136) 136 true false
      = Some (b, Some (n, true)) ∧
    faithful (example_elf 56 1 130 (lit "text and symbols")) true b n.
Proof.
  apply (elf_read_faithful (example_elf 56 1 130 (lit "text and symbols")) true).
  - vm_compute. split; reflexivity.
  - intros _. split.
    + vm_compute. reflexivity.
    + vm_compute. discriminate.
    + intros i Hi Hp. assert (num_phdrs (example_elf 56 1 130 (lit "text and symbols")) = 1) as E
        by (vm_compute; reflexivity). rewrite E in Hi.
      assert (i = 0%nat) as -> by lia. vm_compute. discriminate.
Defined.

(** A file whose header gives the program headers a size of zero and a
    count of 65535 makes the server read far outside the mapping: the bound that
    is checked uses the size of the header, the loop the size of the structure. *)
Theorem short_entsize_overread :
  read_file_and_strip (example_elf 0 65535 0 []) (new_mapping 120) 120 true false = None.
Proof. vm_compute. reflexivity. Qed.

End ElfRead.
