(* ===== verification/Mounts.v ===== *)
(** * Devices and mount points (parse_mounts.cc)

    The device number in the result of a [stat] differs from node to node.  A
    server sends the mount point of the device along, and the receiver puts its
    own device of that mount point into the result. *)

From Stdlib Require Import Ascii String ZArith Lia.
From stdpp Require Import strings numbers gmap list.
From S2P Require Import Prelude Bytes.

Module Mounts.

(** ** Device numbers (the macros of the C library) *)

(** [width] bits of [x] from bit [from] on, moved to bit [to]. *)
Definition field (x from width to : Z) : Z := Z.shiftl (Z.land (Z.shiftr x from) (Z.ones width)) to.

Definition gnu_dev_major (dev : Z) : Z := Z.lor (field dev 8 12 0) (field dev 44 20 12).
Definition gnu_dev_minor (dev : Z) : Z := Z.lor (field dev 0 8 0) (field dev 20 24 8).
Definition gnu_dev_makedev (major minor : Z) : Z :=
  Z.lor (Z.lor (field major 0 12 8) (field major 12 20 44))
        (Z.lor (field minor 0 8 0) (field minor 8 24 20)).

(** ** The tables *)

Abbreviation device_t := (Z * Z)%type.

Record tables := mk_tables {
  device_to_mountpoint : gmap device_t bytes;
  mountpoint_to_device : gmap bytes device_t;
}.

(** One round of the loop. *)
Definition add_mount (t : tables) (line : device_t * bytes) : tables :=
  let '(dev, mount) := line in
  mk_tables
    (match device_to_mountpoint t !! dev with
     | None => <[dev := mount]> (device_to_mountpoint t)
     | Some _ => device_to_mountpoint t
     end)
    (match mountpoint_to_device t !! mount with
     | None => <[mount := dev]> (mountpoint_to_device t)
     | Some _ => mountpoint_to_device t
     end).

(** [lines] is /proc/self/mountinfo, if it can be opened.  The end of the file is
    noticed only after a round in which [fscanf] has stored nothing: [rest] is
    what the uninitialised variables of that round hold. *)
Definition parse (lines : option (list (device_t * bytes))) (rest : device_t * bytes) : option tables :=
  match lines with
  | None => None
  | Some ls => Some (fold_left add_mount (ls ++ [rest]) (mk_tables ∅ ∅))
  end.

(** [None] is the result -1. *)
Definition mount_to_dev (t : option tables) (mount_str : bytes) : option Z :=
  t ← t; '(major, minor) ← mountpoint_to_device t !! mount_str;
  Some (gnu_dev_makedev major minor).

Definition dev_to_mount (t : option tables) (device : Z) : option bytes :=
  t ← t; device_to_mountpoint t !! (gnu_dev_major device, gnu_dev_minor device).

(** ** Facts *)

Lemma field_bit x from width to n :
  0 <= from → 0 <= width → 0 <= to → 0 <= n →
  Z.testbit (field x from width to) n =
    ((to <=? n) && (n <? to + width) && Z.testbit x (n - to + from)).
Proof.
  intros. unfold field. rewrite Z.shiftl_spec by lia.
  destruct (to <=? n) eqn:E; bool_to_prop; cbn [andb].
  - rewrite Z.land_spec, Z.shiftr_spec, Z.testbit_ones by lia.
    destruct (n <? to + width) eqn:E2; bool_to_prop; cbn [andb].
    + replace ((0 <=? n - to) && (n - to <? width)) with true; [by rewrite andb_true_r|].
      symmetry. apply andb_true_iff. split; [apply Z.leb_le|apply Z.ltb_lt]; lia.
    + replace (n - to <? width) with false; [by rewrite !andb_false_r|].
      symmetry. apply Z.ltb_ge. lia.
  - apply Z.testbit_neg_r. lia.
Qed.

Lemma testbit_high z w n : 0 <= z < 2 ^ w → 0 <= w <= n → Z.testbit z n = false.
Proof.
  intros Hz Hw. destruct (Z.eq_dec z 0) as [-> | ]; [apply Z.bits_0|].
  apply Z.bits_above_log2; [lia|]. apply Z.lt_le_trans with w; [|lia].
  apply Z.log2_lt_pow2; lia.
Qed.

(** Bit [n] of both sides, by the ranges of the fields. *)
Ltac by_fields :=
  rewrite ?Z.lor_spec, ?field_bit, ?Z.lor_spec, ?field_bit by lia;
  repeat match goal with
  | |- context [?a <=? ?b] => destruct (Z.leb_spec a b); try (exfalso; lia); cbn [andb orb]
  | |- context [?a <? ?b] => destruct (Z.ltb_spec a b); try (exfalso; lia); cbn [andb orb]
  end; rewrite ?orb_false_r; try (f_equal; lia);
  try (symmetry; eapply testbit_high; [eassumption|lia]).

Lemma makedev_parts major minor :
  0 <= major < 2 ^ 32 → 0 <= minor < 2 ^ 32 →
  gnu_dev_major (gnu_dev_makedev major minor) = major ∧
  gnu_dev_minor (gnu_dev_makedev major minor) = minor.
Proof.
  intros Ha Hi. split; apply Z.bits_inj'; intros n Hn;
    unfold gnu_dev_major, gnu_dev_minor, gnu_dev_makedev; by_fields.
Qed.

Lemma add_mount_keeps t line :
  (∀ d m, device_to_mountpoint t !! d = Some m → device_to_mountpoint (add_mount t line) !! d = Some m) ∧
  (∀ m d, mountpoint_to_device t !! m = Some d → mountpoint_to_device (add_mount t line) !! m = Some d).
Proof.
  destruct line as [dev mount]. unfold add_mount. split; intros k v H; cbn.
  - destruct (device_to_mountpoint t !! dev) eqn:E; [done|].
    rewrite lookup_insert_ne by congruence. done.
  - destruct (mountpoint_to_device t !! mount) eqn:E; [done|].
    rewrite lookup_insert_ne by congruence. done.
Qed.

Lemma add_mounts_keep ls t :
  (∀ d m, device_to_mountpoint t !! d = Some m → device_to_mountpoint (fold_left add_mount ls t) !! d = Some m) ∧
  (∀ m d, mountpoint_to_device t !! m = Some d → mountpoint_to_device (fold_left add_mount ls t) !! m = Some d).
Proof.
  revert t. induction ls as [|l ls IH]; intros t; [done|]. cbn [fold_left].
  destruct (add_mount_keeps t l) as [H1 H2]. destruct (IH (add_mount t l)) as [H3 H4].
  split; intros; [apply H3, H1|apply H4, H2]; done.
Qed.

Lemma add_mounts_new ls t :
  (∀ d, d ∉ ls.*1 → device_to_mountpoint (fold_left add_mount ls t) !! d = device_to_mountpoint t !! d) ∧
  (∀ m, m ∉ ls.*2 → mountpoint_to_device (fold_left add_mount ls t) !! m = mountpoint_to_device t !! m).
Proof.
  revert t. induction ls as [|[dev mount] ls IH]; intros t; [done|]. cbn [fold_left].
  destruct (IH (add_mount t (dev, mount))) as [H1 H2]. rewrite !fmap_cons. cbn [fst snd].
  split; intros k [Hne Hk]%not_elem_of_cons.
  - rewrite H1 by done. cbn. destruct (device_to_mountpoint t !! dev); [done|].
    by rewrite lookup_insert_ne.
  - rewrite H2 by done. cbn. destruct (mountpoint_to_device t !! mount); [done|].
    by rewrite lookup_insert_ne.
Qed.

(** The first line of a device and of a mount point counts. *)
Lemma parse_first before dev mount after rest :
  ∃ t, parse (Some (before ++ (dev, mount) :: after)) rest = Some t ∧
    (dev ∉ before.*1 → device_to_mountpoint t !! dev = Some mount) ∧
    (mount ∉ before.*2 → mountpoint_to_device t !! mount = Some dev).
Proof.
  eexists. split; [done|]. rewrite <- app_assoc, fold_left_app. cbn [app fold_left].
  set (t0 := fold_left add_mount before _).
  destruct (add_mounts_new before (mk_tables ∅ ∅)) as [H1 H2]. fold t0 in H1, H2.
  destruct (add_mounts_keep (after ++ [rest]) (add_mount t0 (dev, mount))) as [H3 H4].
  split; intros Hn.
  - apply H3. cbn. rewrite (H1 _ Hn). cbn. rewrite lookup_empty. apply lookup_insert_eq.
  - apply H4. cbn. rewrite (H2 _ Hn). cbn. rewrite lookup_empty. apply lookup_insert_eq.
Qed.

(** C36 A device number is translated by the mount point: the receiver's number is
    the one of the device that is mounted there, whatever the variables of the
    last round hold and whichever other lines the tables have. *)
Theorem device_translation la1 la2 lb1 lb2 ra rb (da db : device_t) mount :
  0 <= fst da < 2 ^ 32 → 0 <= snd da < 2 ^ 32 → da ∉ la1.*1 → mount ∉ lb1.*2 →
  (mnt ← dev_to_mount (parse (Some (la1 ++ (da, mount) :: la2)) ra) (gnu_dev_makedev (fst da) (snd da));
   mount_to_dev (parse (Some (lb1 ++ (db, mount) :: lb2)) rb) mnt)
  = Some (gnu_dev_makedev (fst db) (snd db)).
Proof.
  intros Hma Hmi Ha Hb.
  destruct (parse_first la1 da mount la2 ra) as (ta & -> & Hta & _).
  destruct (parse_first lb1 db mount lb2 rb) as (tb & -> & _ & Htb).
  unfold dev_to_mount, mount_to_dev. cbn [mbind option_bind].
  destruct (makedev_parts _ _ Hma Hmi) as [-> ->]. rewrite <- surjective_pairing, (Hta Ha).
  cbn [mbind option_bind]. rewrite (Htb Hb). by destruct db.
Qed.

Lemma device_translation_witness :
  (mnt ← dev_to_mount (parse (Some [((8, 1), lit "/"); ((0, 53), lit "/home")]) ((0, 0), [])) 53;
   mount_to_dev (parse (Some [((259, 70000), lit "/home")]) ((0, 0), [])) mnt)
  = Some (gnu_dev_makedev 259 70000).
Proof.
  apply (device_translation [((8, 1), lit "/")] [] [] [] ((0, 0), []) ((0, 0), []) (0, 53) (259, 70000)).
  - vm_compute. split; [discriminate|reflexivity].
  - vm_compute. split; [discriminate|reflexivity].
  - apply (bool_decide_unpack _). vm_compute. exact I.
  - apply (bool_decide_unpack _). vm_compute. exact I.
Defined.

(** The variables of the last round make up a mount point for a device that has none. *)
Lemma leftover_entry ls dev mount :
  dev ∉ ls.*1 →
  (t ← parse (Some ls) (dev, mount); device_to_mountpoint t !! dev) = Some mount.
Proof.
  intros Hn. cbn [parse mbind option_bind]. rewrite fold_left_app. cbn [fold_left].
  set (t0 := fold_left add_mount ls _).
  destruct (add_mounts_new ls (mk_tables ∅ ∅)) as [H1 _]. fold t0 in H1.
  cbn. rewrite (H1 _ Hn). cbn. rewrite lookup_empty. apply lookup_insert_eq.
Qed.

End Mounts.
