(* ===== verification/Server.v ===== *)
(** * The state of a server

    [ldcs_process_data_t] and the tables of the caches, as far as the handlers of
    ldcs_audit_server_handlers.c use them; the file systems as they see them; and
    the state monad in which the handlers are written.  A failing [assert] or an
    access out of bounds is the absence of a result.

    A local file that holds the contents of a file of the application is created
    with [O_EXCL], and mapped shared: the buffer and the file are the same bytes.
    The model keeps the bytes in [disk], and a buffer is the address of a
    mapping of a local file.  The model is of a build without libnuma, in which
    no file is replicated, and of sends that succeed.  Requestor lists are used
    through [RequestorStore]. *)

From Stdlib Require Import Ascii String ZArith Lia.
From stdpp Require Import strings numbers gmap list.
From S2P Require Import Prelude Bytes Requestors Message Cache GlobalName Pathfn Parseloc ElfRead Mounts.
Import Cache GlobalName Pathfn Parseloc ElfRead Mounts.

Module Server.

(** ** Data *)

Inductive handle_file_result_t :=
  | FOUND_FILE | FOUND_ERRCODE | NO_FILE | NO_DIR | READ_DIRECTORY | READ_FILE
  | REQ_DIRECTORY | REQ_FILE | ALIAS_TO | ORIG_FILE.

Inductive handle_metadata_result_t :=
  | REQUEST_METADATA | REPORT_METADATA | METADATA_FILE | METADATA_IN_PROGRESS | METADATA_ORIG_STAT.

Inductive broadcast_t := preload_broadcast | request_broadcast | suppress_broadcast.

Inductive ldcs_client_status_t :=
  | LDCS_CLIENT_STATUS_ACTIVE | LDCS_CLIENT_STATUS_ACTIVE_PSEUDO | LDCS_CLIENT_STATUS_ENDED
  | LDCS_CLIENT_STATUS_FREE | LDCS_CLIENT_STATUS_UNKNOWN.

Inductive ldcs_dist_model_t := LDCS_PULL | LDCS_PUSH.

Record client := mk_client {
  connid : Z;
  state : ldcs_client_status_t;
  remote_pid : Z;
  query_open : bool;
  existance_query : bool;
  is_stat : bool;
  is_lstat : bool;
  is_loader : bool;
  is_dso : bool;
  query_filename : bytes;
  query_dirname : bytes;
  query_globalpath : bytes;
  query_localpath : option bytes;
  query_aliasfrom : bytes;
}.

(** What a server sends.  An answer to a client is noted together with the
    query it answers.  [Trash] is [ldcs_audit_server_md_trash_bytes] on a
    connection that has no bytes of the message left. *)
Inductive output :=
  | ToClient (nc : nat) (query : client) (m : ldcs_message_t)
  | ToPeer (p : node_peer_t) (m : ldcs_message_t)
  | Broadcast (m : ldcs_message_t)
  | ToParent (m : ldcs_message_t)
  | Trash (p : node_peer_t) (n : Z).

(** The options and the place in the tree. *)
Record config := mk_config {
  opt_preload : bool;
  opt_stoprel : bool;
  opt_strip : bool;
  dist_model : ldcs_dist_model_t;
  md_rank : Z;
  local_prefixes : list bytes;
  cachepath : bytes;
  normalized_tmpdir : bytes;
  mounts : option tables;
  md_size : Z;
  localprefix : bytes;               (** what [local_prefixes] was parsed from *)
  exec_excludes : bytes;
  pythonprefix : bytes;
  parsed_cachepath : option bytes;   (** [None] when no candidate is valid everywhere *)
}.

(** [extended_stat_t]: the bytes of [struct stat] and the result of [readlink]. *)
Record extended_stat_t := mk_stat {
  stat_buf : bytes;
  readlink_errcode : Z;
  readlink_path_size : Z;
  readlink_path : bytes;       (** the string, without its terminator *)
}.

(** [filemngt_sync_file_space]: fails, maps the file again where it was, or elsewhere. *)
Inductive sync_result := SyncFail | SyncSame | SyncMoved.

(** The file systems: what the calls of the operating system give. *)
Record os := mk_os {
  os_readdir : bytes → option (list (bytes * d_type));
  os_realpath : bytes → option bytes;
  os_size : bytes → Z + Z;                     (** [stat]: size or errno *)
  os_open : bytes → bytes + Z;                 (** [fopen]: contents or errno *)
  os_stat : bytes → bool → option extended_stat_t;  (** [filemngt_stat] *)
  os_ldso : bytes → option bytes;              (** [filemngt_get_ldso_metadata] *)
  os_create : bytes → bool;                    (** a new local file can be made and mapped *)
  os_sync : bytes → sync_result;
  os_write : bytes → bool;                     (** a local file can be written *)
  os_cwd : Z → option bytes;                   (** [readlink] of [/proc/<pid>/cwd] *)
  os_proc_maps : Z → option bytes;             (** [filemngt_convert_proc_maps]: the new file *)
}.

(** ** State *)

(** What the server knows and has stored. *)
Record store := mk_store {
  cache : cache_t;
  stats : stat_cache;
  names : gstate;
  maps : gmap Z bytes;            (** the mapped local files by address *)
  next_buffer : Z;
  disk : gmap bytes bytes;        (** the local files *)
}.

(** One list per kind of metadata. *)
Record md_lists (RT : Type) := mk_md_lists {
  stat_requests : RT;
  lstat_requests : RT;
  ldso_requests : RT;
}.

(** Who waits for what, and who has got what. *)
Record requests (RT : Type) := mk_requests {
  file_requests : RT;
  dso_requests : RT;
  completed_file_requests : RT;
  completed_dso_requests : RT;
  pending_md : md_lists RT;
  completed_md : md_lists RT;
  have_done_broadcast : bool;
}.

Record server (RT : Type) := mk_server {
  st : store;
  rq : requests RT;
  preload_done : bool;
  handling_bundle : bool;
  client_table : list client;
  out : list output;
  client_counter : Z;
  pickone : gset bytes;
}.

Arguments mk_md_lists {RT}. Arguments stat_requests {RT}. Arguments lstat_requests {RT}.
Arguments ldso_requests {RT}.
Arguments mk_requests {RT}. Arguments file_requests {RT}. Arguments dso_requests {RT}.
Arguments completed_file_requests {RT}. Arguments completed_dso_requests {RT}.
Arguments pending_md {RT}. Arguments completed_md {RT}. Arguments have_done_broadcast {RT}.
Arguments mk_server {RT}. Arguments st {RT}. Arguments rq {RT}. Arguments preload_done {RT}.
Arguments handling_bundle {RT}. Arguments client_table {RT}. Arguments out {RT}.
Arguments client_counter {RT}. Arguments pickone {RT}.

Definition set_cache (c : cache_t) (s : store) : store :=
  mk_store c (stats s) (names s) (maps s) (next_buffer s) (disk s).
Definition set_stats (c : stat_cache) (s : store) : store :=
  mk_store (cache s) c (names s) (maps s) (next_buffer s) (disk s).
Definition set_names (g : gstate) (s : store) : store :=
  mk_store (cache s) (stats s) g (maps s) (next_buffer s) (disk s).
Definition set_disk (d : gmap bytes bytes) (s : store) : store :=
  mk_store (cache s) (stats s) (names s) (maps s) (next_buffer s) d.
(** A new mapping of the local file [l]. *)
Definition add_map (l : bytes) (s : store) : store :=
  mk_store (cache s) (stats s) (names s) (<[next_buffer s := l]> (maps s)) (next_buffer s + 1) (disk s).
Definition del_map (a : Z) (s : store) : store :=
  mk_store (cache s) (stats s) (names s) (delete a (maps s)) (next_buffer s) (disk s).

Section updates.
Context {RT : Type}.
Definition set_st (x : store) (s : server RT) : server RT :=
  mk_server x (rq s) (preload_done s) (handling_bundle s) (client_table s) (out s) (client_counter s) (pickone s).
Definition set_rq (x : requests RT) (s : server RT) : server RT :=
  mk_server (st s) x (preload_done s) (handling_bundle s) (client_table s) (out s) (client_counter s) (pickone s).
Definition set_preload_done (b : bool) (s : server RT) : server RT :=
  mk_server (st s) (rq s) b (handling_bundle s) (client_table s) (out s) (client_counter s) (pickone s).
Definition set_bundle (b : bool) (s : server RT) : server RT :=
  mk_server (st s) (rq s) (preload_done s) b (client_table s) (out s) (client_counter s) (pickone s).
Definition set_clients (l : list client) (s : server RT) : server RT :=
  mk_server (st s) (rq s) (preload_done s) (handling_bundle s) l (out s) (client_counter s) (pickone s).
Definition set_out (o : list output) (s : server RT) : server RT :=
  mk_server (st s) (rq s) (preload_done s) (handling_bundle s) (client_table s) o (client_counter s) (pickone s).
Definition set_counter (n : Z) (s : server RT) : server RT :=
  mk_server (st s) (rq s) (preload_done s) (handling_bundle s) (client_table s) (out s) n (pickone s).
Definition set_pickone (p : gset bytes) (s : server RT) : server RT :=
  mk_server (st s) (rq s) (preload_done s) (handling_bundle s) (client_table s) (out s) (client_counter s) p.

Definition set_requests (f d : RT) (r : requests RT) : requests RT :=
  mk_requests f d (completed_file_requests r) (completed_dso_requests r) (pending_md r)
    (completed_md r) (have_done_broadcast r).
Definition set_completed (f d : RT) (r : requests RT) : requests RT :=
  mk_requests (file_requests r) (dso_requests r) f d (pending_md r) (completed_md r) (have_done_broadcast r).
Definition set_pending_md (p : md_lists RT) (r : requests RT) : requests RT :=
  mk_requests (file_requests r) (dso_requests r) (completed_file_requests r) (completed_dso_requests r)
    p (completed_md r) (have_done_broadcast r).
Definition set_completed_md (p : md_lists RT) (r : requests RT) : requests RT :=
  mk_requests (file_requests r) (dso_requests r) (completed_file_requests r) (completed_dso_requests r)
    (pending_md r) p (have_done_broadcast r).
Definition set_done_broadcast (b : bool) (r : requests RT) : requests RT :=
  mk_requests (file_requests r) (dso_requests r) (completed_file_requests r) (completed_dso_requests r)
    (pending_md r) (completed_md r) b.

(** [metadata_pending_requests] and [metadata_completed_requests]; [None] is the failing [assert]. *)
Definition md_list (l : md_lists RT) (t : metadata_t) : option RT :=
  match t with
  | metadata_none => None
  | metadata_stat => Some (stat_requests l)
  | metadata_lstat => Some (lstat_requests l)
  | metadata_loader => Some (ldso_requests l)
  end.
Definition set_md_list (l : md_lists RT) (t : metadata_t) (x : RT) : md_lists RT :=
  match t with
  | metadata_none => l
  | metadata_stat => mk_md_lists x (lstat_requests l) (ldso_requests l)
  | metadata_lstat => mk_md_lists (stat_requests l) x (ldso_requests l)
  | metadata_loader => mk_md_lists (stat_requests l) (lstat_requests l) x
  end.
End updates.

(** ** The monad *)

Definition M (RT A : Type) : Type := server RT → option (A * server RT).

Section monad.
Context {RT : Type}.
Definition ret {A} (x : A) : M RT A := λ s, Some (x, s).
Definition bind {A B} (m : M RT A) (k : A → M RT B) : M RT B :=
  λ s, match m s with Some (x, s') => k x s' | None => None end.
Definition gets {A} (f : server RT → A) : M RT A := λ s, Some (f s, s).
Definition modify (f : server RT → server RT) : M RT unit := λ s, Some (tt, f s).
(** A failing [assert]. *)
Definition abort {A} : M RT A := λ _, None.
Definition assert_ (b : bool) : M RT unit := if b then ret tt else abort.
Definition lift_option {A} (o : option A) : M RT A := match o with Some x => ret x | None => abort end.
Definition send (o : output) : M RT unit := modify (λ s, set_out (out s ++ [o]) s).
Definition on_store (f : store → store) : M RT unit := modify (λ s, set_st (f (st s)) s).
Definition on_requests (f : requests RT → requests RT) : M RT unit := modify (λ s, set_rq (f (rq s)) s).
End monad.

Declare Scope handler_scope.
Delimit Scope handler_scope with H.
Notation "x <-- m ;; k" := (bind m (λ x, k)) (at level 100, m at next level, right associativity) : handler_scope.
Notation "m ;;; k" := (bind m (λ _, k)) (at level 100, right associativity) : handler_scope.

End Server.
