(* ===== verification/Handlers.v ===== *)
(** * The message handlers of a server

    [ldcs_audit_server_handlers.c] decides what a server does with a query of a
    client and with a message of another server: answer from the cache, read from
    the file system (at the root of the tree), or ask the parent.  This file has
    the handlers for files, directories, aliases, error codes and metadata, one
    definition per C function, in the state monad of [Server].  Their theorems are
    in the files [Truth] to [RootAnswers]. *)

From Stdlib Require Import Ascii String ZArith Lia.
From stdpp Require Import strings numbers gmap list.
From S2P Require Import Prelude Bytes Requestors Message Msgbundle Cache GlobalName Pathfn Parseloc ElfRead Mounts Server.
Import Cache GlobalName Pathfn Parseloc ElfRead Mounts Server.

Open Scope handler_scope.

Module Handlers.

Definition ENOENT : Z := 2.
Definition SPINDLE_ENODIR : Z := -68.

(** [EMPTY_FILE_PTR], the address of the mapping of an empty file. *)
Definition EMPTY_FILE_PTR : Z := 59767.

(** The rounds of [handle_client_progress]: a query reads its directory, finds an
    alias, moves to its target, reads that directory and the file, and is
    answered. *)
Definition PROGRESS_FUEL : nat := 16.

Definition message (t : ldcs_message_ids_t) (data : bytes) : ldcs_message_t :=
  mk_msg t (Z.of_nat (length data)) (Some data).

Section handlers.
Context {RT : Type} `{RS : RequestorStore RT}.
Variable cfg : config.
Variable fs : os.

Abbreviation M := (M RT).
Abbreviation server := (server RT).

(** ** Requestor lists *)

Definition been_requested (t : RT) (file : bytes) : bool :=
  match rs_get t file with Some _ => true | None => false end.
Definition peer_requested (t : RT) (file : bytes) (p : node_peer_t) : bool :=
  match rs_get t file with Some ps => bool_decide (p ∈ ps) | None => false end.
Definition get_requestors2 (t1 t2 : RT) (file : bytes) : option (list node_peer_t) :=
  match rs_get t1 file, rs_get t2 file with
  | None, None => None
  | r1, r2 => Some (Requestors.combine_requestors (default [] r1) (default [] r2))
  end.

Definition add_file_request (file : bytes) (p : node_peer_t) : M unit :=
  on_requests (λ r, set_requests (rs_add (file_requests r) file p) (dso_requests r) r).
Definition add_dso_request (file : bytes) (p : node_peer_t) : M unit :=
  on_requests (λ r, set_requests (file_requests r) (rs_add (dso_requests r) file p) r).
(** [is_dso ? procdata->dso_requests : procdata->file_requests] *)
Definition add_request (dso : bool) (file : bytes) (p : node_peer_t) : M unit :=
  if dso then add_dso_request file p else add_file_request file p.
Definition add_completed (dso : bool) (file : bytes) (p : node_peer_t) : M unit :=
  on_requests (λ r,
    if dso then set_completed (completed_file_requests r) (rs_add (completed_dso_requests r) file p) r
    else set_completed (rs_add (completed_file_requests r) file p) (completed_dso_requests r) r).

Definition pending_list (t : metadata_t) : M RT :=
  l <-- gets (λ s, md_list (pending_md (rq s)) t);; lift_option l.
Definition completed_list (t : metadata_t) : M RT :=
  l <-- gets (λ s, md_list (completed_md (rq s)) t);; lift_option l.
Definition set_pending (t : metadata_t) (x : RT) : M unit :=
  on_requests (λ r, set_pending_md (set_md_list (pending_md r) t x) r).
Definition add_pending (t : metadata_t) (file : bytes) (p : node_peer_t) : M unit :=
  l <-- pending_list t;; set_pending t (rs_add l file p).
Definition add_completed_md (t : metadata_t) (file : bytes) (p : node_peer_t) : M unit :=
  l <-- completed_list t;;
  on_requests (λ r, set_completed_md (set_md_list (completed_md r) t (rs_add l file p)) r).

(** ** Clients *)

Definition with_client (nc : nat) (f : client → client) : M unit :=
  modify (λ s, set_clients (alter f nc (client_table s)) s).
Definition get_client (nc : nat) : M client :=
  c <-- gets (λ s, client_table s !! nc);; lift_option c.

(** [client->state != ACTIVE || connid < 0] *)
Definition unreachable (c : client) : bool :=
  match state c with LDCS_CLIENT_STATUS_ACTIVE => connid c <? 0 | _ => true end.

Definition handle_close_client_query (nc : nat) : M unit :=
  with_client nc (λ c,
    mk_client (connid c) (state c) (remote_pid c) false false false (is_lstat c) (is_loader c) false
      [] [] [] (query_localpath c) []).

Definition set_localpath (l : option bytes) (c : client) : client :=
  mk_client (connid c) (state c) (remote_pid c) (query_open c) (existance_query c) (is_stat c)
    (is_lstat c) (is_loader c) (is_dso c) (query_filename c) (query_dirname c) (query_globalpath c) l
    (query_aliasfrom c).

(** [ldcs_send_msg] to the client, with the query that it answers. *)
Definition answer (nc : nat) (c : client) (m : ldcs_message_t) : M unit :=
  send (ToClient nc c m).

(** ** Decisions *)

(** [ldcs_audit_server_md_is_responsible] *)
Definition responsible : bool := md_rank cfg =? 0.

Definition handle_howto_directory (c : cache_t) (dir : bytes) : handle_file_result_t :=
  match ldcs_cache_findDirInCache c dir with
  | LDCS_CACHE_DIR_PARSED_AND_EXISTS => FOUND_FILE
  | LDCS_CACHE_DIR_PARSED_AND_NOT_EXISTS => NO_FILE
  | _ => if responsible then READ_DIRECTORY else REQ_DIRECTORY
  end.

(** Result, [*is_dso], [*localpath] ([None] when it is not written), [*alias_to],
    [*errcode]. *)
Record howto := mk_howto {
  h_result : handle_file_result_t;
  h_dso : bool;
  h_localpath : option (option bytes);
  h_alias : option bytes;
  h_errcode : Z;
}.

(** [FILE_FOUND && ( *localpath != NULL || *errcode)] *)
Definition found_cached (r : ldcs_cache_result_t * option bytes * Z) : bool :=
  match r with
  | (LDCS_CACHE_FILE_FOUND, Some _, _) => true
  | (LDCS_CACHE_FILE_FOUND, None, e) => negb (e =? 0)
  | _ => false
  end.

(** The lookups of the file and, for a DSO that is not cached as one, of the
    whole file; with the new [*is_dso]. *)
Definition find_file_or_dso (c : cache_t) (file dir : bytes) (dso : bool)
    : ldcs_cache_result_t * option bytes * Z * bool :=
  if dso then
    let r := ldcs_cache_findFileDirInCache c file dir LDCS_CACHE_FILEOBJ_DSO in
    if found_cached r then (r, true)
    else
      let r1 := ldcs_cache_findFileDirInCache c file dir LDCS_CACHE_FILEOBJ_FILE in
      (r1, negb (found_cached r1))
  else (ldcs_cache_findFileDirInCache c file dir LDCS_CACHE_FILEOBJ_FILE, false).

Definition handle_howto_file (c : cache_t) (pathname file dir : bytes) (dso : bool) : howto :=
  match ldcs_is_a_cachedfile (cachepath cfg) (normalized_tmpdir cfg) pathname with
  | Some _ => mk_howto FOUND_ERRCODE dso None None 0
  | None =>
      if is_local_prefix pathname (local_prefixes cfg) then mk_howto ORIG_FILE dso None None 0
      else
        let '(r, localpath, errcode, dso1) := find_file_or_dso c file dir dso in
        match r with
        | LDCS_CACHE_FILE_FOUND =>
            match localpath with
            | Some _ => mk_howto FOUND_FILE dso1 (Some localpath) None errcode
            | None =>
                if negb (errcode =? 0) then mk_howto FOUND_ERRCODE dso1 (Some None) None errcode
                else match snd (ldcs_cache_getAlias c file dir) with
                     | Some a => mk_howto ALIAS_TO dso1 (Some None) (Some a) errcode
                     | None =>
                         if opt_stoprel cfg then mk_howto ORIG_FILE dso1 (Some None) None errcode
                         else mk_howto (if responsible then READ_FILE else REQ_FILE) dso1 (Some None) None errcode
                     end
            end
        | _ =>
            let res := match handle_howto_directory c dir with
                       | FOUND_FILE => NO_FILE
                       | NO_FILE => NO_DIR
                       | d => d
                       end in
            mk_howto res dso1 (Some localpath) None errcode
        end
  end.

(** ** Sending to those who asked *)

(** The loop over the requestors in pull mode. *)
Fixpoint send_to_nodes (msg : ldcs_message_t) (key : bytes) (dso : bool) (nodes : list node_peer_t) : M unit :=
  match nodes with
  | [] => ret tt
  | n :: nodes' =>
      (if (n =? NODE_PEER_CLIENT) || (n =? NODE_PEER_NULL) then ret tt
       else
         beensent <-- gets (λ s,
           (dso && peer_requested (completed_dso_requests (rq s)) key NODE_PEER_ALL)
           || peer_requested (completed_file_requests (rq s)) key NODE_PEER_ALL);;
         if beensent : bool then ret tt
         else send (ToPeer n msg);;; add_completed dso key n);;;
      send_to_nodes msg key dso nodes'
  end.

Definition clear_requests (dso : bool) (key : bytes) : M unit :=
  on_requests (λ r,
    if dso then set_requests (file_requests r) (rs_clear (dso_requests r) key) r
    else set_requests (rs_clear (file_requests r) key) (rs_clear (dso_requests r) key) r).

(** [handle_send_msg_to_keys] with [metadata_none]; the secondary data is part of
    the message. *)
Definition handle_send_msg_to_keys (msg : ldcs_message_t) (key : bytes) (force_broadcast dso : bool) : M Z :=
  been_broadcast <-- gets (λ s, have_done_broadcast (rq s) &&
    ((dso && peer_requested (completed_dso_requests (rq s)) key NODE_PEER_ALL)
     || peer_requested (completed_file_requests (rq s)) key NODE_PEER_ALL));;
  if been_broadcast : bool then ret 0
  else
    match dist_model cfg, force_broadcast with
    | LDCS_PUSH, _ | LDCS_PULL, true =>
        send (Broadcast msg);;;
        on_requests (set_done_broadcast true);;;
        add_completed dso key NODE_PEER_ALL;;;
        clear_requests dso key;;; ret 0
    | LDCS_PULL, false =>
        nodes <-- gets (λ s, if dso then rs_get (dso_requests (rq s)) key
                             else get_requestors2 (dso_requests (rq s)) (file_requests (rq s)) key);;
        match nodes with
        | None => ret 0
        | Some nodes => send_to_nodes msg key dso nodes;;; clear_requests dso key;;; ret 0
        end
    end.

(** ** Directories *)

(** [snprintf (buf, MAX_PATH_LEN + 1, ...)]; the length of the message is that of
    the whole text, and there is none when that is not in the buffer. *)
Definition query_text (c : ascii) (path : bytes) : option bytes :=
  if Z.of_nat (length path) + 1 <=? MAX_PATH_LEN then Some (c :: path ++ [NUL]) else None.

Definition handle_send_directory_query (directory : bytes) : M Z :=
  data <-- lift_option (query_text "D" directory);;
  send (ToParent (message LDCS_MSG_FILE_REQUEST data));;; ret 0.

Definition handle_send_file_query (fullpath : bytes) (dso : bool) : M Z :=
  data <-- lift_option (query_text (if dso then "S" else "F")%char fullpath);;
  send (ToParent (message LDCS_MSG_FILE_REQUEST data));;; ret 0.

Definition handle_send_query (path : bytes) (is_dir dso : bool) : M Z :=
  was_requested <-- gets (λ s,
    if is_dir then been_requested (file_requests (rq s)) path
    else if dso then been_requested (dso_requests (rq s)) path || been_requested (file_requests (rq s)) path
    else been_requested (file_requests (rq s)) path);;
  if was_requested : bool then ret 0
  else if is_dir then handle_send_directory_query path
  else handle_send_file_query path dso.

Definition handle_read_directory (dir : bytes) : M Z :=
  c <-- gets (λ s, cache (st s));;
  match ldcs_cache_findDirInCache c dir with
  | LDCS_CACHE_DIR_NOT_PARSED =>
      rc <-- lift_option (ldcs_cache_processDirectory c dir (os_readdir fs dir));;
      let '(r, c1) := rc in
      on_store (set_cache c1);;;
      ret match r with
          | LDCS_CACHE_DIR_PARSED_AND_EXISTS | LDCS_CACHE_DIR_PARSED_AND_NOT_EXISTS => 0
          | _ => -1
          end
  | _ => ret 0
  end.

Definition handle_broadcast_dir (dir : bytes) (bcast : broadcast_t) : M Z :=
  c <-- gets (λ s, cache (st s));;
  data <-- lift_option (ldcs_cache_encodeDirContents c dir);;
  match data with
  | None => ret (-1)
  | Some data =>
      let '(t, force_broadcast) :=
        match bcast with
        | preload_broadcast => (LDCS_MSG_PRELOAD_DIR, true)
        | _ => (LDCS_MSG_CACHE_ENTRIES, false)
        end in
      handle_send_msg_to_keys (message t data) dir force_broadcast false
  end.

Definition handle_read_and_broadcast_dir (dir : bytes) : M Z :=
  result <-- handle_read_directory dir;;
  if result =? -1 then ret (-1) else handle_broadcast_dir dir request_broadcast.

(** ** Local files and their mappings (ldcs_audit_server_filemngt.c) *)

(** [*buffer_out]; [None] is the result -1.  A name as long as [PATH_MAX] cannot be opened. *)
Definition filemngt_create_file_space (filename : bytes) (size : Z) : M (option Z) :=
  s <-- gets st;;
  match disk s !! filename with
  | Some _ => ret None
  | None =>
      if os_create fs filename && (Z.of_nat (length filename) <? MAX_PATH_LEN) then
        on_store (set_disk (<[filename := replicate (Z.to_nat size) NUL]> (disk s)));;;
        if size =? 0 then ret (Some EMPTY_FILE_PTR)
        else on_store (add_map filename);;; ret (Some (next_buffer s))
      else ret None
  end.

(** A store into the mapping of a local file, within its [size] bytes. *)
Definition write_file (filename : bytes) (data : bytes) : M unit :=
  on_store (λ s, set_disk (<[filename := data]> (disk s)) s).

(** The new address; [None] is the result [NULL].  A mapping of no bytes cannot be made. *)
Definition filemngt_sync_file_space (buffer : Z) (filename : bytes) (size newsize : Z) : M (option Z) :=
  if (size =? 0) || (buffer =? EMPTY_FILE_PTR) then ret (Some EMPTY_FILE_PTR)
  else
    on_store (del_map buffer);;;
    assert_ (newsize <=? size);;;
    s <-- gets st;;
    contents <-- lift_option (disk s !! filename);;
    write_file filename (take (Z.to_nat newsize) contents);;;
    if newsize =? 0 then ret None
    else match os_sync fs filename with
         | SyncFail => ret None
         | SyncSame =>
             on_store (λ s, mk_store (cache s) (stats s) (names s) (<[buffer := filename]> (maps s))
                              (next_buffer s) (disk s));;;
             ret (Some buffer)
         | SyncMoved => on_store (add_map filename);;; ret (Some (next_buffer s))
         end.

(** The first [size] bytes at the address [buffer]. *)
Definition read_mapping (buffer size : Z) : M bytes :=
  if size =? 0 then ret []
  else
    s <-- gets st;;
    filename <-- lift_option (maps s !! buffer);;
    contents <-- lift_option (disk s !! filename);;
    assert_ (size <=? Z.of_nat (length contents));;;
    ret (take (Z.to_nat size) contents).

Definition filemngt_realpath (pathname : bytes) : option bytes :=
  match os_realpath fs pathname with
  | Some q => if bool_decide (q = pathname) then None else Some q
  | None => None
  end.

Definition filemngt_is_elf_file (buffer : bytes) : bool := bool_decide (take 4 buffer = ELFMAG).

Definition filemngt_encode_packet (filename contents : bytes) (stripped : bool) : bytes :=
  le32 (if filemngt_is_elf_file contents then 1 else 0) ++ le32 (if stripped then 1 else 0) ++
  le32 (Z.of_nat (length filename) + 1) ++ le64 (Z.of_nat (length contents)) ++
  filename ++ [NUL] ++ contents.

(** Name, size, [*bytes_read] and [*stripped]; [None] is a failing [assert] or a
    packet that is too short. *)
Definition filemngt_decode_packet (data : bytes) : option (bytes * Z * nat * bool) :=
  let stripped := rd_i32 data 4 in
  let filename_len := rd_i32 data 8 in
  let filesize := rd_u 8 data 12 in
  if (length data <? 20)%nat || negb ((0 <? filename_len) && (filename_len <=? MAX_PATH_LEN + 1)) then None
  else
    let name := take (Z.to_nat filename_len) (drop 20 data) in
    if (Z.of_nat (length name) =? filename_len) && has_nul name then
      Some (cstr name, filesize, (20 + Z.to_nat filename_len)%nat, negb (stripped =? 0))
    else None.

(** ** Files *)

(** [filemngt_calc_localname] and [add_global_name]. *)
Definition new_local_name (pathname : bytes) (t : calc_local_t) : M bytes :=
  g <-- gets (λ s, names (st s));;
  r <-- lift_option (name_file (cachepath cfg) (normalized_tmpdir cfg) g pathname t);;
  let '(g1, localname) := r in
  on_store (set_names g1);;; ret localname.

(** Buffer ([None] is [NULL]), [*localname] and [*already_loaded]. *)
Definition handle_setup_file_buffer (pathname : bytes) (size : Z) (stripped : bool)
    : M (option Z * bytes * bool) :=
  let '(filename, dirname) := parseFilenameNoAlloc pathname MAX_PATH_LEN in
  c <-- gets (λ s, cache (st s));;
  match ldcs_cache_findFileDirInCache c filename dirname
          (if stripped then LDCS_CACHE_FILEOBJ_EITHER else LDCS_CACHE_FILEOBJ_FILE) with
  | (LDCS_CACHE_FILE_FOUND, Some localname, _) => ret (None, localname, true)
  | (r, _, _) =>
      (match r with
       | LDCS_CACHE_FILE_FOUND => ret tt
       | LDCS_CACHE_FILE_NOT_FOUND =>
           c1 <-- lift_option (ldcs_cache_addFileDir c dirname filename);; on_store (set_cache c1)
       | _ => abort
       end);;;
      localname <-- new_local_name pathname (if stripped then clt_dso else clt_file);;
      buffer <-- filemngt_create_file_space localname size;;
      match buffer with
      | None => ret (None, localname, false)
      | Some buffer =>
          on_store (λ s, set_cache (snd (ldcs_cache_updateBuffer (cache s) filename dirname
                                           (Some localname) buffer size 0 stripped)) s);;;
          ret (Some buffer, localname, false)
      end
  end.

(** Result and [*orig_buffer]; the address 0 is [NULL]. *)
Definition handle_finish_buffer_setup (localname : option bytes) (pathname : bytes) (buffer size newsize : Z)
    (errcode : Z) (was_stripped : bool) : M (Z * Z) :=
  r <-- (if negb (errcode =? 0) then
           on_store (del_map buffer);;; ret (Some (0, 0, 0, None))
         else
           match localname with
           | None => ret (Some (EMPTY_FILE_PTR, buffer, size, None))
           | Some l =>
               newbuffer <-- filemngt_sync_file_space buffer l size newsize;;
               ret match newbuffer with
                   | None => None
                   | Some nb => Some (nb, buffer, size, Some l)
                   end
           end);;
  match r with
  | None => ret (-1, buffer)
  | Some (newbuffer, buffer1, size1, localname1) =>
      let '(filename, dirname) := parseFilenameNoAlloc pathname MAX_PATH_LEN in
      if negb (size1 =? newsize) || negb (buffer1 =? newbuffer) || negb (errcode =? 0) then
        on_store (λ s, set_cache (snd (ldcs_cache_updateBuffer (cache s) filename dirname
                                         localname1 newbuffer newsize errcode was_stripped)) s);;;
        ret (0, newbuffer)
      else ret (0, buffer)
  end.

Definition handle_setup_alias (pathname alias_to : bytes) : M Z :=
  let '(filename, dirname) := parseFilenameNoAlloc pathname MAX_PATH_LEN in
  c <-- gets (λ s, cache (st s));;
  match ldcs_cache_findFileDirInCache c filename dirname LDCS_CACHE_FILEOBJ_EITHER with
  | (LDCS_CACHE_FILE_FOUND, _, _) =>
      on_store (set_cache (snd (ldcs_cache_updateAlias c filename dirname alias_to)));;; ret 0
  | _ => abort
  end.

Definition handle_broadcast_file (pathname : bytes) (buffer size : Z) (was_stripped : bool)
    (bcast : broadcast_t) : M Z :=
  contents <-- read_mapping buffer size;;
  let '(t, force_broadcast) :=
    match bcast with
    | preload_broadcast => (LDCS_MSG_PRELOAD_FILE, true)
    | _ => (LDCS_MSG_FILE_DATA, false)
    end in
  handle_send_msg_to_keys (message t (filemngt_encode_packet pathname contents was_stripped))
    pathname force_broadcast was_stripped.

Definition handle_broadcast_errorcode (pathname : bytes) (errcode : Z) : M Z :=
  handle_send_msg_to_keys
    (message LDCS_MSG_FILE_ERRCODE
       (le32 errcode ++ le32 (Z.of_nat (length pathname) + 1) ++ pathname ++ [NUL]))
    pathname false false.

Definition handle_broadcast_alias (alias_from alias_to : bytes) : M Z :=
  handle_send_msg_to_keys (message LDCS_MSG_ALIAS (alias_from ++ [NUL] ++ alias_to ++ [NUL]))
    alias_from false false.

(** [filemngt_read_file] into the mapping of [localname]: [None] is the result -1,
    otherwise [*size], [*errcode] and [*was_stripped]. *)
Definition filemngt_read_file (pathname localname : bytes) (size : Z) (strip : bool) : M (option (Z * Z * bool)) :=
  match os_open fs pathname with
  | inr errno => ret (Some (size, errno, false))
  | inl contents =>
      r <-- lift_option (read_file_and_strip contents (new_mapping size) size strip false);;
      let '(b, r1) := r in
      write_file localname (take (Z.to_nat size) b);;;
      ret match r1 with
          | None => None
          | Some (newsize, was_elf) => Some (newsize, 0, strip && was_elf)
          end
  end.

(** What is sent once the file is in the cache. *)
Definition broadcast_result (pathname : bytes) (bcast : broadcast_t) (m : M Z) : M Z :=
  match bcast with
  | suppress_broadcast => ret 0
  | _ => result <-- m;; ret (if result =? -1 then -1 else 0)
  end.

Definition handle_read_and_broadcast_file (pathname : bytes) (read_dso : bool) (bcast : broadcast_t) : M Z :=
  match filemngt_realpath pathname with
  | Some alias_to =>
      result <-- handle_setup_alias pathname alias_to;;
      if result =? -1 then ret (-1)
      else broadcast_result pathname bcast (handle_broadcast_alias pathname alias_to)
  | None =>
      let finish (localname : option bytes) (buffer size newsize errcode : Z) (was_stripped : bool) :=
        r <-- handle_finish_buffer_setup localname pathname buffer size newsize errcode was_stripped;;
        let '(result, buffer1) := r in
        if result =? -1 then ret (-1)
        else broadcast_result pathname bcast
               (if errcode =? 0 then handle_broadcast_file pathname buffer1 newsize was_stripped bcast
                else handle_broadcast_errorcode pathname errcode) in
      match os_size fs pathname with
      | inr errno => finish None 0 0 0 errno false
      | inl size =>
          let should_strip := opt_strip cfg && read_dso in
          r <-- handle_setup_file_buffer pathname size should_strip;;
          let '(buffer, localname, already_loaded) := r in
          match buffer with
          | None => assert_ (negb already_loaded);;; ret (-1)
          | Some buffer =>
              result <-- filemngt_read_file pathname localname size should_strip;;
              match result with
              | None => ret (-1)
              | Some (newsize, errcode, was_stripped) =>
                  finish (Some localname) buffer size newsize errcode was_stripped
              end
          end
      end
  end.

(** ** Answers to clients *)

Definition handle_client_fulfilled_query (nc : nat) : M Z :=
  c <-- get_client nc;;
  if unreachable c then ret 0
  else
    localpath <-- lift_option (query_localpath c);;
    answer nc c (message LDCS_MSG_FILE_QUERY_ANSWER
                   (le32 0 ++ take (Z.to_nat MAX_PATH_LEN) localpath ++ [NUL]));;;
    handle_close_client_query nc;;; ret 0.

Definition handle_client_rejected_query (nc : nat) (errcode : Z) : M Z :=
  c <-- get_client nc;;
  if unreachable c then ret 0
  else
    answer nc c (message LDCS_MSG_FILE_QUERY_ANSWER (le32 errcode));;;
    handle_close_client_query nc;;; ret 0.

Definition handle_client_originalfile_query (nc : nat) : M Z :=
  with_client nc (λ c, set_localpath (Some (query_globalpath c)) c);;;
  handle_client_fulfilled_query nc.

(** [procdata->opts | OPT_NUMA] always holds; nothing is replicated, so that only
    the [assert] of the lookup is left. *)
Definition handle_client_return_numa_replication (nc : nat) : M unit :=
  c <-- get_client nc;;
  k <-- gets (λ s, cache (st s));;
  match ldcs_cache_isReplicated k (query_filename c) (query_dirname c) with
  | (LDCS_CACHE_FILE_FOUND, _) => ret tt
  | _ => abort
  end.

Definition handle_client_get_alias (nc : nat) (alias_to : bytes) : M unit :=
  with_client nc (λ c,
    let globalpath := take (Z.to_nat (MAX_PATH_LEN + 1)) alias_to in
    let '(filename, dirname) := parseFilenameNoAlloc globalpath MAX_PATH_LEN in
    mk_client (connid c) (state c) (remote_pid c) (query_open c) (existance_query c) (is_stat c)
      (is_lstat c) (is_loader c) (is_dso c) filename dirname globalpath (query_localpath c)
      (query_globalpath c)).

Inductive exist_t := exists_ | not_exists.

Definition handle_report_fileexist_result (nc : nat) (res : exist_t) : M Z :=
  c <-- get_client nc;;
  if unreachable c then ret 0
  else
    answer nc c (message LDCS_MSG_EXISTS_ANSWER (le32 match res with exists_ => 1 | not_exists => 0 end));;;
    handle_close_client_query nc;;; ret 0.

(** The decision for the query of a client, with [&client->query_localpath]. *)
Definition howto_query (nc : nat) (dso : bool) : M howto :=
  c <-- get_client nc;;
  k <-- gets (λ s, cache (st s));;
  let h := handle_howto_file k (query_globalpath c) (query_filename c) (query_dirname c) dso in
  (match h_localpath h with
   | Some l => with_client nc (set_localpath l)
   | None => ret tt
   end);;; ret h.

Fixpoint handle_fileexist_test (fuel : nat) (nc : nat) : M Z :=
  match fuel with
  | O => abort
  | S fuel' =>
      c <-- get_client nc;;
      h <-- howto_query nc true;;
      match h_result h with
      | READ_FILE | REQ_FILE | FOUND_FILE | FOUND_ERRCODE => handle_report_fileexist_result nc exists_
      | NO_FILE | NO_DIR => handle_report_fileexist_result nc not_exists
      | READ_DIRECTORY =>
          result <-- handle_read_and_broadcast_dir (query_dirname c);;
          if result =? -1 then ret (-1) else handle_fileexist_test fuel' nc
      | REQ_DIRECTORY =>
          result <-- handle_send_query (query_dirname c) true false;;
          ret (if result =? -1 then -1 else 0)
      | ALIAS_TO =>
          alias_to <-- lift_option (h_alias h);;
          handle_client_get_alias nc alias_to;;;
          handle_fileexist_test fuel' nc
      | ORIG_FILE => abort
      end
  end.

(** ** Metadata *)

(** [sizeof (struct stat)], [sizeof (extended_stat_t)], [sizeof (ldso_info_t)] on x86-64. *)
Definition STAT_SIZE : Z := 144.
Definition EXTENDED_STAT_SIZE : Z := 4264.
Definition LDSO_INFO_SIZE : Z := 32.

(** [sizeof (extended_stat_t) - (sizeof (readlink_path) - readlink_path_size) + 1] *)
Definition extended_stat_size (b : extended_stat_t) : Z :=
  EXTENDED_STAT_SIZE - (MAX_PATH_LEN + 1 - readlink_path_size b) + 1.

(** The first [extended_stat_size] bytes of the structure; padding and what lies
    behind the string, which the code leaves uninitialised, are zero here. *)
Definition stat_bytes (b : extended_stat_t) : bytes :=
  let s := stat_buf b ++ le32 (readlink_errcode b) ++ le32 0 ++ le64 (readlink_path_size b) ++
           readlink_path b ++ [NUL] in
  let n := Z.to_nat (extended_stat_size b) in
  take n (s ++ replicate (n - length s) NUL).

(** [memcpy (&buf, data, n)]. *)
Definition stat_of_bytes (data : bytes) : extended_stat_t :=
  mk_stat (take 144 data) (rd_i32 data 144) (to_signed 64 (rd_u 8 data 152)) (cstr (drop 160 data)).

(** What [filemngt_write_stat] writes and [filemngt_read_stat] reads back. *)
Definition stat_file (b : extended_stat_t) : bytes :=
  stat_buf b ++ le32 (readlink_errcode b) ++ le64 (readlink_path_size b) ++
  take (Z.to_nat (readlink_path_size b)) (readlink_path b ++ [NUL]).

Definition filemngt_read_stat (file : bytes) : option extended_stat_t :=
  let n := to_signed 64 (rd_u 8 file 148) in
  if (length file <? 156 + Z.to_nat n)%nat then None
  else Some (mk_stat (take 144 file) (rd_i32 file 144) n (if 0 <? n then cstr (drop 156 file) else [])).

Definition set_dev (dev : Z) (b : extended_stat_t) : extended_stat_t :=
  mk_stat (le64 dev ++ drop 8 (stat_buf b)) (readlink_errcode b) (readlink_path_size b) (readlink_path b).
Definition st_dev (b : extended_stat_t) : Z := rd_u 8 (stat_buf b) 0.

(** [creat] and [write] of a local file. *)
Definition write_local (localname data : bytes) : M bool :=
  if os_write fs localname && (Z.of_nat (length localname) <? MAX_PATH_LEN)
  then write_file localname data;;; ret true else ret false.

Definition add_stat (pathname : bytes) (data : option bytes) (t : metadata_t) : M unit :=
  s <-- gets (λ s, stats (st s));;
  s1 <-- lift_option (add_stat_cache s pathname data t);;
  on_store (set_stats s1).

Definition lookup_stat (pathname : bytes) (t : metadata_t) : M (option (option bytes)) :=
  s <-- gets (λ s, stats (st s));; lift_option (lookup_stat_cache s pathname t).

(** Result and [*localname]. *)
Definition handle_cache_metadata (pathname : bytes) (t : metadata_t) (buf : option extended_stat_t)
    : M (Z * option bytes) :=
  match buf with
  | None => add_stat pathname None t;;; ret (0, None)
  | Some b =>
      localname <-- new_local_name pathname
        match t with
        | metadata_stat => clt_stat
        | metadata_lstat => clt_lstat
        | metadata_loader => clt_ldso
        | metadata_none => clt_unknown
        end;;
      add_stat pathname (Some localname) t;;;
      ok <-- write_local localname (stat_file b);;
      ret (if ok : bool then 0 else -1, Some localname)
  end.

Definition handle_cache_ldso (pathname : bytes) (ldsoinfo : option bytes) : M (Z * option bytes) :=
  match ldsoinfo with
  | None => add_stat pathname None metadata_loader;;; ret (0, None)
  | Some info =>
      localname <-- new_local_name pathname clt_ldso;;
      add_stat pathname (Some localname) metadata_loader;;;
      write_local localname info;;; ret (0, Some localname)
  end.

(** Result, [*localname] and the result of [stat]; a [stat] that is cached already
    leaves the structure uninitialised, and nobody may look at it. *)
Definition handle_stat_file (pathname : bytes) (t : metadata_t)
    : M (Z * option bytes * option (option extended_stat_t)) :=
  cached <-- lookup_stat pathname t;;
  match cached with
  | Some localname => ret (0, localname, None)
  | None =>
      let buf := os_stat fs pathname (bool_decide (t = metadata_lstat)) in
      r <-- handle_cache_metadata pathname t buf;;
      let '(result, localname) := r in ret (result, localname, Some buf)
  end.

Definition DOLLAR : ascii := "$"%char.

Definition handle_read_ldso_metadata (pathname : bytes) : M (Z * option bytes * option (option bytes)) :=
  cached <-- lookup_stat pathname metadata_loader;;
  match cached with
  | Some localname => ret (0, localname, None)
  | None =>
      let read_path := match pathname with
                       | a :: rest => if Ascii.eqb a DOLLAR then rest else pathname
                       | [] => []
                       end in
      match os_ldso fs read_path with
      | None => r <-- handle_cache_ldso pathname None;; ret (-1, snd r, Some None)
      | Some info => r <-- handle_cache_ldso pathname (Some info);; ret (r, Some (Some info))
      end
  end.

(** The loop over the requestors of metadata in pull mode. *)
Fixpoint send_metadata_to_nodes (msg : ldcs_message_t) (key : bytes) (t : metadata_t)
    (nodes : list node_peer_t) : M unit :=
  match nodes with
  | [] => ret tt
  | n :: nodes' =>
      (if (n =? NODE_PEER_CLIENT) || (n =? NODE_PEER_NULL) then ret tt
       else
         completed <-- completed_list t;;
         if peer_requested completed key n then ret tt
         else send (ToPeer n msg);;; add_completed_md t key n);;;
      send_metadata_to_nodes msg key t nodes'
  end.

Definition handle_send_metadata_to_keys (msg : ldcs_message_t) (key : bytes) (force_broadcast : bool)
    (t : metadata_t) : M Z :=
  pending_reqs <-- pending_list t;;
  completed_reqs <-- completed_list t;;
  done_broadcast <-- gets (λ s, have_done_broadcast (rq s));;
  if done_broadcast && peer_requested completed_reqs key NODE_PEER_ALL then ret 0
  else
    match dist_model cfg, force_broadcast with
    | LDCS_PUSH, _ | LDCS_PULL, true =>
        send (Broadcast msg);;;
        on_requests (set_done_broadcast true);;;
        add_completed_md t key NODE_PEER_ALL;;;
        set_pending t (rs_clear pending_reqs key);;; ret 0
    | LDCS_PULL, false =>
        match rs_get pending_reqs key with
        | None => ret 0
        | Some nodes =>
            send_metadata_to_nodes msg key t nodes;;;
            set_pending t (rs_clear pending_reqs key);;; ret 0
        end
    end.

(** [buf] is the structure, [None] when the file does not exist. *)
Definition handle_broadcast_metadata (pathname : bytes) (buf : option bytes) (t : metadata_t) : M Z :=
  let mount :=
    match buf, t with
    | Some b, (metadata_stat | metadata_lstat) =>
        match dev_to_mount (mounts cfg) (rd_u 8 b 0) with Some m => m ++ [NUL] | None => [] end
    | _, _ => []
    end in
  let packet :=
    le32 match buf with Some _ => 1 | None => 0 end ++ le32 (Z.of_nat (length pathname) + 1) ++
    le32 (Z.of_nat (length mount)) ++ pathname ++ [NUL] ++ mount ++ default [] buf in
  type <-- lift_option match t with
                       | metadata_none => None
                       | metadata_stat => Some LDCS_MSG_STAT_NET_RESULT
                       | metadata_lstat => Some LDCS_MSG_LSTAT_NET_RESULT
                       | metadata_loader => Some LDCS_MSG_LOADER_DATA_NET_RESP
                       end;;
  handle_send_metadata_to_keys (message type packet) pathname false t.

Definition handle_metadata_and_broadcast_file (pathname : bytes) (t : metadata_t) (bcast : broadcast_t) : M Z :=
  r <-- match t with
        | metadata_stat | metadata_lstat =>
            r <-- handle_stat_file pathname t;;
            let '(result, localname, buf) := r in
            ret (result, localname, option_map (option_map stat_bytes) buf)
        | metadata_loader => handle_read_ldso_metadata pathname
        | metadata_none => abort
        end;;
  let '(result, localname, buf) := r in
  if result =? -1 then ret (-1)
  else match bcast with
       | suppress_broadcast => ret 0
       | _ =>
           data <-- match localname with
                    | None => ret None
                    | Some _ => b <-- lift_option buf;; ret b
                    end;;
           result <-- handle_broadcast_metadata pathname data t;;
           ret (if result =? -1 then -1 else 0)
       end.

Definition handle_load_and_broadcast_metadata (pathname : bytes) (t : metadata_t) : M Z :=
  cached <-- lookup_stat pathname t;;
  match cached with
  | None => ret (-1)
  | Some localpath =>
      d <-- gets (λ s, disk (st s));;
      let buffer :=
        match localpath with
        | None => Some None
        | Some l =>
            file ← d !! l;
            match t with
            | metadata_loader =>
                if LDSO_INFO_SIZE <=? Z.of_nat (length file) then Some (Some (take 32 file)) else None
            | _ => b ← filemngt_read_stat file; Some (Some (stat_bytes b))
            end
        end in
      match buffer with
      | None => ret (-1)
      | Some buf =>
          result <-- handle_broadcast_metadata pathname buf t;;
          ret (if result =? -1 then -1 else 0)
      end
  end.

Definition handle_howto_metadata (pathname : bytes) (t : metadata_t) : M handle_metadata_result_t :=
  if is_local_prefix pathname (local_prefixes cfg) then ret METADATA_ORIG_STAT
  else
    cached <-- lookup_stat pathname t;;
    match cached with
    | Some _ => ret REPORT_METADATA
    | None =>
        if responsible then ret METADATA_FILE
        else
          pending <-- pending_list t;;
          ret (if been_requested pending pathname then METADATA_IN_PROGRESS else REQUEST_METADATA)
    end.

Definition handle_metadata_request (pathname : bytes) (t : metadata_t) (from : node_peer_t) : M Z :=
  pending <-- pending_list t;;
  if been_requested pending pathname then ret 0
  else
    add_pending t pathname from;;;
    type <-- lift_option match t with
                         | metadata_none => None
                         | metadata_stat => Some LDCS_MSG_STAT_NET_REQUEST
                         | metadata_lstat => Some LDCS_MSG_LSTAT_NET_REQUEST
                         | metadata_loader => Some LDCS_MSG_LOADER_DATA_NET_REQ
                         end;;
    send (ToParent (message type (pathname ++ [NUL])));;; ret 0.

Definition handle_client_metadata_result (nc : nat) (t : metadata_t) : M Z :=
  c <-- get_client nc;;
  assert_ (query_open c || is_stat c);;;
  if unreachable c then ret 0
  else
    cached <-- lookup_stat (query_globalpath c) t;;
    match cached with
    | None => ret 0
    | Some localpath =>
        let type := match t with
                    | metadata_stat | metadata_lstat => LDCS_MSG_STAT_ANSWER
                    | _ => LDCS_MSG_LOADER_DATA_RESP
                    end in
        answer nc c match localpath with
                    | Some l => message type (l ++ [NUL])
                    | None => mk_msg type 0 None
                    end;;;
        handle_close_client_query nc;;; ret 0
    end.

Definition handle_client_metadata_self (nc : nat) : M Z :=
  c <-- get_client nc;;
  assert_ (query_open c || is_stat c);;;
  if unreachable c then ret 0
  else
    answer nc c (mk_msg LDCS_MSG_STAT_ANSWER_SELF 0 None);;;
    handle_close_client_query nc;;; ret 0.

Definition handle_client_metadata (nc : nat) : M Z :=
  c <-- get_client nc;;
  let pathname := query_globalpath c in
  t <-- lift_option (if is_lstat c then Some metadata_lstat
                     else if is_stat c then Some metadata_stat
                     else if is_loader c then Some metadata_loader
                     else None);;
  stat_result <-- handle_howto_metadata pathname t;;
  match stat_result with
  | REQUEST_METADATA => handle_metadata_request pathname t NODE_PEER_CLIENT
  | METADATA_FILE =>
      add_pending t pathname NODE_PEER_CLIENT;;;
      broadcast_result <-- handle_metadata_and_broadcast_file pathname t request_broadcast;;
      client_result <-- handle_client_metadata_result nc t;;
      ret (if (broadcast_result =? -1) || (client_result =? -1) then -1 else 0)
  | REPORT_METADATA => handle_client_metadata_result nc t
  | METADATA_IN_PROGRESS => add_pending t pathname NODE_PEER_CLIENT;;; ret 0
  | METADATA_ORIG_STAT => handle_client_metadata_self nc
  end.

Definition handle_metadata_request_recv (data : bytes) (t : metadata_t) (peer : node_peer_t) : M Z :=
  let pathname := cstr data in
  assert_ (has_nul data && (length pathname + 1 =? length data)%nat);;;
  stat_result <-- handle_howto_metadata pathname t;;
  match stat_result with
  | REQUEST_METADATA => handle_metadata_request pathname t peer
  | METADATA_FILE =>
      add_pending t pathname peer;;; handle_metadata_and_broadcast_file pathname t request_broadcast
  | REPORT_METADATA =>
      add_pending t pathname peer;;; handle_load_and_broadcast_metadata pathname t
  | METADATA_IN_PROGRESS => add_pending t pathname peer;;; ret 0
  | METADATA_ORIG_STAT => abort
  end.

(** ** Progress of the clients' queries *)

Fixpoint handle_client_progress (fuel : nat) (nc : nat) : M Z :=
  match fuel with
  | O => abort
  | S fuel' =>
      c <-- get_client nc;;
      done_preload <-- gets preload_done;;
      if opt_preload cfg && negb done_preload then ret 0
      else if negb (query_open c) then ret 0
      else if existance_query c then handle_fileexist_test fuel' nc
      else if is_stat c || is_loader c then handle_client_metadata nc
      else
        h <-- howto_query nc (is_dso c);;
        match h_result h with
        | FOUND_FILE =>
            handle_client_return_numa_replication nc;;;
            handle_client_fulfilled_query nc
        | NO_DIR => handle_client_rejected_query nc SPINDLE_ENODIR
        | NO_FILE => handle_client_rejected_query nc ENOENT
        | FOUND_ERRCODE => handle_client_rejected_query nc (h_errcode h)
        | READ_DIRECTORY =>
            read_result <-- handle_read_directory (query_dirname c);;
            if read_result =? -1 then ret (-1)
            else
              broadcast_result <-- handle_broadcast_dir (query_dirname c) request_broadcast;;
              client_result <-- handle_client_progress fuel' nc;;
              ret (if (client_result =? -1) || (broadcast_result =? -1) then -1 else 0)
        | READ_FILE =>
            read_result <-- handle_read_and_broadcast_file (query_globalpath c) (is_dso c) request_broadcast;;
            if read_result =? -1 then ret (-1)
            else
              client_result <-- handle_client_progress fuel' nc;;
              ret (if client_result =? -1 then -1 else 0)
        | REQ_DIRECTORY =>
            client_result <-- handle_send_query (query_dirname c) true false;;
            add_file_request (query_dirname c) NODE_PEER_CLIENT;;; ret client_result
        | REQ_FILE =>
            client_result <-- handle_send_query (query_globalpath c) false (is_dso c);;
            add_dso_request (query_globalpath c) NODE_PEER_CLIENT;;; ret client_result
        | ORIG_FILE => handle_client_originalfile_query nc
        | ALIAS_TO =>
            alias_to <-- lift_option (h_alias h);;
            handle_client_get_alias nc alias_to;;;
            handle_client_progress fuel' nc
        end
  end.

(** [FREE] and [ACTIVE_PSEUDO] clients are passed over. *)
Definition no_query (c : client) : bool :=
  match state c with
  | LDCS_CLIENT_STATUS_FREE | LDCS_CLIENT_STATUS_ACTIVE_PSEUDO => true
  | _ => false
  end.

(** The loop from client [nc] on. *)
Fixpoint progress_from (n : nat) (nc : nat) : M Z :=
  match n with
  | O => ret 0
  | S n' =>
      c <-- get_client nc;;
      result <-- (if no_query c then ret 0 else handle_client_progress PROGRESS_FUEL nc);;
      rest <-- progress_from n' (S nc);;
      ret (if (result =? -1) || (rest =? -1) then -1 else 0)
  end.

Definition handle_progress : M Z :=
  n <-- gets (λ s, length (client_table s));; progress_from n 0.

(** ** Queries of clients *)

(** The query that [handle_client_file_request] and [handle_client_fileexist_msg]
    set up; a path that cannot be made absolute leaves empty names. *)
Definition open_query (pathname : bytes) (existance stat lstat loader dso : bool) (c : client) : option client :=
  '(_, file, dir) ← parseFilenameNoAlloc2 pathname MAX_PATH_LEN (os_cwd fs (remote_pid c));
  Some (mk_client (connid c) (state c) (remote_pid c) true existance stat lstat loader dso
          file dir (global_path dir file) None (query_aliasfrom c)).

Definition replace_client (nc : nat) (f : client → option client) : M unit :=
  c <-- get_client nc;;
  c1 <-- lift_option (f c);;
  with_client nc (λ _, c1).

Definition handle_client_file_request (nc : nat) (t : ldcs_message_ids_t) (pathname : bytes) : M Z :=
  let stat := match t with LDCS_MSG_STAT_QUERY | LDCS_MSG_LSTAT_QUERY => true | _ => false end in
  let lstat := match t with LDCS_MSG_LSTAT_QUERY => true | _ => false end in
  let loader := match t with LDCS_MSG_LOADER_DATA_REQ => true | _ => false end in
  let dso := match t with LDCS_MSG_DSO_QUERY | LDCS_MSG_DSO_QUERY_EXACT_PATH => true | _ => false end in
  g <-- gets (λ s, names (st s));;
  globalname <-- lift_option (lookup_global_name (cachepath cfg) (normalized_tmpdir cfg) g pathname);;
  let pathname := default pathname globalname in
  replace_client nc (λ c, open_query pathname (existance_query c) stat lstat loader dso c);;;
  handle_client_progress PROGRESS_FUEL nc.

(** [snprintf (client->query_globalpath, MAX_PATH_LEN, ...)] keeps one byte less. *)
Definition handle_client_fileexist_msg (nc : nat) (pathname : bytes) : M Z :=
  replace_client nc (λ c,
    c1 ← open_query pathname true (is_stat c) (is_lstat c) (is_loader c) (is_dso c) c;
    Some (mk_client (connid c1) (state c1) (remote_pid c1) true true (is_stat c1) (is_lstat c1)
            (is_loader c1) (is_dso c1) (query_filename c1) (query_dirname c1)
            (take (Z.to_nat (MAX_PATH_LEN - 1)) (query_globalpath c1)) None (query_aliasfrom c1)));;;
  handle_client_progress PROGRESS_FUEL nc.

Definition PERIOD : ascii := "."%char.

Definition handle_client_origpath_msg (nc : nat) (origpath : bytes) : M Z :=
  c <-- get_client nc;;
  let relative := match origpath with a :: _ => negb (Ascii.eqb a SLASH) && negb (Ascii.eqb a PERIOD) | [] => true end in
  let lookuppath :=
    if relative then take (Z.to_nat (MAX_PATH_LEN - 1)) (cachepath cfg ++ [SLASH] ++ origpath)
    else take (Z.to_nat MAX_PATH_LEN) origpath in
  g <-- gets (λ s, names (st s));;
  newpath <-- lift_option (lookup_global_name (cachepath cfg) (normalized_tmpdir cfg) g lookuppath);;
  answer nc c (message LDCS_MSG_ORIGPATH_ANSWER (default origpath newpath ++ [NUL]));;;
  handle_close_client_query nc;;; ret 0.

(** ** Requests of other servers *)

Definition handle_request_directory (from : node_peer_t) (pathname : bytes) : M Z :=
  c <-- gets (λ s, cache (st s));;
  match handle_howto_directory c pathname with
  | READ_DIRECTORY =>
      add_file_request pathname from;;; handle_read_and_broadcast_dir pathname
  | REQ_DIRECTORY =>
      res <-- handle_send_query pathname true false;;
      add_file_request pathname from;;; ret res
  | NO_FILE | FOUND_FILE =>
      add_file_request pathname from;;; handle_broadcast_dir pathname request_broadcast
  | _ => abort
  end.

(** [request_broadcast], which is 1, is passed where a flag is expected. *)
Definition handle_create_selfload_file (filename : bytes) : M Z :=
  handle_send_msg_to_keys (message LDCS_MSG_SELFLOAD_FILE (filename ++ [NUL])) filename true false.

Fixpoint handle_request_file (fuel : nat) (from : node_peer_t) (dso : bool) (pathname : bytes) : M Z :=
  match fuel with
  | O => abort
  | S fuel' =>
      let '(filename, dirname) := parseFilenameNoAlloc pathname MAX_PATH_LEN in
      c <-- gets (λ s, cache (st s));;
      let h := handle_howto_file c pathname filename dirname dso in
      let dso1 := h_dso h in
      match h_result h with
      | FOUND_FILE =>
          match ldcs_cache_get_buffer c dirname filename
                  (if dso1 then LDCS_CACHE_FILEOBJ_DSO else LDCS_CACHE_FILEOBJ_FILE) with
          | None => ret (-1)
          | Some (buffer, size) =>
              add_request dso1 pathname from;;;
              handle_broadcast_file pathname buffer size dso1 request_broadcast
          end
      | FOUND_ERRCODE =>
          add_request dso1 pathname from;;; handle_broadcast_errorcode pathname (h_errcode h)
      | NO_FILE | NO_DIR | ORIG_FILE => handle_create_selfload_file pathname
      | READ_DIRECTORY =>
          result <-- handle_read_and_broadcast_dir dirname;;
          if result =? -1 then ret (-1) else handle_request_file fuel' from dso1 pathname
      | READ_FILE =>
          add_request dso1 pathname from;;;
          handle_read_and_broadcast_file pathname dso1 request_broadcast
      | REQ_DIRECTORY =>
          dir_result <-- handle_send_query dirname true false;;
          add_file_request dirname from;;;
          result <-- handle_send_query pathname false dso1;;
          add_request dso1 pathname from;;;
          ret (if (result =? -1) || (dir_result =? -1) then -1 else 0)
      | REQ_FILE =>
          result <-- handle_send_query pathname false dso1;;
          add_request dso1 pathname from;;;
          ret (if result =? -1 then -1 else 0)
      | ALIAS_TO =>
          alias_to <-- lift_option (h_alias h);;
          add_request dso1 pathname from;;;
          handle_broadcast_alias pathname alias_to
      end
  end.

Definition handle_request (from : node_peer_t) (data : bytes) : M Z :=
  match data with
  | t :: rest =>
      assert_ (has_nul rest);;;
      let pathname := cstr rest in
      if Ascii.eqb t "D" then handle_request_directory from pathname
      else if Ascii.eqb t "F" || Ascii.eqb t "S" then
        handle_request_file PROGRESS_FUEL from (Ascii.eqb t "S") pathname
      else ret (-1)
  | [] => abort
  end.

(** ** What comes from the parent *)

Definition handle_file_errcode (data : bytes) : M Z :=
  let errcode := rd_i32 data 0 in
  let pathname_len := rd_i32 data 4 in
  let rest := drop 8 data in
  assert_ ((8 <=? length data)%nat && (8 + pathname_len =? Z.of_nat (length data)) && has_nul rest);;;
  let pathname := cstr rest in
  let '(filename, dirname) := parseFilenameNoAlloc pathname MAX_PATH_LEN in
  on_store (λ s, set_cache (snd (ldcs_cache_updateErrcode (cache s) filename dirname errcode)) s);;;
  result <-- handle_broadcast_errorcode pathname errcode;;
  if result =? -1 then ret (-1) else handle_progress.

(** The contents of the file follow the header of the packet. *)
Definition handle_file_recv (data : bytes) (peer : node_peer_t) (bcast : broadcast_t) : M Z :=
  r <-- lift_option (filemngt_decode_packet data);;
  let '(pathname, size, bytes_read, is_stripped) := r in
  r1 <-- handle_setup_file_buffer pathname size is_stripped;;
  let '(buffer, localname, already_loaded) := r1 in
  match buffer with
  | None =>
      bundle <-- gets handling_bundle;;
      (if bundle : bool then send (Trash peer size) else ret tt);;;
      ret (if already_loaded : bool then 0 else -1)
  | Some buffer =>
      let contents := take (Z.to_nat size) (drop bytes_read data) in
      assert_ (Z.of_nat (length contents) =? size);;;
      write_file localname contents;;;
      r2 <-- handle_finish_buffer_setup (Some localname) pathname buffer size size 0 is_stripped;;
      let '(result, buffer1) := r2 in
      if result =? -1 then ret (-1)
      else
        result1 <-- handle_broadcast_file pathname buffer1 size is_stripped bcast;;
        result2 <-- handle_progress;;
        ret (if (result1 =? -1) || (result2 =? -1) then -1 else 0)
  end.

Definition handle_directory_recv (data : bytes) (bcast : broadcast_t) : M Z :=
  c <-- gets (λ s, cache (st s));;
  r <-- lift_option (ldcs_cache_decodeDirContents c data);;
  let '(c1, dirname) := r in
  on_store (set_cache c1);;;
  handle_broadcast_dir dirname bcast;;;
  handle_progress.

Definition handle_alias_recv (data : bytes) : M Z :=
  let alias_from := cstr data in
  let rest := drop (S (length alias_from)) data in
  assert_ (has_nul data && has_nul rest);;;
  let alias_to := cstr rest in
  let '(filename, dirname) := parseFilenameNoAlloc alias_from MAX_PATH_LEN in
  on_store (λ s, set_cache (snd (ldcs_cache_updateAlias (cache s) filename dirname alias_to)) s);;;
  result <-- handle_broadcast_alias alias_from alias_to;;
  if result =? -1 then ret (-1) else handle_progress.

(** The clients that wait for [filename] read it, from client [nc] on: result and [found_client]. *)
Fixpoint selfload_from (n : nat) (nc : nat) (filename : bytes) : M (Z * bool) :=
  match n with
  | O => ret (0, false)
  | S n' =>
      c <-- get_client nc;;
      if no_query c || negb (query_open c) || negb (bool_decide (filename = query_globalpath c))
      then selfload_from n' (S nc) filename
      else
        result <-- handle_read_and_broadcast_file filename (is_dso c) suppress_broadcast;;
        rest <-- selfload_from n' (S nc) filename;;
        ret (if (result =? -1) || (fst rest =? -1) then -1 else 0, true)
  end.

Definition handle_recv_selfload_file (data : bytes) : M Z :=
  assert_ (has_nul data);;;
  let filename := cstr data in
  result <-- handle_send_msg_to_keys (message LDCS_MSG_SELFLOAD_FILE data) filename true false;;
  n <-- gets (λ s, length (client_table s));;
  r <-- selfload_from n 0 filename;;
  let '(result1, found_client) := r in
  result2 <-- (if found_client : bool then handle_progress else ret 0);;
  ret (if (result =? -1) || (result1 =? -1) || (result2 =? -1) then -1 else 0).

(** [bytes_left] between the two structure sizes for a [stat]. *)
Definition handle_metadata_recv (data : bytes) (t : metadata_t) : M Z :=
  let file_exists := negb (rd_i32 data 0 =? 0) in
  let pathlen := rd_i32 data 4 in
  let mount_len := rd_i32 data 8 in
  let is_stat := match t with metadata_stat | metadata_lstat => true | _ => false end in
  let pos := (12 + Z.to_nat pathlen + Z.to_nat mount_len)%nat in
  let payload := drop pos data in
  let left := Z.of_nat (length data) - Z.of_nat pos in
  assert_ ((12 <=? length data)%nat && (0 <? pathlen) && (pathlen <=? MAX_PATH_LEN) &&
           (0 <=? mount_len) && (mount_len <=? MAX_PATH_LEN) &&
           (if file_exists then
              if is_stat then (STAT_SIZE <? left) && (left <? EXTENDED_STAT_SIZE) else left =? LDSO_INFO_SIZE
            else left =? 0) &&
           has_nul (take (Z.to_nat pathlen) (drop 12 data)) &&
           ((mount_len =? 0) || (is_stat && file_exists &&
                                 has_nul (take (Z.to_nat mount_len) (drop (12 + Z.to_nat pathlen) data)))));;;
  let pathname := cstr (drop 12 data) in
  let mount := cstr (drop (12 + Z.to_nat pathlen) data) in
  let dev := if mount_len =? 0 then None else mount_to_dev (mounts cfg) mount in
  let payload1 := match dev with Some d => le64 d ++ drop 8 payload | None => payload end in
  r <-- (if is_stat then
           handle_cache_metadata pathname t (if file_exists then Some (stat_of_bytes payload1) else None)
         else handle_cache_ldso pathname (if file_exists then Some payload else None));;
  if fst r =? -1 then ret (-1)
  else
    result <-- handle_broadcast_metadata pathname (if file_exists then Some payload1 else None) t;;
    if result =? -1 then ret (-1) else handle_progress.

(** ** Preloading *)

Definition handle_preload_done : M Z :=
  modify (set_preload_done true);;;
  send (Broadcast (mk_msg LDCS_MSG_PRELOAD_DONE 0 None));;;
  handle_progress.

(** The next name of the list, and the rest; [assert (cur < msg->header.len)]. *)
Definition next_name (data : bytes) : option (bytes * bytes) :=
  if has_nul data then Some (cstr data, drop (S (length (cstr data))) data) else None.

(** Both loops: what to do with each of the next [n] names; the rest of the data. *)
Fixpoint preload_names (n : nat) (data : bytes) (load : bytes → M Z) : M (Z * bytes) :=
  match n with
  | O => ret (0, data)
  | S n' =>
      r <-- lift_option (next_name data);;
      let '(pathname, rest) := r in
      result <-- (if responsible then load pathname else ret 0);;
      r1 <-- preload_names n' rest load;;
      ret (if (result =? -1) || (fst r1 =? -1) then -1 else 0, snd r1)
  end.

Definition preload_dir (pathname : bytes) : M Z :=
  result <-- handle_read_directory pathname;;
  if result =? -1 then ret (-1) else handle_broadcast_dir pathname preload_broadcast.

Definition handle_preload_filelist (data : bytes) : M Z :=
  assert_ (8 <=? length data)%nat;;;
  dirs <-- preload_names (Z.to_nat (rd_i32 data 0)) (drop 8 data) preload_dir;;
  files <-- preload_names (Z.to_nat (rd_i32 data 4)) (snd dirs)
              (λ pathname, handle_read_and_broadcast_file pathname true preload_broadcast);;
  result <-- handle_preload_done;;
  ret (if (fst dirs =? -1) || (fst files =? -1) || (result =? -1) then -1 else 0).

(** ** Dispatch *)

(** [handle_msgbundle]: the messages of a bundle in turn. *)
Fixpoint handle_all (handle : ldcs_message_ids_t → bytes → M Z) (msgs : list (ldcs_message_ids_t * bytes)) : M Z :=
  match msgs with
  | [] => ret 0
  | (t, data) :: msgs' =>
      result <-- handle t data;;
      rest <-- handle_all handle msgs';;
      ret (if (result =? -1) || (rest =? -1) then -1 else 0)
  end.

(** The messages of the other components (crash reports, static TLS, the exit
    protocol, liveness) do not touch the state modelled here; any other message is a
    failing [assert].  [fuel] bounds the
    nesting of bundles, which senders never nest. *)
Fixpoint handle_server_message (fuel : nat) (peer : node_peer_t) (t : ldcs_message_ids_t) (data : bytes) : M Z :=
  match t with
  | LDCS_MSG_CACHE_ENTRIES => handle_directory_recv data request_broadcast
  | LDCS_MSG_FILE_DATA => handle_file_recv data peer request_broadcast
  | LDCS_MSG_FILE_ERRCODE => handle_file_errcode data
  | LDCS_MSG_FILE_REQUEST => handle_request peer data
  | LDCS_MSG_PRELOAD_FILELIST => handle_preload_filelist data
  | LDCS_MSG_PRELOAD_DIR => handle_directory_recv data preload_broadcast
  | LDCS_MSG_PRELOAD_FILE => handle_file_recv data peer preload_broadcast
  | LDCS_MSG_PRELOAD_DONE => handle_preload_done
  | LDCS_MSG_SELFLOAD_FILE => handle_recv_selfload_file data
  | LDCS_MSG_STAT_NET_RESULT => handle_metadata_recv data metadata_stat
  | LDCS_MSG_LSTAT_NET_RESULT => handle_metadata_recv data metadata_lstat
  | LDCS_MSG_STAT_NET_REQUEST => handle_metadata_request_recv data metadata_stat peer
  | LDCS_MSG_LSTAT_NET_REQUEST => handle_metadata_request_recv data metadata_lstat peer
  | LDCS_MSG_LOADER_DATA_NET_RESP => handle_metadata_recv data metadata_loader
  | LDCS_MSG_LOADER_DATA_NET_REQ => handle_metadata_request_recv data metadata_loader peer
  | LDCS_MSG_ALIAS => handle_alias_recv data
  | LDCS_MSG_BUNDLE =>
      match fuel with
      | O => abort
      | S fuel' =>
          modify (set_bundle true);;;
          msgs <-- lift_option (Msgbundle.handle_msgbundle data);;
          result <-- handle_all (handle_server_message fuel' peer) msgs;;
          modify (set_bundle false);;; ret result
      end
  | LDCS_MSG_EXIT | LDCS_MSG_EXIT_READY | LDCS_MSG_EXIT_CANCEL | LDCS_MSG_ALIVE_REQ | LDCS_MSG_ALIVE_RESP
  | LDCS_MSG_CRASH_REPORT | LDCS_MSG_CRASH_RESPONSE | LDCS_MSG_CRASH_LOG | LDCS_MSG_STATICTLS
  | LDCS_MSG_STATICTLS_RESP => ret 0
  | _ => abort
  end.

(** [handle_client_end]; the counting of clients is in [Exit]. *)
Definition handle_client_end (nc : nat) : M Z :=
  c <-- get_client nc;;
  if unreachable c then ret 0
  else
    with_client nc (λ c,
      mk_client (connid c) LDCS_CLIENT_STATUS_FREE (remote_pid c) (query_open c) (existance_query c) (is_stat c)
        (is_lstat c) (is_loader c) (is_dso c) (query_filename c) (query_dirname c) (query_globalpath c)
        (query_localpath c) (query_aliasfrom c));;; ret 0.

(** A new client: the first free entry of the table, or a new one. *)
Fixpoint first_free (l : list client) : option nat :=
  match l with
  | [] => None
  | c :: l' => match state c with LDCS_CLIENT_STATUS_FREE => Some O | _ => S <$> first_free l' end
  end.

Definition connected (id : Z) (c : client) : client :=
  mk_client id LDCS_CLIENT_STATUS_ACTIVE (remote_pid c) false false false false false false
    (query_filename c) (query_dirname c) (query_globalpath c) None (query_aliasfrom c).

(** An entry that has never been used; its memory holds anything. *)
Definition no_client (pid : Z) : client :=
  mk_client 0 LDCS_CLIENT_STATUS_FREE pid false false false false false false [] [] [] None [].

(** A round of [_ldcs_server_CB]. *)
Definition connect_client (id pid : Z) : M unit :=
  modify (λ s,
    set_counter (client_counter s + 1)
      (set_clients match first_free (client_table s) with
                   | Some nc => alter (connected id) nc (client_table s)
                   | None => client_table s ++ [connected id (no_client pid)]
                   end s)).

(** ** Information for clients *)

Definition set_pid (pid : Z) (c : client) : client :=
  mk_client (connid c) (state c) pid (query_open c) (existance_query c) (is_stat c) (is_lstat c) (is_loader c)
    (is_dso c) (query_filename c) (query_dirname c) (query_globalpath c) (query_localpath c) (query_aliasfrom c).

(** The directory and the location of the client are not used; its NUMA node is that of a
    build without libnuma. *)
Definition handle_client_info_msg (nc : nat) (t : ldcs_message_ids_t) (data : bytes) : M Z :=
  match t with
  | LDCS_MSG_PID => mypid <-- lift_option (scan_int (cstr data));; with_client nc (set_pid mypid);;; ret 0
  | _ => ret 0
  end.

Definition handle_pythonprefix_query (nc : nat) : M Z :=
  c <-- get_client nc;;
  if unreachable c then ret 0
  else answer nc c (message LDCS_MSG_PYTHONPREFIX_RESP (pythonprefix cfg ++ [NUL]));;; ret 0.

Definition handle_client_dirlists_req (nc : nat) : M Z :=
  c <-- get_client nc;;
  if unreachable c then ret 0
  else
    let local_len := Z.of_nat (length (localprefix cfg)) + 1 in
    let ee_len := Z.of_nat (length (exec_excludes cfg)) + 1 in
    answer nc c (message LDCS_MSG_DIRLISTS_RESP
      (le32 local_len ++ (localprefix cfg ++ [NUL]) ++ le32 ee_len ++ (exec_excludes cfg ++ [NUL])));;; ret 0.

Definition handle_client_myrankinfo_msg (nc : nat) : M Z :=
  c <-- get_client nc;;
  n <-- gets client_counter;;
  answer nc c (message LDCS_MSG_MYRANKINFO_QUERY_ANSWER
    (le32 (Z.of_nat nc) ++ le32 n ++ le32 (md_rank cfg) ++ le32 (md_size cfg)));;; ret 0.

Definition handle_client_procmaps_msg (nc : nat) (data : bytes) : M Z :=
  c <-- get_client nc;;
  assert_ (length data =? 4)%nat;;;
  let newfile := default [] (os_proc_maps fs (rd_i32 data 0)) in
  answer nc c (message LDCS_MSG_PROCMAPS_RESP (newfile ++ [NUL]));;;
  handle_close_client_query nc;;; ret 0.

Definition handle_client_pickone_resp (nc : nat) (you : bool) : M Z :=
  c <-- get_client nc;;
  answer nc c (message LDCS_MSG_PICKONE_RESP (le32 (if you then 1 else 0)));;;
  handle_close_client_query nc;;; ret 0.

(** The key that is copied into the buffer; [None] when it is not terminated. *)
Definition pickone_key (data : bytes) : option bytes :=
  match data with
  | [] => Some (lit "[NULL]")
  | _ =>
      if has_nul data || (Z.of_nat (length data) =? MAX_PATH_LEN + 1)
      then Some (cstr (take (Z.to_nat MAX_PATH_LEN) data)) else None
  end.

Definition handle_client_pickone_msg (nc : nat) (data : bytes) : M Z :=
  assert_ (Z.of_nat (length data) <=? MAX_PATH_LEN + 1);;;
  key <-- lift_option (pickone_key data);;
  picked <-- gets pickone;;
  if ldcs_cache_pickone_get picked key then handle_client_pickone_resp nc false
  else
    modify (set_pickone (ldcs_cache_pickone_set picked key));;;
    handle_client_pickone_resp nc responsible.

(** Without a common cache path the parsed path is a null pointer. *)
Definition handle_chosen_cachepath_request (nc : nat) : M Z :=
  c <-- get_client nc;;
  if unreachable c then ret 0
  else
    parsed <-- lift_option (parsed_cachepath cfg);;
    answer nc c (message LDCS_MSG_CHOSEN_CACHEPATH (cachepath cfg ++ [NUL] ++ parsed ++ [NUL]));;; ret 0.

(** The messages about crashes are those of [CrashHandler] and leave this state alone; so do
    the requests for static TLS, which are not modelled. *)
Definition handle_client_message (nc : nat) (t : ldcs_message_ids_t) (data : bytes) : M Z :=
  match t with
  | LDCS_MSG_CWD | LDCS_MSG_PID | LDCS_MSG_COMMPATH | LDCS_MSG_CPU => handle_client_info_msg nc t data
  | LDCS_MSG_PYTHONPREFIX_REQ => handle_pythonprefix_query nc
  | LDCS_MSG_MYRANKINFO_QUERY => handle_client_myrankinfo_msg nc
  | LDCS_MSG_DIRLISTS_REQ => handle_client_dirlists_req nc
  | LDCS_MSG_FILE_QUERY | LDCS_MSG_FILE_QUERY_EXACT_PATH | LDCS_MSG_DSO_QUERY
  | LDCS_MSG_DSO_QUERY_EXACT_PATH | LDCS_MSG_STAT_QUERY | LDCS_MSG_LSTAT_QUERY
  | LDCS_MSG_LOADER_DATA_REQ =>
      assert_ (has_nul data);;; handle_client_file_request nc t (cstr data)
  | LDCS_MSG_EXISTS_QUERY => assert_ (has_nul data);;; handle_client_fileexist_msg nc (cstr data)
  | LDCS_MSG_ORIGPATH_QUERY => assert_ (has_nul data);;; handle_client_origpath_msg nc (cstr data)
  | LDCS_MSG_PROCMAPS_REQ => handle_client_procmaps_msg nc data
  | LDCS_MSG_PICKONE_REQ => handle_client_pickone_msg nc data
  | LDCS_MSG_CRASH_EXE | LDCS_MSG_CRASH_COREPATH | LDCS_MSG_CRASH_REPORT => ret 0
  | LDCS_MSG_END => handle_client_end nc
  | LDCS_MSG_CHOSEN_CACHEPATH_REQUEST => handle_chosen_cachepath_request nc
  | LDCS_MSG_CLIENT_STATICTLS => ret 0
  | _ => abort
  end.

End handlers.

End Handlers.
