(* ===== verification/Truth.v ===== *)
(** * What the servers say is true: the invariant

    All servers see the same file system (Spindle serves files of shared file
    systems).  A server knows a part of it: its cache lists directories, and its
    local files hold contents.  This file states what it means that the cache,
    the messages to other servers and the answers to clients are true of the file
    system, and proves that the operations on the store keep the cache true.  The
    handlers follow in [TruthHandlers], the tree of servers in [Network]. *)

From Stdlib Require Import Ascii String ZArith Lia.
From stdpp Require Import strings numbers gmap list.
From S2P Require Import Prelude Bytes Requestors Message Msgbundle Cache GlobalName Pathfn Parseloc ElfRead Mounts Server Handlers.
Import Cache GlobalName Pathfn Parseloc ElfRead Mounts Server Handlers.

Open Scope handler_scope.

Module Truth.

(** ** Paths *)

Abbreviation parse p := (parseFilenameNoAlloc p MAX_PATH_LEN).
Abbreviation file_part p := (fst (parse p)).
Abbreviation dir_part p := (snd (parse p)).

(** An absolute path of a file, in the form in which servers use it: directory and
    file name make up the path again. *)
Record path_ok (p : bytes) : Prop := mk_path_ok {
  path_file : file_part p ≠ [];
  path_parts : global_path (dir_part p) (file_part p) = p;
  path_nul : no_nul p = true;
  path_len : Z.of_nat (length p) + 2 <= MAX_PATH_LEN;
}.

Record dir_ok (d : bytes) : Prop := mk_dir_ok {
  dir_nul : no_nul d = true;
  dir_len : Z.of_nat (length d) + 2 <= MAX_PATH_LEN;
}.

(** ** Kinds of local names *)

Definition named_as (t : calc_local_t) (l : bytes) : Prop :=
  ∃ x n f, l = x ++ SLASH :: (print_hex n ++ DASH :: (prefix_of t ++ DASH :: f)) ∧ SLASH ∉ f.

(** The local files that hold contents. *)
Definition content_name (l : bytes) : Prop :=
  (named_as clt_file l ∨ named_as clt_dso l) ∧ Z.of_nat (length l) < MAX_PATH_LEN ∧ no_nul l = true.

(** ** The file system *)

Section truth.
Variable fs : os.

Definition visible_in (d f : bytes) : Prop :=
  f ∈ List.map fst (List.filter visible (default [] (os_readdir fs d))).

(** The file can be found: [readdir] shows it, or [stat] finds it. *)
Definition known_file (d f : bytes) : Prop :=
  visible_in d f ∨ ∃ n, os_size fs (global_path d f) = inl n.

(** What reading the file gives, stripped or not. *)
Definition image (strip : bool) (p : bytes) : option bytes :=
  match os_size fs p, os_open fs p with
  | inl size, inl contents =>
      match read_file_and_strip contents (new_mapping size) size strip false with
      | Some (b, Some (n, _)) => Some (take (Z.to_nat n) (take (Z.to_nat size) b))
      | _ => None
      end
  | _, _ => None
  end.

(** Reading the file gives the error [e]. *)
Definition error_of (p : bytes) (e : Z) : Prop :=
  os_size fs p = inr e ∨ (∃ n, os_size fs p = inl n) ∧ os_open fs p = inr e.

(** What is assumed of the operating system: [realpath] gives a path in normal
    form, and no link leads to the root directory; error numbers are positive;
    sizes are those of files; a directory that exists lists [.] and [..], and
    names are names; the files can be read while they are served, and stripping
    leaves something of them; a local file that has been written is mapped again
    where it was, which is what [MAP_FIXED] asks for. *)
Record fs_ok : Prop := mk_fs_ok {
  fs_realpath p q : os_realpath fs p = Some q → path_ok q;
  fs_errno p e : os_size fs p = inr e ∨ os_open fs p = inr e → 0 < e < 2 ^ 31;
  fs_size p n : os_size fs p = inl n → 0 <= n < 2 ^ 62;
  fs_dirs d l : os_readdir fs d = Some l → List.filter visible l ≠ [];
  fs_names d : names_ok (List.map fst (default [] (os_readdir fs d)));
  fs_read p n c strip : os_size fs p = inl n → os_open fs p = inl c →
    ∃ b n' elf, read_file_and_strip c (new_mapping n) n strip false = Some (b, Some (n', elf)) ∧
      0 <= n' <= n ∧ (n' = 0 → n = 0);
  fs_sync l : os_sync fs l = SyncSame;
}.

(** ** The cache is true *)

Section store.
Variable dk : gmap bytes bytes.
Variable mp : gmap Z bytes.

Definition contents_ok (strip : bool) (p : bytes) (k : cached_contents_t) : Prop :=
  path k ≠ [] → content_name (path k) ∧
    ∃ c, dk !! path k = Some c ∧ image strip p = Some c ∧ buffer_size k = Z.of_nat (length c) ∧
      (c = [] ∨ mp !! buffer k = Some (path k)).

Record entry_ok (d f : bytes) (e : entry_t) : Prop := mk_entry_ok {
  entry_file : contents_ok false (global_path d f) (file_contents e);
  entry_dso : contents_ok true (global_path d f) (dso_contents e);
  entry_error : errcode e ≠ 0 → error_of (global_path d f) (errcode e);
  entry_alias : alias e ≠ [] →
    os_realpath fs (global_path d f) = Some (alias e) ∧ alias e ≠ global_path d f;
  entry_known : known_file d f;
}.

Record dir_true (d : bytes) (e : entry_t) : Prop := mk_dir_true {
  dir_names : names_ok (direntries e);
  dir_complete f : visible_in d f → f ∈ direntries e;
  dir_missing : errcode e = -1 → os_readdir fs d = None;
  dir_empty : direntries e = [] → os_readdir fs d = None;
}.

Record cache_ok (c : cache_t) : Prop := mk_cache_ok {
  cache_shape : cache_wf c;
  cache_entries d f e : c !! (d, f) = Some e → f ≠ [] → entry_ok d f e;
  cache_dirs d e : c !! (d, []) = Some e → dir_true d e;
}.
End store.

Record store_ok (s : store) : Prop := mk_store_ok {
  store_cache : cache_ok (disk s) (maps s) (cache s);
  store_next : EMPTY_FILE_PTR < next_buffer s;
  store_maps a l : maps s !! a = Some l → EMPTY_FILE_PTR < a < next_buffer s;
}.

(** ** Messages and answers are true *)

Definition dir_packet (d : bytes) (l : list bytes) : bytes :=
  le32 (Z.of_nat (length d) + 1) ++ d ++ [NUL] ++ concat (encode_name <$> l).

Definition dir_message_true (data : bytes) : Prop :=
  ∃ d l, data = dir_packet d l ∧ dir_ok d ∧ names_ok l ∧ Forall (known_file d) l ∧
    (∀ f, visible_in d f → f ∈ l) ∧ (l = [] → os_readdir fs d = None).

Definition file_message_true (data : bytes) : Prop :=
  ∃ p strip c, data = filemngt_encode_packet p c strip ∧ path_ok p ∧ image strip p = Some c.

Definition errcode_message_true (data : bytes) : Prop :=
  ∃ p e, data = le32 e ++ le32 (Z.of_nat (length p) + 1) ++ p ++ [NUL] ∧ path_ok p ∧
    (e = 0 ∨ error_of p e).

Definition alias_message_true (data : bytes) : Prop :=
  ∃ p q, data = p ++ [NUL] ++ q ++ [NUL] ∧ path_ok p ∧ path_ok q ∧ os_realpath fs p = Some q ∧ q ≠ p.

Definition request_true (data : bytes) : Prop :=
  (∃ d, data = "D"%char :: d ++ [NUL] ∧ dir_ok d) ∨
  (∃ p t, data = t :: p ++ [NUL] ∧ (t = "F"%char ∨ t = "S"%char) ∧ path_ok p).

(** The list of what to load before the start. *)
Definition preload_true (data : bytes) : Prop :=
  ∃ dirs files, data = le32 (Z.of_nat (length dirs)) ++ le32 (Z.of_nat (length files)) ++
      concat ((λ p, p ++ [NUL]) <$> dirs ++ files) ∧
    Forall dir_ok dirs ∧ Forall path_ok files ∧
    Z.of_nat (length dirs) < 2 ^ 31 ∧ Z.of_nat (length files) < 2 ^ 31.

Definition single_message_true (t : ldcs_message_ids_t) (data : bytes) : Prop :=
  match t with
  | LDCS_MSG_CACHE_ENTRIES | LDCS_MSG_PRELOAD_DIR => dir_message_true data
  | LDCS_MSG_FILE_DATA | LDCS_MSG_PRELOAD_FILE => file_message_true data
  | LDCS_MSG_FILE_ERRCODE => errcode_message_true data
  | LDCS_MSG_ALIAS => alias_message_true data
  | LDCS_MSG_FILE_REQUEST => request_true data
  | LDCS_MSG_SELFLOAD_FILE => ∃ p, data = p ++ [NUL] ∧ path_ok p
  | LDCS_MSG_PRELOAD_FILELIST => preload_true data
  | LDCS_MSG_BUNDLE => False
  | _ => True
  end.

(** A bundle is true when its messages are; bundles are not nested. *)
Definition message_true (t : ldcs_message_ids_t) (data : bytes) : Prop :=
  match t with
  | LDCS_MSG_BUNDLE =>
      ∀ msgs, Msgbundle.handle_msgbundle data = Some msgs → Forall (λ m, single_message_true m.1 m.2) msgs
  | _ => single_message_true t data
  end.

Variable cfg : config.

(** The path is below the directory of the local files. *)
Definition in_cache_dir (p : bytes) : Prop :=
  ldcs_is_a_cachedfile (cachepath cfg) (normalized_tmpdir cfg) p ≠ None.

(** The answer to the query [q] for the file [p]: a local file with what reading [p]
    gives, stripped at most when a DSO was asked for; [p] itself; or the error that
    using [p] gives. *)
Definition answer_true (dk : gmap bytes bytes) (q : client) (data : bytes) : Prop :=
  let p := query_globalpath q in
  (∃ l strip c, data = le32 0 ++ l ++ [NUL] ∧ content_name l ∧ dk !! l = Some c ∧ image strip p = Some c ∧
     (strip = true → is_dso q = true)) ∨
  data = le32 0 ++ p ++ [NUL] ∨
  (data = le32 ENOENT ∧ ¬ visible_in (dir_part p) (file_part p)) ∨
  (data = le32 SPINDLE_ENODIR ∧ os_readdir fs (dir_part p) = None) ∨
  (∃ e, data = le32 e ∧ (error_of p e ∨ in_cache_dir p ∧ e = 0)).

Definition exists_true (p data : bytes) : Prop :=
  (data = le32 1 ∧ (known_file (dir_part p) (file_part p) ∨ in_cache_dir p)) ∨
  (data = le32 0 ∧ ¬ visible_in (dir_part p) (file_part p)).

Definition output_true (dk : gmap bytes bytes) (o : output) : Prop :=
  match o with
  | ToClient _ q m =>
      match msg_type m with
      | LDCS_MSG_FILE_QUERY_ANSWER => answer_true dk q (default [] (msg_data m))
      | LDCS_MSG_EXISTS_ANSWER => exists_true (query_globalpath q) (default [] (msg_data m))
      | _ => True
      end
  | ToPeer _ m | Broadcast m | ToParent m => single_message_true (msg_type m) (default [] (msg_data m))
  | Trash _ _ => True
  end.

(** ** The state of a server is true *)

Definition client_ok (c : client) : Prop :=
  query_open c = true → path_ok (query_globalpath c) ∧ parse (query_globalpath c) = (query_filename c, query_dirname c).

Record server_ok {RT} (s : server RT) : Prop := mk_server_ok {
  ok_store : store_ok (st s);
  ok_out : Forall (output_true (disk (st s))) (out s);
  ok_clients : Forall client_ok (client_table s);
  ok_cachepath : no_nul (cachepath cfg) = true;
}.

(** The contents that have been handed out stay. *)
Definition disk_ext (d d' : gmap bytes bytes) : Prop :=
  ∀ l c, content_name l → d !! l = Some c → d' !! l = Some c.

(** ** Facts about paths and names *)

Lemma path_split p : path_ok p →
  p = dir_part p ++ (if ends_with_slash (dir_part p) then [] else [SLASH]) ++ file_part p.
Proof.
  intros Hp. pose proof (path_parts _ Hp) as E. pose proof (path_len _ Hp) as Hl.
  unfold global_path in E. rewrite take_ge in E; [done|].
  rewrite <- E in Hl. rewrite length_take in Hl. unfold MAX_PATH_LEN in *. lia.
Qed.

Lemma path_dir_ok p : path_ok p → dir_ok (dir_part p).
Proof.
  intros Hp. pose proof (path_split _ Hp) as E. pose proof (path_nul _ Hp) as Hn.
  pose proof (path_len _ Hp) as Hl. rewrite E in Hn, Hl. rewrite no_nul_app in Hn. bool_to_prop.
  rewrite length_app in Hl. split; [done|lia].
Qed.

Lemma path_file_ok p : path_ok p →
  no_nul (file_part p) = true ∧ Z.of_nat (length (file_part p)) <= MAX_PATH_LEN.
Proof.
  intros Hp. pose proof (path_split _ Hp) as E. pose proof (path_nul _ Hp) as Hn.
  pose proof (path_len _ Hp) as Hl. rewrite E in Hn, Hl. rewrite !no_nul_app in Hn. bool_to_prop.
  rewrite !length_app in Hl. split; [done|lia].
Qed.

(** The kind of a name can be read off it. *)
Lemma named_as_prefix t t' l :
  named_as t l → named_as t' l → ∃ f f', prefix_of t ++ DASH :: f = prefix_of t' ++ DASH :: f'.
Proof.
  intros (x & n & f & E & Hf) (x' & n' & f' & E' & Hf'). exists f, f'. rewrite E in E'.
  assert (∀ m t0 g, SLASH ∉ g → SLASH ∉ print_hex m ++ DASH :: (prefix_of t0 ++ DASH :: g)) as Hno.
  { intros m t0 g Hg. rewrite not_elem_of_app, not_elem_of_cons, not_elem_of_app, not_elem_of_cons.
    split_and!; [apply hex_no; [apply print_hex_hex|by right]|done|apply prefix_facts|done|done]. }
  pose proof (strrchr_last x SLASH _ (Hno n t f Hf)) as S1.
  pose proof (strrchr_last x' SLASH _ (Hno n' t' f' Hf')) as S2.
  rewrite E', S2 in S1. injection S1 as _ E1.
  pose proof (strchr_first (print_hex n) DASH (prefix_of t ++ DASH :: f)) as C1.
  pose proof (strchr_first (print_hex n') DASH (prefix_of t' ++ DASH :: f')) as C2.
  rewrite E1 in C2. rewrite C1 in C2 by (apply hex_no; [apply print_hex_hex|by left]).
  specialize (C2 ltac:(apply hex_no; [apply print_hex_hex|by left])). by injection C2.
Qed.

Lemma content_name_kind t l : content_name l → named_as t l → t = clt_file ∨ t = clt_dso.
Proof.
  intros [[H | H] _] Ht; destruct (named_as_prefix _ _ _ H Ht) as (f & f' & E);
    destruct t; auto; discriminate E.
Qed.

Lemma split_global_no_slash g d f : split_global g = Some (d, f) → SLASH ∉ f.
Proof.
  unfold split_global. destruct (strrchr g SLASH) as [[d0 f0]|] eqn:E.
  - destruct (_ || _); [done|]. intros [= <- <-]. by apply strrchr_Some in E as [_ ?].
  - intros [= <- <-] Hin. apply subseteq_take in Hin.
    induction g as [|a g IH]; [set_solver|]. simpl in E.
    destruct (strrchr g SLASH) as [[]|]; [done|]. destruct (Ascii.eqb_spec a SLASH); [done|].
    apply elem_of_cons in Hin as [Heq|Hin]; [congruence|]. by apply IH.
Qed.

(** A name that can be opened is of its kind. *)
Lemma name_file_kind cp nt g p t g' l :
  name_file cp nt g p t = Some (g', l) → Z.of_nat (length l) < MAX_PATH_LEN → named_as t l.
Proof.
  unfold name_file. destruct (filemngt_calc_localname _ _ _ _) as [[g1 l1]|] eqn:E; [|done].
  cbn [mbind option_bind]. destruct (add_global_name _ _ _ _ _) as [g2|]; [|done].
  intros [= _ <-] Hl. unfold filemngt_calc_localname in E.
  destruct (split_global p) as [[d f]|] eqn:Es; [|done]. cbn [mbind option_bind] in E.
  injection E as _ <-. apply split_global_no_slash in Es.
  assert (∀ s, Z.of_nat (length (clip s)) < MAX_PATH_LEN → clip s = s) as Hclip.
  { intros s Hs. unfold clip in *. rewrite length_take in Hs. apply take_ge. unfold MAX_PATH_LEN in *. lia. }
  rewrite Hclip in Hl |- * by done.
  set (fp := print_hex _ ++ _) in *.
  assert (clip fp = fp) as Ef.
  { apply Hclip. rewrite !length_app in Hl. cbn [length] in Hl. lia. }
  rewrite Ef. exists (cp ++ endslash cp ++ cut_slash d), (unique_str_num g), f.
  unfold fp. split; [by rewrite <- !app_assoc|done].
Qed.

Lemma print_hex_no_nul n : no_nul (print_hex n) = true.
Proof.
  unfold no_nul. apply forallb_forall. intros a Ha. pose proof (print_hex_hex n) as H.
  rewrite Forall_forall in H. specialize (H a (proj2 (list_elem_of_In _ _) Ha)).
  destruct (is_nul a) eqn:E; [|done]. apply is_nul_true in E. subst a. by destruct H.
Qed.

(** The name of a local file is a string. *)
Lemma name_file_no_nul cp nt g p t g' l :
  name_file cp nt g p t = Some (g', l) → no_nul cp = true → no_nul p = true → no_nul l = true.
Proof.
  unfold name_file. destruct (filemngt_calc_localname _ _ _ _) as [[g1 l1]|] eqn:E; [|done].
  cbn [mbind option_bind]. destruct (add_global_name _ _ _ _ _) as [g2|]; [|done].
  intros [= _ <-] Hcp Hp. unfold filemngt_calc_localname in E.
  destruct (split_global p) as [[d f]|] eqn:Es; [|done]. cbn [mbind option_bind] in E. injection E as _ <-.
  assert (∀ n s, no_nul s = true → no_nul (take n s) = true) as Htake.
  { intros n s Hs. rewrite <- (take_drop n s), no_nul_app in Hs. by bool_to_prop. }
  assert (no_nul d = true ∧ no_nul f = true) as [Hd Hf].
  { unfold split_global in Es. destruct (strrchr p SLASH) as [[d0 f0]|] eqn:Er.
    - destruct (_ || _); [done|]. injection Es as <- <-. apply strrchr_Some in Er as [-> _].
      rewrite no_nul_app in Hp. cbn in Hp. by bool_to_prop.
    - injection Es as <- <-. split; [done|]. by apply Htake. }
  assert (no_nul (endslash cp) = true ∧ no_nul (cut_slash d) = true ∧ no_nul (prefix_of t) = true) as (He & Hc & Ht).
  { split; [|split].
    - unfold endslash. by repeat case_match.
    - unfold cut_slash. destruct d as [|a d]; [done|]. destruct (Ascii.eqb a SLASH); [|done]. cbn in Hd. by bool_to_prop.
    - by destruct t. }
  assert (∀ a s, no_nul (a :: s) = negb (is_nul a) && no_nul s) as Hcons by done.
  unfold clip. apply Htake. repeat (rewrite no_nul_app || rewrite Hcons). rewrite Hcp, He, Hc. cbn [andb].
  rewrite Htake; [done|]. repeat (rewrite no_nul_app || rewrite Hcons). by rewrite print_hex_no_nul, Ht, Hf.
Qed.

(** ** The operations on the cache keep it true *)

Lemma new_entry_ok dk mp d f : known_file d f → entry_ok dk mp d f new_entry.
Proof. intros Hk. constructor; try done. Qed.

Lemma contents_ok_mono dk mp dk' mp' strip p k :
  disk_ext dk dk' → (∀ a l c, content_name l → dk !! l = Some c → mp !! a = Some l → mp' !! a = Some l) →
  contents_ok dk mp strip p k → contents_ok dk' mp' strip p k.
Proof.
  intros Hd Hm H Hp. destruct (H Hp) as (Hc & c & H1 & H2 & H3 & H4). split; [done|].
  exists c. split_and!; eauto. destruct H4 as [-> | H4]; [by left|right]. by eapply Hm.
Qed.

Lemma entry_ok_mono dk mp dk' mp' d f e :
  disk_ext dk dk' → (∀ a l c, content_name l → dk !! l = Some c → mp !! a = Some l → mp' !! a = Some l) →
  entry_ok dk mp d f e → entry_ok dk' mp' d f e.
Proof. intros Hd Hm []. constructor; eauto using contents_ok_mono. Qed.

Lemma cache_ok_mono dk mp dk' mp' c :
  disk_ext dk dk' → (∀ a l c, content_name l → dk !! l = Some c → mp !! a = Some l → mp' !! a = Some l) →
  cache_ok dk mp c → cache_ok dk' mp' c.
Proof. intros Hd Hm [Hw He Hds]. constructor; eauto using entry_ok_mono. Qed.

(** Every entry after [addFile] is an old one, a new one, or the directory's. *)
Lemma addFile_lookup c d f c' k e :
  addFile c d f = Some c' → c' !! k = Some e →
  c !! k = Some e ∨ (k = (d, f) ∧ e = new_entry) ∨
  (k = (d, []) ∧ ∃ e0, c !! k = Some e0 ∧ e = push_direntry f e0) ∨ (f = [] ∧ k = (d, [])).
Proof.
  unfold addFile. destruct (c !! (d, f)) as [e1|] eqn:E1; [intros [= <-]; by left|].
  destruct (decide (f = [])) as [-> | Hf].
  { rewrite lookup_insert_eq. intros [= <-]. destruct (decide (k = (d, []))) as [-> | Hk]; [by auto|].
    rewrite !lookup_insert_ne by done. by left. }
  rewrite lookup_insert_ne by congruence. destruct (c !! (d, [])) as [de|] eqn:E2; [|done].
  intros [= <-]. destruct (decide (k = (d, []))) as [-> | Hk].
  - rewrite lookup_insert_eq. intros [= <-]. right; right; left. eauto.
  - rewrite lookup_insert_ne by done. destruct (decide (k = (d, f))) as [-> | Hk2].
    + rewrite lookup_insert_eq. intros [= <-]. auto.
    + rewrite lookup_insert_ne by done. by left.
Qed.

(** Entries of files stay true when known files are added. *)
Definition entries_ok (dk : gmap bytes bytes) (mp : gmap Z bytes) (c : cache_t) : Prop :=
  ∀ d f e, c !! (d, f) = Some e → f ≠ [] → entry_ok dk mp d f e.

Lemma addFile_entries dk mp c d f c' :
  entries_ok dk mp c → f ≠ [] → known_file d f → addFile c d f = Some c' → entries_ok dk mp c'.
Proof.
  intros H Hf Hk E d0 f0 e0 H0 Hf0.
  destruct (addFile_lookup _ _ _ _ _ _ E H0) as [H1 | [[[= -> ->] ->] | [[[= -> ->] _] | [? _]]]];
    [by eapply H|by apply new_entry_ok|done|done].
Qed.

Lemma addFiles_entries dk mp c d names c' :
  entries_ok dk mp c → Forall (λ f, f ≠ []) names → Forall (known_file d) names →
  addFiles c d names = Some c' → entries_ok dk mp c'.
Proof.
  revert c. induction names as [|f names IH]; intros c H Hn Hk; cbn [addFiles]; [by intros [= <-]|].
  apply Forall_cons in Hn as [Hf Hn]. apply Forall_cons in Hk as [Hkf Hk].
  destruct (addFile c d f) as [c1|] eqn:E; [|done]. cbn [mbind option_bind].
  apply IH; [|done|done]. by eapply addFile_entries.
Qed.

Lemma addDirectory_entries dk mp c d b : entries_ok dk mp c → entries_ok dk mp (addDirectory c d b).
Proof.
  intros H d0 f e E Hf. eapply H; [|done]. rewrite <- E. symmetry. apply addDirectory_other. congruence.
Qed.

(** The entry of a directory that is in the cache keeps its error code. *)
Lemma findDir_errcode c c' d e e' :
  c !! (d, []) = Some e → c' !! (d, []) = Some e' →
  ldcs_cache_findDirInCache c' d = ldcs_cache_findDirInCache c d → errcode e' = -1 → errcode e = -1.
Proof.
  intros E E'. unfold ldcs_cache_findDirInCache. rewrite E, E'.
  destruct (errcode e' =? -1) eqn:B'; destruct (errcode e =? -1) eqn:B; bool_to_prop; done.
Qed.

(** Adding known names to a directory whose missing names are among them. *)
Lemma addFiles_ok dk mp c d names c' :
  cache_wf c → entries_ok dk mp c → (∀ d' e, d' ≠ d → c !! (d', []) = Some e → dir_true d' e) →
  dir_known c d → names_ok (files_of c d) → names_ok names → Forall (known_file d) names →
  (∀ f, visible_in d f → f ∈ files_of c d ∨ f ∈ names) →
  (∀ e, c !! (d, []) = Some e → errcode e = -1 → os_readdir fs d = None) →
  (files_of c d = [] → names = [] → os_readdir fs d = None) →
  addFiles c d names = Some c' → cache_ok dk mp c'.
Proof.
  intros Hw He Hd Hk Hfs Hn Hkn Hvis Hmiss Hemp E.
  destruct (addFiles_spec c d names Hw Hk (names_ok_ne _ Hn))
    as (c2 & E2 & Hw2 & Hk2 & Hin & _ & Ho & Hdir). rewrite E in E2. injection E2 as <-.
  split; [done|exact (addFiles_entries _ _ _ _ _ _ He (names_ok_ne _ Hn) Hkn E)|].
  intros d' e' E'. destruct (decide (d' = d)) as [-> | Hne].
  - destruct Hk as [e0 E0].
    assert (direntries e' = files_of c' d) as Ed by (unfold files_of; by rewrite E').
    rewrite <- Ed in Hin. split.
    + unfold names_ok in *. rewrite Forall_forall in *. intros f Hf.
      apply Hin in Hf as [Hf | Hf]; [by apply Hfs|by apply Hn].
    + intros f Hf. apply Hin. by apply Hvis.
    + intros Hm. apply (Hmiss e0 E0). by eapply findDir_errcode.
    + intros Hnil. rewrite Hnil in Hin. apply Hemp.
      * destruct (files_of c d) as [|f l]; [done|]. exfalso.
        apply (not_elem_of_nil f). apply Hin. left. left.
      * destruct names as [|f l]; [done|]. exfalso.
        apply (not_elem_of_nil f). apply Hin. right. left.
  - destruct (decide (is_Some (c !! (d', [])))) as [Hs | Hs].
    + rewrite Ho in E' by (done || congruence || by left). by eapply Hd.
    + rewrite Ho in E' by (congruence || by right). exfalso. apply Hs. eauto.
Qed.

(** A directory that is added, or known already, and names for it. *)
Lemma directory_ok dk mp c d b names c' :
  cache_ok dk mp c → names_ok names → Forall (known_file d) names →
  (∀ f, visible_in d f → f ∈ names) → (b = false → os_readdir fs d = None) →
  (names = [] → os_readdir fs d = None) →
  addFiles (addDirectory c d b) d names = Some c' → cache_ok dk mp c'.
Proof.
  intros [Hw He Hd] Hn Hkn Hvis Hb Hemp E.
  pose proof (addDirectory_other c d b) as Ho.
  eapply (addFiles_ok dk mp (addDirectory c d b) d names);
    eauto using addDirectory_wf, addDirectory_entries, addDirectory_known.
  - intros d' e Hne H. rewrite Ho in H by congruence. by eapply Hd.
  - unfold files_of, addDirectory. destruct (c !! (d, [])) as [e|] eqn:Ee.
    + rewrite Ee. exact (dir_names _ _ (Hd _ _ Ee)).
    + rewrite lookup_insert_eq. destruct b; constructor.
  - intros e. unfold addDirectory. destruct (c !! (d, [])) as [e1|] eqn:Ee.
    + rewrite Ee. intros [= <-]. exact (dir_missing _ _ (Hd _ _ Ee)).
    + rewrite lookup_insert_eq. intros [= <-]. destruct b; [done|]. by intros _; apply Hb.
Qed.

Lemma visible_known d f : visible_in d f → known_file d f.
Proof. by left. Qed.

Lemma visible_names_ok d : fs_ok → names_ok (List.map fst (List.filter visible (default [] (os_readdir fs d)))).
Proof.
  intros Hfs. pose proof (fs_names Hfs d) as H. unfold names_ok in *. rewrite Forall_forall in *.
  intros f Hf. apply H. rewrite list_elem_of_In, in_map_iff in *. destruct Hf as (x & <- & Hx).
  apply filter_In in Hx as [Hx _]. eauto.
Qed.

Lemma process_ok dk mp c d r c' :
  fs_ok → cache_ok dk mp c → c !! (d, []) = None →
  ldcs_cache_processDirectory c d (os_readdir fs d) = Some (r, c') → cache_ok dk mp c'.
Proof.
  intros Hfs Hc Hnone. unfold ldcs_cache_processDirectory. rewrite Hnone.
  pose proof (visible_names_ok d Hfs) as Hn. pose proof (fs_dirs Hfs d) as Hdirs.
  assert (Forall (known_file d) (List.map fst (List.filter visible (default [] (os_readdir fs d))))) as Hk.
  { apply Forall_forall. intros f. apply visible_known. }
  assert (∀ f, visible_in d f → f ∈ List.map fst (List.filter visible (default [] (os_readdir fs d)))) as Hv
    by done.
  unfold lsAndCacheFiles. destruct (os_readdir fs d) as [l|] eqn:El; cbn [default] in *.
  - destruct (addFiles _ _ _) as [c1|] eqn:E; [|done]. cbn [mbind option_bind]. intros [= _ <-].
    eapply (directory_ok dk mp c d true); [done|done|done|done|done| |exact E].
    intros Hnil. exfalso. apply (Hdirs l); [done|]. by eapply map_eq_nil.
  - cbn [mbind option_bind]. intros [= _ <-].
    by eapply (directory_ok dk mp c d false []).
Qed.

Lemma decode_ok dk mp c data c' d :
  cache_ok dk mp c → dir_message_true data → ldcs_cache_decodeDirContents c data = Some (c', d) →
  cache_ok dk mp c' ∧ dir_ok d ∧ dir_known c' d.
Proof.
  intros Hc (d0 & l & -> & Hd & Hn & Hk & Hv & Hemp) E. unfold dir_packet in E.
  pose proof (dir_len _ Hd). rewrite decode_encoded in E; [|apply Hd|lia|done].
  destruct (addFiles _ _ _) as [c2|] eqn:E2; [|done]. cbn [mbind option_bind] in E. injection E as <- <-.
  split; [|split; [done|]].
  - eapply (directory_ok dk mp c d0); eauto. intros Hb. apply Hemp.
    apply negb_false_iff, bool_decide_eq_true in Hb. done.
  - set (b := negb _) in E2.
    destruct (addFiles_spec _ d0 l (addDirectory_wf c d0 b (cache_shape _ _ _ Hc)) (addDirectory_known c d0 b)
      (names_ok_ne _ Hn)) as (c3 & E3 & _ & Hk3 & _). rewrite E2 in E3. by injection E3 as <-.
Qed.

(** A file that [handle_setup_file_buffer] adds to a known directory. *)
Lemma addFileDir_ok dk mp c p c' :
  cache_ok dk mp c → path_ok p → known_file (dir_part p) (file_part p) →
  ldcs_cache_addFileDir c (dir_part p) (file_part p) = Some c' →
  cache_ok dk mp c' ∧ is_Some (c' !! (dir_part p, file_part p)).
Proof.
  intros Hc Hp Hk E. unfold ldcs_cache_addFileDir in E. pose proof (path_file _ Hp) as Hf.
  assert (dir_known c (dir_part p)) as Hdk.
  { unfold addFile in E. destruct (c !! (dir_part p, file_part p)) as [e|] eqn:Ee.
    - destruct (wf_listed c (cache_shape _ _ _ Hc) _ _ _ Ee Hf) as (de & Hde & _). by exists de.
    - rewrite lookup_insert_ne in E by congruence. unfold dir_known.
      destruct (c !! (dir_part p, [])) as [de|]; [by eexists|done]. }
  destruct (addFile_spec c _ _ (cache_shape _ _ _ Hc) Hdk Hf) as (c1 & E1 & Hw1 & _ & Hfs & _).
  rewrite E in E1. injection E1 as <-. split.
  - destruct Hdk as [de Hde]. pose proof (cache_dirs _ _ _ Hc _ _ Hde) as Hdt.
    assert (files_of c (dir_part p) = direntries de) as Ef by (unfold files_of; by rewrite Hde).
    eapply (addFiles_ok dk mp c (dir_part p) [file_part p]);
      [exact (cache_shape _ _ _ Hc)|exact (cache_entries _ _ _ Hc)| |..].
    + intros d' e _ H. by eapply (cache_dirs _ _ _ Hc).
    + by exists de.
    + rewrite Ef. exact (dir_names _ _ Hdt).
    + destruct (path_file_ok _ Hp). by apply Forall_singleton.
    + by apply Forall_singleton.
    + intros f Hv. left. rewrite Ef. by apply (dir_complete _ _ Hdt).
    + intros e. rewrite Hde. intros [= <-]. exact (dir_missing _ _ Hdt).
    + done.
    + cbn [addFiles]. rewrite E. done.
  - unfold addFile in E. destruct (c !! (dir_part p, file_part p)) as [e|] eqn:Ee.
    + injection E as <-. by rewrite Ee.
    + rewrite lookup_insert_ne in E by congruence. destruct (c !! (dir_part p, [])); [|done].
      injection E as <-. rewrite lookup_insert_ne by congruence. by rewrite lookup_insert_eq.
Qed.

(** An update of the entry of a file. *)
Lemma update_ok dk mp c p g :
  cache_ok dk mp c → path_ok p → (∀ e, direntries (g e) = direntries e) →
  (∀ e, entry_ok dk mp (dir_part p) (file_part p) e → entry_ok dk mp (dir_part p) (file_part p) (g e)) →
  cache_ok dk mp (snd (update_entry c (file_part p) (dir_part p) g)).
Proof.
  intros Hc Hp Hde Hg. pose proof (path_file _ Hp) as Hf. split.
  - eapply update_entry_wf; [exact Hde|apply Hc|apply surjective_pairing].
  - intros d f e. unfold update_entry. destruct (c !! (dir_part p, file_part p)) as [e0|] eqn:E0; [|apply Hc].
    cbn [snd]. destruct (decide ((d, f) = (dir_part p, file_part p))) as [Ek | Hk].
    + rewrite Ek, lookup_insert_eq. intros [= <-] _. injection Ek as -> ->. apply Hg. by eapply Hc.
    + rewrite lookup_insert_ne by done. apply Hc.
  - intros d e. unfold update_entry. destruct (c !! (dir_part p, file_part p)) as [e0|]; [|apply Hc].
    cbn [snd]. rewrite lookup_insert_ne by congruence. apply Hc.
Qed.

Lemma updateAlias_ok dk mp c p q :
  cache_ok dk mp c → path_ok p → os_realpath fs p = Some q → q ≠ p →
  cache_ok dk mp (snd (ldcs_cache_updateAlias c (file_part p) (dir_part p) q)).
Proof.
  intros Hc Hp Hq Hne. apply update_ok; [done|done|done|]. intros e [H1 H2 H3 H4 H5].
  constructor; try done. intros _. cbn. rewrite (path_parts _ Hp). done.
Qed.

Lemma clear_path_ok dk mp strip p k : contents_ok dk mp strip p (clear_path k).
Proof. done. Qed.

Lemma updateErrcode_ok dk mp c p e :
  cache_ok dk mp c → path_ok p → (e = 0 ∨ error_of p e) →
  cache_ok dk mp (snd (ldcs_cache_updateErrcode c (file_part p) (dir_part p) e)).
Proof.
  intros Hc Hp He. apply update_ok; [done|done|intros k; by destruct (e =? 0)|]. intros k [H1 H2 H3 H4 H5].
  destruct (e =? 0) eqn:E0; bool_to_prop.
  - constructor; try done.
  - constructor; try done. cbn. intros _. rewrite (path_parts _ Hp). by destruct He.
Qed.

End truth.
End Truth.
