(* ===== verification/TruthLoad.v ===== *)
(** * What the servers say is true: loading a file

    The longest path through the handlers: a local file is made and mapped, the
    contents are read or received into it, it is synced, and the cache is told.
    In between the cache names a file that is not yet filled; this file shows
    that the whole leaves a true store, and that what is then sent is true. *)

From Stdlib Require Import Ascii String ZArith Lia.
From stdpp Require Import strings numbers gmap list.
From S2P Require Import Prelude Bytes Requestors Message Msgbundle Cache GlobalName Pathfn Parseloc ElfRead Mounts Server Handlers Truth.
Import Cache GlobalName Pathfn Parseloc ElfRead Mounts Server Handlers Truth.

Open Scope handler_scope.

Module TruthLoad.

(** ** Inverting a run *)

Section inversion.
Context {RT : Type}.
Implicit Types s : server RT.

Lemma bind_inv {A B} (m : M RT A) (k : A → M RT B) s r :
  bind m k s = Some r → ∃ x s1, m s = Some (x, s1) ∧ k x s1 = Some r.
Proof. unfold bind. destruct (m s) as [[x s1]|]; [|done]. eauto. Qed.

Lemma lift_option_inv {A} (o : option A) s r :
  lift_option o s = Some r → o = Some (fst r) ∧ snd r = s.
Proof. destruct o; [|done]. intros [= <-]. done. Qed.

Lemma assert_inv b s r : assert_ b s = Some r → b = true ∧ r = (tt, s).
Proof. destruct b; [|done]. by intros [= <-]. Qed.
End inversion.

(** Takes a run apart into the runs of its parts. *)
Ltac minv :=
  repeat match goal with
  | H : bind _ _ _ = Some _ |- _ => apply bind_inv in H as (? & ? & ? & H)
  | H : ret _ _ = Some _ |- _ => unfold ret in H; simplify_eq
  | H : gets _ _ = Some _ |- _ => unfold gets in H; simplify_eq
  | H : modify _ _ = Some _ |- _ => unfold modify in H; simplify_eq
  | H : on_store _ _ = Some _ |- _ => unfold on_store, modify in H; simplify_eq
  | H : on_requests _ _ = Some _ |- _ => unfold on_requests, modify in H; simplify_eq
  | H : write_file _ _ _ = Some _ |- _ => unfold write_file, on_store, modify in H; simplify_eq
  | H : send _ _ = Some _ |- _ => unfold send, modify in H; simplify_eq
  | H : abort _ = Some _ |- _ => unfold abort in H; done
  | H : lift_option _ _ = Some _ |- _ =>
      apply lift_option_inv in H as [? ?]; simpl in *; simplify_eq
  | H : assert_ _ _ = Some _ |- _ => apply assert_inv in H as [? ?]; simplify_eq
  end.

Section load.
Context {RT : Type} `{RS : RequestorStore RT}.
Variable cfg : config.
Variable fs : os.
Hypothesis Hfs : fs_ok fs.

Abbreviation server := (server RT).
Abbreviation store_ok := (store_ok fs).
Abbreviation cache_ok := (cache_ok fs).
Abbreviation image := (image fs).

(** ** The store after loading *)

(** A file that was not there does not concern the others. *)
Lemma fresh_file_ext (d : gmap bytes bytes) l x : d !! l = None → disk_ext d (<[l := x]> d).
Proof. intros Hn l' c Hl H. rewrite lookup_insert_ne; [done|congruence]. Qed.

Definition slot (strip : bool) (e : entry_t) : cached_contents_t :=
  if strip then dso_contents e else file_contents e.

Lemma updateBuffer_entry dk mp p l a n c strip e :
  entry_ok fs dk mp (dir_part p) (file_part p) e → path_ok p → l ≠ [] → content_name l →
  dk !! l = Some c → image strip p = Some c → n = Z.of_nat (length c) → (c = [] ∨ mp !! a = Some l) →
  entry_ok fs dk mp (dir_part p) (file_part p)
    (set_errcode 0 (if strip then set_contents (file_contents e) (mk_contents l a n) e
                    else set_contents (mk_contents l a n) (dso_contents e) e)).
Proof.
  intros [H1 H2 H3 H4 H5] Hp Hl Hcn Hdk Him Hn Hm. rewrite <- (path_parts _ Hp) in Him.
  assert (contents_ok fs dk mp strip (global_path (dir_part p) (file_part p)) (mk_contents l a n)) as Hk.
  { intros _. split; [done|]. exists c. done. }
  destruct strip; constructor; done.
Qed.

(** The store that a successful load leaves. *)
Definition loaded (s0 : store) (p l : bytes) (strip : bool) (c : bytes) : store :=
  let a := match c with [] => EMPTY_FILE_PTR | _ => next_buffer s0 end in
  mk_store (snd (ldcs_cache_updateBuffer (cache s0) (file_part p) (dir_part p) (Some l) a
                   (Z.of_nat (length c)) 0 strip))
    (stats s0) (names s0)
    (match c with [] => maps s0 | _ => <[next_buffer s0 := l]> (maps s0) end)
    (match c with [] => next_buffer s0 | _ => next_buffer s0 + 1 end)
    (<[l := c]> (disk s0)).

Lemma loaded_ok s0 p l strip c :
  store_ok s0 → path_ok p → l ≠ [] → content_name l → disk s0 !! l = None → image strip p = Some c →
  store_ok (loaded s0 p l strip c) ∧ disk_ext (disk s0) (disk (loaded s0 p l strip c)).
Proof.
  intros [Hc Hn Hm] Hp Hl Hcn Hnone Him.
  assert (disk_ext (disk s0) (<[l := c]> (disk s0))) as Hext by (by apply fresh_file_ext).
  split; [|done]. unfold loaded. split; cbn.
  - apply update_ok; [|done|intros e; destruct strip; done|].
    + eapply (cache_ok_mono _ (disk s0) (maps s0)); [done| |done].
      intros a l' c' _ Hl' Ha. destruct c; [done|]. rewrite lookup_insert_ne; [done|].
      intros <-. apply Hm in Ha. lia.
    + intros e He. eapply updateBuffer_entry; eauto; [by rewrite lookup_insert_eq|].
      destruct c; [by left|right]. by rewrite lookup_insert_eq.
  - destruct c; lia.
  - intros a l'. destruct c; [apply Hm|]. intros [[<- <-] | [_ Ha]]%lookup_insert_Some; [lia|].
    apply Hm in Ha. lia.
Qed.

(** The store that a failed one leaves: the entry has an error code. *)
Definition failed (s0 : store) (p : bytes) (e : Z) (mp : gmap Z bytes) (nb : Z) (dk : gmap bytes bytes) : store :=
  mk_store (snd (ldcs_cache_updateBuffer (cache s0) (file_part p) (dir_part p) None 0 0 e false))
    (stats s0) (names s0) mp nb dk.

Lemma failed_ok s0 p e mp nb dk :
  store_ok s0 → path_ok p → e ≠ 0 → error_of fs p e → disk_ext (disk s0) dk →
  (∀ a l c, disk s0 !! l = Some c → maps s0 !! a = Some l → mp !! a = Some l) →
  next_buffer s0 <= nb → (∀ a l, mp !! a = Some l → EMPTY_FILE_PTR < a < nb) →
  store_ok (failed s0 p e mp nb dk).
Proof.
  intros [Hc Hn Hm] Hp He Herr Hext Hmp Hnb Hall. split; cbn; [|lia|done].
  apply update_ok; [|done|intros k; rewrite (proj2 (Z.eqb_neq e 0)) by done; done|].
  - eapply (cache_ok_mono _ (disk s0) (maps s0)); [done| |done]. eauto.
  - intros k [H1 H2 H3 H4 H5]. rewrite (proj2 (Z.eqb_neq e 0)) by done. constructor; try done.
    cbn. intros _. by rewrite (path_parts _ Hp).
Qed.

(** Two updates of the same slot are one. *)
Lemma updateBuffer_twice c p l a n a' n' strip :
  snd (ldcs_cache_updateBuffer (snd (ldcs_cache_updateBuffer c (file_part p) (dir_part p) (Some l) a n 0 strip))
         (file_part p) (dir_part p) (Some l) a' n' 0 strip)
  = snd (ldcs_cache_updateBuffer c (file_part p) (dir_part p) (Some l) a' n' 0 strip).
Proof.
  unfold ldcs_cache_updateBuffer, update_entry.
  destruct (c !! (dir_part p, file_part p)) as [e|] eqn:E; cbn [snd].
  - rewrite lookup_insert_eq. cbn [snd]. rewrite insert_insert_eq. by destruct strip.
  - by rewrite E.
Qed.

Lemma updateBuffer_error c p l a n n' e strip strip' strip'' :
  e ≠ 0 →
  snd (ldcs_cache_updateBuffer (snd (ldcs_cache_updateBuffer c (file_part p) (dir_part p) (Some l) a n 0 strip))
         (file_part p) (dir_part p) None 0 n' e strip')
  = snd (ldcs_cache_updateBuffer c (file_part p) (dir_part p) None 0 0 e strip'').
Proof.
  intros He. unfold ldcs_cache_updateBuffer, update_entry. rewrite (proj2 (Z.eqb_neq e 0)) by done.
  destruct (c !! (dir_part p, file_part p)) as [k|] eqn:E; cbn [snd].
  - rewrite lookup_insert_eq. cbn [snd]. rewrite insert_insert_eq. by destruct strip.
  - by rewrite E.
Qed.

(** ** The steps of a load *)

Lemma content_name_nonempty l : content_name l → l ≠ [].
Proof. intros [[(x & n & f & -> & _) | (x & n & f & -> & _)] _]; by destruct x. Qed.

Lemma set_names_ok g s0 : store_ok s0 → store_ok (set_names g s0).
Proof. intros [H1 H2 H3]. by constructor. Qed.

Lemma set_cache_ok c s0 : store_ok s0 → cache_ok (disk s0) (maps s0) c → store_ok (set_cache c s0).
Proof. intros [H1 H2 H3] Hc. by constructor. Qed.

Lemma new_local_name_spec (s : server) p t l s' :
  new_local_name cfg p t s = Some (l, s') →
  ∃ g, s' = set_st (set_names g (st s)) s ∧ (Z.of_nat (length l) < MAX_PATH_LEN → named_as t l) ∧
    (no_nul (cachepath cfg) = true → no_nul p = true → no_nul l = true).
Proof.
  unfold new_local_name. intros H. minv.
  match goal with E : name_file _ _ _ _ _ = Some ?r |- _ => destruct r as [g1 l1]; rename E into En end.
  minv. exists g1. split; [done|]. split; [by apply (name_file_kind _ _ _ _ _ _ _ En)|].
  by apply (name_file_no_nul _ _ _ _ _ _ _ En).
Qed.

Lemma create_spec (s : server) l size buf s' :
  filemngt_create_file_space fs l size s = Some (buf, s') →
  match buf with
  | None => s' = s
  | Some a => disk (st s) !! l = None ∧ Z.of_nat (length l) < MAX_PATH_LEN ∧
      a = (if size =? 0 then EMPTY_FILE_PTR else next_buffer (st s)) ∧
      s' = set_st (mk_store (cache (st s)) (stats (st s)) (names (st s))
                     (if size =? 0 then maps (st s) else <[next_buffer (st s) := l]> (maps (st s)))
                     (if size =? 0 then next_buffer (st s) else next_buffer (st s) + 1)
                     (<[l := replicate (Z.to_nat size) NUL]> (disk (st s)))) s
  end.
Proof.
  unfold filemngt_create_file_space. intros H. minv.
  destruct (disk (st _) !! l) eqn:E; [by minv|].
  destruct (os_create fs l && _) eqn:B; [|by minv]. minv. bool_to_prop.
  destruct (size =? 0); minv; done.
Qed.

(** The store between setting up and finishing: the entry names the file [l], which
    holds [data]. *)
Definition pending (s0 : store) (p l : bytes) (strip : bool) (size : Z) (data : bytes) : store :=
  let a := if size =? 0 then EMPTY_FILE_PTR else next_buffer s0 in
  mk_store (snd (ldcs_cache_updateBuffer (cache s0) (file_part p) (dir_part p) (Some l) a size 0 strip))
    (stats s0) (names s0)
    (if size =? 0 then maps s0 else <[next_buffer s0 := l]> (maps s0))
    (if size =? 0 then next_buffer s0 else next_buffer s0 + 1)
    (<[l := data]> (disk s0)).

Lemma setup_spec (s : server) p size strip buf l al s' :
  store_ok (st s) → no_nul (cachepath cfg) = true → path_ok p → known_file fs (dir_part p) (file_part p) →
  handle_setup_file_buffer cfg fs p size strip s = Some ((buf, l, al), s') →
  match buf with
  | None => ∃ s1, s' = set_st s1 s ∧ store_ok s1 ∧ disk s1 = disk (st s)
  | Some a => ∃ s0, store_ok s0 ∧ disk s0 = disk (st s) ∧ disk s0 !! l = None ∧ content_name l ∧
      a = (if size =? 0 then EMPTY_FILE_PTR else next_buffer s0) ∧
      s' = set_st (pending s0 p l strip size (replicate (Z.to_nat size) NUL)) s
  end.
Proof.
  intros Hs Hcp Hp Hk. unfold handle_setup_file_buffer.
  destruct (parse p) as [f d] eqn:Epd. intros H. apply bind_inv in H as (c & s1 & E & H).
  injection E as Hc1 Hs1. subst c s1.
  set (objt := if strip then _ else _) in H.
  assert (∀ (s1 : server), store_ok (st s1) → disk (st s1) = disk (st s) → s1 = set_st (st s1) s →
    (localname <-- new_local_name cfg p (if strip then clt_dso else clt_file);;
     buffer <-- filemngt_create_file_space fs localname size;;
     match buffer with
     | None => ret (None, localname, false)
     | Some buffer =>
         on_store (λ s, set_cache (snd (ldcs_cache_updateBuffer (cache s) f d (Some localname) buffer size 0 strip)) s);;;
         ret (Some buffer, localname, false)
     end) s1 = Some ((buf, l, al), s') →
    match buf with
    | None => ∃ s1, s' = set_st s1 s ∧ store_ok s1 ∧ disk s1 = disk (st s)
    | Some a => ∃ s0, store_ok s0 ∧ disk s0 = disk (st s) ∧ disk s0 !! l = None ∧ content_name l ∧
        a = (if size =? 0 then EMPTY_FILE_PTR else next_buffer s0) ∧
        s' = set_st (pending s0 p l strip size (replicate (Z.to_nat size) NUL)) s
    end) as Hrest.
  { clear H. intros s1 Hok Hd1 Hs1 H. apply bind_inv in H as (l1 & s2 & E1 & H).
    apply new_local_name_spec in E1 as (g & -> & Hkind & Hnul).
    apply bind_inv in H as (b & s3 & E2 & H). apply create_spec in E2. cbn in E2.
    destruct b as [a|].
    - destruct E2 as (Hnone & Hlen & Ha & ->). minv. exists (set_names g (st s1)).
      split; [by apply set_names_ok|]. split; [done|]. split; [done|]. split.
      { split; [destruct strip; [right|left]; by apply Hkind|]. split; [done|]. apply Hnul; [done|apply Hp]. }
      split; [done|]. rewrite Hs1. unfold pending. by rewrite Epd.
    - subst s3. minv. exists (set_names g (st s1)). split; [by rewrite Hs1|].
      split; [by apply set_names_ok|done]. }
  destruct (ldcs_cache_findFileDirInCache _ _ _ _) as [[r lp] e] eqn:Ef.
  assert (s = set_st (st s) s) as Heta by (by destruct s).
  destruct r; try (minv; done).
  - destruct lp as [l0|].
    + minv. exists (st s'). done.
    + apply bind_inv in H as (x & s1 & E & H). injection E as Hx Hs1. subst x s1.
      exact (Hrest s Hs eq_refl Heta H).
  - apply bind_inv in H as (x & s1 & E & H). apply bind_inv in E as (c1 & s2 & Ea & E).
    apply lift_option_inv in Ea as [Ea Es2]. cbn in Ea, Es2. subst s2.
    injection E as Hx Hs1. subst x s1.
    pose proof (addFileDir_ok fs _ _ _ p c1 (store_cache _ _ Hs) Hp) as Hadd. rewrite Epd in Hadd.
    destruct (Hadd Hk Ea) as [Hc1 _].
    refine (Hrest (set_st (set_cache c1 (st s)) s) (set_cache_ok _ _ Hs Hc1) eq_refl eq_refl H).
Qed.

Lemma finish_spec (s : server) s0 p l strip size n data was r a' s' :
  store_ok s0 → st s = pending s0 p l strip size data → Z.of_nat (length data) = size →
  0 <= n <= size → (n = 0 → size = 0) → (n ≠ size → was = strip) →
  handle_finish_buffer_setup fs (Some l) p (if size =? 0 then EMPTY_FILE_PTR else next_buffer s0)
    size n 0 was s = Some ((r, a'), s') →
  r = 0 ∧ a' = (if size =? 0 then EMPTY_FILE_PTR else next_buffer s0) ∧
  s' = set_st (loaded s0 p l strip (take (Z.to_nat n) data)) s.
Proof.
  intros Hok Hst Hlen Hn Hn0 Hwas. unfold handle_finish_buffer_setup, filemngt_sync_file_space.
  cbn [negb Z.eqb]. destruct (size =? 0) eqn:E0; bool_to_prop; cbn [orb].
  - assert (n = 0) as -> by lia. assert (data = []) as -> by (destruct data; [done|simpl in *; lia]).
    subst size. intros H. minv. destruct (parse p) as [f d] eqn:Epd. rewrite Z.eqb_refl in H. cbn in H. minv.
    split; [done|]. split; [done|]. change (loaded s0 p l strip (take (Z.to_nat 0) []))
      with (pending s0 p l strip (Z.of_nat (@length ascii [])) []). rewrite <- Hst. by destruct s'.
  - pose proof (store_next _ _ Hok) as Hnext.
    destruct (next_buffer s0 =? EMPTY_FILE_PTR) eqn:E1; bool_to_prop; [lia|].
    destruct (n =? 0) eqn:En; bool_to_prop; [lia|]. rewrite (fs_sync _ Hfs).
    intros H. minv. destruct (parse p) as [f d] eqn:Epd. rewrite Z.eqb_refl in H. 
    rewrite !orb_false_r in H. cbn [st set_st del_map set_disk cache stats names maps next_buffer disk] in *.
    rewrite Hst in *. unfold pending in *. rewrite (proj2 (Z.eqb_neq _ 0) E0) in *. cbn in H.
    match goal with E : disk _ !! l = Some ?x |- _ => cbn in E; rewrite lookup_insert_eq in E;
      injection E as <- end.
    rewrite insert_delete_eq, !insert_insert_eq in H.
    assert (Z.of_nat (length (take (Z.to_nat n) data)) = n) as Hln by (rewrite length_take; lia).
    unfold loaded. rewrite Hln. rewrite Epd.
    destruct (take (Z.to_nat n) data) as [|x0 c0] eqn:Et; [simpl in Hln; lia|]. rewrite <- Et in *. cbn [fst snd].
    destruct (Z.of_nat (length data) =? n) eqn:Eq; cbn [negb] in H; bool_to_prop; minv.
    + by rewrite Epd.
    + rewrite Hwas by lia. rewrite ?Epd. split; [done|]. split; [done|].
      unfold set_st, set_cache. cbn. do 2 f_equal.
      pose proof (updateBuffer_twice (cache s0) p l) as Htw. rewrite Epd in Htw. cbn in Htw. by rewrite Htw.
Qed.

Lemma finish_error (s : server) lo p a size n e was r a' s' :
  e ≠ 0 → handle_finish_buffer_setup fs lo p a size n e was s = Some ((r, a'), s') →
  r = 0 ∧
  s' = set_st (set_cache (snd (ldcs_cache_updateBuffer (cache (st s)) (file_part p) (dir_part p) None 0 n e was))
                 (del_map a (st s))) s.
Proof.
  intros He. unfold handle_finish_buffer_setup. rewrite (proj2 (Z.eqb_neq e 0)) by done. cbn [negb].
  intros H. minv. destruct (parse p) as [f d]. rewrite !orb_true_r in H. minv. done.
Qed.

Lemma new_mapping_length size : 0 <= size < 2 ^ 62 → (Z.to_nat size <= length (new_mapping size))%nat.
Proof.
  intros H. unfold new_mapping. rewrite length_replicate. pose proof (round_up_ge size). lia.
Qed.

(** Reading into the mapping. *)
Lemma read_file_spec (s : server) s0 p l strip size z r s' :
  os_size fs p = inl size → st s = pending s0 p l strip size z →
  filemngt_read_file fs p l size strip s = Some (r, s') →
  ∃ n e was, r = Some (n, e, was) ∧
    ((e ≠ 0 ∧ error_of fs p e ∧ s' = s) ∨
     (e = 0 ∧ ∃ data, s' = set_st (pending s0 p l strip size data) s ∧ Z.of_nat (length data) = size ∧
        0 <= n <= size ∧ (n = 0 → size = 0) ∧ (n ≠ size → was = strip) ∧
        image strip p = Some (take (Z.to_nat n) data) ∧ image was p = Some (take (Z.to_nat n) data))).
Proof.
  intros Hsz Hst. pose proof (fs_size _ Hfs _ _ Hsz) as Hrange. unfold filemngt_read_file.
  destruct (os_open fs p) as [contents|errno] eqn:Eo.
  2:{ intros H. minv. do 3 eexists. split; [done|]. left.
      pose proof (fs_errno _ Hfs p errno (or_intror Eo)). split; [lia|]. split; [right; eauto|done]. }
  destruct (fs_read _ Hfs _ _ _ strip Hsz Eo) as (b & n & elf & Er & Hn & Hn0).
  destruct (read_properties _ _ _ _ _ _ Er) as (Hlen & Hsame & Hindep).
  intros H. minv. do 3 eexists. split; [done|]. right. split; [done|].
  exists (take (Z.to_nat size) b). pose proof (new_mapping_length size Hrange).
  assert (image strip p = Some (take (Z.to_nat n) (take (Z.to_nat size) b))) as Him.
  { unfold Truth.image. rewrite Hsz, Eo, Er. done. }
  split_and!; try done; try lia.
  - rewrite Hst. unfold pending. cbn. by rewrite insert_insert_eq.
  - rewrite length_take. lia.
  - intros Hne. destruct elf; [by rewrite andb_true_r|].
    exfalso. apply Hne. apply (Hsame n false); [done|]. apply andb_false_r.
  - destruct elf; [by rewrite andb_true_r|]. rewrite andb_false_r.
    unfold Truth.image. rewrite Hsz, Eo, (Hindep n eq_refl false). done.
Qed.

(** What is read back from the mapping of a loaded file. *)
Lemma read_mapping_loaded (s : server) s0 p l strip c :
  st s = loaded s0 p l strip c →
  read_mapping (match c with [] => EMPTY_FILE_PTR | _ => next_buffer s0 end) (Z.of_nat (length c)) s = Some (c, s).
Proof.
  intros Hst. unfold read_mapping. destruct (Z.of_nat (length c) =? 0) eqn:E; bool_to_prop.
  - by destruct c.
  - unfold bind, gets, lift_option, assert_. rewrite Hst. unfold loaded. cbn [maps disk].
    destruct c as [|x c']; [done|]. rewrite lookup_insert_eq. unfold ret. cbn beta iota.
    rewrite lookup_insert_eq.
    rewrite Z.leb_refl, Nat2Z.id, take_ge by done. done.
Qed.

End load.
End TruthLoad.
