(* ===== verification/TruthHandlers.v ===== *)
(** * What the servers say is true: the handlers

    A small program logic for the handlers' monad: [keeps m] says that [m] leaves
    a true state when it started in one.  Every handler keeps the truth, given
    that the paths of queries are well formed and that the messages it handles
    are true; all its answers and messages are then true. *)

From Stdlib Require Import Ascii String ZArith Lia.
From stdpp Require Import strings numbers gmap list.
From S2P Require Import Prelude Bytes Requestors Message Msgbundle Cache GlobalName Pathfn Parseloc ElfRead Mounts Server Handlers Truth TruthLoad.
Import Cache GlobalName Pathfn Parseloc ElfRead Mounts Server Handlers Truth TruthLoad.

Open Scope handler_scope.

Module TruthHandlers.

Create HintDb keeps.

Section logic.
Context {RT : Type} `{RS : RequestorStore RT}.
Variable cfg : config.
Variable fs : os.

Abbreviation M := (M RT).
Abbreviation server := (server RT).
Abbreviation server_ok := (server_ok fs cfg).

(** ** The program logic *)

Definition keeps_true {A} (m : M A) : Prop :=
  ∀ s x s', server_ok s → m s = Some (x, s') → server_ok s'.

Abbreviation keeps := keeps_true.

Lemma keeps_ret {A} (x : A) : keeps (ret x).
Proof. intros s y s' H [= _ <-]. done. Qed.

Lemma keeps_bind {A B} (m : M A) (k : A → M B) : keeps m → (∀ x, keeps (k x)) → keeps (bind m k).
Proof. intros Hm Hk s y s' H E. apply bind_inv in E as (x & s1 & E1 & E2).
  eapply Hk; [|exact E2]. by eapply Hm. Qed.

Lemma keeps_gets {A} (f : server → A) : keeps (gets f).
Proof. intros s y s' H [= _ <-]. done. Qed.

Lemma keeps_abort {A} : keeps (@abort RT A).
Proof. done. Qed.

Lemma keeps_assert b : keeps (assert_ b).
Proof. intros s y s' H E. apply assert_inv in E as [_ [= _ ->]]. done. Qed.

Lemma keeps_lift {A} (o : option A) : keeps (lift_option o).
Proof. intros s y s' H E. apply lift_option_inv in E as [_ E]. by cbn in E; subst. Qed.

Lemma keeps_lift_bind {A B} (o : option A) (k : A → M B) :
  (∀ x, o = Some x → keeps (k x)) → keeps (bind (lift_option o) k).
Proof.
  intros Hk s y s' H E. apply bind_inv in E as (x & s1 & E1 & E2).
  apply lift_option_inv in E1 as [Ex Es]. cbn in Ex, Es. subst. by eapply Hk.
Qed.

Lemma keeps_assert_bind {A} b (k : unit → M A) : (b = true → keeps (k tt)) → keeps (bind (assert_ b) k).
Proof.
  intros Hk s y s' H E. apply bind_inv in E as (x & s1 & E1 & E2).
  apply assert_inv in E1 as [Hb [= -> ->]]. by eapply Hk.
Qed.

(** The state that is read is true. *)
Lemma keeps_gets_bind {A B} (f : server → A) (k : A → M B) :
  (∀ s, server_ok s → keeps (k (f s))) → keeps (bind (gets f) k).
Proof.
  intros Hk s y s' H E. apply bind_inv in E as (x & s1 & [= <- <-] & E2). by eapply Hk.
Qed.

(** Requestor lists and flags have no part in the truth. *)
Lemma keeps_on_requests f : keeps (on_requests f).
Proof. intros s y s' [H1 H2 H3 H4] [= _ <-]. by constructor. Qed.

Lemma keeps_set_bundle b : keeps (modify (set_bundle b)).
Proof. intros s y s' [H1 H2 H3 H4] [= _ <-]. by constructor. Qed.

Lemma keeps_set_preload_done b : keeps (modify (set_preload_done b)).
Proof. intros s y s' [H1 H2 H3 H4] [= _ <-]. by constructor. Qed.

Lemma keeps_send o : (∀ dk, output_true fs cfg dk o) → keeps (send o).
Proof.
  intros Ho s y s' [H1 H2 H3] [= _ <-]. constructor; [done| |done|done]. cbn.
  apply Forall_app. split; [done|]. by apply Forall_singleton.
Qed.

Lemma keeps_with_client nc f : (∀ c, client_ok c → client_ok (f c)) → keeps (with_client nc f).
Proof.
  intros Hf s y s' [H1 H2 H3] [= _ <-]. constructor; [done|done| |done]. cbn.
  apply Forall_lookup. intros i c. rewrite Forall_lookup in H3.
  destruct (decide (i = nc)) as [-> | Hne].
  - rewrite list_lookup_alter_eq. intros (c0 & Hc0 & ->)%fmap_Some. eauto.
  - rewrite list_lookup_alter_ne by done. eauto.
Qed.

(** A change of the store that keeps the contents that have been handed out. *)
Lemma server_ok_store (s : server) st' :
  server_ok s → store_ok fs st' → disk_ext (disk (st s)) (disk st') → server_ok (set_st st' s).
Proof.
  intros [H1 H2 H3 H4] Hst Hext. constructor; [done| |done|done]. cbn.
  eapply Forall_impl; [exact H2|]. intros o. destruct o as [nc p m|?|?|?|?]; cbn; try done.
  destruct (msg_type m); try done. intros [(l & strip & c & Hd & Hl & Hdk & Him & Hs) | H]; [|by right].
  left. exists l, strip, c. split_and!; eauto.
Qed.

Lemma disk_ext_refl (d : gmap bytes bytes) : disk_ext d d.
Proof. by intros ???. Qed.

Lemma keeps_cache (f : store → cache_t) :
  (∀ s, store_ok fs s → cache_ok fs (disk s) (maps s) (f s)) →
  keeps (on_store (λ s, set_cache (f s) s)).
Proof.
  intros Hf s y s' H [= _ <-]. apply server_ok_store; [done| |apply disk_ext_refl].
  apply set_cache_ok; [apply H|]. apply Hf, H.
Qed.

End logic.

#[export] Hint Resolve keeps_ret keeps_gets keeps_abort keeps_assert keeps_lift keeps_on_requests
  keeps_set_bundle keeps_set_preload_done : keeps.

(** Follows the structure of a handler. *)
Ltac keep :=
  repeat first
    [ progress intros
    | solve [eauto with keeps]
    | apply keeps_bind
    | match goal with
      | |- keeps_true _ _ (match ?x with _ => _ end) => destruct x eqn:?
      end ].

Section handlers.
Context {RT : Type} `{RS : RequestorStore RT}.
Variable cfg : config.
Variable fs : os.
Hypothesis Hfs : fs_ok fs.

Abbreviation M := (M RT).
Abbreviation server := (server RT).
Abbreviation server_ok := (server_ok fs cfg).
Abbreviation message_true := (single_message_true fs).
Abbreviation keeps := (keeps_true (RT := RT) cfg fs).

(** ** Sending *)

Lemma keeps_send_message (m : ldcs_message_t) (o : output) :
  message_true (msg_type m) (default [] (msg_data m)) → (∃ p, o = ToPeer p m) ∨ o = Broadcast m ∨ o = ToParent m →
  keeps (send o).
Proof. intros Hm [[p ->] | [-> | ->]]; by apply keeps_send. Qed.

Lemma keeps_send_to_nodes msg key dso nodes :
  message_true (msg_type msg) (default [] (msg_data msg)) → keeps (send_to_nodes msg key dso nodes).
Proof.
  intros Hm. induction nodes as [|n nodes IH]; cbn [send_to_nodes]; [apply keeps_ret|].
  apply keeps_bind; [|done]. destruct (_ || _); [apply keeps_ret|]. apply keeps_bind; [apply keeps_gets|].
  intros []; [apply keeps_ret|]. apply keeps_bind; [by apply keeps_send|]. intros. apply keeps_on_requests.
Qed.

Lemma keeps_send_msg_to_keys msg key force dso :
  message_true (msg_type msg) (default [] (msg_data msg)) → keeps (handle_send_msg_to_keys cfg msg key force dso).
Proof.
  intros Hm. unfold handle_send_msg_to_keys. apply keeps_bind; [apply keeps_gets|]. intros []; [apply keeps_ret|].
  assert (keeps (send (RT := RT) (Broadcast msg))) as Hb by (by apply keeps_send).
  pose proof (keeps_send_to_nodes msg key dso) as Hn. unfold add_completed, clear_requests. keep.
Qed.

Lemma query_text_inv c p data :
  query_text c p = Some data → data = c :: p ++ [NUL].
Proof. unfold query_text. destruct (_ <=? _); [|done]. by intros [= <-]. Qed.

Lemma keeps_send_directory_query d : dir_ok d → keeps (handle_send_directory_query d).
Proof.
  intros Hd. unfold handle_send_directory_query. apply keeps_lift_bind. intros data Hq.
  apply query_text_inv in Hq as ->. apply keeps_bind; [|intros; apply keeps_ret].
  apply keeps_send. intros dk. left. eauto.
Qed.

Lemma keeps_send_file_query p dso : path_ok p → keeps (handle_send_file_query p dso).
Proof.
  intros Hp. unfold handle_send_file_query. apply keeps_lift_bind. intros data Hq.
  apply query_text_inv in Hq as ->. apply keeps_bind; [|intros; apply keeps_ret].
  apply keeps_send. intros dk. right. do 2 eexists. split; [done|]. split; [|done]. destruct dso; auto.
Qed.

Lemma keeps_send_query p (dir dso : bool) :
  (if dir then dir_ok p else path_ok p) → keeps (handle_send_query p dir dso).
Proof.
  intros Hp. unfold handle_send_query. apply keeps_bind; [apply keeps_gets|]. intros []; [apply keeps_ret|].
  destruct dir; [by apply keeps_send_directory_query|by apply keeps_send_file_query].
Qed.

(** ** Directories *)

Lemma not_parsed_none c d : ldcs_cache_findDirInCache c d = LDCS_CACHE_DIR_NOT_PARSED → c !! (d, []) = None.
Proof. unfold ldcs_cache_findDirInCache. destruct (c !! (d, [])) as [e|]; [|done]. by destruct (_ =? _). Qed.

Lemma keeps_read_directory d : keeps (handle_read_directory fs d).
Proof.
  intros s x s' Hs E. unfold handle_read_directory in E. apply bind_inv in E as (c & s1 & [= <- <-] & E).
  destruct (ldcs_cache_findDirInCache _ _) eqn:Ef; try (injection E as _ <-; done).
  apply bind_inv in E as ([r c1] & s1 & E1 & E). apply lift_option_inv in E1 as [E1 Es]. cbn in E1, Es. subst s1.
  apply bind_inv in E as (y & s1 & [= _ <-] & [= _ <-]).
  apply server_ok_store; [done| |apply disk_ext_refl]. apply set_cache_ok; [apply Hs|].
  eapply process_ok; [done|apply Hs|by apply not_parsed_none|exact E1].
Qed.

(** The message about a directory that the cache knows is true. *)
Lemma encode_true (s : store) d data :
  store_ok fs s → dir_ok d → ldcs_cache_encodeDirContents (cache s) d = Some (Some data) → dir_message_true fs data.
Proof.
  intros Hs Hd. unfold ldcs_cache_encodeDirContents. destruct (cache s !! (d, [])) as [de|] eqn:E; [|done].
  destruct (_ <? _); [|done]. intros [= <-].
  pose proof (store_cache _ _ Hs) as Hc. pose proof (cache_dirs _ _ _ _ Hc _ _ E) as Hdt.
  exists d, (direntries de). split; [done|]. split; [done|]. split; [apply Hdt|]. split; [|split; apply Hdt].
  apply Forall_forall. intros f Hf. destruct (wf_present _ (cache_shape _ _ _ _ Hc) _ _ _ E Hf) as [Hne [e He]].
  exact (entry_known _ _ _ _ _ _ (cache_entries _ _ _ _ Hc _ _ _ He Hne)).
Qed.

Lemma keeps_broadcast_dir d bcast : dir_ok d → keeps (handle_broadcast_dir cfg d bcast).
Proof.
  intros Hd. unfold handle_broadcast_dir. apply keeps_gets_bind. intros s Hs. apply keeps_lift_bind.
  intros [data|] E; [|apply keeps_ret].
  pose proof (encode_true _ _ _ (ok_store _ _ _ Hs) Hd E) as Ht.
  destruct bcast; by apply keeps_send_msg_to_keys.
Qed.

#[local] Hint Resolve keeps_send_query keeps_read_directory keeps_broadcast_dir : keeps.

Lemma keeps_read_and_broadcast_dir d : dir_ok d → keeps (handle_read_and_broadcast_dir cfg fs d).
Proof. intros Hd. unfold handle_read_and_broadcast_dir. keep. Qed.

(** ** Aliases and error codes *)

Lemma keeps_setup_alias p q :
  path_ok p → os_realpath fs p = Some q → q ≠ p → keeps (handle_setup_alias p q).
Proof.
  intros Hp Hq Hne. unfold handle_setup_alias. destruct (parse p) as [f d] eqn:Epd.
  intros s x s' Hs E. apply bind_inv in E as (c & s1 & [= <- <-] & E).
  destruct (ldcs_cache_findFileDirInCache _ _ _ _) as [[[] ?] ?]; try done.
  apply bind_inv in E as (y & s1 & [= _ <-] & [= _ <-]).
  apply server_ok_store; [done| |apply disk_ext_refl]. apply set_cache_ok; [apply Hs|].
  pose proof (updateAlias_ok fs _ _ _ p q (store_cache _ _ (ok_store _ _ _ Hs)) Hp Hq Hne) as H.
  by rewrite Epd in H.
Qed.

Lemma keeps_broadcast_alias p q :
  path_ok p → os_realpath fs p = Some q → q ≠ p → keeps (handle_broadcast_alias cfg p q).
Proof.
  intros Hp Hq Hne. apply keeps_send_msg_to_keys. exists p, q. pose proof (fs_realpath _ Hfs _ _ Hq). done.
Qed.

Lemma keeps_broadcast_errorcode p e :
  path_ok p → (e = 0 ∨ error_of fs p e) → keeps (handle_broadcast_errorcode cfg p e).
Proof. intros Hp He. apply keeps_send_msg_to_keys. exists p, e. done. Qed.

Lemma keeps_broadcast_result p bcast m : keeps m → keeps (broadcast_result p bcast m).
Proof. intros Hm. unfold broadcast_result. keep. Qed.

Lemma realpath_alias p q : filemngt_realpath fs p = Some q → os_realpath fs p = Some q ∧ q ≠ p.
Proof.
  unfold filemngt_realpath. destruct (os_realpath fs p) as [q0|]; [|done].
  destruct (bool_decide_reflect (q0 = p)); [done|]. by intros [= <-].
Qed.

(** ** Loading a file *)

(** The contents that the mapping holds are sent. *)
Lemma broadcast_file_ok (s : server) p a n was bcast c x s' :
  server_ok s → path_ok p → read_mapping a n s = Some (c, s) → image fs was p = Some c →
  handle_broadcast_file cfg p a n was bcast s = Some (x, s') → server_ok s'.
Proof.
  intros Hs Hp Hr Him E. unfold handle_broadcast_file in E. apply bind_inv in E as (c0 & s1 & E1 & E).
  rewrite Hr in E1. injection E1 as <- <-. revert E. destruct bcast; eapply keeps_send_msg_to_keys; try exact Hs.
  all: exists p, was, c; done.
Qed.

Lemma broadcast_loaded (s : server) p bcast m x s' :
  server_ok s → (∀ y s1, m s = Some (y, s1) → server_ok s1) → broadcast_result p bcast m s = Some (x, s') →
  server_ok s'.
Proof.
  intros Hs Hm E. unfold broadcast_result in E.
  destruct bcast; [| |by injection E as _ <-].
  all: apply bind_inv in E as (y & s1 & E1 & [= _ <-]); by eapply Hm.
Qed.

(** Nothing is mapped at the address that is given back. *)
Lemma unmapped (s0 : store) a l0 : store_ok fs s0 →
  a = 0 ∨ a = EMPTY_FILE_PTR ∨ a = next_buffer s0 → maps s0 !! a = Some l0 → False.
Proof.
  intros Hs Ha E. apply (store_maps _ _ Hs) in E. pose proof (store_next _ _ Hs).
  unfold EMPTY_FILE_PTR in *. lia.
Qed.

Lemma delete_unmapped (s0 : store) a : store_ok fs s0 →
  a = 0 ∨ a = EMPTY_FILE_PTR ∨ a = next_buffer s0 → delete a (maps s0) = maps s0.
Proof.
  intros Hs Ha. apply delete_id. destruct (maps s0 !! a) as [l|] eqn:E; [|done]. by destruct (unmapped s0 a l).
Qed.

(** The file cannot be read: the cache gets the error code. *)
Lemma load_error (s : server) s0 p l strip size z lo a n e was r a' s' :
  server_ok (set_st s0 s) → path_ok p → disk s0 !! l = None → 0 < e → error_of fs p e →
  a = (if size =? 0 then EMPTY_FILE_PTR else next_buffer s0) →
  st s = pending s0 p l strip size z →
  handle_finish_buffer_setup fs lo p a size n e was s = Some ((r, a'), s') → r = 0 ∧ server_ok s'.
Proof.
  intros Hs Hp Hl He Herr -> Hst E. pose proof (ok_store _ _ _ Hs) as Hs0. cbn in Hs0.
  apply finish_error in E as [-> ->]; [|lia]. split; [done|]. rewrite Hst. unfold pending. cbn.
  rewrite (updateBuffer_error _ _ _ _ _ _ _ _ _ false) by lia.
  change (server_ok (set_st (failed s0 p e
    (delete (if size =? 0 then EMPTY_FILE_PTR else next_buffer s0)
       (if size =? 0 then maps s0 else <[next_buffer s0:=l]> (maps s0)))
    (if size =? 0 then next_buffer s0 else next_buffer s0 + 1) (<[l:=z]> (disk s0))) (set_st s0 s))).
  assert (delete (if size =? 0 then EMPTY_FILE_PTR else next_buffer s0)
       (if size =? 0 then maps s0 else <[next_buffer s0:=l]> (maps s0)) = maps s0) as ->.
  { destruct (size =? 0); [apply delete_unmapped; auto|]. rewrite delete_insert_eq. apply delete_unmapped; auto. }
  apply server_ok_store; [done| |by apply fresh_file_ext].
  apply failed_ok; try done; [lia|by apply fresh_file_ext| |].
  - destruct (size =? 0); lia.
  - intros a l1 Ha. apply (store_maps _ _ Hs0) in Ha. destruct (size =? 0); lia.
Qed.

(** The contents are there: the cache gets them, and the mapping holds them. *)
Lemma load_done (s : server) s0 p l strip size n data was r a' s' :
  server_ok (set_st s0 s) → path_ok p → disk s0 !! l = None → content_name l →
  st s = pending s0 p l strip size data → Z.of_nat (length data) = size →
  0 <= n <= size → (n = 0 → size = 0) → (n ≠ size → was = strip) →
  image fs strip p = Some (take (Z.to_nat n) data) →
  handle_finish_buffer_setup fs (Some l) p (if size =? 0 then EMPTY_FILE_PTR else next_buffer s0)
    size n 0 was s = Some ((r, a'), s') →
  r = 0 ∧ server_ok s' ∧ read_mapping a' n s' = Some (take (Z.to_nat n) data, s').
Proof.
  intros Hs Hp Hl Hcn Hst Hlen Hn Hn0 Hwas Him E. pose proof (ok_store _ _ _ Hs) as Hs0. cbn in Hs0.
  eapply finish_spec in E as (-> & -> & ->); eauto. split; [done|].
  destruct (loaded_ok fs s0 p l strip (take (Z.to_nat n) data)) as [Hok Hext];
    eauto using content_name_nonempty.
  split.
  - exact (server_ok_store _ _ (set_st s0 s) _ Hs Hok Hext).
  - assert (Z.of_nat (length (take (Z.to_nat n) data)) = n) as Hln by (rewrite length_take; lia).
    pose proof (read_mapping_loaded (set_st (loaded s0 p l strip (take (Z.to_nat n) data)) s) s0 p l strip
      (take (Z.to_nat n) data) eq_refl) as Hr. rewrite Hln in Hr.
    destruct (size =? 0) eqn:E0; bool_to_prop.
    + assert (n = 0) as -> by lia. exact Hr.
    + destruct (take (Z.to_nat n) data) as [|x0 c0] eqn:Et; [simpl in Hln; lia|]. exact Hr.
Qed.

(** What follows [handle_finish_buffer_setup] in both loads. *)
Lemma set_st_st (s : server) s1 s2 : set_st s1 (set_st s2 s) = set_st s1 s.
Proof. done. Qed.

Lemma setup_ok (s : server) p size strip buf l al s' :
  server_ok s → path_ok p → known_file fs (dir_part p) (file_part p) →
  handle_setup_file_buffer cfg fs p size strip s = Some ((buf, l, al), s') →
  match buf with
  | None => server_ok s'
  | Some a => ∃ s0, server_ok (set_st s0 s') ∧ disk s0 !! l = None ∧ content_name l ∧
      a = (if size =? 0 then EMPTY_FILE_PTR else next_buffer s0) ∧
      st s' = pending s0 p l strip size (replicate (Z.to_nat size) NUL)
  end.
Proof.
  intros Hs Hp Hk E. apply (setup_spec _ _ _ _ _ _ _ _ _ _ (ok_store _ _ _ Hs) (ok_cachepath _ _ _ Hs) Hp Hk) in E.
  destruct buf as [a|].
  - destruct E as (s0 & Hok & Hd & Hl & Hcn & Ha & ->). exists s0. split_and!; try done.
    rewrite set_st_st. apply server_ok_store; [done|done|]. rewrite Hd. apply disk_ext_refl.
  - destruct E as (s1 & -> & Hok & Hd). apply server_ok_store; [done|done|]. rewrite Hd. apply disk_ext_refl.
Qed.

Lemma keeps_load p size strip bcast :
  path_ok p → os_size fs p = inl size →
  keeps (r <-- handle_setup_file_buffer cfg fs p size strip;;
         let '(buffer, localname, already_loaded) := r in
         match buffer with
         | None => assert_ (negb already_loaded);;; ret (-1)
         | Some buffer =>
             result <-- filemngt_read_file fs p localname size strip;;
             match result with
             | None => ret (-1)
             | Some (newsize, errcode, was_stripped) =>
                 r <-- handle_finish_buffer_setup fs (Some localname) p buffer size newsize errcode was_stripped;;
                 let '(result, buffer1) := r in
                 if result =? -1 then ret (-1)
                 else broadcast_result p bcast
                        (if errcode =? 0 then handle_broadcast_file cfg p buffer1 newsize was_stripped bcast
                         else handle_broadcast_errorcode cfg p errcode)
             end
         end).
Proof.
  intros Hp Hsz s x s' Hs E. apply bind_inv in E as ([[buf l] al] & s1 & E1 & E).
  assert (known_file fs (dir_part p) (file_part p)) as Hk.
  { right. exists size. by rewrite (path_parts _ Hp). }
  apply setup_ok in E1; [|done|done|done]. destruct buf as [a|].
  2:{ revert E1 E. clear. revert s1 x s'. change (keeps (assert_ (negb al);;; ret (-1) : M Z)).
      apply keeps_bind; [apply keeps_assert|intros; apply keeps_ret]. }
  destruct E1 as (s0 & Hs0 & Hl & Hcn & -> & Hst).
  apply bind_inv in E as (r & s2 & E2 & E).
  apply (read_file_spec fs Hfs _ s0 _ _ _ _ (replicate (Z.to_nat size) NUL)) in E2
    as (n & e & was & -> & [(He & Herr & ->) | (-> & data & -> & Hlen & Hn & Hn0 & Hwas & Him & Himw)]);
    [| |done|done].
  - apply bind_inv in E as ([r a'] & s3 & E3 & E).
    assert (0 < e) as Hepos. { destruct Herr as [H | [_ H]]; pose proof (fs_errno _ Hfs p e); lia || naive_solver lia. }
    eapply load_error in E3 as [-> Hs3]; eauto. cbn [Z.eqb] in E.
    eapply broadcast_loaded; [exact Hs3| |exact E]. intros y s4 E4.
    rewrite (proj2 (Z.eqb_neq e 0)) in E4 by done.
    eapply keeps_broadcast_errorcode; [done|by right|exact Hs3|exact E4].
  - apply bind_inv in E as ([r a'] & s3 & E3 & E).
    eapply load_done in E3 as (-> & Hs3 & Hr); eauto. cbn [Z.eqb] in E.
    eapply broadcast_loaded; [exact Hs3| |exact E]. intros y s4 E4. cbn [Z.eqb] in E4.
    by eapply broadcast_file_ok.
Qed.

Lemma keeps_read_and_broadcast_file p dso bcast : path_ok p → keeps (handle_read_and_broadcast_file cfg fs p dso bcast).
Proof.
  intros Hp. unfold handle_read_and_broadcast_file. destruct (filemngt_realpath fs p) as [q|] eqn:Eq.
  { apply realpath_alias in Eq as [Hq Hne]. apply keeps_bind; [by apply keeps_setup_alias|].
    intros. destruct (_ =? -1); [apply keeps_ret|]. by apply keeps_broadcast_result, keeps_broadcast_alias. }
  destruct (os_size fs p) as [size|e] eqn:Esz; [by apply keeps_load|].
  pose proof (fs_errno _ Hfs p e (or_introl Esz)) as He.
  intros s x s' Hs E. apply bind_inv in E as ([r a'] & s1 & E1 & E). apply finish_error in E1 as [-> ->]; [|lia].
  cbn [Z.eqb] in E. set (s1 := set_st _ s) in E.
  assert (server_ok s1) as Hs1.
  { apply server_ok_store; [done| |apply disk_ext_refl]. pose proof (ok_store _ _ _ Hs) as Hst.
    pose proof (failed_ok fs (st s) p e (delete 0 (maps (st s))) (next_buffer (st s)) (disk (st s)) Hst Hp) as Hf.
    apply Hf; [lia|by left|apply disk_ext_refl| |lia|].
    { by rewrite (delete_unmapped _ 0 Hst) by auto. }
    rewrite (delete_unmapped _ 0 Hst) by auto. apply (store_maps _ _ Hst). }
  eapply broadcast_loaded; [exact Hs1| |exact E]. intros y s4 E4.
  rewrite (proj2 (Z.eqb_neq e 0)) in E4 by lia.
  eapply keeps_broadcast_errorcode; [done|right; by left|exact Hs1|exact E4].
Qed.

End handlers.
End TruthHandlers.
