(* ===== verification/TruthAnswers.v ===== *)
(** * What the servers say is true: answers to clients

    The decision of [handle_howto_file] is right about the file system when the
    cache is true; so every answer that [handle_client_progress] gives is true,
    and what it reads and asks for on the way keeps the state true. *)

From Stdlib Require Import Ascii String ZArith Lia.
From stdpp Require Import strings numbers gmap list.
From S2P Require Import Prelude Bytes Requestors Message Msgbundle Cache GlobalName Pathfn Parseloc ElfRead Mounts Server Handlers Truth TruthLoad TruthHandlers.
Import Cache GlobalName Pathfn Parseloc ElfRead Mounts Server Handlers Truth TruthLoad TruthHandlers.

Open Scope handler_scope.

Module TruthAnswers.

(** ** Queries of clients *)

(** The path of a query is absolute, or relative to a normalised working directory;
    it fits, and it is not the root directory. *)
Definition query_ok (cwd : option bytes) (name : bytes) : Prop :=
  no_nul name = true ∧
  ∃ base, Forall component_ok base ∧ no_nul (render base) = true ∧ base ++ canonical name ≠ [] ∧
    Z.of_nat (length (render base) + length name) + 4 <= MAX_PATH_LEN ∧
    match name with
    | a :: _ => if Ascii.eqb a SLASH then base = []
                else cwd = Some (match base with [] => [SLASH] | _ => render base end)
    | [] => cwd = Some (match base with [] => [SLASH] | _ => render base end)
    end.

Lemma no_nul_elem x : no_nul x = true ↔ NUL ∉ x.
Proof.
  unfold no_nul. induction x as [|a x IH]; cbn [forallb]; [split; [set_solver|done]|].
  rewrite andb_true_iff, IH, not_elem_of_cons, negb_true_iff. split; intros [H1 H2]; split; try done.
  - intros <-. by rewrite (proj2 (is_nul_true NUL) eq_refl) in H1.
  - apply not_true_iff_false. intros H. apply is_nul_true in H. by subst.
Qed.

Lemma components_chars cur name c x : c ∈ components cur name → x ∈ c → x ∈ cur ∨ x ∈ name.
Proof.
  assert (∀ cur : bytes, c ∈ match cur with [] => [] | _ => [cur] end → c = cur) as Hone.
  { intros [|a k] Hc; [by apply not_elem_of_nil in Hc|by apply list_elem_of_singleton in Hc]. }
  revert cur. induction name as [|a name IH]; intros cur; cbn [components].
  { intros ->%Hone. by left. }
  destruct (Ascii.eqb a SLASH).
  - rewrite elem_of_app. intros [->%Hone | Hc] Hx; [by left|].
    destruct (IH [] Hc Hx) as [Hx1 | Hx1]; [by apply not_elem_of_nil in Hx1|right; by constructor].
  - intros Hc Hx. destruct (IH _ Hc Hx) as [Hx1 | Hx1]; [|right; by constructor].
    apply elem_of_app in Hx1 as [? | ->%list_elem_of_singleton]; [by left|right; constructor].
Qed.

Lemma render_chars cs x : x ∈ render cs → x = SLASH ∨ ∃ c, c ∈ cs ∧ x ∈ c.
Proof.
  unfold render. induction cs as [|c cs IH]; [set_solver|]. rewrite fmap_cons. cbn [concat].
  intros [Hx | Hx]%elem_of_app; [|destruct (IH Hx) as [? | (c' & ? & ?)]; [by left|right; exists c'; set_solver]].
  apply elem_of_cons in Hx as [-> | Hx]; [by left|right]. exists c. set_solver.
Qed.

Lemma canonical_no_nul name : no_nul name = true → no_nul (render (canonical name)) = true.
Proof.
  rewrite !no_nul_elem. intros Hn Hin. destruct (render_chars _ _ Hin) as [? | (c & Hc & Hx)]; [done|].
  unfold canonical in Hc. rewrite list_elem_of_In, filter_In, <- list_elem_of_In in Hc. destruct Hc as [Hc _].
  destruct (components_chars [] name c NUL Hc Hx); [set_solver|done].
Qed.

(** The names that the query is set up with make up a path of the form that all
    servers use. *)
Lemma query_parse cwd name :
  query_ok cwd name →
  ∃ f d, parseFilenameNoAlloc2 name MAX_PATH_LEN cwd = Some (0, f, d) ∧
    path_ok (global_path d f) ∧ parse (global_path d f) = (f, d).
Proof.
  intros (Hnul & base & Hok & Hbn & Hne & Hlen & Hcwd). set (cs := base ++ canonical name) in *.
  assert (Forall component_ok cs) as Hcs by (apply Forall_app; split; [done|apply canonical_ok]).
  pose proof (spell_length name) as Hsp. rewrite <- render_length in Hsp.
  pose proof (skip_slashes_length name) as Hsk.
  assert (length (render cs) = length (render base) + length (render (canonical name)))%nat as Hrl.
  { unfold cs. by rewrite render_app, length_app. }
  exists (file_of cs), (dir_of cs). split.
  - assert ((∃ s, name = SLASH :: s) ∧ base = [] ∨
      (∀ s, name ≠ SLASH :: s) ∧ cwd = Some match base with [] => [SLASH] | _ => render base end) as Hcase.
    { destruct name as [|a s]; [by right|]. destruct (Ascii.eqb_spec a SLASH) as [-> | Hne2]; [left; eauto|right].
      split; [|done]. intros s0 [= -> _]. done. }
    destruct Hcase as [[Habs ->] | [Hrel ->]].
    + apply parse2_absolute; [done|simpl in *; lia|lia].
    + apply parse2_relative; [done|done|lia|lia].
  - rewrite global_path_render by (done || lia). rewrite parse_render by (done || lia). split; [|done].
    constructor.
    + rewrite parse_render by (done || lia). cbn. destruct cs as [|c cs' _] using rev_ind; [done|].
      unfold file_of. rewrite last_last. apply Forall_app in Hcs as [_ Hcs].
      by apply Forall_cons in Hcs as [(Hc & _) _].
    + rewrite parse_render by (done || lia). cbn. apply global_path_render; (done || lia).
    + unfold cs. rewrite render_app, no_nul_app, Hbn, canonical_no_nul by done. done.
    + lia.
Qed.

Create HintDb quiet.

Section answers.
Context {RT : Type} `{RS : RequestorStore RT}.
Variable cfg : config.
Variable fs : os.
Hypothesis Hfs : fs_ok fs.

Abbreviation M := (M RT).
Abbreviation server := (server RT).
Abbreviation server_ok := (server_ok fs cfg).
Abbreviation message_true := (single_message_true fs).
Abbreviation keeps := (keeps_true (RT := RT) cfg fs).

#[local] Hint Resolve keeps_send_query keeps_read_directory keeps_broadcast_dir
  keeps_read_and_broadcast_dir keeps_read_and_broadcast_file : keeps.

(** ** The decision *)

(** A slot of the entry of a file holds what reading the file gives. *)
Definition held (s : store) (d f : bytes) (strip : bool) (l : bytes) : Prop :=
  ∃ e c, cache s !! (d, f) = Some e ∧ path (slot strip e) = l ∧ content_name l ∧
    disk s !! l = Some c ∧ image fs strip (global_path d f) = Some c ∧
    buffer_size (slot strip e) = Z.of_nat (length c) ∧ (c = [] ∨ maps s !! buffer (slot strip e) = Some l).

Definition howto_true (s : store) (p d f : bytes) (dso : bool) (h : howto) : Prop :=
  match h_result h with
  | FOUND_FILE => 
      known_file fs d f ∧ (h_dso h = true → dso = true) ∧ ∃ l, h_localpath h = Some (Some l) ∧ held s d f (h_dso h) l
  | NO_FILE => ¬ visible_in fs d f
  | NO_DIR => os_readdir fs d = None
  | FOUND_ERRCODE => known_file fs d f ∧ error_of fs p (h_errcode h) ∨ in_cache_dir cfg p ∧ h_errcode h = 0
  | ALIAS_TO => ∃ q, h_alias h = Some q ∧ os_realpath fs p = Some q ∧ q ≠ p
  | READ_FILE | REQ_FILE => known_file fs d f
  | READ_DIRECTORY | REQ_DIRECTORY => True
  | ORIG_FILE => True
  end.

Lemma or_null_some x l : or_null x = Some l → x = l ∧ l ≠ [].
Proof. destruct x; [done|]. by intros [= <-]. Qed.

Lemma slot_held s d f e strip l :
  store_ok fs s → f ≠ [] → cache s !! (d, f) = Some e → or_null (path (slot strip e)) = Some l → held s d f strip l.
Proof.
  intros Hs Hf He [Hp Hne]%or_null_some. pose proof (cache_entries _ _ _ _ (store_cache _ _ Hs) _ _ _ He Hf) as Hok.
  assert (contents_ok fs (disk s) (maps s) strip (global_path d f) (slot strip e)) as Hk.
  { destruct strip; [exact (entry_dso _ _ _ _ _ _ Hok)|exact (entry_file _ _ _ _ _ _ Hok)]. }
  destruct Hk as (Hcn & c & H1 & H2 & H3 & H4); [congruence|]. rewrite Hp in *. exists e, c. done.
Qed.

(** What the directory says when the file is not in the cache. *)
Lemma directory_true s d f :
  store_ok fs s → f ≠ [] → cache s !! (d, f) = None →
  match handle_howto_directory cfg (cache s) d with
  | FOUND_FILE => ¬ visible_in fs d f
  | NO_FILE => os_readdir fs d = None
  | READ_DIRECTORY | REQ_DIRECTORY => True
  | _ => False
  end.
Proof.
  intros Hs Hf Hn. unfold handle_howto_directory, ldcs_cache_findDirInCache.
  destruct (cache s !! (d, [])) as [de|] eqn:E; [|by destruct (responsible cfg)].
  pose proof (cache_dirs _ _ _ _ (store_cache _ _ Hs) _ _ E) as Hd.
  destruct (errcode de =? -1) eqn:Ee; bool_to_prop; [exact (dir_missing _ _ _ Hd Ee)|].
  intros Hv. apply (dir_complete _ _ _ Hd) in Hv.
  destruct (wf_present _ (cache_shape _ _ _ _ (store_cache _ _ Hs)) _ _ _ E Hv) as [_ [e He]]. congruence.
Qed.

(** The lookup of a file that has an entry. *)
Lemma or_null_none x : or_null x = None → x = [].
Proof. by destruct x. Qed.

Lemma find_entry c file dir dso e :
  c !! (dir, file) = Some e →
  ∃ strip dso1 lp, find_file_or_dso c file dir dso = (LDCS_CACHE_FILE_FOUND, lp, errcode e, dso1) ∧
    lp = or_null (path (slot strip e)) ∧ (is_Some lp → dso1 = strip) ∧ (strip = true → dso = true) ∧
    (lp = None → errcode e = 0 → path (file_contents e) = [] ∧ (dso = true → path (dso_contents e) = [])).
Proof.
  intros He. unfold find_file_or_dso, ldcs_cache_findFileDirInCache. rewrite He.
  destruct dso.
  2:{ exists false, false, (or_null (path (file_contents e))). split_and!; try done.
      intros H _. split; [by apply or_null_none|done]. }
  cbn [contents_for found_cached]. destruct (or_null (path (dso_contents e))) as [l|] eqn:El.
  { exists true, true, (Some l). rewrite <- El. split_and!; try done. by rewrite El. }
  destruct (errcode e =? 0) eqn:Ee; bool_to_prop.
  - exists false. eexists _, (or_null (path (file_contents e))). split; [done|]. split; [done|].
    split; [|split; [done|]].
    + intros [l Hl]. cbn [slot negb] in *. by rewrite Hl.
    + intros H _. split; [by apply or_null_none|]. intros _. by apply or_null_none.
  - exists true, true, None. cbn [negb]. rewrite <- El. split_and!; try done.
Qed.

Lemma howto_is_true s p f d dso :
  store_ok fs s → path_ok p → parse p = (f, d) →
  howto_true s p d f dso (handle_howto_file cfg (cache s) p f d dso).
Proof.
  intros Hs Hp Epd. pose proof (path_file _ Hp) as Hf. pose proof (path_parts _ Hp) as Hgp. rewrite Epd in Hf, Hgp.
  cbn in Hf, Hgp. unfold handle_howto_file.
  destruct (ldcs_is_a_cachedfile _ _ p) eqn:Ecf.
  { right. split; [|done]. unfold in_cache_dir. by rewrite Ecf. }
  destruct (is_local_prefix p _); [done|].
  destruct (cache s !! (d, f)) as [e|] eqn:He.
  - pose proof (cache_entries _ _ _ _ (store_cache _ _ Hs) _ _ _ He Hf) as Hok.
    pose proof (entry_known _ _ _ _ _ _ Hok) as Hkn.
    destruct (find_entry (cache s) f d dso e He) as (strip & dso1 & lp & -> & Elp & Hdso & Hstrip & _).
    destruct lp as [l|].
    { split; [done|]. cbn. rewrite (Hdso ltac:(by eexists)). split; [done|]. exists l. split; [done|]. by eapply slot_held. }
    destruct (errcode e =? 0) eqn:Ee; cbn [negb]; bool_to_prop.
    2:{ left. split; [done|]. cbn. rewrite <- Hgp. by apply (entry_error _ _ _ _ _ _ Hok). }
    unfold ldcs_cache_getAlias. rewrite He. cbn [snd].
    destruct (or_null (alias e)) as [q|] eqn:Eq.
    { apply or_null_some in Eq as [<- Hne]. exists (alias e). split; [done|]. rewrite <- Hgp.
      by apply (entry_alias _ _ _ _ _ _ Hok). }
    destruct (opt_stoprel cfg); [done|]. by destruct (responsible cfg).
  - assert (∃ dso1, find_file_or_dso (cache s) f d dso = (LDCS_CACHE_FILE_NOT_FOUND, None, 0, dso1)) as [dso1 ->].
    { unfold find_file_or_dso, ldcs_cache_findFileDirInCache. rewrite He. destruct dso; eauto. }
    pose proof (directory_true s d f Hs Hf He) as Hd. unfold howto_true. cbn [h_result].
    by destruct (handle_howto_directory _ _ _).
Qed.

(** ** Clients *)

Lemma keeps_get_client_bind {A} nc (k : client → M A) :
  (∀ c, client_ok c → keeps (k c)) → keeps (bind (get_client nc) k).
Proof.
  intros Hk s x s' Hs E. apply bind_inv in E as (c & s1 & E1 & E). unfold get_client in E1.
  apply bind_inv in E1 as (o & s2 & [= <- <-] & E1). apply lift_option_inv in E1 as [Ec Es]. cbn in Ec, Es. subst s1.
  eapply Hk; [|exact Hs|exact E]. pose proof (ok_clients _ _ _ Hs) as H. rewrite Forall_lookup in H. by eapply H.
Qed.

Lemma get_client_inv (s : server) nc c s' :
  get_client nc s = Some (c, s') → client_table s !! nc = Some c ∧ s' = s.
Proof.
  intros E. unfold get_client in E. apply bind_inv in E as (o & s2 & [= <- <-] & E).
  apply lift_option_inv in E as [Ec Es]. by cbn in Ec, Es; subst.
Qed.

Lemma client_is_ok (s : server) nc c : server_ok s → client_table s !! nc = Some c → client_ok c.
Proof. intros Hs. pose proof (ok_clients _ _ _ Hs) as H. rewrite Forall_lookup in H. apply H. Qed.

Lemma keeps_close nc : keeps (handle_close_client_query nc).
Proof. apply keeps_with_client. by intros c _. Qed.

Lemma set_localpath_ok l c : client_ok c → client_ok (set_localpath l c).
Proof. done. Qed.

Lemma keeps_set_localpath nc l : keeps (with_client nc (set_localpath l)).
Proof. apply keeps_with_client. intros c. apply set_localpath_ok. Qed.

#[local] Hint Resolve keeps_close keeps_set_localpath : keeps.

(** Answers that only depend on the file system. *)
Lemma send_ok (s s' : server) o x :
  server_ok s → output_true fs cfg (disk (st s)) o → send o s = Some (x, s') → server_ok s'.
Proof.
  intros [H1 H2 H3 H4] Ho [= _ <-]. constructor; [done| |done|done]. cbn.
  apply Forall_app. split; [done|]. by apply Forall_singleton.
Qed.

(** An answer, and the query is closed. *)
Lemma answer_close_ok (s : server) nc c m x s' :
  server_ok s → output_true fs cfg (disk (st s)) (ToClient nc c m) →
  (answer nc c m;;; handle_close_client_query nc;;; ret 0) s = Some (x, s') → server_ok s'.
Proof.
  intros Hs Ho E. apply bind_inv in E as (y & s1 & E1 & E). apply (send_ok _ _ _ _ Hs Ho) in E1.
  revert E. apply keeps_bind; [apply keeps_close|intros; apply keeps_ret|done].
Qed.

Lemma fulfilled_ok (s : server) nc c l x s' :
  server_ok s → client_table s !! nc = Some c → query_localpath c = Some l →
  answer_true fs cfg (disk (st s)) c (le32 0 ++ take (Z.to_nat MAX_PATH_LEN) l ++ [NUL]) →
  handle_client_fulfilled_query nc s = Some (x, s') → server_ok s'.
Proof.
  intros Hs Hc Hl Ha E. apply bind_inv in E as (c1 & s1 & E1 & E). apply get_client_inv in E1 as [E1 ->].
  rewrite Hc in E1. injection E1 as <-. destruct (unreachable c); [by injection E as _ <-|].
  rewrite Hl in E. apply bind_inv in E as (y & s1 & [= <- <-] & E). eapply answer_close_ok; [exact Hs| |exact E]; exact Ha.
Qed.

Lemma rejected_ok (s : server) nc c e x s' :
  server_ok s → client_table s !! nc = Some c →
  answer_true fs cfg (disk (st s)) c (le32 e) →
  handle_client_rejected_query nc e s = Some (x, s') → server_ok s'.
Proof.
  intros Hs Hc Ha E. apply bind_inv in E as (c1 & s1 & E1 & E). apply get_client_inv in E1 as [E1 ->].
  rewrite Hc in E1. injection E1 as <-. destruct (unreachable c); [by injection E as _ <-|].
  eapply answer_close_ok; [exact Hs| |exact E]; exact Ha.
Qed.

Lemma report_ok (s : server) nc c r x s' :
  server_ok s → client_table s !! nc = Some c →
  exists_true fs cfg (query_globalpath c) (le32 match r with exists_ => 1 | not_exists => 0 end) →
  handle_report_fileexist_result nc r s = Some (x, s') → server_ok s'.
Proof.
  intros Hs Hc Ha E. apply bind_inv in E as (c1 & s1 & E1 & E). apply get_client_inv in E1 as [E1 ->].
  rewrite Hc in E1. injection E1 as <-. destruct (unreachable c); [by injection E as _ <-|].
  eapply answer_close_ok; [exact Hs| |exact E]; exact Ha.
Qed.

Lemma originalfile_ok (s : server) nc c x s' :
  server_ok s → client_table s !! nc = Some c → query_open c = true →
  handle_client_originalfile_query nc s = Some (x, s') → server_ok s'.
Proof.
  intros Hs Hc Hq E. destruct (client_is_ok _ _ _ Hs Hc Hq) as [Hp _].
  apply bind_inv in E as (y & s1 & E1 & E).
  assert (server_ok s1) as Hs1.
  { eapply (keeps_with_client cfg fs nc); [|exact Hs|exact E1]. intros k. apply set_localpath_ok. }
  injection E1 as _ <-. cbn in *.
  eapply (fulfilled_ok _ _ (set_localpath (Some (query_globalpath c)) c)); [exact Hs1| |done| |exact E].
  - cbn. rewrite list_lookup_alter_eq, Hc. done.
  - cbn. right. left. rewrite take_ge; [done|]. pose proof (path_len _ Hp). unfold MAX_PATH_LEN in *. lia.
Qed.

Lemma keeps_get_alias nc q : path_ok q → keeps (handle_client_get_alias nc q).
Proof.
  intros Hq. apply keeps_with_client. intros c Hc.
  pose proof (path_len _ Hq) as Hl. rewrite take_ge by (unfold MAX_PATH_LEN in *; lia).
  cbv zeta. destruct (parse q) as [f d] eqn:Epd. intros _. split; [exact Hq|exact Epd].
Qed.

Lemma keeps_numa nc : keeps (handle_client_return_numa_replication nc).
Proof. unfold handle_client_return_numa_replication, get_client. keep. Qed.

(** The decision about a query, and the state it leaves. *)
Lemma howto_query_ok (s : server) nc dso h s1 c :
  server_ok s → client_table s !! nc = Some c → query_open c = true →
  howto_query cfg nc dso s = Some (h, s1) →
  ∃ lp, server_ok s1 ∧ client_table s1 !! nc = Some (set_localpath lp c) ∧
    (∀ l, h_localpath h = Some l → lp = l) ∧
    howto_true (st s1) (query_globalpath c) (query_dirname c) (query_filename c) dso h.
Proof.
  intros Hs Hc Hq E. destruct (client_is_ok _ _ _ Hs Hc Hq) as [Hp Epd].
  apply bind_inv in E as (c1 & s2 & E1 & E). apply get_client_inv in E1 as [E1 ->].
  rewrite Hc in E1. injection E1 as <-. apply bind_inv in E as (k & s2 & [= <- <-] & E).
  pose proof (howto_is_true (st s) _ _ _ dso (ok_store _ _ _ Hs) Hp Epd) as Ht.
  set (h0 := handle_howto_file _ _ _ _ _ _) in *. apply bind_inv in E as (y & s2 & E1 & [= <- <-]).
  destruct (h_localpath h0) as [l|] eqn:El.
  - pose proof (keeps_set_localpath nc l _ _ _ Hs E1) as Hs2. injection E1 as _ <-.
    exists l. split; [done|].
    split; [cbn; by rewrite list_lookup_alter_eq, Hc|]. split; [|done]. by intros ? [= <-].
  - injection E1 as _ <-. exists (query_localpath c). split_and!; try done. rewrite Hc. by destruct c.
Qed.

(** ** Metadata *)

Lemma keeps_new_local_name_bind {A} p t (k : bytes → M A) :
  (∀ l, (Z.of_nat (length l) < MAX_PATH_LEN → named_as t l) → keeps (k l)) →
  keeps (bind (new_local_name cfg p t) k).
Proof.
  intros Hk s x s' Hs E. apply bind_inv in E as (l & s1 & E1 & E).
  apply new_local_name_spec in E1 as (g & -> & Hl & _). eapply Hk; [exact Hl| |exact E].
  apply server_ok_store; [done| |apply disk_ext_refl]. apply set_names_ok, Hs.
Qed.

(** The files of metadata are not those of contents. *)
Lemma keeps_write_local t l data :
  t ≠ clt_file → t ≠ clt_dso → (Z.of_nat (length l) < MAX_PATH_LEN → named_as t l) → keeps (write_local fs l data).
Proof.
  intros Ht1 Ht2 Hl. unfold write_local. destruct (_ && _) eqn:E; [|apply keeps_ret].
  apply keeps_bind; [|intros; apply keeps_ret]. bool_to_prop. specialize (Hl ltac:(done)).
  assert (∀ d : gmap bytes bytes, disk_ext d (<[l := data]> d)) as Hext.
  { intros d l' c Hcn Hd. rewrite lookup_insert_ne; [done|]. intros <-.
    by destruct (content_name_kind _ _ Hcn Hl). }
  intros s x s' Hs [= _ <-]. apply server_ok_store; [done| |apply Hext].
  destruct (ok_store _ _ _ Hs) as [Hc Hn Hm]. constructor; [|done|done]. cbn.
  eapply cache_ok_mono; [apply Hext| |exact Hc]. done.
Qed.

Lemma keeps_set_stats c : keeps (on_store (set_stats c)).
Proof.
  intros s x s' Hs [= _ <-]. apply server_ok_store; [done| |apply disk_ext_refl].
  destruct (ok_store _ _ _ Hs). by constructor.
Qed.

#[local] Hint Resolve keeps_set_stats : keeps.

Lemma keeps_add_stat p data t : keeps (add_stat p data t).
Proof. unfold add_stat. keep. Qed.

Lemma keeps_lookup_stat p t : keeps (lookup_stat p t).
Proof. unfold lookup_stat. keep. Qed.

#[local] Hint Resolve keeps_add_stat keeps_lookup_stat : keeps.

Lemma keeps_cache_metadata p t buf : keeps (handle_cache_metadata cfg fs p t buf).
Proof.
  unfold handle_cache_metadata. destruct buf as [b|]; [|keep].
  apply keeps_new_local_name_bind. intros l Hl. apply keeps_bind; [apply keeps_add_stat|]. intros _.
  apply keeps_bind; [|keep]. eapply keeps_write_local; [| |exact Hl]; by destruct t.
Qed.

Lemma keeps_cache_ldso p info : keeps (handle_cache_ldso cfg fs p info).
Proof.
  unfold handle_cache_ldso. destruct info as [b|]; [|keep].
  apply keeps_new_local_name_bind. intros l Hl. apply keeps_bind; [apply keeps_add_stat|]. intros _.
  apply keeps_bind; [|keep]. by eapply keeps_write_local; [| |exact Hl].
Qed.

#[local] Hint Resolve keeps_cache_metadata keeps_cache_ldso : keeps.

Lemma keeps_stat_file p t : keeps (handle_stat_file cfg fs p t).
Proof. unfold handle_stat_file. keep. Qed.

Lemma keeps_read_ldso p : keeps (handle_read_ldso_metadata cfg fs p).
Proof. unfold handle_read_ldso_metadata. keep. Qed.

Lemma keeps_pending t : keeps (pending_list t).
Proof. unfold pending_list. keep. Qed.

Lemma keeps_completed t : keeps (completed_list t).
Proof. unfold completed_list. keep. Qed.

#[local] Hint Resolve keeps_stat_file keeps_read_ldso keeps_pending keeps_completed : keeps.

Lemma keeps_add_pending t p peer : keeps (add_pending t p peer).
Proof. unfold add_pending, set_pending. keep. Qed.

Lemma keeps_add_completed_md t p peer : keeps (add_completed_md t p peer).
Proof. unfold add_completed_md. keep. Qed.

#[local] Hint Resolve keeps_add_pending keeps_add_completed_md : keeps.

(** Messages about metadata say nothing about files. *)
Definition about_metadata (t : ldcs_message_ids_t) : Prop :=
  match t with
  | LDCS_MSG_STAT_NET_RESULT | LDCS_MSG_LSTAT_NET_RESULT | LDCS_MSG_LOADER_DATA_NET_RESP
  | LDCS_MSG_STAT_NET_REQUEST | LDCS_MSG_LSTAT_NET_REQUEST | LDCS_MSG_LOADER_DATA_NET_REQ => True
  | _ => False
  end.

Lemma metadata_true t data : about_metadata t → message_true t data.
Proof. by destruct t. Qed.

Lemma keeps_send_metadata m key force t :
  about_metadata (msg_type m) → keeps (handle_send_metadata_to_keys cfg m key force t).
Proof.
  intros Hm. pose proof (metadata_true _ (default [] (msg_data m)) Hm) as Ht.
  assert (∀ n, keeps (send (ToPeer n m))) as Hp by (intros n; by apply keeps_send).
  assert (keeps (send (Broadcast m))) as Hb by (by apply keeps_send).
  assert (∀ nodes, keeps (send_metadata_to_nodes m key t nodes)) as Hn.
  { induction nodes as [|n nodes IH]; cbn [send_metadata_to_nodes]; keep. }
  unfold handle_send_metadata_to_keys, set_pending. keep.
Qed.

Lemma keeps_broadcast_metadata p buf t : keeps (handle_broadcast_metadata cfg p buf t).
Proof.
  unfold handle_broadcast_metadata. apply keeps_lift_bind. intros ty Hty. apply keeps_send_metadata.
  destruct t; by simplify_eq/=.
Qed.

#[local] Hint Resolve keeps_broadcast_metadata : keeps.

Lemma keeps_metadata_and_broadcast p t b : keeps (handle_metadata_and_broadcast_file cfg fs p t b).
Proof. unfold handle_metadata_and_broadcast_file. keep. Qed.

Lemma keeps_load_metadata p t : keeps (handle_load_and_broadcast_metadata cfg p t).
Proof. unfold handle_load_and_broadcast_metadata. keep. Qed.

Lemma keeps_howto_metadata p t : keeps (handle_howto_metadata cfg p t).
Proof. unfold handle_howto_metadata. keep. Qed.

Lemma keeps_metadata_request p t from : keeps (handle_metadata_request p t from).
Proof.
  unfold handle_metadata_request. apply keeps_bind; [apply keeps_pending|]. intros l. destruct (been_requested l p); [keep|].
  apply keeps_bind; [keep|]. intros _. apply keeps_lift_bind. intros ty Hty. apply keeps_bind; [|keep].
  apply keeps_send. intros dk. cbn. apply metadata_true. destruct t; by simplify_eq/=.
Qed.

#[local] Hint Resolve keeps_metadata_and_broadcast keeps_load_metadata keeps_howto_metadata
  keeps_metadata_request : keeps.

Lemma keeps_get_client nc : keeps (get_client nc).
Proof. unfold get_client. keep. Qed.

#[local] Hint Resolve keeps_get_client : keeps.

(** Answers that say nothing about files. *)
Lemma keeps_other_answer nc c m :
  msg_type m ≠ LDCS_MSG_FILE_QUERY_ANSWER → msg_type m ≠ LDCS_MSG_EXISTS_ANSWER → keeps (answer nc c m).
Proof. intros H1 H2. apply keeps_send. intros dk. cbn. by destruct (msg_type m). Qed.

Lemma keeps_metadata_result nc t : keeps (handle_client_metadata_result nc t).
Proof.
  unfold handle_client_metadata_result. keep; apply keeps_other_answer; by repeat case_match.
Qed.

Lemma keeps_metadata_self nc : keeps (handle_client_metadata_self nc).
Proof. unfold handle_client_metadata_self. keep. by apply keeps_other_answer. Qed.

#[local] Hint Resolve keeps_metadata_result keeps_metadata_self : keeps.

Lemma keeps_client_metadata nc : keeps (handle_client_metadata cfg fs nc).
Proof. unfold handle_client_metadata. keep. Qed.

Lemma keeps_metadata_request_recv data t peer : keeps (handle_metadata_request_recv cfg fs data t peer).
Proof. unfold handle_metadata_request_recv. keep. Qed.

(** ** Computations that leave the clients alone *)

Definition quiet {A} (m : M A) : Prop := ∀ s x s', m s = Some (x, s') → client_table s' = client_table s.

Lemma quiet_ret {A} (x : A) : quiet (ret x).
Proof. by intros s y s' [= _ <-]. Qed.

Lemma quiet_abort {A} : quiet (@abort RT A).
Proof. done. Qed.

Lemma quiet_bind {A B} (m : M A) (k : A → M B) : quiet m → (∀ x, quiet (k x)) → quiet (bind m k).
Proof.
  intros Hm Hk s y s' E. apply bind_inv in E as (x & s1 & E1 & E2). apply Hm in E1. apply Hk in E2. congruence.
Qed.

Lemma quiet_gets {A} (f : server → A) : quiet (gets f).
Proof. by intros s y s' [= _ <-]. Qed.

Lemma quiet_lift {A} (o : option A) : quiet (lift_option o).
Proof. destruct o; [apply quiet_ret|apply quiet_abort]. Qed.

Lemma quiet_on_store f : quiet (on_store f).
Proof. by intros s y s' [= _ <-]. Qed.

Lemma quiet_on_requests f : quiet (on_requests f).
Proof. by intros s y s' [= _ <-]. Qed.

Lemma quiet_send o : quiet (send o).
Proof. by intros s y s' [= _ <-]. Qed.

#[local] Hint Resolve quiet_ret quiet_abort quiet_gets quiet_lift quiet_on_store quiet_on_requests quiet_send : quiet.

Ltac hush :=
  repeat first
    [ progress intros
    | solve [eauto with quiet]
    | apply quiet_bind
    | match goal with
      | |- quiet (match ?x with _ => _ end) => destruct x eqn:?
      end ].

Lemma quiet_send_msg_to_keys m key force dso : quiet (handle_send_msg_to_keys cfg m key force dso).
Proof.
  assert (∀ nodes, quiet (send_to_nodes m key dso nodes)) as Hn.
  { induction nodes as [|n nodes IH]; cbn [send_to_nodes]; unfold add_completed; hush. }
  unfold handle_send_msg_to_keys, add_completed, clear_requests. hush.
Qed.

#[local] Hint Resolve quiet_send_msg_to_keys : quiet.

Lemma quiet_read_and_broadcast_dir d : quiet (handle_read_and_broadcast_dir cfg fs d).
Proof. unfold handle_read_and_broadcast_dir, handle_read_directory, handle_broadcast_dir. hush. Qed.

(** ** Progress of a query *)

Lemma get_alias_client (s : server) nc q c x s' :
  client_table s !! nc = Some c → handle_client_get_alias nc q s = Some (x, s') →
  ∃ c', client_table s' !! nc = Some c' ∧ query_open c' = query_open c.
Proof.
  intros Hc [= _ <-]. cbn. rewrite list_lookup_alter_eq, Hc. eexists. split; [done|].
  cbv zeta. by destruct (parse _).
Qed.

(** The truth of the decision in terms of the query. *)
Lemma query_parts c : client_ok c → query_open c = true →
  path_ok (query_globalpath c) ∧ dir_part (query_globalpath c) = query_dirname c ∧
  file_part (query_globalpath c) = query_filename c ∧ dir_ok (query_dirname c).
Proof.
  intros Hc Hq. destruct (Hc Hq) as [Hp E]. rewrite E. split_and!; try done.
  pose proof (path_dir_ok _ Hp) as H. by rewrite E in H.
Qed.

Lemma fileexist_ok fuel (s : server) nc c x s' :
  server_ok s → client_table s !! nc = Some c → query_open c = true →
  handle_fileexist_test cfg fs fuel nc s = Some (x, s') → server_ok s'.
Proof.
  revert s c x s'. induction fuel as [|fuel IH]; [done|]. intros s c x s' Hs Hc Hq E.
  cbn [handle_fileexist_test] in E. apply bind_inv in E as (c0 & s0 & E0 & E).
  apply get_client_inv in E0 as [E0 ->]. rewrite Hc in E0. injection E0 as <-.
  destruct (query_parts c (client_is_ok _ _ _ Hs Hc) Hq) as (Hp & Hd & Hf & Hdok).
  apply bind_inv in E as (h & s1 & E1 & E).
  destruct (howto_query_ok _ _ _ _ _ _ Hs Hc Hq E1) as (lp & Hs1 & Hc1 & Hl & Ht).
  assert (∀ r, exists_true fs cfg (query_globalpath c) (le32 match r with exists_ => 1 | not_exists => 0 end) →
    handle_report_fileexist_result nc r s1 = Some (x, s') → server_ok s') as Hrep.
  { intros r Hr. by eapply report_ok; [exact Hs1|exact Hc1|]. }
  unfold howto_true in Ht. unfold exists_true in Hrep. rewrite Hd, Hf in Hrep.
  destruct (h_result h).
  - destruct Ht as [Hk _]. apply (Hrep exists_); auto.
  - apply (Hrep exists_); [|done]. left. split; [done|]. destruct Ht as [[Hk _] | [Hin _]]; auto.
  - apply (Hrep not_exists); auto.
  - apply (Hrep not_exists); [|done]. right. split; [done|]. unfold visible_in. rewrite Ht. simpl. set_solver.
  - apply bind_inv in E as (r & s2 & E2 & E). pose proof (quiet_read_and_broadcast_dir _ _ _ _ E2) as Hquiet.
    apply (keeps_read_and_broadcast_dir _ _ Hfs) in E2; [|done|done].
    destruct (r =? -1); [by injection E as _ <-|]. eapply (IH s2 (set_localpath lp c)); [done|by rewrite Hquiet|done|exact E].
  - apply (Hrep exists_); auto.
  - revert E. apply keeps_bind; [by apply keeps_send_query|intros; apply keeps_ret|done].
  - apply (Hrep exists_); auto.
  - destruct Ht as (q & Hq2 & Hreal & _). rewrite Hq2 in E. apply bind_inv in E as (q1 & s2 & [= <- <-] & E).
    apply bind_inv in E as (y & s2 & E2 & E). destruct (get_alias_client _ _ _ _ _ _ Hc1 E2) as (c2 & Hc2 & Hq3).
    apply keeps_get_alias in E2; [|by apply (fs_realpath _ Hfs _ _ Hreal)|done].
    eapply (IH s2 c2); [done|done|cbn in Hq3; congruence|exact E].
  - done.
Qed.

(** The answer with a local file. *)
Lemma found_true (s : store) q d f strip l :
  held s d f strip l → global_path d f = query_globalpath q → (strip = true → is_dso q = true) →
  answer_true fs cfg (disk s) q (le32 0 ++ take (Z.to_nat MAX_PATH_LEN) l ++ [NUL]).
Proof.
  intros (e & c & _ & _ & Hcn & Hdk & Him & _) Hg Hd. left. exists l, strip, c. rewrite <- Hg.
  split_and!; try done. rewrite take_ge; [done|]. destruct Hcn as [_ Hlen]. lia.
Qed.

Lemma numa_quiet (s : server) nc x s' : handle_client_return_numa_replication nc s = Some (x, s') → s' = s.
Proof.
  intros E. apply bind_inv in E as (c & s1 & E1 & E). apply get_client_inv in E1 as [_ ->].
  apply bind_inv in E as (k & s1 & [= <- <-] & E).
  by destruct (ldcs_cache_isReplicated _ _ _) as [[] ?]; try done; injection E as _ <-.
Qed.

Lemma keeps_client_progress fuel nc : keeps (handle_client_progress cfg fs fuel nc).
Proof.
  induction fuel as [|fuel IH]; [done|]. intros s x s' Hs E. cbn [handle_client_progress] in E.
  apply bind_inv in E as (c & s0 & E0 & E). apply get_client_inv in E0 as [Hc ->].
  apply bind_inv in E as (dp & s0 & [= <- <-] & E).
  destruct (_ && _); [by injection E as _ <-|].
  destruct (query_open c) eqn:Hq; cbn [negb] in E; [|by injection E as _ <-].
  destruct (existance_query c); [by eapply fileexist_ok|].
  destruct (is_stat c || is_loader c); [by eapply keeps_client_metadata|].
  destruct (query_parts c (client_is_ok _ _ _ Hs Hc) Hq) as (Hp & Hd & Hf & Hdok).
  apply bind_inv in E as (h & s1 & E1 & E).
  destruct (howto_query_ok _ _ _ _ _ _ Hs Hc Hq E1) as (lp & Hs1 & Hc1 & Hl & Ht).
  assert (∀ e, answer_true fs cfg (disk (st s1)) c (le32 e) →
    handle_client_rejected_query nc e s1 = Some (x, s') → server_ok s') as Hrej.
  { intros e He. by eapply rejected_ok; [exact Hs1|exact Hc1|]. }
  unfold howto_true in Ht. unfold answer_true in Hrej. rewrite Hd, Hf in Hrej.
  revert E. destruct (h_result h); intros E.
  - destruct Ht as (_ & Hdso & l & Hlp & Hheld). apply bind_inv in E as (y & s2 & E2 & E). apply numa_quiet in E2 as ->.
    eapply fulfilled_ok; [exact Hs1|exact Hc1|by apply Hl| |exact E].
    eapply found_true; [exact Hheld| |exact Hdso]. cbn. rewrite <- (path_parts _ Hp). by rewrite Hd, Hf.
  - apply (Hrej (h_errcode h)); [|done]. do 4 right. eexists. split; [done|]. destruct Ht as [[_ Ht] | [Ht Hz]]; auto.
  - apply (Hrej ENOENT); [do 2 right; by left|done].
  - apply (Hrej SPINDLE_ENODIR); [do 3 right; by left|done].
  - revert E. apply keeps_bind; [by apply keeps_read_directory| |done]. intros r. destruct (_ =? -1); [keep|].
    apply keeps_bind; [by apply keeps_broadcast_dir|]. keep.
  - revert E. apply keeps_bind; [by apply keeps_read_and_broadcast_file| |done]. keep.
  - revert E. apply keeps_bind; [by apply keeps_send_query| |done]. unfold add_file_request. keep.
  - revert E. apply keeps_bind; [by apply keeps_send_query| |done]. unfold add_dso_request. keep.
  - destruct Ht as (q & Hq2 & Hreal & _). rewrite Hq2 in E. apply bind_inv in E as (q1 & s2 & [= <- <-] & E).
    revert E. apply keeps_bind; [|done|done]. apply keeps_get_alias. exact (fs_realpath _ Hfs _ _ Hreal).
  - by eapply originalfile_ok.
Qed.

#[local] Hint Resolve keeps_client_progress : keeps.

Lemma keeps_progress : keeps (handle_progress cfg fs).
Proof.
  unfold handle_progress. apply keeps_bind; [keep|]. intros n.
  generalize 0%nat. induction n as [|n IH]; intros nc; cbn [progress_from]; keep.
Qed.

End answers.
End TruthAnswers.
