(* ===== verification/TruthMessages.v ===== *)
(** * What the servers say is true: messages

    What the handlers of the messages between servers, and of the queries of
    clients, do with true messages and with well formed queries keeps the state
    of the server true.  The last two lemmas are about the two dispatchers. *)

From Stdlib Require Import Ascii String ZArith Lia.
From stdpp Require Import strings numbers gmap list.
From S2P Require Import Prelude Bytes Requestors Message Msgbundle Cache GlobalName Pathfn Parseloc ElfRead Mounts Server Handlers Truth TruthLoad TruthHandlers TruthAnswers.
Import Cache GlobalName Pathfn Parseloc ElfRead Mounts Server Handlers Truth TruthLoad TruthHandlers TruthAnswers.

Open Scope handler_scope.

Module TruthMessages.

Section messages.
Context {RT : Type} `{RS : RequestorStore RT}.
Variable cfg : config.
Variable fs : os.
Hypothesis Hfs : fs_ok fs.

Abbreviation M := (M RT).
Abbreviation server := (server RT).
Abbreviation server_ok := (server_ok fs cfg).
Abbreviation message_true := (message_true fs).
Abbreviation keeps := (keeps_true (RT := RT) cfg fs).

#[local] Hint Resolve keeps_send_query keeps_read_directory keeps_broadcast_dir
  keeps_read_and_broadcast_dir keeps_read_and_broadcast_file keeps_progress keeps_client_progress
  keeps_broadcast_errorcode keeps_broadcast_alias keeps_get_client keeps_close : keeps.

(** ** Requests *)

Lemma keeps_add_request dso p peer : keeps (add_request dso p peer).
Proof. destruct dso; apply keeps_on_requests. Qed.

Lemma keeps_add_file_request p peer : keeps (add_file_request p peer).
Proof. apply keeps_on_requests. Qed.

#[local] Hint Resolve keeps_add_request keeps_add_file_request : keeps.

Lemma add_request_store dso p peer (s : server) x s' : add_request dso p peer s = Some (x, s') → st s' = st s.
Proof. destruct dso; by intros [= _ <-]. Qed.

Lemma keeps_request_directory from d : dir_ok d → keeps (handle_request_directory cfg fs from d).
Proof. intros Hd. unfold handle_request_directory. keep. Qed.

Lemma keeps_create_selfload p : path_ok p → keeps (handle_create_selfload_file cfg p).
Proof. intros Hp. apply keeps_send_msg_to_keys. exists p. done. Qed.

(** The contents that the cache holds can be read back. *)
Lemma read_mapping_held (s : server) d f strip l e :
  held fs (st s) d f strip l → cache (st s) !! (d, f) = Some e →
  ∃ c, read_mapping (buffer (slot strip e)) (buffer_size (slot strip e)) s = Some (c, s) ∧
    image fs strip (global_path d f) = Some c.
Proof.
  intros (e1 & c & He & _ & Hcn & Hdk & Him & Hsz & Hmap) He1. rewrite He in He1. injection He1 as ->.
  exists c. split; [|done]. unfold read_mapping. rewrite Hsz.
  destruct (Z.of_nat (length c) =? 0) eqn:E0; bool_to_prop; [by destruct c|].
  unfold bind, gets, lift_option. destruct Hmap as [-> | ->]; [done|]. cbn. rewrite Hdk. unfold ret, assert_.
  rewrite Z.leb_refl, Nat2Z.id, take_ge by done. done.
Qed.

Lemma keeps_request_file fuel from dso p : path_ok p → keeps (handle_request_file cfg fs fuel from dso p).
Proof.
  intros Hp. revert dso. induction fuel as [|fuel IH]; intros dso; [done|]. cbn [handle_request_file].
  destruct (parse p) as [f d] eqn:Epd. intros s x s' Hs E. apply bind_inv in E as (c & s0 & [= <- <-] & E).
  pose proof (howto_is_true cfg fs (st s) p f d dso (ok_store _ _ _ Hs) Hp Epd) as Ht.
  set (h := handle_howto_file _ _ _ _ _ _) in *.
  pose proof (path_dir_ok _ Hp) as Hd. rewrite Epd in Hd. cbn in Hd.
  pose proof (path_parts _ Hp) as Hg. rewrite Epd in Hg. cbn in Hg.
  unfold howto_true in Ht. revert E. destruct (h_result h); intros E.
  - destruct Ht as (_ & _ & l & _ & Hheld).
    unfold ldcs_cache_get_buffer in E. pose proof Hheld as (e & c & He & _). rewrite He in E.
    cbn [mbind option_bind] in E. apply bind_inv in E as (y & s1 & E1 & E).
    pose proof (add_request_store _ _ _ _ _ _ E1) as Hst. apply keeps_add_request in E1; [|done].
    rewrite <- Hst in Hheld, He. destruct (read_mapping_held _ _ _ _ _ _ Hheld He) as (c1 & Hr & Him).
    rewrite Hg in Him. destruct (h_dso h); by eapply broadcast_file_ok.
  - revert E. apply keeps_bind; [keep| |done]. intros _. apply keeps_broadcast_errorcode; [done|].
    destruct Ht as [[_ Ht] | [_ Ht]]; auto.
  - by eapply keeps_create_selfload.
  - by eapply keeps_create_selfload.
  - revert E. apply keeps_bind; [by apply keeps_read_and_broadcast_dir| |done]. keep.
  - revert E. apply keeps_bind; [keep| |done]. keep.
  - revert E. apply keeps_bind; [by apply keeps_send_query| |done]. intros y. apply keeps_bind; [keep|]. intros _.
    apply keeps_bind; [by apply keeps_send_query|keep].
  - revert E. apply keeps_bind; [by apply keeps_send_query|keep|done].
  - destruct Ht as (q & Hq & Hreal & Hne). rewrite Hq in E. apply bind_inv in E as (q1 & s2 & [= <- <-] & E).
    revert E. apply keeps_bind; [keep| |done]. intros _. by apply keeps_broadcast_alias.
  - by eapply keeps_create_selfload.
Qed.

Lemma keeps_request from data : request_true data → keeps (handle_request cfg fs from data).
Proof.
  intros [(d & -> & Hd) | (p & t & -> & Ht & Hp)]; cbn [handle_request]; apply keeps_assert_bind; intros _.
  - rewrite cstr_app_nul by apply Hd. by apply keeps_request_directory.
  - rewrite cstr_app_nul by apply Hp. destruct Ht as [-> | ->]; by apply keeps_request_file.
Qed.

(** ** What comes from the parent *)

Lemma keeps_file_errcode data : errcode_message_true fs data → keeps (handle_file_errcode cfg fs data).
Proof.
  intros (p & e & -> & Hp & He). unfold handle_file_errcode. apply keeps_assert_bind. intros _.
  assert (drop 8 (le32 e ++ le32 (Z.of_nat (length p) + 1) ++ p ++ [NUL]) = p ++ [NUL]) as ->.
  { rewrite app_assoc. by apply drop_app_length'. }
  rewrite cstr_app_nul by apply Hp.
  assert (0 <= e < 2 ^ 31) as Hrange.
  { destruct He as [-> | [H | [_ H]]]; [lia|pose proof (fs_errno _ Hfs p e (or_introl H)); lia|].
    pose proof (fs_errno _ Hfs p e (or_intror H)). lia. }
  assert (rd_i32 (le32 e ++ le32 (Z.of_nat (length p) + 1) ++ p ++ [NUL]) 0 = e) as ->.
  { apply (rd_i32_le32 []); [done|lia]. }
  destruct (parse p) as [f d] eqn:Epd. apply keeps_bind.
  - apply (keeps_cache cfg fs (λ s, snd (ldcs_cache_updateErrcode (cache s) f d e))). intros s Hs.
    pose proof (updateErrcode_ok fs _ _ _ p e (store_cache _ _ Hs) Hp He) as H. by rewrite Epd in H.
  - intros _. apply keeps_bind; [by apply keeps_broadcast_errorcode|keep].
Qed.

Lemma keeps_alias_recv data : alias_message_true fs data → keeps (handle_alias_recv cfg fs data).
Proof.
  intros (p & q & -> & Hp & Hq & Hreal & Hne). unfold handle_alias_recv. apply keeps_assert_bind. intros _.
  change (p ++ [NUL] ++ q ++ [NUL]) with (p ++ NUL :: (q ++ [NUL])). rewrite cstr_app_nul by apply Hp.
  assert (drop (S (length p)) (p ++ NUL :: (q ++ [NUL])) = q ++ [NUL]) as ->.
  { rewrite cons_middle, app_assoc. apply drop_app_length'. rewrite length_app. simpl. lia. }
  rewrite cstr_app_nul by apply Hq. destruct (parse p) as [f d] eqn:Epd. apply keeps_bind.
  - apply (keeps_cache cfg fs (λ s, snd (ldcs_cache_updateAlias (cache s) f d q))). intros s Hs.
    pose proof (updateAlias_ok fs _ _ _ p q (store_cache _ _ Hs) Hp Hreal Hne) as H. by rewrite Epd in H.
  - intros _. apply keeps_bind; [by apply keeps_broadcast_alias|keep].
Qed.

Lemma keeps_directory_recv data bcast : dir_message_true fs data → keeps (handle_directory_recv cfg fs data bcast).
Proof.
  intros Hd. unfold handle_directory_recv. intros s x s' Hs E. apply bind_inv in E as (c & s0 & [= <- <-] & E).
  apply bind_inv in E as ([c1 d] & s1 & E1 & E). apply lift_option_inv in E1 as [E1 Es]. cbn in E1, Es. subst s1.
  destruct (decode_ok fs _ _ _ _ _ _ (store_cache _ _ (ok_store _ _ _ Hs)) Hd E1) as (Hc1 & Hdok & _).
  apply bind_inv in E as (y & s1 & [= _ <-] & E).
  revert E. apply keeps_bind; [by apply keeps_broadcast_dir|keep|].
  apply server_ok_store; [done| |apply disk_ext_refl]. apply set_cache_ok; [apply Hs|done].
Qed.

(** The packet of a file is taken apart as it was put together. *)
Lemma decode_packet_true p c strip :
  path_ok p → Z.of_nat (length c) < 2 ^ 62 →
  ∃ k, filemngt_decode_packet (filemngt_encode_packet p c strip) = Some (p, Z.of_nat (length c), k, strip) ∧
    drop k (filemngt_encode_packet p c strip) = c.
Proof.
  intros Hp Hc. unfold filemngt_encode_packet.
  set (e := le32 (if filemngt_is_elf_file c then 1 else 0)).
  pose proof (path_len _ Hp) as Hl. unfold MAX_PATH_LEN in Hl.
  set (data := e ++ _).
  assert (data = (e ++ le32 (if strip then 1 else 0) ++ le32 (Z.of_nat (length p) + 1) ++
    le64 (Z.of_nat (length c))) ++ (p ++ [NUL]) ++ c) as Eq by (unfold data; by rewrite <- !app_assoc).
  assert (rd_i32 data 4 = (if strip then 1 else 0)) as E4.
  { apply (rd_i32_le32 e); [done|by destruct strip]. }
  assert (rd_i32 data 8 = Z.of_nat (length p) + 1) as E8.
  { unfold data. rewrite app_assoc. apply rd_i32_le32; [done|lia]. }
  assert (rd_u 8 data 12 = Z.of_nat (length c)) as E12.
  { unfold data. rewrite !(app_assoc e), !(app_assoc (e ++ _)), (rd_u_app 8) by done.
    apply le_decode_encode_small. simpl. lia. }
  assert (length (p ++ [NUL]) = Z.to_nat (Z.of_nat (length p) + 1)) as Hlp by (rewrite length_app; simpl; lia).
  assert (drop 20 data = (p ++ [NUL]) ++ c) as E20 by (rewrite Eq; by apply drop_app_length').
  exists (20 + Z.to_nat (Z.of_nat (length p) + 1))%nat. split.
  - unfold filemngt_decode_packet. rewrite E4, E8, E12, E20, <- Hlp, take_app_length.
    assert ((length data <? 20)%nat = false) as ->.
    { apply Nat.ltb_ge. rewrite Eq, length_app. simpl. lia. }
    rewrite (proj2 (Z.ltb_lt _ _)), (proj2 (Z.leb_le _ _)) by (unfold MAX_PATH_LEN; lia). cbn [negb andb orb].
    rewrite Hlp, Z2Nat.id, Z.eqb_refl by lia. unfold has_nul. rewrite no_nul_app, andb_false_r. cbn [negb andb].
    rewrite cstr_app_nul by apply Hp. by destruct strip.
  - rewrite <- drop_drop, E20, <- Hlp. apply drop_app_length.
Qed.

Lemma image_facts strip p c :
  image fs strip p = Some c → ∃ n, os_size fs p = inl n ∧ Z.of_nat (length c) <= n < 2 ^ 62.
Proof.
  unfold image. destruct (os_size fs p) as [n|] eqn:En; [|done]. destruct (os_open fs p) as [k|]; [|done].
  destruct (read_file_and_strip _ _ _ _ _) as [[b [[m ?]|]]|]; try done. intros [= <-]. exists n. split; [done|].
  pose proof (fs_size _ Hfs _ _ En). rewrite !length_take. lia.
Qed.

Lemma keeps_file_recv data peer bcast : file_message_true fs data → keeps (handle_file_recv cfg fs data peer bcast).
Proof.
  intros (p & strip & c & -> & Hp & Him). destruct (image_facts _ _ _ Him) as (n & Hn & Hlen).
  destruct (decode_packet_true p c strip Hp ltac:(lia)) as (k & Hdec & Hdrop).
  unfold handle_file_recv. rewrite Hdec. intros s x s' Hs E. apply bind_inv in E as (y & s0 & [= <- <-] & E).
  cbv beta iota in E. apply bind_inv in E as ([[buf l] al] & s1 & E1 & E). cbv beta iota in E. rewrite Hdrop in E.
  assert (known_file fs (dir_part p) (file_part p)) as Hk.
  { right. exists n. by rewrite (path_parts _ Hp). }
  apply setup_ok in E1; [|done|done|done]. destruct buf as [a|].
  2:{ revert E. apply keeps_bind; [keep| |done]. intros []; [|keep]. apply keeps_bind; [by apply keeps_send|keep]. }
  destruct E1 as (s0 & Hs0 & Hl & Hcn & -> & Hst). rewrite take_ge in E by lia.
  apply bind_inv in E as (y & s2 & E2 & E). apply assert_inv in E2 as [_ [= _ ->]].
  apply bind_inv in E as (y' & s2 & [= _ <-] & E). apply bind_inv in E as ([r a'] & s2 & E3 & E).
  eapply (load_done cfg fs Hfs _ s0 p l strip _ (Z.of_nat (length c)) c) in E3 as (-> & Hs2 & Hr); try done; try lia.
  2:{ rewrite Hst. unfold pending. cbn. by rewrite insert_insert_eq. }
  2:{ by rewrite Nat2Z.id, take_ge by done. }
  cbn [Z.eqb] in E. rewrite Nat2Z.id, take_ge in Hr by done. apply bind_inv in E as (r1 & s3 & E3 & E).
  eapply broadcast_file_ok in E3; [|exact Hs2|exact Hp|exact Hr|exact Him].
  revert E. apply keeps_bind; [keep|keep|done].
Qed.

Lemma keeps_selfload data :
  (∃ p, data = p ++ [NUL] ∧ path_ok p) → keeps (handle_recv_selfload_file cfg fs data).
Proof.
  intros (p & -> & Hp). unfold handle_recv_selfload_file. apply keeps_assert_bind. intros _.
  rewrite cstr_app_nul by apply Hp. apply keeps_bind; [apply keeps_send_msg_to_keys; by exists p|].
  intros r. apply keeps_bind; [keep|]. intros n.
  assert (∀ nc, keeps (selfload_from cfg fs n nc p)) as Hn.
  { induction n as [|n IH]; intros nc; cbn [selfload_from]; keep. }
  keep.
Qed.

#[local] Hint Resolve keeps_cache_metadata keeps_cache_ldso keeps_broadcast_metadata : keeps.

Lemma keeps_metadata_recv data t : keeps (handle_metadata_recv cfg fs data t).
Proof. unfold handle_metadata_recv. keep. Qed.

Lemma keeps_preload_done : keeps (handle_preload_done cfg fs).
Proof.
  unfold handle_preload_done. apply keeps_bind; [keep|]. intros _. apply keeps_bind; [by apply keeps_send|keep].
Qed.

#[local] Hint Resolve keeps_preload_done keeps_metadata_recv keeps_metadata_request_recv : keeps.

(** The list is read name by name. *)
Lemma keeps_preload_names {B} ps (rest : bytes) (load : bytes → M Z) (k : Z * bytes → M B) :
  Forall (λ p, no_nul p = true ∧ keeps (load p)) ps → (∀ z, keeps (k (z, rest))) →
  keeps (bind (preload_names cfg (length ps) (concat ((λ p, p ++ [NUL]) <$> ps) ++ rest) load) k).
Proof.
  intros Hps. revert B k. induction Hps as [|p ps [Hnul Hload] _ IH]; intros B k Hk; cbn [preload_names length].
  - intros s x s' Hs E. apply bind_inv in E as (y & s1 & [= <- <-] & E). by eapply Hk.
  - rewrite fmap_cons. cbn [concat]. rewrite <- !app_assoc. cbn [app].
    set (tail := concat _ ++ rest) in *. intros s x s' Hs E. apply bind_inv in E as (y & s1 & E1 & E).
    apply bind_inv in E1 as ([p1 rest1] & s2 & E2 & E1). apply lift_option_inv in E2 as [E2 Es]. cbn in E2, Es. subst s2.
    unfold next_name in E2. unfold has_nul in E2. rewrite no_nul_app, andb_false_r in E2. cbn [negb] in E2.
    rewrite cstr_app_nul in E2 by done.
    assert (drop (S (length p)) (p ++ NUL :: tail) = tail) as Edrop.
    { rewrite cons_middle, app_assoc. apply drop_app_length'. rewrite length_app. simpl. lia. }
    rewrite Edrop in E2. injection E2 as <- <-. apply bind_inv in E1 as (r & s2 & E3 & E1).
    assert (server_ok s2) as Hs2.
    { destruct (responsible cfg); [by eapply Hload|by injection E3 as _ <-]. }
    apply bind_inv in E1 as (r1 & s3 & E4 & E1). injection E1 as Ey <-.
    eapply (IH B (λ r1, k (if (r =? -1) || (fst r1 =? -1) then -1 else 0, snd r1)));
      [intros z; apply Hk|exact Hs2|]. unfold bind. rewrite E4. by rewrite Ey.
Qed.

Lemma keeps_preload_filelist data : preload_true data → keeps (handle_preload_filelist cfg fs data).
Proof.
  intros (dirs & files & -> & Hd & Hf & Hnd & Hnf). unfold handle_preload_filelist.
  apply keeps_assert_bind. intros _.
  set (text := concat _). set (l1 := le32 (Z.of_nat (length dirs))). set (l2 := le32 (Z.of_nat (length files))).
  assert (rd_i32 (l1 ++ l2 ++ text) 0 = Z.of_nat (length dirs)) as -> by (apply (rd_i32_le32 []); [done|lia]).
  assert (rd_i32 (l1 ++ l2 ++ text) 4 = Z.of_nat (length files)) as -> by (apply (rd_i32_le32 l1); [done|lia]).
  assert (drop 8 (l1 ++ l2 ++ text) = text) as -> by (rewrite app_assoc; by apply drop_app_length').
  rewrite !Nat2Z.id. unfold text. rewrite fmap_app, concat_app.
  apply keeps_preload_names.
  { eapply Forall_impl; [exact Hd|]. intros d Hdok. split; [apply Hdok|]. unfold preload_dir. keep. }
  intros z. cbn [snd]. rewrite <- (app_nil_r (concat _)). apply keeps_preload_names.
  { eapply Forall_impl; [exact Hf|]. intros p Hp. split; [apply Hp|]. keep. }
  intros z2. keep.
Qed.

(** ** Dispatch *)

Lemma keeps_single_message fuel peer t data :
  single_message_true fs t data → keeps (handle_server_message cfg fs fuel peer t data).
Proof.
  intros Ht. destruct fuel; cbn [handle_server_message]; destruct t; cbn in Ht;
    first [apply keeps_ret | by apply keeps_directory_recv | by apply keeps_file_recv | by apply keeps_file_errcode
          | by apply keeps_request | by apply keeps_preload_filelist | by apply keeps_selfload
          | by apply keeps_alias_recv | apply keeps_preload_done | apply keeps_metadata_recv
          | by apply keeps_metadata_request_recv | done].
Qed.

(** A server that handles a true message stays true. *)
Lemma keeps_server_message fuel peer t data :
  message_true t data → keeps (handle_server_message cfg fs fuel peer t data).
Proof.
  destruct (decide (t = LDCS_MSG_BUNDLE)) as [-> | Hne].
  - intros Ht. destruct fuel as [|fuel]; [done|]. cbn [handle_server_message].
    apply keeps_bind; [keep|]. intros _. apply keeps_lift_bind. intros msgs Hm. specialize (Ht _ Hm).
    apply keeps_bind; [|keep]. clear Hm. induction Ht as [|[t' d'] msgs H _ IH]; cbn [handle_all]; [keep|].
    apply keeps_bind; [by apply keeps_single_message|keep].
  - intros Ht. apply keeps_single_message. by destruct t.
Qed.

(** The path that a query of a client is about is well formed. *)
Definition client_message_ok (s : server) (nc : nat) (t : ldcs_message_ids_t) (data : bytes) : Prop :=
  ∀ c, client_table s !! nc = Some c →
  match t with
  | LDCS_MSG_FILE_QUERY | LDCS_MSG_FILE_QUERY_EXACT_PATH | LDCS_MSG_DSO_QUERY
  | LDCS_MSG_DSO_QUERY_EXACT_PATH | LDCS_MSG_STAT_QUERY | LDCS_MSG_LSTAT_QUERY
  | LDCS_MSG_LOADER_DATA_REQ =>
      ∀ g, lookup_global_name (cachepath cfg) (normalized_tmpdir cfg) (names (st s)) (cstr data) = Some g →
        query_ok (os_cwd fs (remote_pid c)) (default (cstr data) g)
  | LDCS_MSG_EXISTS_QUERY => query_ok (os_cwd fs (remote_pid c)) (cstr data)
  | _ => True
  end.

Lemma open_query_ok name ex stat lstat loader dso c :
  query_ok (os_cwd fs (remote_pid c)) name →
  ∃ c1, open_query fs name ex stat lstat loader dso c = Some c1 ∧ client_ok c1 ∧ query_open c1 = true.
Proof.
  intros Hq. destruct (query_parse _ _ Hq) as (f & d & E & Hp & Ep). unfold open_query. rewrite E.
  cbn [mbind option_bind]. eexists. split; [done|]. split; [|done]. intros _. done.
Qed.

Lemma replace_client_ok (s : server) nc c c1 f x s' :
  server_ok s → client_table s !! nc = Some c → f c = Some c1 → client_ok c1 →
  replace_client nc f s = Some (x, s') → server_ok s'.
Proof.
  intros Hs Hc Hf Hc1 E. apply bind_inv in E as (c0 & s0 & E0 & E). apply get_client_inv in E0 as [E0 ->].
  rewrite Hc in E0. injection E0 as <-. rewrite Hf in E. apply bind_inv in E as (c2 & s0 & [= <- <-] & E).
  eapply (keeps_with_client cfg fs nc); [|exact Hs|exact E]. done.
Qed.

Lemma file_request_ok (s : server) nc t data x s' :
  server_ok s →
  (∀ c g, client_table s !! nc = Some c →
     lookup_global_name (cachepath cfg) (normalized_tmpdir cfg) (names (st s)) data = Some g →
     query_ok (os_cwd fs (remote_pid c)) (default data g)) →
  handle_client_file_request cfg fs nc t data s = Some (x, s') → server_ok s'.
Proof.
  intros Hs Hok E. apply bind_inv in E as (g & s0 & [= <- <-] & E). apply bind_inv in E as (gn & s0 & E0 & E).
  apply lift_option_inv in E0 as [E0 Es]. cbn in E0, Es. subst s0. apply bind_inv in E as (y & s1 & E1 & E).
  eapply keeps_client_progress; [done| |exact E].
  pose proof E1 as E2. apply bind_inv in E2 as (c & s2 & E2 & _). apply get_client_inv in E2 as [Hc ->].
  destruct (open_query_ok (default data gn) (existance_query c)
    match t with LDCS_MSG_STAT_QUERY | LDCS_MSG_LSTAT_QUERY => true | _ => false end
    match t with LDCS_MSG_LSTAT_QUERY => true | _ => false end
    match t with LDCS_MSG_LOADER_DATA_REQ => true | _ => false end
    match t with LDCS_MSG_DSO_QUERY | LDCS_MSG_DSO_QUERY_EXACT_PATH => true | _ => false end c
    (Hok _ _ Hc E0)) as (c1 & Eq & Hc1 & _).
  refine (replace_client_ok _ _ _ c1 _ _ _ Hs Hc _ Hc1 E1). exact Eq.
Qed.

Lemma fileexist_msg_ok (s : server) nc data x s' :
  server_ok s → (∀ c, client_table s !! nc = Some c → query_ok (os_cwd fs (remote_pid c)) data) →
  handle_client_fileexist_msg cfg fs nc data s = Some (x, s') → server_ok s'.
Proof.
  intros Hs Hok E. apply bind_inv in E as (y & s1 & E1 & E).
  eapply keeps_client_progress; [done| |exact E].
  pose proof E1 as E2. apply bind_inv in E2 as (c & s2 & E2 & _). apply get_client_inv in E2 as [Hc ->].
  destruct (open_query_ok data true (is_stat c) (is_lstat c) (is_loader c) (is_dso c) c (Hok _ Hc))
    as (c1 & Eq & Hc1 & Hq1).
  eapply (λ k, replace_client_ok _ _ _ k _ _ _ Hs Hc); [| |exact E1]; [cbv beta; rewrite Eq; reflexivity|].
  intros _. cbn. destruct (Hc1 Hq1) as [Hp Hparse]. rewrite take_ge; [done|].
  pose proof (path_len _ Hp). unfold MAX_PATH_LEN in *. lia.
Qed.

Lemma keeps_origpath nc data : keeps (handle_client_origpath_msg cfg nc data).
Proof. unfold handle_client_origpath_msg. keep. by apply keeps_other_answer. Qed.

Lemma keeps_client_end nc : keeps (handle_client_end nc).
Proof. unfold handle_client_end. keep. by apply keeps_with_client. Qed.

Lemma keeps_connect id pid : keeps (connect_client id pid).
Proof.
  intros s x s' [H1 H2 H3 H4] [= _ <-]. constructor; [done|done| |done]. cbn.
  destruct (first_free (client_table s)) as [nc|].
  - apply Forall_lookup. intros i c Hc. rewrite Forall_lookup in H3.
    destruct (decide (i = nc)) as [-> | Hne]; [|rewrite list_lookup_alter_ne in Hc by done; by eapply H3].
    rewrite list_lookup_alter_eq in Hc. by apply fmap_Some in Hc as (c0 & _ & ->).
  - apply Forall_app. split; [done|]. by apply Forall_singleton.
Qed.

Lemma keeps_info nc t data : keeps (handle_client_info_msg nc t data).
Proof. unfold handle_client_info_msg. keep. by apply keeps_with_client. Qed.

Lemma keeps_set_pickone p : keeps (modify (set_pickone p)).
Proof. intros s x s' [H1 H2 H3 H4] [= _ <-]. by constructor. Qed.

#[local] Hint Resolve keeps_set_pickone : keeps.

(** The answers with information for clients. *)
Lemma keeps_answers nc :
  keeps (handle_pythonprefix_query cfg nc) ∧ keeps (handle_client_dirlists_req cfg nc) ∧
  keeps (handle_client_myrankinfo_msg cfg nc) ∧ keeps (handle_chosen_cachepath_request cfg nc) ∧
  (∀ data, keeps (handle_client_procmaps_msg fs nc data)) ∧ (∀ data, keeps (handle_client_pickone_msg cfg nc data)).
Proof.
  split_and!; intros.
  1: unfold handle_pythonprefix_query.
  2: unfold handle_client_dirlists_req.
  3: unfold handle_client_myrankinfo_msg.
  4: unfold handle_chosen_cachepath_request.
  5: unfold handle_client_procmaps_msg.
  6: unfold handle_client_pickone_msg, handle_client_pickone_resp.
  all: keep; by apply keeps_other_answer.
Qed.

(** A server that handles a well formed query stays true. *)
Lemma client_message_true (s : server) nc t data x s' :
  server_ok s → client_message_ok s nc t data → handle_client_message cfg fs nc t data s = Some (x, s') →
  server_ok s'.
Proof.
  intros Hs Hok E. unfold handle_client_message in E. unfold client_message_ok in Hok.
  destruct (keeps_answers nc) as (K1 & K2 & K3 & K4 & K5 & K6).
  destruct t; try done; try (by injection E as _ <-);
    try (first [exact (keeps_client_end _ _ _ _ Hs E) | exact (keeps_info _ _ _ _ _ _ Hs E) | exact (K1 _ _ _ Hs E) |
                exact (K2 _ _ _ Hs E) | exact (K3 _ _ _ Hs E) | exact (K4 _ _ _ Hs E) | exact (K5 _ _ _ _ Hs E) |
                exact (K6 _ _ _ _ Hs E)]);
    (apply bind_inv in E as (y & s1 & E1 & E); apply assert_inv in E1 as [_ [= _ ->]]);
    first [by eapply keeps_origpath | by eapply fileexist_msg_ok | eapply file_request_ok; [exact Hs| |exact E]];
    intros c g Hc Hg; by eapply Hok.
Qed.

End messages.
End TruthMessages.
