(* ===== verification/Network.v ===== *)
(** * What the servers say is true: the tree of servers

    The servers of [Handlers] run on the ranks of a tree ([RankTree], which the
    COBO tree provides) and see the same file system.  The system is a step
    relation over all servers and the messages in flight; messages may overtake
    each other, and may be bundled.  In every reachable state everything that the
    servers have told their clients and each other is true. *)

From Stdlib Require Import Ascii String ZArith Lia.
From stdpp Require Import strings numbers gmap list.
From S2P Require Import Prelude Bytes Requestors Cobo Message Msgbundle Cache GlobalName Pathfn Parseloc ElfRead Mounts Server Handlers Truth TruthLoad TruthHandlers TruthAnswers TruthMessages.
Import Cache GlobalName Pathfn Parseloc ElfRead Mounts Server Handlers Truth TruthLoad TruthHandlers TruthAnswers TruthMessages.

Module Network.

(** ** The system *)

(** What the local disk and the processes of a node do. *)
Record local_disk := mk_local_disk {
  local_create : bytes → bool;
  local_sync : bytes → sync_result;
  local_write : bytes → bool;
  local_cwd : Z → option bytes;
  local_proc_maps : Z → option bytes;
}.

(** The shared file systems, and the local disk of a node. *)
Definition on_node (fs : os) (l : local_disk) : os :=
  mk_os (os_readdir fs) (os_realpath fs) (os_size fs) (os_open fs) (os_stat fs) (os_ldso fs)
    (local_create l) (local_sync l) (local_write l) (local_cwd l) (local_proc_maps l).

Section network.
Context {RT : Type} `{RS : RequestorStore RT}.
Context {T : RankTree}.
(** The handles under which a parent knows a child, and a child its parent. *)
Variable peer_of : Z → node_peer_t.
Variable parent_peer : node_peer_t.
Variable cfg : Z → config.
Variable fs : os.
Variable local : Z → local_disk.

Abbreviation server := (server RT).
Abbreviation node r := (on_node fs (local r)).

(** Receiver, the sender as the receiver knows it, and the message. *)
Abbreviation packet := (Z * node_peer_t * ldcs_message_t)%type.

Record network := mk_network {
  servers : Z → server;
  flight : list packet;
}.

(** Where an output of rank [r] goes. *)
Definition routes (r : Z) (o : output) : list packet :=
  match o with
  | ToPeer p m => (λ c, (c, parent_peer, m)) <$> filter (λ c, peer_of c = p) (rt_children r)
  | Broadcast m => (λ c, (c, parent_peer, m)) <$> rt_children r
  | ToParent m => if r =? 0 then [] else [(rt_parent r, peer_of r, m)]
  | ToClient _ _ _ | Trash _ _ => []
  end.

(** What a server has sent since it was in state [s]. *)
Definition sent (s s' : server) : list output := drop (length (out s)) (out s').

(** Rank [r] goes to state [s']; [l] is what was in flight and still is. *)
Definition after (N : network) (r : Z) (s' : server) (l : list packet) : network :=
  mk_network (λ i, if decide (i = r) then s' else servers N i)
    (l ++ (sent (servers N r) s' ≫= routes r)).

Inductive step : network → network → Prop :=
  (** a message arrives *)
  | step_message N r p m l1 l2 x s' : 0 <= r < rt_size → flight N = l1 ++ (r, p, m) :: l2 →
      handle_server_message (cfg r) (node r) 1 p (msg_type m) (default [] (msg_data m)) (servers N r) = Some (x, s') →
      step N (after N r s' (l1 ++ l2))
  (** messages arrive in a bundle *)
  | step_bundle N r p ms data l x s' : 0 <= r < rt_size → flight N ≡ₚ ((λ m, (r, p, m)) <$> ms) ++ l →
      Msgbundle.handle_msgbundle data = Some ((λ m, (msg_type m, default [] (msg_data m))) <$> ms) →
      handle_server_message (cfg r) (node r) 1 p LDCS_MSG_BUNDLE data (servers N r) = Some (x, s') →
      step N (after N r s' l)
  (** the front end sends the root what to load *)
  | step_preload N p data x s' : preload_true data →
      handle_server_message (cfg 0) (node 0) 1 p LDCS_MSG_PRELOAD_FILELIST data (servers N 0) = Some (x, s') →
      step N (after N 0 s' (flight N))
  (** a client connects *)
  | step_connect N r id pid x s' : 0 <= r < rt_size → connect_client id pid (servers N r) = Some (x, s') →
      step N (after N r s' (flight N))
  (** a client sends a query *)
  | step_client N r nc t data x s' : 0 <= r < rt_size → client_message_ok (cfg r) (node r) (servers N r) nc t data →
      handle_client_message (cfg r) (node r) nc t data (servers N r) = Some (x, s') →
      step N (after N r s' (flight N)).

(** A server that knows nothing; old files may be on its disk. *)
Definition fresh (s : server) : Prop :=
  cache (st s) = ∅ ∧ maps (st s) = ∅ ∧ EMPTY_FILE_PTR < next_buffer (st s) ∧ out s = [] ∧
  Forall (λ c, query_open c = false) (client_table s).

Inductive reachable : network → Prop :=
  | reach_init N : (∀ r, fresh (servers N r)) → flight N = [] → reachable N
  | reach_step N N' : reachable N → step N N' → reachable N'.

(** ** The invariant *)

Hypothesis Hfs : ∀ r, fs_ok (node r).
Hypothesis Hcp : ∀ r, no_nul (cachepath (cfg r)) = true.

Record network_true (N : network) : Prop := mk_network_true {
  true_servers r : server_ok (node r) (cfg r) (servers N r);
  true_flight : Forall (λ k : packet, single_message_true fs (msg_type k.2) (default [] (msg_data k.2))) (flight N);
}.

Lemma fresh_true r (s : server) : fresh s → server_ok (node r) (cfg r) s.
Proof.
  intros (Hc & Hm & Hn & Ho & Hcl). constructor; [| | |apply Hcp].
  - constructor; [|done|by intros a l; rewrite Hm]. rewrite Hc. constructor.
    + apply cache_wf_empty.
    + intros d f e. by rewrite lookup_empty.
    + intros d e. by rewrite lookup_empty.
  - rewrite Ho. constructor.
  - eapply Forall_impl; [exact Hcl|]. intros c Hq Hq2. congruence.
Qed.

Lemma routes_true r dk o :
  output_true (node r) (cfg r) dk o →
  Forall (λ k : packet, single_message_true fs (msg_type k.2) (default [] (msg_data k.2))) (routes r o).
Proof.
  intros Ho. destruct o as [nc q m|p m|m|m|p n]; cbn [routes]; [constructor| | | |constructor].
  - apply Forall_fmap, Forall_forall. intros c _. exact Ho.
  - apply Forall_fmap, Forall_forall. intros c _. exact Ho.
  - destruct (r =? 0); [constructor|]. apply Forall_singleton. exact Ho.
Qed.

Lemma after_true N r s' l :
  network_true N → server_ok (node r) (cfg r) s' → l ⊆ flight N → network_true (after N r s' l).
Proof.
  intros [Hs Hf] Hs' Hl. constructor; cbn.
  - intros i. destruct (decide (i = r)) as [-> | _]; [done|apply Hs].
  - apply Forall_app. split.
    + rewrite Forall_forall in *. eauto.
    + apply Forall_bind. unfold sent. apply Forall_drop. eapply Forall_impl; [exact (ok_out _ _ _ Hs')|].
      intros o. apply routes_true.
Qed.

Lemma step_true N N' : network_true N → step N N' → network_true N'.
Proof.
  intros HN Hst. pose proof (true_servers _ HN) as Hs. pose proof (true_flight _ HN) as Hf.
  destruct Hst as [N r p m l1 l2 x s' Hr Hfl E|N r p ms data l x s' Hr Hfl Hd E|N p data x s' Hd E|N r id cwd x s' Hr E|N r nc t data x s' Hr Hok E].
  - rewrite Hfl in Hf. apply after_true; [done| |rewrite Hfl; set_solver].
    eapply (keeps_single_message _ _ (Hfs r)); [|apply Hs|exact E].
    apply Forall_app in Hf as [_ Hf]. by apply Forall_cons in Hf as [Hm _].
  - rewrite Hfl in Hf. apply after_true; [done| |rewrite Hfl; set_solver].
    eapply (keeps_server_message _ _ (Hfs r)); [|apply Hs|exact E].
    intros msgs. rewrite Hd. intros [= <-]. apply Forall_app in Hf as [Hf _].
    apply Forall_fmap in Hf. apply Forall_fmap. exact Hf.
  - apply after_true; [done| |done]. eapply (keeps_single_message _ _ (Hfs 0)); [|apply Hs|exact E]. exact Hd.
  - apply after_true; [done| |done]. by eapply keeps_connect.
  - apply after_true; [done| |done]. by eapply (client_message_true _ _ (Hfs r)).
Qed.

Lemma reachable_true N : reachable N → network_true N.
Proof.
  induction 1 as [N Hf Hl|N N' _ IH Hst]; [|by eapply step_true].
  constructor; [intros r; by apply fresh_true|]. rewrite Hl. constructor.
Qed.

(** ** Running the system *)

(** The oldest message arrives. *)
Definition deliver_first (N : network) : network :=
  match flight N with
  | (r, p, m) :: l =>
      if (0 <=? r) && (r <? rt_size) then
        match handle_server_message (cfg r) (node r) 1 p (msg_type m) (default [] (msg_data m)) (servers N r) with
        | Some (_, s') => after N r s' l
        | None => N
        end
      else N
  | [] => N
  end.

Lemma deliver_first_reachable N : reachable N → reachable (deliver_first N).
Proof.
  intros HN. unfold deliver_first. destruct (flight N) as [|[[r p] m] l] eqn:Ef; [done|].
  destruct (_ && _) eqn:Er; [|done]. destruct (handle_server_message _ _ _ _ _ _ _) as [[x s']|] eqn:E; [|done].
  bool_to_prop. eapply reach_step; [exact HN|]. by eapply (step_message N r p m [] l).
Qed.

Lemma deliver_reachable n N : reachable N → reachable (Nat.iter n deliver_first N).
Proof. intros HN. induction n as [|n IH]; cbn; [done|]. by apply deliver_first_reachable. Qed.

(** The client [nc] of rank [r] sends a query. *)
Definition query (N : network) (r : Z) (nc : nat) (t : ldcs_message_ids_t) (data : bytes) : network :=
  match handle_client_message (cfg r) (node r) nc t data (servers N r) with
  | Some (_, s') => after N r s' (flight N)
  | None => N
  end.

Lemma query_reachable N r nc t data :
  reachable N → 0 <= r < rt_size → client_message_ok (cfg r) (node r) (servers N r) nc t data →
  reachable (query N r nc t data).
Proof.
  intros HN Hr Hok. unfold query. destruct (handle_client_message _ _ _ _ _ _) as [[x s']|] eqn:E; [|done].
  eapply reach_step; [exact HN|]. by eapply step_client.
Qed.

End network.

(** ** Everything that is said is true *)



(** ** An example *)

Existing Instance Requestors.table_store.

Definition ex_path : bytes := lit "/lib/a.txt".
Definition ex_text : bytes := lit "hello, world".

Definition ex_fs : os := mk_os
  (λ d, if bool_decide (d = lit "/lib") then Some [(lit ".", DT_DIR); (lit "..", DT_DIR); (lit "a.txt", DT_REG)]
        else None)
  (λ p, if bool_decide (p = ex_path) then Some ex_path else None)
  (λ p, if bool_decide (p = ex_path) then inl (Z.of_nat (length ex_text)) else inr ENOENT)
  (λ p, if bool_decide (p = ex_path) then inl ex_text else inr ENOENT)
  (λ _ _, None) (λ _, None) (λ _, true) (λ _, SyncSame) (λ _, true) (λ _, None) (λ _, None).

Definition ex_local (_ : Z) : local_disk := mk_local_disk (λ _, true) (λ _, SyncSame) (λ _, true) (λ _, None) (λ _, None).

Definition ex_config (r : Z) : config :=
  mk_config false false true LDCS_PULL r [] (lit "/tmp/spindle") (lit "/var/tmp/spindle") None 2 [] [] [] (Some (lit "/tmp/spindle")).

Definition ex_client : client :=
  mk_client 7 LDCS_CLIENT_STATUS_ACTIVE 100 false false false false false false [] [] [] None [].

Definition ex_server : server Requestors.table :=
  let e := Requestors.new_requestor_list in
  mk_server (mk_store ∅ (mk_stat_cache ∅ ∅ ∅) init_global_name_list ∅ (EMPTY_FILE_PTR + 1) ∅)
    (mk_requests e e e e (mk_md_lists e e e) (mk_md_lists e e e) false) false false [ex_client] [] 1 ∅.

Definition ex_tree : RankTree := Cobo.cobo_rank_tree 2 ltac:(lia).
Existing Instance ex_tree.
Definition ex_peer (c : Z) : node_peer_t := 100 + c.

Definition ex_start : network := mk_network (λ _, ex_server) [].
Definition ex_asked : network :=
  query ex_peer 99 ex_config ex_fs ex_local ex_start 1 0 LDCS_MSG_FILE_QUERY (lit "/lib//a.txt" ++ [NUL]).
Definition ex_end : network := Nat.iter 6 (deliver_first ex_peer 99 ex_config ex_fs ex_local) ex_asked.

Lemma ex_path_is_ok : path_ok ex_path.
Proof. constructor; vm_compute; (reflexivity || discriminate). Qed.

Lemma ex_fs_ok r : fs_ok (on_node ex_fs (ex_local r)).
Proof.
  constructor; cbn -[bool_decide Z.of_nat].
  - intros p q. case_bool_decide; [|done]. intros [= <-]. apply ex_path_is_ok.
  - intros p e [H | H]; case_bool_decide; simplify_eq; unfold ENOENT; lia.
  - intros p n. case_bool_decide; [|done]. intros [= <-]. split; [lia|by vm_compute].
  - intros d l. case_bool_decide; [|done]. by intros [= <-].
  - intros d. case_bool_decide; cbn; repeat constructor; vm_compute; (reflexivity || discriminate).
  - intros p n c strip. case_bool_decide; [|done]. intros [= <-] [= <-].
    destruct strip; do 3 eexists; (split; [vm_compute; reflexivity|]); vm_compute; (split; [split|]); congruence.
  - done.
Qed.

Lemma ex_asked_reachable : reachable ex_peer 99 ex_config ex_fs ex_local ex_asked.
Proof.
  apply query_reachable.
  - apply reach_init; [|done]. intros r. repeat split; try done. by repeat constructor.
  - vm_compute. split; [discriminate|done].
  - intros c [= <-] g Hg. assert (g = None) as ->.
    { vm_compute in Hg. by injection Hg. }
    split; [by vm_compute|]. exists []. repeat split; try done.
Qed.

Lemma ex_answered_reachable : reachable ex_peer 99 ex_config ex_fs ex_local ex_end.
Proof. apply deliver_reachable, ex_asked_reachable. Qed.


Definition ex_listed : network := deliver_first ex_peer 99 ex_config ex_fs ex_local ex_asked.


End Network.
