(* ===== verification/RootAnswers.v ===== *)
(** * The root answers every query

    The server at the root of the tree reads what it does not know.  This file
    shows that [handle_client_progress] always comes to an answer there: it reads
    the directory, the file, the target of a link and its directory, in at most
    six rounds, and answers the client exactly once. *)

From Stdlib Require Import Ascii String ZArith Lia.
From stdpp Require Import strings numbers gmap list.
From S2P Require Import Prelude Bytes Requestors Message Msgbundle Cache GlobalName Pathfn Parseloc ElfRead Mounts Server Handlers Truth TruthLoad TruthHandlers TruthAnswers TruthMessages Network.
Import Cache GlobalName Pathfn Parseloc ElfRead Mounts Server Handlers Truth TruthLoad TruthHandlers TruthAnswers TruthMessages Network.

Open Scope handler_scope.

Module RootAnswers.

(** ** What a server says to others on the way *)

Definition to_server (o : output) : Prop :=
  match o with ToClient _ _ _ => False | _ => True end.

Section root.
Context {RT : Type} `{RS : RequestorStore RT}.
Variable cfg : config.
Variable fs : os.

Abbreviation M := (M RT).
Abbreviation server := (server RT).
Abbreviation server_ok := (server_ok fs cfg).

(** From [s] to [s'] clients have been left alone; messages may have been sent. *)
Record calm (s s' : server) : Prop := mk_calm {
  calm_clients : client_table s' = client_table s;
  calm_preload : preload_done s' = preload_done s;
  calm_out : ∃ msgs, out s' = out s ++ msgs ∧ Forall to_server msgs;
}.

Lemma calm_refl s : calm s s.
Proof. constructor; [done|done|]. exists []. split; [by rewrite app_nil_r|constructor]. Qed.

Lemma calm_trans s1 s2 s3 : calm s1 s2 → calm s2 s3 → calm s1 s3.
Proof.
  intros [H1 H2 (m1 & E1 & F1)] [H3 H4 (m2 & E2 & F2)]. constructor; [congruence|congruence|].
  exists (m1 ++ m2). split; [by rewrite E2, E1, app_assoc|by apply Forall_app].
Qed.

Lemma calm_store s x : calm s (set_st x s).
Proof. constructor; [done|done|]. exists []. split; [by rewrite app_nil_r|constructor]. Qed.

(** The computation returns, leaves the store alone, and only sends to servers. *)
Definition tells {A} (m : M A) (x : A) : Prop :=
  ∀ s, ∃ s', m s = Some (x, s') ∧ calm s s' ∧ st s' = st s.

Lemma tells_ret {A} (x : A) : tells (ret x) x.
Proof. intros s. exists s. split; [done|]. split; [apply calm_refl|done]. Qed.

Lemma tells_bind {A B} (m : M A) (k : A → M B) x y : tells m x → tells (k x) y → tells (bind m k) y.
Proof.
  intros Hm Hk s. destruct (Hm s) as (s1 & E1 & C1 & S1). destruct (Hk s1) as (s2 & E2 & C2 & S2).
  exists s2. unfold bind. rewrite E1. split; [done|]. split; [by eapply calm_trans|congruence].
Qed.

Lemma tells_gets {A B} (f : server → A) (k : A → M B) y : (∀ s, tells (k (f s)) y) → tells (bind (gets f) k) y.
Proof. intros Hk s. exact (Hk s s). Qed.

Lemma tells_send o : to_server o → tells (send o) tt.
Proof.
  intros Ho s. eexists. split; [done|]. split; [|done]. constructor; [done|done|].
  exists [o]. split; [done|by apply Forall_singleton].
Qed.

Lemma tells_on_requests f : tells (on_requests f) tt.
Proof.
  intros s. eexists. split; [done|]. split; [|done]. constructor; [done|done|].
  exists []. split; [cbn; by rewrite app_nil_r|constructor].
Qed.

Lemma tells_to_nodes m key dso nodes : tells (send_to_nodes m key dso nodes) tt.
Proof.
  induction nodes as [|n nodes IH]; cbn [send_to_nodes]; [apply tells_ret|].
  apply (tells_bind _ _ tt); [|done]. destruct (_ || _); [apply tells_ret|].
  apply tells_gets. intros s. destruct (_ || _); [apply tells_ret|].
  apply (tells_bind _ _ tt); [by apply tells_send|apply tells_on_requests].
Qed.

Lemma tells_msg_to_keys m key force dso : tells (handle_send_msg_to_keys cfg m key force dso) 0.
Proof.
  assert (tells (send (Broadcast m);;; on_requests (set_done_broadcast true);;;
    add_completed dso key NODE_PEER_ALL;;; clear_requests dso key;;; ret 0) 0) as Hb.
  { repeat first [apply tells_ret | apply tells_send | apply (tells_bind _ _ tt) | apply tells_on_requests]; done. }
  unfold handle_send_msg_to_keys. apply tells_gets. intros s.
  destruct (_ && _); [apply tells_ret|]. destruct (dist_model cfg); [destruct force; [done|]|done].
  apply tells_gets. intros s1. destruct (if dso then _ else _); [|apply tells_ret].
  repeat first [apply tells_ret | apply tells_to_nodes | apply (tells_bind _ _ tt) | apply tells_on_requests].
Qed.

(** ** Reading a directory *)

Hypothesis Hfs : fs_ok fs.

Lemma read_directory_runs (s : server) d :
  server_ok s → dir_ok d → ∃ c1 s1, handle_read_directory fs d s = Some (0, s1) ∧
    s1 = set_st (set_cache c1 (st s)) s ∧ dir_known c1 d ∧
    (∀ d' f, d' ≠ d → c1 !! (d', f) = cache (st s) !! (d', f)).
Proof.
  intros Hs Hd. unfold handle_read_directory, bind, gets.
  assert (s = set_st (set_cache (cache (st s)) (st s)) s) as Heta by (destruct s as [[] ? ? ? ? ?]; done).
  unfold ldcs_cache_processDirectory, ldcs_cache_findDirInCache at 1.
  destruct (cache (st s) !! (d, [])) as [e0|] eqn:Hn.
  { exists (cache (st s)), s. split; [by destruct (_ =? _)|]. split; [done|]. split; [by exists e0|done]. }
  pose proof (cache_shape _ _ _ _ (store_cache _ _ (ok_store _ _ _ Hs))) as Hw.
  assert (∃ c1, lsAndCacheFiles (cache (st s)) d (os_readdir fs d) = Some c1 ∧ dir_known c1 d ∧
    ∀ d' f, d' ≠ d → c1 !! (d', f) = cache (st s) !! (d', f)) as (c1 & E1 & Hk & Ho).
  { unfold lsAndCacheFiles. pose proof (visible_names_ok fs d Hfs) as Hv. destruct (os_readdir fs d) as [l|].
    - destruct (addFiles_spec (addDirectory (cache (st s)) d true) d _ (addDirectory_wf _ d true Hw)
        (addDirectory_known _ d true) (names_ok_ne _ Hv)) as (c1 & E1 & _ & Hk & _ & _ & Ho & _).
      exists c1. split; [done|]. split; [done|]. intros d' f Hne. rewrite Ho; [|congruence|by right].
      apply addDirectory_other. congruence.
    - exists (addDirectory (cache (st s)) d false). split; [done|]. split; [apply addDirectory_known|].
      intros d' f Hne. apply addDirectory_other. congruence. }
  rewrite E1. cbn [mbind option_bind]. exists c1. eexists. cbn. split; [|split_and!; done].
  unfold ret. destruct Hk as [e He]. unfold ldcs_cache_findDirInCache. rewrite He. by destruct (_ =? _).
Qed.

Lemma broadcast_dir_runs (s : server) d b :
  dir_ok d → dir_known (cache (st s)) d →
  ∃ s', handle_broadcast_dir cfg d b s = Some (0, s') ∧ calm s s' ∧ st s' = st s.
Proof.
  intros Hd [de Hde]. unfold handle_broadcast_dir, bind, gets, ldcs_cache_encodeDirContents. rewrite Hde.
  pose proof (dir_len _ Hd) as Hl. unfold MAX_PATH_LEN in Hl.
  rewrite (proj2 (Z.ltb_lt _ _)) by (unfold INITIAL_BUFFER_SIZE; lia). cbn.
  destruct b; apply tells_msg_to_keys.
Qed.

(** ** Reading a file *)

(** There is a name and room for one more local file. *)
Definition room (s : store) (p : bytes) : Prop :=
  ∀ strip : bool, ∃ g l,
    name_file (cachepath cfg) (normalized_tmpdir cfg) (names s) p (if strip then clt_dso else clt_file) = Some (g, l) ∧
    disk s !! l = None ∧ Z.of_nat (length l) < MAX_PATH_LEN.

(** The cache can answer for the entry. *)
Definition settled (e : entry_t) (dso : bool) : Prop :=
  errcode e ≠ 0 ∨ path (file_contents e) ≠ [] ∨ dso = true ∧ path (dso_contents e) ≠ [].

Hypothesis Hcreate : ∀ l, os_create fs l = true.

Lemma setup_runs (s : server) p size (strip : bool) e g l :
  cache (st s) !! (dir_part p, file_part p) = Some e →
  path (contents_for e (if strip then LDCS_CACHE_FILEOBJ_EITHER else LDCS_CACHE_FILEOBJ_FILE)) = [] →
  name_file (cachepath cfg) (normalized_tmpdir cfg) (names (st s)) p (if strip then clt_dso else clt_file) = Some (g, l) →
  disk (st s) !! l = None → Z.of_nat (length l) < MAX_PATH_LEN →
  handle_setup_file_buffer cfg fs p size strip s
  = Some ((Some (if size =? 0 then EMPTY_FILE_PTR else next_buffer (st s)), l, false),
          set_st (pending (set_names g (st s)) p l strip size (replicate (Z.to_nat size) NUL)) s).
Proof.
  intros He Hpath Hname Hl Hlen. unfold handle_setup_file_buffer, pending.
  destruct (parse p) as [f d] eqn:Epd. cbn [fst snd] in *.
  unfold bind, gets, ldcs_cache_findFileDirInCache. rewrite He, Hpath. cbn [or_null]. unfold ret at 1.
  unfold new_local_name, bind, gets, lift_option. rewrite Hname. unfold ret at 1.
  unfold filemngt_create_file_space, bind, gets, on_store, modify, ret. cbn [st set_st set_names disk].
  rewrite Hl, Hcreate. rewrite (proj2 (Z.ltb_lt _ _)) by done. cbn [andb].
  by destruct (size =? 0).
Qed.

Lemma read_file_total (s : server) p l size strip :
  os_size fs p = inl size → ∃ r, filemngt_read_file fs p l size strip s = Some r.
Proof.
  intros Hsz. unfold filemngt_read_file. destruct (os_open fs p) as [c|e] eqn:Eo; [|by eexists].
  destruct (fs_read _ Hfs _ _ _ strip Hsz Eo) as (b & n & elf & Er & _).
  unfold bind, lift_option. rewrite Er. by eexists.
Qed.

Lemma finish_total (s : server) s0 p l strip size n data e was a :
  st s = pending s0 p l strip size data → Z.of_nat (length data) = size →
  e ≠ 0 ∨ n <= size ∧ (n = 0 → size = 0) →
  ∃ r, handle_finish_buffer_setup fs (Some l) p a size n e was s = Some r.
Proof.
  intros Hst Hlen Hn. unfold handle_finish_buffer_setup.
  destruct (parse p) as [f d]. destruct (negb (e =? 0)) eqn:Ee.
  { unfold bind, on_store, modify, ret. cbn. rewrite !orb_true_r. by eexists. }
  bool_to_prop. destruct Hn as [Hn | [Hn Hn0]]; [done|].
  unfold filemngt_sync_file_space. destruct ((size =? 0) || _) eqn:E.
  { unfold bind, ret, on_store, modify. destruct (_ || _ || _); by eexists. }
  unfold bind, on_store, modify, gets, write_file, on_store, modify, lift_option, assert_.
  rewrite (proj2 (Z.leb_le _ _)) by done. cbn. rewrite Hst. unfold pending. cbn [disk]. rewrite lookup_insert_eq.
  bool_to_prop. rewrite (proj2 (Z.eqb_neq n 0)) by lia. rewrite (fs_sync _ Hfs). cbn.
  destruct (_ || _ || _); by eexists.
Qed.

Lemma loaded_settled s0 p l strip c e :
  cache s0 !! (dir_part p, file_part p) = Some e → l ≠ [] →
  ∃ e', cache (loaded s0 p l strip c) !! (dir_part p, file_part p) = Some e' ∧ path (slot strip e') = l.
Proof.
  intros He Hl. unfold loaded, ldcs_cache_updateBuffer, update_entry. cbn [cache]. rewrite He. cbn [snd].
  rewrite lookup_insert_eq. eexists. split; [done|]. by destruct strip.
Qed.

Lemma failed_settled (c : cache_t) p n e was e0 dso :
  c !! (dir_part p, file_part p) = Some e0 → e ≠ 0 →
  ∃ e', snd (ldcs_cache_updateBuffer c (file_part p) (dir_part p) None 0 n e was) !! (dir_part p, file_part p)
    = Some e' ∧ settled e' dso.
Proof.
  intros He Hne. unfold ldcs_cache_updateBuffer, update_entry. rewrite He. cbn [snd].
  rewrite (proj2 (Z.eqb_neq _ _)) by done. cbn [negb]. rewrite lookup_insert_eq. eexists. split; [done|]. by left.
Qed.

Lemma tells_broadcast_result p b m : tells m 0 → tells (broadcast_result p b m) 0.
Proof.
  intros Hm. unfold broadcast_result. destruct b; [| |apply tells_ret].
  all: apply (tells_bind _ _ 0); [done|apply tells_ret].
Qed.

Lemma broadcast_file_runs (s : server) p a n was b c :
  read_mapping a n s = Some (c, s) →
  ∃ s', handle_broadcast_file cfg p a n was b s = Some (0, s') ∧ calm s s' ∧ st s' = st s.
Proof.
  intros Hr. unfold handle_broadcast_file, bind. rewrite Hr. destruct b; apply tells_msg_to_keys.
Qed.

(** The end of a load: what is in the cache is sent. *)
Lemma broadcast_result_runs (s : server) p b m :
  (∃ s', m s = Some (0, s') ∧ calm s s' ∧ st s' = st s) →
  ∃ s', broadcast_result p b m s = Some (0, s') ∧ calm s s' ∧ st s' = st s.
Proof.
  intros (s' & E & Hc & Hst). unfold broadcast_result, bind.
  destruct b; [| |exists s; split; [done|split; [apply calm_refl|done]]]; rewrite E; exists s'; done.
Qed.

Lemma pending_entry s0 p l strip size data e :
  cache s0 !! (dir_part p, file_part p) = Some e →
  is_Some (cache (pending s0 p l strip size data) !! (dir_part p, file_part p)).
Proof.
  intros He. unfold pending, ldcs_cache_updateBuffer, update_entry. cbn [cache]. rewrite He. cbn [snd].
  by rewrite lookup_insert_eq.
Qed.

(** What follows the setup of the local file. *)
Definition load_rest (p : bytes) (size : Z) (strip : bool) (b : broadcast_t) (buffer : Z) (localname : bytes) : M Z :=
  result <-- filemngt_read_file fs p localname size strip;;
  match result with
  | None => ret (-1)
  | Some (newsize, errcode, was_stripped) =>
      r <-- handle_finish_buffer_setup fs (Some localname) p buffer size newsize errcode was_stripped;;
      let '(result, buffer1) := r in
      if result =? -1 then ret (-1)
      else broadcast_result p b
             (if errcode =? 0 then handle_broadcast_file cfg p buffer1 newsize was_stripped b
              else handle_broadcast_errorcode cfg p errcode)
  end.

Lemma load_rest_runs (s1 : server) s0 p size strip dso b l e :
  store_ok fs s0 → os_size fs p = inl size → l ≠ [] → (strip = true → dso = true) →
  st s1 = pending s0 p l strip size (replicate (Z.to_nat size) NUL) →
  cache s0 !! (dir_part p, file_part p) = Some e →
  ∃ s', load_rest p size strip b (if size =? 0 then EMPTY_FILE_PTR else next_buffer s0) l s1 = Some (0, s') ∧
    calm s1 s' ∧ ∃ e', cache (st s') !! (dir_part p, file_part p) = Some e' ∧ settled e' dso.
Proof.
  intros Hs0 Hsz Hl Hstrip Hst He. pose proof (fs_size _ Hfs _ _ Hsz) as Hrange.
  destruct (read_file_total s1 p l size strip Hsz) as [[r s2] Er]. unfold load_rest, bind at 1. rewrite Er.
  apply (read_file_spec fs Hfs s1 s0 p l strip size _ r s2 Hsz Hst) in Er
    as (n & ec & was & -> & [(Hec & _ & ->) | (-> & data & -> & Hlen & Hn & Hn0 & Hwas & _)]).
  - destruct (finish_total s1 s0 p l strip size n _ ec was
      (if size =? 0 then EMPTY_FILE_PTR else next_buffer s0) Hst) as [[[r a'] s3] Ef];
      [rewrite length_replicate; lia|by left|].
    unfold bind at 1. rewrite Ef. apply finish_error in Ef as [-> ->]; [|done].
    rewrite (proj2 (Z.eqb_neq ec 0)) by done. cbn [Z.eqb].
    match goal with |- context [broadcast_result _ _ _ ?s3] => set (s3' := s3) end.
    destruct (broadcast_result_runs s3' p b (handle_broadcast_errorcode cfg p ec)) as (s' & E & Hc & Hst');
      [apply tells_msg_to_keys|].
    exists s'. split; [exact E|]. split; [eapply calm_trans; [apply calm_store|exact Hc]|].
    rewrite Hst'. cbn. rewrite Hst. destruct (pending_entry s0 p l strip size (replicate (Z.to_nat size) NUL) e He) as [e1 He1].
    by eapply failed_settled.
  - destruct (finish_total (set_st (pending s0 p l strip size data) s1) s0 p l strip size n data 0 was
      (if size =? 0 then EMPTY_FILE_PTR else next_buffer s0) eq_refl) as [[[r a'] s3] Ef]; [done|right; lia|].
    unfold bind at 1. rewrite Ef.
    pose proof (finish_spec fs Hfs (set_st (pending s0 p l strip size data) s1) s0 p l strip size n data was r a' s3 Hs0 eq_refl Hlen Hn Hn0 Hwas Ef)
      as (-> & -> & ->). cbn [Z.eqb].
    match goal with |- context [broadcast_result _ _ _ ?s3] => set (s3' := s3) end.
    assert (read_mapping (if size =? 0 then EMPTY_FILE_PTR else next_buffer s0) n s3'
      = Some (take (Z.to_nat n) data, s3')) as Hr.
    { pose proof (read_mapping_loaded s3' s0 p l strip (take (Z.to_nat n) data) eq_refl) as Hr.
      assert (Z.of_nat (length (take (Z.to_nat n) data)) = n) as Hln by (rewrite length_take; lia).
      rewrite Hln in Hr. destruct (size =? 0) eqn:E0; bool_to_prop.
      + assert (n = 0) as -> by lia. exact Hr.
      + destruct (take (Z.to_nat n) data) eqn:Et; [simpl in Hln; lia|]. exact Hr. }
    destruct (broadcast_result_runs s3' p b _ (broadcast_file_runs s3' p _ n was b _ Hr)) as (s' & E & Hc & Hst').
    exists s'. split; [exact E|]. split.
    { eapply calm_trans; [apply calm_store|]. eapply calm_trans; [apply (calm_store _ (st s3'))|exact Hc]. }
    destruct (loaded_settled s0 p l strip (take (Z.to_nat n) data) e He Hl) as (e' & He' & Hpath).
    exists e'. rewrite Hst'. split; [exact He'|]. unfold settled. destruct strip; cbn in Hpath; rewrite Hpath; auto.
Qed.

(** A load, from the setup on. *)
Lemma load_runs (s : server) p size strip dso b e :
  server_ok s → path_ok p → os_size fs p = inl size → room (st s) p →
  cache (st s) !! (dir_part p, file_part p) = Some e → ¬ settled e dso → (strip = true → dso = true) →
  ∃ s', (r <-- handle_setup_file_buffer cfg fs p size strip;;
         let '(buffer, localname, already_loaded) := r in
         match buffer with
         | None => assert_ (negb already_loaded);;; ret (-1)
         | Some buffer => load_rest p size strip b buffer localname
         end) s = Some (0, s') ∧ calm s s' ∧
    ∃ e', cache (st s') !! (dir_part p, file_part p) = Some e' ∧ settled e' dso.
Proof.
  intros Hs Hp Hsz Hroom He Hns Hstrip. destruct (Hroom strip) as (g & l & Hname & Hl & Hlen).
  assert (path (file_contents e) = [] ∧ (strip = true → path (dso_contents e) = [])) as [Hf0 Hd0].
  { unfold settled in Hns. destruct (path (file_contents e)); [|naive_solver].
    split; [done|]. intros Ht. destruct (path (dso_contents e)); [done|]. naive_solver. }
  assert (path (contents_for e (if strip then LDCS_CACHE_FILEOBJ_EITHER else LDCS_CACHE_FILEOBJ_FILE)) = []) as Hpe.
  { destruct strip; [|done]. cbn [contents_for]. by rewrite Hd0. }
  unfold bind at 1. rewrite (setup_runs s p size strip e g l He Hpe Hname Hl Hlen).
  assert (content_name l) as Hcn.
  { split; [destruct strip; [right|left]; by eapply name_file_kind|]. split; [done|].
    eapply name_file_no_nul; [exact Hname|apply Hs|apply Hp]. }
  set (s0 := set_names g (st s)).
  destruct (load_rest_runs (set_st (pending s0 p l strip size (replicate (Z.to_nat size) NUL)) s) s0 p size strip
    dso b l e) as (s' & E & Hc & He'); try done.
  { apply set_names_ok, Hs. }
  { by apply content_name_nonempty. }
  exists s'. split; [exact E|]. split; [|done]. eapply calm_trans; [apply calm_store|exact Hc].
Qed.

Lemma read_and_broadcast_runs (s : server) p dso b e :
  server_ok s → path_ok p → filemngt_realpath fs p = None → room (st s) p →
  cache (st s) !! (dir_part p, file_part p) = Some e → ¬ settled e dso →
  ∃ s', handle_read_and_broadcast_file cfg fs p dso b s = Some (0, s') ∧ calm s s' ∧
    ∃ e', cache (st s') !! (dir_part p, file_part p) = Some e' ∧ settled e' dso.
Proof.
  intros Hs Hp Hreal Hroom He Hns. unfold handle_read_and_broadcast_file. rewrite Hreal.
  destruct (os_size fs p) as [size|ec] eqn:Esz.
  - eapply (load_runs s p size (opt_strip cfg && dso)); try done. by intros [_ ?]%andb_true_iff.
  - pose proof (fs_errno _ Hfs p ec (or_introl Esz)) as Hec.
    assert (∃ r, handle_finish_buffer_setup fs None p 0 0 0 ec false s = Some r) as [[[r a'] s3] Ef].
    { unfold handle_finish_buffer_setup. rewrite (proj2 (Z.eqb_neq ec 0)) by lia. cbn [negb].
      unfold bind, on_store, modify, ret. destruct (parse p) as [f d]. rewrite !orb_true_r. by eexists. }
    unfold bind at 1. rewrite Ef. apply finish_error in Ef as [-> ->]; [|lia].
    rewrite (proj2 (Z.eqb_neq ec 0)) by lia. cbn [Z.eqb].
    match goal with |- context [broadcast_result _ _ _ ?s3] => set (s3' := s3) end.
    destruct (broadcast_result_runs s3' p b (handle_broadcast_errorcode cfg p ec)) as (s' & E & Hc & Hst');
      [apply tells_msg_to_keys|].
    exists s'. split; [exact E|]. split; [eapply calm_trans; [apply calm_store|exact Hc]|].
    rewrite Hst'. cbn. eapply failed_settled; [exact He|lia].
Qed.

(** ** Answering *)

(** From [s] to [s'] only the client [nc] may have changed; only servers were told
    something. *)
Record near (nc : nat) (s s' : server) : Prop := mk_near {
  near_clients i : i ≠ nc → client_table s' !! i = client_table s !! i;
  near_preload : preload_done s' = preload_done s;
  near_out : ∃ msgs, out s' = out s ++ msgs ∧ Forall to_server msgs;
}.

Lemma calm_near nc s s' : calm s s' → near nc s s'.
Proof. intros [H1 H2 H3]. constructor; [|done|done]. intros i _. by rewrite H1. Qed.

Lemma near_trans nc s1 s2 s3 : near nc s1 s2 → near nc s2 s3 → near nc s1 s3.
Proof.
  intros [H1 H2 (m1 & E1 & F1)] [H3 H4 (m2 & E2 & F2)]. constructor; [|congruence|].
  - intros i Hi. rewrite H3, H1; done.
  - exists (m1 ++ m2). split; [by rewrite E2, E1, app_assoc|by apply Forall_app].
Qed.

Lemma near_with_client nc f (s : server) : near nc s (set_clients (alter f nc (client_table s)) s).
Proof.
  constructor; [|done|].
  - intros i Hi. cbn. by apply list_lookup_alter_ne.
  - exists []. split; [cbn; by rewrite app_nil_r|constructor].
Qed.

(** The query of the client [nc], as [c] has it, has been answered, for its path or for
    that which its path is a link to, once, and it is closed; no other client has been
    told anything. *)
Definition told (c : client) (nc : nat) (s s' : server) : Prop :=
  ∃ msgs q m c', out s' = out s ++ msgs ++ [ToClient nc q m] ∧ Forall to_server msgs ∧
    msg_type m = LDCS_MSG_FILE_QUERY_ANSWER ∧ is_dso q = is_dso c ∧
    (query_globalpath q = query_globalpath c ∨ os_realpath fs (query_globalpath c) = Some (query_globalpath q)) ∧ client_table s' !! nc = Some c' ∧ query_open c' = false ∧
    ∀ i, i ≠ nc → client_table s' !! i = client_table s !! i.

Lemma near_told c nc s s1 s2 : near nc s s1 → told c nc s1 s2 → told c nc s s2.
Proof.
  intros [H1 H2 (m1 & E1 & F1)] (msgs & q & m & c' & E & F & Ht & Hd & Hp & Hc & Hq & Ho).
  exists (m1 ++ msgs), q, m, c'. split_and!; try done.
  - by rewrite E, E1, !app_assoc.
  - by apply Forall_app.
  - intros i Hi. rewrite Ho, H1; done.
Qed.

Lemma answer_runs (s : server) nc c data :
  client_table s !! nc = Some c →
  ∃ s', (answer nc c (message LDCS_MSG_FILE_QUERY_ANSWER data);;; handle_close_client_query nc;;; ret 0) s
    = Some (0, s') ∧ told c nc s s'.
Proof.
  intros Hc. eexists. split; [done|].
  exists [], c, (message LDCS_MSG_FILE_QUERY_ANSWER data). eexists. cbn. split; [done|]. split; [constructor|].
  split; [done|]. split; [done|]. split; [by left|]. split; [by rewrite list_lookup_alter_eq, Hc|]. split; [done|].
  intros i Hi. by apply list_lookup_alter_ne.
Qed.

Lemma get_client_runs (s : server) nc c {A} (k : client → M A) :
  client_table s !! nc = Some c → bind (get_client nc) k s = k c s.
Proof. intros Hc. unfold get_client, bind, gets, lift_option. by rewrite Hc. Qed.

Lemma fulfilled_runs (s : server) nc c l :
  client_table s !! nc = Some c → unreachable c = false → query_localpath c = Some l →
  ∃ s', handle_client_fulfilled_query nc s = Some (0, s') ∧ told c nc s s'.
Proof.
  intros Hc Hu Hl. unfold handle_client_fulfilled_query. rewrite (get_client_runs _ _ _ _ Hc), Hu, Hl.
  exact (answer_runs s nc c _ Hc).
Qed.

Lemma rejected_runs (s : server) nc c e :
  client_table s !! nc = Some c → unreachable c = false →
  ∃ s', handle_client_rejected_query nc e s = Some (0, s') ∧ told c nc s s'.
Proof.
  intros Hc Hu. unfold handle_client_rejected_query. rewrite (get_client_runs _ _ _ _ Hc), Hu.
  exact (answer_runs s nc c _ Hc).
Qed.

Lemma originalfile_runs (s : server) nc c :
  client_table s !! nc = Some c → unreachable c = false →
  ∃ s', handle_client_originalfile_query nc s = Some (0, s') ∧ told c nc s s'.
Proof.
  intros Hc Hu. unfold handle_client_originalfile_query, bind at 1, with_client, modify.
  set (s1 := set_clients _ s).
  destruct (fulfilled_runs s1 nc (set_localpath (Some (query_globalpath c)) c) (query_globalpath c))
    as (s' & E & Ht); [cbn; by rewrite list_lookup_alter_eq, Hc|done|done|].
  exists s'. split; [exact E|]. eapply near_told; [apply near_with_client|exact Ht].
Qed.

(** ** The decisions at the root *)

Hypothesis Hroot : md_rank cfg = 0.
Hypothesis Hidem : ∀ p q, os_realpath fs p = Some q → os_realpath fs q = Some q.

(** The server may decide about [p] from its cache. *)
Definition cacheable (p : bytes) : Prop :=
  ldcs_is_a_cachedfile (cachepath cfg) (normalized_tmpdir cfg) p = None ∧
  is_local_prefix p (local_prefixes cfg) = false.

#[export] Instance cacheable_dec p : Decision (cacheable p).
Proof. apply _. Defined.

(** The decisions that are answers. *)
Definition final (h : handle_file_result_t) : Prop :=
  match h with
  | FOUND_FILE | FOUND_ERRCODE | NO_FILE | NO_DIR | ORIG_FILE => True
  | _ => False
  end.

(** The decision for a file that is listed: final when the entry is settled,
    otherwise follow the alias, leave it to the client, or read. *)
Lemma howto_listed c p f d dso e :
  cacheable p → c !! (d, f) = Some e →
  let h := handle_howto_file cfg c p f d dso in
  (settled e dso → final (h_result h)) ∧
  (h_result h = READ_FILE → ¬ settled e dso ∧ alias e = []) ∧
  (final (h_result h) ∨ h_result h = READ_FILE ∨ h_result h = ALIAS_TO) ∧
  (alias e ≠ [] → h_result h ≠ READ_FILE).
Proof.
  intros [Hc1 Hc2] He h. unfold h, handle_howto_file. rewrite Hc1, Hc2.
  destruct (find_entry c f d dso e He) as (strip & dso1 & lp & -> & Elp & Hdso & Hst & Hnone).
  destruct lp as [l|].
  { cbn. split_and!; try done. by left. }
  destruct (errcode e =? 0) eqn:Ee; cbn [negb]; bool_to_prop.
  2:{ cbn. split_and!; try done. by left. }
  destruct (Hnone eq_refl Ee) as [Hf Hd].
  assert (¬ settled e dso) as Hns by (unfold settled; naive_solver).
  unfold ldcs_cache_getAlias. rewrite He. cbn [snd]. destruct (or_null (alias e)) as [q|] eqn:Eq.
  { cbn. split_and!; try done. auto. }
  apply or_null_none in Eq. unfold responsible. rewrite Hroot. cbn [Z.eqb].
  destruct (opt_stoprel cfg); cbn; split_and!; try done; auto.
Qed.

(** The decision for a file that is not listed. *)
Lemma howto_unlisted c p f d dso :
  cacheable p → c !! (d, f) = None →
  let h := handle_howto_file cfg c p f d dso in
  (dir_known c d → final (h_result h)) ∧ (final (h_result h) ∨ h_result h = READ_DIRECTORY).
Proof.
  intros [Hc1 Hc2] He h. unfold h, handle_howto_file. rewrite Hc1, Hc2.
  assert (∃ dso1, find_file_or_dso c f d dso = (LDCS_CACHE_FILE_NOT_FOUND, None, 0, dso1)) as [dso1 ->].
  { unfold find_file_or_dso, ldcs_cache_findFileDirInCache. rewrite He. destruct dso; eauto. }
  unfold handle_howto_directory, ldcs_cache_findDirInCache, dir_known, responsible. rewrite Hroot. cbn [Z.eqb].
  destruct (c !! (d, [])) as [de|]; cbn.
  - destruct (errcode de =? -1); cbn; auto.
  - split; [by intros [? ?]|by right].
Qed.

Lemma howto_uncacheable c p f d dso : ¬ cacheable p → final (h_result (handle_howto_file cfg c p f d dso)).
Proof.
  intros Hn. unfold handle_howto_file. unfold cacheable in Hn.
  destruct (ldcs_is_a_cachedfile _ _ p); [done|]. destruct (is_local_prefix p _); [done|]. naive_solver.
Qed.

(** ** Progress *)

(** The client waits for the file [p]. *)
Record asking (s : server) (nc : nat) (c : client) : Prop := mk_asking {
  ask_client : client_table s !! nc = Some c;
  ask_open : query_open c = true;
  ask_exist : existance_query c = false;
  ask_meta : is_stat c || is_loader c = false;
  ask_reach : unreachable c = false;
  ask_preload : opt_preload cfg && negb (preload_done s) = false;
}.

Lemma asking_near (s s' : server) nc c c' :
  asking s nc c → near nc s s' → client_table s' !! nc = Some c' →
  query_open c' = query_open c → existance_query c' = existance_query c → is_stat c' = is_stat c →
  is_loader c' = is_loader c → state c' = state c → connid c' = connid c → asking s' nc c'.
Proof.
  intros [H1 H2 H3 H4 H5 H6] Hn Hc E1 E2 E3 E4 E5 E6. constructor; [done|congruence|congruence|congruence| |].
  - unfold unreachable in *. by rewrite E5, E6.
  - by rewrite (near_preload _ _ _ Hn).
Qed.

Lemma asking_calm (s s' : server) nc c : asking s nc c → calm s s' → asking s' nc c.
Proof.
  intros Ha Hc. eapply asking_near; try done; [by apply calm_near|]. rewrite (calm_clients _ _ Hc). apply Ha.
Qed.

(** One round, up to the decision. *)
Lemma progress_round fuel (s : server) nc c :
  server_ok s → asking s nc c →
  let h := handle_howto_file cfg (cache (st s)) (query_globalpath c) (query_filename c) (query_dirname c) (is_dso c) in
  ∃ s1 lp, server_ok s1 ∧ near nc s s1 ∧ st s1 = st s ∧ asking s1 nc (set_localpath lp c) ∧
    howto_true cfg fs (st s) (query_globalpath c) (query_dirname c) (query_filename c) (is_dso c) h ∧
    (∀ l, h_localpath h = Some l → lp = l) ∧
    handle_client_progress cfg fs (S fuel) nc s =
      match h_result h with
      | FOUND_FILE => handle_client_return_numa_replication nc;;; handle_client_fulfilled_query nc
      | NO_DIR => handle_client_rejected_query nc SPINDLE_ENODIR
      | NO_FILE => handle_client_rejected_query nc ENOENT
      | FOUND_ERRCODE => handle_client_rejected_query nc (h_errcode h)
      | READ_DIRECTORY =>
          read_result <-- handle_read_directory fs (query_dirname c);;
          if read_result =? -1 then ret (-1)
          else
            broadcast_result <-- handle_broadcast_dir cfg (query_dirname c) request_broadcast;;
            client_result <-- handle_client_progress cfg fs fuel nc;;
            ret (if (client_result =? -1) || (broadcast_result =? -1) then -1 else 0)
      | READ_FILE =>
          read_result <-- handle_read_and_broadcast_file cfg fs (query_globalpath c) (is_dso c) request_broadcast;;
          if read_result =? -1 then ret (-1)
          else
            client_result <-- handle_client_progress cfg fs fuel nc;;
            ret (if client_result =? -1 then -1 else 0)
      | REQ_DIRECTORY =>
          client_result <-- handle_send_query (query_dirname c) true false;;
          add_file_request (query_dirname c) NODE_PEER_CLIENT;;; ret client_result
      | REQ_FILE =>
          client_result <-- handle_send_query (query_globalpath c) false (is_dso c);;
          add_dso_request (query_globalpath c) NODE_PEER_CLIENT;;; ret client_result
      | ORIG_FILE => handle_client_originalfile_query nc
      | ALIAS_TO =>
          alias_to <-- lift_option (h_alias h);;
          handle_client_get_alias nc alias_to;;;
          handle_client_progress cfg fs fuel nc
      end s1.
Proof.
  intros Hs Ha h.
  assert (∃ s1, howto_query cfg nc (is_dso c) s = Some (h, s1) ∧
    s1 = match h_localpath h with Some l => set_clients (alter (set_localpath l) nc (client_table s)) s | None => s end)
    as (s1 & Eh & Hs1).
  { unfold howto_query. rewrite (get_client_runs _ _ _ _ (ask_client _ _ _ Ha)). unfold bind, gets. fold h.
    destruct (h_localpath h); by eexists. }
  destruct (howto_query_ok _ _ _ _ _ _ _ _ Hs (ask_client _ _ _ Ha) (ask_open _ _ _ Ha) Eh) as (lp & Hok & Hc1 & Hlp & Ht).
  assert (near nc s s1) as Hn.
  { rewrite Hs1. destruct (h_localpath h); [apply near_with_client|apply calm_near, calm_refl]. }
  assert (st s1 = st s) as Hst by (rewrite Hs1; by destruct (h_localpath h)).
  exists s1, lp. split_and!; try done; [by eapply asking_near|by rewrite <- Hst|].
  cbn [handle_client_progress]. rewrite (get_client_runs _ _ _ _ (ask_client _ _ _ Ha)).
  unfold bind at 1, gets. rewrite (ask_preload _ _ _ Ha), (ask_open _ _ _ Ha), (ask_exist _ _ _ Ha), (ask_meta _ _ _ Ha).
  cbn [negb]. unfold bind at 1. by rewrite Eh.
Qed.

(** A query is answered from here on. *)
Definition answered (fuel : nat) (s : server) (nc : nat) (c : client) : Prop :=
  ∃ s', handle_client_progress cfg fs fuel nc s = Some (0, s') ∧ told c nc s s'.

Abbreviation howto_for s c :=
  (handle_howto_file cfg (cache (st s)) (query_globalpath c) (query_filename c) (query_dirname c) (is_dso c)).

Lemma numa_runs (s : server) nc c e :
  client_table s !! nc = Some c → cache (st s) !! (query_dirname c, query_filename c) = Some e →
  handle_client_return_numa_replication nc s = Some (tt, s).
Proof.
  intros Hc He. unfold handle_client_return_numa_replication. rewrite (get_client_runs _ _ _ _ Hc).
  unfold bind, gets, ldcs_cache_isReplicated. by rewrite He.
Qed.

Lemma final_answered fuel (s : server) nc c :
  server_ok s → asking s nc c → final (h_result (howto_for s c)) → answered (S fuel) s nc c.
Proof.
  intros Hs Ha Hf. destruct (progress_round fuel s nc c Hs Ha) as (s1 & lp & Hs1 & Hn & Hst & Ha1 & Ht & Hlp & E).
  unfold answered. rewrite E. clear E. unfold howto_true in Ht.
  assert (∀ s', told c nc s1 s' → told c nc s s') as Htold by (intros s'; by apply near_told).
  assert (∀ e, ∃ s', handle_client_rejected_query nc e s1 = Some (0, s') ∧ told c nc s s') as Hrej.
  { intros e. destruct (rejected_runs s1 nc _ e (ask_client _ _ _ Ha1) (ask_reach _ _ _ Ha1)) as (s' & E & Hto). eauto. }
  destruct (h_result _); try done; try apply Hrej.
  - destruct Ht as (_ & _ & l & Hl & (e & _ & He & _)). rewrite <- Hst in He.
    unfold bind. rewrite (numa_runs s1 nc _ e (ask_client _ _ _ Ha1)) by done.
    destruct (fulfilled_runs s1 nc (set_localpath lp c) l (ask_client _ _ _ Ha1) (ask_reach _ _ _ Ha1)) as (s' & E & Hto);
      [by apply Hlp|]. eauto.
  - destruct (originalfile_runs s1 nc _ (ask_client _ _ _ Ha1) (ask_reach _ _ _ Ha1)) as (s' & E & Hto). eauto.
Qed.

(** The parts of the path of an open query. *)
Lemma asking_path (s : server) nc c :
  server_ok s → asking s nc c →
  path_ok (query_globalpath c) ∧ dir_part (query_globalpath c) = query_dirname c ∧
  file_part (query_globalpath c) = query_filename c ∧ dir_ok (query_dirname c).
Proof.
  intros Hs Ha. apply query_parts; [|apply Ha]. eapply client_is_ok; [exact Hs|apply Ha].
Qed.

Lemma not_alias (p q : bytes) : filemngt_realpath fs p = None → os_realpath fs p = Some q → q = p.
Proof.
  unfold filemngt_realpath. intros Hr Hq. rewrite Hq in Hr. by destruct (bool_decide_reflect (q = p)).
Qed.

(** The file is read, and then it is settled. *)
Lemma read_file_answered fuel (s : server) nc c :
  server_ok s → asking s nc c → filemngt_realpath fs (query_globalpath c) = None →
  room (st s) (query_globalpath c) → h_result (howto_for s c) = READ_FILE → answered (S (S fuel)) s nc c.
Proof.
  intros Hs Ha Hreal Hroom Hh. destruct (asking_path s nc c Hs Ha) as (Hp & Hd & Hf & _).
  destruct (progress_round (S fuel) s nc c Hs Ha) as (s1 & lp & Hs1 & Hn & Hst & Ha1 & Ht & _ & E).
  unfold answered. rewrite E. clear E. rewrite Hh.
  assert (cacheable (query_globalpath c)) as Hcc.
  { destruct (decide (cacheable (query_globalpath c))) as [|Hnc]; [done|].
    apply howto_uncacheable with (c := cache (st s)) (f := query_filename c) (d := query_dirname c) (dso := is_dso c) in Hnc.
    by rewrite Hh in Hnc. }
  destruct (cache (st s) !! (query_dirname c, query_filename c)) as [e|] eqn:He.
  2:{ pose proof (howto_unlisted _ _ _ _ (is_dso c) Hcc He) as [_ Hu]. rewrite Hh in Hu. by destruct Hu. }
  destruct (howto_listed _ _ _ _ (is_dso c) e Hcc He) as (_ & Hns & _). destruct (Hns Hh) as [Hnset _].
  destruct (read_and_broadcast_runs s1 (query_globalpath c) (is_dso c) request_broadcast e)
    as (s2 & E2 & Hcalm & e' & He' & Hset); try done; [by rewrite Hst|by rewrite Hst, Hd, Hf|].
  assert (server_ok s2) as Hs2 by (by eapply (keeps_read_and_broadcast_file cfg fs Hfs)).
  unfold bind. rewrite E2. cbn [Z.eqb].
  pose proof (asking_calm _ _ _ _ Ha1 Hcalm) as Ha2.
  rewrite Hd, Hf in He'.
  destruct (howto_listed _ _ _ _ (is_dso c) e' Hcc He') as (Hfin & _).
  destruct (final_answered fuel s2 nc _ Hs2 Ha2) as (s' & E & Hto); [by apply Hfin|].
  exists s'. rewrite E. split; [done|]. eapply near_told; [exact Hn|]. eapply near_told; [by apply calm_near|done].
Qed.

(** A file that is no link, in a directory that the cache knows. *)
Lemma known_dir_answered fuel (s : server) nc c :
  server_ok s → asking s nc c → filemngt_realpath fs (query_globalpath c) = None →
  room (st s) (query_globalpath c) → dir_known (cache (st s)) (query_dirname c) → answered (S (S fuel)) s nc c.
Proof.
  intros Hs Ha Hreal Hroom Hk. destruct (asking_path s nc c Hs Ha) as (Hp & Hd & Hf & _).
  destruct (progress_round (S fuel) s nc c Hs Ha) as (s1 & lp & Hs1 & Hn & Hst & Ha1 & Ht & _ & _).
  destruct (decide (cacheable (query_globalpath c))) as [Hcc|Hnc].
  2:{ by eapply final_answered; [..|apply howto_uncacheable]. }
  destruct (cache (st s) !! (query_dirname c, query_filename c)) as [e|] eqn:He.
  - destruct (howto_listed _ _ _ _ (is_dso c) e Hcc He) as (_ & _ & [Hfin | [Hr | Hal]] & _).
    + by eapply final_answered.
    + by eapply read_file_answered.
    + unfold howto_true in Ht. rewrite Hal in Ht. destruct Ht as (q & _ & Hq & Hne).
      by destruct (Hne (not_alias _ _ Hreal Hq)).
  - destruct (howto_unlisted _ _ _ _ (is_dso c) Hcc He) as [Hfin _]. eapply final_answered; [done|done|by apply Hfin].
Qed.

(** The directory is read; what follows is as good as before, and knows it. *)
Lemma read_directory_answered fuel (s : server) nc c :
  server_ok s → asking s nc c → h_result (howto_for s c) = READ_DIRECTORY →
  (∀ s2 lp, server_ok s2 → asking s2 nc (set_localpath lp c) → dir_known (cache (st s2)) (query_dirname c) →
     names (st s2) = names (st s) → disk (st s2) = disk (st s) → answered fuel s2 nc (set_localpath lp c)) →
  answered (S fuel) s nc c.
Proof.
  intros Hs Ha Hh Hrest. destruct (asking_path s nc c Hs Ha) as (Hp & Hd & Hf & Hdok).
  destruct (progress_round fuel s nc c Hs Ha) as (s1 & lp & Hs1 & Hn & Hst & Ha1 & _ & _ & E).
  unfold answered. rewrite E. clear E. rewrite Hh.
  destruct (read_directory_runs s1 (query_dirname c) Hs1 Hdok) as (c1 & s2 & E2 & Hs2 & Hk & _).
  assert (server_ok s2) as Hok2 by (by eapply (keeps_read_directory cfg fs Hfs)).
  assert (dir_known (cache (st s2)) (query_dirname c)) as Hk2 by (by rewrite Hs2).
  destruct (broadcast_dir_runs s2 (query_dirname c) request_broadcast Hdok Hk2) as (s3 & E3 & Hc3 & Hst3).
  assert (server_ok s3) as Hok3 by (by eapply (keeps_broadcast_dir cfg fs)).
  assert (calm s1 s2) as Hc2 by (rewrite Hs2; apply calm_store).
  assert (calm s1 s3) as Hc13 by (by eapply calm_trans).
  destruct (Hrest s3 lp Hok3 (asking_calm _ _ _ _ Ha1 Hc13)) as (s' & E & Hto).
  { by rewrite Hst3. }
  { by rewrite Hst3, Hs2, <- Hst. }
  { by rewrite Hst3, Hs2, <- Hst. }
  exists s'. unfold bind at 1. rewrite E2. cbn [Z.eqb]. unfold bind at 1. rewrite E3. unfold bind. rewrite E.
  split; [done|]. eapply near_told; [exact Hn|]. eapply near_told; [by apply calm_near|done].
Qed.

(** Either the decision is another one, or the directory has to be read. *)
Lemma known_dir_or_read (s : server) nc c :
  server_ok s → asking s nc c →
  final (h_result (howto_for s c)) ∨ dir_known (cache (st s)) (query_dirname c) ∨
  h_result (howto_for s c) = READ_DIRECTORY.
Proof.
  intros Hs Ha. destruct (asking_path s nc c Hs Ha) as (Hp & Hd & Hf & _).
  destruct (decide (cacheable (query_globalpath c))) as [Hcc|Hnc]; [|left; by apply howto_uncacheable].
  destruct (cache (st s) !! (query_dirname c, query_filename c)) as [e|] eqn:He.
  - right; left. pose proof (path_file _ Hp) as Hfn. rewrite Hf in Hfn.
    destruct (wf_listed _ (cache_shape _ _ _ _ (store_cache _ _ (ok_store _ _ _ Hs))) _ _ _ He Hfn) as (de & Hde & _).
    by exists de.
  - destruct (howto_unlisted _ _ _ _ (is_dso c) Hcc He) as [_ [? | ?]]; auto.
Qed.

(** A file that is no link. *)
Lemma direct_answered fuel (s : server) nc c :
  server_ok s → asking s nc c → filemngt_realpath fs (query_globalpath c) = None →
  room (st s) (query_globalpath c) → answered (3 + fuel) s nc c.
Proof.
  intros Hs Ha Hreal Hroom. destruct (known_dir_or_read s nc c Hs Ha) as [Hfin | [Hk | Hr]].
  - by eapply final_answered.
  - by eapply (known_dir_answered (S fuel)).
  - eapply (read_directory_answered _ s); [done|done|done|]. intros s2 lp Hs2 Ha2 Hk2 Hnm Hdk.
    eapply (known_dir_answered fuel); [done|exact Ha2|done| |done]. unfold room. by rewrite Hnm, Hdk.
Qed.

Lemma told_link c c2 nc s s' q :
  os_realpath fs (query_globalpath c) = Some q → query_globalpath c2 = q → is_dso c2 = is_dso c →
  told c2 nc s s' → told c nc s s'.
Proof.
  intros Hr Hp Hd (msgs & x & m & c' & E & F & Ht & Hdx & Hpx & Hrest). exists msgs, x, m, c'.
  split; [exact E|]. split; [exact F|]. split; [exact Ht|]. split; [congruence|]. split; [|exact Hrest].
  right. rewrite Hp in Hpx. destruct Hpx as [-> | Hx]; [done|].
  by rewrite (Hidem _ _ Hr) in Hx; rewrite Hr.
Qed.

(** The query moves on to the target of the link. *)
Lemma follow_answered fuel (s : server) nc c q :
  server_ok s → asking s nc c → os_realpath fs (query_globalpath c) = Some q →
  room (st s) q → h_result (howto_for s c) = ALIAS_TO → answered (4 + fuel) s nc c.
Proof.
  intros Hs Ha Hreal Hroom Hh. pose proof (fs_realpath _ Hfs _ _ Hreal) as Hq.
  destruct (progress_round (3 + fuel) s nc c Hs Ha) as (s1 & lp & Hs1 & Hn & Hst & Ha1 & Ht & _ & E).
  unfold answered. change (4 + fuel)%nat with (S (3 + fuel)). rewrite E. clear E. unfold howto_true in Ht.
  rewrite Hh in Ht |- *. destruct Ht as (q' & -> & Hq' & Hne). rewrite Hreal in Hq'. injection Hq' as <-.
  unfold bind, lift_option, ret, handle_client_get_alias, with_client, modify.
  set (f := λ c : client, _). set (s2 := set_clients (alter f nc (client_table s1)) s1).
  assert (server_ok s2) as Hs2.
  { eapply (keeps_get_alias cfg fs nc q Hq s1); [done|]. reflexivity. }
  pose proof (ask_client _ _ _ Ha1) as Hc1.
  assert (client_table s2 !! nc = Some (f (set_localpath lp c))) as Hc2.
  { cbn. by rewrite list_lookup_alter_eq, Hc1. }
  assert (take (Z.to_nat (MAX_PATH_LEN + 1)) q = q) as Etake.
  { apply take_ge. pose proof (path_len _ Hq). unfold MAX_PATH_LEN in *. lia. }
  assert (asking s2 nc (f (set_localpath lp c))) as Ha2.
  { eapply asking_near; [exact Ha1|apply near_with_client|exact Hc2|..]; unfold f; cbv zeta;
      rewrite Etake; by destruct (parse q). }
  assert (query_globalpath (f (set_localpath lp c)) = q) as Hg.
  { unfold f. cbv zeta. rewrite Etake. by destruct (parse q). }
  destruct (direct_answered fuel s2 nc _ Hs2 Ha2) as (s' & E & Hto).
  { rewrite Hg. unfold filemngt_realpath. rewrite (Hidem _ _ Hreal). by rewrite bool_decide_true. }
  { rewrite Hg. unfold s2. cbn. by rewrite Hst. }
  exists s'. split; [exact E|]. eapply near_told; [exact Hn|]. eapply near_told; [apply near_with_client|].
  eapply told_link; [exact Hreal|exact Hg| |exact Hto]. unfold f. cbv zeta. rewrite Etake. by destruct (parse q).
Qed.

(** The link is found out when the file is read. *)
Lemma setup_alias_runs (s : server) p q b e :
  cache (st s) !! (dir_part p, file_part p) = Some e → filemngt_realpath fs p = Some q → ∀ dso,
  ∃ s', handle_read_and_broadcast_file cfg fs p dso b s = Some (0, s') ∧ calm s s' ∧
    st s' = set_cache (<[(dir_part p, file_part p) := set_alias q e]> (cache (st s))) (st s).
Proof.
  intros He Hq dso. unfold handle_read_and_broadcast_file. rewrite Hq. unfold bind at 1, handle_setup_alias.
  destruct (parse p) as [f d]. cbn [fst snd] in *.
  unfold bind at 1, gets, ldcs_cache_findFileDirInCache. rewrite He.
  unfold bind at 1, on_store at 1, modify, ret. unfold ldcs_cache_updateAlias, update_entry. rewrite He. cbn [snd Z.eqb].
  match goal with |- context [broadcast_result _ _ _ ?s3] => set (s1 := s3) end.
  destruct (broadcast_result_runs s1 p b (handle_broadcast_alias cfg p q)) as (s' & E & Hc & Hst);
    [apply tells_msg_to_keys|].
  exists s'. split; [exact E|]. split; [eapply calm_trans; [apply calm_store|exact Hc]|]. by rewrite Hst.
Qed.

Lemma link_known_answered fuel (s : server) nc c q :
  server_ok s → asking s nc c → filemngt_realpath fs (query_globalpath c) = Some q → room (st s) q →
  dir_known (cache (st s)) (query_dirname c) → answered (5 + fuel) s nc c.
Proof.
  intros Hs Ha Hreal Hroom Hk. destruct (asking_path s nc c Hs Ha) as (Hp & Hd & Hf & _).
  pose proof (realpath_alias _ _ _ Hreal) as [Hrq Hne].
  destruct (decide (cacheable (query_globalpath c))) as [Hcc|Hnc].
  2:{ by eapply final_answered; [..|apply howto_uncacheable]. }
  destruct (cache (st s) !! (query_dirname c, query_filename c)) as [e|] eqn:He.
  2:{ destruct (howto_unlisted _ _ _ _ (is_dso c) Hcc He) as [Hfin _]. eapply final_answered; [done|done|by apply Hfin]. }
  destruct (howto_listed _ _ _ _ (is_dso c) e Hcc He) as (_ & Hns & [Hfin | [Hr | Hal]] & _).
  - by eapply final_answered.
  - destruct (progress_round (4 + fuel) s nc c Hs Ha) as (s1 & lp & Hs1 & Hn & Hst & Ha1 & Ht & _ & E).
    unfold answered. change (5 + fuel)%nat with (S (4 + fuel)). rewrite E. clear E. rewrite Hr.
    destruct (setup_alias_runs s1 (query_globalpath c) q request_broadcast e) with (dso := is_dso c)
      as (s2 & E2 & Hcalm & Hst2); [by rewrite Hst, Hd, Hf|done|].
    assert (server_ok s2) as Hs2 by (by eapply (keeps_read_and_broadcast_file cfg fs Hfs)).
    pose proof (asking_calm _ _ _ _ Ha1 Hcalm) as Ha2. rewrite Hd, Hf in Hst2.
    assert (cache (st s2) !! (query_dirname c, query_filename c) = Some (set_alias q e)) as He2.
    { rewrite Hst2. cbn. by rewrite lookup_insert_eq. }
    assert (answered (4 + fuel) s2 nc (set_localpath lp c)) as (s' & E & Hto).
    { destruct (howto_listed _ _ _ _ (is_dso c) _ Hcc He2) as (_ & _ & Hcase & Hnr).
      assert (q ≠ []) as Hqne.
      { intros ->. pose proof (path_file _ (fs_realpath _ Hfs _ _ Hrq)) as Hbad. by vm_compute in Hbad. }
      destruct Hcase as [Hfin | [Hr2 | Hal2]]; [by eapply final_answered|by destruct (Hnr Hqne)|].
      eapply (follow_answered fuel s2 nc _ q); [done|exact Ha2|done| |done].
      rewrite Hst2. unfold room. cbn. rewrite Hst. exact Hroom. }
    exists s'. unfold bind. rewrite E2. cbn [Z.eqb]. rewrite E. split; [done|].
    eapply near_told; [exact Hn|]. eapply near_told; [by apply calm_near|done].
  - by eapply (follow_answered (S fuel)).
Qed.

(** Every query is answered within six rounds. *)
Lemma query_answered fuel (s : server) nc c :
  server_ok s → asking s nc c →
  room (st s) (default (query_globalpath c) (os_realpath fs (query_globalpath c))) → answered (6 + fuel) s nc c.
Proof.
  intros Hs Ha Hroom. destruct (filemngt_realpath fs (query_globalpath c)) as [q|] eqn:Hreal.
  - pose proof (realpath_alias _ _ _ Hreal) as [Hrq _]. rewrite Hrq in Hroom. cbn in Hroom.
    destruct (known_dir_or_read s nc c Hs Ha) as [Hfin | [Hk | Hr]].
    + by eapply final_answered.
    + by eapply (link_known_answered (S fuel)).
    + eapply (read_directory_answered (5 + fuel) s); [done|done|done|]. intros s2 lp Hs2 Ha2 Hk2 Hnm Hdk.
      eapply (link_known_answered fuel); [done|exact Ha2|done| |done]. unfold room. by rewrite Hnm, Hdk.
  - apply (direct_answered (3 + fuel) s nc c Hs Ha Hreal).
    destruct (os_realpath fs (query_globalpath c)) as [q|] eqn:Eq; [|exact Hroom].
    by rewrite (not_alias _ _ Hreal Eq) in Hroom.
Qed.

End root.

(** The queries for the contents of a file. *)
Definition contents_query (t : ldcs_message_ids_t) : Prop :=
  match t with
  | LDCS_MSG_FILE_QUERY | LDCS_MSG_FILE_QUERY_EXACT_PATH | LDCS_MSG_DSO_QUERY | LDCS_MSG_DSO_QUERY_EXACT_PATH => True
  | _ => False
  end.

(** The server at the root answers.  A connected client sends a query for the
    contents of a file, of a well formed path that is not the name of a local file,
    when no preloading is going on.  Then the handler comes to an end, without a
    failing assertion, after at most six rounds of [handle_client_progress]; it has
    sent the client exactly one answer, after whatever it sent to other servers, has
    closed the query, and has left the other clients alone.  This needs a file system
    on which [realpath] is idempotent, and a name and room for one more local file. *)
Lemma root_told {RT} `{RS : RequestorStore RT} cfg fs (s : server RT) nc c t data f d :
  fs_ok fs → md_rank cfg = 0 → (∀ l, os_create fs l = true) →
  (∀ p q, os_realpath fs p = Some q → os_realpath fs q = Some q) →
  server_ok fs cfg s → contents_query t → has_nul data = true →
  client_table s !! nc = Some c → unreachable c = false → existance_query c = false →
  opt_preload cfg && negb (preload_done s) = false →
  lookup_global_name (cachepath cfg) (normalized_tmpdir cfg) (names (st s)) (cstr data) = Some None →
  query_ok (os_cwd fs (remote_pid c)) (cstr data) →
  parseFilenameNoAlloc2 (cstr data) MAX_PATH_LEN (os_cwd fs (remote_pid c)) = Some (0, f, d) →
  room cfg (st s) (default (global_path d f) (os_realpath fs (global_path d f))) →
  ∃ s' c1, handle_client_message cfg fs nc t data s = Some (0, s') ∧ told fs c1 nc s s' ∧
    query_globalpath c1 = global_path d f ∧
    is_dso c1 = match t with LDCS_MSG_DSO_QUERY | LDCS_MSG_DSO_QUERY_EXACT_PATH => true | _ => false end.
Proof.
  intros Hfs Hroot Hcreate Hidem Hs Ht Hnul Hc Hu Hex Hpre Hlook Hq Hparse Hroom.
  assert (handle_client_message cfg fs nc t data s = handle_client_file_request cfg fs nc t (cstr data) s) as ->.
  { destruct t; try contradiction; unfold handle_client_message, bind, assert_; rewrite Hnul; reflexivity. }
  set (c1 := mk_client (connid c) (state c) (remote_pid c) true false false false false
    match t with LDCS_MSG_DSO_QUERY | LDCS_MSG_DSO_QUERY_EXACT_PATH => true | _ => false end
    f d (global_path d f) None (query_aliasfrom c)).
  set (s1 := set_clients (alter (λ _, c1) nc (client_table s)) s).
  assert (handle_client_file_request cfg fs nc t (cstr data) s = handle_client_progress cfg fs PROGRESS_FUEL nc s1) as ->.
  { unfold handle_client_file_request, bind at 1, gets. unfold bind at 1, lift_option. rewrite Hlook. unfold ret at 1.
    unfold bind at 1, replace_client. rewrite (get_client_runs s nc c _ Hc). unfold open_query. cbn [default].
    rewrite Hparse, Hex. generalize (handle_client_progress cfg fs PROGRESS_FUEL nc). intros k.
    destruct t; try contradiction; reflexivity. }
  assert (client_table s1 !! nc = Some c1) as Hc1 by (cbn; by rewrite list_lookup_alter_eq, Hc).
  assert (client_ok c1) as Hok1.
  { destruct (query_parse _ _ Hq) as (f1 & d1 & E & Hp & Ep). rewrite Hparse in E. injection E as <- <-. done. }
  destruct (query_answered cfg fs Hfs Hcreate Hroot Hidem 10 s1 nc c1) as (s' & E & Hto).
  - eapply (keeps_with_client cfg fs nc (λ _, c1)); [done|exact Hs|reflexivity].
  - constructor; [exact Hc1|reflexivity|reflexivity|reflexivity|exact Hu|exact Hpre].
  - exact Hroom.
  - exists s', c1. split; [exact E|]. split; [|done]. eapply near_told; [apply near_with_client|exact Hto].
Qed.

(** ** An example: a link into another directory *)

Definition link_fs : os := mk_os
  (λ d, if bool_decide (d = lit "/lib") then Some [(lit ".", DT_DIR); (lit "b.so", DT_LNK)]
        else if bool_decide (d = lit "/real") then Some [(lit ".", DT_DIR); (lit "b", DT_REG)] else None)
  (λ p, if bool_decide (p = lit "/lib/b.so" ∨ p = lit "/real/b") then Some (lit "/real/b") else None)
  (λ p, if bool_decide (p = lit "/lib/b.so" ∨ p = lit "/real/b") then inl (Z.of_nat (length ex_text)) else inr ENOENT)
  (λ p, if bool_decide (p = lit "/lib/b.so" ∨ p = lit "/real/b") then inl ex_text else inr ENOENT)
  (λ _ _, None) (λ _, None) (λ _, true) (λ _, SyncSame) (λ _, true) (λ _, None) (λ _, None).

Lemma link_fs_ok r : fs_ok (on_node link_fs (ex_local r)).
Proof.
  constructor; cbn -[bool_decide Z.of_nat].
  - intros p q. case_bool_decide; [|done]. intros [= <-]. constructor; vm_compute; (reflexivity || discriminate).
  - intros p e [H | H]; case_bool_decide; simplify_eq; unfold ENOENT; lia.
  - intros p n. case_bool_decide; [|done]. intros [= <-]. split; [lia|by vm_compute].
  - intros d l. repeat case_bool_decide; try done; by intros [= <-].
  - intros d. repeat case_bool_decide; cbn; repeat constructor; vm_compute; (reflexivity || discriminate).
  - intros p n c strip. case_bool_decide; [|done]. intros [= <-] [= <-].
    destruct strip; do 3 eexists; (split; [vm_compute; reflexivity|]); vm_compute; (split; [split|]); congruence.
  - done.
Qed.

End RootAnswers.
