(* ===== verification/ClientApi.v ===== *)
(** * What a client asks

    [client_api.c]: the calls with which a process of the application asks its
    server.  A call makes up a message, sends it, and takes the answer apart; the
    answer is written into the buffer of the request.  An access outside a buffer,
    a null pointer that is used or a failing [assert] is [None]; the result -1 is
    [Some None].

    The theorems put a client and the server of [Handlers] together: what the
    client asks is what the server understands, and what the client gets is true. *)

From Stdlib Require Import Ascii String ZArith Lia.
From stdpp Require Import strings numbers gmap list.
From S2P Require Import Prelude Bytes Requestors Cobo Message Msgbundle Cache GlobalName Pathfn Parseloc ElfRead Mounts Server Handlers Truth TruthLoad TruthHandlers TruthAnswers TruthMessages Network RootAnswers.
Import Cache GlobalName Pathfn Parseloc ElfRead Mounts Server Handlers Truth TruthLoad TruthHandlers TruthAnswers TruthMessages Network RootAnswers.

Module ClientApi.

(** ** Buffers *)

Definition strncpy (n : Z) (s : bytes) : bytes :=
  take (Z.to_nat n) s ++ replicate (Z.to_nat n - length s) NUL.

(** [client_recv_msg_static]: the payload is written to the front of the buffer. *)
Definition received (buffer data : bytes) : option bytes :=
  if (length data <=? length buffer)%nat then Some (data ++ drop (length data) buffer) else None.

(** The string at a pointer into a buffer. *)
Definition string_at (buffer : bytes) (pos : nat) : option bytes :=
  let s := drop pos buffer in if has_nul s then Some (cstr s) else None.

Section calls.
(** Whether the lock of the connection is held by this thread, which makes [COMM_LOCK] return. *)
Variable locked : bool.
(** The type and the payload of the message that is received for one that is sent; a
    failure leaves [LDCS_MSG_UNKNOWN] and no payload. *)
Variable exchange : ldcs_message_ids_t → bytes → ldcs_message_ids_t * bytes.
(** What memory holds that has not been written. *)
Variable junk : nat → bytes.
Hypothesis junk_length : ∀ n, length (junk n) = n.

Definition ask {A} (t : ldcs_message_ids_t) (data : bytes) (k : ldcs_message_ids_t → bytes → option (option A))
    : option (option A) :=
  if locked then Some None else let '(t', data') := exchange t data in k t' data'.

Definition send_cachepath_query : option (option (bytes * bytes)) :=
  ask LDCS_MSG_CHOSEN_CACHEPATH_REQUEST [] (λ t data,
    buf ← received (junk (Z.to_nat (2 * (MAX_PATH_LEN + 1)))) data;
    if negb (bool_decide (t = LDCS_MSG_CHOSEN_CACHEPATH)) || (MAX_PATH_LEN <? Z.of_nat (length data))
    then Some None
    else match data with
    | [] => None
    | _ =>
        let buf1 := take (Z.to_nat (2 * (MAX_PATH_LEN + 1) - 1)) buf ++ [NUL] in
        local_crc ← string_at buf1 0;
        local_cpc ← string_at buf1 (length local_crc + 1);
        Some (Some (local_crc, local_cpc))
    end).

(** The new path, or the error code. *)
Definition send_file_query (path : bytes) (dso : bool) : option (option (option bytes * Z)) :=
  if MAX_PATH_LEN <? Z.of_nat (length path) + 1 then Some None
  else
    ask (if dso then LDCS_MSG_DSO_QUERY_EXACT_PATH else LDCS_MSG_FILE_QUERY_EXACT_PATH) (path ++ [NUL]) (λ t data,
      buf ← received (strncpy MAX_PATH_LEN path ++ junk 4 ++ [NUL]) data;
      if negb (bool_decide (t = LDCS_MSG_FILE_QUERY_ANSWER)) then Some None
      else if (4 <? length data)%nat then newpath ← string_at buf 4; Some (Some (Some newpath, 0))
      else match data with [] => None | _ => Some (Some (None, rd_i32 buf 0)) end).

Inductive stat_reply := STAT_SELF | STAT_PATH (newpath : bytes).

Definition send_stat_request (path : bytes) (is_lstat : bool) : option (option stat_reply) :=
  let path_len := Z.of_nat (length path) + (if is_lstat then 0 else 1) + 1 in
  if MAX_PATH_LEN + 1 <=? path_len then Some None
  else
    let newpath := strncpy MAX_PATH_LEN path ++ [NUL] in
    ask (if is_lstat then LDCS_MSG_LSTAT_QUERY else LDCS_MSG_STAT_QUERY) (take (Z.to_nat path_len) newpath) (λ t data,
      buf ← received newpath data;
      match t with
      | LDCS_MSG_STAT_ANSWER_SELF => Some (Some STAT_SELF)
      | LDCS_MSG_STAT_ANSWER =>
          match data with [] => Some (Some (STAT_PATH [])) | _ => s ← string_at buf 0; Some (Some (STAT_PATH s)) end
      | _ => Some None
      end).

Definition send_existance_test (path : bytes) : option (option Z) :=
  if MAX_PATH_LEN <? Z.of_nat (length path) + 1 then Some None
  else
    ask LDCS_MSG_EXISTS_QUERY (path ++ [NUL]) (λ t data,
      buf ← received (strncpy MAX_PATH_LEN path ++ [NUL]) data;
      if negb (bool_decide (t = LDCS_MSG_EXISTS_ANSWER)) || negb (length data =? 4)%nat then Some None
      else Some (Some (rd_i32 buf 0))).

Definition send_orig_path_request (path : bytes) : option (option bytes) :=
  if MAX_PATH_LEN <? Z.of_nat (length path) + 1 then Some None
  else
    ask LDCS_MSG_ORIGPATH_QUERY (path ++ [NUL]) (λ t data,
      buf ← received (strncpy MAX_PATH_LEN path ++ [NUL]) data;
      if negb (bool_decide (t = LDCS_MSG_ORIGPATH_ANSWER)) || (MAX_PATH_LEN <? Z.of_nat (length data)) then Some None
      else newpath ← string_at buf 0; Some (Some newpath)).

(** The answer is in memory of its size. *)
Definition send_dirlists_request : option (option (bytes * bytes)) :=
  ask LDCS_MSG_DIRLISTS_REQ [] (λ _ buffer,
    if (length buffer <? 4)%nat then None
    else
      let local_len := rd_u 4 buffer 0 in
      let pos := (4 + Z.to_nat local_len)%nat in
      if (length buffer <? pos + 4)%nat then None
      else
        let ee_len := rd_u 4 buffer pos in
        local_result ← string_at buffer 4;
        exece_result ← string_at buffer (pos + 4);
        if (pos + 4 + Z.to_nat ee_len =? length buffer)%nat then Some (Some (local_result, exece_result)) else None).

Definition send_ldso_info_request (ldso_path : bytes) (next : ascii) (result_path : bytes) : option (option bytes) :=
  ask LDCS_MSG_LOADER_DATA_REQ (ldso_path ++ [NUL] ++ [next]) (λ t data,
    buf ← received result_path data;
    if negb (bool_decide (t = LDCS_MSG_LOADER_DATA_RESP)) then Some None
    else s ← string_at buf 0; Some (Some s)).

Definition get_python_prefix : option (option bytes) :=
  ask LDCS_MSG_PYTHONPREFIX_REQ [] (λ _ data, prefix ← string_at data 0; Some (Some prefix)).

Definition send_rankinfo_query : option (option (Z * Z * Z * Z)) :=
  ask LDCS_MSG_MYRANKINFO_QUERY [] (λ t data,
    p ← received (junk (Z.to_nat MAX_PATH_LEN)) data;
    if negb (bool_decide (t = LDCS_MSG_MYRANKINFO_QUERY_ANSWER)) || negb (length data =? 16)%nat then Some None
    else Some (Some (rd_i32 p 0, rd_i32 p 4, rd_i32 p 8, rd_i32 p 12))).

Definition send_procmaps_query (pid : Z) : option (option bytes) :=
  ask LDCS_MSG_PROCMAPS_REQ (le32 pid) (λ t data,
    buf ← received (le32 pid ++ junk (Z.to_nat (MAX_PATH_LEN - 3))) data;
    if negb (bool_decide (t = LDCS_MSG_PROCMAPS_RESP)) then Some None
    else result ← string_at (take (Z.to_nat MAX_PATH_LEN) buf) 0; Some (Some result)).

(** A key that is longer than the buffer is read beyond its end. *)
Definition send_pickone_query (key : bytes) : option (option Z) :=
  let buffer := strncpy MAX_PATH_LEN key ++ [NUL] in
  if (length buffer <? length key + 1)%nat then None
  else
    ask LDCS_MSG_PICKONE_REQ (take (length key + 1) buffer) (λ t data,
      buf ← received buffer data;
      if negb (bool_decide (t = LDCS_MSG_PICKONE_RESP)) then Some None
      else match data with [] => None | _ => Some (Some (rd_i32 buf 0)) end).

(** ** Messages without an answer *)

Definition send_dir_cwd (cwd : bytes) : ldcs_message_ids_t * bytes := (LDCS_MSG_CWD, cwd ++ [NUL]).
Definition send_location (location : bytes) : ldcs_message_ids_t * bytes := (LDCS_MSG_COMMPATH, location ++ [NUL]).

(** [snprintf (buffer, 16, "%d", ...)], and all of the buffer is sent. *)
Definition number_message (n : Z) : bytes :=
  let s := take 15 (dec n) ++ [NUL] in s ++ junk (16 - length s).
Definition send_pid (pid : Z) : ldcs_message_ids_t * bytes := (LDCS_MSG_PID, number_message pid).
Definition send_cpu (cpu : Z) : ldcs_message_ids_t * bytes := (LDCS_MSG_CPU, number_message cpu).
Definition send_end : ldcs_message_ids_t * bytes := (LDCS_MSG_END, []).

(** ** Buffers hold what was received *)

Lemma received_front (buffer data : bytes) :
  (length data <= length buffer)%nat → received buffer data = Some (data ++ drop (length data) buffer).
Proof. intros H. unfold received. by rewrite (proj2 (Nat.leb_le _ _)) by done. Qed.

Lemma string_front (a s t : bytes) : no_nul s = true → string_at (a ++ s ++ NUL :: t) (length a) = Some s.
Proof.
  intros Hs. unfold string_at. rewrite drop_app_length, cstr_app_nul by done.
  assert (has_nul (s ++ NUL :: t) = true) as ->; [|done]. unfold has_nul. rewrite no_nul_app, Hs. reflexivity.
Qed.

Lemma string_start (s t : bytes) : no_nul s = true → string_at (s ++ NUL :: t) 0 = Some s.
Proof. exact (string_front [] s t). Qed.

Lemma strncpy_length n s : 0 <= n → length (strncpy n s) = Z.to_nat n.
Proof. intros Hn. unfold strncpy. rewrite length_app, length_take, length_replicate. lia. Qed.

Lemma strncpy_prefix n s k :
  Z.of_nat (length s) < n → (k <= Z.to_nat n)%nat → (length s < k)%nat → ∃ z, take k (strncpy n s ++ [NUL]) = s ++ NUL :: replicate z NUL.
Proof.
  intros Hs Hk Hk2. destruct (k - length s)%nat as [|z] eqn:Ez; [lia|]. exists z. unfold strncpy.
  rewrite (take_ge s) by lia. rewrite <- app_assoc, take_app_ge by lia. f_equal.
  rewrite take_app_le by (rewrite length_replicate; lia). by rewrite take_replicate, Nat.min_l, Ez by lia.
Qed.

End calls.

(** ** A client and its server *)

Section served.
Context {RT : Type} `{RS : RequestorStore RT}.
Variable cfg : config.
Variable fs : os.

Abbreviation server := (server RT).

Definition replies (nc : nat) (s s' : server) : list ldcs_message_t :=
  omap (λ o, match o with ToClient i _ m => if (i =? nc)%nat then Some m else None | _ => None end) (sent s s').

(** The connection of the client [nc] to a server in state [s], which answers at once. *)
Definition connection (s : server) (nc : nat) (t : ldcs_message_ids_t) (data : bytes) : ldcs_message_ids_t * bytes :=
  match handle_client_message cfg fs nc t data s with
  | Some (_, s') =>
      match replies nc s s' with
      | [m] => (msg_type m, default [] (msg_data m))
      | _ => (LDCS_MSG_UNKNOWN, [])
      end
  | None => (LDCS_MSG_UNKNOWN, [])
  end.

Lemma connection_answer (s s' : server) nc t data x msgs q m :
  handle_client_message cfg fs nc t data s = Some (x, s') → out s' = out s ++ msgs ++ [ToClient nc q m] →
  Forall to_server msgs → connection s nc t data = (msg_type m, default [] (msg_data m)).
Proof.
  intros E Ho Hm. unfold connection, replies, sent. rewrite E, Ho, drop_app_length.
  assert (omap (λ o, match o with ToClient i _ m => if (i =? nc)%nat then Some m else None | _ => None end)
    (msgs ++ [ToClient nc q m]) = [m]) as ->; [|done].
  clear Ho. induction Hm as [|o msgs Hm _ IH]; cbn; [by rewrite Nat.eqb_refl|].
  destruct o; [done|exact IH..].
Qed.

Variable s : server.
Variable nc : nat.
Variable c : client.
Hypothesis Hc : client_table s !! nc = Some c.
Hypothesis Hu : unreachable c = false.

(** The answer of a handler that does nothing but answer, and perhaps close the query. *)
Lemma connection_runs t data t' data' s' :
  handle_client_message cfg fs nc t data s = Some (0, s') → out s' = out s ++ [ToClient nc c (message t' data')] →
  connection s nc t data = (t', data').
Proof.
  intros E Ho. apply (connection_answer s s' nc t data 0 [] c (message t' data') E); [done|constructor].
Qed.

(** The handler [h] looks up the client, checks what [hyp] says, and answers. *)
Tactic Notation "serve" reference(h) constr(hyp) :=
  eapply connection_runs;
    [cbn [handle_client_message]; unfold h; rewrite (get_client_runs _ _ _ _ Hc), ?Hu, ?hyp; reflexivity | reflexivity].

Lemma served_pythonprefix :
  connection s nc LDCS_MSG_PYTHONPREFIX_REQ [] = (LDCS_MSG_PYTHONPREFIX_RESP, pythonprefix cfg ++ [NUL]).
Proof. serve handle_pythonprefix_query Hu. Qed.

Lemma served_dirlists :
  connection s nc LDCS_MSG_DIRLISTS_REQ [] = (LDCS_MSG_DIRLISTS_RESP,
    le32 (Z.of_nat (length (localprefix cfg)) + 1) ++ (localprefix cfg ++ [NUL]) ++
    le32 (Z.of_nat (length (exec_excludes cfg)) + 1) ++ (exec_excludes cfg ++ [NUL])).
Proof. serve handle_client_dirlists_req Hu. Qed.

Lemma served_rankinfo :
  connection s nc LDCS_MSG_MYRANKINFO_QUERY [] = (LDCS_MSG_MYRANKINFO_QUERY_ANSWER,
    le32 (Z.of_nat nc) ++ le32 (client_counter s) ++ le32 (md_rank cfg) ++ le32 (md_size cfg)).
Proof. serve handle_client_myrankinfo_msg Hu. Qed.

Lemma served_cachepath parsed :
  parsed_cachepath cfg = Some parsed →
  connection s nc LDCS_MSG_CHOSEN_CACHEPATH_REQUEST [] =
    (LDCS_MSG_CHOSEN_CACHEPATH, cachepath cfg ++ [NUL] ++ parsed ++ [NUL]).
Proof. intros Hp. serve handle_chosen_cachepath_request Hp. Qed.

Lemma served_procmaps data :
  length data = 4%nat →
  connection s nc LDCS_MSG_PROCMAPS_REQ data =
    (LDCS_MSG_PROCMAPS_RESP, default [] (os_proc_maps fs (rd_i32 data 0)) ++ [NUL]).
Proof. intros Hl. serve handle_client_procmaps_msg Hl. Qed.

Lemma served_origpath path g :
  no_nul path = true →
  lookup_global_name (cachepath cfg) (normalized_tmpdir cfg) (names (st s))
    (if match path with a :: _ => negb (Ascii.eqb a SLASH) && negb (Ascii.eqb a PERIOD) | [] => true end
     then take (Z.to_nat (MAX_PATH_LEN - 1)) (cachepath cfg ++ [SLASH] ++ path) else take (Z.to_nat MAX_PATH_LEN) path)
  = Some g →
  connection s nc LDCS_MSG_ORIGPATH_QUERY (path ++ [NUL]) = (LDCS_MSG_ORIGPATH_ANSWER, default path g ++ [NUL]).
Proof.
  intros Hn Hg. eapply connection_runs.
  - cbn [handle_client_message]. unfold assert_.
    assert (has_nul (path ++ [NUL]) = true) as -> by (unfold has_nul; rewrite no_nul_app, Hn; reflexivity).
    unfold handle_client_origpath_msg. rewrite cstr_app_nul by done. unfold bind at 1, ret at 1.
    rewrite (get_client_runs _ _ _ _ Hc). unfold bind at 1, gets. unfold bind at 1, lift_option. rewrite Hg. reflexivity.
  - reflexivity.
Qed.

Lemma served_pid junk pid :
  (∀ n, length (junk n) = n) → - 2 ^ 31 <= pid < 2 ^ 31 →
  ∃ s', handle_client_message cfg fs nc (send_pid junk pid).1 (send_pid junk pid).2 s = Some (0, s') ∧
    client_table s' !! nc = Some (set_pid pid c) ∧ st s' = st s ∧ out s' = out s.
Proof.
  intros Hj Hp. cbn [fst snd send_pid handle_client_message handle_client_info_msg].
  assert (scan_int (cstr (number_message junk pid)) = Some pid) as E.
  { unfold number_message. cbv zeta. rewrite take_ge by (pose proof (dec_length pid Hp); lia).
    rewrite <- app_assoc. cbn [app]. rewrite cstr_app_nul by (by apply dec_no_nul). rewrite <- (app_nil_r (dec pid)). by apply scan_dec. }
  unfold bind at 1, lift_option. rewrite E. eexists. split; [reflexivity|]. split; [|done].
  cbn. by rewrite list_lookup_alter_eq, Hc.
Qed.

End served.
(** Strings without NUL, of a size that fits, and numbers that fit. *)
Record plain_config (cfg : config) : Prop := mk_plain_config {
  plain_local : no_nul (localprefix cfg) = true ∧ Z.of_nat (length (localprefix cfg)) + 1 < 2 ^ 31;
  plain_excludes : no_nul (exec_excludes cfg) = true ∧ Z.of_nat (length (exec_excludes cfg)) + 1 < 2 ^ 31;
  plain_python : no_nul (pythonprefix cfg) = true;
  plain_cachepath : no_nul (cachepath cfg) = true;
  plain_rank : - 2 ^ 31 <= md_rank cfg < 2 ^ 31 ∧ - 2 ^ 31 <= md_size cfg < 2 ^ 31;
}.

Lemma length_le32 z : length (le32 z) = 4%nat.
Proof. apply le_encode_length. Qed.

Lemma dirlists_decode (a b : bytes) ex :
  no_nul a = true → Z.of_nat (length a) + 1 < 2 ^ 31 → no_nul b = true → Z.of_nat (length b) + 1 < 2 ^ 31 →
  ex LDCS_MSG_DIRLISTS_REQ [] = (LDCS_MSG_DIRLISTS_RESP,
    le32 (Z.of_nat (length a) + 1) ++ (a ++ [NUL]) ++ le32 (Z.of_nat (length b) + 1) ++ (b ++ [NUL])) →
  send_dirlists_request false ex = Some (Some (a, b)).
Proof.
  intros Ha Hla Hb Hlb E. unfold send_dirlists_request, ask. rewrite E.
  set (la := Z.of_nat (length a) + 1) in *. set (lb := Z.of_nat (length b) + 1) in *.
  assert (∀ z t, 0 <= z < 2 ^ 32 → rd_u 4 (le32 z ++ t) 0 = z) as Hrd.
  { intros z t Hz. rewrite rd_u_front by apply length_le32. by apply le_decode_encode_small. }
  rewrite Hrd by lia.
  assert (length (le32 la ++ a ++ [NUL]) = 4 + Z.to_nat la)%nat as Hpos.
  { rewrite !length_app, length_le32. cbn [length]. lia. }
  rewrite (proj2 (Nat.ltb_ge _ _)) by (rewrite !length_app, length_le32; lia).
  rewrite (proj2 (Nat.ltb_ge _ _)) by (rewrite !length_app, !length_le32; cbn [length]; lia).
  assert (rd_u 4 (le32 la ++ (a ++ [NUL]) ++ le32 lb ++ b ++ [NUL]) (4 + Z.to_nat la) = lb) as ->.
  { rewrite <- Hpos, (app_assoc (le32 la)). rewrite (rd_u_app 4 (le32 la ++ a ++ [NUL]) (le32 lb)) by (done || apply length_le32).
    apply le_decode_encode_small. lia. }
  assert (string_at (le32 la ++ (a ++ [NUL]) ++ le32 lb ++ b ++ [NUL]) 4 = Some a) as ->.
  { rewrite <- (length_le32 la). rewrite <- (app_assoc a). cbn [app]. by apply string_front. }
  assert (string_at (le32 la ++ (a ++ [NUL]) ++ le32 lb ++ b ++ [NUL]) (4 + Z.to_nat la + 4) = Some b) as ->.
  { replace (4 + Z.to_nat la + 4)%nat with (length ((le32 la ++ a ++ [NUL]) ++ le32 lb))
      by (rewrite length_app, Hpos, length_le32; done).
    rewrite (app_assoc (le32 la)), (app_assoc _ (le32 lb)). by apply string_front. }
  cbn [mbind option_bind].
  rewrite (proj2 (Nat.eqb_eq _ _)); [done|]. rewrite !length_app, !length_le32. cbn [length]. lia.
Qed.

Section decode.
Variable junk : nat → bytes.
Hypothesis junk_length : ∀ n, length (junk n) = n.
Variable ex : ldcs_message_ids_t → bytes → ldcs_message_ids_t * bytes.

Lemma cachepath_decode (a b : bytes) :
  no_nul a = true → no_nul b = true → Z.of_nat (length a) + Z.of_nat (length b) + 2 <= MAX_PATH_LEN →
  ex LDCS_MSG_CHOSEN_CACHEPATH_REQUEST [] = (LDCS_MSG_CHOSEN_CACHEPATH, a ++ [NUL] ++ b ++ [NUL]) →
  send_cachepath_query false ex junk = Some (Some (a, b)).
Proof.
  intros Ha Hb Hl E. unfold send_cachepath_query, ask. rewrite E.
  set (d := a ++ [NUL] ++ b ++ [NUL]).
  assert (length d = length a + length b + 2)%nat as Hd by (unfold d; rewrite !length_app; cbn [length]; lia).
  rewrite received_front by (rewrite junk_length; unfold MAX_PATH_LEN in *; lia). cbn [mbind option_bind].
  rewrite bool_decide_true by done. cbn [negb orb].
  rewrite (proj2 (Z.ltb_ge _ _)) by lia.
  set (rest := drop (length d) (junk (Z.to_nat (2 * (MAX_PATH_LEN + 1))))).
  assert (take (Z.to_nat (2 * (MAX_PATH_LEN + 1) - 1)) (d ++ rest) =
    d ++ take (Z.to_nat (2 * (MAX_PATH_LEN + 1) - 1) - length d) rest) as ->.
  { rewrite take_app_ge by (unfold MAX_PATH_LEN in *; lia). done. }
  set (tl := take _ rest).
  assert (∀ A (X : option A), match d with [] => None | _ :: _ => X end = X) as -> by (intros; unfold d; by destruct a).
  unfold d. clearbody tl. clear rest Hd d.
  assert (string_at ((a ++ [NUL] ++ b ++ [NUL]) ++ tl ++ [NUL]) 0 = Some a) as H0.
  { rewrite <- !app_assoc. cbn [app]. by apply string_start. }
  assert (string_at ((a ++ [NUL] ++ b ++ [NUL]) ++ tl ++ [NUL]) (length a + 1) = Some b) as H1.
  { replace (length a + 1)%nat with (length (a ++ [NUL])) by (rewrite length_app; done).
    rewrite (app_assoc a), <- (app_assoc (a ++ [NUL])). rewrite <- (app_assoc b). cbn [app]. by apply string_front. }
  rewrite <- app_assoc, H0. cbn [mbind option_bind]. rewrite H1. done.
Qed.

Lemma rankinfo_decode a b c d :
  - 2 ^ 31 <= a < 2 ^ 31 → - 2 ^ 31 <= b < 2 ^ 31 → - 2 ^ 31 <= c < 2 ^ 31 → - 2 ^ 31 <= d < 2 ^ 31 →
  ex LDCS_MSG_MYRANKINFO_QUERY [] = (LDCS_MSG_MYRANKINFO_QUERY_ANSWER, le32 a ++ le32 b ++ le32 c ++ le32 d) →
  send_rankinfo_query false ex junk = Some (Some (a, b, c, d)).
Proof.
  intros Ha Hb Hc Hd E. unfold send_rankinfo_query, ask. rewrite E.
  assert (length (le32 a ++ le32 b ++ le32 c ++ le32 d) = 16%nat) as Hl by (rewrite !length_app, !length_le32; done).
  rewrite received_front by (rewrite junk_length, Hl; unfold MAX_PATH_LEN; lia). cbn [mbind option_bind].
  rewrite bool_decide_true, Hl by done. cbn [negb orb Nat.eqb]. do 2 f_equal. rewrite <- !app_assoc.
  pose proof (λ t, rd_i32_le32 [] a t 0 eq_refl Ha) as R0.
  pose proof (λ t, rd_i32_le32 (le32 a) b t 4 (length_le32 _) Hb) as R1.
  assert (∀ t, rd_i32 (le32 a ++ le32 b ++ le32 c ++ t) 8 = c) as R2.
  { intros t. rewrite (app_assoc (le32 a)). apply rd_i32_le32; [|done]. by rewrite length_app, !length_le32. }
  assert (∀ t, rd_i32 (le32 a ++ le32 b ++ le32 c ++ le32 d ++ t) 12 = d) as R3.
  { intros t. rewrite (app_assoc (le32 b)), (app_assoc (le32 a)). apply rd_i32_le32; [|done].
    by rewrite !length_app, !length_le32. }
  cbn [app] in R0. by rewrite R0, R1, R2, R3.
Qed.

Lemma procmaps_decode pid (f : bytes) :
  no_nul f = true → Z.of_nat (length f) + 1 <= MAX_PATH_LEN →
  ex LDCS_MSG_PROCMAPS_REQ (le32 pid) = (LDCS_MSG_PROCMAPS_RESP, f ++ [NUL]) →
  send_procmaps_query false ex junk pid = Some (Some f).
Proof.
  intros Hf Hl E. unfold send_procmaps_query, ask. rewrite E.
  rewrite received_front by (rewrite !length_app, junk_length, length_le32; cbn [length]; unfold MAX_PATH_LEN in *; lia).
  cbn [mbind option_bind]. rewrite bool_decide_true by done. cbn [negb].
  rewrite take_app_ge by (rewrite length_app; cbn [length]; lia). rewrite <- app_assoc. cbn [app].
  by rewrite string_start.
Qed.

Lemma origpath_decode path (g : bytes) :
  Z.of_nat (length path) + 1 <= MAX_PATH_LEN → no_nul g = true → Z.of_nat (length g) + 1 <= MAX_PATH_LEN →
  ex LDCS_MSG_ORIGPATH_QUERY (path ++ [NUL]) = (LDCS_MSG_ORIGPATH_ANSWER, g ++ [NUL]) →
  send_orig_path_request false ex path = Some (Some g).
Proof.
  intros Hp Hg Hl E. unfold send_orig_path_request, ask. rewrite (proj2 (Z.ltb_ge _ _)) by lia. rewrite E.
  assert (length (g ++ [NUL]) = length g + 1)%nat as Hgl by (by rewrite length_app).
  rewrite received_front by (rewrite Hgl, length_app, strncpy_length by (unfold MAX_PATH_LEN; lia); cbn [length]; unfold MAX_PATH_LEN in *; lia).
  cbn [mbind option_bind]. rewrite bool_decide_true by done. cbn [negb orb].
  rewrite (proj2 (Z.ltb_ge _ _)) by lia. rewrite <- app_assoc. cbn [app].
  by rewrite string_start.
Qed.

Lemma file_query_path path (dso : bool) (l : bytes) :
  Z.of_nat (length path) + 1 <= MAX_PATH_LEN → no_nul l = true → Z.of_nat (length l) <= MAX_PATH_LEN → l ≠ [] →
  ex (if dso then LDCS_MSG_DSO_QUERY_EXACT_PATH else LDCS_MSG_FILE_QUERY_EXACT_PATH) (path ++ [NUL]) =
    (LDCS_MSG_FILE_QUERY_ANSWER, le32 0 ++ l ++ [NUL]) →
  send_file_query false ex junk path dso = Some (Some (Some l, 0)).
Proof.
  intros Hp Hl Hll Hne E. unfold send_file_query, ask. rewrite (proj2 (Z.ltb_ge _ _)) by lia. rewrite E.
  assert (length (le32 0 ++ l ++ [NUL]) = length l + 5)%nat as Hlen.
  { rewrite !length_app, length_le32. cbn [length]. lia. }
  rewrite received_front
    by (rewrite Hlen, !length_app, strncpy_length, junk_length by (unfold MAX_PATH_LEN; lia); cbn [length]; unfold MAX_PATH_LEN in *; lia).
  cbn [mbind option_bind]. rewrite bool_decide_true by done. cbn [negb]. rewrite Hlen, (proj2 (Nat.ltb_lt _ _)) by lia.
  rewrite <- !app_assoc. cbn [app]. rewrite <- (length_le32 0) at 2. by rewrite string_front.
Qed.

Lemma file_query_error path (dso : bool) e :
  Z.of_nat (length path) + 1 <= MAX_PATH_LEN → - 2 ^ 31 <= e < 2 ^ 31 →
  ex (if dso then LDCS_MSG_DSO_QUERY_EXACT_PATH else LDCS_MSG_FILE_QUERY_EXACT_PATH) (path ++ [NUL]) =
    (LDCS_MSG_FILE_QUERY_ANSWER, le32 e) →
  send_file_query false ex junk path dso = Some (Some (None, e)).
Proof.
  intros Hp He E. unfold send_file_query, ask. rewrite (proj2 (Z.ltb_ge _ _)) by lia. rewrite E.
  rewrite received_front
    by (rewrite length_le32, !length_app, strncpy_length, junk_length by (unfold MAX_PATH_LEN; lia); unfold MAX_PATH_LEN; lia).
  cbn [mbind option_bind]. rewrite bool_decide_true, length_le32 by done. cbn [negb Nat.ltb Nat.leb].
  pose proof (λ t, rd_i32_le32 [] e t 0 eq_refl He) as R. cbn [app] in R. rewrite R.
  pose proof (length_le32 e). by destruct (le32 e).
Qed.

End decode.

(** C39 A connected client and its server understand each other: the lists of directories,
    the Python prefixes, the ranks, the cache paths, the file that stands for
    [/proc/<pid>/maps] and the original name of a file arrive at the client as the
    server has them, without an access outside a buffer; and the server knows the
    process that a client says it is. *)
Theorem client_information {RT} `{RS : RequestorStore RT} cfg fs (s : server RT) nc c junk :
  (∀ n, length (junk n) = n) → plain_config cfg →
  client_table s !! nc = Some c → unreachable c = false →
  Z.of_nat nc < 2 ^ 31 → - 2 ^ 31 <= client_counter s < 2 ^ 31 →
  let ex := connection cfg fs s nc in
  send_dirlists_request false ex = Some (Some (localprefix cfg, exec_excludes cfg)) ∧
  get_python_prefix false ex = Some (Some (pythonprefix cfg)) ∧
  send_rankinfo_query false ex junk = Some (Some (Z.of_nat nc, client_counter s, md_rank cfg, md_size cfg)) ∧
  (∀ parsed, parsed_cachepath cfg = Some parsed → no_nul parsed = true →
     Z.of_nat (length (cachepath cfg)) + Z.of_nat (length parsed) + 2 <= MAX_PATH_LEN →
     send_cachepath_query false ex junk = Some (Some (cachepath cfg, parsed))) ∧
  (∀ pid f, - 2 ^ 31 <= pid < 2 ^ 31 → default [] (os_proc_maps fs pid) = f → no_nul f = true →
     Z.of_nat (length f) + 1 <= MAX_PATH_LEN → send_procmaps_query false ex junk pid = Some (Some f)) ∧
  (∀ l g, l !! 0%nat = Some SLASH → no_nul l = true → Z.of_nat (length l) + 1 <= MAX_PATH_LEN →
     no_nul (default l g) = true → Z.of_nat (length (default l g)) + 1 <= MAX_PATH_LEN →
     lookup_global_name (cachepath cfg) (normalized_tmpdir cfg) (names (st s)) l = Some g →
     send_orig_path_request false ex l = Some (Some (default l g))) ∧
  (∀ pid, - 2 ^ 31 <= pid < 2 ^ 31 →
     ∃ s', handle_client_message cfg fs nc (send_pid junk pid).1 (send_pid junk pid).2 s = Some (0, s') ∧
       client_table s' !! nc = Some (set_pid pid c) ∧ st s' = st s ∧ out s' = out s).
Proof.
  intros Hj [[H1 H2] [H3 H4] H5 H6 [H7 H8]] Hc Hu Hn Hcc ex. unfold ex. split_and!.
  - apply dirlists_decode; try done. by eapply served_dirlists.
  - unfold get_python_prefix, ask. erewrite served_pythonprefix by done. by rewrite string_start.
  - apply rankinfo_decode; try done; [lia|]. by eapply served_rankinfo.
  - intros parsed Hp Hpn Hl. apply cachepath_decode; try done. by eapply served_cachepath.
  - intros pid f Hp Hf Hfn Hl. apply procmaps_decode; try done. erewrite served_procmaps by (done || apply length_le32).
    assert (rd_i32 (le32 pid) 0 = pid) as ->; [|by rewrite Hf].
    rewrite <- (app_nil_r (le32 pid)). by apply (rd_i32_le32 [] pid []).
  - intros l g Hl Hln Hll Hgn Hgl Hg. apply origpath_decode; try done. eapply served_origpath; [done..|].
    destruct l as [|a l]; [done|]. injection Hl as ->. rewrite Ascii.eqb_refl. cbn [negb andb].
    rewrite take_ge by lia. exact Hg.
  - intros pid Hp. by eapply served_pid.
Qed.

(** What a query for the path [p] tells the client, when the local files are [dk]. *)
Definition query_result (fs : os) (cfg : config) (dk : gmap bytes bytes) (p : bytes) (dso : bool)
    (r : option bytes * Z) : Prop :=
  match r with
  | (Some l, e) => e = 0 ∧
      ((∃ strip contents, dk !! l = Some contents ∧ image fs strip p = Some contents ∧ (strip = true → dso = true)) ∨
       l = p ∨ os_realpath fs p = Some l)
  | (None, e) => ∃ p', (p' = p ∨ os_realpath fs p = Some p') ∧
      (e = ENOENT ∧ ¬ visible_in fs (dir_part p') (file_part p') ∨
       e = SPINDLE_ENODIR ∧ os_readdir fs (dir_part p') = None ∨
       error_of fs p' e ∨ in_cache_dir cfg p' ∧ e = 0)
  end.

(** A true answer to the query [q] is what the client is told about [p], which leads to it. *)
Lemma decode_true {fs cfg dk q p data} junk ex path (dso : bool) :
  fs_ok fs → (∀ n, length (junk n) = n) → Z.of_nat (length path) + 1 <= MAX_PATH_LEN →
  (∀ strip, image fs strip (query_globalpath q) = image fs strip p) → is_dso q = dso → path_ok (query_globalpath q) →
  query_globalpath q = p ∨ os_realpath fs p = Some (query_globalpath q) →
  answer_true fs cfg dk q data →
  ex (if dso then LDCS_MSG_DSO_QUERY_EXACT_PATH else LDCS_MSG_FILE_QUERY_EXACT_PATH) (path ++ [NUL]) =
    (LDCS_MSG_FILE_QUERY_ANSWER, data) →
  ∃ r, send_file_query false ex junk path dso = Some (Some r) ∧ query_result fs cfg dk p dso r.
Proof.
  intros Hfs Hj Hl Him Hd Hp Hq Ht Hex.
  assert (∀ e, - 2 ^ 31 <= e < 2 ^ 31 → data = le32 e → send_file_query false ex junk path dso = Some (Some (None, e)))
    as Herr by (intros e He ->; by apply file_query_error).
  destruct Ht as [(l & strip & c & -> & Hcn & Hdk & Hi & Hs) | [-> | [[E Hv] | [[E Hv] | (e & E & He)]]]].
  - exists (Some l, 0). split; [|split; [done|left; exists strip, c; rewrite <- Him, <- Hd; done]].
    pose proof (content_name_nonempty _ Hcn). destruct Hcn as (_ & Hll & Hn). apply file_query_path; try done. lia.
  - exists (Some (query_globalpath q), 0). split; [|split; [done|right; exact Hq]].
    pose proof (path_len _ Hp). apply file_query_path; try done; [apply Hp|lia|].
    intros E. pose proof (path_file _ Hp) as Hf. by rewrite E in Hf.
  - exists (None, ENOENT). split; [apply Herr; [unfold ENOENT; lia|done]|]. exists (query_globalpath q). auto.
  - exists (None, SPINDLE_ENODIR). split; [apply Herr; [unfold SPINDLE_ENODIR; lia|done]|]. exists (query_globalpath q). auto.
  - exists (None, e). split; [|exists (query_globalpath q); naive_solver]. apply Herr; [|done].
    destruct He as [He | [_ ->]]; [|lia]. pose proof (fs_errno _ Hfs (query_globalpath q) e). unfold error_of in He.
    assert (0 < e < 2 ^ 31); [|lia]. naive_solver.
Qed.


(** ** Picking one process of a job *)

Section pickone.
Context {RT : Type} `{RS : RequestorStore RT}.
(** One server per rank. *)
Variable cfg : Z → config.
Variable fs : Z → os.
Hypothesis Hrank : ∀ r, md_rank (cfg r) = r.

Abbreviation server := (server RT).
(** Rank, client and key of a request. *)
Abbreviation request := (Z * nat * bytes)%type.

(** The answers to a sequence of requests at the servers [S]. *)
Fixpoint picks (S : Z → server) (l : list request) : option (list Z) :=
  match l with
  | [] => Some []
  | (r, nc, key) :: l' =>
      a ← send_pickone_query false (connection (cfg r) (fs r) (S r) nc) key ≫= id;
      '(_, s') ← handle_client_message (cfg r) (fs r) nc LDCS_MSG_PICKONE_REQ (key ++ [NUL]) (S r);
      rest ← picks (λ i, if decide (i = r) then s' else S i) l';
      Some (a :: rest)
  end.

Definition request_ok (S : Z → server) (q : request) : Prop :=
  (q.1.2 < length (client_table (S q.1.1)))%nat ∧ no_nul q.2 = true ∧ Z.of_nat (length q.2) < MAX_PATH_LEN.

Lemma pickone_handled r (s : server) nc key :
  (nc < length (client_table s))%nat → no_nul key = true → Z.of_nat (length key) < MAX_PATH_LEN →
  ∃ s' q, handle_client_message (cfg r) (fs r) nc LDCS_MSG_PICKONE_REQ (key ++ [NUL]) s = Some (0, s') ∧
    out s' = out s ++ [ToClient nc q (message LDCS_MSG_PICKONE_RESP
      (le32 (if bool_decide (key ∉ pickone s) && (r =? 0) then 1 else 0)))] ∧
    pickone s' = {[key]} ∪ pickone s ∧ length (client_table s') = length (client_table s).
Proof.
  intros Hnc Hn Hl. destruct (lookup_lt_is_Some_2 _ _ Hnc) as [c Hc].
  assert (pickone_key (key ++ [NUL]) = Some key) as Hk.
  { unfold pickone_key. rewrite take_ge by (rewrite length_app; cbn [length]; unfold MAX_PATH_LEN in *; lia).
    assert (has_nul (key ++ [NUL]) = true) as -> by (unfold has_nul; rewrite no_nul_app, Hn; reflexivity).
    rewrite cstr_app_nul by done. by destruct key. }
  cbn [handle_client_message]. unfold handle_client_pickone_msg. unfold bind at 1, assert_.
  rewrite (proj2 (Z.leb_le _ _)) by (rewrite length_app; cbn [length]; lia). unfold ret at 1.
  unfold bind at 1, lift_option. rewrite Hk. unfold ret at 1, bind at 1, gets, ldcs_cache_pickone_get.
  case_bool_decide as Hin.
  - rewrite bool_decide_false by (by intros []). cbn [andb]. eexists _, c. split.
    { unfold handle_client_pickone_resp. rewrite (get_client_runs _ _ _ _ Hc). reflexivity. }
    split_and!; [done|cbn; set_solver|cbn; apply length_alter].
  - rewrite bool_decide_true by done. cbn [andb]. eexists _, c. split.
    { unfold bind at 1, modify. unfold handle_client_pickone_resp.
      rewrite (get_client_runs (set_pickone (ldcs_cache_pickone_set (pickone s) key) s) nc c _ Hc). reflexivity. }
    split_and!; [|done|cbn; apply length_alter]. cbn. unfold responsible. by rewrite Hrank.
Qed.

(** How many requests for [key] were answered with 1. *)
Definition picked (key : bytes) (l : list request) (answers : list Z) : nat :=
  length (filter (λ x : request * Z, x.1.2 = key ∧ x.2 = 1) (zip l answers)).

Lemma pickone_called r (s : server) nc key s' q (you : bool) :
  no_nul key = true → Z.of_nat (length key) < MAX_PATH_LEN →
  handle_client_message (cfg r) (fs r) nc LDCS_MSG_PICKONE_REQ (key ++ [NUL]) s = Some (0, s') →
  out s' = out s ++ [ToClient nc q (message LDCS_MSG_PICKONE_RESP (le32 (if you then 1 else 0)))] →
  send_pickone_query false (connection (cfg r) (fs r) s nc) key = Some (Some (if you then 1 else 0)).
Proof.
  intros Hn Hl E Ho. unfold send_pickone_query, ask.
  assert (length (strncpy MAX_PATH_LEN key ++ [NUL]) = Z.to_nat (MAX_PATH_LEN + 1)) as Hbl.
  { rewrite length_app, strncpy_length by (unfold MAX_PATH_LEN; lia). cbn [length]. unfold MAX_PATH_LEN. lia. }
  rewrite Hbl, (proj2 (Nat.ltb_ge _ _)) by lia.
  assert (take (length key + 1) (strncpy MAX_PATH_LEN key ++ [NUL]) = key ++ [NUL]) as ->.
  { destruct (strncpy_prefix MAX_PATH_LEN key (length key + 1)) as [z Ez]; [done|lia..|].
    rewrite Ez. do 2 f_equal. apply (f_equal length) in Ez.
    rewrite length_take, Hbl, length_app in Ez. cbn [length] in Ez. rewrite length_replicate in Ez.
    assert (z = 0%nat) as -> by lia. done. }
  assert (connection (cfg r) (fs r) s nc LDCS_MSG_PICKONE_REQ (key ++ [NUL]) =
    (LDCS_MSG_PICKONE_RESP, le32 (if you then 1 else 0))) as ->.
  { apply (connection_answer (cfg r) (fs r) s s' nc _ _ 0 [] q _ E Ho). constructor. }
  rewrite received_front by (rewrite length_le32, Hbl; unfold MAX_PATH_LEN; lia). cbn [mbind option_bind].
  rewrite bool_decide_true by done. cbn [negb].
  pose proof (λ z t Hz, rd_i32_le32 [] z t 0 eq_refl Hz) as R. cbn [app] in R.
  rewrite R by (destruct you; lia). pose proof (length_le32 (if you then 1 else 0)). by destruct (le32 _).
Qed.

(** The keys that have been asked for at the root. *)
Definition root_keys (l : list request) : list bytes := (λ q : request, q.2) <$> filter (λ q : request, q.1.1 = 0) l.

Lemma picks_count (S : Z → server) l :
  Forall (request_ok S) l →
  ∃ answers, picks S l = Some answers ∧ length answers = length l ∧
    (∀ i r nc key a, l !! i = Some (r, nc, key) → answers !! i = Some a → a = 0 ∨ a = 1 ∧ r = 0) ∧
    ∀ key, picked key l answers = if bool_decide (key ∈ root_keys l ∧ key ∉ pickone (S 0)) then 1%nat else 0%nat.
Proof.
  revert S. induction l as [|[[r nc] key] l IH]; intros S Hl.
  { exists []. by split_and!. }
  apply Forall_cons in Hl as [(Hnc & Hn & Hlen) Hl]. cbn in Hnc, Hn, Hlen.
  destruct (pickone_handled r (S r) nc key Hnc Hn Hlen) as (s' & q & E & Ho & Hp & Ht).
  set (you := bool_decide (key ∉ pickone (S r)) && (r =? 0)) in *.
  set (S' := λ i, if decide (i = r) then s' else S i).
  destruct (IH S') as (rest & Er & Hlr & H01 & Hcount).
  { eapply Forall_impl; [exact Hl|]. intros [[r1 nc1] k1] (H1 & H2 & H3). split; [|done]. cbn in *. unfold S'.
    destruct (decide (r1 = r)) as [-> | _]; [by rewrite Ht|done]. }
  exists ((if you then 1 else 0) :: rest). split_and!.
  - cbn [picks]. rewrite (pickone_called r (S r) nc key s' q you Hn Hlen E Ho). cbn [mbind option_bind id].
    rewrite E. cbn [mbind option_bind]. fold S'. by rewrite Er.
  - cbn. by rewrite Hlr.
  - intros [|i] r1 nc1 k1 a; cbn; [|by apply H01]. intros [= <- <- <-] [= <-]. unfold you.
    destruct (r =? 0) eqn:E0; bool_to_prop; [|rewrite andb_false_r; by left]. destruct (bool_decide _); cbn; auto.
  - intros k. unfold picked. cbn [zip zip_with]. rewrite filter_cons. cbn [fst snd].
    specialize (Hcount k). unfold picked in Hcount. clear E Ho IH Er H01 Hlr Hl Ht Hnc.
    assert (k ∈ root_keys ((r, nc, key) :: l) ↔ (r = 0 ∧ k = key) ∨ k ∈ root_keys l) as Hkeys.
    { unfold root_keys. rewrite filter_cons. cbn [fst]. destruct (decide (r = 0)); set_solver. }
    assert (k ∈ pickone (S' 0) ↔ (r = 0 ∧ k = key) ∨ k ∈ pickone (S 0)) as Hset.
    { unfold S'. destruct (decide (0 = r)) as [<- | Hne]; [rewrite Hp; set_solver|]. naive_solver. }
    destruct (decide (key = k ∧ (if you then 1 else 0) = 1)) as [[-> Hy] | Hno].
    + cbn [length]. rewrite Hcount. unfold you in Hy.
      destruct (r =? 0) eqn:E0; [|rewrite andb_false_r in Hy; lia]. bool_to_prop. subst r.
      destruct (decide (k ∉ pickone (S 0))) as [Hk | Hk]; [|rewrite bool_decide_false in Hy by done; cbn in Hy; lia].
      rewrite (bool_decide_false (_ ∧ _ ∉ pickone (S' 0))) by (rewrite Hset; naive_solver).
      by rewrite bool_decide_true by (rewrite Hkeys; naive_solver).
    + rewrite Hcount. enough (bool_decide (k ∈ root_keys l ∧ k ∉ pickone (S' 0)) =
        bool_decide (k ∈ root_keys ((r, nc, key) :: l) ∧ k ∉ pickone (S 0))) as -> by done.
      apply bool_decide_ext. rewrite Hkeys, Hset. assert (¬ (r = 0 ∧ key = k ∧ k ∉ pickone (S 0))); [|naive_solver].
      intros (-> & -> & Hk). apply Hno. split; [done|]. unfold you. by rewrite bool_decide_true.
Qed.

End pickone.

(** C33 A process of a job can be picked.  In any sequence of [send_pickone_query] calls by
    clients of any servers, with keys that fit, every call is answered with 0 or 1, 1
    only at the root; and for every key exactly one call is answered with 1 if there is
    a call with that key at the root, and none otherwise. *)
Theorem picks_one {RT} `{RS : RequestorStore RT} cfg fs (S : Z → server RT) l :
  (∀ r, md_rank (cfg r) = r) → Forall (request_ok S) l → pickone (S 0) = ∅ →
  ∃ answers, picks cfg fs S l = Some answers ∧ length answers = length l ∧
    (∀ i r nc key a, l !! i = Some (r, nc, key) → answers !! i = Some a → a = 0 ∨ a = 1 ∧ r = 0) ∧
    ∀ key, picked key l answers = if bool_decide (key ∈ root_keys l) then 1%nat else 0%nat.
Proof.
  intros Hrank Hl H0. destruct (picks_count cfg fs Hrank S l Hl) as (answers & E & Hlen & H01 & Hc).
  exists answers. split; [done|]. split; [done|]. split; [done|]. intros key. rewrite Hc.
  enough (bool_decide (key ∈ root_keys l ∧ key ∉ pickone (S 0)) = bool_decide (key ∈ root_keys l)) as -> by done.
  apply bool_decide_ext. rewrite H0. set_solver.
Qed.

Definition zeros (n : nat) : bytes := replicate n NUL.


Lemma client_information_witness :
  send_rankinfo_query false (connection (ex_config 1) (on_node ex_fs (ex_local 1)) ex_server 0) zeros = Some (Some (0, 1, 1, 2)).
Proof.
  apply (client_information (ex_config 1) (on_node ex_fs (ex_local 1)) ex_server 0%nat ex_client zeros).
  - intros n. apply length_replicate.
  - constructor; cbn; (split; [reflexivity|lia]) || reflexivity || lia.
  - reflexivity.
  - reflexivity.
  - lia.
  - cbn. lia.
Defined.

Lemma picks_one_witness :
  ∃ answers, picks ex_config (λ r, on_node ex_fs (ex_local r)) (λ _, ex_server)
      [(1, 0%nat, lit "k"); (0, 0%nat, lit "k"); (0, 0%nat, lit "k")] = Some answers ∧
    picked (lit "k") [(1, 0%nat, lit "k"); (0, 0%nat, lit "k"); (0, 0%nat, lit "k")] answers = 1%nat.
Proof.
  destruct (picks_one ex_config (λ r, on_node ex_fs (ex_local r)) (λ _, ex_server)
    [(1, 0%nat, lit "k"); (0, 0%nat, lit "k"); (0, 0%nat, lit "k")]) as (answers & E & _ & _ & H).
  - reflexivity.
  - repeat constructor.
  - reflexivity.
  - exists answers. split; [exact E|]. rewrite H. reflexivity.
Defined.

End ClientApi.
