(* ===== verification/Lookup.v ===== *)
(** * Lookups of a client

    [client/client/lookup.c]: what a process asks about files is looked up in the
    cache that the processes of a node share, and sent to the server when it is not
    there.  A call is a program of type [prog]: what it does to the shared cache and
    asks the server for, one access after the other, so that the calls of many
    processes can be interleaved.  [get_relocated_file], [get_existance_test] and
    [get_metadata_result] are such programs, with and without the cache.

    A process that does not come back from a call is [Stuck]: it uses a null pointer
    or what is not a string, or reads on at the end of a file for ever. *)

From Stdlib Require Import Ascii String ZArith Lia.
From stdpp Require Import strings numbers gmap list.
From S2P Require Import Prelude Bytes StaticTls Shmcache Cache GlobalName Handlers ClientApi.
Import Shmcache Cache GlobalName Handlers ClientApi.

Module Lookup.

(** ** Programs *)

Inductive prog (R : Type) :=
  | Ret (r : R)
  | Stuck
  (** the calls of [shmcache.h] *)
  | Lookup (name : bytes) (k : option value → prog R)
  | LookupOrAdd (name : bytes) (k : option value → prog R)
  | Waitfor (name : bytes) (k : option value → prog R)
  | Add (name : bytes) (v : value) (k : prog R)
  | Update (name : bytes) (mapped : option bytes) (k : prog R)
  (** the calls of [client_api.h]; [None] for -1 *)
  | SendFile (path : bytes) (dso : bool) (k : option (option bytes * Z) → prog R)
  | SendStat (path : bytes) (is_lstat : bool) (k : option stat_reply → prog R)
  | SendExists (path : bytes) (k : option Z → prog R)
  | SendProcmaps (pid : Z) (k : option bytes → prog R)
  | SendOrigpath (path : bytes) (k : option bytes → prog R)
  | SendStaticTls (q : StaticTls.static_tls_info_t) (k : option (Z * Z) → prog R).
Arguments Ret {R} _.
Arguments Stuck {R}.
Arguments Lookup {R} _ _.
Arguments LookupOrAdd {R} _ _.
Arguments Waitfor {R} _ _.
Arguments Add {R} _ _ _.
Arguments Update {R} _ _ _.
Arguments SendFile {R} _ _ _.
Arguments SendStat {R} _ _ _.
Arguments SendExists {R} _ _.
Arguments SendProcmaps {R} _ _.
Arguments SendOrigpath {R} _ _.
Arguments SendStaticTls {R} _ _.

Fixpoint prog_bind {R S} (f : R → prog S) (p : prog R) : prog S :=
  match p with
  | Ret r => f r
  | Stuck => Stuck
  | Lookup n k => Lookup n (λ v, prog_bind f (k v))
  | LookupOrAdd n k => LookupOrAdd n (λ v, prog_bind f (k v))
  | Waitfor n k => Waitfor n (λ v, prog_bind f (k v))
  | Add n v k => Add n v (prog_bind f k)
  | Update n m k => Update n m (prog_bind f k)
  | SendFile p d k => SendFile p d (λ v, prog_bind f (k v))
  | SendStat p l k => SendStat p l (λ v, prog_bind f (k v))
  | SendExists p k => SendExists p (λ v, prog_bind f (k v))
  | SendProcmaps p k => SendProcmaps p (λ v, prog_bind f (k v))
  | SendOrigpath p k => SendOrigpath p (λ v, prog_bind f (k v))
  | SendStaticTls q k => SendStaticTls q (λ v, prog_bind f (k v))
  end.
#[export] Instance prog_mbind : MBind prog := λ R S, prog_bind.
#[export] Instance prog_mret : MRet prog := λ R, Ret.

(** ** Names *)

Definition SPINDLE_ENODIR_STR : bytes := lit "NODR".
Definition ERRNO_STR : bytes := lit "ERRNO:".

Definition absolute (cwd path : bytes) : bytes :=
  match path with
  | c :: _ => if Ascii.eqb c SLASH then path else cwd ++ [SLASH] ++ path
  | [] => cwd ++ [SLASH]
  end.

(** The names in the cache of a path and of its directory; [snprintf] cuts off what is too long. *)
Definition get_cache_name (cwd path prefix : bytes) : bytes * bytes :=
  let full := absolute cwd path in
  let result := take (Z.to_nat (MAX_PATH_LEN - 1) + length prefix) (prefix ++ full) in
  let dirresult := take (Z.to_nat MAX_PATH_LEN) (lit "^" ++ full) in
  (result, match strrchr dirresult SLASH with Some (d, _) => d | None => dirresult end).

(** ** The cache *)

(** [spindle_strdup] of a result of the cache. *)
Definition copied (v : value) : prog (option (option bytes)) :=
  match v with
  | InProgress => Stuck
  | Absent => mret (Some None)
  | Mapped str => mret (Some (Some str))
  end.

(** [None] for 0: the caller has to ask the server. *)
Definition fetch_from_cache (name : bytes) : prog (option (option bytes)) :=
  result ← LookupOrAdd name Ret;
  match result with
  | None => mret None
  | Some InProgress =>
      result ← Waitfor name Ret;
      match result with None => mret None | Some v => copied v end
  | Some v => copied v
  end.

Definition atoi (s : bytes) : Z := default 0 (scan_int s).

(** The names of the path and of its directory; the error code and the result when they are known. *)
Definition check_cache (cwd path prefix : bytes) (nodir_errcode : Z) : prog (bytes * bytes * option (Z * option bytes)) :=
  let '(cache_name, dir_name) := get_cache_name cwd path prefix in
  dirresult ← Lookup dir_name Ret;
  let full_lookup :=
    result ← fetch_from_cache cache_name;
    match result with
    | None => mret (cache_name, dir_name, None)
    | Some None => Stuck
    | Some (Some name) =>
        if bool_decide (take 6 name = ERRNO_STR) then
          let e := atoi (drop 6 name) in
          mret (cache_name, dir_name, Some (if e =? SPINDLE_ENODIR then nodir_errcode else e, None))
        else mret (cache_name, dir_name, Some (0, Some name))
    end in
  match dirresult with
  | None => full_lookup
  | Some (Mapped d) =>
      if bool_decide (d = SPINDLE_ENODIR_STR) then mret (cache_name, dir_name, Some (nodir_errcode, None)) else full_lookup
  | Some _ => Stuck
  end.

(** What becomes of the error code. *)
Definition update_cache (cache_name dir_name : bytes) (result_name : option bytes) (errcode nodir_errcode : Z) : prog Z :=
  match result_name with
  | Some name =>
      if errcode =? 0 then Update cache_name (Some name) (mret errcode)
      else if errcode =? SPINDLE_ENODIR then
        Add dir_name (Mapped SPINDLE_ENODIR_STR) (Update cache_name (Some (ERRNO_STR ++ dec nodir_errcode)) (mret nodir_errcode))
      else Update cache_name (Some (ERRNO_STR ++ dec errcode)) (mret errcode)
  | None =>
      if errcode =? SPINDLE_ENODIR then
        Add dir_name (Mapped SPINDLE_ENODIR_STR) (Update cache_name (Some (ERRNO_STR ++ dec nodir_errcode)) (mret nodir_errcode))
      else Update cache_name (Some (ERRNO_STR ++ dec errcode)) (mret errcode)
  end.

(** ** Calls *)

(** What a function that reads a local file makes of it. *)
Inductive reading (B : Type) := Read (b : B) | ReadError | ReadForever.
Arguments Read {B} _.
Arguments ReadError {B}.
Arguments ReadForever {B}.

Section calls.
(** [opts & OPT_SHMCACHE] *)
Variable use_cache : bool.
Variable cwd : bytes.

Definition check (path prefix : bytes) (nodir_errcode : Z) : prog (bytes * bytes * option (Z * option bytes)) :=
  if use_cache then check_cache cwd path prefix nodir_errcode else mret ([], [], None).

(** Return value and [*exists]; [exists0] and [errcode0] are what the variables hold before. *)
Definition get_existance_test (path : bytes) (exists0 errcode0 : Z) : prog (Z * Z) :=
  '(cache_name, dir_name, found) ← check path (lit "&") ENOENT;
  match found with
  | Some (_, exist_str) => mret (0, match exist_str with Some (c :: _) => if Ascii.eqb c "y"%char then 1 else 0 | _ => 0 end)
  | None =>
      reply ← SendExists path Ret;
      let '(result, ex) := match reply with None => (-1, exists0) | Some e => (0, e) end in
      if use_cache then
        _ ← update_cache cache_name dir_name (Some (lit (if ex =? 0 then "n" else "y"))) errcode0 ENOENT;
        mret (result, ex)
      else mret (result, ex)
  end.

Definition STAT_SELF_OPEN : Z := 1.

(** Return value, [*exists], and what was read. *)
Definition get_metadata_result {B} (path : bytes) (is_lstat : bool) (exists0 : Z) (read : bytes → reading B) : prog (Z * Z * option B) :=
  '(cache_name, dir_name, found) ← check path (lit (if is_lstat then "**" else "*")) ENOENT;
  let with_buffer (network_result : Z) (buffer : bytes) : prog (Z * Z * option B) :=
    match buffer with
    | [] => mret (network_result, 0, None)
    | _ =>
        match read buffer with
        | Read b => mret (network_result, 1, Some b)
        | ReadError => mret (-1, 0, None)
        | ReadForever => Stuck
        end
    end in
  match found with
  | Some (_, None) => Stuck
  | Some (_, Some newpath) => with_buffer 0 (take (Z.to_nat MAX_PATH_LEN) newpath)
  | None =>
      reply ← SendStat path is_lstat Ret;
      match reply with
      | Some STAT_SELF => mret (STAT_SELF_OPEN, exists0, None)
      | _ =>
          let '(network_result, buffer) := match reply with Some (STAT_PATH s) => (0, s) | _ => (-1, []) end in
          if use_cache then
            _ ← update_cache cache_name dir_name (Some buffer) 0 ENOENT;
            with_buffer network_result buffer
          else with_buffer network_result buffer
      end
  end.

(** The contents of the files in the cache directory. *)
Variable files : bytes → option bytes.

Definition read_stat (localname : bytes) : reading bytes :=
  match files localname with
  | None => ReadError
  | Some contents => if Z.of_nat (length contents) <? STAT_SIZE then ReadError else Read (take (Z.to_nat STAT_SIZE) contents)
  end.

(** Error code, result and path. *)
Definition read_readlink (localname : bytes) : reading (Z * Z * bytes) :=
  match files localname with
  | None => ReadError
  | Some contents =>
      if (length contents <? 156)%nat then ReadForever
      else
        let readlink_errcode := rd_i32 contents 144 in
        let readlink_result := to_signed 64 (rd_u 8 contents 148) in
        if readlink_result <=? 0 then Read (readlink_errcode, readlink_result, [])
        else if MAX_PATH_LEN <=? readlink_result then ReadError
        else if (length contents <? 156 + Z.to_nat readlink_result)%nat then ReadForever
        else Read (readlink_errcode, readlink_result, take (Z.to_nat readlink_result) (drop 156 contents))
  end.

Definition get_stat_result (path : bytes) (is_lstat : bool) (exists0 : Z) : prog (Z * Z * option bytes) :=
  get_metadata_result path is_lstat exists0 read_stat.

(** Return value; error code, result and path when they are set. *)
Definition get_readlink_result (path : bytes) (exists0 : Z) : prog (Z * option (Z * Z * bytes)) :=
  '(result, ex, link) ← get_metadata_result path true exists0 read_readlink;
  if result =? -1 then mret (-1, None)
  else if result =? STAT_SELF_OPEN then mret (STAT_SELF_OPEN, None)
  else if ex =? 0 then mret (0, Some (ENOENT, -1, []))
  else mret (result, link).

(** Return value, [*newname], [*errorcode] and [*direxists]. *)
Definition get_relocated_file (name : bytes) (dso : bool) (newname0 : option bytes) (errorcode0 : Z)
    : prog (Z * option bytes * Z * Z) :=
  let finish (result : Z) (newname : option bytes) (errorcode : Z) : prog (Z * option bytes * Z * Z) :=
    mret (result, newname, if errorcode =? SPINDLE_ENODIR then ENOENT else errorcode, if errorcode =? SPINDLE_ENODIR then 0 else 1) in
  '(cache_name, dir_name, found) ← check name [] SPINDLE_ENODIR;
  match found with
  | Some (errorcode, newname) => finish 0 newname errorcode
  | None =>
      reply ← SendFile name dso Ret;
      let '(result, newname, errorcode) :=
        match reply with None => (-1, newname0, errorcode0) | Some (n, e) => (0, n, e) end in
      if use_cache then
        errorcode' ← update_cache cache_name dir_name newname errorcode ENOENT;
        finish result newname errorcode'
      else finish result newname errorcode
  end.

End calls.

End Lookup.
