(* ===== verification/LookupProcs.v ===== *)
(** * Many processes look files up

    Processes of a node run the calls of [Lookup] against the cache that they share,
    in any interleaving of their accesses.  A process gets what it would get from the
    server without the cache; processes that wait for each other's questions do not
    block each other; and each call takes at most seven accesses.

    The server answers the same question in the same way every time.  A string that
    [shmcache_lookup] finds is read in the same step, and so is one that
    [shmcache_waitfor_update] finds without waiting; both are pointers into the cache
    that are used after its lock was released ([lookup_result_dangles]).  Updates that
    find no memory are left out: they break the cache ([failed_update_breaks_bucket]). *)

From Stdlib Require Import Ascii String ZArith Lia.
From stdpp Require Import strings numbers gmap list sorting relations.
From S2P Require Import Prelude Bytes StaticTls Sheep Shmcache ShmcacheInv ShmcacheProcs Cache GlobalName Handlers ClientApi Lookup.
Import Shmcache ShmcacheInv ShmcacheProcs Cache GlobalName Handlers ClientApi Lookup.

Module LookupProcs.

(** ** The server *)

(** What the server says about an absolute path: the local name and error code of a file, whether the process should
    get its metadata itself, the local name of the file with the metadata (empty when there are none), whether it exists;
    the file with the translated maps of a process; the path that a local name stands for; the
    size and alignment of the thread-local storage of a program. *)
Record replies := mk_replies {
  s_file : bytes → option bytes * Z;
  s_self : bool → bytes → bool;
  s_stat : bool → bytes → bytes;
  s_exists : bytes → bool;
  s_procmaps : Z → option bytes;
  s_origpath : bytes → option bytes;
  s_tls : StaticTls.static_tls_info_t → option (Z * Z);
}.

Definition dir_of (p : bytes) : bytes := match strrchr p SLASH with Some (d, _) => d | None => p end.
Definition is_path (p : bytes) : Prop := (∃ q, p = SLASH :: q) ∧ Z.of_nat (length p) < MAX_PATH_LEN.
(** A name that fits into the cache, and is not taken for an error. *)
Definition is_local_name (n : bytes) : Prop := Z.of_nat (length n) <= MAX_PATH_LEN ∧ take 6 n ≠ ERRNO_STR.

Definition stat_answer (S : replies) (is_lstat : bool) (p : bytes) : stat_reply :=
  if s_self S is_lstat p then STAT_SELF else STAT_PATH (s_stat S is_lstat p).

Record replies_ok (S : replies) : Prop := mk_replies_ok {
  so_name p n e : s_file S p = (Some n, e) → e = 0 ∧ is_local_name n;
  so_error p e : s_file S p = (None, e) → - 2 ^ 31 <= e < 2 ^ 31;
  so_nodir p p' : s_file S p = (None, SPINDLE_ENODIR) → dir_of p' = dir_of p → s_file S p' = (None, SPINDLE_ENODIR) ∧ s_exists S p' = false;
  so_stat b p : is_local_name (s_stat S b p);
}.

(** A process runs a program with results of type [R]. *)
Inductive pstate (R : Type) :=
  | Running (p : prog R)
  | Waiting (entry : Z) (name : bytes) (k : option value → prog R).
Arguments Running {R} _.
Arguments Waiting {R} _ _ _.

(** ** Calls *)

Section system.
Variable S : replies.

(** A program that only asks the server. *)
Fixpoint direct {R} (cwd : bytes) (p : prog R) : option R :=
  match p with
  | Ret r => Some r
  | SendFile path _ k => direct cwd (k (Some (s_file S (absolute cwd path))))
  | SendStat path l k => direct cwd (k (Some (stat_answer S l (absolute cwd path))))
  | SendExists path k => direct cwd (k (Some (if s_exists S (absolute cwd path) then 1 else 0)))
  | SendProcmaps pid k => direct cwd (k (s_procmaps S pid))
  | SendOrigpath path k => direct cwd (k (s_origpath S path))
  | SendStaticTls q k => direct cwd (k (s_tls S q))
  | _ => None
  end.

(** ** What the cache holds *)

Definition CARET : ascii := "^"%char.
Definition dir_key (p : bytes) : bytes := CARET :: dir_of p.
Definition stat_prefix (is_lstat : bool) : bytes := lit (if is_lstat then "**" else "*").

Definition file_entry (p : bytes) : bytes :=
  match s_file S p with
  | (Some n, _) => n
  | (None, e) => ERRNO_STR ++ dec (if e =? SPINDLE_ENODIR then ENOENT else e)
  end.

Inductive answer : bytes → value → Prop :=
  | answer_file p : is_path p → answer p (Mapped (file_entry p))
  | answer_exists p : is_path p → answer (lit "&" ++ p) (Mapped (lit (if s_exists S p then "y" else "n")))
  | answer_stat b p : is_path p → answer (stat_prefix b ++ p) (Mapped (s_stat S b p))
  | answer_nodir p : is_path p → s_file S p = (None, SPINDLE_ENODIR) → answer (dir_key p) (Mapped SPINDLE_ENODIR_STR).

Definition is_dir_name (n : bytes) : Prop := ∃ d, n = CARET :: d.

Lemma answer_functional n v v' : answer n v → answer n v' → v = v'.
Proof.
  assert (∀ n v, answer n v → match n with
    | c :: n1 =>
        if Ascii.eqb c SLASH then v = Mapped (file_entry n)
        else if Ascii.eqb c "&"%char then v = Mapped (lit (if s_exists S n1 then "y" else "n"))
        else if Ascii.eqb c CARET then v = Mapped SPINDLE_ENODIR_STR
        else match n1 with
          | c1 :: n2 => if Ascii.eqb c1 SLASH then v = Mapped (s_stat S false n1) else v = Mapped (s_stat S true n2)
          | [] => False
          end
    | [] => False
    end) as Hf.
  { clear. destruct 1 as [p [[q ->] _]|p [[q ->] _]|[] p [[q ->] _]|p Hp _]; try done. }
  intros H%Hf H'%Hf. destruct n as [|c n1]; [done|]. destruct (Ascii.eqb c SLASH); [congruence|].
  destruct (Ascii.eqb c "&"%char); [congruence|]. destruct (Ascii.eqb c CARET); [congruence|].
  destruct n1 as [|c1 n2]; [done|]. destruct (Ascii.eqb c1 SLASH); congruence.
Qed.

Lemma answer_settled n v : answer n v → v ≠ InProgress.
Proof. by destruct 1. Qed.

(** ** What a program may do *)

(** [o] is the name that the process has said it would ask for, [n] the accesses that it has left. *)
Fixpoint wp {R} (cwd : bytes) (Q : option bytes → nat → R → Prop) (o : option bytes) (n : nat) (p : prog R) : Prop :=
  match p with
  | Ret r => Q o n r
  | Stuck => False
  | Lookup name k => is_dir_name name ∧ (1 ≤ n)%nat ∧
      wp cwd Q o (n - 1) (k None) ∧ ∀ v, answer name v → wp cwd Q o (n - 1) (k (Some v))
  | LookupOrAdd name k => short name ∧ ¬ is_dir_name name ∧ o = None ∧ (1 ≤ n)%nat ∧
      wp cwd Q (Some name) (n - 1) (k None) ∧ wp cwd Q None (n - 1) (k (Some InProgress)) ∧
      ∀ v, answer name v → wp cwd Q None (n - 1) (k (Some v))
  | Waitfor name k => ¬ is_dir_name name ∧ o = None ∧ (2 ≤ n)%nat ∧ wp cwd Q (Some name) (n - 2) (k None) ∧
      ∀ v, answer name v → wp cwd Q None (n - 2) (k (Some v))
  | Add name v k => short name ∧ short_value v ∧ answer name v ∧ is_dir_name name ∧ (1 ≤ n)%nat ∧ wp cwd Q o (n - 1) k
  | Update name mapped k => o = Some name ∧ short_value (value_of mapped) ∧ answer name (value_of mapped) ∧ (1 ≤ n)%nat ∧
      wp cwd Q None (n - 1) k
  | SendFile path _ k => (1 ≤ n)%nat ∧ wp cwd Q o (n - 1) (k (Some (s_file S (absolute cwd path))))
  | SendStat path l k => (1 ≤ n)%nat ∧ wp cwd Q o (n - 1) (k (Some (stat_answer S l (absolute cwd path))))
  | SendExists path k => (1 ≤ n)%nat ∧ wp cwd Q o (n - 1) (k (Some (if s_exists S (absolute cwd path) then 1 else 0)))
  | SendProcmaps pid k => (1 ≤ n)%nat ∧ wp cwd Q o (n - 1) (k (s_procmaps S pid))
  | SendOrigpath path k => (1 ≤ n)%nat ∧ wp cwd Q o (n - 1) (k (s_origpath S path))
  | SendStaticTls q k => (1 ≤ n)%nat ∧ wp cwd Q o (n - 1) (k (s_tls S q))
  end.

Lemma wp_bind {R T} cwd (Q : option bytes → nat → T → Prop) (f : R → prog T) (p : prog R) : ∀ o n,
  wp cwd (λ o' n' r, wp cwd Q o' n' (f r)) o n p → wp cwd Q o n (p ≫= f).
Proof. induction p; intros o n; cbn; naive_solver. Qed.

Lemma wp_mono {R} cwd (Q Q' : option bytes → nat → R → Prop) (p : prog R) : ∀ o n n',
  (n ≤ n')%nat → (∀ o m m' r, (m ≤ m')%nat → Q o m r → Q' o m' r) → wp cwd Q o n p → wp cwd Q' o n' p.
Proof.
  intros o n n' Hn HQ. revert o n n' Hn. induction p as [r| |name k IH|name k IH|name k IH|name v k IH|name m k IH|path d k IH|path l k IH|path k IH|pid k IH|path k IH|q k IH];
    intros o n n' Hn; cbn; [by apply HQ|done|..]; intros H.
  - destruct H as (H1 & H2 & H3 & H4). split_and!; [done|lia|eapply IH; [|done]; lia|]. intros v Hv. eapply IH; [|by apply H4]. lia.
  - destruct H as (H1 & H2 & H3 & H4 & H5 & H6 & H7). split_and!; [done|done|done|lia|eapply IH; [|done]; lia|eapply IH; [|done]; lia|].
    intros v Hv. eapply IH; [|by apply H7]. lia.
  - destruct H as (H1 & H2 & H3 & H4 & H5). split_and!; [done|done|lia|eapply IH; [|done]; lia|]. intros v Hv. eapply IH; [|by apply H5]. lia.
  - destruct H as (H1 & H2 & H3 & H4 & H5 & H6). split_and!; try done; [lia|]. eapply IH; [|done]. lia.
  - destruct H as (H1 & H2 & H3 & H4 & H5). split_and!; try done; [lia|]. eapply IH; [|done]. lia.
  - destruct H. split; [lia|]. eapply IH; [|done]. lia.
  - destruct H. split; [lia|]. eapply IH; [|done]. lia.
  - destruct H. split; [lia|]. eapply IH; [|done]. lia.
  - destruct H. split; [lia|]. eapply IH; [|done]. lia.
  - destruct H. split; [lia|]. eapply IH; [|done]. lia.
  - destruct H. split; [lia|]. eapply IH; [|done]. lia.
Qed.

(** ** The calls *)

Hypothesis HS : replies_ok S.

Lemma dir_name_key p : is_path p → match strrchr (CARET :: p) SLASH with Some (d, _) => d | None => CARET :: p end = dir_key p.
Proof.
  intros [[q ->] _]. unfold dir_key, dir_of. cbn. by destruct (strrchr q SLASH) as [[d f]|].
Qed.

Lemma cache_names cwd path prefix :
  is_path (absolute cwd path) → get_cache_name cwd path prefix = (prefix ++ absolute cwd path, dir_key (absolute cwd path)).
Proof.
  intros H. unfold get_cache_name. destruct H as [Hs Hl]. rewrite !take_ge.
  - f_equal. by apply dir_name_key.
  - cbn [lit list_ascii_of_string app length]. unfold MAX_PATH_LEN in *. lia.
  - rewrite length_app. unfold MAX_PATH_LEN in *. lia.
Qed.

Lemma key_short (prefix p : bytes) : (length prefix ≤ 2)%nat → is_path p → short (prefix ++ p).
Proof. intros Hp [_ Hl]. unfold short, Sheep.request_ok. rewrite length_app. unfold MAX_PATH_LEN in *. lia. Qed.

Lemma dir_short p : is_path p → short (dir_key p).
Proof.
  intros [_ Hl]. unfold short, Sheep.request_ok, dir_key, dir_of. cbn [length].
  assert (length match strrchr p SLASH with Some (d, _) => d | None => p end ≤ length p)%nat; [|unfold MAX_PATH_LEN in *; lia].
  destruct (strrchr p SLASH) as [[d f]|] eqn:E; [|done]. apply strrchr_Some in E as [-> _]. rewrite length_app. lia.
Qed.

Lemma answer_mapped n v : answer n v → ∃ str, v = Mapped str.
Proof. destruct 1; eauto. Qed.

Lemma answer_dir p v : is_path p → answer (dir_key p) v →
  v = Mapped SPINDLE_ENODIR_STR ∧ s_file S p = (None, SPINDLE_ENODIR) ∧ s_exists S p = false.
Proof.
  intros Hp H. inversion H as [p' [[q ->] _] E|p' [[q ->] _] E|[] p' [[q ->] _] E|p' Hp' Hd E]; try discriminate.
  split; [done|]. by apply (so_nodir _ HS p' p).
Qed.

Lemma errno_split s : take 6 (ERRNO_STR ++ s) = ERRNO_STR ∧ drop 6 (ERRNO_STR ++ s) = s.
Proof. done. Qed.

Lemma atoi_dec e : - 2 ^ 31 <= e < 2 ^ 31 → atoi (dec e) = e.
Proof. intros He. unfold atoi. rewrite <- (app_nil_r (dec e)), scan_dec; done. Qed.

(** What [check_cache] makes of an entry. *)
Definition decoded (nodir : Z) (str : bytes) : Z * option bytes :=
  if bool_decide (take 6 str = ERRNO_STR) then let e := atoi (drop 6 str) in (if e =? SPINDLE_ENODIR then nodir else e, None)
  else (0, Some str).

Lemma check_wp cwd path prefix nodir (Q : option bytes → nat → _ → Prop) n :
  let p := absolute cwd path in
  is_path p → (length prefix ≤ 2)%nat → ¬ is_dir_name (prefix ++ p) →
  (∀ m, (n + 3 ≤ m)%nat → Q (Some (prefix ++ p)) m (prefix ++ p, dir_key p, None)) →
  (∀ m, (n ≤ m)%nat → s_file S p = (None, SPINDLE_ENODIR) → s_exists S p = false → Q None m (prefix ++ p, dir_key p, Some (nodir, None))) →
  (∀ m str, (n ≤ m)%nat → answer (prefix ++ p) (Mapped str) → Q None m (prefix ++ p, dir_key p, Some (decoded nodir str))) →
  wp cwd Q None (n + 7) (check_cache cwd path prefix nodir).
Proof.
  intros p Hp Hl Hd Hask Hno Hfound. unfold check_cache. rewrite cache_names by done. fold p.
  assert (wp cwd Q None (n + 6) (result ← fetch_from_cache (prefix ++ p);
    match result with
    | None => mret (prefix ++ p, dir_key p, None)
    | Some None => Stuck
    | Some (Some name) =>
        if bool_decide (take 6 name = ERRNO_STR) then
          let e := atoi (drop 6 name) in
          mret (prefix ++ p, dir_key p, Some (if e =? SPINDLE_ENODIR then nodir else e, None))
        else mret (prefix ++ p, dir_key p, Some (0, Some name))
    end)) as Hfull.
  { apply wp_bind. unfold fetch_from_cache. cbn. split_and!; [by apply key_short|done|done|lia|apply Hask; lia|done|done|lia|apply Hask; lia| |].
    - intros v Hv. destruct (answer_mapped _ _ Hv) as [str ->]. cbn.
      specialize (Hfound (n + 6 - 1 - 2)%nat str ltac:(lia) Hv). unfold decoded in Hfound. by destruct (bool_decide _).
    - intros v Hv. destruct (answer_mapped _ _ Hv) as [str ->]. cbn.
      specialize (Hfound (n + 6 - 1)%nat str ltac:(lia) Hv). unfold decoded in Hfound. by destruct (bool_decide _). }
  cbn [mbind prog_mbind prog_bind wp]. split_and!; [by eexists|lia|replace (n + 7 - 1)%nat with (n + 6)%nat by lia; exact Hfull|].
  intros v Hv. destruct (answer_dir _ _ Hp Hv) as (-> & H1 & H2). rewrite bool_decide_true by done. cbn. apply Hno; [lia|done|done].
Qed.

Lemma file_decoded p nodir : is_path p → decoded nodir (file_entry p) =
  match s_file S p with (Some n, _) => (0, Some n) | (None, e) => (if e =? SPINDLE_ENODIR then ENOENT else e, None) end.
Proof.
  intros Hp. unfold decoded, file_entry. destruct (s_file S p) as [[n|] e] eqn:E.
  - destruct (so_name _ HS _ _ _ E) as [_ [_ Hn]]. by rewrite bool_decide_false.
  - pose proof (so_error _ HS _ _ E). rewrite bool_decide_true by apply errno_split. rewrite (proj2 (errno_split _)).
    destruct (e =? SPINDLE_ENODIR) eqn:E0; [reflexivity|]. rewrite atoi_dec by done. by rewrite E0.
Qed.

Lemma file_not_dir p : is_path p → ¬ is_dir_name p.
Proof. intros [[q ->] _] [d E]. discriminate. Qed.

Lemma prefix_not_dir (prefix p : bytes) c s : prefix = c :: s → c ≠ CARET → ¬ is_dir_name (prefix ++ p).
Proof. intros -> Hc [d E]. cbn in E. congruence. Qed.

Lemma file_answer p str : is_path p → answer p (Mapped str) → str = file_entry p.
Proof. intros Hp H. pose proof (answer_functional _ _ _ H (answer_file p Hp)). congruence. Qed.

Lemma errno_short e : - 2 ^ 31 <= e < 2 ^ 31 → short (ERRNO_STR ++ dec e).
Proof. intros He. pose proof (dec_length e He). unfold short, Sheep.request_ok. rewrite length_app. cbn. lia. Qed.

Lemma local_short n : is_local_name n → short n.
Proof. intros [Hl _]. unfold short, Sheep.request_ok, MAX_PATH_LEN in *. lia. Qed.

(** The error code that a process sees. *)
Definition seen (e : Z) : Z := if e =? SPINDLE_ENODIR then ENOENT else e.

Lemma relocated_wp cwd name dso newname0 errorcode0 n (Q : option bytes → nat → Z * option bytes * Z * Z → Prop) :
  let p := absolute cwd name in
  is_path p →
  (∀ m d, (n ≤ m)%nat → d = 1 ∨ d = 0 ∧ s_file S p = (None, SPINDLE_ENODIR) → Q None m (0, (s_file S p).1, seen (s_file S p).2, d)) →
  wp cwd Q None (n + 7) (get_relocated_file true cwd name dso newname0 errorcode0).
Proof.
  intros p Hp HQ. unfold get_relocated_file, check. apply wp_bind. apply check_wp; fold p; [done|cbn; lia|by apply file_not_dir| | |].
  - intros m Hm. cbn [app]. cbn. split; [lia|]. fold p. assert (∀ m', (n ≤ m')%nat → Q None m' (0, (s_file S p).1, seen (s_file S p).2, 1)) as HQ1 by auto. clear HQ. rename HQ1 into HQ.
    assert (answer p (Mapped (file_entry p))) as Ha by (by apply answer_file). unfold file_entry in Ha. unfold seen in HQ.
    destruct (s_file S p) as [[newname|] e] eqn:E; cbn in *.
    + destruct (so_name _ HS _ _ _ E) as [-> Hn]. cbn. split_and!; try done; [by apply local_short|lia|]. apply HQ. lia.
    + pose proof (so_error _ HS _ _ E) as He. destruct (e =? SPINDLE_ENODIR) eqn:Ee; cbn.
      * apply Z.eqb_eq in Ee as ->. split_and!; try done; [by apply dir_short|by apply answer_nodir|by eexists|lia|lia|]. apply HQ. lia.
      * rewrite Ee. split_and!; try done; [by apply errno_short|lia|]. apply HQ. lia.
  - intros m Hm Hd _. cbn. specialize (HQ m 0 Hm (or_intror (conj eq_refl Hd))). by rewrite Hd in HQ.
  - intros m str Hm ->%file_answer; [|done]. rewrite file_decoded by done. specialize (HQ m 1 Hm (or_introl eq_refl)). unfold seen in HQ.
    cbn. fold p. destruct (s_file S p) as [[newname|] e] eqn:E; cbn in *; [destruct (so_name _ HS _ _ _ E) as [-> _]; exact HQ|].
    by destruct (e =? SPINDLE_ENODIR) eqn:Ee; cbn; rewrite ?Ee.
Qed.

Lemma existance_wp cwd path exists0 n (Q : option bytes → nat → Z * Z → Prop) :
  let p := absolute cwd path in
  is_path p → (∀ m, (n ≤ m)%nat → Q None m (0, if s_exists S p then 1 else 0)) →
  wp cwd Q None (n + 7) (get_existance_test true cwd path exists0 0).
Proof.
  intros p Hp HQ. unfold get_existance_test, check.
  assert (answer (lit "&" ++ p) (Mapped (lit (if s_exists S p then "y" else "n")))) as Ha by (by apply answer_exists).
  apply wp_bind. apply check_wp; fold p; [done|cbn; lia|by eapply prefix_not_dir| | |].
  - intros m Hm. cbn. fold p. specialize (HQ (m - 1 - 1)%nat ltac:(lia)). destruct (s_exists S p) eqn:E; cbn; split_and!; try done; lia.
  - intros m Hm _ Hd. cbn. specialize (HQ m Hm). by rewrite Hd in HQ.
  - intros m str Hm Hstr. pose proof (answer_functional _ _ _ Hstr Ha) as [= ->]. specialize (HQ m Hm). by destruct (s_exists S p).
Qed.

Lemma metadata_wp {B} cwd path is_lstat exists0 (read : bytes → reading B) n (Q : option bytes → nat → Z * Z * option B → Prop) :
  let p := absolute cwd path in
  is_path p → s_file S p ≠ (None, SPINDLE_ENODIR) → s_self S is_lstat p = false →
  (∀ m, (n ≤ m)%nat → match s_stat S is_lstat p with
    | [] => Q None m (0, 0, None)
    | _ => match read (s_stat S is_lstat p) with
      | Read b => Q None m (0, 1, Some b) | ReadError => Q None m (-1, 0, None) | ReadForever => False end
    end) →
  wp cwd Q None (n + 7) (get_metadata_result true cwd path is_lstat exists0 read).
Proof.
  intros p Hp Hd Hself HQ. unfold get_metadata_result, check.
  assert (answer (stat_prefix is_lstat ++ p) (Mapped (s_stat S is_lstat p))) as Ha by (by apply answer_stat).
  pose proof (so_stat _ HS is_lstat p) as Hl. apply wp_bind.
  apply check_wp; fold p; [done|by destruct is_lstat; cbn; lia|by destruct is_lstat; eapply prefix_not_dir| |by intros|].
  - intros m Hm. cbn. fold p. unfold stat_answer. rewrite Hself. cbn. split; [lia|]. split; [done|]. split; [by apply local_short|]. split; [done|]. split; [lia|].
    specialize (HQ (m - 1 - 1)%nat ltac:(lia)). destruct (s_stat S is_lstat p) as [|c s]; [exact HQ|]. by destruct (read (c :: s)).
  - intros m str Hm Hstr. pose proof (answer_functional _ _ _ Hstr Ha) as [= ->]. unfold decoded. destruct Hl as [Hl Hne].
    rewrite bool_decide_false by done. cbn. rewrite take_ge by (unfold MAX_PATH_LEN in *; lia). specialize (HQ m Hm).
    destruct (s_stat S is_lstat p) as [|c s]; [exact HQ|]. by destruct (read (c :: s)).
Qed.

Lemma direct_bind {R T} cwd (p : prog R) (f : R → prog T) : direct cwd (p ≫= f) = r ← direct cwd p; direct cwd (f r).
Proof. induction p as [r| |name k IH|name k IH|name k IH|name v k IH|name m k IH|path d k IH|path l k IH|path k IH|pid k IH|path k IH|q k IH]; cbn; try done; apply IH. Qed.

Lemma direct_metadata {B} cwd path is_lstat exists0 (read : bytes → reading B) :
  let p := absolute cwd path in
  s_self S is_lstat p = false →
  direct cwd (get_metadata_result false cwd path is_lstat exists0 read) =
    match s_stat S is_lstat p with
    | [] => Some (0, 0, None)
    | _ => match read (s_stat S is_lstat p) with Read b => Some (0, 1, Some b) | ReadError => Some (-1, 0, None) | ReadForever => None end
    end.
Proof. cbn. intros Hself. unfold stat_answer. rewrite Hself. destruct (s_stat S is_lstat _) as [|c s]; [done|]. by destruct (read (c :: s)). Qed.

(** *** Queries *)

Variable files : bytes → option bytes.

(** The arguments that are not paths and flags are what the variables hold before the call. *)
Inductive query :=
  | QFile (name : bytes) (dso : bool) (newname0 : option bytes) (errorcode0 : Z)
  | QExists (path : bytes) (exists0 errcode0 : Z)
  | QStat (path : bytes) (is_lstat : bool) (exists0 : Z)
  | QReadlink (path : bytes) (exists0 : Z).

Inductive result :=
  | RFile (res : Z) (newname : option bytes) (errorcode direxists : Z)
  | RExists (res ex : Z)
  | RStat (res ex : Z) (buf : option bytes)
  | RReadlink (res : Z) (link : option (Z * Z * bytes)).

Definition call (use_cache : bool) (cwd : bytes) (q : query) : prog result :=
  match q with
  | QFile name dso newname0 errorcode0 =>
      '(res, newname, errorcode, direxists) ← get_relocated_file use_cache cwd name dso newname0 errorcode0;
      mret (RFile res newname errorcode direxists)
  | QExists path exists0 errcode0 => '(res, ex) ← get_existance_test use_cache cwd path exists0 errcode0; mret (RExists res ex)
  | QStat path is_lstat exists0 => '(res, ex, buf) ← get_stat_result use_cache cwd files path is_lstat exists0; mret (RStat res ex buf)
  | QReadlink path exists0 => '(res, link) ← get_readlink_result use_cache cwd files path exists0; mret (RReadlink res link)
  end.

Fixpoint calls (use_cache : bool) (cwd : bytes) (qs : list query) : prog (list result) :=
  match qs with
  | [] => mret []
  | q :: qs' => r ← call use_cache cwd q; rs ← calls use_cache cwd qs'; mret (r :: rs)
  end.

Definition path_of (q : query) : bytes :=
  match q with QFile path _ _ _ | QExists path _ _ | QStat path _ _ | QReadlink path _ => path end.

(** What the theorems need of a call: its path is not too long; it returns without the cache; the error code that
    [get_existance_test] does not set is 0; metadata are not asked for in a directory that is missing, nor of a file
    whose metadata the server leaves to the process. *)
Definition query_ok (cwd : bytes) (q : query) : Prop :=
  is_path (absolute cwd (path_of q)) ∧ is_Some (direct cwd (call false cwd q)) ∧
  match q with
  | QFile _ _ _ _ => True
  | QExists _ _ errcode0 => errcode0 = 0
  | QStat path l _ => s_file S (absolute cwd path) ≠ (None, SPINDLE_ENODIR) ∧ s_self S l (absolute cwd path) = false
  | QReadlink path _ => s_file S (absolute cwd path) ≠ (None, SPINDLE_ENODIR) ∧ s_self S true (absolute cwd path) = false
  end.

(** The same result; but a directory that is missing may be taken to be there. *)
Definition agrees (r r' : result) : Prop :=
  match r, r' with
  | RFile res n e d, RFile res' n' e' d' => res' = res ∧ n' = n ∧ e' = e ∧ (d' = d ∨ d' = 1)
  | _, _ => r' = r
  end.

(** A call gives, whatever the cache may answer, what it gives without the cache, and has [n] accesses left. *)
Definition done_with (cwd : bytes) (q : query) (n : nat) : option bytes → nat → result → Prop :=
  λ o m r, (n ≤ m)%nat ∧ o = None ∧ ∃ r1, direct cwd (call false cwd q) = Some r1 ∧ agrees r1 r.

Lemma file_wp cwd name dso newname0 errorcode0 n :
  let q := QFile name dso newname0 errorcode0 in query_ok cwd q → wp cwd (done_with cwd q n) None (n + 7) (call true cwd q).
Proof.
  intros q [Hp _]. apply wp_bind, relocated_wp; [done|]. intros m d Hm Hd. subst q. unfold done_with. cbn. split; [done|]. split; [done|]. cbn in Hp.
  set (p := absolute cwd name) in *. unfold seen. destruct (s_file S p) as [r e] eqn:E. cbn.
  eexists. split; [reflexivity|]. cbn. split_and!; try done. destruct Hd as [-> |[-> [= -> ->]]]; [by right|by left].
Qed.

Lemma exists_wp cwd path exists0 errcode0 n :
  let q := QExists path exists0 errcode0 in query_ok cwd q → wp cwd (done_with cwd q n) None (n + 7) (call true cwd q).
Proof.
  intros q. subst q. intros (Hp & _ & ->). apply wp_bind, existance_wp; [done|]. intros m Hm. unfold done_with. cbn. split; [done|]. split; [done|]. by eexists.
Qed.

Lemma call_wp cwd q n : query_ok cwd q → wp cwd (done_with cwd q n) None (n + 7) (call true cwd q).
Proof.
  destruct q as [name dso newname0 errorcode0|path exists0 errcode0|path is_lstat exists0|path exists0]; [apply file_wp|apply exists_wp|..];
    intros (Hp & Hsome & Hd); cbn [path_of] in *.
  - unfold call, get_stat_result. apply wp_bind, metadata_wp; [done|apply Hd|apply Hd|]. intros m Hm. unfold done_with.
    unfold call, get_stat_result in Hsome |- *. rewrite direct_bind, direct_metadata in Hsome |- * by apply Hd.
    destruct (s_stat S is_lstat _) as [|c s]; [|destruct (read_stat files (c :: s)); [..|by destruct Hsome]]; cbn;
      (split; [done|]; split; [done|]; eexists; split; [reflexivity|reflexivity]).
  - unfold call, get_readlink_result. apply wp_bind, wp_bind, metadata_wp; [done|apply Hd|apply Hd|]. intros m Hm. unfold done_with.
    unfold call, get_readlink_result in Hsome |- *. rewrite !direct_bind, direct_metadata in Hsome |- * by apply Hd.
    destruct (s_stat S true _) as [|c s]; [|destruct (read_readlink files (c :: s)); [..|by destruct Hsome]]; cbn;
      (split; [done|]; split; [done|]; eexists; split; [reflexivity|reflexivity]).
Qed.

Lemma calls_wp cwd qs : ∀ n, Forall (query_ok cwd) qs →
  wp cwd (λ o m rs, o = None ∧ Forall2 (λ q r, ∃ r1, direct cwd (call false cwd q) = Some r1 ∧ agrees r1 r) qs rs) None (n + 7 * length qs) (calls true cwd qs).
Proof.
  induction qs as [|q qs IH]; intros n Hq; cbn [calls]; [by cbn; split; [|constructor]|]. apply Forall_cons in Hq as [Hq Hqs].
  apply wp_bind. replace (n + 7 * length (q :: qs))%nat with (n + 7 * length qs + 7)%nat by (cbn [length]; lia).
  eapply wp_mono; [reflexivity| |by apply call_wp]. intros o m m' r Hm (Hle & -> & r1 & E & Ha).
  apply wp_bind. eapply (wp_mono _ _ _ _ _ (n + 7 * length qs)); [lia| |by apply IH].
  intros o m2 m3 rs _ [-> Hrs]. cbn. split; [done|]. constructor; [by eauto|done].
Qed.

Context {A : Type} {HA : SharedHeap A}.
Abbreviation shm := (@Shmcache.shm A).

(** ** Processes *)

Definition read_found (s : shm) (r : option Z) (v : option value) : Prop :=
  match r with None => v = None | Some p => ∃ x, read_value s p = Some x ∧ v = Some x end.

Inductive pstep {R} (cwd : bytes) : shm → pstate R → shm → pstate R → Prop :=
  | do_lookup s name k s' r v :
      shmcache_lookup (hash s) s name = Some (s', r) → read_found s' r v → pstep cwd s (Running (Lookup name k)) s' (Running (k v))
  | do_lookup_or_add s name k s' v :
      shmcache_lookup_or_add (hash s) s name = Some (s', v) → pstep cwd s (Running (LookupOrAdd name k)) s' (Running (k v))
  | do_gone s name k s' :
      waitfor_begin (hash s) s name = Some (s', None) → pstep cwd s (Running (Waitfor name k)) s' (Running (k None))
  | do_no_wait s name k s' entry v :
      waitfor_begin (hash s) s name = Some (s', Some (entry, false)) → waitfor_poll s' entry = Some v →
      pstep cwd s (Running (Waitfor name k)) s' (Running (k (Some v)))
  | do_wait s name k s' entry :
      waitfor_begin (hash s) s name = Some (s', Some (entry, true)) → pstep cwd s (Running (Waitfor name k)) s' (Waiting entry name k)
  | do_woken s entry name k v s' :
      waitfor_poll s entry = Some v → v ≠ InProgress → waitfor_end s entry = Some s' →
      pstep cwd s (Waiting entry name k) s' (Running (k (Some v)))
  | do_add s name v k s' r :
      shmcache_add (hash s) s name v = Some (s', r) → pstep cwd s (Running (Add name v k)) s' (Running k)
  | do_update s name mapped k s' :
      shmcache_update (hash s) s name mapped = Some (s', 0) → pstep cwd s (Running (Update name mapped k)) s' (Running k)
  | do_no_update s name mapped k s' :
      shmcache_update (hash s) s name mapped = Some (s', -1) → shmcache_lookup_worker s name = Some (s', None) →
      pstep cwd s (Running (Update name mapped k)) s' (Running k)
  | do_send_file s path dso k :
      pstep cwd s (Running (SendFile path dso k)) s (Running (k (Some (s_file S (absolute cwd path)))))
  | do_send_stat s path l k :
      pstep cwd s (Running (SendStat path l k)) s (Running (k (Some (stat_answer S l (absolute cwd path)))))
  | do_send_exists s path k :
      pstep cwd s (Running (SendExists path k)) s (Running (k (Some (if s_exists S (absolute cwd path) then 1 else 0))))
  | do_send_procmaps s pid k : pstep cwd s (Running (SendProcmaps pid k)) s (Running (k (s_procmaps S pid)))
  | do_send_origpath s path k : pstep cwd s (Running (SendOrigpath path k)) s (Running (k (s_origpath S path)))
  | do_send_tls s q k : pstep cwd s (Running (SendStaticTls q k)) s (Running (k (s_tls S q))).

(** The cache, and the processes with their working directories. *)
Abbreviation procs R := (gmap nat (bytes * pstate R)).
Inductive step {R} : shm * procs R → shm * procs R → Prop :=
  | step_proc s (P : procs R) pid cwd ps s' ps' :
      P !! pid = Some (cwd, ps) → pstep cwd s ps s' ps' → step (s, P) (s', <[pid := (cwd, ps')]> P).

(** Processes that begin with programs, when the cache was set up. *)
Definition start_procs {R} (Q : gmap nat (bytes * prog R)) : procs R := (λ cp, (cp.1, Running cp.2)) <$> Q.
Definition started (s : shm) : Prop :=
  ∃ h hlimit tbl, h_inv h ∅ ∧ 0 < hlimit ∧ init_cache (fresh_shm h) hlimit = Some (s, tbl) ∧ tbl ≠ 0.

(** ** What a call changes *)

Abbreviation reach := (reach answer).
Abbreviation procs_ok := (procs_ok answer).

Definition asked (s : shm) (n : bytes) : Prop := ∃ p c, view s p = Some (n, InProgress, c).

(** [new] may be in progress from now on, [gone] is not; entries that are waited for keep their names. *)
Record effect (s s' : shm) (new gone : option bytes) : Prop := mk_effect {
  ef_asked n : asked s' n → (asked s n ∨ new = Some n) ∧ gone ≠ Some n;
  ef_names p n v c : view s p = Some (n, v, c) → c ≠ 0 → ∃ v' c', view s' p = Some (n, v', c');
}.

Lemma keeps_effect s s' new : keeps s s' → effect s s' new None.
Proof.
  intros [K1 K2 _]. split.
  - intros n (p & c & Hp). split; [|done]. left. exists p, c. destruct (K2 p) as [E|E]; rewrite E in Hp; [done|exact Hp].
  - intros p n v c Hp Hc. exists v, c. apply K1; [done|by right].
Qed.

Lemma added_effect s s' C' name v p : added s s' C' name v p → effect s s' (if decide (v = InProgress) then Some name else None) None.
Proof.
  intros [A1 A2 A3 A4 A5]. split.
  - intros n (q & c & Hq). split; [|done]. destruct (decide (q = p)) as [-> | Hne].
    + rewrite A1 in Hq. injection Hq as <- -> _. right. by rewrite decide_True.
    + left. exists q, c. destruct (A4 q Hne) as [E|E]; rewrite E in Hq; [done|exact Hq].
  - intros q n x c Hq Hc. exists x, c. apply A3; [done|by right].
Qed.

Lemma pending_effect (s s' : shm) p d : Shmcache.upd s p (λ e, Shmcache.set_pending (pending_count e + d) e) = Some s' → effect s s' None None.
Proof.
  intros Hu. unfold Shmcache.upd in Hu. destruct (ents s !! p) as [e|] eqn:He; [|done]. injection Hu as <-.
  change (set_ents _ s) with (put_entry s p (Shmcache.set_pending (pending_count e + d) e)).
  assert (∀ n v c, view (put_entry s p (Shmcache.set_pending (pending_count e + d) e)) p = Some (n, v, c) ↔ c = pending_count e + d ∧ view s p = Some (n, v, pending_count e)) as Hv.
  { intros n v c. unfold view. cbn. rewrite lookup_insert_eq, He. cbn. destruct (strs s !! libname e); cbn; [|naive_solver].
    change (read_value (put_entry s p _) (Shmcache.result e)) with (read_value s (Shmcache.result e)). destruct (read_value s (Shmcache.result e)); cbn; naive_solver. }
  split.
  - intros n (q & c & Hq). split; [|done]. left. destruct (decide (q = p)) as [-> | Hne].
    + apply Hv in Hq as [_ Hq]. by eexists _, _.
    + rewrite put_view in Hq by done. by eexists _, _.
  - intros q n v c Hq _. exists v. destruct (decide (q = p)) as [-> | Hne].
    + eexists. apply Hv. split; [done|]. unfold view in Hq |- *. rewrite He in Hq |- *. cbn in *.
      destruct (strs s !! libname e); cbn in *; [|done]. destruct (read_value s (Shmcache.result e)); cbn in *; [|done]. by injection Hq as -> -> _.
    + rewrite put_view by done. by eexists.
Qed.

Lemma update_effect s s' ws live E C C' name v p c :
  procs_ok s ws live E C → cached s C name = Some p → updated s s' C' name v p c → v ≠ InProgress → effect s s' None (Some name).
Proof.
  intros H Hc [U1 U2 U3 U4 U5] Hv. split.
  - intros n (q & c' & Hq). assert (q ≠ p) as Hne by (intros ->; rewrite U1 in Hq; by injection Hq).
    destruct (U4 q Hne) as [E1|E1]; rewrite E1 in Hq; [done|]. split; [by left; eexists _, _|]. intros [= <-].
    apply Hne. pose proof (po_solo _ _ _ _ _ _ H _ _ _ Hq). congruence.
  - intros q n x c' Hq Hc'. destruct (decide (q = p)) as [-> | Hne].
    + destruct (cached_some _ _ _ _ Hc) as (_ & v0 & c0 & Hv0). rewrite Hv0 in Hq. injection Hq as <- _ _. eauto.
    + exists x, c'. apply U3; [done|done|by right].
Qed.

Lemma not_asked s ws live E C name : procs_ok s ws live E C → cached s C name = None → ¬ asked s name.
Proof. intros H Hc (p & c & Hp). pose proof (po_solo _ _ _ _ _ _ H _ _ _ Hp). congruence. Qed.

(** What a process may be told about a name. *)
Definition told (s : shm) (name : bytes) (v : value) : Prop := v = InProgress ∧ asked s name ∨ answer name v.

Lemma view_told s ws live E C p name v c : procs_ok s ws live E C → view s p = Some (name, v, c) → told s name v.
Proof.
  intros H Hv. destruct (view_chain _ _ _ _ _ _ _ _ _ _ (po_cache _ _ _ _ _ _ H) Hv) as [_ [-> |Ha]]; [left; split; [done|by eexists _, _]|by right].
Qed.

(** *** The calls of the cache *)

Lemma relinked_effect s s' : relinked s s' → effect s s' None None.
Proof. intros R. by apply keeps_effect, relinked_keeps. Qed.

Lemma in_progress_read s ws live E C : procs_ok s ws live E C → read_value s in_progress = Some InProgress.
Proof.
  intros H. unfold read_value. rewrite Z.eqb_refl. destruct (in_progress =? 0) eqn:E0; [|done]. exfalso. apply Z.eqb_eq in E0.
  destruct (po_hash _ _ _ _ _ _ H) as [Hz _]. destruct (mo_table _ _ (ck_mem _ _ _ _ _ _ (po_cache _ _ _ _ _ _ H)) Hz) as [T _].
  pose proof (h_range_law _ _ _ (mo_heap _ _ (ck_mem _ _ _ _ _ _ (po_cache _ _ _ _ _ _ H))) (mk_is_Some _ _ T)). unfold in_progress in E0. lia.
Qed.

Lemma lookup_ok s ws name : reach s ws →
  ∃ s' r v, shmcache_lookup (hash s) s name = Some (s', r) ∧ (∀ v', read_found s' r v' ↔ v' = v) ∧ reach s' ws ∧ effect s s' None None ∧
    match v with None => True | Some x => told s name x end.
Proof.
  intros Hr. destruct (reach_ok _ _ _ Hr) as (live & E & C & H).
  destruct (lookup_procs _ _ _ _ _ _ name H) as (s1 & r & El & [E1 H1] & R & Hv).
  assert (shmcache_lookup (hash s) s name = Some (s1, option_map snd r)) as Es.
  { unfold shmcache_lookup. rewrite on_table_ok by apply H. by rewrite El. }
  exists s1, (option_map snd r). destruct r as [[p res]|]; cbn in *.
  - destruct Hv as (_ & v & c & e & Hv & _ & _ & Hread). exists (Some v). split; [done|]. split; [naive_solver|].
    split; [by eapply reach_lookup|]. split; [by apply relinked_effect|by eapply view_told].
  - exists None. split; [done|]. split; [done|]. split; [by eapply reach_lookup|]. split; [by apply relinked_effect|done].
Qed.

Lemma lookup_or_add_ok s ws name : reach s ws → short name →
  ∃ s' v, shmcache_lookup_or_add (hash s) s name = Some (s', v) ∧ reach s' ws ∧
    effect s s' match v with None => Some name | Some _ => None end None ∧ match v with None => True | Some x => told s name x end.
Proof.
  intros Hr Hn. destruct (reach_ok _ _ _ Hr) as (live & E & C & H).
  destruct (lookup_procs _ _ _ _ _ _ name H) as (s1 & r & El & [E1 H1] & R & Hv).
  assert (∀ s' v, shmcache_lookup_or_add (hash s) s name = Some (s', v) → reach s' ws) as Hre by (intros; by eapply reach_lookup_or_add).
  unfold shmcache_lookup_or_add in *. rewrite on_table_ok in Hre |- * by apply H. rewrite El in Hre |- *. cbn [mbind option_bind] in *.
  destruct r as [[p res]|].
  - destruct Hv as (_ & v & c & e & Hv & _ & _ & Hread). rewrite Hread in Hre |- *. cbn in *. exists s1, (Some v). split; [done|].
    split; [by eapply Hre|]. split; [by apply relinked_effect|by eapply view_told].
  - destruct Hv as [Hc ->].
    destruct (add_new_ok _ s live (waiting ws) E C name InProgress (po_cache _ _ _ _ _ _ H) (or_introl eq_refl) Hn I) as (s' & r & l' & E' & C' & Ea & H' & Hcase).
    rewrite Ea in Hre |- *. cbn in *. exists s', None. split; [done|]. split; [by eapply Hre|]. split; [|done].
    destruct Hcase as [(_ & K & _)|(_ & p & C0 & Had & _)]; [by apply keeps_effect|]. apply added_effect in Had. by rewrite decide_True in Had.
Qed.

Lemma waitfor_ok s ws name pid : reach s ws → ws !! pid = None →
  ∃ s' r, waitfor_begin (hash s) s name = Some (s', r) ∧ effect s s' None None ∧
    match r with
    | None => reach s' ws
    | Some (entry, false) => reach s' ws ∧ ∃ v, waitfor_poll s' entry = Some v ∧ answer name v
    | Some (entry, true) => reach s' (<[pid := entry]> ws) ∧ ∃ v c, view s' entry = Some (name, v, c)
    end.
Proof.
  intros Hr Hp. destruct (reach_ok _ _ _ Hr) as (live & E & C & H).
  destruct (lookup_procs _ _ _ _ _ _ name H) as (s1 & r & El & [E1 H1] & R & Hv).
  assert (∀ s' r, waitfor_begin (hash s) s name = Some (s', r) → (∀ e, r ≠ Some (e, true)) → reach s' ws) as Hre by (intros; by eapply reach_no_wait).
  assert (∀ s' e, waitfor_begin (hash s) s name = Some (s', Some (e, true)) → reach s' (<[pid := e]> ws)) as Hrw by (intros; by eapply reach_wait).
  unfold waitfor_begin in *. rewrite on_table_ok in Hre, Hrw |- * by apply H. rewrite El in Hre, Hrw |- *. cbn [mbind option_bind] in *.
  destruct r as [[p res]|].
  2:{ exists s1, None. split; [done|]. split; [by apply relinked_effect|]. by eapply Hre. }
  destruct Hv as (_ & v & c & e & Hv & He & Hres & Hread). assert (view s1 p = Some (name, v, c)) as Hv1 by (by rewrite (relinked_view _ _ _ R)).
  destruct (res =? in_progress) eqn:Ei.
  - destruct (Shmcache.upd s1 p _) as [s2|] eqn:Eu; [|unfold Shmcache.upd in Eu; by rewrite He in Eu].
    cbn in *. exists s2, (Some (p, true)). split; [done|]. pose proof (pending_effect _ _ _ _ Eu) as Hp2. split; [|split; [by apply Hrw|]].
    + pose proof (relinked_effect _ _ R) as [Ra Rn]. destruct Hp2 as [Pa Pn]. split.
      * intros n Hn. destruct (Pa n Hn) as [[Ha|?] _]; [|done]. by apply Ra.
      * intros q n x c' Hq Hc'. assert (view s1 q = Some (n, x, c')) as Hq1 by (by rewrite (relinked_view _ _ _ R)). by eapply Pn.
    + unfold Shmcache.upd in Eu. rewrite He in Eu. injection Eu as <-. destruct (view_entry _ _ _ Hv1) as (e' & He' & Hn' & Hr' & _).
      rewrite He in He'. injection He' as <-. cbn in Hn', Hr'. exists v, (pending_count e + 1). unfold view. cbn. rewrite lookup_insert_eq. cbn. rewrite Hn'. cbn.
      change (read_value (put_entry s1 p _) (Shmcache.result e)) with (read_value s1 (Shmcache.result e)).
      unfold read_value in Hr' |- *. cbn. destruct (Shmcache.result e =? 0); [by injection Hr' as <-|].
      destruct (Shmcache.result e =? in_progress); [by injection Hr' as <-|]. destruct (strs s1 !! Shmcache.result e); [by injection Hr' as <-|done].
  - exists s1, (Some (p, false)). split; [done|]. split; [by apply relinked_effect|]. split; [by eapply Hre|]. exists v.
    split; [by eapply poll_value|]. destruct (view_told _ _ _ _ _ _ _ _ _ H Hv) as [[-> _]|?]; [|done].
    apply read_in_progress in Hread. subst res. apply Z.eqb_neq in Ei. congruence.
Qed.

Lemma woken_ok s ws pid entry name v0 c0 : reach s ws → ws !! pid = Some entry → view s entry = Some (name, v0, c0) →
  waitfor_poll s entry = Some v0 ∧ told s name v0 ∧
  (v0 ≠ InProgress → ∃ s', waitfor_end s entry = Some s' ∧ reach s' (delete pid ws) ∧ effect s s' None None).
Proof.
  intros Hr Hw Hv. destruct (reach_ok _ _ _ Hr) as (live & E & C & H). pose proof (poll_value _ _ _ _ _ Hv) as Hp.
  split; [done|]. split; [by eapply view_told|]. intros Hne. destruct (waiter_procs _ _ _ _ _ _ _ _ H Hw) as (e & s' & _ & Ew & _).
  exists s'. split; [done|]. split; [by eapply reach_woken|]. by apply (pending_effect s s' entry (-1)).
Qed.

Lemma not_asked_settled s ws name : reach s ws → ¬ asked s name → settled s name.
Proof.
  intros Hr Ha s' p r El ->. apply Ha. destruct (reach_ok _ _ _ Hr) as (live & E & C & H).
  destruct (lookup_procs _ _ _ _ _ _ name H) as (s1 & r1 & El1 & [E1 H1] & R & Hv). rewrite El in El1. injection El1 as <- <-.
  destruct Hv as (_ & v & c & e & Hv & _ & _ & Hread). rewrite (in_progress_read _ _ _ _ _ H1) in Hread. injection Hread as <-. by eexists _, _.
Qed.

Lemma add_ok s ws name v : reach s ws → short name → short_value v → answer name v → ¬ asked s name →
  ∃ s' r, shmcache_add (hash s) s name v = Some (s', r) ∧ reach s' ws ∧ effect s s' None None.
Proof.
  intros Hr Hn Hv Ha Hna. destruct (reach_ok _ _ _ Hr) as (live & E & C & H).
  destruct (add_new_ok _ s live (waiting ws) E C name v (po_cache _ _ _ _ _ _ H) (or_intror Ha) Hn Hv) as (s' & r & l' & E' & C' & Ea & H' & Hcase).
  assert (shmcache_add (hash s) s name v = Some (s', r)) as Es by (unfold shmcache_add; by rewrite on_table_ok by apply H).
  exists s', r. split; [done|]. split; [eapply reach_add; try done; [by eapply answer_settled|by eapply not_asked_settled]|].
  destruct Hcase as [(_ & K & _)|(_ & p & C0 & Had & _)]; [by apply keeps_effect|]. apply added_effect in Had.
  rewrite decide_False in Had; [done|by eapply answer_settled].
Qed.

Lemma stored_ok s ws name mapped : reach s ws → short_value (value_of mapped) → answer name (value_of mapped) →
  ∃ s' r, shmcache_update (hash s) s name mapped = Some (s', r) ∧
    (r = 0 ∧ reach s' ws ∧ effect s s' None (Some name) ∨
     r = -1 ∧ shmcache_lookup_worker s name = Some (s', None) ∧ reach s' ws ∧ effect s s' None (Some name) ∨
     r = -1 ∧ ∃ s1 x, shmcache_lookup_worker s name = Some (s1, Some x)).
Proof.
  intros Hr Hv Ha. destruct (reach_ok _ _ _ Hr) as (live & E & C & H).
  assert (ShmcacheProcs.fits s name mapped) as Hf.
  { intros s1 p r El. destruct (lookup_procs _ _ _ _ _ _ name H) as (s2 & r1 & El1 & [E1 H1] & R & Hvp). rewrite El in El1. injection El1 as <- <-.
    destruct Hvp as (_ & v & c & e & Hvp & _ & _ & Hread). destruct (view_told _ _ _ _ _ _ _ _ _ H Hvp) as [[-> _]|Ha'].
    - left. by eapply read_in_progress.
    - right. rewrite Hread. f_equal. by eapply answer_functional. }
  pose proof (update_procs _ s ws live E C name mapped H (or_intror Ha) Hv Hf) as Hu.
  assert (∀ x, shmcache_add_update s name mapped = x → shmcache_update (hash s) s name mapped = x) as Es
    by (intros x <-; unfold shmcache_update; by rewrite on_table_ok by apply H).
  destruct (lookup_procs _ _ _ _ _ _ name H) as (s1 & r1 & El & _ & _ & Hv1).
  destruct (cached s C name) as [p|] eqn:Ec.
  - destruct Hu as (s' & r & Eu & Hcase). exists s', r. split; [by apply Es|]. destruct Hcase as [(-> & c & l' & E' & C' & H' & Hup)| ->].
    + left. split; [done|]. split; [eapply reach_update; try done; [by apply Es|by left]|]. eapply update_effect; try done. by eapply answer_settled.
    + right. right. split; [done|]. destruct r1 as [[q x]|]; [by eexists _, _|]. by destruct Hv1.
  - exists s, (-1). split; [by apply Es|]. right. left. split; [done|]. destruct r1 as [[q x]|]; [by destruct Hv1|]. destruct Hv1 as [_ ->].
    split; [done|]. split; [done|]. split; [|by eauto]. intros n Hn. split; [by left|]. intros [= <-]. by eapply not_asked.
Qed.

(** ** The invariant *)

Section invariant.
Context {R : Type}.

Definition entry_of (cp : bytes * pstate R) : option Z := match cp.2 with Waiting e _ _ => Some e | Running _ => None end.
Definition waits (P : procs R) : gmap nat Z := omap entry_of P.
Definition set_wait (pid : nat) (ps : pstate R) (ws : gmap nat Z) : gmap nat Z :=
  match ps with Waiting e _ _ => <[pid := e]> ws | Running _ => delete pid ws end.

Lemma waits_insert P pid cwd ps : waits (<[pid := (cwd, ps)]> P) = set_wait pid ps (waits P).
Proof.
  apply map_eq. intros i. unfold waits, set_wait. rewrite lookup_omap. destruct (decide (i = pid)) as [-> | Hne].
  - rewrite lookup_insert_eq. destruct ps; cbn; [by rewrite lookup_delete_eq|by rewrite lookup_insert_eq].
  - rewrite lookup_insert_ne by done. destruct ps; [rewrite lookup_delete_ne by done|rewrite lookup_insert_ne by done]; by rewrite lookup_omap.
Qed.

Lemma waits_lookup P pid cwd ps : P !! pid = Some (cwd, ps) → waits P !! pid = entry_of (cwd, ps).
Proof. intros H. unfold waits. by rewrite lookup_omap, H. Qed.

(** A process that may go on, with the name [o] to ask for and [n] accesses left. *)
Definition pok (s : shm) (cwd : bytes) (T : option bytes → nat → R → Prop) (o : option bytes) (n : nat) (ps : pstate R) : Prop :=
  match ps with
  | Running p => wp cwd T o n p
  | Waiting e name k => o = None ∧ (∃ v c, view s e = Some (name, v, c)) ∧ (1 ≤ n)%nat ∧ ∀ v, answer name v → wp cwd T None (n - 1) (k (Some v))
  end.

(** What a step of a process does. *)
Record moved (s s' : shm) (cwd : bytes) (T : option bytes → nat → R → Prop) (o o' : option bytes) (n n' : nat) (ps' : pstate R) : Prop := mk_moved {
  mv_pok : pok s' cwd T o' n' ps';
  mv_less : (n' < n)%nat;
  mv_effect : ∃ new gone, effect s s' new gone ∧ (new = None ∨ new = o') ∧ (o = None ∨ o' = o ∨ gone = o);
  mv_obl m : o' = Some m → o = Some m ∨ ¬ is_dir_name m;
}.

Definition no_dir_asked (s : shm) : Prop := ∀ d, is_dir_name d → ¬ asked s d.

Lemma told_answer s name v : no_dir_asked s → is_dir_name name → told s name v → answer name v.
Proof. intros Hd Hn [[_ Ha]|?]; [by destruct (Hd name)|done]. Qed.

Lemma pstep_ok s ws pid cwd T o n ps s' ps' :
  reach s ws → no_dir_asked s → ws !! pid = entry_of (cwd, ps) → pok s cwd T o n ps → pstep cwd s ps s' ps' →
  ∃ o' n', reach s' (set_wait pid ps' ws) ∧ moved s s' cwd T o o' n n' ps'.
Proof.
  intros Hr Hd Hw Hp Hs.
  assert (∀ p, ps' = Running p → ws !! pid = None → set_wait pid ps' ws = ws) as Hrun by (intros p -> Hn; cbn; by apply delete_id).
  assert (∀ o' n' q new gone, ps' = Running q → ws !! pid = None → reach s' ws → wp cwd T o' n' q → (n' < n)%nat → effect s s' new gone →
    (new = None ∨ new = o') → (o = None ∨ o' = o ∨ gone = o) → (∀ m, o' = Some m → o = Some m ∨ ¬ is_dir_name m) →
    ∃ o' n', reach s' (set_wait pid ps' ws) ∧ moved s s' cwd T o o' n n' ps') as Hgo.
  { intros o' n' q new gone -> Hn Hr' Hq Hlt He H1 H2 H3. exists o', n'. rewrite (Hrun q) by done. split; [done|]. split; try done. by eexists _, _. }
  assert (effect s s None None) as Hid by (split; eauto).
  destruct Hs as [s name k s' r v Hc Hf|s name k s' v Hc|s name k s' Hc|s name k s' entry v Hc Hpoll|s name k s' entry Hc
    |s entry name k v s' Hpoll Hne Hend|s name v k s' r Hc|s name mapped k s' Hc|s name mapped k s' Hc Hl|s path dso k|s path l k|s path k|s pid' k|s path k|s q k];
    cbn [entry_of snd] in Hw; cbn [pok wp] in Hp.
  - destruct (lookup_ok s ws name Hr) as (s2 & r2 & v2 & E & Hv & Hr' & He & Ht). rewrite Hc in E. injection E as <- <-. apply Hv in Hf as ->.
    destruct Hp as (Hdn & Hn & Hnone & Hsome). eapply (Hgo o (n - 1)%nat); [done|done|done| |lia|done|by left|by auto|by left].
    destruct v2 as [x|]; [|done]. apply Hsome. by eapply told_answer.
  - destruct Hp as (Hsh & Hnd & -> & Hn & Hnone & Hip & Hsome).
    destruct (lookup_or_add_ok s ws name Hr Hsh) as (s2 & v2 & E & Hr' & He & Ht). rewrite Hc in E. injection E as <- <-. destruct v as [x|].
    + eapply (Hgo None (n - 1)%nat); [done|done|done| |lia|done|by left|by left|done]. destruct Ht as [[-> _]|?]; auto.
    + eapply (Hgo (Some name) (n - 1)%nat); [done|done|done|done|lia|done|by right|by left|]. intros m [= <-]. by right.
  - destruct Hp as (Hnd & -> & Hn & Hnone & Hsome).
    destruct (waitfor_ok s ws name pid Hr Hw) as (s2 & r2 & E & He & Hm). rewrite Hc in E. injection E as <- <-.
    eapply (Hgo (Some name) (n - 2)%nat); [done|done|done|done|lia|done|by left|by left|]. intros m [= <-]. by right.
  - destruct Hp as (Hnd & -> & Hn & Hnone & Hsome).
    destruct (waitfor_ok s ws name pid Hr Hw) as (s2 & r2 & E & He & Hm). rewrite Hc in E. injection E as <- <-.
    destruct Hm as (Hr' & v2 & Ev & Ha). rewrite Hpoll in Ev. injection Ev as <-.
    eapply (Hgo None (n - 2)%nat); [done|done|done|by apply Hsome|lia|done|by left|by left|done].
  - destruct Hp as (Hnd & -> & Hn & Hnone & Hsome).
    destruct (waitfor_ok s ws name pid Hr Hw) as (s2 & r2 & E & He & Hm). rewrite Hc in E. injection E as <- <-. destruct Hm as (Hr' & Hv).
    exists None, (n - 1)%nat. split; [done|]. split; [|lia|by eexists _, _; split; [done|]; auto|done]. split; [done|]. split; [done|]. split; [lia|].
    intros v Hv'. replace (n - 1 - 1)%nat with (n - 2)%nat by lia. by apply Hsome.
  - destruct Hp as (-> & (v0 & c0 & Hv) & Hn & Hsome). destruct (woken_ok s ws pid entry name v0 c0 Hr Hw Hv) as (Ep & Ht & He).
    rewrite Hpoll in Ep. injection Ep as <-. destruct (He Hne) as (s2 & Ee & Hr' & Hef). rewrite Hend in Ee. injection Ee as <-.
    exists None, (n - 1)%nat. split; [done|]. split; [|lia|by eexists _, _; split; [done|]; auto|done]. cbn. apply Hsome.
    by destruct Ht as [[? _]|?].
  - destruct Hp as (Hsh & Hsv & Ha & Hdn & Hn & Hk). destruct (add_ok s ws name v Hr Hsh Hsv Ha (Hd _ Hdn)) as (s2 & r2 & E & Hr' & He).
    rewrite Hc in E. injection E as <- <-. eapply (Hgo o (n - 1)%nat); [done|done|done|done|lia|done|by left|by auto|by left].
  - destruct Hp as (-> & Hsv & Ha & Hn & Hk). destruct (stored_ok s ws name mapped Hr Hsv Ha) as (s2 & r2 & E & Hcase). rewrite Hc in E. injection E as <- <-.
    destruct Hcase as [(_ & Hr' & He)|[(? & _)|(? & _)]]; [|done|done].
    eapply (Hgo None (n - 1)%nat); [done|done|done|done|lia|done|by left|by auto|done].
  - destruct Hp as (-> & Hsv & Ha & Hn & Hk). destruct (stored_ok s ws name mapped Hr Hsv Ha) as (s2 & r2 & E & Hcase). rewrite Hc in E. injection E as <- <-.
    destruct Hcase as [(? & _)|[(_ & _ & Hr' & He)|(_ & s1 & x & ?)]]; [done| |congruence].
    eapply (Hgo None (n - 1)%nat); [done|done|done|done|lia|done|by left|by auto|done].
  - destruct Hp as (Hn & Hk). eapply (Hgo o (n - 1)%nat); [done|done|done|done|lia|done|by left|by auto|by left].
  - destruct Hp as (Hn & Hk). eapply (Hgo o (n - 1)%nat); [done|done|done|done|lia|done|by left|by auto|by left].
  - destruct Hp as (Hn & Hk). eapply (Hgo o (n - 1)%nat); [done|done|done|done|lia|done|by left|by auto|by left].
  - destruct Hp as (Hn & Hk). eapply (Hgo o (n - 1)%nat); [done|done|done|done|lia|done|by left|by auto|by left].
  - destruct Hp as (Hn & Hk). eapply (Hgo o (n - 1)%nat); [done|done|done|done|lia|done|by left|by auto|by left].
  - destruct Hp as (Hn & Hk). eapply (Hgo o (n - 1)%nat); [done|done|done|done|lia|done|by left|by auto|by left].
Qed.

(** ** All processes *)

(** The programs of the processes, what their results should be, and how many accesses they make. *)
Variable Q : gmap nat (bytes * prog R).
Variable good_result : nat → R → Prop.
Variable accesses : nat → nat.

Definition post (pid : nat) : option bytes → nat → R → Prop := λ o _ r, o = None ∧ good_result pid r.

Record sys_ok (st : shm * procs R) (obl : nat → option bytes) (left : nat → nat) : Prop := mk_sys_ok {
  sy_reach : reach st.1 (waits st.2);
  sy_dom : dom st.2 = dom Q;
  sy_procs pid cwd ps : st.2 !! pid = Some (cwd, ps) → pok st.1 cwd (post pid) (obl pid) (left pid) ps;
  sy_obl pid n : obl pid = Some n → pid ∈ dom Q ∧ ¬ is_dir_name n;
  sy_asked n : asked st.1 n → ∃ pid, obl pid = Some n;
}.

Lemma sys_no_dir st obl left : sys_ok st obl left → no_dir_asked st.1.
Proof. intros H d Hd (pid & Ho)%(sy_asked _ _ _ H). by destruct (sy_obl _ _ _ H _ _ Ho). Qed.

Lemma waiter_pending s ws pid e n v c : reach s ws → ws !! pid = Some e → view s e = Some (n, v, c) → c ≠ 0.
Proof.
  intros Hr Hw Hv. destruct (reach_ok _ _ _ Hr) as (live & E & C & H). destruct (view_entry _ _ _ Hv) as (en & He & _ & _ & Hc). cbn in Hc.
  destruct (ck_entry _ _ _ _ _ _ (po_cache _ _ _ _ _ _ H) _ _ He) as [_ _ Hp]. rewrite <- Hc, Hp, (waiting_delete _ _ _ e Hw), decide_True by done.
  unfold waiting. lia.
Qed.

(** Other processes may go on as before. *)
Lemma pok_frame s s' ws new gone pid cwd T o n ps : reach s ws → ws !! pid = entry_of (cwd, ps) → effect s s' new gone →
  pok s cwd T o n ps → pok s' cwd T o n ps.
Proof.
  intros Hr Hw [_ Hn] Hp. destruct ps as [p|e name k]; [done|]. cbn in Hw. destruct Hp as (-> & (v & c & Hv) & H). split; [done|]. split; [|done].
  eapply Hn; [exact Hv|]. by eapply waiter_pending.
Qed.

Definition fset {B} (f : nat → B) (pid : nat) (x : B) (i : nat) : B := if decide (i = pid) then x else f i.

Lemma system_step_ok st obl left st' : sys_ok st obl left → step st st' →
  ∃ pid o' n', pid ∈ dom Q ∧ sys_ok st' (fset obl pid o') (fset left pid n') ∧ (n' < left pid)%nat.
Proof.
  intros H Hs. destruct Hs as [s P pid cwd ps s' ps' HP Hs]. pose proof (sys_no_dir _ _ _ H) as Hd. destruct H as [Hr Hdom Hp Ho Ha]. cbn in *.
  pose proof (Hp _ _ _ HP) as Hok. pose proof (waits_lookup _ _ _ _ HP) as Hw.
  destruct (pstep_ok _ _ _ _ _ _ _ _ _ _ Hr Hd Hw Hok Hs) as (o' & n' & Hr' & [Hok' Hlt (new & gone & He & Hnew & Hgone) Hobl]).
  assert (pid ∈ dom Q) as Hpid by (rewrite <- Hdom; by apply elem_of_dom; eexists).
  exists pid, o', n'. split; [done|]. split; [|done]. split; cbn.
  - by rewrite waits_insert.
  - rewrite dom_insert_L. rewrite Hdom. set_solver.
  - intros i cwd' ps2 Hi. unfold fset. destruct (decide (i = pid)) as [-> | Hne].
    + rewrite lookup_insert_eq in Hi. by injection Hi as <- <-.
    + rewrite lookup_insert_ne in Hi by done. eapply pok_frame; [exact Hr|by apply waits_lookup|exact He|by apply Hp].
  - intros i m. unfold fset. destruct (decide (i = pid)) as [-> |_]; [|by apply Ho]. intros Hm. split; [done|].
    destruct (Hobl m Hm) as [Hold|?]; [by eapply Ho|done].
  - intros m Hm. destruct (ef_asked _ _ _ _ He m Hm) as [[Hold|Hn] Hg].
    + destruct (Ha m Hold) as [i Hi]. destruct (decide (i = pid)) as [-> | Hne]; [|exists i; unfold fset; by rewrite decide_False].
      exists pid. unfold fset. rewrite decide_True by done. destruct Hgone as [?|[-> | ->]]; congruence.
    + exists pid. unfold fset. rewrite decide_True by done. destruct Hnew; congruence.
Qed.

(** *** Accesses that are left *)

Lemma total_outside left l pid n : pid ∉ l → sum_list_with (fset left pid n) l = sum_list_with left l.
Proof.
  induction l as [|i l IH]; cbn; [done|]. intros [Hne Hl]%not_elem_of_cons. rewrite IH by done. unfold fset. by rewrite decide_False.
Qed.

Lemma total_less left l pid n : NoDup l → pid ∈ l → (n < left pid)%nat → (sum_list_with (fset left pid n) l < sum_list_with left l)%nat.
Proof.
  induction 1 as [|i l Hi Hnd IH]; [by intros ?%not_elem_of_nil|]. intros [-> |Hin]%elem_of_cons Hlt; cbn.
  - rewrite total_outside by done. unfold fset. rewrite decide_True by done. lia.
  - specialize (IH Hin Hlt). unfold fset at 1. rewrite decide_False by (intros ->; done). lia.
Qed.

Lemma steps_ok k : ∀ st obl left st', sys_ok st obl left → nsteps step k st st' →
  ∃ obl' left', sys_ok st' obl' left' ∧ (k + sum_list_with left' (elements (dom Q)) ≤ sum_list_with left (elements (dom Q)))%nat.
Proof.
  induction k as [|k IH]; intros st obl left st' H Hs; inversion Hs as [|? ? st1 ? H1 H2]; subst; [by exists obl, left|].
  destruct (system_step_ok _ _ _ _ H H1) as (pid & o' & n' & Hpid & Hok & Hlt). destruct (IH _ _ _ _ Hok H2) as (obl' & left' & Hok' & Hle).
  exists obl', left'. split; [done|]. pose proof (total_less left (elements (dom Q)) pid n' (NoDup_elements _) (proj2 (elem_of_elements _ _) Hpid) Hlt). lia.
Qed.

Lemma start_ok s : started s → (∀ pid cwd p, Q !! pid = Some (cwd, p) → wp cwd (post pid) None (accesses pid) p) →
  sys_ok (s, start_procs Q) (λ _, None) accesses.
Proof.
  intros (h & hlimit & tbl & Hi & Hl & E & Ht) Hq. split; cbn [fst snd]; [| | |done|].
  - replace (waits (start_procs Q)) with (∅ : gmap nat Z); [by eapply reach_init|]. symmetry. apply map_eq. intros i. unfold waits, start_procs.
    rewrite lookup_omap, lookup_fmap, lookup_empty. by destruct (Q !! i) as [[cwd p]|].
  - unfold start_procs. by rewrite dom_fmap_L.
  - intros pid cwd ps. unfold start_procs. rewrite lookup_fmap. destruct (Q !! pid) as [[cwd' p]|] eqn:EQ; [|done]. cbn. intros [= <- <-]. by apply Hq.
  - intros n (p & c & Hp). destruct (init_cache_ok answer h hlimit Hi Hl) as (s2 & t2 & E2 & Hr). rewrite E in E2. injection E2 as <- <-.
    destruct Hr as [[? _]|(_ & _ & Hnone & _)]; [done|]. by rewrite Hnone in Hp.
Qed.

(** *** Nobody is blocked *)

Definition finished (ps : pstate R) : Prop := ∃ rs, ps = Running (Ret rs).

(** An update for which there is no memory. *)
Definition out_of_memory (s : shm) (ps : pstate R) : Prop :=
  ∃ name mapped k s', ps = Running (Update name mapped k) ∧ shmcache_update (hash s) s name mapped = Some (s', -1) ∧
    shmcache_lookup_worker s name ≠ Some (s', None).

Lemma pstep_progress s ws pid cwd T o n ps :
  reach s ws → no_dir_asked s → ws !! pid = entry_of (cwd, ps) → pok s cwd T o n ps →
  finished ps ∨ (∃ s' ps', pstep cwd s ps s' ps') ∨ out_of_memory s ps ∨ ∃ e name k, ps = Waiting e name k ∧ asked s name.
Proof.
  intros Hr Hd Hw Hp. destruct ps as [p|e name k].
  - destruct p as [r| |name k|name k|name k|name v k|name m k|path d k|path l k|path k|pid' k|path k|q k]; cbn in Hp; [by left; eexists|done|..].
    + destruct (lookup_ok s ws name Hr) as (s2 & r2 & v2 & E & Hv & _). right. left. eexists _, _. eapply do_lookup; [exact E|by apply Hv].
    + destruct (lookup_or_add_ok s ws name Hr) as (s2 & v2 & E & _); [apply Hp|]. right. left. eexists _, _. by eapply do_lookup_or_add.
    + destruct (waitfor_ok s ws name pid Hr Hw) as (s2 & r2 & E & _ & Hm). right. left. destruct r2 as [[e []]|].
      * eexists _, _. by eapply do_wait.
      * destruct Hm as (_ & v & Ev & _). eexists _, _. by eapply do_no_wait.
      * eexists _, _. by eapply do_gone.
    + destruct Hp as (Hsh & Hsv & Ha & Hdn & _). destruct (add_ok s ws name v Hr Hsh Hsv Ha (Hd _ Hdn)) as (s2 & r2 & E & _).
      right. left. eexists _, _. by eapply do_add.
    + destruct Hp as (_ & Hsv & Ha & _). destruct (stored_ok s ws name m Hr Hsv Ha) as (s2 & r2 & E & [(-> & _)|[(-> & El & _)|(-> & s1 & x & El)]]).
      * right. left. eexists _, _. by eapply do_update.
      * right. left. eexists _, _. by eapply do_no_update.
      * right. right. left. eexists _, _, _, _. split; [done|]. split; [done|]. congruence.
    + right. left. eexists _, _. by eapply do_send_file.
    + right. left. eexists _, _. by eapply do_send_stat.
    + right. left. eexists _, _. by eapply do_send_exists.
    + right. left. eexists _, _. by eapply do_send_procmaps.
    + right. left. eexists _, _. by eapply do_send_origpath.
    + right. left. eexists _, _. by eapply do_send_tls.
  - destruct Hp as (_ & (v & c & Hv) & _). cbn in Hw. destruct (woken_ok s ws pid e name v c Hr Hw Hv) as (Ep & Ht & He).
    destruct (decide (v = InProgress)) as [-> | Hne]; [|destruct (He Hne) as (s' & Ew & _); right; left; eexists _, _; by eapply do_woken].
    right. right. right. eexists _, _, _. split; [done|]. by eexists _, _.
Qed.

Definition stopped (st : shm * procs R) : Prop := ¬ ∃ st', step st st'.
Definition memory_left (st : shm * procs R) : Prop := ∀ pid cwd ps, st.2 !! pid = Some (cwd, ps) → ¬ out_of_memory st.1 ps.

Lemma stopped_finished st obl left pid cwd ps : sys_ok st obl left → stopped st → memory_left st → st.2 !! pid = Some (cwd, ps) → finished ps.
Proof.
  intros H Hst Hm Hp. pose proof (sys_no_dir _ _ _ H) as Hd. pose proof H as [Hr Hdom Hps Ho Ha]. destruct st as [s P]. cbn in *.
  assert (∀ i cwd' ps', P !! i = Some (cwd', ps') → finished ps' ∨ ∃ e name k, ps' = Waiting e name k ∧ asked s name) as Hall.
  { intros i cwd' ps' Hi. pose proof (Hps _ _ _ Hi) as Hok. pose proof (waits_lookup _ _ _ _ Hi) as Hw.
    destruct (pstep_progress _ _ _ _ _ _ _ _ Hr Hd Hw Hok) as [?|[(s' & ps2 & Hs)|[?|?]]]; [by left| | |by right].
    - destruct Hst. eexists. by eapply step_proc.
    - by destruct (Hm _ _ _ Hi). }
  destruct (Hall _ _ _ Hp) as [?|(e & name & k & -> & Hask)]; [done|exfalso]. destruct (Ha _ Hask) as [i Hi].
  destruct (Ho _ _ Hi) as [Hdi _]. rewrite <- Hdom in Hdi. apply elem_of_dom in Hdi as [[cwd' ps'] Hpi].
  pose proof (Hps _ _ _ Hpi) as Hok. rewrite Hi in Hok. destruct (Hall _ _ _ Hpi) as [[rs ->]|(e' & name' & k' & -> & _)]; cbn in Hok.
  - by destruct Hok.
  - by destruct Hok.
Qed.

Lemma procs_run s0 k st :
  started s0 → (∀ pid cwd p, Q !! pid = Some (cwd, p) → wp cwd (post pid) None (accesses pid) p) →
  nsteps step k (s0, start_procs Q) st →
  (k ≤ sum_list_with accesses (elements (dom Q)))%nat ∧
  (∀ pid cwd ps, st.2 !! pid = Some (cwd, ps) → ps ≠ Running Stuck ∧ ∀ r, ps = Running (Ret r) → good_result pid r) ∧
  (stopped st → memory_left st → ∀ pid cwd ps, st.2 !! pid = Some (cwd, ps) → finished ps).
Proof.
  intros Hs Hq Hk. destruct (steps_ok k _ _ _ _ (start_ok s0 Hs Hq) Hk) as (obl & left' & H & Hle). split; [lia|]. split.
  - intros pid cwd ps Hp. pose proof (sy_procs _ _ _ H _ _ _ Hp) as Hok. split; [by intros ->|]. intros r ->. apply Hok.
  - intros Hst Hm pid cwd ps Hp. by eapply stopped_finished.
Qed.
End invariant.

(** ** Theorems *)

(** Processes with lists of queries. *)
Definition query_procs (Q : gmap nat (bytes * list query)) : gmap nat (bytes * prog (list result)) :=
  (λ cq, (cq.1, calls true cq.1 cq.2)) <$> Q.
Definition good_results (Q : gmap nat (bytes * list query)) (pid : nat) (rs : list result) : Prop :=
  ∃ cwd qs, Q !! pid = Some (cwd, qs) ∧ Forall2 (λ q r, ∃ r1, direct cwd (call false cwd q) = Some r1 ∧ agrees r1 r) qs rs.
Definition queries_of (Q : gmap nat (bytes * list query)) (pid : nat) : nat := match Q !! pid with Some (_, qs) => length qs | None => 0%nat end.
Definition all_queries (Q : gmap nat (bytes * list query)) : nat := sum_list_with (queries_of Q) (elements (dom Q)).

Lemma query_procs_wp Q pid cwd p : (∀ pid cwd qs, Q !! pid = Some (cwd, qs) → Forall (query_ok cwd) qs) →
  query_procs Q !! pid = Some (cwd, p) → wp cwd (post (good_results Q) pid) None (7 * queries_of Q pid) p.
Proof.
  intros Hq. unfold query_procs, queries_of. rewrite lookup_fmap. destruct (Q !! pid) as [[cwd' qs]|] eqn:E; [|done]. cbn. intros [= <- <-].
  eapply wp_mono; [reflexivity| |apply (calls_wp cwd' qs 0); by eapply Hq]. intros o m m' r _ [-> Hr]. split; [done|]. by eexists _, _.
Qed.

Lemma query_procs_dom Q : dom (query_procs Q) = dom Q.
Proof. unfold query_procs. by rewrite dom_fmap_L. Qed.



(** ** Running processes *)

(** The step of a process, when it can go on. *)
Definition exec {R} (cwd : bytes) (s : shm) (ps : pstate R) : option (shm * pstate R) :=
  match ps with
  | Running (Lookup name k) =>
      '(s', r) ← shmcache_lookup (hash s) s name;
      match r with None => Some (s', Running (k None)) | Some p => v ← read_value s' p; Some (s', Running (k (Some v))) end
  | Running (LookupOrAdd name k) => '(s', v) ← shmcache_lookup_or_add (hash s) s name; Some (s', Running (k v))
  | Running (Waitfor name k) =>
      '(s', r) ← waitfor_begin (hash s) s name;
      match r with
      | None => Some (s', Running (k None))
      | Some (entry, false) => v ← waitfor_poll s' entry; Some (s', Running (k (Some v)))
      | Some (entry, true) => Some (s', Waiting entry name k)
      end
  | Waiting entry _ k =>
      v ← waitfor_poll s entry;
      if bool_decide (v = InProgress) then None else s' ← waitfor_end s entry; Some (s', Running (k (Some v)))
  | Running (Add name v k) => '(s', _) ← shmcache_add (hash s) s name v; Some (s', Running k)
  | Running (Update name mapped k) => '(s', r) ← shmcache_update (hash s) s name mapped; if r =? 0 then Some (s', Running k) else None
  | Running (SendFile path _ k) => Some (s, Running (k (Some (s_file S (absolute cwd path)))))
  | Running (SendStat path l k) => Some (s, Running (k (Some (stat_answer S l (absolute cwd path)))))
  | Running (SendExists path k) => Some (s, Running (k (Some (if s_exists S (absolute cwd path) then 1 else 0))))
  | Running (SendProcmaps pid k) => Some (s, Running (k (s_procmaps S pid)))
  | Running (SendOrigpath path k) => Some (s, Running (k (s_origpath S path)))
  | Running (SendStaticTls q k) => Some (s, Running (k (s_tls S q)))
  | Running (Ret _) | Running Stuck => None
  end.

Lemma exec_step {R} cwd s (ps : pstate R) s' ps' : exec cwd s ps = Some (s', ps') → pstep cwd s ps s' ps'.
Proof.
  destruct ps as [p|e name k]; [destruct p as [r| |name k|name k|name k|name v k|name m k|path d k|path l k|path k|pid k|path k|q k]|]; cbn; intros H; try done.
  - destruct (shmcache_lookup _ _ _) as [[s1 r]|] eqn:E; [|done]. cbn in H. destruct r as [p|].
    + destruct (read_value s1 p) as [v|] eqn:Ev; [|done]. injection H as <- <-. eapply do_lookup; [exact E|by eexists].
    + injection H as <- <-. by eapply do_lookup.
  - destruct (shmcache_lookup_or_add _ _ _) as [[s1 r]|] eqn:E; [|done]. injection H as <- <-. by eapply do_lookup_or_add.
  - destruct (waitfor_begin _ _ _) as [[s1 r]|] eqn:E; [|done]. cbn in H. destruct r as [[e []]|].
    + injection H as <- <-. by eapply do_wait.
    + destruct (waitfor_poll s1 e) as [v|] eqn:Ev; [|done]. injection H as <- <-. by eapply do_no_wait.
    + injection H as <- <-. by eapply do_gone.
  - destruct (shmcache_add _ _ _ _) as [[s1 r]|] eqn:E; [|done]. injection H as <- <-. by eapply do_add.
  - destruct (shmcache_update _ _ _ _) as [[s1 r]|] eqn:E; [|done]. cbn in H. destruct (r =? 0) eqn:Er; [|done]. apply Z.eqb_eq in Er as ->.
    injection H as <- <-. by eapply do_update.
  - injection H as <- <-. by eapply do_send_file.
  - injection H as <- <-. by eapply do_send_stat.
  - injection H as <- <-. by eapply do_send_exists.
  - injection H as <- <-. by eapply do_send_procmaps.
  - injection H as <- <-. by eapply do_send_origpath.
  - injection H as <- <-. by eapply do_send_tls.
  - destruct (waitfor_poll s e) as [v|] eqn:Ev; [|done]. cbn in H. destruct (bool_decide (v = InProgress)) eqn:Eb; [done|].
    destruct (waitfor_end s e) as [s1|] eqn:E; [|done]. injection H as <- <-. apply bool_decide_eq_false in Eb. by eapply do_woken.
Qed.

(** The processes go on in the order of a schedule. *)
Fixpoint run {R} (schedule : list nat) (st : shm * procs R) : option (shm * procs R) :=
  match schedule with
  | [] => Some st
  | pid :: rest => '(cwd, ps) ← st.2 !! pid; '(s', ps') ← exec cwd st.1 ps; run rest (s', <[pid := (cwd, ps')]> st.2)
  end.

Lemma run_steps {R} schedule : ∀ (st st' : shm * procs R), run schedule st = Some st' → nsteps step (length schedule) st st'.
Proof.
  induction schedule as [|pid rest IH]; intros [s P] st' H; cbn in H; [injection H as <-; constructor|].
  destruct (P !! pid) as [[cwd ps]|] eqn:EP; [|done]. cbn in H. destruct (exec cwd s ps) as [[s' ps']|] eqn:E; [|done]. cbn in H.
  econstructor; [|by apply IH]. by eapply step_proc; [|apply exec_step].
Qed.

Definition results_of {R} (st : shm * procs R) (pid : nat) : option R :=
  match st.2 !! pid with Some (_, Running (Ret rs)) => Some rs | _ => None end.

End system.
(** ** Examples *)

Section examples.
Definition demo_heap : SharedHeap Sheep.sheep := sheep_heap 12288 false.
#[local] Existing Instance demo_heap.

(** [/d/a] is there, and [/n] is no directory. *)
Definition demo_path : bytes := lit "/d/a".
Definition demo_replies : replies :=
  mk_replies
    (λ p, if bool_decide (p = demo_path) then (Some (lit "/c/a"), 0) else
          if bool_decide (dir_of p = lit "/n") then (None, SPINDLE_ENODIR) else (None, ENOENT))
    (λ _ p, bool_decide (p = lit "/d/self")) (λ _ _, []) (λ p, bool_decide (p = demo_path)) (λ _, None) (λ _, None) (λ _, None).
Definition no_files (_ : bytes) : option bytes := None.

Definition demo_cache : option (shm (A := Sheep.sheep)) :=
  h ← Sheep.init_sheep 12288 false; '(s, _) ← init_cache (fresh_shm h) 8000; Some s.
Definition demo_start (Q : gmap nat (bytes * list query)) : option (shm (A := Sheep.sheep) * _) :=
  s ← demo_cache; Some (s, start_procs (query_procs no_files Q)).

(** What a process is told in a run. *)
Definition demo (Q : gmap nat (bytes * list query)) (schedule : list nat) (pid : nat) : option (list result) :=
  st ← demo_start Q; st' ← run demo_replies schedule st; results_of st' pid.

Definition ask_file : query := QFile demo_path false None 0.
Definition two : gmap nat (bytes * list query) := {[ 0%nat := (lit "/", [ask_file]); 1%nat := (lit "/", [ask_file]) ]}.
(** Process 1 waits for the answer that process 0 gets. *)
Definition two_schedule : list nat := [0; 0; 1; 1; 1; 0; 0; 1]%nat.

Lemma demo_ok : replies_ok demo_replies.
Proof.
  split.
  - intros p n e. cbn. case_bool_decide; [|case_bool_decide; done]. intros [= <- <-]. split; [done|]. split; [unfold MAX_PATH_LEN; cbn; lia|done].
  - intros p e. cbn. case_bool_decide; [done|]. unfold SPINDLE_ENODIR, ENOENT. case_bool_decide; intros [= <-]; lia.
  - intros p p'. cbn. case_bool_decide; [done|]. case_bool_decide as Hd; [|done]. intros _ Hp. rewrite <- Hp in Hd.
    assert (p' ≠ demo_path) by (intros ->; done). rewrite !bool_decide_false, bool_decide_true by done. done.
  - intros b p. split; [unfold MAX_PATH_LEN; cbn; lia|done].
Qed.

Lemma demo_started s : demo_cache = Some s → started s.
Proof.
  unfold demo_cache. destruct (Sheep.init_sheep 12288 false) as [h|] eqn:Eh; [|done]. cbn [mbind option_bind].
  destruct (init_cache (fresh_shm h) 8000) as [[s' tbl]|] eqn:Ei; [|done]. cbn [mbind option_bind]. intros [= ->].
  exists h, 8000, tbl. split; [by apply Sheep.client_init|]. split; [lia|]. split; [done|].
  assert (negb match init_cache (fresh_shm h) 8000 with Some (_, t) => t =? 0 | None => true end = true) as Ht.
  { vm_compute in Eh. injection Eh as <-. vm_compute. reflexivity. }
  rewrite Ei in Ht. by apply negb_true_iff, Z.eqb_neq in Ht.
Qed.

Lemma demo_run Q schedule pid rs : demo Q schedule pid = Some rs →
  ∃ s0 st, started s0 ∧ nsteps (step demo_replies) (length schedule) (s0, start_procs (query_procs no_files Q)) st ∧ results_of st pid = Some rs.
Proof.
  unfold demo, demo_start. destruct demo_cache as [s|] eqn:Ed; [|done]. cbn [mbind option_bind].
  destruct (run _ _ _) as [st|] eqn:Er; [|done]. cbn [mbind option_bind]. intros Hrs. exists s, st.
  split; [by apply demo_started|]. split; [by apply run_steps|done].
Qed.

Lemma two_run : demo two two_schedule 1 = Some [RFile 0 (Some (lit "/c/a")) 0 1].
Proof. vm_compute. reflexivity. Qed.

Lemma two_ok pid cwd qs : two !! pid = Some (cwd, qs) → Forall (query_ok demo_replies no_files cwd) qs.
Proof.
  assert (query_ok demo_replies no_files (lit "/") ask_file) as Hq.
  { split; [split; [by eexists|unfold MAX_PATH_LEN; cbn; lia]|]. split; [|done]. eexists. vm_compute. reflexivity. }
  unfold two. rewrite lookup_insert_Some. intros [[_ [= <- <-]]|[_ H]]; [by constructor|]. apply lookup_singleton_Some in H as [_ [= <- <-]]. by constructor.
Qed.



(** ** What goes wrong *)

(** The error code that [get_existance_test] stores was never set: when it happens not to be 0, a file that
    exists is not found from then on. *)
Lemma existance_not_set :
  demo {[ 0%nat := (lit "/", [QExists demo_path 0 5; QExists demo_path 0 0]) ]} [0; 0; 0; 0; 0; 0]%nat 0 = Some [RExists 0 1; RExists 0 0].
Proof. vm_compute. reflexivity. Qed.

(** After a file was looked up in a directory that is missing, a process that asks for the metadata of a file there
    copies from a null pointer. *)
Lemma missing_directory_crashes :
  ∃ st, (st0 ← demo_start {[ 0%nat := (lit "/", [QFile (lit "/n/x") false None 0; QStat (lit "/n/y") false 0]) ]};
         run demo_replies [0; 0; 0; 0; 0; 0]%nat st0) = Some st ∧ st.2 !! 0%nat = Some (lit "/", Running Stuck).
Proof. eexists. split; [vm_compute; reflexivity|]. vm_compute. reflexivity. Qed.

(** The first process to look a file up in a directory that is missing is told that the directory is there. *)
Lemma missing_directory_reported :
  demo {[ 0%nat := (lit "/", [QFile (lit "/n/x") false None 0; QFile (lit "/n/x") false None 0]) ]} [0; 0; 0; 0; 0; 0]%nat 0
    = Some [RFile 0 None ENOENT 1; RFile 0 None ENOENT 0].
Proof. vm_compute. reflexivity. Qed.

(** Which of the processes can go on after a run, and which have their results. *)
Definition status (st : shm (A := Sheep.sheep) * gmap nat (bytes * pstate (list result))) : gmap nat (bool * bool) :=
  (λ cp, (bool_decide (is_Some (exec demo_replies cp.1 st.1 cp.2)), match cp.2 with Running (Ret _) => true | _ => false end)) <$> st.2.

(** When the server leaves the metadata of a file to the process, the name stays in progress: the next process that
    asks for them waits for ever. *)
Lemma self_blocks :
  let q := (lit "/", [QStat (lit "/d/self") false 0]) in
  option_map status (demo_start {[ 0%nat := q; 1%nat := q ]} ≫= run demo_replies [0; 0; 0; 1; 1; 1]%nat) = Some {[ 0%nat := (false, true); 1%nat := (false, false) ]}.
Proof. vm_compute. reflexivity. Qed.
End examples.

End LookupProcs.
