(* ===== verification/Intercept.v ===== *)
(** * Calls that the client intercepts

    The client stands between an application and its calls of [open], [fopen], [stat],
    [readlink] and [close].  [should_intercept.c] decides for a path whether a call is
    left alone or goes through Spindle; [intercept_open.c], [intercept_stat.c] and
    [intercept_readlink.c] ask for the local copy or the metadata of a file with the
    functions of [Lookup], and call the original function on what they got;
    [intercept_spindleapi.c] has the calls that go through Spindle always.

    The functions say which call of the C library is made in the end, or how the call
    fails.  Messages for the log and for tests are left out. *)

From Stdlib Require Import Ascii String ZArith Lia.
From stdpp Require Import strings numbers gmap list.
From S2P Require Import Prelude Bytes Cache GlobalName Parseloc Handlers ClientApi Lookup.
Import Cache GlobalName Parseloc Handlers ClientApi Lookup.

Module Intercept.

(** ** Strings *)

(** Whether [strstr] finds [needle]. *)
Fixpoint strstr (hay needle : bytes) : option bytes :=
  if starts_with needle hay then Some hay
  else match hay with [] => None | _ :: hay' => strstr hay' needle end.

(** ** Which calls to intercept *)

Inductive decision := ORIG_CALL | REDIRECT | EXCL_OPEN | ERR_CALL.
#[export] Instance decision_eq_dec : EqDecision decision.
Proof. solve_decision. Defined.

Record python_path_t := mk_python_path {
  pp_path : bytes;
  (** the compiled expression, as what it matches *)
  pp_regexpr : option (bytes → bool);
}.

Definition EINVAL : Z := 22.
Definition EEXIST : Z := 17.
Definition EBADF : Z := 9.

(** The flags of [open]. *)
Definition O_WRONLY : Z := 1.
Definition O_RDWR : Z := 2.
Definition O_CREAT : Z := 64.
Definition O_EXCL : Z := 128.
Definition O_TRUNC : Z := 512.
Definition O_DIRECTORY : Z := 65536.
Definition EXCL_FLAGS : Z := Z.lor (Z.lor O_WRONLY O_CREAT) (Z.lor O_EXCL O_TRUNC).

Definition open_for_write (flags : Z) : bool := (Z.land flags O_WRONLY =? O_WRONLY) || (Z.land flags O_RDWR =? O_RDWR).
Definition open_for_excl (flags : Z) : bool := Z.land flags EXCL_FLAGS =? EXCL_FLAGS.
Definition open_for_dir (flags : Z) : bool := negb (Z.land flags O_DIRECTORY =? 0).

Definition first_is (c : ascii) (s : bytes) : bool := match s with a :: _ => Ascii.eqb a c | [] => false end.
Definition fopen_for_write (flags : bytes) : bool := first_is "w"%char flags || first_is "a"%char flags.
Definition fopen_for_excl (flags : bytes) : bool := first_is "x"%char flags.

(** What comes behind the last dot. *)
Definition last_dot (path : bytes) : option bytes := snd <$> strrchr path "."%char.
(** What begins with the last slash. *)
Definition last_slash (path : bytes) : option bytes := (λ df, SLASH :: snd df) <$> strrchr path SLASH.

Definition is_python (path : bytes) : bool :=
  match last_dot path with
  | Some e => bool_decide (e = lit "py") || bool_decide (e = lit "pyc") || bool_decide (e = lit "pyo")
  | None => false
  end.
Definition is_compiled_python (path : bytes) : bool :=
  match last_dot path with Some e => bool_decide (e = lit "pyc") || bool_decide (e = lit "pyo") | None => false end.
Definition is_dso (path : bytes) : bool :=
  match last_dot path with Some e => bool_decide (e = lit "so") | None => false end ||
  match last_slash path with Some s => bool_decide (is_Some (strstr s (lit ".so."))) | None => false end.
Definition is_lib_prefix (path : bytes) : bool :=
  let filepart := match last_slash path with Some s => drop 1 s | None => path end in
  if match last_slash path with Some s => negb (starts_with (lit "/lib") s) | None => negb (starts_with (lit "lib") path) end then false
  else if negb (bool_decide (is_Some (strstr filepart (lit ".so.")))) && (3 <? Z.of_nat (length path)) &&
          negb (bool_decide (drop (length path - 3) path = lit ".so")) then false
  else true.

(** [intercept_spindleapi.c] *)
Definition relocate_spindleapi (intercept_api_enabled under_spindle_call : Z) : bool :=
  (0 <? intercept_api_enabled) || negb (under_spindle_call =? 0).

(** The variables of the client: [OPT_RELOCPY], [OPT_RELOCEXEC], [OPT_RELOCSO], [OPT_NOHIDE] and [OPT_SHMCACHE] of its
    options, the result of [relocate_spindleapi], the local prefixes ([None] when the server did not tell them) and those
    for Python, the names of the cache directory, [ldcsid >= 0], [use_ldcs], the process and its working directory, the
    number of the session, the name of the C library, and whether the [stat] of the dynamic linker is intercepted;
    [OPT_REMAPEXEC], [OPT_CALCTLS] and the programs that are excluded ([None] when the server did not tell them). *)
Record client := mk_client {
  opt_relocpy : bool;
  opt_relocexec : bool;
  opt_relocso : bool;
  opt_nohide : bool;
  use_cache : bool;
  relocate : bool;
  local_prefixes : option (list bytes);
  pythonprefixes : list python_path_t;
  chosen_realized_cachepath : bytes;
  chosen_parsed_cachepath : bytes;
  connected : bool;
  use_ldcs : bool;
  pid : Z;
  cwd : bytes;
  number : Z;
  libc_name : option bytes;
  have_stat_patches : bool;
  opt_remapexec : bool;
  opt_calctls : bool;
  exec_excludes : option (list bytes);
}.

Section filters.
Variable c : client.
(** Descriptors of the connection and of the log. *)
Variables is_client_fd is_debug_fd : Z → bool.

Definition is_in_spindle_cache (pathname : bytes) : bool :=
  starts_with (chosen_realized_cachepath c) pathname || starts_with (chosen_parsed_cachepath c) pathname.

(** A failure, -1, counts as true. *)
Definition is_local_file (pathname : bytes) : bool :=
  match local_prefixes c with None => true | Some prefixes => is_local_prefix pathname prefixes end.

Definition is_python_path (pathname : bytes) : bool :=
  existsb (λ p, match pp_regexpr p with Some matches => matches pathname | None => false end || starts_with (pp_path p) pathname) (pythonprefixes c).

Definition dlopen_filter (pathname : bytes) : bool := negb (is_local_file pathname).

Definition open_filter (fname : bytes) (flags : Z) : decision :=
  if relocate c then
    if open_for_excl flags then EXCL_OPEN else if negb (open_for_write flags) then REDIRECT else ORIG_CALL
  else if is_local_file fname then ORIG_CALL
  else if negb (opt_relocpy c) then ORIG_CALL
  else if is_python_path fname && negb (open_for_dir flags) then REDIRECT
  else if negb (open_for_write flags) && is_dso fname then REDIRECT
  else if open_for_excl flags && is_compiled_python fname then EXCL_OPEN
  else if negb (open_for_write flags) && is_python fname then REDIRECT
  else ORIG_CALL.

Definition fopen_filter (fname flags : bytes) : decision :=
  if relocate c then
    if fopen_for_excl flags then EXCL_OPEN else if negb (fopen_for_write flags) then REDIRECT else ORIG_CALL
  else if is_local_file fname then ORIG_CALL
  else if negb (opt_relocpy c) then ORIG_CALL
  else if is_python_path fname then REDIRECT
  else if negb (fopen_for_write flags) && is_dso fname then REDIRECT
  else if fopen_for_excl flags && is_compiled_python fname then EXCL_OPEN
  else if negb (fopen_for_write flags) && is_python fname then REDIRECT
  else ORIG_CALL.

Definition exec_filter (fname : bytes) : decision :=
  if relocate c then REDIRECT
  else if is_local_file fname then ORIG_CALL
  else if opt_relocexec c then REDIRECT else ORIG_CALL.

Definition stat_filter (fname : bytes) : decision :=
  if relocate c then REDIRECT
  else if is_in_spindle_cache fname then
    match strstr fname (lit "spindle_proc_maps_") with None => REDIRECT | Some _ => ORIG_CALL end
  else if is_local_file fname then ORIG_CALL
  else if negb (opt_relocpy c) then ORIG_CALL
  else if is_python_path fname then REDIRECT
  else if is_dso fname || is_python fname || is_lib_prefix fname then REDIRECT else ORIG_CALL.

Definition fd_filter (fd : Z) : decision :=
  if opt_nohide c then ORIG_CALL
  else if fd =? -1 then ORIG_CALL
  else if is_client_fd fd then ERR_CALL
  else if is_debug_fd fd then ERR_CALL
  else ORIG_CALL.

(** ** Opening files *)

(** The local files. *)
Variable files : bytes → option bytes.
(** What the variables of a function hold before they are set. *)
Variable newname0 : option bytes.
Variables errcode0 exists0 exists_errcode0 : Z.

(** -1, 0 with [errno], 1 with the new path. *)
Inductive checked := CheckFailed | CheckMissing (errno : Z) | CheckFound (newpath : bytes).

Definition do_check_file (path : bytes) : prog checked :=
  if negb (connected c) || negb (use_ldcs c) then mret CheckFailed
  else
    '(_, newname, errcode, _) ← get_relocated_file (use_cache c) (cwd c) path false newname0 errcode0;
    match newname with
    | Some newpath => mret (CheckFound newpath)
    | None => mret (CheckMissing (if errcode =? 0 then ENOENT else errcode))
    end.

Fixpoint skip_digits (s : bytes) : bytes := match s with c :: s' => if isdigit c then skip_digits s' else s | [] => [] end.

Definition is_pid_maps (s : bytes) : Z := if bool_decide (skip_digits s = lit "/maps") then atoi s else -1.
Definition is_self_maps (s : bytes) : Z := if bool_decide (s = lit "self/maps") then (pid c) else -1.
Definition is_task_maps (s : bytes) : Z :=
  match strstr s (lit "/task/") with Some t => is_pid_maps (drop 6 t) | None => -1 end.

(** The file with the translated maps. *)
Definition handle_proc_pid_maps_open (path : bytes) : prog (option bytes) :=
  if negb (starts_with (lit "/proc/") path) then mret None
  else if negb (bool_decide (drop (length path - 5) path = lit "/maps")) then mret None
  else
    let centerpart := drop 6 path in
    let query (p : Z) : prog (option bytes) :=
      result_file ← SendProcmaps p Ret;
      match result_file with None | Some [] => mret None | Some f => mret (Some f) end in
    if negb (is_pid_maps centerpart =? -1) then query (is_pid_maps centerpart)
    else if negb (is_self_maps centerpart =? -1) then query (is_self_maps centerpart)
    else if negb (is_task_maps centerpart =? -1) then query (is_task_maps centerpart)
    else mret None.

(** The call of the C library that is made, or [errno]. *)
Inductive opened := CallOpen (path : bytes) (oflag mode : Z) (is_64 : bool) | OpenFailed (errno : Z).

Definition open_worker (path : bytes) (oflag mode : Z) (is_64 : bool) : prog opened :=
  maps ← handle_proc_pid_maps_open path;
  match maps with
  | Some newpath => mret (CallOpen newpath oflag mode is_64)
  | None =>
      let d := open_filter path oflag in
      if negb (connected c) || bool_decide (d = ORIG_CALL) then mret (CallOpen path oflag mode is_64)
      else if bool_decide (d = REDIRECT) then
        result ← do_check_file path;
        match result with
        | CheckMissing e => mret (OpenFailed e)
        | CheckFailed => mret (CallOpen path oflag mode is_64)
        | CheckFound newpath => mret (CallOpen newpath oflag mode is_64)
        end
      else if bool_decide (d = EXCL_OPEN) then
        result ← SendExists path Ret;
        match result with
        | None => mret (CallOpen path oflag mode is_64)
        | Some ex => if ex =? 0 then mret (CallOpen path oflag mode is_64) else mret (OpenFailed EEXIST)
        end
      else Stuck
  end.

Inductive fopened := CallFopen (path mode : bytes) (is_64 : bool) | FopenFailed (errno : Z).

Definition fopen_worker (path mode : bytes) (is_64 : bool) : prog fopened :=
  maps ← handle_proc_pid_maps_open path;
  match maps with
  | Some newpath => mret (CallFopen newpath mode is_64)
  | None =>
      let d := fopen_filter path mode in
      if negb (connected c) || bool_decide (d = ORIG_CALL) then mret (CallFopen path mode is_64)
      else if bool_decide (d = REDIRECT) then
        result ← do_check_file path;
        match result with
        | CheckMissing e => mret (FopenFailed e)
        | CheckFailed => mret (CallFopen path mode is_64)
        | CheckFound newpath => mret (CallFopen newpath mode is_64)
        end
      else if bool_decide (d = EXCL_OPEN) then
        '(result, ex) ← get_existance_test (use_cache c) (cwd c) path exists0 exists_errcode0;
        if (result =? -1) || (ex =? 0) then mret (CallFopen path mode is_64) else mret (FopenFailed EEXIST)
      else Stuck
  end.

(** The original [close], or [errno]. *)
Definition rtcache_close (fd : Z) : Z + Z :=
  if bool_decide (fd_filter fd = ERR_CALL) then inr EBADF else inl fd.

(** ** Metadata *)

(** The original call, 0 with the metadata, or what is returned with [errno] when it is set. *)
Inductive stated := CallStat | StatOk (buf : bytes) | StatReturns (result : Z) (errno : option Z).

Definition handle_stat (path : bytes) (is_lstat from_ldso : bool) : prog stated :=
  if negb (connected c) || negb (use_ldcs c) then mret CallStat
  else if negb from_ldso && bool_decide (stat_filter path = ORIG_CALL) then mret CallStat
  else
    '(result, ex, buf) ← get_stat_result (use_cache c) (cwd c) files path is_lstat exists0;
    if result =? STAT_SELF_OPEN then mret CallStat
    else if result =? -1 then mret CallStat
    else if ex =? 0 then mret (if from_ldso then StatReturns ENOENT None else StatReturns (-1) (Some ENOENT))
    else match buf with Some b => mret (StatOk b) | None => Stuck end.

(** The callers of [handle_stat]: the original function gives a result and [errno]. *)
Definition rtcache_stat (orig : bytes → bool → Z * option Z * option bytes) (path : bytes) (is_lstat : bool)
    : prog (Z * option Z * option bytes) :=
  result ← handle_stat path is_lstat false;
  match result with
  | CallStat => mret (orig path is_lstat)
  | StatOk b => mret (0, None, Some b)
  | StatReturns r e => mret (r, e, None)
  end.

(** The path of a descriptor; its end is written behind the buffer when it fills it. *)
Definition handle_fstat (fd_path : Z → option bytes) (fd : Z) : prog stated :=
  if bool_decide (fd_filter fd = ERR_CALL) then mret (StatReturns (-1) (Some EBADF))
  else match fd_path fd with
    | None => mret (StatReturns (-1) (Some EBADF))
    | Some path => if MAX_PATH_LEN <=? Z.of_nat (length path) then Stuck else handle_stat path false false
    end.

(** [ldso_xstat] and [ldso_lxstat]: what they return, and [errno] of the dynamic linker, which is set only when it is not 0. *)
Definition ldso_stat (ldso_errno : Z) (orig : bytes → bool → Z) (path : bytes) (is_lstat : bool) : prog (Z * Z) :=
  result ← handle_stat path is_lstat true;
  let r := match result with CallStat => orig path is_lstat | StatOk _ => 0 | StatReturns r _ => r end in
  if r =? 0 then mret (0, ldso_errno) else mret (-1, if ldso_errno =? 0 then 0 else - r).

(** ** Links *)

(** The target of the link, or [errno]. *)
Variable orig_readlink : bytes → bytes + Z.

Definition spindle_id : bytes := lit "spindle." ++ hex_digits 16 (wrap64 (number c)) [].

(** The target is cut off like the buffer of the caller. *)
Definition resultpath (s : bytes) : bytes := take (Z.to_nat MAX_PATH_LEN) (cstr s).

Definition fix_local_readlink (buf : bytes) : prog bytes :=
  if bool_decide (is_Some (strstr buf spindle_id)) && starts_with (chosen_realized_cachepath c) buf then
    tmp ← SendOrigpath (drop (length (chosen_realized_cachepath c) + 1) buf) Ret;
    match tmp with None => mret buf | Some t => mret (take (Z.to_nat (MAX_PATH_LEN + 1)) t) end
  else mret buf.

(** The bytes that are copied to the buffer, or [errno]. *)
Definition readlink_wrapper (path : bytes) (bufsiz : Z) : prog (bytes + Z) :=
  let finish (target : bytes) : prog (bytes + Z) :=
    fixed ← fix_local_readlink target; mret (inl (take (Z.to_nat bufsiz) fixed)) in
  let call_orig : prog (bytes + Z) :=
    match orig_readlink path with inl t => finish (resultpath t) | inr e => mret (inr e) end in
  match stat_filter path with
  | ORIG_CALL => call_orig
  | REDIRECT =>
      '(result, link) ← get_readlink_result (use_cache c) (cwd c) files path exists0;
      if (result =? -1) || (result =? STAT_SELF_OPEN) then call_orig
      else match link with
        | None => Stuck
        | Some (readlink_errcode, rl_result, target) =>
            if rl_result =? 0 then mret (inr EINVAL)
            else if negb (readlink_errcode =? 0) then mret (inr readlink_errcode)
            else finish (resultpath target)
        end
  | _ => finish []
  end.

Definition readlinkat_wrapper (orig : bytes + Z) (bufsiz : Z) : prog (bytes + Z) :=
  match orig with
  | inr e => mret (inr e)
  | inl t => fixed ← fix_local_readlink (resultpath t); mret (inl (take (Z.to_nat bufsiz) fixed))
  end.

(** ** Libraries *)

Definition NOT_FOUND_PREFIX : bytes := lit "/__not_exists".
Definition stat_not_found_prefix : bytes := NOT_FOUND_PREFIX ++ [SLASH].

Definition concatStrings (str1 str2 : bytes) : bytes := take (Z.to_nat (MAX_PATH_LEN - 1)) (str1 ++ [SLASH] ++ str2).

(** The name is overwritten in place; the part that was there is kept. *)
Definition pathpatch_old_name (filename : bytes) : bytes * option bytes :=
  if have_stat_patches c then (filename, None)
  else
    let len := Nat.min (length filename) (length stat_not_found_prefix) in
    if (len =? 0)%nat then (filename, None) else (take len stat_not_found_prefix ++ drop len filename, Some (take len filename)).

Definition restore_pathpatch (filename : bytes) (patch : option bytes) : bytes :=
  if have_stat_patches c then filename
  else match patch with
    | None => filename
    | Some saved =>
        if bool_decide (take (length saved) filename = take (length saved) stat_not_found_prefix) then saved ++ drop (length saved) filename
        else filename
    end.

(** The name that the linker should use; and whether the name that it asked for is overwritten. *)
Definition client_library_load (name : bytes) : prog (bytes * bool) :=
  if negb (use_ldcs c) || negb (connected c) then mret (name, false)
  else if negb (opt_relocso c) then mret (name, false)
  else if bool_decide ((libc_name c) = Some name) then mret (name, false)
  else
    orig_file_name ← (if is_in_spindle_cache name then
                        fixed_name ← SendOrigpath name Ret; mret (default [] fixed_name)
                      else mret name);
    if negb (dlopen_filter orig_file_name) then mret (orig_file_name, false)
    else
      '(_, newname, _, direxists) ← get_relocated_file (use_cache c) (cwd c) orig_file_name true newname0 errcode0;
      match newname with
      | None => mret (concatStrings NOT_FOUND_PREFIX orig_file_name, direxists =? 0)
      | Some n => mret (n, false)
      end.

End filters.

(** [intercept_spindleapi.c]: calls that go through Spindle. *)
Definition under_spindle_call (c : client) : client :=
  mk_client (opt_relocpy c) (opt_relocexec c) (opt_relocso c) (opt_nohide c) (use_cache c) true (local_prefixes c) (pythonprefixes c)
    (chosen_realized_cachepath c) (chosen_parsed_cachepath c) (connected c) (use_ldcs c) (pid c) (cwd c) (number c) (libc_name c) (have_stat_patches c) (opt_remapexec c)
    (opt_calctls c) (exec_excludes c).

Definition int_spindle_open (c : client) := open_worker (under_spindle_call c).
Definition int_spindle_fopen (c : client) := fopen_worker (under_spindle_call c).
Definition int_spindle_stat (c : client) := handle_stat (under_spindle_call c).

(** The prefix is taken out of a message of the linker. *)
Definition dlerror_wrapper (message : option bytes) : option bytes :=
  match message with
  | None => None
  | Some m =>
      let prefix_str := lit "/__not_exists/" in
      match strstr m prefix_str with
      | None => Some m
      | Some spindle_prefix => Some (take (length m - length spindle_prefix) m ++ drop (length prefix_str) spindle_prefix)
      end
  end.

(** ** Prefixes for Python *)

Fixpoint split_at (c : ascii) (s : bytes) : list bytes :=
  match s with
  | [] => [[]]
  | a :: s' =>
      if Ascii.eqb a c then [] :: split_at c s'
      else match split_at c s' with [] => [[a]] | x :: l => (a :: x) :: l end
  end.

Definition is_regex (regex_str : bytes) : bool := existsb (λ c, bool_decide (c ∈ lit "*[+^$?")) regex_str.

(** [regcomp]: what the expression matches, when it can be compiled. *)
Definition parse_spindle_regex_str (regcomp : bytes → option (bytes → bool)) (regex_str : bytes) : option (bytes → bool) :=
  if is_regex regex_str then regcomp regex_str else None.

Definition parse_python_prefixes (regcomp : bytes → option (bytes → bool)) (path : bytes) : list python_path_t :=
  match path with
  | [] => []
  | _ => (λ p, mk_python_path p (parse_spindle_regex_str regcomp p)) <$> split_at ":"%char path
  end.

(** ** Names that are not found *)

(** What the linker is told about a missing library does not show in its messages: the prefix is taken out again. *)
Lemma dlerror_shows_name pre name post :
  strstr (pre ++ stat_not_found_prefix ++ name ++ post) stat_not_found_prefix = Some (stat_not_found_prefix ++ name ++ post) →
  dlerror_wrapper (Some (pre ++ concatStrings NOT_FOUND_PREFIX name ++ post)) = Some (pre ++ name ++ post) ∨
  MAX_PATH_LEN <= Z.of_nat (length name) + 14.
Proof.
  intros H. destruct (Z.le_gt_cases MAX_PATH_LEN (Z.of_nat (length name) + 14)) as [?|Hl]; [by right|left].
  unfold concatStrings. rewrite take_ge by (rewrite !length_app; cbn; unfold MAX_PATH_LEN in *; lia).
  assert ((NOT_FOUND_PREFIX ++ [SLASH] ++ name) ++ post = stat_not_found_prefix ++ name ++ post) as -> by (unfold stat_not_found_prefix; by rewrite <- !app_assoc).
  unfold dlerror_wrapper. change (lit "/__not_exists/") with stat_not_found_prefix. rewrite H. f_equal.
  rewrite drop_app_length, take_app_exact; [done|]. rewrite !length_app. lia.
Qed.

(** A name that was overwritten is restored. *)
Lemma pathpatch_restored c filename :
  let '(patched, patch) := pathpatch_old_name c filename in restore_pathpatch c patched patch = filename.
Proof.
  unfold pathpatch_old_name, restore_pathpatch. destruct (have_stat_patches c) eqn:E; [done|].
  set (len := Nat.min (length filename) (length stat_not_found_prefix)). destruct (len =? 0)%nat; [done|].
  assert (length (take len filename) = len) as -> by (rewrite length_take; lia).
  rewrite take_app_exact by (rewrite length_take; lia). rewrite bool_decide_true by done.
  rewrite drop_app_exact by (rewrite length_take; lia). apply take_drop.
Qed.

(** ** What goes wrong *)

(** A prefix for Python that is empty, as behind a colon at the end, stands for all paths. *)
Lemma empty_python_prefix c regcomp path :
  pythonprefixes c = parse_python_prefixes regcomp (lit "/python:") → is_python_path c path = true.
Proof.
  intros H. unfold is_python_path. rewrite H.
  change (parse_python_prefixes regcomp (lit "/python:")) with [mk_python_path (lit "/python") None; mk_python_path [] None].
  cbn [existsb pp_regexpr pp_path orb]. by destruct (starts_with (lit "/python") path).
Qed.

Definition python_client : client :=
  mk_client true true true false false false (Some []) [mk_python_path (lit "/py/") None] (lit "/c") (lit "/c") true true 7 (lit "/") 1 None false false false (Some []).

(** Below a prefix for Python files are redirected also when they are opened for writing: a file that does not exist yet is
    not created, and what is written to one that exists goes to the local copy. *)
Lemma python_writes_redirected flags :
  open_for_dir flags = false → open_filter python_client (lit "/py/new") flags = REDIRECT ∧ fopen_filter python_client (lit "/py/new") (lit "w") = REDIRECT.
Proof. intros H. unfold open_filter. cbn. by rewrite H. Qed.

(** Modes for reading and writing are taken for reading; exclusive modes, which begin with another letter, are never seen. *)
Lemma fopen_modes : fopen_for_write (lit "r+") = false ∧ fopen_for_excl (lit "wx") = false.
Proof. done. Qed.

(** The dynamic linker is not told why a [stat] failed, or finds a negative error code. *)
Lemma ldso_errno_wrong c files path e0 old orig :
  connected c = true → use_ldcs c = true → use_cache c = false →
  ∃ k, ldso_stat c files e0 old orig path false = SendStat path false k ∧
    k (Some (STAT_PATH [])) = Ret (-1, if old =? 0 then 0 else - ENOENT).
Proof. intros H1 H2 H3. unfold ldso_stat, handle_stat. rewrite H1, H2, H3. cbn. eexists. split; reflexivity. Qed.

(** When the server cannot be asked, because the path is too long, the variable for the new name is used as it is. *)
Lemma name_not_set c path e0 name0 :
  connected c = true → use_ldcs c = true → use_cache c = false →
  ∃ k, do_check_file c (Some name0) e0 path = SendFile path false k ∧ k None = Ret (CheckFound name0).
Proof. intros H1 H2 H3. unfold do_check_file. rewrite H1, H2, H3. cbn. eexists. split; reflexivity. Qed.


End Intercept.
