(* ===== verification/Application.v ===== *)
(** * What an application sees

    The calls of [Intercept], made by the processes of a node that share a cache: an
    application that opens a file for reading, asks for its metadata or reads a link
    sees what it would see without Spindle, when the server tells the truth about the
    files; what it writes goes where it should. *)

From Stdlib Require Import Ascii String ZArith Lia.
From stdpp Require Import strings numbers gmap list relations.
From S2P Require Import Prelude Bytes Sheep Shmcache ShmcacheInv ShmcacheProcs Cache GlobalName Parseloc Server Handlers ClientApi Lookup LookupProcs Intercept.
Import Shmcache Cache GlobalName Parseloc Server Handlers ClientApi Lookup LookupProcs Intercept.

Module Application.

(** ** The files *)

(** For an absolute path: what a read of the file gives, or [errno]; whether it exists; its metadata; the target of a
    link, or [errno]. *)
Record world := mk_world {
  real_open : bytes → bytes + Z;
  real_exists : bytes → bool;
  real_stat : bool → bytes → option bytes;
  real_link : bytes → bytes + Z;
}.

Definition errno_of (e : Z) : Z := if (e =? 0) || (e =? SPINDLE_ENODIR) then ENOENT else e.

Definition link_stored (st : extended_stat_t) (link : bytes + Z) : Prop :=
  readlink_errcode st = 0 ∧
  match link with
  | inl t => readlink_path st = t ∧ readlink_path_size st = Z.of_nat (length t) + 1 ∧ no_nul t = true ∧ Z.of_nat (length t) + 1 < MAX_PATH_LEN
  | inr e => e = EINVAL ∧ readlink_path_size st = 0
  end.

(** The server tells the truth about the files of [W], with local copies [files]. *)
Record truthful (W : world) (files : bytes → option bytes) (S : replies) : Prop := mk_truthful {
  tr_replies : replies_ok S;
  tr_found p l e : s_file S p = (Some l, e) → real_open W l = real_open W p ∧ first_is SLASH l = true;
  tr_missing p e : s_file S p = (None, e) → real_open W p = inr (errno_of e);
  tr_exists p : s_exists S p = real_exists W p;
  tr_nostat b p : s_stat S b p = [] → real_stat W b p = None ∧ (b = true → real_link W p = inr ENOENT);
  tr_stat b p : s_stat S b p ≠ [] → ∃ st, files (s_stat S b p) = Some (stat_file st) ∧ length (stat_buf st) = 144%nat ∧
    real_stat W b p = Some (stat_buf st) ∧ (b = true → link_stored st (real_link W p));
}.

Lemma read_stat_file files l st : files l = Some (stat_file st) → length (stat_buf st) = 144%nat → read_stat files l = Read (stat_buf st).
Proof.
  intros Hf Hl. unfold read_stat. rewrite Hf. unfold stat_file. rewrite length_app, Hl. unfold STAT_SIZE.
  rewrite (proj2 (Z.ltb_ge _ _)) by lia. by rewrite take_app_exact.
Qed.

Lemma read_link_file files l st link :
  files l = Some (stat_file st) → length (stat_buf st) = 144%nat → link_stored st link →
  read_readlink files l = Read (0, readlink_path_size st, match link with inl t => t ++ [NUL] | inr _ => [] end).
Proof.
  intros Hf Hl [He Hs]. unfold read_readlink. rewrite Hf. unfold stat_file. rewrite He. set (sz := readlink_path_size st) in *.
  assert (0 <= sz < MAX_PATH_LEN) as Hsz by (unfold MAX_PATH_LEN in *; destruct link; [destruct Hs as (_ & -> & _ & ?)|destruct Hs as [_ ->]]; lia).
  assert (length (le32 0) = 4%nat ∧ length (le64 sz) = 8%nat) as [L4 L8] by (split; apply le_encode_length).
  rewrite !length_app, Hl, L4, L8. rewrite (proj2 (Nat.ltb_ge _ _)) by lia.
  assert (∀ x, rd_i32 (stat_buf st ++ le32 0 ++ x) 144 = 0) as ->.
  { intros x. by rewrite rd_i32_le32. }
  assert (∀ x, to_signed 64 (rd_u 8 (stat_buf st ++ le32 0 ++ le64 sz ++ x) 148) = sz) as ->.
  { intros x. rewrite app_assoc, rd_u_app by (rewrite ?length_app, ?Hl; done). unfold le64. rewrite le_decode_encode_small by (unfold MAX_PATH_LEN in *; cbn; lia). apply to_signed_id; unfold MAX_PATH_LEN in *; lia. }
  destruct link as [t|e].
  - destruct Hs as (Hp & Hsz' & _ & _). rewrite (proj2 (Z.leb_gt _ _)) by lia. rewrite (proj2 (Z.leb_gt _ _)) by lia.
    assert (take (Z.to_nat sz) (readlink_path st ++ [NUL]) = t ++ [NUL]) as Et.
    { rewrite Hp, Hsz'. apply take_ge. rewrite length_app. cbn. lia. }
    rewrite Et, length_app. cbn [length]. rewrite (proj2 (Nat.ltb_ge _ _)) by lia. f_equal. f_equal.
    rewrite (app_assoc (le32 0)), (app_assoc (stat_buf st)), drop_app_exact by (rewrite !length_app, Hl, L4, L8; done). apply take_ge. rewrite length_app. cbn. lia.
  - destruct Hs as [_ Hs]. by rewrite Hs.
Qed.

(** ** Calls *)

Inductive app_call :=
  | AOpen (path : bytes) (oflag mode : Z) (is_64 : bool)
  | AFopen (path mode : bytes) (is_64 : bool)
  | AStat (path : bytes) (is_lstat : bool)
  | AReadlink (path : bytes) (bufsiz : Z).

Inductive app_result :=
  | ROpen (r : opened)
  | RFopen (r : fopened)
  | RStated (r : stated)
  | RLink (r : bytes + Z).

Section application.
Context {A : Type} {HA : SharedHeap A}.
Variable W : world.
Variable files : bytes → option bytes.
Variable S : replies.
Hypothesis HT : truthful W files S.
(** What variables hold before they are set; the error code that [get_existance_test] does not set is 0. *)
Variable newname0 : option bytes.
Variables errcode0 exists0 : Z.

Definition orig_link (c : client) (path : bytes) : bytes + Z := real_link W (absolute (cwd c) path).

Definition app_prog (c : client) (a : app_call) : prog app_result :=
  match a with
  | AOpen path oflag mode is_64 => r ← open_worker c newname0 errcode0 path oflag mode is_64; mret (ROpen r)
  | AFopen path mode is_64 => r ← fopen_worker c newname0 errcode0 exists0 0 path mode is_64; mret (RFopen r)
  | AStat path is_lstat => r ← handle_stat c files exists0 path is_lstat false; mret (RStated r)
  | AReadlink path bufsiz => r ← readlink_wrapper c files exists0 (orig_link c) path bufsiz; mret (RLink r)
  end.

Fixpoint app_progs (c : client) (l : list app_call) : prog (list app_result) :=
  match l with
  | [] => mret []
  | a :: l' => r ← app_prog c a; rs ← app_progs c l'; mret (r :: rs)
  end.

(** *** What should come out *)

Definition read_only (oflag : Z) : bool := negb (open_for_write oflag) && (Z.land oflag O_CREAT =? 0).
Definition fread_only (mode : bytes) : bool := first_is "r"%char mode && negb (bool_decide ("+"%char ∈ mode)).

(** A link into the cache directory is shown as what it stands for. *)
Definition shown (c : client) (t : bytes) : bytes :=
  if bool_decide (is_Some (strstr t (spindle_id c))) && starts_with (chosen_realized_cachepath c) t then
    match s_origpath S (drop (length (chosen_realized_cachepath c) + 1) t) with None => t | Some t' => take (Z.to_nat (MAX_PATH_LEN + 1)) t' end
  else t.

Definition app_spec (c : client) (a : app_call) (r : app_result) : Prop :=
  let full path := absolute (cwd c) path in
  match a, r with
  | AOpen path oflag mode is_64, ROpen r =>
      if read_only oflag then
        match r with
        | CallOpen p oflag' mode' is_64' => (oflag', mode', is_64') = (oflag, mode, is_64) ∧ real_open W (full p) = real_open W (full path)
        | OpenFailed e => real_open W (full path) = inr e
        end
      else r = CallOpen path oflag mode is_64 ∨ r = OpenFailed EEXIST ∧ open_for_excl oflag = true ∧ real_exists W (full path) = true
  | AFopen path mode is_64, RFopen r =>
      if fread_only mode then
        match r with
        | CallFopen p mode' is_64' => (mode', is_64') = (mode, is_64) ∧ real_open W (full p) = real_open W (full path)
        | FopenFailed e => real_open W (full path) = inr e
        end
      else r = CallFopen path mode is_64
  | AStat path is_lstat, RStated r =>
      match r with
      | CallStat => True
      | StatOk b => real_stat W is_lstat (full path) = Some b
      | StatReturns x e => real_stat W is_lstat (full path) = None ∧ x = -1 ∧ e = Some ENOENT
      end
  | AReadlink path bufsiz, RLink r =>
      r = match real_link W (full path) with inl t => inl (take (Z.to_nat bufsiz) (shown c t)) | inr e => inr e end
  | _, _ => False
  end.

(** The calls that are covered: not of maps of processes, with a path that is not too long.  Metadata are not asked for in
    a directory that is missing, nor when the server leaves them to the process.  Files are opened for reading, or for
    writing but not below a prefix for Python. *)
Definition app_ok (c : client) (a : app_call) : Prop :=
  let p := absolute (cwd c) match a with AOpen path _ _ _ | AFopen path _ _ | AStat path _ | AReadlink path _ => path end in
  use_cache c = true ∧ is_path p ∧
  match a with
  | AOpen path oflag _ _ => starts_with (lit "/proc/") path = false ∧
      (read_only oflag = true ∨ open_for_write oflag = true ∧ (relocate c = true ∨ is_python_path c path = false ∨ open_for_dir oflag = true))
  | AFopen path mode _ => starts_with (lit "/proc/") path = false ∧
      (fread_only mode = true ∨ fopen_for_write mode = true ∧ (relocate c = true ∨ is_python_path c path = false))
  | AStat path l => s_file S p ≠ (None, SPINDLE_ENODIR) ∧ s_self S l p = false
  | AReadlink path bufsiz => s_file S p ≠ (None, SPINDLE_ENODIR) ∧ s_self S true p = false ∧ 0 <= bufsiz ∧
      match real_link W p with inl t => no_nul t = true ∧ Z.of_nat (length t) <= MAX_PATH_LEN | inr _ => True end
  end.

Lemma absolute_absolute cwd p : first_is SLASH p = true → absolute cwd p = p.
Proof. destruct p as [|a p]; [done|]. cbn. by intros ->. Qed.

Lemma excl_writes oflag : open_for_excl oflag = true → open_for_write oflag = true.
Proof.
  unfold open_for_excl, open_for_write. intros H%Z.eqb_eq. apply orb_true_iff. left. apply Z.eqb_eq.
  assert (Z.land oflag O_WRONLY = Z.land (Z.land oflag EXCL_FLAGS) O_WRONLY) as -> by (rewrite <- Z.land_assoc; done). by rewrite H.
Qed.

Lemma no_maps path : starts_with (lit "/proc/") path = false → ∀ c, handle_proc_pid_maps_open c path = mret None.
Proof. intros H c. unfold handle_proc_pid_maps_open. by rewrite H. Qed.

(** *** The calls do what they should *)

Let HS : replies_ok S := tr_replies _ _ _ HT.

(** A program whose result is as specified, with [n] accesses left. *)
Definition delivers {R} (c : client) (n : nat) (P : R → Prop) (p : prog R) : Prop :=
  wp S (cwd c) (λ o m r, (n ≤ m)%nat ∧ o = None ∧ P r) None (n + 7) p.

Lemma delivers_ret {R} c n (P : R → Prop) r : P r → delivers c n P (mret r).
Proof. intros H. unfold delivers. cbn. split; [lia|done]. Qed.

Lemma check_file_delivers c path n :
  use_cache c = true → is_path (absolute (cwd c) path) →
  delivers c n (λ r, match r with
    | CheckFailed => True
    | CheckMissing e => real_open W (absolute (cwd c) path) = inr e
    | CheckFound p => real_open W (absolute (cwd c) p) = real_open W (absolute (cwd c) path)
    end) (do_check_file c newname0 errcode0 path).
Proof.
  intros Hc Hp. unfold do_check_file. destruct (negb _ || negb _); [by apply delivers_ret|]. rewrite Hc.
  unfold delivers. apply wp_bind. apply (relocated_wp S HS); [done|]. intros m d Hm _. destruct (s_file S _) as [[l|] e] eqn:E; cbn.
  - destruct (tr_found _ _ _ HT _ _ _ E) as [Hr Hl]. split; [done|]. split; [done|]. by rewrite absolute_absolute.
  - split; [done|]. split; [done|]. rewrite (tr_missing _ _ _ HT _ _ E). unfold errno_of, seen.
    destruct (e =? SPINDLE_ENODIR) eqn:Ee; [by rewrite orb_true_r|]. by rewrite orb_false_r.
Qed.

Lemma open_delivers c path oflag mode is_64 n :
  app_ok c (AOpen path oflag mode is_64) →
  delivers c n (λ r, app_spec c (AOpen path oflag mode is_64) (ROpen r)) (open_worker c newname0 errcode0 path oflag mode is_64).
Proof.
  intros (Hc & Hp & Hm & Hw). unfold open_worker. rewrite no_maps by done. cbn [mbind prog_mbind prog_bind mret prog_mret].
  assert (app_spec c (AOpen path oflag mode is_64) (ROpen (CallOpen path oflag mode is_64))) as Hsame by (cbn; destruct (read_only oflag); auto).
  destruct (negb (connected c) || _) eqn:E1; [by apply delivers_ret|]. apply orb_false_iff in E1 as [_ E1%bool_decide_eq_false].
  unfold read_only in Hw. case_bool_decide as E2.
  - assert (read_only oflag = true) as Hr.
    { unfold read_only. destruct Hw as [?|[Hwr Hpy]]; [done|]. exfalso. unfold open_filter in E2. rewrite Hwr in E2. cbn in E2.
      destruct (relocate c); [by destruct (open_for_excl oflag)|]. destruct (is_local_file c path), (opt_relocpy c); try done. cbn in E2.
      destruct Hpy as [?|[Hpy|Hpy]]; [done|..]; rewrite Hpy in E2; cbn in E2; rewrite ?andb_false_r in E2;
        destruct (open_for_excl oflag && is_compiled_python path); done. }
    unfold delivers. apply wp_bind. eapply wp_mono; [reflexivity| |by apply (check_file_delivers c path n)].
    intros o m m' r Hmm (Hle & -> & Hr'). cbn [app_spec]. rewrite Hr. destruct r; cbn; (split; [lia|]); (split; [done|]); auto.
  - case_bool_decide as E3.
    + assert (open_for_excl oflag = true) as He.
      { unfold open_filter in E3. destruct (open_for_excl oflag); [done|]. destruct (relocate c), (open_for_write oflag); try done; cbn in E3;
          destruct (is_local_file c path), (opt_relocpy c); try done; cbn in E3; destruct (is_python_path c path && negb (open_for_dir oflag)); try done;
          destruct (is_dso path), (is_python path); done. }
      assert (read_only oflag = false) as Hr by (unfold read_only; by rewrite excl_writes).
      unfold delivers. cbn. rewrite Hr. rewrite (tr_exists _ _ _ HT). split; [lia|]. destruct (real_exists W _) eqn:Ex; cbn; (split; [lia|]); (split; [done|]); auto.
    + exfalso. unfold open_filter in *. repeat (case_match; try done).
Qed.

Lemma fread_only_modes mode : fread_only mode = true → fopen_for_write mode = false ∧ fopen_for_excl mode = false.
Proof.
  unfold fread_only, fopen_for_write, fopen_for_excl. intros [H _]%andb_true_iff. destruct mode as [|a mode]; [done|]. cbn in *.
  apply Ascii.eqb_eq in H as ->. done.
Qed.

Lemma fwrite_modes mode : fopen_for_write mode = true → fread_only mode = false ∧ fopen_for_excl mode = false.
Proof.
  unfold fread_only, fopen_for_write, fopen_for_excl. destruct mode as [|a mode]; [done|]. cbn.
  intros [H|H]%orb_true_iff; apply Ascii.eqb_eq in H as ->; done.
Qed.

Lemma fopen_delivers c path mode is_64 n :
  app_ok c (AFopen path mode is_64) →
  delivers c n (λ r, app_spec c (AFopen path mode is_64) (RFopen r)) (fopen_worker c newname0 errcode0 exists0 0 path mode is_64).
Proof.
  intros (Hc & Hp & Hm & Hw). unfold fopen_worker. rewrite no_maps by done. cbn [mbind prog_mbind prog_bind mret prog_mret].
  assert (app_spec c (AFopen path mode is_64) (RFopen (CallFopen path mode is_64))) as Hsame by (cbn; destruct (fread_only mode); auto).
  destruct (negb (connected c) || _) eqn:E1; [by apply delivers_ret|]. apply orb_false_iff in E1 as [_ E1%bool_decide_eq_false].
  assert (fopen_for_excl mode = false) as Hx by (destruct Hw as [?%fread_only_modes|[?%fwrite_modes _]]; tauto).
  rewrite bool_decide_true.
  - assert (fread_only mode = true) as Hr.
    { destruct Hw as [?|[Hwr Hpy]]; [done|]. exfalso. apply E1. unfold fopen_filter. rewrite Hwr, Hx. cbn.
      destruct (relocate c); [done|]. destruct (is_local_file c path), (opt_relocpy c); try done. cbn. by destruct Hpy as [?| ->]. }
    unfold delivers. apply wp_bind. eapply wp_mono; [reflexivity| |by apply (check_file_delivers c path n)].
    intros o m m' r Hmm (Hle & -> & Hr'). cbn [app_spec]. rewrite Hr. destruct r; cbn; (split; [lia|]); (split; [done|]); auto.
  - unfold fopen_filter in *. rewrite Hx in *. cbn in *. repeat (case_match; try done).
Qed.

Lemma stat_delivers c path is_lstat n :
  app_ok c (AStat path is_lstat) →
  delivers c n (λ r, app_spec c (AStat path is_lstat) (RStated r)) (handle_stat c files exists0 path is_lstat false).
Proof.
  intros (Hc & Hp & Hd & Hself). unfold handle_stat. destruct (negb _ || negb _); [by apply delivers_ret|].
  destruct (negb false && _); [by apply delivers_ret|]. rewrite Hc. unfold delivers, get_stat_result.
  apply wp_bind. apply (metadata_wp S HS); [done|done|done|]. intros m Hm. cbn [app_spec].
  destruct (s_stat S is_lstat _) as [|a l] eqn:E.
  - cbn. split; [done|]. split; [done|]. split; [|done]. by apply (tr_nostat _ _ _ HT).
  - destruct (tr_stat _ _ _ HT is_lstat (absolute (cwd c) path)) as (st & Hf & Hl & Hr & _); [by rewrite E|]. rewrite E in Hf.
    rewrite (read_stat_file _ _ _ Hf Hl). cbn. done.
Qed.

Lemma fix_delivers c t n (P : bytes + Z → Prop) bufsiz :
  P (inl (take (Z.to_nat bufsiz) (shown c t))) →
  wp S (cwd c) (λ o m r, (n ≤ m)%nat ∧ o = None ∧ P r) None (n + 1) (fixed ← fix_local_readlink c t; mret (inl (take (Z.to_nat bufsiz) fixed))).
Proof.
  intros H. apply wp_bind. unfold fix_local_readlink, shown in *. destruct (_ && _); cbn; [|by split; [lia|]].
  split; [lia|]. destruct (s_origpath S _); cbn; (split; [lia|done]).
Qed.

Lemma resultpath_id t : no_nul t = true → Z.of_nat (length t) <= MAX_PATH_LEN → resultpath t = t.
Proof. intros Hn Hl. unfold resultpath. rewrite cstr_id by done. apply take_ge. unfold MAX_PATH_LEN in *. lia. Qed.

Lemma readlink_delivers c path bufsiz n :
  app_ok c (AReadlink path bufsiz) →
  wp S (cwd c) (λ o m r, (n ≤ m)%nat ∧ o = None ∧ app_spec c (AReadlink path bufsiz) (RLink r)) None (n + 8)
    (readlink_wrapper c files exists0 (orig_link c) path bufsiz).
Proof.
  intros (Hc & Hp & Hd & Hself & Hb & Ht). unfold readlink_wrapper, orig_link. set (p := absolute (cwd c) path) in *.
  assert (wp S (cwd c) (λ o m r, (n ≤ m)%nat ∧ o = None ∧ app_spec c (AReadlink path bufsiz) (RLink r)) None (n + 8)
    match real_link W p with
    | inl t => fixed ← fix_local_readlink c (resultpath t); mret (inl (take (Z.to_nat bufsiz) fixed))
    | inr e => mret (inr e)
    end) as Horig.
  { cbn [app_spec]. fold p. destruct (real_link W p) as [t|e].
    - destruct Ht as [Hn Hl]. rewrite (resultpath_id t Hn Hl). eapply (wp_mono _ _ _ _ _ _ (n + 1)); [lia| |by apply (fix_delivers c t n (λ r, r = inl (take (Z.to_nat bufsiz) (shown c t))))].
      intros o m m' r Hm (H1 & -> & H2). split; [lia|done].
    - cbn. split; [lia|done]. }
  assert (stat_filter c path = ORIG_CALL ∨ stat_filter c path = REDIRECT) as [-> | ->]
    by (unfold stat_filter; repeat (case_match; auto)); [exact Horig|].
  rewrite Hc. apply wp_bind. unfold get_readlink_result. apply wp_bind. replace (n + 8)%nat with (n + 1 + 7)%nat by lia.
  apply (metadata_wp S HS); [done|done|done|]. fold p. intros m Hm. cbn [app_spec]. fold p.
  destruct (s_stat S true p) as [|a l] eqn:E.
  - cbn. split; [lia|]. split; [done|]. destruct (tr_nostat _ _ _ HT true p E) as [_ Hl]. by rewrite Hl.
  - destruct (tr_stat _ _ _ HT true p) as (st & Hf & Hl & _ & Hlink); [by rewrite E|]. rewrite E in Hf.
    rewrite (read_link_file _ _ _ _ Hf Hl (Hlink eq_refl)). destruct (Hlink eq_refl) as [_ Hk]. destruct (real_link W p) as [t|e].
    + destruct Hk as (_ & Hsz & Hn & Hlt). cbn [mbind prog_mbind prog_bind mret prog_mret wp]. cbn.
      rewrite (proj2 (Z.eqb_neq (readlink_path_size st) 0)) by lia. cbn.
      assert (resultpath (t ++ [NUL]) = t) as ->.
      { unfold resultpath. rewrite cstr_app_nul by done. apply take_ge. unfold MAX_PATH_LEN in *. lia. }
      eapply (wp_mono _ _ _ _ _ _ (n + 1)); [lia| |by apply (fix_delivers c t n (λ r, r = inl (take (Z.to_nat bufsiz) (shown c t))))]. intros o m1 m' r Hm1 (H1 & -> & H2). split; [lia|done].
    + destruct Hk as [-> Hsz]. cbn. rewrite Hsz. cbn. split; [lia|done].
Qed.

(** *** Sequences of calls *)

Lemma app_delivers c a n : app_ok c a →
  wp S (cwd c) (λ o m r, (n ≤ m)%nat ∧ o = None ∧ app_spec c a r) None (n + 8) (app_prog c a).
Proof.
  intros Ha. destruct a as [path oflag mode is_64|path mode is_64|path is_lstat|path bufsiz]; cbn [app_prog]; apply wp_bind.
  - eapply (wp_mono _ _ _ _ _ _ (n + 7)); [lia| |by apply open_delivers]. intros o m m' r Hm (H1 & -> & H2). split; [lia|done].
  - eapply (wp_mono _ _ _ _ _ _ (n + 7)); [lia| |by apply fopen_delivers]. intros o m m' r Hm (H1 & -> & H2). split; [lia|done].
  - eapply (wp_mono _ _ _ _ _ _ (n + 7)); [lia| |by apply stat_delivers]. intros o m m' r Hm (H1 & -> & H2). split; [lia|done].
  - by apply readlink_delivers.
Qed.

Lemma apps_deliver c l n : Forall (app_ok c) l →
  wp S (cwd c) (λ o _ rs, o = None ∧ Forall2 (app_spec c) l rs) None (n + 8 * length l) (app_progs c l).
Proof.
  revert n. induction l as [|a l IH]; intros n Hl; cbn [app_progs]; [by cbn; split; [|constructor]|]. apply Forall_cons in Hl as [Ha Hl].
  apply wp_bind. replace (n + 8 * length (a :: l))%nat with (n + 8 * length l + 8)%nat by (cbn [length]; lia).
  eapply wp_mono; [reflexivity| |by apply app_delivers]. intros o m m' r Hm (Hle & -> & Hr).
  apply wp_bind. eapply (wp_mono _ _ _ _ _ _ (n + 8 * length l)); [lia| |by apply IH].
  intros o m2 m3 rs _ [-> Hrs]. cbn. split; [done|]. by constructor.
Qed.

(** ** Theorem *)

(** Processes with lists of calls. *)
Definition app_procs (Q : gmap nat (client * list app_call)) : gmap nat (bytes * prog (list app_result)) :=
  (λ cl, (cwd cl.1, app_progs cl.1 cl.2)) <$> Q.
Definition app_good (Q : gmap nat (client * list app_call)) (pid : nat) (rs : list app_result) : Prop :=
  ∃ c l, Q !! pid = Some (c, l) ∧ Forall2 (app_spec c) l rs.
Definition app_accesses (Q : gmap nat (client * list app_call)) (pid : nat) : nat :=
  match Q !! pid with Some (_, l) => (8 * length l)%nat | None => 0%nat end.

Lemma app_procs_wp Q pid cwd p : (∀ pid c l, Q !! pid = Some (c, l) → Forall (app_ok c) l) → app_procs Q !! pid = Some (cwd, p) →
  wp S cwd (post (app_good Q) pid) None (app_accesses Q pid) p.
Proof.
  intros Hq. unfold app_procs, app_accesses. rewrite lookup_fmap. destruct (Q !! pid) as [[c l]|] eqn:E; [|done]. cbn. intros [= <- <-].
  eapply wp_mono; [reflexivity| |apply (apps_deliver c l 0); by eapply Hq]. intros o m m' r _ [-> Hr]. split; [done|]. by eexists _, _.
Qed.



End application.
(** ** Examples *)

Section examples.
#[local] Existing Instance demo_heap.

(** [/d/a] has a local copy [/c/a]; there is nothing else. *)
Definition is_demo (p : bytes) : bool := bool_decide (p = lit "/d/a") || bool_decide (p = lit "/c/a").
Definition app_world : world :=
  mk_world (λ p, if is_demo p then inl (lit "contents") else inr ENOENT) is_demo (λ _ _, None) (λ _, inr ENOENT).
Definition app_replies : replies :=
  mk_replies (λ p, if is_demo p then (Some (lit "/c/a"), 0) else (None, ENOENT)) (λ _ _, false) (λ _ _, []) is_demo (λ _, None) (λ _, None) (λ _, None).
Definition demo_client : client :=
  mk_client true true true false true true (Some []) [] (lit "/c") (lit "/c") true true 7 (lit "/") 1 None false false false (Some []).
Definition demo_calls : gmap nat (client * list app_call) :=
  {[ 0%nat := (demo_client, [AOpen (lit "/d/a") 0 0 false; AStat (lit "d/b") false]);
     1%nat := (demo_client, [AOpen (lit "d/a") 0 0 false]) ]}.

Lemma demo_truthful : truthful app_world no_files app_replies.
Proof.
  split.
  - split; cbn.
    + intros p n e. destruct (is_demo p); [|done]. intros [= <- <-]. split; [done|]. split; [unfold MAX_PATH_LEN; cbn; lia|done].
    + intros p e. destruct (is_demo p); [done|]. intros [= <-]. unfold ENOENT. lia.
    + intros p p'. destruct (is_demo p); [done|]. done.
    + intros b p. split; [unfold MAX_PATH_LEN; cbn; lia|done].
  - intros p l e. cbn. destruct (is_demo p) eqn:E; [|done]. intros [= <- <-]. done.
  - intros p e. cbn. destruct (is_demo p); [done|]. by intros [= <-].
  - done.
  - done.
  - done.
Qed.

Lemma demo_calls_ok pid c l : demo_calls !! pid = Some (c, l) → Forall (app_ok app_world app_replies c) l.
Proof.
  unfold demo_calls. rewrite lookup_insert_Some. intros [[_ [= <- <-]]|[_ H]]; [|apply lookup_singleton_Some in H as [_ [= <- <-]]].
  - constructor; [|constructor; [|done]].
    + split; [done|]. split; [split; [by eexists|unfold MAX_PATH_LEN; cbn; lia]|]. split; [done|by left].
    + split; [done|]. split; [split; [by eexists|unfold MAX_PATH_LEN; cbn; lia]|]. done.
  - constructor; [|done]. split; [done|]. split; [split; [by eexists|unfold MAX_PATH_LEN; cbn; lia]|]. split; [done|by left].
Qed.

Definition app_demo (schedule : list nat) (pid : nat) : option (list app_result) :=
  s ← demo_cache; st ← run app_replies schedule (s, start_procs (app_procs app_world no_files None 0 0 demo_calls)); results_of st pid.


End examples.

End Application.
