(* ===== verification/Exec.v ===== *)
(** * Programs that a process executes

    [exec_util.c] and [intercept_exec.c] of the client.  When a process executes a program,
    the client looks the program up, in the directories of [PATH] when it has to, asks for
    its local copy, rewrites the command line of a script so that the local copy of its
    interpreter runs it, computes the thread-local storage that the program needs, and gives
    the variables of Spindle on in the environment.

    Environments are lists of assignments.  The client has its own C library, so the
    environment of the application is kept apart from the one that the client changes with
    [setenv]. *)

From Stdlib Require Import Ascii String ZArith Lia.
From stdpp Require Import strings numbers gmap list.
From S2P Require Import Prelude Bytes StaticTls Cache GlobalName Parseloc Handlers ClientApi Lookup Intercept.
Import Cache GlobalName Parseloc Handlers ClientApi Lookup Intercept.

Module Exec.

(** ** Environments *)

Abbreviation env := (list bytes).

Definition EQUALS : ascii := "="%char.
Definition assigns (name s : bytes) : bool := starts_with (name ++ [EQUALS]) s.
Definition assignment (name value : bytes) : bytes := name ++ [EQUALS] ++ value.
Definition value_in (name s : bytes) : bytes := drop (length name + 1) s.

Definition getenv (e : env) (name : bytes) : option bytes := value_in name <$> find (assigns name) e.

Fixpoint setenv (e : env) (name value : bytes) : env :=
  match e with
  | [] => [assignment name value]
  | s :: e' => if assigns name s then assignment name value :: e' else s :: setenv e' name value
  end.

Definition unsetenv (e : env) (name : bytes) : env := filter (λ s, assigns name s = false) e.

(** ** Scripts *)

Definition EACCES : Z := 13.
Definition TAB : ascii := ascii_of_nat 9.
Definition NEWLINE : ascii := ascii_of_nat 10.
Definition SPACE : ascii := " "%char.

(** -1 when there are no two bytes to read. *)
Definition is_script (file : bytes) : Z :=
  match file with
  | a :: b :: _ => if Ascii.eqb a "#"%char && Ascii.eqb b "!"%char then 1 else 0
  | _ => -1
  end.

Fixpoint first_line (s : bytes) : option bytes :=
  match s with
  | [] => None
  | a :: s' => if Ascii.eqb a NEWLINE then Some [] else cons a <$> first_line s'
  end.

(** What comes behind the two bytes, up to the end of the line, when it is within [interp_size] bytes. *)
Definition read_script_interp (rest : bytes) (interp_size : Z) : option bytes := first_line (take (Z.to_nat interp_size) rest).

Definition is_blank (c : ascii) : bool := Ascii.eqb c TAB || Ascii.eqb c SPACE.

(** The words of a line. *)
Fixpoint words (s : bytes) : list bytes :=
  match s with
  | [] => []
  | a :: s' =>
      if is_blank a then words s'
      else match s' with
        | b :: _ => if is_blank b then [a] :: words s' else match words s' with w :: ws => (a :: w) :: ws | [] => [[a]] end
        | [] => [[a]]
        end
  end.

(** The interpreter is the first word. *)
Definition parse_interp_args (interp_line : bytes) : option (list bytes) :=
  match words (cstr interp_line) with [] => None | ws => Some ws end.

Inductive script_result := SCRIPT_ERR | SCRIPT_ENOENT | SCRIPT_NOTSCRIPT | SCRIPT_CANTEMULATE | Script (interp_path : bytes) (new_argv : list bytes).

Definition basename (path : bytes) : bytes := match strrchr path SLASH with Some (_, b) => b | None => path end.

Section exec.
Variable c : client.
(** The local files. *)
Variable files : bytes → option bytes.
(** The original [stat]. *)
Variable os_stat : bytes → option bytes.
(** What variables hold before they are set. *)
Variable newname0 : option bytes.
Variables errcode0 exists0 : Z.
(** The buffer for metadata when it is not set. *)
Variable buf0 : bytes.

Definition adjust_if_script (orig_path reloc_path : bytes) (argv : list bytes) (found_from_pathsearch : option bytes) : prog script_result :=
  if match argv with
     | a0 :: _ => negb (bool_decide (a0 = orig_path)) &&
         match strrchr orig_path SLASH with None => true | Some (_, b) => negb (bool_decide (b = a0)) end
     | [] => false
     end then mret SCRIPT_CANTEMULATE
  else if opt_remapexec c then mret SCRIPT_NOTSCRIPT
  else match files reloc_path with
    | None => mret SCRIPT_ERR
    | Some file =>
        let result := is_script file in
        if result =? -1 then mret SCRIPT_ENOENT
        else if result =? 0 then mret SCRIPT_NOTSCRIPT
        else match interp_line ← read_script_interp (drop 2 file) (MAX_PATH_LEN + 1); parse_interp_args interp_line with
          | None | Some [] => mret SCRIPT_ENOENT
          | Some (interpreter :: interpreter_args) =>
              '(_, new_interpreter, _, _) ← get_relocated_file (use_cache c) (cwd c) interpreter true newname0 errcode0;
              match new_interpreter with
              | None => mret SCRIPT_ENOENT
              | Some interp_path =>
                  let script := match found_from_pathsearch, argv with
                    | Some found, _ => found
                    | None, a0 :: _ => if bool_decide (SLASH ∈ a0) then a0 else orig_path
                    | None, [] => orig_path
                    end in
                  mret (Script interp_path (interpreter :: interpreter_args ++ script :: drop 1 argv))
              end
          end
    end.

(** ** Tunables of the C library *)

Definition TLSVAR : bytes := lit "glibc.rtld.optional_static_tls".
Definition TLSVAR_ALIGNMENT : bytes := lit "glibc.rtld.optional_static_tls_alignment".

Definition strtok_colon (s : bytes) : list bytes := split_prefixes (S (length s)) s.

Definition digit_val_in (base : Z) (a : ascii) : option Z :=
  let v := byte_val a in
  let d := if isdigit a then v - 48 else if (97 <=? v) && (v <=? 102) then v - 87 else if (65 <=? v) && (v <=? 70) then v - 55 else 16 in
  if d <? base then Some d else None.

Fixpoint read_digits (base : Z) (s : bytes) (acc : option Z) : option Z :=
  match s with
  | a :: s' => match digit_val_in base a with Some d => read_digits base s' (Some (base * default 0 acc + d)) | None => acc end
  | [] => acc
  end.

Definition is_hex_prefix (s : bytes) : bool :=
  match s with
  | z :: x :: d :: _ => Ascii.eqb z "0"%char && (Ascii.eqb x "x"%char || Ascii.eqb x "X"%char) && bool_decide (is_Some (digit_val_in 16 d))
  | _ => false
  end.

(** [sscanf] with [%zi]: octal, hexadecimal or decimal; the value saturates. *)
Definition scan_zi (s : bytes) : option Z :=
  let s1 := skip_space s in
  let '(neg, s2) :=
    match s1 with
    | a :: s' => if Ascii.eqb a "-"%char then (true, s') else if Ascii.eqb a "+"%char then (false, s') else (false, s1)
    | [] => (false, [])
    end in
  let v := if is_hex_prefix s2 then read_digits 16 (drop 2 s2) None
           else if first_is "0"%char s2 then read_digits 8 s2 None else read_digits 10 s2 None in
  (λ v : Z, if neg : bool then Z.max (- v) (- 2 ^ 63) else Z.min v (2 ^ 63 - 1)) <$> v.

(** [%zu] *)
Definition print_zu (z : Z) : bytes := dec (wrap64 z).

Record tunables := mk_tunables {
  newstr : bytes;
  newstr_cur : Z;
  tls_needed : Z;
  existing_tls_size : Z;
  existing_tls_alignment : Z;
}.

(** [snprintf] at the end of the string: what does not fit is cut off, but counted; a position behind the end of the
    buffer gives a huge room, and it is written there. *)
Definition tun_print (newstr_size : Z) (s : bytes) (t : tunables) : option tunables :=
  if newstr_size <? newstr_cur t then None
  else Some (mk_tunables (newstr t ++ take (Z.to_nat (newstr_size - newstr_cur t - 1)) s) (newstr_cur t + Z.of_nat (length s))
               (tls_needed t) (existing_tls_size t) (existing_tls_alignment t)).

Definition tun_colon (newstr_size : Z) (t : tunables) : option tunables :=
  if newstr_cur t =? 0 then Some t else tun_print newstr_size [COLON] t.

Definition tun_assert (newstr_size : Z) (t : tunables) : option tunables := if newstr_cur t <=? newstr_size then Some t else None.

Definition tunable (newstr_size tls_alignment : Z) (t : tunables) (s : bytes) : option tunables :=
  if assigns TLSVAR s then
    if negb (existing_tls_size t =? -1) then Some t
    else
      t ← tun_colon newstr_size t;
      let existing := default (-1) (scan_zi (value_in TLSVAR s)) in
      let needed := if tls_needed t <? existing then existing + 4096 else tls_needed t in
      if 2 ^ 63 <=? needed then None
      else
        t ← tun_print newstr_size (assignment TLSVAR (print_zu needed)) (mk_tunables (newstr t) (newstr_cur t) needed existing (existing_tls_alignment t));
        tun_assert newstr_size t
  else if assigns TLSVAR_ALIGNMENT s then
    if negb (existing_tls_alignment t =? -1) then Some t
    else
      t ← tun_colon newstr_size t;
      let existing := default (-1) (scan_zi (value_in TLSVAR_ALIGNMENT s)) in
      let alignment_needed := if wrap64 tls_alignment <? wrap64 existing then existing else tls_alignment in
      t ← tun_print newstr_size (assignment TLSVAR_ALIGNMENT (print_zu alignment_needed))
        (mk_tunables (newstr t) (newstr_cur t) (tls_needed t) (existing_tls_size t) existing);
      tun_assert newstr_size t
  else
    t ← tun_colon newstr_size t;
    t ← tun_print newstr_size s t;
    tun_assert newstr_size t.

Definition update_existing_glibc_tunables (needed tls_alignment : Z) (glibc_tunables : bytes) : option bytes :=
  let newstr_size := Z.of_nat (length glibc_tunables) + 128 in
  t ← foldl (λ t s, t ← t; tunable newstr_size tls_alignment t s) (Some (mk_tunables [] 0 needed (-1) (-1))) (strtok_colon glibc_tunables);
  t ← (if existing_tls_size t =? -1 then
         t ← tun_colon newstr_size t; tun_print newstr_size (assignment TLSVAR (print_zu (tls_needed t))) t
       else Some t);
  t ← (if existing_tls_alignment t =? -1 then
         t ← tun_colon newstr_size t; tun_print newstr_size (assignment TLSVAR_ALIGNMENT (print_zu tls_alignment)) t
       else Some t);
  Some (newstr t).

Definition setup_new_glibc_tunables (needed tls_alignment : Z) : bytes :=
  take 127 (assignment TLSVAR (print_zu needed) ++ [COLON] ++ assignment TLSVAR_ALIGNMENT (print_zu tls_alignment)).

Definition DEFAULT_TLS_STATIC_SURPLUS : Z := 1664.
Definition DEFAULT_ALIGNMENT : Z := 64.

(** The last assignment in a list. *)
Definition last_value (e : env) (name : bytes) : option bytes := getenv (rev e) name.

(** The new value of [GLIBC_TUNABLES], from the environment that is passed to the program or that of the client. *)
Definition calc_static_tls (own : env) (orig_exec : bytes) (path_component : option bytes) (envp : option env) : prog (option bytes) :=
  if negb (opt_calctls c) then mret None
  else
    let get name := match envp with Some e => last_value e name | None => getenv own name end in
    result ← SendStaticTls (StaticTls.mk_static_tls_info (Some orig_exec) (get (lit "LD_LIBRARY_PATH")) (get (lit "LD_PRELOAD"))
      (Some (cwd c)) path_component) Ret;
    match result with
    | None => mret None
    | Some (tls_size, tls_alignment) =>
        if tls_size =? -1 then mret None
        else if (tls_size <? DEFAULT_TLS_STATIC_SURPLUS) && (tls_alignment <? DEFAULT_ALIGNMENT) then mret None
        else if tls_size =? 0 then mret None
        else match get (lit "GLIBC_TUNABLES") with
          | Some glibc_tunables =>
              match update_existing_glibc_tunables tls_size tls_alignment glibc_tunables with Some v => mret (Some v) | None => Stuck end
          | None => mret (Some (setup_new_glibc_tunables tls_size tls_alignment))
          end
    end.

(** ** The search for a program *)

Definition S_IFDIR : Z := 16384.
Definition st_mode (buf : bytes) : Z := rd_u 4 buf 24.
Definition is_dir_mode (mode : Z) : bool := negb (Z.land mode S_IFDIR =? 0).
(** [0111] *)
Definition may_execute (mode : Z) : bool := negb (Z.land mode 73 =? 0).

(** [get_stat_result], or [stat] when the process should do it itself: whether the file exists, and the buffer. *)
Definition stat_of (path : bytes) (exists_before : Z) : prog (bool * bytes) :=
  '(result, ex, buf) ← get_stat_result (use_cache c) (cwd c) files path false exists_before;
  if result =? STAT_SELF_OPEN then mret (bool_decide (is_Some (os_stat path)), default buf0 (os_stat path))
  else mret (negb (ex =? 0), default buf0 buf).

Definition joined (dir file : bytes) : bytes := take (Z.to_nat (MAX_PATH_LEN - 1)) (dir ++ [SLASH] ++ file).

Fixpoint search_path (dirs : list bytes) (orig_exec : bytes) (access_denied_found : bool) : prog (bytes + Z) :=
  match dirs with
  | [] => mret (inr (if access_denied_found then EACCES else ENOENT))
  | cur :: dirs' =>
      '(ex, buf) ← stat_of (joined cur orig_exec) 0;
      if negb ex then search_path dirs' orig_exec access_denied_found
      else if is_dir_mode (st_mode buf) then search_path dirs' orig_exec true
      else if negb (may_execute (st_mode buf)) then search_path dirs' orig_exec true
      else mret (inl cur)
  end.

Definition no_search (path : bytes) : bool := first_is SLASH path || first_is PERIOD path.

(** The directory, or the error code when it is set. *)
Definition find_path_component (path : option bytes) (orig_exec : bytes) : prog (bytes + option Z) :=
  if no_search orig_exec then mret (inr None)
  else match path with
    | None => mret (inr None)
    | Some path =>
        found ← search_path (strtok_colon path) orig_exec false;
        mret match found with inl d => inl d | inr e => inr (Some e) end
    end.

Record searched := mk_searched {
  reloc_exec : option bytes;
  errcode : Z;
  orig_file_abspath : option bytes;
  sr_path_component : option bytes;
}.

(** [inr] with the error code when it returns -1. *)
Definition exec_pathsearch (path : option bytes) (orig_exec : bytes) : prog (searched + Z) :=
  let as_is : prog (searched + Z) :=
    '(_, newname, e, _) ← get_relocated_file (use_cache c) (cwd c) orig_exec true None errcode0;
    mret (inl (mk_searched newname e None None)) in
  if no_search orig_exec then as_is
  else match path with
    | None => as_is
    | Some _ =>
        found ← find_path_component path orig_exec;
        match found with
        | inr e => mret (inr (default 0 e))
        | inl dir =>
            let newexec := joined dir orig_exec in
            '(_, newname, e, _) ← get_relocated_file (use_cache c) (cwd c) newexec true None errcode0;
            match newname with
            | Some _ => mret (inl (mk_searched newname e (Some newexec) (Some dir)))
            | None => if e =? EACCES then mret (inl (mk_searched (Some newexec) e None (Some dir))) else mret (inr ENOENT)
            end
        end
    end.

(** ** Lists from the server *)

(** The static variables of [get_dirlists]. *)
Record dirlists := mk_dirlists {
  did_query : bool;
  dl_local : option (list bytes);
  dl_excludes : option (list bytes);
}.

(** The lists, or -1; [reply] is what the server says, [parse] is [parse_colonsep_prefixes]. *)
Definition get_dirlists (parse : bytes → list bytes) (reply : option (bytes * bytes)) (d : dirlists)
    : dirlists * option (option (list bytes) * option (list bytes)) :=
  if did_query d then (d, Some (dl_local d, dl_excludes d))
  else match reply with
    | None => (mk_dirlists true (dl_local d) (dl_excludes d), None)
    | Some (local_str, exec_str) =>
        let d' := mk_dirlists true (Some (parse local_str)) (Some (parse exec_str)) in
        (d', Some (dl_local d', dl_excludes d'))
    end.

(** A failure, -1, counts as true. *)
Definition isExecExcluded (fname : option bytes) : bool :=
  match fname with
  | None => false
  | Some fname =>
      match exec_excludes c with
      | None => true
      | Some excludes => existsb (λ x, bool_decide (x = basename fname)) excludes
      end
  end.

(** ** The environment of the program *)

Definition tolower (a : ascii) : ascii := let v := byte_val a in if (65 <=? v) && (v <=? 90) then byte_of (v + 32) else a.
Definition strcasecmp_eq (a b : bytes) : bool := bool_decide (tolower <$> a = tolower <$> b).

Definition shouldPropogateSpindle (app : env) (envp : option env) (fname : option bytes) : bool :=
  if isExecExcluded fname then false
  else if match getenv app (lit "SPINDLE") with Some v => strcasecmp_eq v (lit "false") || bool_decide (v = lit "0") | None => false end then false
  else match envp ≫= λ e, getenv e (lit "SPINDLE") with
    | Some v => negb (strcasecmp_eq v (lit "false") || bool_decide (lit "spindle" = lit "0"))
    | None => true
    end.

Definition envpContains (envp : env) (variable : bytes) : bool := existsb (assigns variable) envp.

(** The assignment that is added to the new environment. *)
Definition propogateEnvironmentStr (app own orig_envp : env) (var : bytes) : list bytes :=
  let is_tunables := bool_decide (var = lit "GLIBC_TUNABLES") in
  match getenv (if is_tunables then own else app) var with
  | None => []
  | Some value => if envpContains orig_envp var && negb is_tunables then [] else [assignment var value]
  end.

Definition SPINDLE_VARS : list bytes :=
  lit <$> ["SPINDLE"; "LD_AUDIT"; "LDCS_COMMPATH"; "LDCS_CONNECTION"; "LDCS_RANKINFO"; "LDCS_OPTIONS"; "LDCS_CACHESIZE"; "LDCS_NUMBER"]%string.

Definition is_spindle_var (s : bytes) : bool :=
  assigns (lit "SPINDLE") s ||
  (starts_with (lit "LD") s &&
   (assigns (lit "LD_AUDIT") s || assigns (lit "LDCS_COMMPATH") s || assigns (lit "LDCS_CONNECTION") s || assigns (lit "LDCS_RANKINFO") s ||
    assigns (lit "LDCS_OPTIONS") s || assigns (lit "LDCS_CACHESIZE") s || assigns (lit "LDCS_NUMBER") s)).

Definition removeEnvironmentStrs (envp : env) : env := filter (λ s, is_spindle_var s = false) envp.

(** For a program that is given an environment; [num_modified] is -1 or the number of new strings.  The assertion is that
    the array is large enough. *)
Definition updateEnvironment (app own : env) (envp : option env) (propogate_spindle : bool) : option (env * Z) :=
  let envp := default [] envp in
  if negb propogate_spindle then Some (removeEnvironmentStrs envp, -1)
  else
    let new_size := Z.of_nat (length envp) + 10 in
    let news := mjoin (propogateEnvironmentStr app own envp <$> SPINDLE_VARS ++ [lit "GLIBC_TUNABLES"]) in
    let newenv := news ++ filter (λ s, assigns (lit "GLIBC_TUNABLES") s = false) envp in
    if Z.of_nat (length newenv) + 1 <=? new_size then Some (newenv, Z.of_nat (length news)) else None.

(** For a program that inherits the environment of the process. *)
Definition updateEnvironment_inherited (app : env) (propogate_spindle : bool) : env :=
  if propogate_spindle then app else foldl unsetenv app SPINDLE_VARS.

(** ** Executing *)

(** The path and the arguments to execute, when they change; or -1, with [errno] when it is set. *)
Inductive prepared := PrepFailed (errno : option Z) | Prepared (newpath : bytes) (new_argv : option (list bytes)).

Definition to_newpath (s : bytes) : bytes := take (Z.to_nat MAX_PATH_LEN) s.

Definition prep_exec (own : env) (filepath : bytes) (argv : list bytes) (newname : option bytes) (errcode : Z)
    (orig_file_abspath path_component : option bytes) (envp : option env) : prog (prepared * env) :=
  if errcode =? EACCES then mret (Prepared (to_newpath filepath) None, own)
  else if negb (errcode =? 0) then mret (PrepFailed (Some errcode), own)
  else match newname with
    | None => mret (Prepared (to_newpath (NOT_FOUND_PREFIX ++ [SLASH] ++ filepath)) None, own)
    | Some newname =>
        value ← calc_static_tls own filepath path_component envp;
        let own := match value with Some v => setenv own (lit "GLIBC_TUNABLES") v | None => own end in
        result ← adjust_if_script filepath newname argv orig_file_abspath;
        let new_argv := match result with Script _ a => Some a | _ => None end in
        if opt_remapexec c then mret (Prepared (to_newpath filepath) new_argv, own)
        else mret (match result with
          | SCRIPT_NOTSCRIPT => Prepared (to_newpath newname) None
          | SCRIPT_ERR | SCRIPT_ENOENT => PrepFailed None
          | SCRIPT_CANTEMULATE => Prepared (to_newpath filepath) None
          | Script interp_name _ => Prepared (to_newpath interp_name) new_argv
          end, own)
    end.

(** Also whether Spindle goes on in the program. *)
Definition find_exec (app own : env) (filepath : option bytes) (argv : list bytes) (envp : option env) : prog (prepared * bool * env) :=
  let propogate_spindle := shouldPropogateSpindle app envp filepath in
  match filepath with
  | None => mret (Prepared [] None, propogate_spindle, own)
  | Some filepath =>
      if negb (connected c) || negb (use_ldcs c) || negb (bool_decide (exec_filter c filepath = REDIRECT)) || negb propogate_spindle then
        mret (Prepared (to_newpath filepath) None, propogate_spindle, own)
      else
        '(ex, buf) ← stat_of filepath exists0;
        if negb ex then mret (PrepFailed (Some ENOENT), propogate_spindle, own)
        else if negb (may_execute (st_mode buf)) then mret (PrepFailed (Some EACCES), propogate_spindle, own)
        else if is_dir_mode (st_mode buf) then mret (PrepFailed (Some EACCES), propogate_spindle, own)
        else
          '(_, newname, e, _) ← get_relocated_file (use_cache c) (cwd c) filepath true None errcode0;
          '(p, own) ← prep_exec own filepath argv newname e None None envp;
          mret (p, propogate_spindle, own)
  end.

Definition find_exec_pathsearch (app own : env) (filepath : option bytes) (argv : list bytes) (envp : option env) : prog (prepared * bool * env) :=
  let propogate_spindle := shouldPropogateSpindle app envp filepath in
  match filepath with
  | None => mret (Prepared [] None, propogate_spindle, own)
  | Some path =>
      if no_search path then find_exec app own filepath argv envp
      else if negb (connected c) || negb (use_ldcs c) || negb propogate_spindle then mret (Prepared (to_newpath path) None, propogate_spindle, own)
      else
        result ← exec_pathsearch (getenv own (lit "PATH")) path;
        match result with
        | inr e => mret (PrepFailed (Some e), propogate_spindle, own)
        | inl s =>
            '(p, own) ← prep_exec own path argv (reloc_exec s) (errcode s) (orig_file_abspath s) (sr_path_component s) envp;
            mret (p, propogate_spindle, own)
        end
  end.

(** The call that is made in the end, or -1. *)
Inductive exec_action :=
  | CallExecv (path : bytes) (argv : list bytes)
  | CallExecvp (path : bytes) (argv : list bytes)
  | CallExecve (path : bytes) (argv : list bytes) (envp : env)
  | CallExecvpe (path : bytes) (argv : list bytes) (envp : env)
  | ExecFailed (errno : option Z).

(** The environments of the application and of the client after the call. *)
Abbreviation exec_result := (exec_action * env * env)%type.

Definition inherit (app : env) (found : prog (prepared * bool * env)) (argv : list bytes) (call : bytes → list bytes → exec_action) : prog exec_result :=
  '(p, propogate_spindle, own) ← found;
  match p with
  | PrepFailed e => mret (ExecFailed e, app, own)
  | Prepared newpath new_argv => mret (call newpath (default argv new_argv), updateEnvironment_inherited app propogate_spindle, own)
  end.

Definition with_env (app : env) (envp : option env) (found : prog (prepared * bool * env)) (argv : list bytes) (call : bytes → list bytes → env → exec_action)
    : prog exec_result :=
  '(p, propogate_spindle, own) ← found;
  match p with
  | PrepFailed e => mret (ExecFailed e, app, own)
  | Prepared newpath new_argv =>
      match updateEnvironment app own envp propogate_spindle with
      | Some (new_envp, _) => mret (call newpath (default argv new_argv) new_envp, app, own)
      | None => Stuck
      end
  end.

(** [execl] and [execle] collect their arguments first and go on like [execv] and [execve]. *)
Definition execv_wrapper (app own : env) (path : option bytes) (argv : list bytes) : prog exec_result :=
  inherit app (find_exec app own path argv None) argv CallExecv.
Definition execve_wrapper (app own : env) (path : option bytes) (argv : list bytes) (envp : option env) : prog exec_result :=
  with_env app envp (find_exec app own path argv envp) argv CallExecve.
Definition execlp_wrapper (app own : env) (path : option bytes) (argv : list bytes) : prog exec_result :=
  inherit app (find_exec_pathsearch app own path argv None) argv CallExecv.
Definition execvp_wrapper (app own : env) (path : option bytes) (argv : list bytes) : prog exec_result :=
  inherit app (find_exec_pathsearch app own path argv None) argv CallExecvp.
Definition execvpe_wrapper (app own : env) (path : option bytes) (argv : list bytes) (envp : option env) : prog exec_result :=
  with_env app envp (find_exec_pathsearch app own path argv envp) argv CallExecvpe.

End exec.

End Exec.
