(* ===== verification/ExecEnv.v ===== *)
(** * The environment of a program that is executed

    What [updateEnvironment] and [update_existing_glibc_tunables] of the client make of an
    environment: the variables of Spindle go on or are removed, the others stay as they are;
    the tunables of the C library ask for enough thread-local storage, within the buffer
    that was allocated for them. *)

From Stdlib Require Import Ascii String ZArith Lia.
From stdpp Require Import strings numbers gmap list.
From S2P Require Import Prelude Bytes StaticTls Cache GlobalName Parseloc Handlers ClientApi Lookup Intercept Exec.
Import Cache GlobalName Parseloc Handlers ClientApi Lookup Intercept Exec.

Module ExecEnv.

(** ** Assignments *)

Lemma starts_with_iff p s : starts_with p s = true ↔ ∃ t, s = p ++ t.
Proof.
  unfold starts_with. rewrite bool_decide_eq_true. split.
  - intros H. exists (drop (length p) s). rewrite <- H at 1. symmetry. apply take_drop.
  - intros [t ->]. apply take_app_length.
Qed.

Lemma assigns_iff n s : assigns n s = true ↔ ∃ v, s = assignment n v.
Proof. unfold assigns, assignment. rewrite starts_with_iff. split; intros [v ->]; exists v; by rewrite <- app_assoc. Qed.

Lemma assigns_assignment n v : assigns n (assignment n v) = true.
Proof. apply assigns_iff. by exists v. Qed.

Lemma value_assignment n v : value_in n (assignment n v) = v.
Proof. unfold value_in, assignment. rewrite app_assoc. apply drop_app_exact. rewrite length_app. cbn. lia. Qed.

(** A name. *)
Definition is_name (n : bytes) : Prop := EQUALS ∉ n.

Lemma assigns_same n n' v : is_name n → is_name n' → assigns n (assignment n' v) = bool_decide (n = n').
Proof.
  intros Hn Hn'. case_bool_decide as E; [subst; apply assigns_assignment|]. apply not_true_is_false. intros (v' & H)%assigns_iff.
  apply E. unfold assignment in H. apply app_eq_inv in H as [(k & -> & H)|(k & -> & H)]; destruct k as [|a k]; cbn in H; simplify_eq/=; rewrite ?app_nil_r; try done.
  - exfalso. apply Hn'. set_solver.
  - exfalso. apply Hn. set_solver.
Qed.

Lemma getenv_app e e' n : getenv (e ++ e') n = match getenv e n with Some v => Some v | None => getenv e' n end.
Proof. unfold getenv. rewrite find_app. by destruct (find (assigns n) e). Qed.

Lemma getenv_single n v : getenv [assignment n v] n = Some v.
Proof. unfold getenv. cbn [find]. rewrite assigns_assignment. cbn [fmap option_fmap option_map]. by rewrite value_assignment. Qed.

(** Assignments that are removed do not count, and those to other names do not matter. *)
Lemma getenv_filter (keep : bytes → bool) e n :
  (∀ s, assigns n s = true → keep s = true) → getenv (filter (λ s, keep s = true) e) n = getenv e n.
Proof.
  intros H. unfold getenv. f_equal. induction e as [|s e IH]; [done|]. cbn. destruct (assigns n s) eqn:E.
  - rewrite decide_True by auto. cbn. by rewrite E.
  - case_decide; cbn; rewrite ?E; done.
Qed.

Lemma getenv_removed (keep : bytes → bool) e n :
  (∀ s, assigns n s = true → keep s = false) → getenv (filter (λ s, keep s = true) e) n = None.
Proof.
  intros H. unfold getenv. apply fmap_None. induction e as [|s e IH]; [done|]. cbn. case_decide as E; [|done]. cbn.
  destruct (assigns n s) eqn:E'; [|done]. apply H in E'. congruence.
Qed.

Lemma negb_filter (f : bytes → bool) (e : env) : filter (λ s, f s = false) e = filter (λ s, negb (f s) = true) e.
Proof. apply list_filter_iff. intros s. by destruct (f s). Qed.

Lemma getenv_contains e n : envpContains e n = bool_decide (is_Some (getenv e n)).
Proof.
  unfold envpContains, getenv. induction e as [|s e IH]; cbn; [done|]. destruct (assigns n s); [done|exact IH].
Qed.

(** ** Variables of Spindle *)

Lemma spindle_var_assigns s : is_spindle_var s = existsb (λ n, assigns n s) SPINDLE_VARS.
Proof.
  unfold is_spindle_var, SPINDLE_VARS. cbn [fmap list_fmap existsb].
  destruct (assigns (lit "SPINDLE") s); [done|]. cbn [orb]. destruct (starts_with (lit "LD") s) eqn:E; cbn [andb].
  - rewrite !orb_assoc. by rewrite orb_false_r.
  - assert (∀ n, starts_with (lit "LD") n = true → assigns n s = false) as H.
    { intros n (m & ->)%starts_with_iff. apply not_true_is_false. intros (v & ->)%assigns_iff.
      apply not_true_iff_false in E. apply E. unfold assignment. apply starts_with_iff. exists (m ++ [EQUALS] ++ v). by rewrite <- app_assoc. }
    by rewrite !H.
Qed.

Lemma vars_are_names : Forall is_name (lit "GLIBC_TUNABLES" :: SPINDLE_VARS).
Proof. unfold is_name. apply (bool_decide_unpack _). by vm_compute. Qed.

Lemma spindle_var_of n s : is_name n → assigns n s = true → is_spindle_var s = bool_decide (n ∈ SPINDLE_VARS).
Proof.
  intros Hn (v & ->)%assigns_iff. rewrite spindle_var_assigns. pose proof vars_are_names as Hv. apply Forall_cons in Hv as [_ Hv].
  induction Hv as [|m l Hm _ IH]; [done|]. cbn. rewrite IH, assigns_same by done.
  destruct (decide (n = m)) as [->|Hne]; [by rewrite (bool_decide_true (m = m)), (bool_decide_true (m ∈ m :: l)) by (done || left)|]. rewrite (bool_decide_false (m = n)) by done. cbn.
  apply bool_decide_ext. rewrite elem_of_cons. tauto.
Qed.

Section env.
Variables app own : env.

(** The assignments of a list of variables. *)
Lemma getenv_propogated envp vars n : is_name n → Forall is_name vars →
  getenv (mjoin (propogateEnvironmentStr app own envp <$> vars)) n =
    if decide (n ∈ vars) then getenv (propogateEnvironmentStr app own envp n) n else None.
Proof.
  intros Hn Hv. induction Hv as [|m l Hm _ IH]; [done|]. change (mjoin (propogateEnvironmentStr app own envp <$> m :: l)) with (propogateEnvironmentStr app own envp m ++ mjoin (propogateEnvironmentStr app own envp <$> l)). rewrite getenv_app, IH.
  destruct (decide (n = m)) as [->|Hne].
  - rewrite (decide_True (P := m ∈ m :: l)) by left. destruct (getenv (propogateEnvironmentStr _ _ _ m) m); [done|]. by case_decide.
  - assert (getenv (propogateEnvironmentStr app own envp m) n = None) as ->.
    { unfold propogateEnvironmentStr. destruct (getenv _ m); [|done]. destruct (_ && _); [done|]. unfold getenv. cbn.
      by rewrite assigns_same, bool_decide_false. }
    destruct (decide (n ∈ l)); [rewrite decide_True by (by right)|rewrite decide_False by (rewrite elem_of_cons; tauto)]; done.
Qed.

Lemma propogated_length envp vars : (length (mjoin (propogateEnvironmentStr app own envp <$> vars)) ≤ length vars)%nat.
Proof.
  induction vars as [|m l IH]; [done|]. change (mjoin (propogateEnvironmentStr app own envp <$> m :: l)) with (propogateEnvironmentStr app own envp m ++ mjoin (propogateEnvironmentStr app own envp <$> l)). rewrite length_app. cbn [length].
  assert (length (propogateEnvironmentStr app own envp m) ≤ 1)%nat; [|lia]. unfold propogateEnvironmentStr. destruct (getenv _ m); [|cbn; lia].
  destruct (_ && _); cbn; lia.
Qed.

Lemma updated_environment envp propogate_spindle :
  ∃ newenv num, updateEnvironment app own envp propogate_spindle = Some (newenv, num) ∧
    ∀ name, is_name name → getenv newenv name =
      if decide (name ∈ SPINDLE_VARS) then
        if propogate_spindle then match getenv (default [] envp) name with Some v => Some v | None => getenv app name end else None
      else if propogate_spindle && bool_decide (name = lit "GLIBC_TUNABLES") then getenv own name
      else getenv (default [] envp) name.
Proof.
  unfold updateEnvironment. set (e := default [] envp). destruct propogate_spindle; cbn [negb andb].
  - eexists _, _. split.
    + rewrite (proj2 (Z.leb_le _ _)); [reflexivity|]. rewrite length_app.
      pose proof (propogated_length e (SPINDLE_VARS ++ [lit "GLIBC_TUNABLES"])) as H. change (length (SPINDLE_VARS ++ _)) with 9%nat in H.
      pose proof (length_filter (λ s, assigns (lit "GLIBC_TUNABLES") s = false) e). lia.
    + intros n Hn. rewrite getenv_app, getenv_propogated; [|done|].
      2:{ pose proof vars_are_names as H. apply Forall_cons in H as [H1 H2]. apply Forall_app. split; [done|by constructor]. }
      rewrite negb_filter. destruct (decide (n = lit "GLIBC_TUNABLES")) as [->|Ht].
      * rewrite decide_True by (apply (bool_decide_unpack _); by vm_compute). rewrite decide_False by (apply (bool_decide_unpack _); by vm_compute).
        rewrite bool_decide_true by done. rewrite getenv_removed by (intros s ->; done).
        unfold propogateEnvironmentStr. rewrite bool_decide_true by done. destruct (getenv own _) as [v|]; [|done]. rewrite andb_false_r.
        by rewrite getenv_single.
      * rewrite (bool_decide_false (n = _)) by done. assert (getenv (filter (λ s, negb (assigns (lit "GLIBC_TUNABLES") s) = true) e) n = getenv e n) as ->.
        { apply getenv_filter. intros s (v & ->)%assigns_iff. rewrite assigns_same, bool_decide_false; [done..| |done]. by apply (bool_decide_unpack _); vm_compute. }
        destruct (decide (n ∈ SPINDLE_VARS)) as [Hin|Hin].
        -- rewrite decide_True by (apply elem_of_app; by left). unfold propogateEnvironmentStr. rewrite bool_decide_false by done.
           rewrite getenv_contains. cbn [negb]. rewrite andb_true_r. destruct (getenv app n) as [v|], (getenv e n) as [v'|] eqn:E; try done.
           change (bool_decide (is_Some None)) with false. cbv iota. by rewrite getenv_single.
        -- rewrite decide_False; [done|]. rewrite elem_of_app, list_elem_of_singleton. tauto.
  - eexists _, _. split; [done|]. intros n Hn. unfold removeEnvironmentStrs. rewrite negb_filter. case_decide as Hin.
    + apply getenv_removed. intros s Hs. by rewrite (spindle_var_of n s), bool_decide_true.
    + apply getenv_filter. intros s Hs. by rewrite (spindle_var_of n s), bool_decide_false.
Qed.

(** C28: the environment of a program that is executed.  The array for it is always large enough.  When Spindle goes on in the
    program, it finds the variables of Spindle with the values that the caller gave or else those of the process; when not,
    it finds none of them.  All other variables are as the caller gave them, except that a program in which Spindle goes on
    gets the tunables of the C library from the client. *)
Theorem exec_environment envp propogate_spindle :
  ∃ newenv num, updateEnvironment app own envp propogate_spindle = Some (newenv, num) ∧
    ∀ name, is_name name → getenv newenv name =
      if decide (name ∈ SPINDLE_VARS) then
        if propogate_spindle then match getenv (default [] envp) name with Some v => Some v | None => getenv app name end else None
      else if propogate_spindle && bool_decide (name = lit "GLIBC_TUNABLES") then getenv own name
      else getenv (default [] envp) name.
Proof. apply updated_environment. Qed.

End env.

Lemma exec_environment_witness :
  ∃ newenv num, updateEnvironment [lit "LDCS_NUMBER=1"; lit "A=2"] [] (Some [lit "B=3"]) true = Some (newenv, num) ∧
    getenv newenv (lit "LDCS_NUMBER") = Some (lit "1") ∧ getenv newenv (lit "A") = None ∧ getenv newenv (lit "B") = Some (lit "3").
Proof.
  destruct (exec_environment [lit "LDCS_NUMBER=1"; lit "A=2"] [] (Some [lit "B=3"]) true) as (newenv & num & E & H).
  assert (∀ name, bool_decide (EQUALS ∉ name) = true → is_name name) as Hname by (intros name Hb; exact (bool_decide_eq_true_1 _ Hb)).
  exists newenv, num. split; [exact E|].
  rewrite (H (lit "LDCS_NUMBER") (Hname (lit "LDCS_NUMBER") eq_refl)), (H (lit "A") (Hname (lit "A") eq_refl)), (H (lit "B") (Hname (lit "B") eq_refl)).
  vm_compute. auto.
Defined.

(** A program that inherits the environment of the process keeps the variables of Spindle, or loses them. *)
Lemma inherited_environment app propogate_spindle name : is_name name →
  getenv (updateEnvironment_inherited app propogate_spindle) name =
    if propogate_spindle then getenv app name else if decide (name ∈ SPINDLE_VARS) then None else getenv app name.
Proof.
  intros Hn. unfold updateEnvironment_inherited. destruct propogate_spindle; [done|]. pose proof vars_are_names as Hv. apply Forall_cons in Hv as [_ Hv].
  revert app. induction Hv as [|m l Hm _ IH]; intros app; [done|]. cbn [foldl]. rewrite IH. unfold unsetenv. rewrite negb_filter.
  destruct (decide (name = m)) as [->|Hne].
  - rewrite (decide_True (P := m ∈ m :: l)) by left. case_decide; [done|]. apply getenv_removed. by intros s ->.
  - rewrite getenv_filter.
    + destruct (decide (name ∈ l)); [rewrite decide_True by (by right)|rewrite decide_False by (rewrite elem_of_cons; tauto)]; done.
    + intros s (v & ->)%assigns_iff. by rewrite assigns_same, bool_decide_false.
Qed.

(** *** What goes wrong *)

(** A caller that passes tunables of the C library in an environment loses them when its process has none. *)
Lemma tunables_lost app value :
  ∃ newenv num, updateEnvironment app [] (Some [assignment (lit "GLIBC_TUNABLES") value]) true = Some (newenv, num) ∧
    getenv newenv (lit "GLIBC_TUNABLES") = None.
Proof.
  destruct (updated_environment app [] (Some [assignment (lit "GLIBC_TUNABLES") value]) true) as (e & n & E & H).
  exists e, n. split; [done|]. rewrite H by (by apply (bool_decide_unpack _); vm_compute). done.
Qed.
End ExecEnv.
