(* ===== verification/ExecTun.v ===== *)
(** * Tunables of the C library

    [update_existing_glibc_tunables] of the client rewrites the tunables of a program so
    that it gets enough thread-local storage: it keeps the other tunables, has one entry
    each for the size and the alignment, and stays within the buffer that was allocated. *)

From Stdlib Require Import Ascii String ZArith Lia.
From stdpp Require Import strings numbers gmap list.
From S2P Require Import Prelude Bytes StaticTls Cache GlobalName Parseloc Handlers ClientApi Lookup Intercept Exec ExecEnv.
Import Cache GlobalName Parseloc Handlers ClientApi Lookup Intercept Exec ExecEnv.

Module ExecTun.

(** ** Lists that are separated by colons *)

Fixpoint join_colon (l : list bytes) : bytes :=
  match l with
  | [] => []
  | x :: l' => match l' with [] => x | _ => x ++ COLON :: join_colon l' end
  end.

(** The length of a list with a colon behind each element. *)
Definition weight (l : list bytes) : nat := sum_list_with (λ s, length s + 1)%nat l.

Definition token (s : bytes) : Prop := s ≠ [] ∧ COLON ∉ s.

Lemma join_snoc l s : l ≠ [] → join_colon (l ++ [s]) = join_colon l ++ COLON :: s.
Proof.
  induction l as [|x l IH]; intros Hl; [done|]. destruct l as [|y l]; [done|].
  change (join_colon ((x :: y :: l) ++ [s])) with (x ++ COLON :: join_colon ((y :: l) ++ [s])). rewrite IH by done.
  change (join_colon (x :: y :: l)) with (x ++ COLON :: join_colon (y :: l)). by rewrite <- app_assoc.
Qed.

Lemma join_weight l : l ≠ [] → (length (join_colon l) + 1 = weight l)%nat.
Proof.
  induction l as [|x l IH]; intros Hl; [done|]. destruct l as [|y l]; [cbn; lia|].
  change (join_colon (x :: y :: l)) with (x ++ COLON :: join_colon (y :: l)). rewrite length_app. cbn [length].
  specialize (IH ltac:(done)). unfold weight in *. cbn [sum_list_with] in *. lia.
Qed.

Lemma join_empty l : Forall token l → join_colon l = [] → l = [].
Proof. intros H. destruct l as [|x l]; [done|]. apply Forall_cons in H as [[Hx _] _]. destruct x; [done|]. by destruct l. Qed.

Lemma span_prefix_app s : (span_prefix s).1 ++ (span_prefix s).2 = s ∧ (COLON ∉ (span_prefix s).1) ∧
  ((span_prefix s).2 = [] ∨ ∃ r, (span_prefix s).2 = COLON :: r).
Proof.
  induction s as [|a s IH]; cbn; [split; [done|]; split; [apply not_elem_of_nil|by left]|].
  destruct (Ascii.eqb a COLON) eqn:E; cbn.
  - apply Ascii.eqb_eq in E as ->. split; [done|]. split; [apply not_elem_of_nil|]. right. by eexists.
  - destruct (span_prefix s) as [c r]. cbn in *. destruct IH as (<- & Hc & Hr). split; [done|]. split; [|done].
    rewrite elem_of_cons. intros [<-|?]; [|done]. by rewrite Ascii.eqb_refl in E.
Qed.

Lemma skip_colons_cons s a s' : skip_colons s = a :: s' → a ≠ COLON.
Proof.
  induction s as [|b s IH]; [done|]. cbn. destruct (Ascii.eqb b COLON) eqn:E; [done|]. intros [= -> ->] ->. by rewrite Ascii.eqb_refl in E.
Qed.

Lemma skip_colons_length s : (length (skip_colons s) ≤ length s)%nat.
Proof. induction s as [|b s IH]; cbn; [lia|]. destruct (Ascii.eqb b COLON); cbn; lia. Qed.

Lemma split_tokens fuel : ∀ s, Forall token (split_prefixes fuel s) ∧
  (weight (split_prefixes fuel s) ≤ match skip_colons s with [] => 0 | s' => length s' + 1 end)%nat.
Proof.
  induction fuel as [|fuel IH]; intros s; [split; [constructor|cbn; destruct (skip_colons s); lia]|]. cbn [split_prefixes].
  destruct (skip_colons s) as [|a s1] eqn:E; [split; [constructor|cbn; lia]|]. pose proof (skip_colons_cons _ _ _ E) as Ha.
  destruct (span_prefix_app (a :: s1)) as (Hs & Hc & Hr). destruct (span_prefix (a :: s1)) as [c r]. cbn in Hs, Hc, Hr. destruct (IH r) as [H1 H2]. split.
  - constructor; [|done]. split; [|done]. intros ->. destruct Hr as [-> | (r' & ->)]; [done|]. cbn in Hs. injection Hs as Hh _. congruence.
  - unfold weight in *. cbn [sum_list_with]. rewrite <- Hs, length_app. destruct Hr as [-> | (r' & ->)]; [cbn in H2; cbn; lia|].
    change (skip_colons (COLON :: r')) with (skip_colons r') in H2. pose proof (skip_colons_length r'). cbn [length]. destruct (skip_colons r'); cbn [length] in *; lia.
Qed.

Lemma strtok_tokens s : Forall token (strtok_colon s) ∧ (weight (strtok_colon s) ≤ length s + 1)%nat.
Proof.
  destruct (split_tokens (S (length s)) s) as [H1 H2]. split; [done|]. unfold strtok_colon. etransitivity; [exact H2|].
  pose proof (skip_colons_length s). destruct (skip_colons s); lia.
Qed.

Lemma span_token x r : COLON ∉ x → (r = [] ∨ ∃ r', r = COLON :: r') → span_prefix (x ++ r) = (x, r).
Proof.
  intros Hx Hr. induction x as [|a x IH]; cbn; [by destruct Hr as [-> | (r' & ->)]|]. rewrite not_elem_of_cons in Hx. destruct Hx as [Ha Hx].
  destruct (Ascii.eqb a COLON) eqn:E; [apply Ascii.eqb_eq in E; congruence|]. by rewrite IH.
Qed.

Lemma split_join l : Forall token l → ∀ fuel, (length l < fuel)%nat → split_prefixes fuel (join_colon l) = l.
Proof.
  intros H. induction H as [|x l [Hx Hc] Hl IH]; intros fuel Hf; destruct fuel as [|fuel]; try (cbn in Hf; lia); [done|].
  assert (∀ r, (r = [] ∨ ∃ r', r = COLON :: r') → split_prefixes (S fuel) (x ++ r) = x :: split_prefixes fuel r) as Hsplit.
  { intros r Hr. cbn [split_prefixes]. destruct x as [|a x]; [done|]. cbn [app skip_colons]. destruct (Ascii.eqb a COLON) eqn:E.
    - apply Ascii.eqb_eq in E as ->. exfalso. apply Hc. left.
    - change (a :: x ++ r) with ((a :: x) ++ r). by rewrite span_token. }
  destruct l as [|y l].
  - rewrite <- (app_nil_r x) at 1. change (join_colon [x ++ []]) with (x ++ []). rewrite Hsplit by (by left). by destruct fuel.
  - change (join_colon (x :: y :: l)) with (x ++ COLON :: join_colon (y :: l)). rewrite Hsplit by (by right; eexists). f_equal.
    cbn [length] in *. rewrite <- (IH fuel) at 2 by lia. destruct fuel as [|fuel]; [lia|]. by cbn [split_prefixes skip_colons].
Qed.

Lemma strtok_join l : Forall token l → strtok_colon (join_colon l) = l.
Proof.
  intros H. apply split_join; [done|]. destruct l as [|x l]; [cbn; lia|]. pose proof (join_weight (x :: l) ltac:(done)) as E.
  assert (2 * length (x :: l) ≤ weight (x :: l))%nat as Hw; [|cbn [length] in *; lia]. clear E. unfold weight.
  induction H as [|y m [Hy _] _ IH]; [done|]. destruct y; [done|]. cbn [sum_list_with length] in *. lia.
Qed.

(** ** Numbers *)

Lemma print_zu_length z : (length (print_zu z) ≤ 20)%nat.
Proof.
  unfold print_zu, dec. assert (0 <= wrap64 z < 2 ^ 64) as H by (apply Z.mod_pos_bound; lia). rewrite (proj2 (Z.ltb_ge _ _)) by lia.
  pose proof (dec_digits_length 20 (wrap64 z) [] 19 ltac:(cbn; lia)). cbn in *. lia.
Qed.

Lemma dec_digits_lead fuel : ∀ n acc, 0 < n < 10 ^ Z.of_nat fuel → ∃ a l, dec_digits fuel n acc = a :: l ∧ a ≠ "0"%char.
Proof.
  induction fuel as [|fuel IH]; intros n acc Hn; [cbn in Hn; lia|]. cbn [dec_digits]. destruct (n <? 10) eqn:E; bool_to_prop.
  - eexists _, _. split; [done|]. intros Ha. apply (f_equal byte_val) in Ha. rewrite Z.mod_small, digit_val in Ha by lia. change (byte_val "0"%char) with 48 in Ha. lia.
  - apply IH. rewrite Nat2Z.inj_succ, Z.pow_succ_r in Hn by lia. split; [apply Z.div_str_pos; lia|apply Z.div_lt_upper_bound; lia].
Qed.

Lemma read_digits_dec ds acc : Forall (λ c, isdigit c = true) ds →
  read_digits 10 ds acc = match ds with [] => acc | _ => Some (fold_left (λ m c, 10 * m + (byte_val c - 48)) ds (default 0 acc)) end.
Proof.
  intros H. revert acc. induction H as [|a ds Ha _ IH]; intros acc; [done|]. cbn [read_digits]. unfold digit_val_in. rewrite Ha.
  unfold isdigit in Ha. apply andb_true_iff in Ha as [H1%Z.leb_le H2%Z.leb_le]. rewrite (proj2 (Z.ltb_lt _ _)) by lia. rewrite IH. by destruct ds.
Qed.

Lemma scan_print v : 0 <= v < 2 ^ 63 → scan_zi (print_zu v) = Some v.
Proof.
  intros Hv. unfold print_zu, wrap64. rewrite Z.mod_small by lia. unfold dec. rewrite (proj2 (Z.ltb_ge _ _)) by lia.
  destruct (decide (v = 0)) as [->|Hne]; [done|].
  destruct (dec_digits_spec 20 v []) as (ds & E & _ & Hds & Hval); [cbn; lia|lia|]. destruct (dec_digits_lead 20 v []) as (a & l & Ea & Hz); [cbn; lia|].
  rewrite E, app_nil_r in Ea. rewrite E, app_nil_r. subst ds. pose proof Hds as Hds'. apply Forall_cons in Hds' as [Ha _].
  pose proof (read_digits_dec (a :: l) None Hds) as Hr. specialize (Hval 0). change (default 0 None) with 0 in Hr. rewrite Hval in Hr.
  assert (∀ b, byte_val b < 48 → Ascii.eqb a b = false) as Hneq.
  { intros b Hb. apply Ascii.eqb_neq. intros ->. unfold isdigit in Ha. apply andb_true_iff in Ha as [H1%Z.leb_le _]. lia. }
  assert (isspace a = false) as Hsp.
  { unfold isspace, isdigit in *. apply andb_true_iff in Ha as [H1%Z.leb_le _]. rewrite (proj2 (Z.eqb_neq _ _)), (proj2 (Z.leb_gt _ 13)) by lia. by rewrite andb_false_r. }
  assert (Ascii.eqb a "0"%char = false) as H0 by (by apply Ascii.eqb_neq).
  unfold scan_zi. cbn [skip_space]. rewrite Hsp, !Hneq by (vm_compute; reflexivity). unfold is_hex_prefix, first_is. rewrite H0.
  replace (match l with x :: d :: _ => _ | _ => false end) with false by (destruct l as [|x [|d l]]; done).
  rewrite Hr. cbn. f_equal. lia.
Qed.

(** ** What the new tunables should be *)

Definition is_other (s : bytes) : bool := negb (assigns TLSVAR s) && negb (assigns TLSVAR_ALIGNMENT s).
(** The values that a list of tunables gives to a name. *)
Definition values (name : bytes) (l : list bytes) : list Z := omap (λ s, if assigns name s then scan_zi (value_in name s) else None) l.

(** Entries for the storage have numbers. *)
Definition entry_ok (s : bytes) : Prop :=
  (assigns TLSVAR s = true → ∃ v, scan_zi (value_in TLSVAR s) = Some v ∧ 0 <= v < 2 ^ 63 - 4096) ∧
  (assigns TLSVAR_ALIGNMENT s = true → ∃ v, scan_zi (value_in TLSVAR_ALIGNMENT s) = Some v ∧ 0 <= v < 2 ^ 63).

Lemma names_ok : is_name TLSVAR ∧ is_name TLSVAR_ALIGNMENT ∧ TLSVAR ≠ TLSVAR_ALIGNMENT.
Proof. unfold is_name. split_and!; apply (bool_decide_unpack _); by vm_compute. Qed.

(** The entries that are written, without the buffer. *)
Record spec := mk_spec {
  sp_needed : Z;
  sp_size : Z;
  sp_align : Z;
  sp_out : list bytes;
}.

Section tunables.
Variable tls_alignment : Z.
Hypothesis Halign : 0 <= tls_alignment < 2 ^ 63.

Definition spec_step (p : spec) (s : bytes) : spec :=
  if assigns TLSVAR s then
    if negb (sp_size p =? -1) then p
    else
      let e := default (-1) (scan_zi (value_in TLSVAR s)) in
      let n := if sp_needed p <? e then e + 4096 else sp_needed p in
      mk_spec n e (sp_align p) (sp_out p ++ [assignment TLSVAR (print_zu n)])
  else if assigns TLSVAR_ALIGNMENT s then
    if negb (sp_align p =? -1) then p
    else
      let e := default (-1) (scan_zi (value_in TLSVAR_ALIGNMENT s)) in
      mk_spec (sp_needed p) (sp_size p) e (sp_out p ++ [assignment TLSVAR_ALIGNMENT (print_zu (if wrap64 tls_alignment <? wrap64 e then e else tls_alignment))])
  else mk_spec (sp_needed p) (sp_size p) (sp_align p) (sp_out p ++ [s]).

(** A buffer that holds these entries. *)
Record holds (t : tunables) (p : spec) : Prop := mk_holds {
  ho_str : newstr t = join_colon (sp_out p);
  ho_cur : newstr_cur t = Z.of_nat (length (newstr t));
  ho_needed : tls_needed t = sp_needed p;
  ho_size : existing_tls_size t = sp_size p;
  ho_align : existing_tls_alignment t = sp_align p;
  ho_tokens : Forall token (sp_out p);
}.

(** One more entry, when there is room for it. *)
Lemma put_token size t p s : holds t p → token s → Z.of_nat (length (join_colon (sp_out p ++ [s]))) < size →
  ∃ t1, tun_colon size t = Some t1 ∧ tls_needed t1 = tls_needed t ∧ existing_tls_size t1 = existing_tls_size t ∧
    existing_tls_alignment t1 = existing_tls_alignment t ∧
    ∀ n es ea, ∃ t2, tun_print size s (mk_tunables (newstr t1) (newstr_cur t1) n es ea) = Some t2 ∧ tun_assert size t2 = Some t2 ∧
      holds t2 (mk_spec n es ea (sp_out p ++ [s])).
Proof.
  intros [Hs Hc Hn Hz Ha Ht] Htok Hl. unfold tun_colon. destruct (newstr_cur t =? 0) eqn:E0.
  - apply Z.eqb_eq in E0. exists t. split_and!; try done. intros n es ea. unfold tun_print. cbn [newstr_cur newstr tls_needed existing_tls_size existing_tls_alignment].
    assert (sp_out p = []) as Ho. { apply join_empty; [done|]. rewrite <- Hs. destruct (newstr t); [done|cbn in Hc; lia]. }
    rewrite Ho in *. cbn in Hs, Hl. rewrite E0, Hs. rewrite (proj2 (Z.ltb_ge _ _)) by lia. cbn [app].
    rewrite take_ge by lia. eexists. split; [done|]. unfold tun_assert. cbn [newstr_cur]. rewrite (proj2 (Z.leb_le _ _)) by lia. split; [done|].
    split; cbn; try done. by constructor.
  - apply Z.eqb_neq in E0. assert (sp_out p ≠ []) as Ho by (intros Ho; rewrite Ho in Hs; cbn in Hs; rewrite Hs in Hc; cbn in Hc; lia).
    rewrite join_snoc in Hl by done. rewrite length_app in Hl. cbn [length] in Hl. unfold tun_print at 1. rewrite Hc, Hs. rewrite (proj2 (Z.ltb_ge _ _)) by lia.
    eexists. split; [done|]. cbn [tls_needed existing_tls_size existing_tls_alignment newstr newstr_cur]. split_and!; try done.
    intros n es ea. unfold tun_print. cbn [newstr_cur newstr tls_needed existing_tls_size existing_tls_alignment length].
    rewrite (proj2 (Z.ltb_ge _ _)) by lia. rewrite !take_ge by (cbn; lia). eexists. split; [done|]. unfold tun_assert. cbn [newstr_cur].
    rewrite (proj2 (Z.leb_le _ _)) by lia. split; [done|]. split; cbn [newstr newstr_cur tls_needed existing_tls_size existing_tls_alignment sp_out sp_needed sp_size sp_align]; try done.
    + rewrite join_snoc by done. by rewrite <- app_assoc.
    + rewrite !length_app. cbn. lia.
    + apply Forall_app. split; [done|by constructor].
Qed.

Lemma entry_token name v : is_name name → COLON ∉ name → name ≠ [] → token (assignment name (print_zu v)).
Proof.
  intros _ Hc Hne. split; [by destruct name|]. unfold assignment. rewrite !elem_of_app, list_elem_of_singleton. intros [?|[?|Hin]]; [done|done|].
  unfold print_zu, dec in Hin. assert (0 <= wrap64 v < 2 ^ 64) as Hv by (apply Z.mod_pos_bound; lia). rewrite (proj2 (Z.ltb_ge _ _)) in Hin by lia.
  destruct (dec_digits_spec 20 (wrap64 v) []) as (ds & E & _ & Hds & _); [cbn; lia|lia|]. rewrite E, app_nil_r in Hin.
  by pose proof (proj1 (Forall_forall _ _) Hds _ Hin).
Qed.

Lemma size_token v : token (assignment TLSVAR (print_zu v)) ∧ token (assignment TLSVAR_ALIGNMENT (print_zu v)).
Proof. split; apply entry_token; apply (bool_decide_unpack _); by vm_compute. Qed.

(** The code writes these entries. *)
Lemma tunable_spec size t p s : holds t p → token s → entry_ok s → 0 <= sp_needed p < 2 ^ 63 →
  Z.of_nat (length (join_colon (sp_out (spec_step p s)))) < size →
  ∃ t', tunable size tls_alignment t s = Some t' ∧ holds t' (spec_step p s).
Proof.
  intros Ht Hs [Ho1 Ho2] Hn Hl. unfold tunable, spec_step in *. pose proof Ht as [H1 H2 H3 H4 H5 H6].
  rewrite ?H4, ?H5. destruct (assigns TLSVAR s) eqn:E1.
  - destruct (negb (sp_size p =? -1)); [by exists t|]. destruct (Ho1 eq_refl) as (v & Ev & Hv). rewrite Ev in *. cbn [default from_option id] in *. unfold id in *. cbn [sp_out] in Hl.
    set (n := if sp_needed p <? v then v + 4096 else sp_needed p) in *.
    destruct (put_token size t p _ Ht (proj1 (size_token n)) Hl) as (t1 & -> & N1 & N2 & N3 & Hput). cbn [mbind option_bind]. rewrite N1, N3, H3, H5. fold n.
    assert (n < 2 ^ 63) by (unfold n; destruct (sp_needed p <? v); lia). rewrite (proj2 (Z.leb_gt _ _)) by lia.
    destruct (Hput n v (sp_align p)) as (t2 & -> & E2 & Hh). cbn [mbind option_bind]. by exists t2.
  - destruct (assigns TLSVAR_ALIGNMENT s) eqn:E2.
    + destruct (negb (sp_align p =? -1)); [by exists t|]. destruct (Ho2 eq_refl) as (v & Ev & Hv). rewrite Ev in *. cbn [default from_option id] in *. unfold id in *. cbn [sp_out] in Hl.
      set (n := if wrap64 tls_alignment <? wrap64 v then v else tls_alignment) in *.
      destruct (put_token size t p _ Ht (proj2 (size_token n)) Hl) as (t1 & -> & N1 & N2 & N3 & Hput). cbn [mbind option_bind]. rewrite N1, N2, H3, H4.
      destruct (Hput (sp_needed p) (sp_size p) v) as (t2 & -> & E3 & Hh). cbn [mbind option_bind]. by exists t2.
    + cbn [sp_out] in Hl. destruct (put_token size t p s Ht Hs Hl) as (t1 & -> & N1 & N2 & N3 & Hput). cbn [mbind option_bind].
      destruct (Hput (tls_needed t1) (existing_tls_size t1) (existing_tls_alignment t1)) as (t2 & Eput & E3 & Hh).
      destruct t1 as [? ? ? ? ?]. cbn [newstr newstr_cur tls_needed existing_tls_size existing_tls_alignment] in *. rewrite Eput. cbn [mbind option_bind].
      exists t2. split; [done|]. by rewrite N1, N2, N3, H3, H4, H5 in Hh.
Qed.

(** *** The entries *)

Lemma values_own n v : is_name n → 0 <= v < 2 ^ 63 → values n [assignment n (print_zu v)] = [v].
Proof. intros Hn Hv. unfold values. cbn [omap list_omap]. by rewrite assigns_assignment, value_assignment, scan_print. Qed.

Lemma values_not n s : assigns n s = false → values n [s] = [].
Proof. intros H. unfold values. cbn [omap list_omap]. by rewrite H. Qed.

Lemma values_app n l k : values n (l ++ k) = values n l ++ values n k.
Proof. apply omap_app. Qed.

Lemma others_snoc l s : filter (λ s, is_other s = true) (l ++ [s]) = filter (λ s, is_other s = true) l ++ if is_other s then [s] else [].
Proof. rewrite filter_app. f_equal. rewrite filter_cons, filter_nil. destruct (is_other s); [by rewrite decide_True|by rewrite decide_False]. Qed.

Lemma entries_differ v : assigns TLSVAR (assignment TLSVAR_ALIGNMENT v) = false ∧ assigns TLSVAR_ALIGNMENT (assignment TLSVAR v) = false ∧
  is_other (assignment TLSVAR v) = false ∧ is_other (assignment TLSVAR_ALIGNMENT v) = false.
Proof.
  destruct names_ok as (H1 & H2 & H3). unfold is_other. rewrite !assigns_same by done. rewrite (bool_decide_false (TLSVAR = _)), (bool_decide_false (_ = TLSVAR)) by done.
  by rewrite !bool_decide_true.
Qed.

Lemma weight_snoc l s : (weight (l ++ [s]) = weight l + length s + 1)%nat.
Proof. unfold weight. rewrite sum_list_with_app. cbn. lia. Qed.

(** An entry that is read is at least as long as its name. *)
Lemma assigned_length n s : assigns n s = true → (length n + 1 ≤ length s)%nat.
Proof. intros (v & ->)%assigns_iff. unfold assignment. rewrite !length_app. cbn. lia. Qed.

Lemma entry_length n v : (length (assignment n (print_zu v)) ≤ length n + 21)%nat.
Proof. unfold assignment. rewrite !length_app. pose proof (print_zu_length v). cbn. lia. Qed.

(** After some entries [l] of the old tunables. *)
Record written (needed : Z) (l : list bytes) (p : spec) : Prop := mk_written {
  wr_others : filter (λ s, is_other s = true) (sp_out p) = filter (λ s, is_other s = true) l;
  wr_needed : needed <= sp_needed p < 2 ^ 63;
  wr_size : if sp_size p =? -1 then values TLSVAR (sp_out p) = [] ∧ values TLSVAR l = []
            else values TLSVAR (sp_out p) = [sp_needed p] ∧ ∃ e r, values TLSVAR l = e :: r ∧ e <= sp_needed p;
  wr_align : if sp_align p =? -1 then values TLSVAR_ALIGNMENT (sp_out p) = [] ∧ values TLSVAR_ALIGNMENT l = []
             else ∃ a, values TLSVAR_ALIGNMENT (sp_out p) = [a] ∧ tls_alignment <= a ∧ ∃ e r, values TLSVAR_ALIGNMENT l = e :: r ∧ e <= a;
  wr_room : (weight (sp_out p) ≤ weight l + (if (sp_size p =? -1)%Z then 0 else 20) + (if (sp_align p =? -1)%Z then 0 else 20))%nat;
}.

Lemma values_some n l k x r : values n l = x :: r → ∃ r', values n (l ++ k) = x :: r'.
Proof. intros H. rewrite values_app, H. by eexists. Qed.

Lemma written_step needed l p s : 0 <= needed → written needed l p → entry_ok s → written needed (l ++ [s]) (spec_step p s).
Proof.
  intros H0 [Wo Wn Ws Wa Wr] [Ho1 Ho2]. destruct names_ok as (N1 & N2 & N3). unfold spec_step.
  destruct (assigns TLSVAR s) eqn:E1; [|destruct (assigns TLSVAR_ALIGNMENT s) eqn:E2].
  - assert (assigns TLSVAR_ALIGNMENT s = false) as E2 by (apply assigns_iff in E1 as (v & ->); apply (entries_differ v)).
    assert (is_other s = false) as Eo by (unfold is_other; by rewrite E1).
    destruct (Ho1 eq_refl) as (v & Ev & Hv). assert (values TLSVAR [s] = [v]) as Es by (unfold values; cbn [omap list_omap]; by rewrite E1, Ev).
    pose proof (assigned_length _ _ E1) as Hls. destruct (sp_size p =? -1) eqn:Ez; cbn [negb].
    + rewrite Ev. cbn [default from_option]. unfold id. set (n := if sp_needed p <? v then v + 4096 else sp_needed p).
      assert (needed <= n < 2 ^ 63 ∧ v <= n) as [Hn Hvn] by (unfold n; destruct (sp_needed p <? v) eqn:E; bool_to_prop; lia).
      pose proof (entries_differ (print_zu n)) as (_ & D2 & D3 & _). pose proof (entry_length TLSVAR n).
      split; cbn [sp_out sp_needed sp_size sp_align]; rewrite ?others_snoc, ?values_app, ?weight_snoc, ?Eo, ?D3, ?app_nil_r; try done.
      * rewrite (proj2 (Z.eqb_neq _ _)) by lia. destruct Ws as [-> ->]. rewrite values_own by (done || lia). split; [done|]. rewrite Es. by eexists _, _.
      * by rewrite !(values_not TLSVAR_ALIGNMENT), !app_nil_r.
      * rewrite (proj2 (Z.eqb_neq v (-1))) by lia. lia.
    + split; rewrite ?others_snoc, ?weight_snoc, ?Eo, ?app_nil_r, ?Ez; try done.
      * destruct Ws as (-> & e & r & Hl & He). split; [done|]. rewrite values_app, Hl. by eexists _, _.
      * by rewrite values_app, (values_not TLSVAR_ALIGNMENT), app_nil_r.
      * lia.
  - assert (is_other s = false) as Eo by (unfold is_other; by rewrite E1, E2).
    destruct (Ho2 eq_refl) as (v & Ev & Hv). assert (values TLSVAR_ALIGNMENT [s] = [v]) as Es by (unfold values; cbn [omap list_omap]; by rewrite E2, Ev).
    pose proof (assigned_length _ _ E2) as Hls. destruct (sp_align p =? -1) eqn:Ez; cbn [negb].
    + rewrite Ev. cbn [default from_option]. unfold id, wrap64. rewrite !Z.mod_small by lia. set (n := if tls_alignment <? v then v else tls_alignment).
      assert (tls_alignment <= n < 2 ^ 63 ∧ v <= n) as [Hn Hvn] by (unfold n; destruct (tls_alignment <? v) eqn:E; bool_to_prop; lia).
      pose proof (entries_differ (print_zu n)) as (D1 & _ & _ & D4). pose proof (entry_length TLSVAR_ALIGNMENT n).
      split; cbn [sp_out sp_needed sp_size sp_align]; rewrite ?others_snoc, ?values_app, ?weight_snoc, ?Eo, ?D4, ?app_nil_r; try done.
      * by rewrite !(values_not TLSVAR), !app_nil_r.
      * rewrite (proj2 (Z.eqb_neq v (-1))) by lia. destruct Wa as [-> ->]. rewrite values_own by (done || lia). exists n. split; [done|]. split; [lia|]. rewrite Es. by eexists _, _.
      * rewrite (proj2 (Z.eqb_neq v (-1))) by lia. lia.
    + split; rewrite ?others_snoc, ?weight_snoc, ?Eo, ?app_nil_r, ?Ez; try done.
      * by rewrite values_app, (values_not TLSVAR), app_nil_r.
      * destruct Wa as (a & -> & Ha & e & r & Hl & He). exists a. split; [done|]. split; [done|]. rewrite values_app, Hl. by eexists _, _.
      * lia.
  - assert (is_other s = true) as Eo by (unfold is_other; by rewrite E1, E2).
    split; cbn [sp_out sp_needed sp_size sp_align]; rewrite ?others_snoc, ?values_app, ?weight_snoc, ?Eo, ?(values_not TLSVAR), ?(values_not TLSVAR_ALIGNMENT), ?app_nil_r by done; try done.
    + by rewrite Wo.
    + lia.
Qed.

Lemma join_length l : (length (join_colon l) ≤ weight l)%nat.
Proof. destruct l as [|x l]; [cbn; lia|]. pose proof (join_weight (x :: l) ltac:(done)). lia. Qed.

Lemma weight_app l k : (weight (l ++ k) = weight l + weight k)%nat.
Proof. apply sum_list_with_app. Qed.

(** The entries of the old tunables, one after the other. *)
Lemma fold_written size needed rest : ∀ l t p, 0 <= needed → holds t p → written needed l p → Forall token rest → Forall entry_ok rest →
  Z.of_nat (weight (l ++ rest)) + 40 < size →
  ∃ t', foldl (λ t s, t ← t; tunable size tls_alignment t s) (Some t) rest = Some t' ∧ holds t' (foldl spec_step p rest) ∧
    written needed (l ++ rest) (foldl spec_step p rest).
Proof.
  induction rest as [|s rest IH]; intros l t p H0 Hh Hw Ht Ho Hl; [rewrite app_nil_r; by exists t|].
  apply Forall_cons in Ht as [Hs Ht], Ho as [Hos Ho]. pose proof (written_step needed l p s H0 Hw Hos) as Hw'.
  replace (l ++ s :: rest) with ((l ++ [s]) ++ rest) in * by (by rewrite <- app_assoc). rewrite weight_app in Hl.
  destruct (tunable_spec size t p s Hh Hs Hos) as (t1 & E & Hh1).
  - destruct (wr_needed _ _ _ Hw). lia.
  - pose proof (wr_room _ _ _ Hw'). pose proof (join_length (sp_out (spec_step p s))). destruct (_ =? _), (_ =? _); lia.
  - cbn [foldl mbind option_bind]. rewrite E. apply (IH (l ++ [s]) t1); try done. rewrite weight_app. lia.
Qed.

End tunables.

(** What the program should find. *)
Record tunables_ok (needed tls_alignment : Z) (old new : list bytes) : Prop := mk_tunables_ok {
  to_others : filter (λ s, is_other s = true) new = filter (λ s, is_other s = true) old;
  to_size : ∃ n, values TLSVAR new = [n] ∧ needed <= n ∧ ∀ e r, values TLSVAR old = e :: r → e <= n;
  to_align : ∃ a, values TLSVAR_ALIGNMENT new = [a] ∧ tls_alignment <= a ∧ ∀ e r, values TLSVAR_ALIGNMENT old = e :: r → e <= a;
}.

(** The entries that are added at the end. *)
Definition appended (s : bytes) (p : spec) : spec := mk_spec (sp_needed p) (sp_size p) (sp_align p) (sp_out p ++ [s]).

Lemma append_entry size t p s (absent : bool) (text : tunables → bytes) :
  holds t p → (∀ t1, tls_needed t1 = sp_needed p → text t1 = s) → token s → (absent = true → Z.of_nat (weight (sp_out (appended s p))) < size) →
  ∃ t', (if absent then t1 ← tun_colon size t; tun_print size (text t1) t1 else Some t) = Some t' ∧ holds t' (if absent then appended s p else p).
Proof.
  intros Hh Hx Hs Hl. destruct absent; [|by exists t]. specialize (Hl eq_refl). cbn [sp_out appended] in Hl.
  pose proof (join_length (sp_out p ++ [s])). destruct (put_token size t p s Hh Hs) as (t1 & -> & N1 & N2 & N3 & Hput); [lia|].
  destruct Hh as [_ _ H3 H4 H5 _]. cbn [mbind option_bind]. rewrite Hx by congruence.
  destruct (Hput (tls_needed t1) (existing_tls_size t1) (existing_tls_alignment t1)) as (t2 & E & _ & Hh2).
  destruct t1 as [? ? ? ? ?]. cbn [newstr newstr_cur tls_needed existing_tls_size existing_tls_alignment] in *. exists t2. split; [done|].
  by rewrite N1, N2, N3, H3, H4, H5 in Hh2.
Qed.

(** An entry for the size, and one for the alignment. *)
Definition with_size (p : spec) : spec := if sp_size p =? -1 then appended (assignment TLSVAR (print_zu (sp_needed p))) p else p.
Definition with_align (tls_alignment : Z) (p : spec) : spec :=
  if sp_align p =? -1 then appended (assignment TLSVAR_ALIGNMENT (print_zu tls_alignment)) p else p.

Lemma with_size_ok tls_alignment needed l p : 0 <= needed → written tls_alignment needed l p →
  let out := sp_out (with_size p) in
  sp_align (with_size p) = sp_align p ∧ filter (λ s, is_other s = true) out = filter (λ s, is_other s = true) l ∧
  values TLSVAR_ALIGNMENT out = values TLSVAR_ALIGNMENT (sp_out p) ∧
  (∃ n, values TLSVAR out = [n] ∧ needed <= n ∧ ∀ e r, values TLSVAR l = e :: r → e <= n) ∧
  (weight out ≤ weight l + 52 + (if (sp_align p =? -1)%Z then 0 else 20))%nat.
Proof.
  intros H0 [Wo Wn Ws Wa Wr]. destruct names_ok as (N1 & _). unfold with_size. destruct (sp_size p =? -1); cbn [sp_out sp_align appended].
  - pose proof (entries_differ (print_zu (sp_needed p))) as (_ & D2 & D3 & _). pose proof (entry_length TLSVAR (sp_needed p)) as L.
    change (length TLSVAR) with 30%nat in L. rewrite others_snoc, !values_app, weight_snoc, D3, (values_not _ _ D2), !app_nil_r, values_own by (done || lia).
    split_and!; try done; [|lia]. destruct Ws as [-> Wl]. exists (sp_needed p). split; [done|]. split; [lia|]. intros e r E. congruence.
  - split_and!; try done; [|lia]. destruct Ws as [-> (e & r & E & He)]. exists (sp_needed p). split; [done|]. split; [lia|]. intros e' r' E'. congruence.
Qed.

Lemma completed_ok tls_alignment needed l p : 0 <= needed → 0 <= tls_alignment < 2 ^ 63 → written tls_alignment needed l p →
  let out := sp_out (with_align tls_alignment (with_size p)) in tunables_ok needed tls_alignment l out ∧ (weight out ≤ weight l + 114)%nat.
Proof.
  intros H0 Ha Hw. destruct (with_size_ok _ _ _ _ H0 Hw) as (Ea & Eo & Ev & Es & El). destruct Hw as [_ _ _ Wa _]. destruct names_ok as (_ & N2 & _).
  unfold with_align. rewrite Ea. destruct (sp_align p =? -1); cbn [sp_out appended].
  - pose proof (entries_differ (print_zu tls_alignment)) as (D1 & _ & _ & D4). pose proof (entry_length TLSVAR_ALIGNMENT tls_alignment) as L.
    change (length TLSVAR_ALIGNMENT) with 40%nat in L. rewrite weight_snoc. split; [|lia].
    split; rewrite ?others_snoc, ?values_app, ?D4, ?(values_not _ _ D1), ?app_nil_r; try done. rewrite values_own, Ev by done. destruct Wa as [-> Wl].
    exists tls_alignment. split; [done|]. split; [lia|]. intros e r E. congruence.
  - split; [|lia]. split; try done. rewrite Ev. destruct Wa as (a & -> & Ha' & e & r & E & He). exists a. split; [done|]. split; [lia|]. intros e' r' E'. congruence.
Qed.

Lemma updated_tunables needed tls_alignment s :
  0 <= needed < 2 ^ 63 → 0 <= tls_alignment < 2 ^ 63 → Forall entry_ok (strtok_colon s) →
  ∃ v, update_existing_glibc_tunables needed tls_alignment s = Some v ∧ (length v < length s + 128)%nat ∧
    tunables_ok needed tls_alignment (strtok_colon s) (strtok_colon v).
Proof.
  intros Hn Ha Ho. destruct (strtok_tokens s) as [Ht Hw]. unfold update_existing_glibc_tunables. set (size := Z.of_nat (length s) + 128).
  destruct (fold_written tls_alignment Ha size needed (strtok_colon s) [] (mk_tunables [] 0 needed (-1) (-1)) (mk_spec needed (-1) (-1) []))
    as (t1 & -> & Hh & Hwr); [lia|by split|split; cbn; try done; lia|done|done|cbn [app]; lia|].
  cbn [app mbind option_bind] in *. set (p := foldl (spec_step tls_alignment) _ _) in *. destruct (completed_ok tls_alignment needed _ p ltac:(lia) Ha Hwr) as [Hok Hroom].
  destruct (with_size_ok _ needed _ p ltac:(lia) Hwr) as (_ & _ & _ & _ & Hroom1).
  destruct (append_entry size t1 p (assignment TLSVAR (print_zu (sp_needed p))) (sp_size p =? -1) (λ t, assignment TLSVAR (print_zu (tls_needed t)))) as (t2 & E2 & Hh2);
    [done|by intros ? ->|apply size_token| |].
  { intros E. unfold with_size in Hroom1. rewrite E in Hroom1. destruct (_ =? -1); lia. }
  rewrite (ho_size _ _ Hh), E2. cbn [mbind option_bind]. fold (with_size p) in Hh2.
  destruct (append_entry size t2 (with_size p) (assignment TLSVAR_ALIGNMENT (print_zu tls_alignment)) (sp_align (with_size p) =? -1)
    (λ _, assignment TLSVAR_ALIGNMENT (print_zu tls_alignment))) as (t3 & E3 & Hh3); [done|done|apply size_token| |].
  { intros E. unfold with_align in Hroom. rewrite E in Hroom. lia. }
  rewrite (ho_align _ _ Hh2), E3. cbn [mbind option_bind]. fold (with_align tls_alignment (with_size p)) in Hh3.
  exists (newstr t3). split; [done|]. rewrite (ho_str _ _ Hh3). split.
  - pose proof (join_length (sp_out (with_align tls_alignment (with_size p)))). lia.
  - rewrite strtok_join by apply (ho_tokens _ _ Hh3). exact Hok.
Qed.


Definition demo_tunables : bytes := lit "glibc.malloc.check=3:glibc.rtld.optional_static_tls=0x1000".


(** Entries for the size without a number are each written with one, and the buffer is soon too small. *)
Lemma tunables_overflow :
  update_existing_glibc_tunables (2 ^ 63 - 1) 0 (join_colon (repeat (TLSVAR ++ [EQUALS]) 8)) = None.
Proof. by vm_compute. Qed.

End ExecTun.
