(* ===== verification/ExecProcs.v ===== *)
(** * What a process executes

    The processes of a node that execute programs through the client of [Exec], interleaved
    in any way over their shared cache: each of them executes what it asked for, as a local
    copy where there is one, or fails as it would without Spindle. *)

From Stdlib Require Import Ascii String ZArith Lia.
From stdpp Require Import strings numbers gmap list relations.
From S2P Require Import Prelude Bytes StaticTls Sheep Shmcache ShmcacheInv ShmcacheProcs Cache GlobalName Parseloc Server Handlers ClientApi Lookup LookupProcs Intercept Application Exec ExecEnv ExecTun.
Import Shmcache Cache GlobalName Parseloc Server Handlers ClientApi Lookup LookupProcs Intercept Application Exec ExecEnv ExecTun.

Module ExecProcs.

(** ** Calls *)

Inductive exec_kind := KExecv | KExecve (envp : option env) | KExeclp | KExecvp | KExecvpe (envp : option env).

(** A call with the environments of the application and of the client. *)
Record exec_call := mk_exec_call {
  ec_kind : exec_kind;
  ec_app : env;
  ec_own : env;
  ec_path : bytes;
  ec_argv : list bytes;
}.

Definition ec_envp (a : exec_call) : option env := match ec_kind a with KExecve e | KExecvpe e => e | _ => None end.
Definition ec_searches (a : exec_call) : bool := match ec_kind a with KExecv | KExecve _ => false | _ => negb (no_search (ec_path a)) end.

Section exec.
Context {A : Type} {HA : SharedHeap A}.
Variable W : world.
Variable files : bytes → option bytes.
Variable S : replies.
Hypothesis HT : truthful W files S.
(** The local copies are there, and hold what the files hold. *)
Hypothesis Hlocal : ∀ p l e, s_file S p = (Some l, e) → ∃ b, files l = Some b ∧ real_open W p = inl b.
(** Sizes and alignments are numbers, or -1. *)
Hypothesis Htls : ∀ q size align, s_tls S q = Some (size, align) → -1 <= size < 2 ^ 63 ∧ 0 <= align < 2 ^ 63.
Variable os_stat : bytes → option bytes.
Variable newname0 : option bytes.
Variables errcode0 exists0 : Z.
Variable buf0 : bytes.

Definition exec_prog (c : client) (a : exec_call) : prog exec_action :=
  '(r, _, _) ← (match ec_kind a with
    | KExecv => execv_wrapper c files os_stat newname0 errcode0 exists0 buf0 (ec_app a) (ec_own a) (Some (ec_path a)) (ec_argv a)
    | KExecve e => execve_wrapper c files os_stat newname0 errcode0 exists0 buf0 (ec_app a) (ec_own a) (Some (ec_path a)) (ec_argv a) e
    | KExeclp => execlp_wrapper c files os_stat newname0 errcode0 exists0 buf0 (ec_app a) (ec_own a) (Some (ec_path a)) (ec_argv a)
    | KExecvp => execvp_wrapper c files os_stat newname0 errcode0 exists0 buf0 (ec_app a) (ec_own a) (Some (ec_path a)) (ec_argv a)
    | KExecvpe e => execvpe_wrapper c files os_stat newname0 errcode0 exists0 buf0 (ec_app a) (ec_own a) (Some (ec_path a)) (ec_argv a) e
    end);
  mret r.

(** ** What should be executed *)

Definition full (c : client) (path : bytes) : bytes := absolute (cwd c) path.

(** The call as it was made; the program; an interpreter with arguments; a failure, with [errno] when it is set. *)
Inductive outcome := OSame | OCopy | OScript (interp : bytes) (argv : list bytes) | OFail (errno : option Z).

(** A name for the program that is not its own cannot be given to a script. *)
Definition other_name (path : bytes) (argv : list bytes) : bool :=
  match argv with
  | a0 :: _ => negb (bool_decide (a0 = path)) && match strrchr path SLASH with None => true | Some (_, b) => negb (bool_decide (b = a0)) end
  | [] => false
  end.

Definition script_line (file : bytes) : option (list bytes) := line ← read_script_interp (drop 2 file) (MAX_PATH_LEN + 1); parse_interp_args line.

Definition script_name (path : bytes) (argv : list bytes) (found : option bytes) : bytes :=
  match found, argv with
  | Some f, _ => f
  | None, a0 :: _ => if bool_decide (SLASH ∈ a0) then a0 else path
  | None, [] => path
  end.

(** A file that can be read. *)
Definition file_outcome (c : client) (path : bytes) (argv : list bytes) (found : option bytes) (file : bytes) : outcome :=
  if other_name path argv || opt_remapexec c then OSame
  else if is_script file =? -1 then OFail None
  else if is_script file =? 0 then OCopy
  else match script_line file with
    | None | Some [] => OFail None
    | Some (interp :: args) =>
        match real_open W (full c interp) with inl _ => OScript interp (interp :: args ++ script_name path argv found :: drop 1 argv) | inr _ => OFail None end
    end.

(** The program at [path]. *)
Definition program_outcome (c : client) (path : bytes) (argv : list bytes) : outcome :=
  match real_open W (full c path) with
  | inl file => file_outcome c path argv None file
  | inr e => if e =? EACCES then OSame else OFail (Some e)
  end.

Definition runnable (buf : bytes) : bool := may_execute (st_mode buf) && negb (is_dir_mode (st_mode buf)).

(** Whether Spindle goes on in the program. *)
Definition goes_on (c : client) (a : exec_call) : bool := shouldPropogateSpindle c (ec_app a) (ec_envp a) (Some (ec_path a)).

Definition direct_outcome (c : client) (a : exec_call) : outcome :=
  if connected c && use_ldcs c && bool_decide (exec_filter c (ec_path a) = REDIRECT) && goes_on c a then
    match real_stat W false (full c (ec_path a)) with
    | None => OFail (Some ENOENT)
    | Some buf => if runnable buf then program_outcome c (ec_path a) (ec_argv a) else OFail (Some EACCES)
    end
  else OSame.

(** The first directory with a file that can be executed. *)
Fixpoint real_search (c : client) (dirs : list bytes) (file : bytes) (denied : bool) : bytes + Z :=
  match dirs with
  | [] => inr (if denied then EACCES else ENOENT)
  | d :: dirs' =>
      match real_stat W false (full c (joined d file)) with
      | None => real_search c dirs' file denied
      | Some buf => if runnable buf then inl d else real_search c dirs' file true
      end
  end.

Definition search_outcome (c : client) (a : exec_call) : outcome :=
  if connected c && use_ldcs c && goes_on c a then
    match getenv (ec_own a) (lit "PATH") with
    | None => program_outcome c (ec_path a) (ec_argv a)
    | Some dirs =>
        match real_search c (strtok_colon dirs) (ec_path a) false with
        | inr e => OFail (Some e)
        | inl d =>
            match real_open W (full c (joined d (ec_path a))) with
            | inl file => file_outcome c (ec_path a) (ec_argv a) (Some (joined d (ec_path a))) file
            | inr e => if e =? EACCES then OSame else OFail (Some ENOENT)
            end
        end
    end
  else OSame.

Definition exec_outcome (c : client) (a : exec_call) : outcome := if ec_searches a then search_outcome c a else direct_outcome c a.

(** The file that holds the program. *)
Definition program_of (c : client) (a : exec_call) : bytes :=
  if ec_searches a then
    match getenv (ec_own a) (lit "PATH") with
    | None => ec_path a
    | Some dirs => match real_search c (strtok_colon dirs) (ec_path a) false with inl d => joined d (ec_path a) | inr _ => ec_path a end
    end
  else ec_path a.

(** The path and the arguments of a call are as they should be. *)
Definition prepares (c : client) (path prog : bytes) (o : outcome) (p : prepared) : Prop :=
  match o, p with
  | OSame, Prepared newpath None => newpath = to_newpath path
  | OCopy, Prepared newpath None => real_open W (full c newpath) = real_open W (full c prog)
  | OScript interp argv, Prepared newpath (Some argv') => real_open W (full c newpath) = real_open W (full c interp) ∧ argv' = argv
  | OFail e, PrepFailed e' => e' = e
  | OFail (Some e), Prepared newpath None => e = ENOENT ∧ newpath = to_newpath (NOT_FOUND_PREFIX ++ [SLASH] ++ path)
  | _, _ => False
  end.

(** ** Which calls this is about *)

Definition candidate_ok (c : client) (q : bytes) : Prop :=
  is_path (full c q) ∧ s_file S (full c q) ≠ (None, SPINDLE_ENODIR) ∧ s_self S false (full c q) = false ∧
  ∀ file interp args, real_open W (full c q) = inl file → script_line file = Some (interp :: args) → is_path (full c interp).

Definition candidates (a : exec_call) : list bytes :=
  if ec_searches a then match getenv (ec_own a) (lit "PATH") with None => [ec_path a] | Some dirs => (λ d, joined d (ec_path a)) <$> strtok_colon dirs end
  else [ec_path a].

Definition old_tunables (a : exec_call) : option bytes :=
  match ec_envp a with Some e => last_value e (lit "GLIBC_TUNABLES") | None => getenv (ec_own a) (lit "GLIBC_TUNABLES") end.

Definition exec_ok (c : client) (a : exec_call) : Prop :=
  use_cache c = true ∧ Forall (candidate_ok c) (candidates a) ∧ ∀ v, old_tunables a = Some v → Forall entry_ok (strtok_colon v).

(** ** The steps of a call *)

Let HS : replies_ok S := tr_replies _ _ _ HT.

(** A program that does not leave an update open, with [k] accesses. *)
Definition does {R} (c : client) (k n : nat) (P : R → Prop) (p : prog R) : Prop :=
  wp S (cwd c) (λ o m r, (n ≤ m)%nat ∧ o = None ∧ P r) None (n + k) p.

Lemma does_ret {R} c k n (P : R → Prop) r : P r → does c k n P (mret r).
Proof. intros H. unfold does. cbn. split; [lia|done]. Qed.

Lemma does_mono {R} c k k' n (P P' : R → Prop) p : (k ≤ k')%nat → (∀ r, P r → P' r) → does c k n P p → does c k' n P' p.
Proof. intros Hk HP. apply wp_mono; [lia|]. intros o m m' r Hm (H1 & -> & H2). split; [lia|]. auto. Qed.

Lemma does_bind {R T} c k1 k2 n (P : R → Prop) (P' : T → Prop) p f :
  does c k1 (n + k2) P p → (∀ r, P r → does c k2 n P' (f r)) → does c (k1 + k2) n P' (p ≫= f).
Proof.
  intros Hp Hf. unfold does. apply wp_bind. eapply (wp_mono _ _ _ _ _ _ (n + k2 + k1)); [lia| |exact Hp].
  intros o m m' r Hm (H1 & -> & H2). eapply (wp_mono _ _ _ _ _ _ (n + k2)); [lia| |by apply Hf].
  intros o m1 m2 r' Hm1 (H3 & -> & H4). split; [lia|done].
Qed.

Lemma stat_does c path e0 n : use_cache c = true → candidate_ok c path →
  does c 7 n (λ r, match real_stat W false (full c path) with Some buf => r = (true, buf) | None => r.1 = false end) (stat_of c files os_stat buf0 path e0).
Proof.
  intros Hc (Hp & Hd & Hself & _). unfold does, stat_of, get_stat_result. rewrite Hc. apply wp_bind.
  apply (metadata_wp S HS); [done|done|done|]. fold (full c path). intros m Hm. destruct (s_stat S false (full c path)) as [|x l] eqn:E.
  - cbn. split; [done|]. split; [done|]. by rewrite (proj1 (tr_nostat _ _ _ HT _ _ E)).
  - destruct (tr_stat _ _ _ HT false (full c path)) as (st & Hf & Hl & Hr & _); [by rewrite E|]. rewrite E in Hf.
    rewrite (read_stat_file _ _ _ Hf Hl). cbn. by rewrite Hr.
Qed.

(** The local copy of a file. *)
Definition copied_as (c : client) (q : bytes) (newname : option bytes) (e : Z) : Prop :=
  match newname with
  | Some l => e = 0 ∧ to_newpath l = l ∧ full c l = l ∧ ∃ b, files l = Some b ∧ real_open W (full c q) = inl b ∧ real_open W l = inl b
  | None => real_open W (full c q) = inr (if e =? 0 then ENOENT else e)
  end.

Lemma relocate_does c q newname0' e0 n : use_cache c = true → is_path (full c q) →
  does c 7 n (λ r, let '(_, newname, e, _) := r in copied_as c q newname e) (get_relocated_file (use_cache c) (cwd c) q true newname0' e0).
Proof.
  intros Hc Hp. unfold does. rewrite Hc. apply (relocated_wp S HS); [done|]. fold (full c q). intros m d Hm _. destruct (s_file S _) as [[l|] e] eqn:E; cbn.
  - split; [done|]. split; [done|]. destruct (tr_found _ _ _ HT _ _ _ E) as [Hr Hl]. destruct (so_name _ HS _ _ _ E) as [-> [Hlen _]].
    destruct (Hlocal _ _ _ E) as (b & Hb & Ho). split; [done|]. split; [apply take_ge; unfold MAX_PATH_LEN in *; lia|].
    split; [by apply absolute_absolute|]. exists b. by rewrite Hr.
  - split; [done|]. split; [done|]. rewrite (tr_missing _ _ _ HT _ _ E). unfold errno_of, seen.
    destruct (e =? SPINDLE_ENODIR) eqn:Ee; [by rewrite orb_true_r|]. by rewrite orb_false_r.
Qed.

Lemma tls_does c own path pc envp n :
  (∀ v, match envp with Some e => last_value e (lit "GLIBC_TUNABLES") | None => getenv own (lit "GLIBC_TUNABLES") end = Some v → Forall entry_ok (strtok_colon v)) →
  does c 1 n (λ _, True) (calc_static_tls c own path pc envp).
Proof.
  intros Ht. unfold calc_static_tls. destruct (negb _); [by apply does_ret|]. unfold does. cbn [mbind prog_mbind prog_bind wp]. split; [lia|].
  destruct (s_tls S _) as [[size align]|] eqn:E; [|cbn; by split; [lia|]]. destruct (Htls _ _ _ E) as [H1 H2].
  destruct (size =? -1) eqn:Em; [cbn; by split; [lia|]|]. apply Z.eqb_neq in Em. destruct (_ && _); [cbn; by split; [lia|]|].
  destruct (size =? 0); [cbn; by split; [lia|]|].
  destruct (match envp with Some e => _ | None => _ end) as [v|] eqn:Ev; [|cbn; by split; [lia|]].
  destruct (updated_tunables size align v) as (w & -> & _); [lia|lia|by apply Ht|]. cbn. by split; [lia|].
Qed.

(** What [prep_exec] makes of the answer of [adjust_if_script]. *)
Definition script_prepared (c : client) (filepath newname : bytes) (r : script_result) : prepared :=
  let new_argv := match r with Script _ a => Some a | _ => None end in
  if opt_remapexec c then Prepared (to_newpath filepath) new_argv
  else match r with
    | SCRIPT_NOTSCRIPT => Prepared (to_newpath newname) None
    | SCRIPT_ERR | SCRIPT_ENOENT => PrepFailed None
    | SCRIPT_CANTEMULATE => Prepared (to_newpath filepath) None
    | Script interp_name _ => Prepared (to_newpath interp_name) new_argv
    end.

Lemma script_does c path q argv found l b n :
  use_cache c = true → candidate_ok c q → real_open W (full c q) = inl b → files l = Some b → real_open W l = inl b → to_newpath l = l → full c l = l →
  does c 7 n (λ r, prepares c path q (file_outcome c path argv found b) (script_prepared c path l r)) (adjust_if_script c files newname0 errcode0 path l argv found).
Proof.
  intros Hc (_ & _ & _ & Hi) Hq Hl Hr Hn Hf. unfold adjust_if_script, file_outcome, script_prepared. fold (other_name path argv).
  destruct (other_name path argv); [apply does_ret; by destruct (opt_remapexec c)|]. cbn [orb].
  destruct (opt_remapexec c); [by apply does_ret|]. rewrite Hl. destruct (is_script b =? -1); [by apply does_ret|].
  destruct (is_script b =? 0); [apply does_ret; cbn; by rewrite Hn, Hf, Hr, Hq|]. fold (script_line b).
  destruct (script_line b) as [[|interp args]|] eqn:El; [by apply does_ret| |by apply does_ret].
  apply (does_bind c 7 0 n (λ r, let '(_, newname, e, _) := r in copied_as c interp newname e)).
  { replace (n + 0)%nat with n by lia. apply relocate_does; [done|]. by eapply Hi. }
  intros [[[? newname] e] ?] Hcp. destruct newname as [ip|]; cbn [copied_as] in Hcp.
  - destruct Hcp as (_ & Hip & Hfi & bi & _ & Hoi & Hri). apply does_ret. rewrite Hoi. cbn. rewrite Hip, Hfi, Hri. by split.
  - apply does_ret. by rewrite Hcp.
Qed.

Lemma prep_does c own path q argv found pc envp newname e n :
  use_cache c = true → candidate_ok c q → copied_as c q newname e →
  (∀ v, match envp with Some e => last_value e (lit "GLIBC_TUNABLES") | None => getenv own (lit "GLIBC_TUNABLES") end = Some v → Forall entry_ok (strtok_colon v)) →
  does c 8 n (λ r, prepares c path q (match real_open W (full c q) with
    | inl file => file_outcome c path argv found file
    | inr e => if e =? EACCES then OSame else OFail (Some e) end) r.1) (prep_exec c files newname0 errcode0 own path argv newname e found pc envp).
Proof.
  intros Hc Hq Hcp Ht. unfold prep_exec. destruct newname as [l|]; cbn [copied_as] in Hcp.
  - destruct Hcp as (-> & Hn & Hf & b & Hl & Ho & Hr). cbn [Z.eqb EACCES negb]. apply (does_bind c 1 7 n (λ _, True)); [by apply tls_does|].
    intros v _. apply (does_bind c 7 0 n (λ r, prepares c path q (file_outcome c path argv found b) (script_prepared c path l r))).
    { replace (n + 0)%nat with n by lia. by apply script_does. }
    intros r Hp. unfold script_prepared in Hp. rewrite Ho. destruct (opt_remapexec c); by apply does_ret.
  - rewrite Hcp. destruct (e =? EACCES) eqn:E1.
    + apply Z.eqb_eq in E1 as ->. by apply does_ret.
    + destruct (e =? 0) eqn:E2; cbn [negb]; [by apply does_ret|]. apply does_ret. cbn. rewrite E1. done.
Qed.

Lemma direct_does c a n : exec_ok c a → ec_searches a = false →
  does c 22 n (λ r, prepares c (ec_path a) (ec_path a) (direct_outcome c a) r.1.1 ∧ r.1.2 = goes_on c a)
    (find_exec c files os_stat newname0 errcode0 exists0 buf0 (ec_app a) (ec_own a) (Some (ec_path a)) (ec_argv a) (ec_envp a)).
Proof.
  intros (Hc & Hcand & Ht) Hs. unfold candidates in Hcand. rewrite Hs in Hcand. apply Forall_cons in Hcand as [Hq _]. unfold find_exec, direct_outcome. fold (goes_on c a).
  destruct (connected c), (use_ldcs c), (bool_decide (exec_filter c (ec_path a) = REDIRECT)), (goes_on c a);
    cbn [negb orb andb]; try (by apply does_ret).
  apply (does_bind c 7 15 n _ _ _ _ (stat_does c (ec_path a) exists0 (n + 15) Hc Hq)). intros [ex buf]. destruct (real_stat W false _) as [buf'|].
  - intros [= -> ->]. cbn [negb]. unfold runnable. destruct (may_execute (st_mode buf')); cbn [negb andb]; [|by apply does_ret].
    destruct (is_dir_mode (st_mode buf')); cbn [negb]; [by apply does_ret|].
    apply (does_bind c 7 8 n _ _ _ _ (relocate_does c (ec_path a) None errcode0 (n + 8) Hc (proj1 Hq))). intros [[[? newname] e] ?] Hcp.
    apply (does_bind c 8 0 n _ _ _ _ (prep_does c (ec_own a) (ec_path a) (ec_path a) (ec_argv a) None None (ec_envp a) newname e (n + 0) Hc Hq Hcp Ht)).
    intros [p own] Hp. by apply does_ret.
  - cbn. intros ->. by apply does_ret.
Qed.

Lemma search_does c file dirs n : use_cache c = true → Forall (candidate_ok c) ((λ d, joined d file) <$> dirs) → ∀ denied,
  does c (7 * length dirs) n (λ r, r = real_search c dirs file denied) (search_path c files os_stat buf0 dirs file denied).
Proof.
  intros Hc. induction dirs as [|d dirs IH]; intros Hd denied; [by apply does_ret|]. apply Forall_cons in Hd as [Hq Hd]. cbn [search_path real_search].
  replace (7 * length (d :: dirs))%nat with (7 + 7 * length dirs)%nat by (cbn [length]; lia).
  apply (does_bind c 7 _ n _ _ _ _ (stat_does c (joined d file) 0 _ Hc Hq)). intros [ex buf]. destruct (real_stat W false _) as [buf'|].
  - intros [= -> ->]. cbn [negb]. unfold runnable. destruct (is_dir_mode (st_mode buf')); [rewrite andb_false_r; by apply IH|]. rewrite andb_true_r.
    destruct (may_execute (st_mode buf')); cbn [negb]; [by apply does_ret|by apply IH].
  - cbn. intros ->. by apply IH.
Qed.

Lemma search_found c dirs file denied d : real_search c dirs file denied = inl d → d ∈ dirs.
Proof.
  revert denied. induction dirs as [|d' dirs IH]; intros denied; cbn; [done|]. destruct (real_stat W false _) as [buf|]; [destruct (runnable buf)|].
  - intros [= ->]. left.
  - intros H. right. by eapply IH.
  - intros H. right. by eapply IH.
Qed.

(** The accesses of a call. *)
Definition exec_cost (a : exec_call) : nat := (7 * length (candidates a) + 22)%nat.

(** The outcome of a search that is made. *)
Definition searched_outcome (c : client) (a : exec_call) : outcome :=
  match getenv (ec_own a) (lit "PATH") with
  | None => program_outcome c (ec_path a) (ec_argv a)
  | Some dirs =>
      match real_search c (strtok_colon dirs) (ec_path a) false with
      | inr e => OFail (Some e)
      | inl d =>
          match real_open W (full c (joined d (ec_path a))) with
          | inl file => file_outcome c (ec_path a) (ec_argv a) (Some (joined d (ec_path a))) file
          | inr e => if e =? EACCES then OSame else OFail (Some ENOENT)
          end
      end
  end.

(** What [exec_pathsearch] finds. *)
Definition finds (c : client) (a : exec_call) (r : searched + Z) : Prop :=
  match r with
  | inr e => searched_outcome c a = OFail (Some e)
  | inl s =>
      errcode s = EACCES ∧ searched_outcome c a = OSame ∨
      candidate_ok c (program_of c a) ∧ copied_as c (program_of c a) (reloc_exec s) (errcode s) ∧
      searched_outcome c a = match real_open W (full c (program_of c a)) with
        | inl file => file_outcome c (ec_path a) (ec_argv a) (orig_file_abspath s) file
        | inr e => if e =? EACCES then OSame else OFail (Some e)
        end
  end.

Lemma pathsearch_does c a n : exec_ok c a → ec_searches a = true →
  does c (7 * length (candidates a) + 7) n (finds c a) (exec_pathsearch c files os_stat errcode0 buf0 (getenv (ec_own a) (lit "PATH")) (ec_path a)).
Proof.
  intros (Hc & Hcand & _) Hs. assert (no_search (ec_path a) = false) as Hno by (unfold ec_searches in Hs; destruct (ec_kind a); try done; by destruct (no_search _)).
  unfold exec_pathsearch, finds, searched_outcome, program_of, find_path_component, candidates in *. rewrite Hs, Hno in *.
  destruct (getenv (ec_own a) (lit "PATH")) as [dirs|].
  - rewrite length_fmap. apply (does_bind c _ 7 n (λ r, r = match real_search c (strtok_colon dirs) (ec_path a) false with inl d => inl d | inr e => inr (Some e) end)).
    { replace (7 * length (strtok_colon dirs))%nat with (7 * length (strtok_colon dirs) + 0)%nat by lia.
      apply (does_bind c _ 0 _ (λ r, r = real_search c (strtok_colon dirs) (ec_path a) false)); [by apply search_does|]. intros r ->. by apply does_ret. }
    intros r ->. destruct (real_search c _ _ false) as [d|e] eqn:Ed; [|by apply does_ret].
    assert (candidate_ok c (joined d (ec_path a))) as Hq.
    { rewrite Forall_fmap, Forall_forall in Hcand. apply Hcand. by eapply search_found. }
    apply (does_bind c 7 0 n _ _ _ _ (relocate_does c (joined d (ec_path a)) None errcode0 (n + 0) Hc (proj1 Hq))). intros [[[? newname] e] ?] Hcp.
    destruct newname as [l|].
    + apply does_ret. right. split; [done|]. split; [done|]. cbn [copied_as] in Hcp. destruct Hcp as (_ & _ & _ & b & _ & -> & _). done.
    + cbn [copied_as] in Hcp. rewrite Hcp. destruct (e =? EACCES) eqn:Ee; apply does_ret.
      * apply Z.eqb_eq in Ee as ->. by left.
      * destruct (e =? 0); [done|]. by rewrite Ee.
  - apply Forall_cons in Hcand as [Hq _]. eapply (does_mono c (7 + 0)); [cbn; lia|intros r Hr; exact Hr|].
    apply (does_bind c 7 0 n _ _ _ _ (relocate_does c (ec_path a) None errcode0 (n + 0) Hc (proj1 Hq))). intros [[[? newname] e] ?] Hcp.
    apply does_ret. right. by split.
Qed.

Lemma lookup_does c a n : exec_ok c a → ec_searches a = true →
  does c (exec_cost a) n (λ r, prepares c (ec_path a) (program_of c a) (search_outcome c a) r.1.1 ∧ r.1.2 = goes_on c a)
    (find_exec_pathsearch c files os_stat newname0 errcode0 exists0 buf0 (ec_app a) (ec_own a) (Some (ec_path a)) (ec_argv a) (ec_envp a)).
Proof.
  intros Hok Hs. assert (no_search (ec_path a) = false) as Hno by (unfold ec_searches in Hs; destruct (ec_kind a); try done; by destruct (no_search _)).
  unfold find_exec_pathsearch, search_outcome. rewrite Hno. fold (goes_on c a).
  destruct (connected c), (use_ldcs c), (goes_on c a); cbn [negb orb andb]; try (by apply does_ret).
  fold (searched_outcome c a). unfold exec_cost. replace (7 * length (candidates a) + 22)%nat with (7 * length (candidates a) + 7 + 15)%nat by lia.
  apply (does_bind c _ 15 n _ _ _ _ (pathsearch_does c a _ Hok Hs)). intros [s|e] Hf; cbn [finds] in Hf; [|rewrite Hf; by apply does_ret].
  destruct Hok as (Hc & _ & Ht). destruct Hf as [[He ->]|(Hq & Hcp & ->)].
  - unfold prep_exec. rewrite He. by apply does_ret.
  - eapply (does_mono c (8 + 0)); [lia|intros r Hr; exact Hr|].
    apply (does_bind c 8 0 n _ _ _ _ (prep_does c (ec_own a) (ec_path a) _ (ec_argv a) (orig_file_abspath s) (sr_path_component s) (ec_envp a) _ _ (n + 0) Hc Hq Hcp Ht)).
    intros [p own] Hp. by apply does_ret.
Qed.

(** ** Executing *)

(** The call of the C library that belongs to a call of the application, with a path and arguments; an environment that is
    passed is that of [updateEnvironment]. *)
Definition calls (c : client) (a : exec_call) (r : exec_action) (path : bytes) (argv : list bytes) : Prop :=
  let updated e envp := ∃ own num, updateEnvironment (ec_app a) own envp (goes_on c a) = Some (e, num) in
  match ec_kind a, r with
  | KExecv, CallExecv p v | KExeclp, CallExecv p v | KExecvp, CallExecvp p v => (p, v) = (path, argv)
  | KExecve envp, CallExecve p v e | KExecvpe envp, CallExecvpe p v e => (p, v) = (path, argv) ∧ updated e envp
  | _, _ => False
  end.

Definition exec_spec (c : client) (a : exec_call) (r : exec_action) : Prop :=
  match exec_outcome c a with
  | OSame => calls c a r (to_newpath (ec_path a)) (ec_argv a)
  | OCopy => ∃ p, calls c a r p (ec_argv a) ∧ real_open W (full c p) = real_open W (full c (program_of c a))
  | OScript interp argv => ∃ p, calls c a r p argv ∧ real_open W (full c p) = real_open W (full c interp)
  | OFail e => r = ExecFailed e ∨ e = Some ENOENT ∧ calls c a r (to_newpath (NOT_FOUND_PREFIX ++ [SLASH] ++ ec_path a)) (ec_argv a)
  end.

Lemma prepares_spec c a p r :
  prepares c (ec_path a) (program_of c a) (exec_outcome c a) p →
  match p with PrepFailed e => r = ExecFailed e | Prepared newpath new_argv => calls c a r newpath (default (ec_argv a) new_argv) end → exec_spec c a r.
Proof.
  intros Hp Hr. unfold exec_spec. destruct (exec_outcome c a) as [| |interp argv|[e|]], p as [e'|newpath [argv'|]]; cbn in Hp, Hr; try done.
  - by subst newpath.
  - by exists newpath.
  - destruct Hp as [Hp ->]. by exists newpath.
  - left. by subst.
  - destruct Hp as [-> ->]. by right.
  - left. by subst.
Qed.

Lemma finding_does c a n (find : prog (prepared * bool * env)) :
  exec_ok c a → find = (if ec_searches a then find_exec_pathsearch else find_exec) c files os_stat newname0 errcode0 exists0 buf0 (ec_app a) (ec_own a) (Some (ec_path a)) (ec_argv a) (ec_envp a) →
  does c (exec_cost a) n (λ r, prepares c (ec_path a) (program_of c a) (exec_outcome c a) r.1.1 ∧ r.1.2 = goes_on c a) find.
Proof.
  intros Hok ->. unfold exec_outcome. destruct (ec_searches a) eqn:Es; [by apply lookup_does|].
  unfold program_of. rewrite Es. eapply (does_mono c 22); [unfold exec_cost; lia|intros r Hr; exact Hr|]. by apply direct_does.
Qed.

(** A call once the program is found. *)
Definition found_ok (c : client) (a : exec_call) (n : nat) (found : prog (prepared * bool * env)) : Prop :=
  does c (exec_cost a) n (λ r, prepares c (ec_path a) (program_of c a) (exec_outcome c a) r.1.1 ∧ r.1.2 = goes_on c a) found.

Lemma inherit_does c a n found k : found_ok c a (n + 0) found → (∀ p v, calls c a (k p v) p v) →
  does c (exec_cost a + 0) n (λ r, exec_spec c a r.1.1) (inherit (ec_app a) found (ec_argv a) k).
Proof.
  intros Hf Hk. eapply does_bind; [exact Hf|]. intros [[p prop] own] [Hp _]. destruct p as [e|newpath new_argv]; apply does_ret; (eapply prepares_spec; [exact Hp|]); [done|apply Hk].
Qed.

Lemma with_env_does c a n found k : found_ok c a (n + 0) found →
  (∀ p v e own num, updateEnvironment (ec_app a) own (ec_envp a) (goes_on c a) = Some (e, num) → calls c a (k p v e) p v) →
  does c (exec_cost a + 0) n (λ r, exec_spec c a r.1.1) (with_env (ec_app a) (ec_envp a) found (ec_argv a) k).
Proof.
  intros Hf Hk. eapply does_bind; [exact Hf|]. intros [[p prop] own] [Hp Hprop]. cbn in Hprop. subst prop.
  destruct p as [e|newpath new_argv]; [apply does_ret; by eapply prepares_spec|].
  destruct (updated_environment (ec_app a) own (ec_envp a) (goes_on c a)) as (e & num & E & _). rewrite E. apply does_ret. eapply prepares_spec; [done|]. cbn. by eapply Hk.
Qed.

Lemma exec_does c a n : exec_ok c a → does c (exec_cost a) n (exec_spec c a) (exec_prog c a).
Proof.
  intros Hok. unfold exec_prog. replace (exec_cost a) with (exec_cost a + 0 + 0)%nat by lia.
  apply (does_bind c _ 0 n (λ r, exec_spec c a r.1.1)); [|intros [[r app'] own'] Hr; by apply does_ret].
  pose proof (λ find, finding_does c a (n + 0 + 0) find Hok) as Hfind. fold (found_ok c a (n + 0 + 0)) in Hfind.
  pose proof (λ found k, inherit_does c a (n + 0) found k) as Hinh. pose proof (λ found k, with_env_does c a (n + 0) found k) as Henv.
  destruct a as [kind app own path argv]. unfold ec_searches, ec_envp, calls in *. destruct kind as [|envp| | |envp]; cbn [ec_kind ec_app ec_own ec_path ec_argv] in *.
  - apply Hinh; [by apply Hfind|done].
  - apply Henv; [by apply Hfind|]. intros p v e own' num E. split; [done|]. by eexists _, _.
  - apply Hinh; [|done]. apply Hfind. destruct (no_search path) eqn:E; cbn [negb]; [|done]. unfold find_exec_pathsearch. by rewrite E.
  - apply Hinh; [|done]. apply Hfind. destruct (no_search path) eqn:E; cbn [negb]; [|done]. unfold find_exec_pathsearch. by rewrite E.
  - apply Henv; [apply Hfind; destruct (no_search path) eqn:E; cbn [negb]; [unfold find_exec_pathsearch; by rewrite E|done]|]. intros p v e own' num E. split; [done|]. by eexists _, _.
Qed.

(** ** Theorem *)

Definition exec_procs (Q : gmap nat (client * exec_call)) : gmap nat (bytes * prog exec_action) := (λ ca, (cwd ca.1, exec_prog ca.1 ca.2)) <$> Q.
Definition exec_good (Q : gmap nat (client * exec_call)) (pid : nat) (r : exec_action) : Prop := ∃ c a, Q !! pid = Some (c, a) ∧ exec_spec c a r.
Definition exec_accesses (Q : gmap nat (client * exec_call)) (pid : nat) : nat := match Q !! pid with Some (_, a) => exec_cost a | None => 0%nat end.

Lemma exec_procs_wp Q pid cwd p : (∀ pid c a, Q !! pid = Some (c, a) → exec_ok c a) → exec_procs Q !! pid = Some (cwd, p) →
  wp S cwd (post (exec_good Q) pid) None (exec_accesses Q pid) p.
Proof.
  intros Hq. unfold exec_procs, exec_accesses. rewrite lookup_fmap. destruct (Q !! pid) as [[c a]|] eqn:E; [|done]. cbn [fmap option_fmap option_map fst snd]. intros [= <- <-].
  eapply wp_mono; [reflexivity| |apply (exec_does c a 0); by eapply Hq]. intros o m m' r _ (_ & -> & Hr). split; [done|]. by eexists _, _.
Qed.


End exec.

(** ** Examples *)

Section examples.
#[local] Existing Instance demo_heap.

(** A script [/d/s] and its interpreter [/d/i], with local copies below [/c]. *)
Definition is_s (p : bytes) : bool := bool_decide (p = lit "/d/s") || bool_decide (p = lit "/c/s").
Definition is_i (p : bytes) : bool := bool_decide (p = lit "/d/i") || bool_decide (p = lit "/c/i").
Definition s_text : bytes := lit "#!/d/i -x" ++ [NEWLINE].
Definition i_text : bytes := lit "interpreter".
(** A file with mode 0755. *)
Definition program_stat : extended_stat_t := mk_stat (repeat NUL 24 ++ le32 33261 ++ repeat NUL 116) 0 0 [].
Definition exec_world : world :=
  mk_world (λ p, if is_s p then inl s_text else if is_i p then inl i_text else inr ENOENT) (λ p, is_s p || is_i p)
    (λ l p, if negb l && (is_s p || is_i p) then Some (stat_buf program_stat) else None) (λ _, inr ENOENT).
Definition exec_replies : replies :=
  mk_replies (λ p, if is_s p then (Some (lit "/c/s"), 0) else if is_i p then (Some (lit "/c/i"), 0) else (None, ENOENT)) (λ _ _, false)
    (λ l p, if negb l && (is_s p || is_i p) then lit "/m" else []) (λ p, is_s p || is_i p) (λ _, None) (λ _, None) (λ _, None).
Definition exec_files (p : bytes) : option bytes :=
  if bool_decide (p = lit "/c/s") then Some s_text else if bool_decide (p = lit "/c/i") then Some i_text
  else if bool_decide (p = lit "/m") then Some (stat_file program_stat) else None.

Lemma exec_truthful : truthful exec_world exec_files exec_replies.
Proof.
  split.
  - split; cbn.
    + intros p n e. destruct (is_s p); [|destruct (is_i p); [|done]]; intros [= <- <-]; (split; [done|]); (split; [unfold MAX_PATH_LEN; cbn; lia|done]).
    + intros p e. destruct (is_s p); [done|]. destruct (is_i p); [done|]. intros [= <-]. unfold ENOENT. lia.
    + intros p p'. destruct (is_s p); [done|]. by destruct (is_i p).
    + intros b p. destruct (_ && _); (split; [unfold MAX_PATH_LEN; cbn; lia|done]).
  - intros p l e. cbn. destruct (is_s p); [by intros [= <- <-]|]. destruct (is_i p); [by intros [= <- <-]|done].
  - intros p e. cbn. destruct (is_s p); [done|]. destruct (is_i p); [done|]. by intros [= <-].
  - done.
  - intros b p. cbn. destruct (_ && _); [done|]. intros _. by split.
  - intros b p. cbn. destruct b; cbn; [done|]. destruct (is_s p || is_i p); [|done]. intros _. exists program_stat. by split_and!.
Qed.

Lemma exec_copies p l e : s_file exec_replies p = (Some l, e) → ∃ b, exec_files l = Some b ∧ real_open exec_world p = inl b.
Proof. cbn. destruct (is_s p); [intros [= <- <-]; by exists s_text|]. destruct (is_i p); [intros [= <- <-]; by exists i_text|done]. Qed.

Definition exec_calls : gmap nat (client * exec_call) :=
  {[ 0%nat := (demo_client, mk_exec_call KExecvp [] [lit "PATH=/n:/d"] (lit "s") [lit "s"; lit "a"]);
     1%nat := (demo_client, mk_exec_call KExecv [] [] (lit "/d/i") [lit "/d/i"]) ]}.

Lemma demo_candidate q : bool_decide (q ∈ [lit "/n/s"; lit "/d/s"; lit "/d/i"]) = true → candidate_ok exec_world exec_replies demo_client q.
Proof.
  intros H%bool_decide_eq_true. assert (∀ q, bool_decide (q ∈ [lit "/n/s"; lit "/d/s"; lit "/d/i"]) = true → is_path q) as Hp.
  { intros q' H'%bool_decide_eq_true. set_unfold in H'. destruct H' as [-> |[-> |[-> |[]]]]; (split; [by eexists|unfold MAX_PATH_LEN; cbn; lia]). }
  set_unfold in H. destruct H as [-> |[-> |[-> |[]]]]; (split; [by apply Hp|]); (split; [done|]); (split; [done|]); intros file interp args Hf Hs.
  - done.
  - injection Hf as <-. vm_compute in Hs. injection Hs as <- <-. by apply (Hp (lit "/d/i")).
  - injection Hf as <-. by vm_compute in Hs.
Qed.

Lemma exec_calls_ok pid c a : exec_calls !! pid = Some (c, a) → exec_ok exec_world exec_replies c a.
Proof.
  unfold exec_calls. rewrite lookup_insert_Some. intros [[_ [= <- <-]]|[_ H]]; [|apply lookup_singleton_Some in H as [_ [= <- <-]]].
  - split; [done|]. split; [|intros v Hv; by vm_compute in Hv].
    change (candidates _) with [lit "/n/s"; lit "/d/s"]. constructor; [by apply demo_candidate|]. constructor; [by apply demo_candidate|constructor].
  - split; [done|]. split; [|intros v Hv; by vm_compute in Hv]. constructor; [by apply demo_candidate|constructor].
Qed.

Definition exec_demo (schedule : list nat) (pid : nat) : option exec_action :=
  s ← demo_cache; st ← run exec_replies schedule (s, start_procs (exec_procs exec_files (λ _, None) None 0 0 [] exec_calls)); results_of st pid.
Definition script_started : exec_action := CallExecvp (lit "/c/i") [lit "/d/i"; lit "-x"; lit "/d/s"; lit "a"].


End examples.

(** ** What goes wrong *)

(** [SPINDLE=0] in an environment that is passed does not keep Spindle from the program. *)
Lemma spindle_zero_ignored c fname : isExecExcluded c fname = false → shouldPropogateSpindle c [] (Some [lit "SPINDLE=0"]) fname = true.
Proof. intros H. unfold shouldPropogateSpindle. by rewrite H. Qed.

(** [execlp] of a program that is not redirected is made without a search in [PATH]. *)
Lemma execlp_not_searched c files os_stat newname0 errcode0 exists0 buf0 app own argv :
  connected c = false → shouldPropogateSpindle c app None (Some (lit "ls")) = true →
  execlp_wrapper c files os_stat newname0 errcode0 exists0 buf0 app own (Some (lit "ls")) argv = Ret (CallExecv (lit "ls") argv, app, own).
Proof. intros H1 H2. unfold execlp_wrapper, inherit, find_exec_pathsearch. rewrite H1, H2. reflexivity. Qed.

(** A path with a slash that does not begin with a slash or a period is searched in [PATH]. *)
Lemma relative_searched : no_search (lit "bin/prog") = false.
Proof. reflexivity. Qed.

(** The words of the first line of a script become arguments of their own; a script that ends with its first line is not executed. *)
Lemma script_words : script_line (lit "#!/bin/i -a b" ++ [NEWLINE]) = Some [lit "/bin/i"; lit "-a"; lit "b"] ∧ script_line (lit "#!/bin/sh") = None.
Proof. split; by vm_compute. Qed.

(** After a failure the lists of the server are taken for empty. *)
Lemma failed_lists_empty parse : let '(d, r) := get_dirlists parse None (mk_dirlists false None None) in
  r = None ∧ ∀ reply, (get_dirlists parse reply d).2 = Some (None, None).
Proof. done. Qed.

End ExecProcs.
