(* ===== verification/Exit.v ===== *)
(** * Shutting down

    A server that has no clients any more, and whose children in the tree are
    ready to exit, tells its parent so (EXIT_READY); a server that has told so
    and gets a new client takes it back (EXIT_CANCEL).  When the root is ready it
    broadcasts EXIT.  The handlers are those of
    [ldcs_audit_server_handlers.c]; they run on the ranks of a tree, over
    first-in first-out links.

    The protocol is right as long as no client starts at a server that has said
    it is ready: the servers exit when, and only when, all clients have ended.  A
    client that starts later breaks it, because [handle_client_start] does not
    reset [sent_exit_ready]. *)

From Stdlib Require Import ZArith Lia.
From stdpp Require Import numbers sets list gmap.
From S2P Require Import Prelude Requestors Cobo.

Module Exit.

(** ** A server *)

Record xserver := mk_xserver {
  clients_live : Z;
  sent_exit_ready : bool;
  exit_readys_recvd : Z;
  num_exited_parents : Z;
  num_exited_children_peers : Z;
  exit_note_done : bool;
  exit_on_client_close : bool;
  exited : bool;                  (** [mark_exit] has been called *)
}.

Definition set_live (n : Z) (s : xserver) : xserver :=
  mk_xserver n (sent_exit_ready s) (exit_readys_recvd s) (num_exited_parents s) (num_exited_children_peers s)
    (exit_note_done s) (exit_on_client_close s) (exited s).
Definition set_sent (b : bool) (s : xserver) : xserver :=
  mk_xserver (clients_live s) b (exit_readys_recvd s) (num_exited_parents s) (num_exited_children_peers s)
    (exit_note_done s) (exit_on_client_close s) (exited s).
Definition set_readys (n : Z) (s : xserver) : xserver :=
  mk_xserver (clients_live s) (sent_exit_ready s) n (num_exited_parents s) (num_exited_children_peers s)
    (exit_note_done s) (exit_on_client_close s) (exited s).
Definition set_note (s : xserver) : xserver :=
  mk_xserver (clients_live s) (sent_exit_ready s) (exit_readys_recvd s) (num_exited_parents s)
    (num_exited_children_peers s) true (exit_on_client_close s) (exited s).
Definition set_close (s : xserver) : xserver :=
  mk_xserver (clients_live s) (sent_exit_ready s) (exit_readys_recvd s) (num_exited_parents s)
    (num_exited_children_peers s) (exit_note_done s) true (exited s).
Definition mark_exit (s : xserver) : xserver :=
  mk_xserver (clients_live s) (sent_exit_ready s) (exit_readys_recvd s) (num_exited_parents s)
    (num_exited_children_peers s) (exit_note_done s) (exit_on_client_close s) true.

Inductive xmsg := EXIT_READY | EXIT_CANCEL.

(** What a server sends: to its parent, to the front end, to all its children. *)
Inductive xout := XParent (m : xmsg) | XFrontend (m : xmsg) | XExit.

(** The options, the number of children, and whether this is the root. *)
Record xconfig := mk_xconfig {
  opt_persist : bool;
  opt_beexit : bool;
  num_children : Z;
  is_root : bool;
}.

Section handlers.
Variable cfg : xconfig.

Definition handle_exit_broadcast (s : xserver) : xserver * list xout := (mark_exit s, [XExit]).

Definition handle_send_exit_ready_if_done (s : xserver) : xserver * list xout :=
  if opt_persist cfg && negb (exit_on_client_close s) then (s, [])
  else if sent_exit_ready s && (num_exited_parents s =? 0) then (s, [])
  else if 0 <? clients_live s then (s, [])
  else if opt_beexit cfg && negb (exit_note_done s) && negb (exit_on_client_close s) then (s, [])
  else
    let n := if num_exited_children_peers s <? num_children cfg
             then num_children cfg - num_exited_children_peers s else 0 in
    if (exit_readys_recvd s <? n) && negb (exit_on_client_close s) then (s, [])
    else
      let s1 := set_sent true s in
      if is_root cfg then
        let '(s2, o) := handle_exit_broadcast s1 in (s2, XFrontend EXIT_READY :: o)
      else (s1, [XParent EXIT_READY]).

Definition handle_exit_ready_msg (s : xserver) : xserver * list xout :=
  handle_send_exit_ready_if_done (set_readys (exit_readys_recvd s + 1) s).

(** [None] is the failing [assert]. *)
Definition handle_send_exit_cancel (s : xserver) : option (list xout) :=
  if sent_exit_ready s then Some (if is_root cfg then [] else [XParent EXIT_CANCEL]) else None.

Definition handle_exit_cancel_msg (s : xserver) : option (xserver * list xout) :=
  if 0 <? exit_readys_recvd s then
    let s1 := set_readys (exit_readys_recvd s - 1) s in
    if sent_exit_ready s1 then o ← handle_send_exit_cancel s1; Some (set_sent false s1, o)
    else Some (s1, [])
  else None.

(** [_ldcs_server_CB] counts the client, then calls [handle_client_start]. *)
Definition handle_client_start (s : xserver) : option (xserver * list xout) :=
  let s1 := set_live (clients_live s + 1) s in
  if sent_exit_ready s1 then o ← handle_send_exit_cancel s1; Some (s1, o) else Some (s1, []).

(** [active] is the state of the client's slot. *)
Definition handle_client_end (active : bool) (s : xserver) : option (xserver * list xout) :=
  if negb active then Some (s, [])
  else if 0 <? clients_live s then Some (handle_send_exit_ready_if_done (set_live (clients_live s - 1) s)) else None.

Definition exit_note_cb (s : xserver) : xserver * list xout := handle_send_exit_ready_if_done (set_note s).

Definition set_exit_on_client_close (s : xserver) : xserver * list xout :=
  handle_send_exit_ready_if_done (set_close s).

Definition handle_server_error (parent : bool) (s : xserver) : xserver :=
  if parent then mk_xserver (clients_live s) (sent_exit_ready s) (exit_readys_recvd s) (num_exited_parents s + 1)
    (num_exited_children_peers s) (exit_note_done s) (exit_on_client_close s) (exited s)
  else mk_xserver (clients_live s) (sent_exit_ready s) (exit_readys_recvd s) (num_exited_parents s)
    (num_exited_children_peers s + 1) (exit_note_done s) (exit_on_client_close s) (exited s).

End handlers.

(** ** The tree *)

Section tree.
Context {T : RankTree}.

Definition config_of (r : Z) : xconfig := mk_xconfig false false (Z.of_nat (length (rt_children r))) (r =? 0).

(** Messages to parents, by their sender, and EXIT messages to children, oldest first;
    [fe] counts the messages to the front end. *)
Record sys := mk_sys {
  servers : Z → xserver;
  up : list (Z * xmsg);
  down : list Z;
  fe : nat;
}.

Definition put (S : sys) (r : Z) (s : xserver) (o : list xout) (u : list (Z * xmsg)) (d : list Z) : sys :=
  mk_sys (λ i, if decide (i = r) then s else servers S i)
    (u ++ omap (λ x, match x with XParent m => Some (r, m) | _ => None end) o)
    (d ++ (o ≫= λ x, match x with XExit => rt_children r | _ => [] end))
    (fe S + length (List.filter (λ x, match x with XFrontend _ => true | _ => false end) o))%nat.

(** The first message of [c] in the list, and the list without it. *)
Fixpoint take_first (c : Z) (l : list (Z * xmsg)) : option (xmsg * list (Z * xmsg)) :=
  match l with
  | [] => None
  | (c', m) :: l' =>
      if decide (c' = c) then Some (m, l')
      else '(m', l'') ← take_first c l'; Some (m', (c', m) :: l'')
  end.

Inductive label := Start (r : Z) | End_ (r : Z) | Up (c : Z) | Down (c : Z).

(** The step with a label: [Fault] is a failing [assert].  A server that has called
    [mark_exit] leaves its loop. *)
Inductive result := Next (S : sys) | Disabled | Fault.

Definition next (S : sys) (r : Z) (x : option (xserver * list xout)) (u : list (Z * xmsg)) (d : list Z) : result :=
  match x with Some (s, o) => Next (put S r s o u d) | None => Fault end.

Definition runs (S : sys) (r : Z) : Prop := 0 <= r < rt_size ∧ exited (servers S r) = false.

Definition exec (S : sys) (l : label) : result :=
  match l with
  | Start r =>
      if decide (runs S r) then next S r (handle_client_start (config_of r) (servers S r)) (up S) (down S)
      else Disabled
  | End_ r =>
      if decide (runs S r ∧ 0 < clients_live (servers S r)) then
        next S r (handle_client_end (config_of r) true (servers S r)) (up S) (down S)
      else Disabled
  | Up c =>
      let p := rt_parent c in
      if decide (runs S p) then
        match take_first c (up S) with
        | Some (EXIT_READY, u) => next S p (Some (handle_exit_ready_msg (config_of p) (servers S p))) u (down S)
        | Some (EXIT_CANCEL, u) => next S p (handle_exit_cancel_msg (config_of p) (servers S p)) u (down S)
        | None => Disabled
        end
      else Disabled
  | Down c =>
      if decide (runs S c ∧ c ∈ down S) then
        next S c (Some (handle_exit_broadcast (servers S c))) (up S) (remove Z.eq_dec c (down S))
      else Disabled
  end.

Definition init (S : sys) : Prop :=
  (∀ r, servers S r = mk_xserver 0 false 0 0 0 false false false) ∧ up S = [] ∧ down S = [] ∧ fe S = 0%nat.

(** No client starts at a server that has said that it is ready. *)
Definition orderly (S : sys) (l : label) : Prop :=
  match l with Start r => sent_exit_ready (servers S r) = false | _ => True end.

(** The servers that have had a client, along a run. *)
Inductive reach : sys → (Z → Prop) → Prop :=
  | reach_init S : init S → reach S (λ _, False)
  | reach_step S used l S' : reach S used → orderly S l → exec S l = Next S' →
      reach S' (λ r, used r ∨ l = End_ r).

(** ** The invariant of orderly runs *)

(** The children of [r] whose message has arrived. *)
Definition arrived (sv : Z → xserver) (u : list (Z * xmsg)) (r : Z) : list Z :=
  filter (λ c, sent_exit_ready (sv c) = true ∧ c ∉ u.*1) (rt_children r).

(** [skip] are servers that still have to check whether they are ready. *)
Record inv (skip : Z → Prop) (used : Z → Prop) (sv : Z → xserver) (u : list (Z * xmsg)) (d : list Z) (n : nat)
    : Prop := mk_inv {
  inv_up c m : (c, m) ∈ u → m = EXIT_READY ∧ 0 < c < rt_size ∧ sent_exit_ready (sv c) = true;
  inv_once : NoDup u.*1;
  inv_count r : 0 <= r < rt_size → exit_readys_recvd (sv r) = Z.of_nat (length (arrived sv u r));
  inv_fields r : num_exited_parents (sv r) = 0 ∧ num_exited_children_peers (sv r) = 0 ∧
    exit_note_done (sv r) = false ∧ exit_on_client_close (sv r) = false ∧ 0 <= clients_live (sv r);
  inv_sent r : 0 <= r < rt_size → sent_exit_ready (sv r) = true →
    clients_live (sv r) = 0 ∧ Z.of_nat (length (rt_children r)) <= exit_readys_recvd (sv r);
  inv_ready r : 0 <= r < rt_size → ¬ skip r → clients_live (sv r) = 0 →
    Z.of_nat (length (rt_children r)) <= exit_readys_recvd (sv r) → used r ∨ rt_children r ≠ [] →
    sent_exit_ready (sv r) = true;
  inv_root : sent_exit_ready (sv 0) = exited (sv 0);
  inv_fe : n = if exited (sv 0) then 1%nat else 0%nat;
  inv_told r c : 0 <= r < rt_size → exited (sv r) = true → c ∈ rt_children r → c ∈ d ∨ exited (sv c) = true;
  inv_down c : c ∈ d → 0 < c < rt_size ∧ exited (sv (rt_parent c)) = true;
  inv_from r : 0 < r < rt_size → exited (sv r) = true → exited (sv (rt_parent r)) = true;
}.

Definition upd (sv : Z → xserver) (r : Z) (s : xserver) : Z → xserver := λ i, if decide (i = r) then s else sv i.

Lemma upd_eq sv r s : upd sv r s r = s.
Proof. unfold upd. by destruct (decide (r = r)). Qed.

Lemma upd_ne sv r s i : i ≠ r → upd sv r s i = sv i.
Proof. intros H. unfold upd. by destruct (decide (i = r)). Qed.

Lemma arrived_le sv u r : (length (arrived sv u r) <= length (rt_children r))%nat.
Proof. apply length_filter. Qed.

Lemma arrived_ext sv sv' u u' r :
  (∀ c, c ∈ rt_children r → (sent_exit_ready (sv c) = true ∧ c ∉ u.*1 ↔ sent_exit_ready (sv' c) = true ∧ c ∉ u'.*1)) →
  arrived sv u r = arrived sv' u' r.
Proof.
  intros H. unfold arrived. induction (rt_children r) as [|c l IH]; [done|].
  rewrite !filter_cons. destruct (decide _) as [H1|H1], (decide _) as [H2|H2].
  - f_equal. apply IH. intros; apply H; by right.
  - exfalso. apply H2. apply H; [by left|done].
  - exfalso. apply H1. apply H; [by left|done].
  - apply IH. intros; apply H; by right.
Qed.

(** The outcome of the check. *)
Lemma check_spec r s :
  num_exited_parents s = 0 → num_exited_children_peers s = 0 → exit_on_client_close s = false → 0 <= clients_live s →
  handle_send_exit_ready_if_done (config_of r) s =
    if sent_exit_ready s || (0 <? clients_live s) || (exit_readys_recvd s <? Z.of_nat (length (rt_children r)))
    then (s, [])
    else if r =? 0 then (mark_exit (set_sent true s), [XFrontend EXIT_READY; XExit])
    else (set_sent true s, [XParent EXIT_READY]).
Proof.
  intros Hp Hc Hcl Hl. unfold handle_send_exit_ready_if_done. cbn. rewrite Hp, Hc, Hcl. cbn.
  rewrite andb_true_r. destruct (sent_exit_ready s); [done|]. destruct (0 <? clients_live s); [done|]. cbn.
  rewrite andb_true_r, Z.sub_0_r.
  assert ((if 0 <? Z.of_nat (length (rt_children r)) then Z.of_nat (length (rt_children r)) else 0)
    = Z.of_nat (length (rt_children r))) as ->.
  { destruct (0 <? _) eqn:E; bool_to_prop; lia. }
  by destruct (_ <? _).
Qed.

Lemma child_range r c : 0 <= r < rt_size → c ∈ rt_children r → 0 < c < rt_size ∧ rt_parent c = r.
Proof. intros Hr Hc. by apply rt_children_spec in Hc. Qed.

Lemma parent_child c : 0 < c < rt_size → 0 <= rt_parent c < rt_size ∧ c ∈ rt_children (rt_parent c).
Proof.
  intros Hc. pose proof (rt_parent_lt c Hc). split; [lia|]. apply rt_children_spec; [lia|done].
Qed.

(** What is in the invariant only depends on the states. *)
Lemma inv_ext skip used sv sv' u d n : (∀ i, sv i = sv' i) → inv skip used sv u d n → inv skip used sv' u d n.
Proof.
  intros E [H1 H2 H3 H4 H5 H6 H7 H8 H9 H10 H11].
  assert (∀ r, arrived sv' u r = arrived sv u r) as Ea.
  { intros r. apply arrived_ext. intros c _. by rewrite E. }
  constructor; intros *; rewrite <- ?E, ?Ea; eauto.
Qed.

Lemma put_outputs S r s o u d :
  put S r s o u d = mk_sys (upd (servers S) r s)
    (u ++ omap (λ x, match x with XParent m => Some (r, m) | _ => None end) o)
    (d ++ (o ≫= λ x, match x with XExit => rt_children r | _ => [] end))
    (fe S + length (List.filter (λ x, match x with XFrontend _ => true | _ => false end) o))%nat.
Proof. done. Qed.

Definition none : Z → Prop := λ _, False.

(** The server is not ready, or has said so already. *)
Lemma inv_check_idle r used sv u d n :
  inv (λ i, i = r) used sv u d n →
  sent_exit_ready (sv r) || (0 <? clients_live (sv r)) || (exit_readys_recvd (sv r) <? Z.of_nat (length (rt_children r)))
  = true →
  inv none used sv u d n.
Proof.
  intros [H1 H2 H3 H4 H5 H6 H7 H8 H9 H10 H11] E. constructor; try done.
  intros i Hi _ Hl Hn Hu. destruct (decide (i = r)) as [-> | Hne]; [|by apply H6].
  destruct (sent_exit_ready (sv r)); [done|]. cbn in E. apply orb_true_iff in E as [E | E]; bool_to_prop; lia.
Qed.

(** A server below the root becomes ready. *)
Lemma inv_check_inner r used sv u d n :
  inv (λ i, i = r) used sv u d n → 0 < r < rt_size → sent_exit_ready (sv r) = false → clients_live (sv r) = 0 →
  Z.of_nat (length (rt_children r)) <= exit_readys_recvd (sv r) →
  inv none used (upd sv r (set_sent true (sv r))) (u ++ [(r, EXIT_READY)]) d n.
Proof.
  intros [H1 H2 H3 H4 H5 H6 H7 H8 H9 H10 H11] Hr Hs Hl Hn.
  set (sv' := upd sv r _).
  assert (∀ i, exited (sv' i) = exited (sv i) ∧ clients_live (sv' i) = clients_live (sv i) ∧
    exit_readys_recvd (sv' i) = exit_readys_recvd (sv i)) as Hsame.
  { intros i. unfold sv'. destruct (decide (i = r)) as [-> | Hne]; [by rewrite upd_eq|by rewrite upd_ne]. }
  assert (∀ i, i ≠ r → sv' i = sv i) as Hother by (intros i Hi; by apply upd_ne).
  assert (sent_exit_ready (sv' r) = true) as Hsent by (unfold sv'; by rewrite upd_eq).
  assert (∀ i, sent_exit_ready (sv i) = true → sent_exit_ready (sv' i) = true) as Hmono.
  { intros i Hi. destruct (decide (i = r)) as [-> | Hne]; [done|by rewrite Hother]. }
  assert (r ∉ u.*1) as Hru.
  { intros ((c & m) & -> & Hm)%list_elem_of_fmap. cbn in *. destruct (H1 _ _ Hm) as (_ & _ & Hbad). congruence. }
  constructor.
  - intros c m [Hm | Hm%list_elem_of_singleton]%elem_of_app.
    + destruct (H1 _ _ Hm) as (-> & Hc & Hsc). eauto.
    + by injection Hm as -> ->.
  - rewrite fmap_app. apply NoDup_app. split; [done|]. split; [|apply NoDup_singleton].
    intros x Hx ->%list_elem_of_singleton. done.
  - intros q Hq. rewrite (proj2 (proj2 (Hsame q))), H3 by done. do 2 f_equal. apply arrived_ext. intros c _.
    rewrite fmap_app. cbn. rewrite not_elem_of_app, not_elem_of_cons.
    destruct (decide (c = r)) as [-> | Hne]; [naive_solver congruence|]. rewrite Hother by done. set_solver.
  - intros i. specialize (H4 i). unfold sv'. destruct (decide (i = r)) as [-> | Hne]; [by rewrite upd_eq|by rewrite upd_ne].
  - intros i Hi Hsi. rewrite (proj1 (proj2 (Hsame i))), (proj2 (proj2 (Hsame i))).
    destruct (decide (i = r)) as [-> | Hne]; [done|]. apply H5; [done|]. by rewrite Hother in Hsi.
  - intros i Hi _. rewrite (proj1 (proj2 (Hsame i))), (proj2 (proj2 (Hsame i))). intros Hli Hni Hu.
    destruct (decide (i = r)) as [-> | Hne]; [done|]. rewrite Hother by done. by apply H6.
  - rewrite Hother by lia. done.
  - by rewrite (proj1 (Hsame 0)).
  - intros i c Hi. rewrite !(proj1 (Hsame _)). by apply H9.
  - intros c. rewrite (proj1 (Hsame _)). apply H10.
  - intros i Hi. rewrite !(proj1 (Hsame _)). by apply H11.
Qed.

(** The root becomes ready: it tells the front end and broadcasts EXIT. *)
Lemma inv_check_root used sv u d n :
  inv (λ i, i = 0) used sv u d n → 0 < rt_size → sent_exit_ready (sv 0) = false → clients_live (sv 0) = 0 →
  Z.of_nat (length (rt_children 0)) <= exit_readys_recvd (sv 0) →
  inv none used (upd sv 0 (mark_exit (set_sent true (sv 0)))) u (d ++ rt_children 0) (n + 1).
Proof.
  intros [H1 H2 H3 H4 H5 H6 H7 H8 H9 H10 H11] Hr Hs Hl Hn. set (sv' := upd sv 0 _).
  assert (∀ i, i ≠ 0 → sv' i = sv i) as Hother by (intros i Hi; by apply upd_ne).
  assert (sv' 0 = mark_exit (set_sent true (sv 0))) as H0 by apply upd_eq.
  assert (∀ i, exited (sv i) = true → exited (sv' i) = true) as Hex.
  { intros i Hi. destruct (decide (i = 0)) as [-> | Hne]; [by rewrite H0|by rewrite Hother]. }
  constructor.
  - intros c m Hm. destruct (H1 _ _ Hm) as (-> & Hc & Hsc). rewrite Hother by lia. done.
  - done.
  - intros q Hq. assert (exit_readys_recvd (sv' q) = exit_readys_recvd (sv q)) as ->.
    { destruct (decide (q = 0)) as [-> | Hne]; [by rewrite H0|by rewrite Hother]. }
    rewrite H3 by done. do 2 f_equal. apply arrived_ext. intros c Hc. apply child_range in Hc; [|done].
    rewrite Hother by lia. done.
  - intros i. specialize (H4 i). destruct (decide (i = 0)) as [-> | Hne]; [by rewrite H0|by rewrite Hother].
  - intros i Hi. destruct (decide (i = 0)) as [-> | Hne]; [by rewrite H0|rewrite Hother by done; by apply H5].
  - intros i Hi _. destruct (decide (i = 0)) as [-> | Hne]; [by rewrite H0|rewrite Hother by done; by apply H6].
  - by rewrite H0.
  - rewrite H0. cbn. rewrite <- H7, Hs in H8. lia.
  - intros i c Hi Hei Hc. destruct (decide (i = 0)) as [-> | Hne]; [left; set_solver|].
    rewrite Hother in Hei by done. destruct (H9 _ _ Hi Hei Hc); [left; set_solver|right; by apply Hex].
  - intros c [Hc | Hc]%elem_of_app.
    + destruct (H10 _ Hc). split; [done|by apply Hex].
    + apply child_range in Hc as [Hc ->]; [|lia]. rewrite H0. done.
  - intros i Hi Hei. rewrite Hother in Hei by lia. apply Hex. by apply H11.
Qed.

(** After the check nobody has to check any more. *)
Lemma inv_check r used S s u d :
  inv (λ i, i = r) used (upd (servers S) r s) u d (fe S) → 0 <= r < rt_size →
  let '(s', o) := handle_send_exit_ready_if_done (config_of r) s in
  let S' := put S r s' o u d in inv none used (servers S') (up S') (down S') (fe S').
Proof.
  intros Hi Hr. pose proof (inv_fields _ _ _ _ _ _ Hi r) as (F1 & F2 & F3 & F4 & F5). rewrite upd_eq in *.
  rewrite check_spec by done. set (sv := upd (servers S) r s) in *.
  assert (∀ s', ∀ i, upd sv r s' i = upd (servers S) r s' i) as Hupd.
  { intros s' i. unfold sv, upd. by destruct (decide (i = r)). }
  assert (sv r = s) as Hsv by apply upd_eq.
  destruct (_ || _ || _) eqn:E; cbn -[rt_children].
  - rewrite !app_nil_r, Nat.add_0_r. apply (inv_ext _ _ sv); [done|]. apply (inv_check_idle r); [exact Hi|by rewrite Hsv].
  - apply orb_false_iff in E as [[E1 E2]%orb_false_iff E3]. bool_to_prop.
    assert (clients_live s = 0) as Hl by lia.
    destruct (r =? 0) eqn:E0; bool_to_prop; cbn -[rt_children].
    + subst r. rewrite !app_nil_r. eapply inv_ext; [apply Hupd|]. rewrite <- Hsv.
      apply inv_check_root; rewrite ?Hsv; try done; lia.
    + rewrite !app_nil_r, Nat.add_0_r. eapply inv_ext; [apply Hupd|]. rewrite <- Hsv.
      apply inv_check_inner; rewrite ?Hsv; try done; lia.
Qed.

(** A client has come or gone. *)
Lemma inv_live r (used used' : Z → Prop) sv u d n k :
  inv none used sv u d n → sent_exit_ready (sv r) = false → 0 <= k →
  (∀ i, i ≠ r → used' i → used i) → inv (λ i, i = r) used' (upd sv r (set_live k (sv r))) u d n.
Proof.
  intros [H1 H2 H3 H4 H5 H6 H7 H8 H9 H10 H11] Hs Hk Hu. set (sv' := upd sv r _).
  assert (∀ i, exited (sv' i) = exited (sv i) ∧ sent_exit_ready (sv' i) = sent_exit_ready (sv i) ∧
    exit_readys_recvd (sv' i) = exit_readys_recvd (sv i)) as Hsame.
  { intros i. unfold sv'. destruct (decide (i = r)) as [-> | Hne]; [by rewrite upd_eq|by rewrite upd_ne]. }
  assert (∀ i, i ≠ r → sv' i = sv i) as Hother by (intros i Hi; by apply upd_ne).
  assert (∀ i, exited (sv' i) = exited (sv i)) as He by apply Hsame.
  assert (∀ i, sent_exit_ready (sv' i) = sent_exit_ready (sv i)) as Hse by apply Hsame.
  assert (∀ i, exit_readys_recvd (sv' i) = exit_readys_recvd (sv i)) as Hre by apply Hsame.
  constructor; intros *; rewrite ?He, ?Hse, ?Hre; eauto.
  - intros Hr. rewrite H3 by done. do 2 f_equal. apply arrived_ext. intros c _. by rewrite Hse.
  - specialize (H4 r0). unfold sv'. destruct (decide (r0 = r)) as [-> | Hne]; [rewrite upd_eq|by rewrite upd_ne].
    cbn. naive_solver.
  - intros Hr Hsr. destruct (decide (r0 = r)) as [-> | Hne]; [congruence|]. rewrite Hother by done. by apply H5.
  - intros Hr Hne Hl Hn Hor. rewrite Hother in Hl by done. apply (H6 r0); [done|by intros []|done|done|]. destruct Hor as [Hor | Hor]; [left; by apply Hu|by right].
Qed.

Lemma take_first_spec c l m l' :
  take_first c l = Some (m, l') → ∃ l1 l2, l = l1 ++ (c, m) :: l2 ∧ l' = l1 ++ l2.
Proof.
  revert m l'. induction l as [|[c0 m0] l IH]; intros m l'; cbn [take_first]; [done|].
  destruct (decide (c0 = c)) as [-> | Hne]; [intros [= <- <-]; by exists [], l|].
  destruct (take_first c l) as [[m1 l1]|] eqn:E; [|done]. cbn. intros [= <- <-].
  destruct (IH _ _ eq_refl) as (a & b & -> & ->). by exists ((c0, m0) :: a), b.
Qed.

(** A message of the child [c] has arrived. *)
Lemma inv_arrive used sv u d n c m u' :
  inv none used sv u d n → take_first c u = Some (m, u') →
  m = EXIT_READY ∧ 0 < c < rt_size ∧
  inv (λ i, i = rt_parent c) used
    (upd sv (rt_parent c) (set_readys (exit_readys_recvd (sv (rt_parent c)) + 1) (sv (rt_parent c)))) u' d n.
Proof.
  intros [H1 H2 H3 H4 H5 H6 H7 H8 H9 H10 H11] (l1 & l2 & -> & ->)%take_first_spec.
  destruct (H1 c m) as (-> & Hc & Hsc); [set_solver|]. split; [done|]. split; [done|].
  destruct (parent_child c Hc) as [Hp Hpc]. set (p := rt_parent c) in *. set (sv' := upd sv p _).
  assert (∀ i, exited (sv' i) = exited (sv i) ∧ sent_exit_ready (sv' i) = sent_exit_ready (sv i) ∧
    clients_live (sv' i) = clients_live (sv i)) as Hsame.
  { intros i. unfold sv'. destruct (decide (i = p)) as [-> | Hne]; [by rewrite upd_eq|by rewrite upd_ne]. }
  assert (∀ i, i ≠ p → sv' i = sv i) as Hother by (intros i Hi; by apply upd_ne).
  assert (∀ i, exited (sv' i) = exited (sv i)) as He by apply Hsame.
  assert (∀ i, sent_exit_ready (sv' i) = sent_exit_ready (sv i)) as Hse by apply Hsame.
  assert (∀ i, clients_live (sv' i) = clients_live (sv i)) as Hli by apply Hsame.
  assert (exit_readys_recvd (sv' p) = exit_readys_recvd (sv p) + 1) as Hrp by (unfold sv'; by rewrite upd_eq).
  rewrite fmap_app, fmap_cons in H2. cbn in H2.
  assert (c ∉ (l1 ++ l2).*1 ∧ NoDup (l1 ++ l2).*1) as [Hcn Hnd].
  { rewrite fmap_app. apply NoDup_cons. by rewrite Permutation_middle. }
  assert (∀ x, x ≠ c → (x ∈ (l1 ++ (c, EXIT_READY) :: l2).*1 ↔ x ∈ (l1 ++ l2).*1)) as Hin.
  { intros x Hx. rewrite !fmap_app, fmap_cons. cbn. set_solver. }
  assert (arrived sv' (l1 ++ l2) p ≡ₚ c :: arrived sv (l1 ++ (c, EXIT_READY) :: l2) p) as Hperm.
  { pose proof (rt_children_NoDup p Hp) as Hcd. apply NoDup_Permutation.
    - by apply NoDup_filter.
    - apply NoDup_cons. split; [|by apply NoDup_filter]. unfold arrived. rewrite list_elem_of_filter.
      rewrite fmap_app, fmap_cons. cbn. set_solver.
    - intros x. unfold arrived. rewrite elem_of_cons, !list_elem_of_filter, Hse.
      destruct (decide (x = c)) as [-> | Hne]; [naive_solver|]. rewrite (Hin x Hne). naive_solver. }
  constructor; intros *; rewrite ?He, ?Hse, ?Hli; eauto.
  - intros Hm. apply H1. set_solver.
  - intros Hr. destruct (decide (r = p)) as [-> | Hne].
    + rewrite Hrp, H3 by done. apply Permutation_length in Hperm. rewrite Hperm. cbn [length]. lia.
    + rewrite Hother, H3 by done. do 2 f_equal. apply arrived_ext. intros x Hx. rewrite Hse.
      rewrite (Hin x); [done|]. intros ->. apply child_range in Hx; [|done]. lia.
  - specialize (H4 r). unfold sv'. destruct (decide (r = p)) as [-> | Hne]; [by rewrite upd_eq|by rewrite upd_ne].
  - intros Hr Hsr. destruct (H5 r Hr Hsr) as [Hl Hn]. split; [done|].
    destruct (decide (r = p)) as [-> | Hne]; [lia|by rewrite Hother].
  - intros Hr Hne Hl Hn Hu. rewrite Hother in Hn by done. apply (H6 r); [done|by intros []|done|done|done].
Qed.

(** EXIT has arrived at [c]. *)
Lemma inv_exit used sv u d n c :
  inv none used sv u d n → c ∈ d →
  inv none used (upd sv c (mark_exit (sv c))) u (remove Z.eq_dec c d ++ rt_children c) n.
Proof.
  intros [H1 H2 H3 H4 H5 H6 H7 H8 H9 H10 H11] Hc. destruct (H10 c Hc) as [Hcr Hpc]. set (sv' := upd sv c _).
  assert (∀ i, i ≠ c → sv' i = sv i) as Hother by (intros i Hi; by apply upd_ne).
  assert (exited (sv' c) = true) as Hce by (unfold sv'; by rewrite upd_eq).
  assert (∀ i, exited (sv i) = true → exited (sv' i) = true) as Hex.
  { intros i Hi. destruct (decide (i = c)) as [-> | Hne]; [done|by rewrite Hother]. }
  assert (∀ i, sent_exit_ready (sv' i) = sent_exit_ready (sv i) ∧ clients_live (sv' i) = clients_live (sv i) ∧
    exit_readys_recvd (sv' i) = exit_readys_recvd (sv i)) as Hsame.
  { intros i. unfold sv'. destruct (decide (i = c)) as [-> | Hne]; [by rewrite upd_eq|by rewrite upd_ne]. }
  assert (∀ i, sent_exit_ready (sv' i) = sent_exit_ready (sv i)) as Hse by apply Hsame.
  assert (∀ i, clients_live (sv' i) = clients_live (sv i)) as Hli by apply Hsame.
  assert (∀ i, exit_readys_recvd (sv' i) = exit_readys_recvd (sv i)) as Hre by apply Hsame.
  assert (∀ x, x ∈ remove Z.eq_dec c d ↔ x ∈ d ∧ x ≠ c) as Hrem.
  { intros x. rewrite !list_elem_of_In. split; [apply in_remove|]. intros [? ?]. by apply in_in_remove. }
  constructor; intros *; rewrite ?Hse, ?Hli, ?Hre; eauto.
  - intros Hr. rewrite H3 by done. do 2 f_equal. apply arrived_ext. intros x _. by rewrite Hse.
  - specialize (H4 r). unfold sv'. destruct (decide (r = c)) as [-> | Hne]; [by rewrite upd_eq|by rewrite upd_ne].
  - rewrite Hother by lia. done.
  - rewrite Hother by lia. done.
  - intros Hr Her Hx. rewrite elem_of_app, Hrem. destruct (decide (r = c)) as [-> | Hne]; [by left; right|].
    rewrite Hother in Her by done. destruct (H9 _ _ Hr Her Hx) as [Hd | Hd]; [|right; by apply Hex].
    destruct (decide (c0 = c)) as [-> | Hne2]; [by right|]. left. by left.
  - intros [Hd | Hx]%elem_of_app.
    + apply Hrem in Hd as [Hd _]. destruct (H10 _ Hd). split; [done|by apply Hex].
    + apply child_range in Hx as [Hx ->]; [done|lia].
  - intros Hr Her. destruct (decide (r = c)) as [-> | Hne]; [by apply Hex|].
    rewrite Hother in Her by done. apply Hex. by apply H11.
Qed.

(** ** Orderly runs *)

Definition inv_of (S : sys) (used : Z → Prop) : Prop := inv none used (servers S) (up S) (down S) (fe S).

Lemma init_inv S : init S → inv_of S (λ _, False).
Proof.
  intros (Hs & Hu & Hd & Hf). unfold inv_of. rewrite Hu, Hd, Hf. constructor; intros *; rewrite ?Hs; cbn; try done.
  - by intros ?%not_elem_of_nil.
  - constructor.
  - intros _. replace (arrived (servers S) [] r) with (@nil Z); [done|]. symmetry. unfold arrived.
    induction (rt_children r) as [|c l IH]; [done|]. rewrite filter_cons, Hs. cbn. by rewrite decide_False by naive_solver.
  - intros Hr _ _ Hn [? | Hne]; [done|]. destruct (rt_children r); [done|cbn in Hn; lia].
  - by intros ?%not_elem_of_nil.
Qed.

Lemma used_ext S used used' : (∀ r, used r ↔ used' r) → inv_of S used → inv_of S used'.
Proof.
  intros Hu [H1 H2 H3 H4 H5 H6 H7 H8 H9 H10 H11]. constructor; try done.
  intros r Hr Hs Hl Hn Hor. apply H6; try done. rewrite Hu. done.
Qed.

(** An orderly step keeps the invariant, and no assertion fails. *)
Lemma step_inv S used l :
  inv_of S used → orderly S l →
  match exec S l with
  | Next S' => inv_of S' (λ r, used r ∨ l = End_ r)
  | Disabled => True
  | Fault => False
  end.
Proof.
  intros Hi Ho. destruct l as [r|r|c|c]; cbn [exec].
  - destruct (decide (runs S r)) as [[Hr He]|]; [|done]. cbn in Ho. unfold handle_client_start. cbn. rewrite Ho. cbn.
    eapply (used_ext _ used); [naive_solver|].
    pose proof (inv_fields _ _ _ _ _ _ Hi r) as (_ & _ & _ & _ & Hl).
    unfold inv_of. cbn. rewrite !app_nil_r, Nat.add_0_r.
    apply (inv_ext _ _ (upd (servers S) r (set_live (clients_live (servers S r) + 1) (servers S r)))); [done|].
    apply (inv_check_idle r); [apply (inv_live r used used); try done; lia|].
    rewrite upd_eq. cbn. rewrite (proj2 (Z.ltb_lt _ _)) by lia. by rewrite orb_true_r.
  - destruct (decide (runs S r ∧ _)) as [[[Hr He] Hl]|]; [|done]. unfold handle_client_end. cbn [negb].
    rewrite (proj2 (Z.ltb_lt _ _)) by done.
    assert (sent_exit_ready (servers S r) = false) as Hs.
    { destruct (sent_exit_ready (servers S r)) eqn:E; [|done]. destruct (inv_sent _ _ _ _ _ _ Hi r Hr E). lia. }
    pose proof (inv_check r (λ i, used i ∨ End_ r = End_ i) S (set_live (clients_live (servers S r) - 1) (servers S r))
      (up S) (down S)) as Hc. destruct (handle_send_exit_ready_if_done _ _) as [s' o].
    apply Hc; [|done]. apply (inv_live r used); [done|done|lia|]. naive_solver congruence.
  - destruct (decide (runs S (rt_parent c))) as [[Hr He]|]; [|done].
    destruct (take_first c (up S)) as [[m u]|] eqn:Et; [|done].
    destruct (inv_arrive _ _ _ _ _ _ _ _ Hi Et) as (-> & Hc & Hi'). cbn [next].
    unfold handle_exit_ready_msg. pose proof (inv_check (rt_parent c) used S _ u (down S) Hi' Hr) as Hc'.
    destruct (handle_send_exit_ready_if_done _ _) as [s' o]. cbn [next]. eapply (used_ext _ used); [naive_solver|done].
  - destruct (decide (runs S c ∧ _)) as [[_ Hc]|]; [|done]. cbn [next handle_exit_broadcast].
    eapply (used_ext _ used); [naive_solver|]. unfold inv_of. cbn -[rt_children].
    rewrite !app_nil_r, Nat.add_0_r. eapply inv_ext; [done|]. by apply inv_exit.
Qed.

Lemma reach_inv S used : reach S used → inv_of S used.
Proof.
  induction 1 as [S Hi|S used l S' _ IH Ho E]; [by apply init_inv|].
  pose proof (step_inv S used l IH Ho) as H. by rewrite E in H.
Qed.

(** When a server has said that it is ready, so have its children. *)
Lemma sent_children S used r c :
  inv_of S used → 0 <= r < rt_size → sent_exit_ready (servers S r) = true → c ∈ rt_children r →
  sent_exit_ready (servers S c) = true.
Proof.
  intros Hi Hr Hs Hc. destruct (inv_sent _ _ _ _ _ _ Hi r Hr Hs) as [_ Hn]. rewrite (inv_count _ _ _ _ _ _ Hi r Hr) in Hn.
  assert (c ∈ arrived (servers S) (up S) r) as Ha.
  { assert (arrived (servers S) (up S) r ≡ₚ rt_children r) as ->; [|done].
    apply submseteq_length_Permutation; [|lia]. apply sublist_submseteq, sublist_filter. }
  unfold arrived in Ha. by apply list_elem_of_filter in Ha as [[? _] _].
Qed.

(** Induction from the root to the leaves. *)
Lemma from_root (P : Z → Prop) :
  P 0 → (∀ r, 0 < r < rt_size → P (rt_parent r) → P r) → ∀ r, 0 <= r < rt_size → P r.
Proof.
  intros H0 Hs r. remember (Z.to_nat r) as k eqn:Hk. revert r Hk. induction (lt_wf k) as [k _ IH]. intros r -> Hr.
  destruct (decide (r = 0)) as [-> | Hne]; [done|].
  assert (0 < r < rt_size) as Hr' by lia. pose proof (rt_parent_lt r Hr').
  apply Hs; [done|]. apply (IH (Z.to_nat (rt_parent r))); lia.
Qed.

Lemma all_sent S used : inv_of S used → sent_exit_ready (servers S 0) = true →
  ∀ r, 0 <= r < rt_size → sent_exit_ready (servers S r) = true.
Proof.
  intros Hi H0. apply from_root; [done|]. intros r Hr Hp. destruct (parent_child r Hr) as [Hpr Hc].
  by eapply (sent_children _ _ (rt_parent r)).
Qed.

Lemma root_exited S used r : inv_of S used → 0 <= r < rt_size → exited (servers S r) = true → exited (servers S 0) = true.
Proof.
  intros Hi. revert r. apply (from_root (λ r, exited (servers S r) = true → exited (servers S 0) = true)); [done|].
  intros r Hr IH He. apply IH. by apply (inv_from _ _ _ _ _ _ Hi).
Qed.

Lemma filter_all {A} (P : A → Prop) `{∀ x, Decision (P x)} (l : list A) : (∀ x, x ∈ l → P x) → filter P l = l.
Proof.
  induction l as [|x l IH]; intros Hl; [done|]. rewrite filter_cons, decide_True by (apply Hl; by left).
  f_equal. apply IH. intros y Hy. apply Hl. by right.
Qed.

(** With no message on its way, a server below which everything has ended is ready. *)
Lemma ready_upwards S used :
  inv_of S used → up S = [] → (∀ r, 0 <= r < rt_size → clients_live (servers S r) = 0) →
  (∀ r, 0 <= r < rt_size → rt_children r = [] → used r) →
  ∀ r, 0 <= r < rt_size → sent_exit_ready (servers S r) = true.
Proof.
  intros Hi Hu Hl Hused r. remember (Z.to_nat (rt_size - r)) as k eqn:Hk. revert r Hk.
  induction (lt_wf k) as [k _ IH]. intros r -> Hr.
  assert (arrived (servers S) (up S) r = rt_children r) as Ha.
  { unfold arrived. rewrite Hu. apply filter_all. intros c Hc.
    apply child_range in Hc as [Hc Hp]; [|done]. pose proof (rt_parent_lt c Hc). split; [|apply not_elem_of_nil].
    apply (IH (Z.to_nat (rt_size - c))); lia. }
  apply (inv_ready _ _ _ _ _ _ Hi r Hr); [by intros []|by apply Hl| |].
  - rewrite (inv_count _ _ _ _ _ _ Hi r Hr), Ha. done.
  - destruct (decide (rt_children r = [])) as [E | E]; [left; by apply Hused|by right].
Qed.

Lemma exited_downwards S used :
  inv_of S used → down S = [] → exited (servers S 0) = true → ∀ r, 0 <= r < rt_size → exited (servers S r) = true.
Proof.
  intros Hi Hd H0. apply from_root; [done|]. intros r Hr Hp. destruct (parent_child r Hr) as [Hpr Hc].
  destruct (inv_told _ _ _ _ _ _ Hi (rt_parent r) r Hpr Hp Hc) as [Hin | ?]; [|done].
  rewrite Hd in Hin. by apply not_elem_of_nil in Hin.
Qed.

End tree.


(** ** Two servers *)

Definition tree2 : RankTree := Cobo.cobo_rank_tree 2 ltac:(lia).

Definition start_state : sys := mk_sys (λ _, mk_xserver 0 false 0 0 0 false false false) [] [] 0.

Fixpoint exec_all {T : RankTree} (S : sys) (ls : list label) : result :=
  match ls with
  | [] => Next S
  | l :: ls' => match exec S l with Next S' => exec_all S' ls' | x => x end
  end.

Definition state_after {T : RankTree} (ls : list label) : sys :=
  match exec_all start_state ls with Next S1 => S1 | _ => start_state end.

Definition short_job : list label := [Start 1; Start 0; End_ 1; Up 1; End_ 0; Down 1].

Lemma short_job_reach : ∃ used, reach (T := tree2) (state_after (T := tree2) short_job) used ∧ used 1.
Proof.
  pose (st n := state_after (T := tree2) (take n short_job)).
  assert (∀ n used l, reach (T := tree2) (st n) used → orderly (st n) l →
    exec (T := tree2) (st n) l = Next (st (Datatypes.S n)) → reach (T := tree2) (st (Datatypes.S n)) (λ r, used r ∨ l = End_ r)) as Hs.
  { intros n used l. apply (reach_step (T := tree2)). }
  pose proof (reach_init (T := tree2) (st 0%nat) ltac:(repeat apply conj; vm_compute; reflexivity)) as H.
  apply (Hs 0%nat _ (Start 1)) in H; [|vm_compute; reflexivity..].
  apply (Hs 1%nat _ (Start 0)) in H; [|vm_compute; reflexivity..].
  apply (Hs 2%nat _ (End_ 1)) in H; [|exact I|vm_compute; reflexivity].
  apply (Hs 3%nat _ (Up 1)) in H; [|exact I|vm_compute; reflexivity].
  apply (Hs 4%nat _ (End_ 0)) in H; [|exact I|vm_compute; reflexivity].
  apply (Hs 5%nat _ (Down 1)) in H; [|exact I|vm_compute; reflexivity].
  eexists. split; [exact H|]. cbv beta. do 3 left. right. reflexivity.
Qed.


(** A client that starts at a server that has said it is ready makes the server take that
    back without noting so.  When it ends, the server does not say again that it is ready:
    all clients have ended, no message is on its way and no server ever exits, unless yet
    another client starts; and the start of another client at that server makes the
    assertion of its parent fail. *)
Theorem late_client_hangs :
  let S := state_after (T := tree2) [Start 0; Start 1; End_ 1; Start 1; End_ 1; Up 1; Up 1; End_ 0] in
  up S = [] ∧ down S = [] ∧
  (∀ r, 0 <= r < 2 → clients_live (servers S r) = 0 ∧ exited (servers S r) = false) ∧
  exec_all (T := tree2) S [Start 1; Up 1] = Fault.
Proof.
  cbv zeta. split; [vm_compute; reflexivity|]. split; [vm_compute; reflexivity|]. split; [|vm_compute; reflexivity].
  intros r Hr. assert (r = 0 ∨ r = 1) as [-> | ->] by lia; split; vm_compute; reflexivity.
Qed.

End Exit.
