(* ===== verification/Alive.v ===== *)
(** * Asking whether all servers are there

    After starting the servers the front end sends one ALIVE_REQ down the tree ([sendAndWaitForAlive] of [spindle_fe.cc]); a server that has the answers of all its
    children answers its parent ([handle_alive_msg] of [ldcs_audit_server_handlers.c]), and the root answers the front end. *)

From Stdlib Require Import ZArith Lia.
From stdpp Require Import numbers sets list gmap.
From S2P Require Import Prelude Requestors Cobo.

Module Alive.

(** ** A server *)

Inductive alive_msg := ALIVE_REQ | ALIVE_RESP.
Inductive alive_out := ToChildren | ToParent | ToFrontend.

#[global] Instance alive_out_eq_dec : EqDecision alive_out.
Proof. solve_decision. Defined.

(** The new [num_alives] and what is sent; [None] is the failing [assert]. *)
Definition handle_alive_msg (num_children : Z) (responsible : bool) (num_alives : Z) (msg : alive_msg) : option (Z * list alive_out) :=
  let respond n o := if num_children =? n then (0, o ++ [if responsible then ToFrontend else ToParent]) else (n, o) in
  match msg with
  | ALIVE_REQ => if negb (num_alives =? 0) then None else Some (respond num_alives (if num_children =? 0 then [] else [ToChildren]))
  | ALIVE_RESP => Some (respond (num_alives + 1) [])
  end.

(** ** The tree *)

Section tree.
Context {T : RankTree}.

(** [down], [up]: requests by their receiver and responses by their sender; [fe] counts the responses to the front end.  [got] and [said] record which servers have handled the
    request and have responded. *)
Record sys := mk_sys {
  alives : Z → Z;
  got : gset Z;
  said : gset Z;
  down : list Z;
  up : list Z;
  fe : nat;
}.

Definition kids (r : Z) : Z := Z.of_nat (length (rt_children r)).

Definition put (S : sys) (r n : Z) (o : list alive_out) (g : gset Z) (d u : list Z) : sys :=
  mk_sys (λ i, if decide (i = r) then n else alives S i) g
    (if decide (ToParent ∈ o ∨ ToFrontend ∈ o) then {[r]} ∪ said S else said S)
    (d ++ if decide (ToChildren ∈ o) then rt_children r else [])
    (u ++ if decide (ToParent ∈ o) then [r] else [])
    (fe S + if decide (ToFrontend ∈ o) then 1 else 0)%nat.

(** [Down n], [Up n]: the message at a place of the list arrives. *)
Inductive label := Down (n : nat) | Up (n : nat).
Inductive result := Next (S : sys) | Disabled | Fault.

Definition exec (S : sys) (l : label) : result :=
  match l with
  | Down n =>
      match down S !! n with
      | Some r =>
          match handle_alive_msg (kids r) (r =? 0) (alives S r) ALIVE_REQ with
          | Some (k, o) => Next (put S r k o ({[r]} ∪ got S) (delete n (down S)) (up S))
          | None => Fault
          end
      | None => Disabled
      end
  | Up n =>
      match up S !! n with
      | Some c =>
          let r := rt_parent c in
          match handle_alive_msg (kids r) (r =? 0) (alives S r) ALIVE_RESP with
          | Some (k, o) => Next (put S r k o (got S) (down S) (delete n (up S)))
          | None => Fault
          end
      | None => Disabled
      end
  end.

(** The front end has sent its message to the root. *)
Definition start : sys := mk_sys (λ _, 0) ∅ ∅ [0] [] 0.

Inductive reach : nat → sys → Prop :=
  | reach_start : reach 0 start
  | reach_step n S l S' : reach n S → exec S l = Next S' → reach (Datatypes.S n) S'.

(** ** The invariant *)

(** The children of [r] whose response has arrived. *)
Definition arrived (sd : gset Z) (u : list Z) (r : Z) : list Z := filter (λ c, c ∈ sd ∧ c ∉ u) (rt_children r).

(** [skip]: a server that has still to check whether it can respond. *)
Record inv (skip : Z → Prop) (al : Z → Z) (g sd : gset Z) (d u : list Z) (f : nat) : Prop := mk_inv {
  i_down c : c ∈ d → 0 <= c < rt_size ∧ c ∉ g ∧ (0 < c → rt_parent c ∈ g);
  i_once : NoDup d ∧ NoDup u;
  i_got c : c ∈ g → 0 <= c < rt_size ∧ (0 < c → rt_parent c ∈ g);
  i_next c : 0 <= c < rt_size → (0 < c → rt_parent c ∈ g) → c ∈ g ∨ c ∈ d;
  i_up c : c ∈ u → 0 < c < rt_size ∧ c ∈ sd;
  i_said c : c ∈ sd → c ∈ g ∧ ∀ k, k ∈ rt_children c → k ∈ sd ∧ k ∉ u;
  i_count r : r ∈ g → r ∉ sd → al r = Z.of_nat (length (arrived sd u r)) ∧ (¬ skip r → al r < kids r);
  i_zero r : 0 <= r < rt_size → r ∉ g ∨ r ∈ sd → al r = 0;
  i_fe : f = if decide (0 ∈ sd) then 1%nat else 0%nat;
}.
Definition inv_of (S : sys) : Prop := inv (λ _, False) (alives S) (got S) (said S) (down S) (up S) (fe S).

Lemma start_inv : 0 < rt_size → inv_of start.
Proof.
  intros Hs. unfold inv_of, start. cbn. constructor; try set_solver.
  - intros c ->%list_elem_of_singleton. split; [lia|]. split; [set_solver | lia].
  - split; [apply NoDup_singleton | constructor].
  - intros c Hc Hp. destruct (decide (c = 0)) as [->|]; [right; by left|]. exfalso. specialize (Hp ltac:(lia)). set_solver.
Qed.

Definition upd (al : Z → Z) (r n : Z) : Z → Z := λ i, if decide (i = r) then n else al i.

Lemma kid_range r c : 0 <= r < rt_size → c ∈ rt_children r → 0 < c < rt_size ∧ rt_parent c = r ∧ c ≠ r.
Proof. intros Hr Hc. apply rt_children_spec in Hc as [H1 H2]; [|done]. pose proof (rt_parent_lt c H1). repeat split; lia. Qed.
Lemma parent_range c : 0 < c < rt_size → 0 <= rt_parent c < rt_size ∧ c ∈ rt_children (rt_parent c) ∧ rt_parent c ≠ c.
Proof. intros Hc. pose proof (rt_parent_lt c Hc). split; [lia|]. split; [|lia]. apply rt_children_spec; [lia | done]. Qed.

Lemma arrived_same sd sd' u u' r : (∀ c, c ∈ rt_children r → (c ∈ sd ∧ c ∉ u ↔ c ∈ sd' ∧ c ∉ u')) → arrived sd u r = arrived sd' u' r.
Proof.
  intros H. unfold arrived. induction (rt_children r) as [|k l IH]; [done|]. rewrite !filter_cons. specialize (IH ltac:(intros; apply H; by right)). specialize (H k ltac:(by left)).
  do 2 case_decide; try tauto. by rewrite IH.
Qed.
Lemma arrived_all sd u r : length (arrived sd u r) = length (rt_children r) → ∀ c, c ∈ rt_children r → c ∈ sd ∧ c ∉ u.
Proof.
  unfold arrived. induction (rt_children r) as [|k l IH]; [by intros _ c ?%not_elem_of_nil|]. rewrite filter_cons. case_decide as Hk; cbn [length].
  - intros [= E] c [-> | Hc]%elem_of_cons; [done | by apply IH].
  - intros E. pose proof (length_filter (λ c, c ∈ sd ∧ c ∉ u) l). lia.
Qed.

(** The server checks whether it can respond. *)
Lemma respond_ok r al g sd d u f : inv (λ i, i = r) al g sd d u f → r ∈ g → r ∉ sd →
  if kids r =? al r then inv (λ _, False) (upd al r 0) g ({[r]} ∪ sd) d (if r =? 0 then u else u ++ [r]) (if r =? 0 then S f else f)
  else inv (λ _, False) al g sd d u f.
Proof.
  intros [H1 H2 H3 H4 H5 H6 H7 H8 H9] Hg Hsd. destruct (H7 r Hg Hsd) as [Hal _]. destruct (H3 r Hg) as [Hr Hrp].
  assert (length (arrived sd u r) <= length (rt_children r))%nat as Hle by apply length_filter.
  destruct (Z.eqb_spec (kids r) (al r)) as [E|E].
  2:{ constructor; try done. intros i Hi Hi'. destruct (H7 i Hi Hi') as [A B]. split; [done|]. intros _. destruct (decide (i = r)) as [->|Hne]; [unfold kids in *; lia | by apply B]. }
  assert (∀ c, c ∈ rt_children r → c ∈ sd ∧ c ∉ u) as Hall by (apply arrived_all; unfold kids in *; lia).
  assert (r ∉ u) as Hru by (intros Hu; by destruct (H5 r Hu)).
  assert (∀ c, c ∈ (if r =? 0 then u else u ++ [r]) ↔ c ∈ u ∨ c = r ∧ r ≠ 0) as Hu.
  { intros c. destruct (Z.eqb_spec r 0); [split; [by left | intros [? | [_ ?]]; done]|]. rewrite elem_of_app, list_elem_of_singleton. tauto. }
  constructor.
  - exact H1.
  - split; [apply H2|]. destruct (r =? 0); [apply H2|]. apply NoDup_app. split; [apply H2|]. split; [|apply NoDup_singleton]. by intros x Hx ->%list_elem_of_singleton.
  - exact H3.
  - exact H4.
  - intros c [Hc | [-> Hc]]%Hu; [destruct (H5 c Hc); split; [done | set_solver] | split; [lia | set_solver]].
  - intros c [->%elem_of_singleton | Hc]%elem_of_union.
    + split; [done|]. intros k Hk. destruct (Hall k Hk), (kid_range r k Hr Hk) as (_ & _ & ?). rewrite Hu. split; [set_solver | intros [? | [? _]]; done].
    + destruct (H6 c Hc) as [A B]. split; [done|]. intros k Hk. destruct (B k Hk). rewrite Hu. split; [set_solver | intros [? | [-> _]]; done].
  - intros i Hi Hi'. apply not_elem_of_union in Hi' as [Hir%not_elem_of_singleton Hi']. destruct (H7 i Hi Hi') as [A B]. unfold upd. rewrite decide_False by done. split; [|intros _; by apply B].
    rewrite A. do 2 f_equal. apply arrived_same. intros c Hc. destruct (H3 i Hi) as [Hi0 _]. destruct (kid_range i c Hi0 Hc) as (Hc0 & _ & _). rewrite Hu, elem_of_union, elem_of_singleton. split.
    + intros [? ?]. split; [by right|]. intros [? | [-> _]]; done.
    + intros [[-> | ?] Hn]; [exfalso; apply Hn; right; split; [done | lia] | tauto].
  - intros i Hi Hcase. unfold upd. destruct (decide (i = r)); [done|]. apply H8; [done|]. set_solver.
  - destruct (Z.eqb_spec r 0) as [->|Hr0].
    + rewrite decide_True by set_solver. rewrite decide_False in H9 by done. by rewrite H9.
    + rewrite H9. case_decide; case_decide; try done; set_solver.
Qed.

Lemma alive_ext skip al al' g sd d u f : (∀ i, al i = al' i) → inv skip al g sd d u f → inv skip al' g sd d u f.
Proof. intros E [H1 H2 H3 H4 H5 H6 H7 H8 H9]. constructor; try done; intros i; rewrite <- E; [apply H7 | apply H8]. Qed.

Lemma delete_split {A} (l : list A) n x : l !! n = Some x → l ≡ₚ x :: delete n l.
Proof. apply delete_Permutation. Qed.

(** The request arrives. *)
Lemma down_ok al g sd d u f n r : inv (λ _, False) al g sd d u f → d !! n = Some r →
  al r = 0 ∧ r ∉ sd ∧ inv (λ i, i = r) al ({[r]} ∪ g) sd (delete n d ++ rt_children r) u f.
Proof.
  intros [H1 H2 H3 H4 H5 H6 H7 H8 H9] Hn. pose proof (delete_split d n r Hn) as Hp. destruct (H1 r) as (Hr & Hrg & Hrp); [rewrite Hp; by left|].
  assert (r ∉ sd) as Hsd by (intros Hs; by destruct (H6 r Hs)). destruct H2 as [Hnd Hnu]. rewrite Hp in Hnd. apply NoDup_cons in Hnd as [Hrd Hnd].
  assert (∀ c, c ∈ rt_children r → 0 < c < rt_size ∧ rt_parent c = r ∧ c ≠ r ∧ c ∉ g) as Hk.
  { intros c Hc. destruct (kid_range r c Hr Hc) as (A & B & C). repeat split; try done; try lia. intros Hg. apply H3 in Hg as [_ Hg]. apply Hrg. rewrite <- B. apply Hg. lia. }
  split; [apply H8; [done | by left]|]. split; [done|]. constructor.
  - intros c [Hc | Hc]%elem_of_app.
    + destruct (H1 c) as (A & B & C); [rewrite Hp; by right|]. split; [done|]. split; [|set_solver]. apply not_elem_of_union. split; [|done]. apply not_elem_of_singleton. by intros ->.
    + destruct (Hk c Hc) as (A & B & C & D). split; [lia|]. split; [set_solver|]. intros _. rewrite B. set_solver.
  - split; [|done]. apply NoDup_app. split; [done|]. split; [|by apply rt_children_NoDup]. intros c Hc Hc'. destruct (Hk c Hc') as (A & B & _).
    destruct (H1 c) as (_ & _ & C); [rewrite Hp; by right|]. apply Hrg. rewrite <- B. apply C. lia.
  - intros c [->%elem_of_singleton | Hc]%elem_of_union; [split; [done | set_solver] | destruct (H3 c Hc); split; [done | set_solver]].
  - intros c Hc Hpar. rewrite elem_of_union, elem_of_singleton, elem_of_app. destruct (decide (c = r)) as [->|Hcr]; [left; by left|].
    destruct (decide (0 < c ∧ rt_parent c = r)) as [[Hc0 Hcp]|Hnp].
    + right; right. apply rt_children_spec; [done|]. split; [lia | done].
    + destruct (H4 c Hc) as [? | Hcd]; [intros Hc0; specialize (Hpar Hc0); apply elem_of_union in Hpar as [?%elem_of_singleton | ?]; [tauto | done] | left; by right |].
      rewrite Hp, elem_of_cons in Hcd. destruct Hcd; [done | right; by left].
  - exact H5.
  - intros c Hc. destruct (H6 c Hc). split; [set_solver | done].
  - intros i Hi Hi'. destruct (decide (i = r)) as [->|Hir].
    + split; [|done]. rewrite (H8 r Hr (or_introl Hrg)). assert (arrived sd u r = []) as ->; [|done]. apply elem_of_nil_inv. intros c [[Hcs _] Hc]%list_elem_of_filter.
      destruct (Hk c Hc) as (_ & _ & _ & Hcg). by destruct (H6 c Hcs).
    + apply elem_of_union in Hi as [?%elem_of_singleton | Hi]; [done|]. destruct (H7 i Hi Hi') as [A B]. split; [done|]. intros _. apply B. by intros [].
  - intros i Hi [Hg | Hs]; [|apply H8; [done | by right]]. apply H8; [done|]. left. set_solver.
  - exact H9.
Qed.

Lemma filter_one_more {A} (P Q : A → Prop) `{∀ x, Decision (P x), ∀ x, Decision (Q x)} (l : list A) c : NoDup l → c ∈ l → ¬ P c → Q c → (∀ x, x ∈ l → x ≠ c → (P x ↔ Q x)) →
  length (filter Q l) = S (length (filter P l)).
Proof.
  induction 1 as [|k l Hk Hnd IH]; [by intros ?%not_elem_of_nil|]. intros Hc HP HQ Heq. rewrite !filter_cons. apply elem_of_cons in Hc as [-> | Hc].
  - rewrite (decide_True (P := Q k)), (decide_False (P := P k)) by done. cbn [length]. f_equal. clear IH. induction l as [|x l IH]; [done|]. apply not_elem_of_cons in Hk as [Hx Hk]. apply NoDup_cons in Hnd as [_ Hnd].
    rewrite !filter_cons. assert (P x ↔ Q x) as HPQ by (apply Heq; [right; by left | done]). specialize (IH Hk Hnd ltac:(intros y [->|Hy]%elem_of_cons Hne; [done | apply Heq; [by right; right | done]])).
    do 2 case_decide; try tauto. cbn [length]. by rewrite IH.
  - assert (k ≠ c) as Hkc by (by intros ->). assert (P k ↔ Q k) as HPQ by (apply Heq; [by left | done]). specialize (IH Hc HP HQ ltac:(intros; apply Heq; [by right | done])).
    do 2 case_decide; try tauto. cbn [length]. by rewrite IH.
Qed.

(** The response of a child arrives. *)
Lemma up_ok al g sd d u f n c : inv (λ _, False) al g sd d u f → u !! n = Some c →
  let r := rt_parent c in r ∈ g ∧ r ∉ sd ∧ inv (λ i, i = r) (upd al r (al r + 1)) g sd d (delete n u) f.
Proof.
  intros [H1 H2 H3 H4 H5 H6 H7 H8 H9] Hn r. pose proof (delete_split u n c Hn) as Hp. destruct (H5 c) as [Hc Hcs]; [rewrite Hp; by left|].
  destruct (parent_range c Hc) as (Hr & Hrc & _). fold r in Hr, Hrc. destruct (H6 c Hcs) as [Hcg _]. destruct (H3 c Hcg) as [_ Hrg]. specialize (Hrg ltac:(lia)). fold r in Hrg.
  assert (r ∉ sd) as Hrs by (intros Hs; destruct (H6 r Hs) as [_ Hx]; destruct (Hx c Hrc) as [_ []]; rewrite Hp; by left).
  destruct H2 as [Hnd Hnu]. rewrite Hp in Hnu. apply NoDup_cons in Hnu as [Hcu Hnu]. split; [done|]. split; [done|].
  assert (∀ x, x ∈ u ↔ x = c ∨ x ∈ delete n u) as Hu by (intros x; rewrite Hp at 1; apply elem_of_cons).
  constructor; try done.
  - intros x Hx. apply H5, Hu. by right.
  - intros x Hx. destruct (H6 x Hx) as [A B]. split; [done|]. intros k Hk. destruct (B k Hk) as [? Hku]. split; [done|]. intros ?. apply Hku, Hu. by right.
  - intros i Hi Hi'. destruct (H7 i Hi Hi') as [A B]. unfold upd. destruct (decide (i = r)) as [->|Hir].
    + split; [|done]. rewrite A. unfold arrived. rewrite (filter_one_more (λ x, x ∈ sd ∧ x ∉ u) (λ x, x ∈ sd ∧ x ∉ delete n u) (rt_children r) c); [lia | by apply rt_children_NoDup | done | | done |].
      * intros [_ Hx]. apply Hx, Hu. by left.
      * intros x _ Hxc. rewrite Hu. tauto.
    + split; [|intros _; apply B; by intros []]. rewrite A. do 2 f_equal. apply arrived_same. intros x Hx. rewrite Hu. destruct (H3 i Hi) as [Hi0 _]. destruct (kid_range i x Hi0 Hx) as (_ & Hxp & _).
      assert (x ≠ c) by (intros ->; apply Hir; symmetry; exact Hxp). tauto.
  - intros i Hi Hcase. unfold upd. destruct (decide (i = r)) as [->|]; [tauto | by apply H8].
Qed.

(** The number of deliveries so far. *)
Definition delivered (S : sys) : Z := Z.of_nat (size (got S)) + Z.of_nat (size (said S)) - Z.of_nat (length (up S)) - Z.of_nat (fe S).

(** Which messages are in a list that is written out. *)
Ltac decide_outputs HR :=
  repeat match goal with |- context [decide (?x ∈ ?l ∨ ?y ∈ ?l)] => first [rewrite (decide_True (P := x ∈ l ∨ y ∈ l)) by set_solver | rewrite (decide_False (P := x ∈ l ∨ y ∈ l)) by set_solver] end;
  repeat match goal with |- context [decide (?x ∈ ?l)] => first [rewrite (decide_True (P := x ∈ l)) by set_solver | rewrite (decide_False (P := x ∈ l)) by set_solver] end;
  repeat match type of HR with context [decide (?x ∈ ?l)] => first [rewrite (decide_True (P := x ∈ l)) in HR by set_solver | rewrite (decide_False (P := x ∈ l)) in HR by set_solver] end.

(** What the last part of the handler does. *)
Lemma put_alive S r k o g d u : inv (λ i, i = r) (upd (alives S) r k) g (said S) (d ++ if decide (ToChildren ∈ o) then rt_children r else []) u (fe S) → r ∈ g → r ∉ said S →
  o = [] ∨ o = [ToChildren] →
  let '(k', o') := if kids r =? k then (0, o ++ [if r =? 0 then ToFrontend else ToParent]) else (k, o) in
  inv_of (put S r k' o' g d u) ∧ delivered (put S r k' o' g d u) = Z.of_nat (size g) + Z.of_nat (size (said S)) - Z.of_nat (length u) - Z.of_nat (fe S).
Proof.
  intros I Hg Hsd Ho. pose proof (respond_ok r _ g (said S) _ u (fe S) I Hg Hsd) as HR. unfold upd at 1 in HR. rewrite decide_True in HR by done.
  assert (size ({[r]} ∪ said S) = Datatypes.S (size (said S))) as Hsz by (rewrite size_union, size_singleton by set_solver; done).
  destruct (kids r =? k); unfold inv_of, delivered, put; cbn [alives got said down up fe].
  - destruct Ho as [-> | ->], (r =? 0); cbn [app] in *;
      decide_outputs HR;
      rewrite ?Nat.add_1_r, ?Nat.add_0_r, ?app_nil_r in *; (split; [eapply alive_ext; [|exact HR]; intros i; unfold upd; repeat case_decide; done | rewrite ?length_app; cbn [length]; lia]).
  - destruct Ho as [-> | ->];
      decide_outputs HR;
      rewrite ?Nat.add_0_r, ?app_nil_r in *; (split; [exact HR | done]).
Qed.

Lemma step_alive S l : inv_of S → match exec S l with Next S' => inv_of S' ∧ delivered S' = delivered S + 1 | Disabled => True | Fault => False end.
Proof.
  intros I. destruct l as [n|n]; cbn [exec].
  - destruct (down S !! n) as [r|] eqn:Hn; [|done]. destruct (down_ok _ _ _ _ _ _ n r I Hn) as (Hal & Hsd & I'). unfold handle_alive_msg. rewrite Hal. cbn [negb Z.eqb].
    assert (r ∉ got S) as Hg by (apply (i_down _ _ _ _ _ _ _ I); by eapply list_elem_of_lookup_2).
    assert (size ({[r]} ∪ got S) = Datatypes.S (size (got S))) as Hsz by (rewrite size_union, size_singleton by set_solver; done).
    set (o := if kids r =? 0 then [] else [ToChildren]).
    assert (inv (λ i, i = r) (upd (alives S) r 0) ({[r]} ∪ got S) (said S) (delete n (down S) ++ if decide (ToChildren ∈ o) then rt_children r else []) (up S) (fe S)) as I1.
    { assert ((if decide (ToChildren ∈ o) then rt_children r else []) = rt_children r) as ->.
      { unfold o. destruct (Z.eqb_spec (kids r) 0) as [E|E]; [|rewrite decide_True by (by left); done]. unfold kids in E. assert (rt_children r = []) as -> by (apply nil_length_inv; lia). by case_decide. }
      eapply alive_ext; [|exact I']. intros i. unfold upd. case_decide; [by subst | done]. }
    pose proof (put_alive S r 0 o ({[r]} ∪ got S) (delete n (down S)) (up S) I1 ltac:(set_solver) Hsd ltac:(unfold o; destruct (kids r =? 0); [by left | by right])) as HP.
    destruct (if kids r =? 0 then (0, o ++ [if r =? 0 then ToFrontend else ToParent]) else (0, o)) as [k' o']. destruct HP as [? HP]. split; [done|]. rewrite HP. unfold delivered. lia.
  - destruct (up S !! n) as [c|] eqn:Hn; [|done]. destruct (up_ok _ _ _ _ _ _ n c I Hn) as (Hg & Hsd & I'). unfold handle_alive_msg. set (r := rt_parent c) in *.
    assert (length (up S) = Datatypes.S (length (delete n (up S)))) as Hl by (by rewrite (delete_split _ _ _ Hn) at 1).
    pose proof (put_alive S r (alives S r + 1) [] (got S) (down S) (delete n (up S)) ltac:(rewrite decide_False by apply not_elem_of_nil; by rewrite app_nil_r) Hg Hsd ltac:(by left)) as HP.
    destruct (if kids r =? alives S r + 1 then _ else _) as [k' o']. destruct HP as [? HP]. split; [done|]. rewrite HP. unfold delivered. lia.
Qed.

Lemma reach_alive n S : 0 < rt_size → reach n S → inv_of S ∧ delivered S = Z.of_nat n.
Proof.
  intros Hs. induction 1 as [|n S l S' _ [I Hd] E]; [split; [by apply start_inv | reflexivity]|].
  pose proof (step_alive S l I) as Hst. rewrite E in Hst. destruct Hst as [? ->]. split; [done | lia].
Qed.

(** All servers below a server that has responded have responded. *)
Lemma all_said S : inv_of S → 0 ∈ said S → ∀ r, 0 <= r < rt_size → r ∈ said S ∧ r ∉ up S.
Proof.
  intros I H0 r Hr. cut (∀ n : nat, ∀ r, 0 <= r < rt_size → r <= Z.of_nat n → r ∈ said S ∧ r ∉ up S); [intros Hc; apply (Hc (Z.to_nat r)); lia|].
  assert (0 ∉ up S) as H0u by (intros Hu; destruct (i_up _ _ _ _ _ _ _ I 0 Hu); lia).
  clear r Hr. induction n as [|n IH]; intros r Hr Hn; [assert (r = 0) as -> by lia; done|].
  destruct (decide (r = 0)) as [->|Hr0]; [done|]. assert (0 < r < rt_size) as Hr1 by lia. destruct (parent_range r Hr1) as (Hp & Hpc & _). pose proof (rt_parent_lt r Hr1).
  destruct (IH (rt_parent r)) as [Hps _]; [lia | lia |]. by apply (i_said _ _ _ _ _ _ _ I _ Hps).
Qed.

(** When nothing is on the way, every server has responded. *)
Lemma quiet_said S : inv_of S → 0 < rt_size → down S = [] → up S = [] → 0 ∈ said S.
Proof.
  intros I Hs Hd Hu. assert (∀ r, 0 <= r < rt_size → r ∈ got S) as Hg.
  { intros r Hr. cut (∀ n : nat, ∀ r, 0 <= r < rt_size → r <= Z.of_nat n → r ∈ got S); [intros Hc; apply (Hc (Z.to_nat r)); lia|].
    clear r Hr. induction n as [|n IH]; intros r Hr Hn.
    - destruct (i_next _ _ _ _ _ _ _ I r Hr) as [? | Hx]; [lia | done | rewrite Hd in Hx; by apply not_elem_of_nil in Hx].
    - destruct (i_next _ _ _ _ _ _ _ I r Hr) as [? | Hx]; [|done | rewrite Hd in Hx; by apply not_elem_of_nil in Hx].
      intros Hr0. assert (0 < r < rt_size) as Hr1 by lia. pose proof (rt_parent_lt r Hr1). apply IH; lia. }
  cut (∀ n : nat, ∀ r, 0 <= r < rt_size → rt_size - r <= Z.of_nat n → r ∈ said S); [intros Hc; apply (Hc (Z.to_nat rt_size)); lia|].
  induction n as [|n IH]; intros r Hr Hn; [lia|]. destruct (decide (r ∈ said S)) as [?|Hns]; [done|]. exfalso.
  destruct (i_count _ _ _ _ _ _ _ I r (Hg r Hr) Hns) as [Hal Hlt]. specialize (Hlt ltac:(by intros [])).
  assert (arrived (said S) (up S) r = rt_children r) as Hall; [|unfold kids in Hlt; rewrite Hall in Hal; lia].
  unfold arrived. assert (∀ c, c ∈ rt_children r → c ∈ said S ∧ c ∉ up S) as Hk.
  { intros c Hc. destruct (kid_range r c Hr Hc) as (Hc1 & Hc2 & _). pose proof (rt_parent_lt c Hc1). split; [apply IH; lia | rewrite Hu; apply not_elem_of_nil]. }
  clear - Hk. induction (rt_children r) as [|k l IHl]; [done|]. rewrite filter_cons_True by (apply Hk; by left). f_equal. apply IHl. intros; apply Hk; by right.
Qed.
End tree.

(** C22: The front end learns that all servers are there, and only then.  However the messages overtake each other: no [assert] fails, at most one response reaches the front end, and when it does every
    server has handled the request, nothing is on the way and the counters are back at 0; and after at most two messages per server nothing is on the way and the front end has the response. *)
Theorem alive_all_servers {T : RankTree} n S : 0 < rt_size → reach n S →
  (∀ l, exec S l ≠ Fault) ∧ Z.of_nat n <= 2 * rt_size ∧
  (fe S <= 1)%nat ∧
  (fe S = 1%nat → down S = [] ∧ up S = [] ∧ ∀ r, 0 <= r < rt_size → r ∈ got S ∧ alives S r = 0) ∧
  (down S = [] → up S = [] → fe S = 1%nat).
Proof.
  intros Hs HS. destruct (reach_alive n S Hs HS) as [I Hd]. pose proof (i_fe _ _ _ _ _ _ _ I) as Hf. split; [|split; [|split; [|split]]].
  - intros l E. pose proof (step_alive S l I) as Hst. by rewrite E in Hst.
  - assert (∀ X : gset Z, (∀ c, c ∈ X → 0 <= c < rt_size) → Z.of_nat (size X) <= rt_size) as Hsz.
    { intros X HX. transitivity (Z.of_nat (size (list_to_set (seqZ 0 rt_size) : gset Z))).
      - apply Nat2Z.inj_le, subseteq_size. intros c Hc. apply elem_of_list_to_set, elem_of_seqZ. specialize (HX c Hc). lia.
      - rewrite size_list_to_set by apply NoDup_seqZ. rewrite length_seqZ. lia. }
    assert (∀ c, c ∈ got S → 0 <= c < rt_size) as Hg by (intros c Hc; by apply (i_got _ _ _ _ _ _ _ I)).
    pose proof (Hsz _ Hg). pose proof (Hsz (said S) ltac:(intros c Hc; apply Hg; by apply (i_said _ _ _ _ _ _ _ I))). unfold delivered in Hd. lia.
  - rewrite Hf. case_decide; lia.
  - rewrite Hf. case_decide as H0; [|done]. intros _. pose proof (all_said S I H0) as Hall. split; [|split].
    + apply elem_of_nil_inv. intros c Hc. destruct (i_down _ _ _ _ _ _ _ I c Hc) as (Hc1 & Hc2 & _). apply Hc2. by apply (i_said _ _ _ _ _ _ _ I), Hall.
    + apply elem_of_nil_inv. intros c Hc. destruct (i_up _ _ _ _ _ _ _ I c Hc) as (Hc1 & _). by destruct (Hall c ltac:(lia)).
    + intros r Hr. destruct (Hall r Hr) as [Hrs _]. split; [by apply (i_said _ _ _ _ _ _ _ I) | apply (i_zero _ _ _ _ _ _ _ I); [done | by right]].
  - intros H1 H2. rewrite Hf, decide_True by (by apply quiet_said). done.
Qed.

(** ** An example *)

Definition tree3 : RankTree := Cobo.cobo_rank_tree 3 ltac:(lia).
Fixpoint deliver {T : RankTree} (S : sys) (ls : list label) : option sys :=
  match ls with [] => Some S | l :: ls' => match exec S l with Next S' => deliver S' ls' | _ => None end end.
Lemma deliver_reach {T : RankTree} ls n S S' : reach n S → deliver S ls = Some S' → reach (n + length ls) S'.
Proof.
  revert n S. induction ls as [|l ls IH]; intros n S H; cbn [deliver length]; [intros [= <-]; by rewrite Nat.add_0_r|].
  destruct (exec S l) as [S1| |] eqn:E; [|done..]. rewrite Nat.add_succ_r. apply (IH (Datatypes.S n)). by eapply reach_step.
Qed.
Definition demo_end : option sys := deliver (T := tree3) start [Down 0; Down 0; Down 0; Up 0; Up 0].
Lemma alive_all_servers_witness : ∃ S, demo_end = Some S ∧ fe S = 1%nat ∧ ∀ r, 0 <= r < 3 → alives S r = 0.
Proof.
  assert (fe <$> demo_end = Some 1%nat) as E by (vm_compute; reflexivity). destruct demo_end as [S|] eqn:ES; [|discriminate]. injection E as E. exists S. split; [reflexivity|]. split; [exact E|].
  destruct (alive_all_servers (T := tree3) 5 S ltac:(reflexivity) (deliver_reach _ 0 start S reach_start ES)) as (_ & _ & _ & H & _). intros r Hr. by apply H.
Defined.
End Alive.
