(* ===== verification/TlsTree.v ===== *)
(** * Thread-local storage in the tree of servers

    A client asks its server how much thread-local storage a program needs.  A server that knows answers; the root
    calculates; the others ask their parent.  The answer goes down the tree to all children or to those that asked, and to the
    clients that wait.  The handlers are those of [ldcs_audit_server_handlers.c]; they run on the ranks of a tree.  [None] is a failing [assert]. *)

From Stdlib Require Import Ascii String ZArith Lia.
From stdpp Require Import strings numbers list sets gmap.
From S2P Require Import Prelude Bytes StaticTls TlsCalc Requestors Cobo.
Import StaticTls TlsCalc.

Module TlsTree.

(** ** A server *)

(** A slot of [client_table]: whether it has a client to answer to, and the question that the client waits for. *)
Record client := mk_client { c_open : bool; tls_info : option static_tls_info_t }.

Inductive dist_model_t := LDCS_PUSH | LDCS_PULL.

Section handlers.
Context {R : Type} `{RequestorStore R}.

Record tserver := mk_tserver {
  tab : tables;
  pending_tls_requests : R;
  completed_tls_requests : R;
  client_table : list client;
}.

(** What a server sends: to its parent, to all children, to one of them, and the answer to a client with the question it had. *)
Inductive tout :=
  | ToParent (msg : bytes)
  | ToChildren (msg : bytes)
  | ToChild (peer : node_peer_t) (msg : bytes)
  | ToClient (nc : nat) (question : static_tls_info_t) (tls_size tls_alignment : Z).

Definition set_tab (t : tables) (s : tserver) : tserver := mk_tserver t (pending_tls_requests s) (completed_tls_requests s) (client_table s).
Definition set_pending (p : R) (s : tserver) : tserver := mk_tserver (tab s) p (completed_tls_requests s) (client_table s).
Definition set_completed (c : R) (s : tserver) : tserver := mk_tserver (tab s) (pending_tls_requests s) c (client_table s).
Definition set_clients (l : list client) (s : tserver) : tserver := mk_tserver (tab s) (pending_tls_requests s) (completed_tls_requests s) l.

Definition peers (t : R) (key : bytes) : list node_peer_t := default [] (rs_get t key).
Definition peer_requested (t : R) (key : bytes) (p : node_peer_t) : bool := bool_decide (p ∈ peers t key).
Definition been_requested (t : R) (key : bytes) : bool := if rs_get t key then true else false.

(** *** The answer *)

(** The loop over the children that asked. *)
Fixpoint send_to_nodes (completed : R) (tlskey msg : bytes) (nodes : list node_peer_t) : R * list tout :=
  match nodes with
  | [] => (completed, [])
  | n :: nodes' =>
      if (n =? NODE_PEER_CLIENT) || (n =? NODE_PEER_NULL) then send_to_nodes completed tlskey msg nodes'
      else if peer_requested completed tlskey n then send_to_nodes completed tlskey msg nodes'
      else let '(completed, o) := send_to_nodes (rs_add completed tlskey n) tlskey msg nodes' in (completed, ToChild n msg :: o)
  end.

Definition handle_tls_send_results (dist_model : dist_model_t) (s : tserver) (tlskey msg : bytes) : tserver * list tout :=
  if peer_requested (completed_tls_requests s) tlskey NODE_PEER_ALL then (s, [])
  else
    let finish s := set_pending (rs_clear (pending_tls_requests s) tlskey) s in
    match dist_model with
    | LDCS_PUSH => (finish (set_completed (rs_add (completed_tls_requests s) tlskey NODE_PEER_ALL) s), [ToChildren msg])
    | LDCS_PULL =>
        match rs_get (pending_tls_requests s) tlskey with
        | None => (s, [])
        | Some nodes => let '(completed, o) := send_to_nodes (completed_tls_requests s) tlskey msg nodes in (finish (set_completed completed s), o)
        end
    end.

Definition asks (tlsinfo : static_tls_info_t) (c : client) : bool :=
  c_open c && match tls_info c with Some i => static_tls_info_equal i tlsinfo | None => false end.

(** The clients that are answered, and their slots afterwards. *)
Fixpoint client_answers (nc : nat) (l : list client) (tlsinfo : static_tls_info_t) (tls_size tls_alignment : Z) : list tout :=
  match l with
  | [] => []
  | c :: l' =>
      match tls_info c with
      | Some i => if asks tlsinfo c then [ToClient nc i tls_size tls_alignment] else []
      | None => []
      end ++ client_answers (S nc) l' tlsinfo tls_size tls_alignment
  end.
Definition clear_answered (tlsinfo : static_tls_info_t) (l : list client) : list client := (λ c, if asks tlsinfo c then mk_client (c_open c) None else c) <$> l.

Definition result_msg (tlsinfo : static_tls_info_t) (tls_size tls_alignment : Z) : option bytes :=
  buffer ← static_tls_info_encode tlsinfo (static_tls_info_encode_size_needed tlsinfo);
  Some (le64 tls_size ++ le64 tls_alignment ++ buffer).

Definition handle_tls_process_result (dist_model : dist_model_t) (s : tserver) (tlsinfo : static_tls_info_t) (tlskey : bytes) (tls_size tls_alignment : Z) : option (tserver * list tout) :=
  msg ← result_msg tlsinfo tls_size tls_alignment;
  let '(s, o) := handle_tls_send_results dist_model s tlskey msg in
  Some (set_clients (clear_answered tlsinfo (client_table s)) s, o ++ client_answers 0 (client_table s) tlsinfo tls_size tls_alignment).

(** *** The question *)

(** The peer is noted unless it is a client of this server. *)
Definition note_requestor (s : tserver) (tlskey : bytes) (from : node_peer_t) : tserver :=
  if from =? NODE_PEER_CLIENT then s else set_pending (rs_add (pending_tls_requests s) tlskey from) s.

Definition handle_tls_send_request (s : tserver) (tlsinfo : static_tls_info_t) (tlskey : bytes) (from : node_peer_t) : option (tserver * list tout) :=
  if been_requested (pending_tls_requests s) tlskey then Some (note_requestor s tlskey from, [])
  else
    buffer ← static_tls_info_encode tlsinfo (static_tls_info_encode_size_needed tlsinfo + 1);
    Some (note_requestor s tlskey from, [ToParent buffer]).

Context (calc : tables → static_tls_info_t → option (tables * (Z * Z))).

Definition handle_tls_request (dist_model : dist_model_t) (responsible : bool) (s : tserver) (tlsinfo : static_tls_info_t) (from : node_peer_t) : option (tserver * list tout) :=
  let tls_key := static_tls_info_to_idstr tlsinfo in
  match static_tls_info_lookup (tab s) tlsinfo with
  | Some (tls_size, tls_align) => handle_tls_process_result dist_model (note_requestor s tls_key from) tlsinfo tls_key tls_size tls_align
  | None =>
      if responsible then
        '(t, (tls_size, tls_align)) ← calc (tab s) tlsinfo;
        handle_tls_process_result dist_model (set_tab t (note_requestor s tls_key from)) tlsinfo tls_key tls_size tls_align
      else handle_tls_send_request s tlsinfo tls_key from
  end.

(** A message that cannot be decoded changes nothing. *)
Definition handle_client_static_tls_req (dist_model : dist_model_t) (responsible : bool) (s : tserver) (nc : nat) (msg : bytes) : option (tserver * list tout) :=
  d ← static_tls_info_decode msg;
  match d with
  | None => Some (s, [])
  | Some tlsinfo =>
      c ← client_table s !! nc;
      match tls_info c with
      | Some _ => None
      | None => handle_tls_request dist_model responsible (set_clients (<[nc := mk_client (c_open c) (Some tlsinfo)]> (client_table s)) s) tlsinfo NODE_PEER_CLIENT
      end
  end.

Definition handle_static_tls_req (dist_model : dist_model_t) (responsible : bool) (s : tserver) (msg : bytes) (from : node_peer_t) : option (tserver * list tout) :=
  d ← static_tls_info_decode msg;
  match d with None => Some (s, []) | Some info => handle_tls_request dist_model responsible s info from end.

Definition handle_static_tls_resp (dist_model : dist_model_t) (s : tserver) (msg : bytes) : option (tserver * list tout) :=
  let tls_size := to_signed 64 (rd_u 8 msg 0) in
  let tls_alignment := to_signed 64 (rd_u 8 msg 8) in
  d ← static_tls_info_decode (drop 16 msg);
  match d with
  | None => Some (s, [])
  | Some tlsinfo =>
      handle_tls_process_result dist_model (set_tab (static_tls_info_add (tab s) tlsinfo tls_size tls_alignment) s) tlsinfo (static_tls_info_to_idstr tlsinfo) tls_size tls_alignment
  end.

End handlers.

(** ** The tree *)

Section tree.
Context {R : Type} `{RequestorStore R} {T : RankTree}.
Context (peer_of : Z → node_peer_t) (dist_model : dist_model_t) (calc : tables → static_tls_info_t → option (tables * (Z * Z))).

(** Messages to parents by their sender, messages to children by their receiver, and the answers that clients got. *)
Record sys := mk_sys {
  servers : Z → tserver (R := R);
  up : list (Z * bytes);
  down : list (Z * bytes);
  answers : list (Z * static_tls_info_t * (Z * Z));
}.

Definition to_parent (r : Z) (o : tout) : list (Z * bytes) := match o with ToParent m => if r =? 0 then [] else [(r, m)] | _ => [] end.
Definition to_children (r : Z) (o : tout) : list (Z * bytes) :=
  match o with
  | ToChildren m => (λ c, (c, m)) <$> rt_children r
  | ToChild p m => (λ c, (c, m)) <$> filter (λ c, peer_of c = p) (rt_children r)
  | _ => []
  end.
Definition to_client (r : Z) (o : tout) : list (Z * static_tls_info_t * (Z * Z)) := match o with ToClient _ q sz al => [(r, q, (sz, al))] | _ => [] end.

Definition put (S : sys) (r : Z) (s : tserver) (o : list tout) (u d : list (Z * bytes)) : sys :=
  mk_sys (λ i, if decide (i = r) then s else servers S i) (u ++ (o ≫= to_parent r)) (d ++ (o ≫= to_children r)) (answers S ++ (o ≫= to_client r)).

(** [Ask]: a client sends its question; [Up], [Down]: the message at a place in the list arrives, so that messages may overtake each other. *)
Inductive label := Ask (r : Z) (nc : nat) (msg : bytes) | Up (n : nat) | Down (n : nat).
Inductive result := Next (S : sys) | Disabled | Fault.

Definition next (S : sys) (r : Z) (x : option (tserver * list tout)) (u d : list (Z * bytes)) : result :=
  match x with Some (s, o) => Next (put S r s o u d) | None => Fault end.

Definition exec (S : sys) (l : label) : result :=
  match l with
  | Ask r nc msg => next S r (handle_client_static_tls_req calc dist_model (r =? 0) (servers S r) nc msg) (up S) (down S)
  | Up n =>
      match up S !! n with
      | Some (c, m) => let r := rt_parent c in next S r (handle_static_tls_req calc dist_model (r =? 0) (servers S r) m (peer_of c)) (delete n (up S)) (down S)
      | None => Disabled
      end
  | Down n =>
      match down S !! n with
      | Some (r, m) => next S r (handle_static_tls_resp dist_model (servers S r) m) (up S) (delete n (down S))
      | None => Disabled
      end
  end.

(** A question that a client that is there can send: it has none outstanding, as it waits for each answer. *)
Definition can_ask (S : sys) (l : label) : Prop :=
  match l with
  | Ask r nc msg => 0 <= r < rt_size ∧ client_table (servers S r) !! nc = Some (mk_client true None) ∧ ∃ info, info_ok info ∧ static_tls_info_decode msg = Some (Some info)
  | _ => True
  end.

Definition init (S : sys) : Prop :=
  (∀ r, tab (servers S r) = no_tables ∧ pending_tls_requests (servers S r) = rs_new ∧ completed_tls_requests (servers S r) = rs_new ∧
    Forall (λ c, tls_info c = None) (client_table (servers S r))) ∧ up S = [] ∧ down S = [] ∧ answers S = [].

Inductive reach : sys → Prop :=
  | reach_init S : init S → reach S
  | reach_step S l S' : reach S → can_ask S l → exec S l = Next S' → reach S'.

End tree.
End TlsTree.
