(* ===== verification/TlsAnswers.v ===== *)
(** * Every question about thread-local storage is answered

    The invariant of [TlsTree]: a client that waits, or a child that was not sent the answer yet, has a question on the
    way, a place in the list of the parent, or an answer on the way. *)

From Stdlib Require Import Ascii String ZArith Lia.
From stdpp Require Import strings numbers list sets gmap.
From S2P Require Import Prelude Bytes StaticTls TlsCalc Requestors Cobo TlsTree.
Import StaticTls TlsCalc TlsTree.

Module TlsAnswers.

(** ** Messages *)

Definition asks_for (msg : bytes) (i : static_tls_info_t) : Prop := static_tls_info_decode msg = Some (Some i).
Definition tells (msg : bytes) (i : static_tls_info_t) (v : Z * Z) : Prop :=
  static_tls_info_decode (drop 16 msg) = Some (Some i) ∧ to_signed 64 (rd_u 8 msg 0) = fst v ∧ to_signed 64 (rd_u 8 msg 8) = snd v.

Lemma asks_for_fun msg i j : asks_for msg i → asks_for msg j → i = j.
Proof. unfold asks_for. congruence. Qed.
Lemma tells_fun msg i j v w : tells msg i v → tells msg j w → i = j ∧ v = w.
Proof. intros (H1 & H2 & H3) (G1 & G2 & G3). destruct v, w. cbn [fst snd] in *. split; congruence. Qed.

Lemma request_ok i : info_ok i → ∃ b, static_tls_info_encode i (static_tls_info_encode_size_needed i + 1) = Some b ∧ asks_for b i.
Proof.
  intros Hi. destruct (decode_encode i Hi) as (b & E & _ & Hd). exists b. split; [|exact Hd]. revert E. unfold static_tls_info_encode.
  destruct (negb _) eqn:E1; [done|]. apply negb_false_iff, Z.leb_le in E1. rewrite (proj2 (Z.leb_le _ _)) by lia. done.
Qed.

Lemma result_ok i v : info_ok i → in_range v → ∃ b, result_msg i (fst v) (snd v) = Some b ∧ tells b i v.
Proof.
  intros Hi [H1 H2]. destruct (decode_encode i Hi) as (b & E & _ & Hd). unfold result_msg. rewrite E. cbn [mbind option_bind].
  eexists. split; [reflexivity|]. assert (∀ z, length (le64 z) = 8%nat) as L by (intros z; apply le_encode_length).
  assert (∀ z, - 2 ^ 63 <= z < 2 ^ 63 → to_signed 64 (le_decode (le64 z)) = z) as D.
  { intros z Hz. unfold le64. rewrite le_decode_encode. change (256 ^ Z.of_nat 8) with (2 ^ 64). apply to_signed_small; lia. }
  split; [|split].
  - rewrite app_assoc, drop_app_exact; [exact Hd | rewrite length_app, !L; lia].
  - rewrite rd_u_front by apply L. by apply D.
  - rewrite (rd_u_app 8 (le64 (fst v)) (le64 (snd v))) by apply L. by apply D.
Qed.

Section inv.
Context {R : Type} `{RS : RequestorStore R} {T : RankTree}.
Context (peer_of : Z → node_peer_t) (dist_model : dist_model_t) (calc : tables → static_tls_info_t → option (tables * (Z * Z))).
Abbreviation tserver := (tserver (R := R)).
Abbreviation sys := (sys (R := R)).
Abbreviation key := static_tls_info_to_idstr.

(** The peer of a child is none of the special ones. *)
Context (peer_special : ∀ c, peer_of c ∉ [NODE_PEER_NULL; NODE_PEER_CLIENT; NODE_PEER_ALL]).

(** The tables that calculations leave. *)
Inductive calculated : tables → Prop :=
  | calculated_none : calculated no_tables
  | calculated_next st i st' v : calculated st → calc st i = Some (st', v) → calculated st'.

(** [v] is what the root finds in its table for a question that is the same as [i], or calculates for it. *)
Definition found_by (i : static_tls_info_t) (v : Z * Z) : Prop :=
  ∃ st j, calculated st ∧ canon j = canon i ∧ (static_tls_info_lookup st j = Some v ∨ ∃ st', calc st j = Some (st', v)).

(** What a calculation finds are numbers that fit a message, and not the pair that stands for a failure. *)
Context (calc_range : ∀ i v, found_by i v → in_range v ∧ v ≠ (-1, -1)).

(** ** What waits, and what for *)

Definition hit (s : tserver) (i : static_tls_info_t) : Prop := ∃ v, static_tls_info_lookup (tab s) i = Some v.
Definition waits (s : tserver) (i : static_tls_info_t) : Prop := ∃ nc c, client_table s !! nc = Some c ∧ tls_info c = Some i.
Definition is_done (s : tserver) (k : bytes) (c : Z) : Prop :=
  NODE_PEER_ALL ∈ peers (completed_tls_requests s) k ∨ peer_of c ∈ peers (completed_tls_requests s) k.
#[global] Instance is_done_dec s k c : Decision (is_done s k c).
Proof. unfold is_done. apply _. Qed.
Definition owes (s : tserver) (k : bytes) (c : Z) : Prop := peer_of c ∈ peers (pending_tls_requests s) k ∧ ¬ is_done s k c.
Definition needs (r : Z) (s : tserver) (i : static_tls_info_t) : Prop := waits s i ∨ ∃ c, c ∈ rt_children r ∧ owes s (key i) c.

Definition told (d : list (Z * bytes)) (r : Z) (i : static_tls_info_t) : Prop := ∃ b v, (r, b) ∈ d ∧ tells b i v.
Definition asked (u : list (Z * bytes)) (r : Z) (i : static_tls_info_t) : Prop := ∃ b, (r, b) ∈ u ∧ asks_for b i.
Definition covered (sv : Z → tserver) (u d : list (Z * bytes)) (r : Z) (i : static_tls_info_t) : Prop :=
  asked u r i ∨ owes (sv (rt_parent r)) (key i) r ∨ told d r i.

Record inv (sv : Z → tserver) (u d : list (Z * bytes)) (a : list (Z * static_tls_info_t * (Z * Z))) : Prop := mk_inv {
  i_up c b : (c, b) ∈ u → 0 < c < rt_size ∧ ∃ i, info_ok i ∧ asks_for b i;
  i_down c b : (c, b) ∈ d → 0 < c < rt_size ∧ ∃ i v, info_ok i ∧ tells b i v ∧ found_by i v;
  i_wf r : rs_wf (pending_tls_requests (sv r)) ∧ rs_wf (completed_tls_requests (sv r));
  i_pend r k p : p ∈ peers (pending_tls_requests (sv r)) k → ∃ c, p = peer_of c;
  i_clients r nc c i : client_table (sv r) !! nc = Some c → tls_info c = Some i → c_open c = true ∧ info_ok i;
  i_tab r i v : r ≠ 0 → static_tls_info_lookup (tab (sv r)) i = Some v → found_by i v;
  i_root_tab : calculated (tab (sv 0));
  i_root i : info_ok i → ¬ needs 0 (sv 0) i;
  i_need r i : 0 < r < rt_size → info_ok i → needs r (sv r) i → covered sv u d r i;
  i_req r i : 0 < r < rt_size → info_ok i → rs_get (pending_tls_requests (sv r)) (key i) ≠ None → covered sv u d r i ∨ hit (sv r) i;
  i_done r c i : 0 <= r < rt_size → c ∈ rt_children r → info_ok i → is_done (sv r) (key i) c → told d c i ∨ hit (sv c) i ∧ ¬ needs c (sv c) i;
  i_answers r i v : (r, i, v) ∈ a → found_by i v;
}.

Definition upd (sv : Z → tserver) (r : Z) (s : tserver) : Z → tserver := λ i, if decide (i = r) then s else sv i.
Lemma server_eq sv r s : upd sv r s r = s.
Proof. unfold upd. by rewrite decide_True. Qed.
Lemma server_ne sv r s i : i ≠ r → upd sv r s i = sv i.
Proof. intros. unfold upd. by rewrite decide_False. Qed.

Lemma tree_child r c : 0 <= r < rt_size → c ∈ rt_children r → 0 < c < rt_size ∧ rt_parent c = r ∧ c ≠ r.
Proof. intros Hr Hc. apply rt_children_spec in Hc as [H1 H2]; [|done]. pose proof (rt_parent_lt c H1). repeat split; lia. Qed.
Lemma tree_parent c : 0 < c < rt_size → 0 <= rt_parent c < rt_size ∧ c ∈ rt_children (rt_parent c) ∧ rt_parent c ≠ c.
Proof. intros Hc. pose proof (rt_parent_lt c Hc). split; [lia|]. split; [|lia]. apply rt_children_spec; [lia | done]. Qed.

Lemma key_eq i j : info_ok i → info_ok j → key i = key j → i = j.
Proof. apply idstr_inj. Qed.

(** ** An answer is handed out *)

(** What [handle_tls_process_result] does to a server, for question [i] with answer [v]; [sent c]: the child is sent a message that tells it. *)
Record settles (r : Z) (s s' : tserver) (sent : Z → Prop) (i : static_tls_info_t) : Prop := {
  st_hit j : r ≠ 0 → hit s j → hit s' j;
  st_hit_i : r ≠ 0 → hit s' i;
  st_pend k : k ≠ key i → rs_get (pending_tls_requests s') k = rs_get (pending_tls_requests s) k;
  st_owes c : ¬ owes s' (key i) c;
  st_sent c : c ∈ rt_children r → owes s (key i) c → sent c;
  st_comp k c : k ≠ key i → is_done s' k c ↔ is_done s k c;
  st_done c : c ∈ rt_children r → is_done s' (key i) c → is_done s (key i) c ∨ sent c;
  st_waits j : waits s' j → waits s j ∧ j ≠ i;
}.

(** The messages: [u'] may lack one question of a child of [r] about [i], which is then told unless that was done before; [d'] may lack one answer to [r]. *)
Lemma settle_step sv u d a r s' u' d' a' sent i :
  inv sv u d a → 0 <= r < rt_size → info_ok i → settles r (sv r) s' sent i →
  (∀ x, x ∈ u' → x ∈ u) →
  (∀ c b, (c, b) ∈ u → (c, b) ∈ u' ∨ c ∈ rt_children r ∧ asks_for b i ∧ (sent c ∨ is_done (sv r) (key i) c)) →
  (∀ c b, (c, b) ∈ d → (c, b) ∈ d' ∨ c = r ∧ ∃ v, tells b i v) →
  (∀ c b, (c, b) ∈ d' → (c, b) ∈ d ∨ c ∈ rt_children r ∧ ∃ v, tells b i v ∧ found_by i v) →
  (∀ c, c ∈ rt_children r → sent c → told d' c i) →
  rs_wf (pending_tls_requests s') → rs_wf (completed_tls_requests s') →
  (∀ k p, p ∈ peers (pending_tls_requests s') k → ∃ c, p = peer_of c) →
  (∀ nc c j, client_table s' !! nc = Some c → tls_info c = Some j → c_open c = true ∧ info_ok j) →
  (r ≠ 0 → ∀ j v, static_tls_info_lookup (tab s') j = Some v → found_by j v) → (r = 0 → calculated (tab s')) →
  (∀ q j v, (q, j, v) ∈ a' → (q, j, v) ∈ a ∨ found_by j v) →
  inv (upd sv r s') u' d' a'.
Proof.
  intros [H1 H2 H3 H4 H5 H6 H7 H8 H9 H10 H11 H12] Hr Hi [S1 S2 S3 S4 S5 S6 S7 S8] Hu1 Hu2 Hd1 Hd2 Hsent W1 W2 Hp Hc Ht Ht0 Ha.
  assert (∀ j, info_ok j → needs r s' j → needs r (sv r) j ∧ j ≠ i) as Hneed.
  { intros j Hj [Hw | (c & Hc1 & Hc2)].
    - apply S8 in Hw as [? ?]. split; [by left | done].
    - assert (j ≠ i) as Hji by (intros ->; by eapply S4). split; [|done]. right. exists c. split; [done|].
      assert (key j ≠ key i) as Hk by (intros Hk; apply Hji; by apply key_eq). destruct Hc2 as [Hc2 Hc3]. split.
      + unfold peers in *. by rewrite <- S3.
      + by rewrite <- S6. }
  assert (∀ c j, told d c j → c ≠ r ∨ j ≠ i → told d' c j) as Htold.
  { intros c j (b & v & Hb & Hv) Hne. destruct (Hd1 _ _ Hb) as [? | (-> & w & Hw)]; [by exists b, v|]. destruct (tells_fun _ _ _ _ _ Hv Hw) as [-> _]. by destruct Hne. }
  assert (∀ q j, 0 < q < rt_size → info_ok j → covered sv u d q j → (q ≠ r ∨ j ≠ i) → covered (upd sv r s') u' d' q j ∨ hit (sv q) j ∧ ¬ needs q (sv q) j) as Hcov.
  { intros q j Hq Hj Hc0 Hne. destruct Hc0 as [(b & Hb & Hbj) | [Ho | Ht1]].
    - destruct (Hu2 _ _ Hb) as [Hb' | (Hq1 & Hbi & Hcase)]; [left; left; by exists b|].
      pose proof (asks_for_fun _ _ _ Hbj Hbi) as ->. destruct (tree_child r q Hr Hq1) as (_ & _ & Hqr). destruct Hcase as [Hs | Hdone]; [left; right; right; by apply Hsent|].
      destruct (H11 r q i Hr Hq1 Hi Hdone) as [Htq | Hn]; [left; right; right; apply Htold; [done | by left] | by right].
    - left. destruct (tree_parent q Hq) as (Hpr & Hq1 & Hpq). destruct (decide (rt_parent q = r)) as [E|E].
      + rewrite E in *. destruct (decide (j = i)) as [->|Hji]; [right; right; apply Hsent; [done | by apply S5]|].
        right; left. rewrite E, server_eq. assert (key j ≠ key i) as Hk by (intros Hk; apply Hji; by apply key_eq).
        destruct Ho as [Ho1 Ho2]. split; [unfold peers in *; by rewrite S3 | by rewrite S6].
      + right; left. by rewrite server_ne.
    - left. right; right. apply Htold; [done|]. done. }
  assert (∀ q j, q ≠ r → needs q (upd sv r s' q) j ↔ needs q (sv q) j) as Hother by (intros q j Hq; by rewrite server_ne).
  constructor.
  - intros c b Hb. by apply H1, Hu1.
  - intros c b Hb. destruct (Hd2 _ _ Hb) as [? | (Hc1 & v & Hv & Hf)]; [by apply H2|]. split; [by apply (tree_child r c) | by exists i, v].
  - intros q. destruct (decide (q = r)) as [->|Hq]; [by rewrite server_eq | by rewrite server_ne].
  - intros q k p. destruct (decide (q = r)) as [->|Hq]; [rewrite server_eq; apply Hp | rewrite server_ne by done; apply H4].
  - intros q nc c j. destruct (decide (q = r)) as [->|Hq]; [rewrite server_eq; apply Hc | rewrite server_ne by done; apply H5].
  - intros q j v Hq0. destruct (decide (q = r)) as [->|Hq]; [rewrite server_eq; by apply Ht | rewrite server_ne by done; by apply H6].
  - destruct (decide (0 = r)) as [<-|Hq]; [rewrite server_eq; by apply Ht0 | by rewrite server_ne].
  - intros j Hj. destruct (decide (0 = r)) as [<-|Hq]; [|rewrite Hother by done; by apply H8]. rewrite server_eq. intros Hn. apply Hneed in Hn as [Hn _]; [|done]. by eapply H8.
  - intros q j Hq Hj Hn. destruct (decide (q = r)) as [->|Hqr].
    + rewrite server_eq in Hn. apply Hneed in Hn as [Hn Hji]; [|done]. destruct (Hcov r j Hq Hj (H9 _ _ Hq Hj Hn) (or_intror Hji)) as [? | [_ ?]]; done.
    + rewrite Hother in Hn by done. destruct (Hcov q j Hq Hj (H9 _ _ Hq Hj Hn) (or_introl Hqr)) as [? | [_ ?]]; done.
  - intros q j Hq Hj Hg. destruct (decide (q = r)) as [->|Hqr].
    + rewrite server_eq in *. destruct (decide (j = i)) as [->|Hji]; [right; apply S2; lia|].
      assert (key j ≠ key i) as Hk by (intros Hk; apply Hji; by apply key_eq). rewrite S3 in Hg by done.
      destruct (H10 r j Hq Hj Hg) as [Hcv | Hh]; [|right; apply S1; [lia | done]].
      destruct (Hcov r j Hq Hj Hcv (or_intror Hji)) as [? | [? _]]; [by left | right; apply S1; [lia | done]].
    + rewrite server_ne in * by done. destruct (H10 q j Hq Hj Hg) as [Hcv | Hh]; [|by right].
      destruct (Hcov q j Hq Hj Hcv (or_introl Hqr)) as [? | [? _]]; [by left | by right].
  - intros p c j Hp0 Hc0 Hj Hdone. destruct (tree_child p c Hp0 Hc0) as (Hcr & Hpc & Hcp).
    assert (told d' c j ∨ is_done (sv p) (key j) c) as [? | Hdone']; [|by left|].
    { destruct (decide (p = r)) as [->|Hpr]; [|rewrite server_ne in Hdone by done; by right]. rewrite server_eq in Hdone.
      destruct (decide (j = i)) as [->|Hji].
      - destruct (S7 _ Hc0 Hdone); [by right | left; by apply Hsent].
      - assert (key j ≠ key i) as Hk by (intros Hk; apply Hji; by apply key_eq). right. by rewrite <- S6. }
    destruct (H11 p c j Hp0 Hc0 Hj Hdone') as [Ht1 | [Hh Hn]].
    + destruct (decide (c = r)) as [->|Hcr']; [|left; apply Htold; [done | by left]]. destruct (decide (j = i)) as [->|Hji]; [|left; apply Htold; [done | by right]].
      right. rewrite server_eq. split; [apply S2; lia|]. intros Hn. apply Hneed in Hn; [tauto | done].
    + right. destruct (decide (c = r)) as [->|Hcr']; [|by rewrite server_ne]. rewrite server_eq. split; [apply S1; [lia | done]|]. intros Hn'. apply Hneed in Hn'; [tauto | done].
  - intros q j v Hv. destruct (Ha _ _ _ Hv); [by eapply H12 | done].
Qed.

(** ** A question is passed on *)

(** [u'] may lack a question of a child, which has then a place in the list; it has a question of [r] unless one was sent before. *)
Lemma ask_step sv u d a r s' u' i :
  inv sv u d a → 0 < r < rt_size → info_ok i → ¬ hit (sv r) i →
  tab s' = tab (sv r) → completed_tls_requests s' = completed_tls_requests (sv r) → rs_wf (pending_tls_requests s') →
  (∀ k, k ≠ key i → rs_get (pending_tls_requests s') k = rs_get (pending_tls_requests (sv r)) k) →
  (∀ p, p ∈ peers (pending_tls_requests (sv r)) (key i) → p ∈ peers (pending_tls_requests s') (key i)) →
  (∀ k p, p ∈ peers (pending_tls_requests s') k → ∃ c, p = peer_of c) →
  (∀ j, waits s' j → waits (sv r) j ∨ j = i) →
  (∀ nc c j, client_table s' !! nc = Some c → tls_info c = Some j → c_open c = true ∧ info_ok j) →
  (asked u' r i ∨ rs_get (pending_tls_requests (sv r)) (key i) ≠ None) →
  (∀ c b, (c, b) ∈ u → (c, b) ∈ u' ∨ c ∈ rt_children r ∧ asks_for b i ∧ peer_of c ∈ peers (pending_tls_requests s') (key i)) →
  (∀ c b, (c, b) ∈ u' → (c, b) ∈ u ∨ c = r ∧ asks_for b i) →
  inv (upd sv r s') u' d a.
Proof.
  intros [H1 H2 H3 H4 H5 H6 H7 H8 H9 H10 H11 H12] Hr Hi Hhit Et Ec W1 P1 P2 P3 Hw Hcl Hasked Hu1 Hu2.
  assert (∀ j, hit s' j ↔ hit (sv r) j) as Hh by (intros j; unfold hit; by rewrite Et).
  assert (∀ k c, is_done s' k c ↔ is_done (sv r) k c) as Hdn by (intros k c; unfold is_done; by rewrite Ec).
  assert (∀ j, info_ok j → needs r s' j → needs r (sv r) j ∨ j = i) as Hneed.
  { intros j Hj [Hw1 | (c & Hc1 & Hc2 & Hc3)]; [destruct (Hw _ Hw1); [left; by left | by right]|].
    destruct (decide (j = i)) as [->|Hji]; [by right|]. left. right. exists c. split; [done|].
    assert (key j ≠ key i) as Hk by (intros Hk; apply Hji; by apply key_eq). split; [unfold peers in *; by rewrite <- P1 | by rewrite <- Hdn]. }
  assert (∀ q j, 0 < q < rt_size → info_ok j → covered sv u d q j → covered (upd sv r s') u' d q j ∨ hit (sv q) j ∧ ¬ needs q (sv q) j) as Hcov.
  { intros q j Hq Hj Hc0. destruct Hc0 as [(b & Hb & Hbj) | [Ho | Ht1]]; [| |left; by right; right].
    - destruct (Hu1 _ _ Hb) as [Hb' | (Hq1 & Hbi & Hin)]; [left; left; by exists b|].
      pose proof (asks_for_fun _ _ _ Hbj Hbi) as ->. destruct (tree_child r q ltac:(lia) Hq1) as (_ & Hpq & Hqr).
      destruct (decide (is_done (sv r) (key i) q)) as [Hdone | Hdone].
      + destruct (H11 r q i ltac:(lia) Hq1 Hi Hdone) as [Htq | Hn]; [left; by right; right | by right].
      + left. right; left. rewrite Hpq, server_eq. split; [done | by rewrite Hdn].
    - left. right; left. destruct (tree_parent q Hq) as (Hpr & Hq1 & Hpq). destruct (decide (rt_parent q = r)) as [E|E]; [|by rewrite server_ne].
      rewrite E, server_eq in *. destruct Ho as [Ho1 Ho2]. split; [|by rewrite Hdn].
      destruct (decide (key j = key i)) as [Ek|Ek]; [rewrite Ek in *; by apply P2 | unfold peers in *; by rewrite P1]. }
  assert (covered (upd sv r s') u' d r i) as Hri.
  { destruct Hasked as [? | Hreq]; [by left|]. destruct (H10 r i Hr Hi Hreq) as [Hc0 | ?]; [|done].
    destruct (Hcov r i Hr Hi Hc0) as [? | [? _]]; done. }
  assert (∀ q j, q ≠ r → needs q (upd sv r s' q) j ↔ needs q (sv q) j) as Hother by (intros q j Hq; by rewrite server_ne).
  constructor.
  - intros c b Hb. destruct (Hu2 _ _ Hb) as [? | [-> ?]]; [by apply H1 | split; [done | by exists i]].
  - done.
  - intros q. destruct (decide (q = r)) as [->|Hq]; [rewrite server_eq, Ec; split; [done | apply H3] | by rewrite server_ne].
  - intros q k p. destruct (decide (q = r)) as [->|Hq]; [rewrite server_eq; apply P3 | rewrite server_ne by done; apply H4].
  - intros q nc c j. destruct (decide (q = r)) as [->|Hq]; [rewrite server_eq; apply Hcl | rewrite server_ne by done; apply H5].
  - intros q j v Hq0. destruct (decide (q = r)) as [->|Hq]; [rewrite server_eq, Et | rewrite server_ne by done]; by apply H6.
  - rewrite server_ne by lia. done.
  - intros j Hj. rewrite Hother by lia. by apply H8.
  - intros q j Hq Hj Hn. destruct (decide (q = r)) as [->|Hqr].
    + rewrite server_eq in Hn. destruct (Hneed j Hj Hn) as [Hn' | ->]; [|done]. destruct (Hcov r j Hq Hj (H9 _ _ Hq Hj Hn')) as [? | [_ ?]]; done.
    + rewrite Hother in Hn by done. destruct (Hcov q j Hq Hj (H9 _ _ Hq Hj Hn)) as [? | [_ ?]]; done.
  - intros q j Hq Hj Hg. destruct (decide (q = r)) as [->|Hqr].
    + rewrite server_eq in *. rewrite Hh. destruct (decide (j = i)) as [->|Hji]; [by left|].
      assert (key j ≠ key i) as Hk by (intros Hk; apply Hji; by apply key_eq). rewrite P1 in Hg by done.
      destruct (H10 r j Hq Hj Hg) as [Hcv | ?]; [|by right]. destruct (Hcov r j Hq Hj Hcv) as [? | [? _]]; [by left | by right].
    + rewrite server_ne in * by done. destruct (H10 q j Hq Hj Hg) as [Hcv | ?]; [|by right].
      destruct (Hcov q j Hq Hj Hcv) as [? | [? _]]; [by left | by right].
  - intros p c j Hp0 Hc0 Hj Hdone. assert (is_done (sv p) (key j) c) as Hdone' by (destruct (decide (p = r)) as [->|]; [rewrite server_eq in Hdone; by rewrite <- Hdn | by rewrite server_ne in Hdone]).
    destruct (H11 p c j Hp0 Hc0 Hj Hdone') as [? | [Hh1 Hn1]]; [by left|]. right.
    destruct (decide (c = r)) as [->|]; [|by rewrite server_ne]. rewrite server_eq, Hh. split; [done|]. intros Hn. destruct (Hneed j Hj Hn) as [? | ->]; done.
  - done.
Qed.

(** ** The handlers *)

(** The children that are sent a message. *)
Definition sends_to (r : Z) (o : list tout) (c : Z) : Prop := ∃ b, (c, b) ∈ (o ≫= to_children peer_of r).

Lemma peers_add t k p k' : rs_wf t → peers (rs_add t k p) k' = if decide (k = k') then add_peer p (peers t k) else peers t k'.
Proof. intros. unfold peers. rewrite rs_get_add by done. by case_decide. Qed.
Lemma peers_clear t k k' : rs_wf t → peers (rs_clear t k) k' = if decide (k = k') then [] else peers t k'.
Proof. intros. unfold peers. rewrite rs_get_clear by done. by case_decide. Qed.
Lemma elem_of_add_peer p q l : q ∈ add_peer p l ↔ q = p ∨ q ∈ l.
Proof. unfold add_peer. case_decide; [split; [tauto | by intros [-> | ?]] | rewrite elem_of_app, list_elem_of_singleton; tauto]. Qed.
Lemma peer_requested_spec t k p : peer_requested t k p = true ↔ p ∈ peers t k.
Proof. unfold peer_requested. apply bool_decide_eq_true. Qed.
Lemma not_special c : peer_of c ≠ NODE_PEER_NULL ∧ peer_of c ≠ NODE_PEER_CLIENT ∧ peer_of c ≠ NODE_PEER_ALL.
Proof. pose proof (peer_special c) as Hc. rewrite !not_elem_of_cons in Hc. tauto. Qed.

(** The loop over the nodes: what is completed afterwards, and who is sent the message. *)
Lemma send_to_nodes_spec t k msg nodes t' o : rs_wf t → (∀ p, p ∈ nodes → ∃ c, p = peer_of c) → send_to_nodes t k msg nodes = (t', o) →
  rs_wf t' ∧ (∀ k', k' ≠ k → peers t' k' = peers t k') ∧ (∀ p, p ∈ peers t' k ↔ p ∈ peers t k ∨ p ∈ nodes) ∧
  (∀ x, x ∈ o ↔ ∃ p, x = ToChild p msg ∧ p ∈ nodes ∧ p ∉ peers t k).
Proof.
  revert t t' o. induction nodes as [|n nodes IH]; intros t t' o Hwf Hn; cbn [send_to_nodes].
  { intros [= <- <-]. split; [done|]. split; [done|]. split; [intros p | intros x; split; [by intros ?%not_elem_of_nil | by intros (p & _ & ?%not_elem_of_nil & _)]]. rewrite elem_of_nil. tauto. }
  assert (∀ p, p ∈ nodes → ∃ c, p = peer_of c) as Hn' by (intros; apply Hn; by right).
  destruct (Hn n ltac:(by left)) as (c & ->). destruct (not_special c) as (N1 & N2 & _).
  rewrite !(proj2 (Z.eqb_neq _ _)) by done. cbn [orb]. destruct (peer_requested t k (peer_of c)) eqn:E.
  - apply peer_requested_spec in E. intros Hs. destruct (IH _ _ _ Hwf Hn' Hs) as (A & B & C & D). split; [done|]. split; [done|]. split.
    + intros p. rewrite C, elem_of_cons. split; [tauto | intros [? | [-> | ?]]; tauto].
    + intros x. rewrite D. setoid_rewrite elem_of_cons. split; intros (p & -> & Hp); exists p; [tauto|]. destruct Hp as [[-> | ?] ?]; done.
  - assert (peer_of c ∉ peers t k) as E' by (rewrite <- peer_requested_spec; congruence).
    destruct (send_to_nodes (rs_add t k (peer_of c)) k msg nodes) as [t1 o1] eqn:Hs. intros [= <- <-].
    destruct (IH _ _ _ (rs_add_wf _ _ _ Hwf) Hn' Hs) as (A & B & C & D). split; [done|]. split; [|split].
    + intros k' Hk. rewrite B, peers_add, decide_False by done. done.
    + intros p. rewrite C, peers_add, decide_True, elem_of_add_peer, elem_of_cons by done. tauto.
    + intros x. rewrite elem_of_cons, D. setoid_rewrite peers_add; [|done]. rewrite decide_True by done. setoid_rewrite elem_of_add_peer. setoid_rewrite elem_of_cons. split.
      * intros [-> | (p & -> & Hp1 & Hp2)]; [exists (peer_of c); tauto | exists p; tauto].
      * intros (p & -> & [-> | Hp1] & Hp2); [by left|]. destruct (decide (p = peer_of c)) as [->|]; [by left | right; exists p; tauto].
Qed.

Lemma sends_all r o m c : c ∈ rt_children r → ToChildren m ∈ o → sends_to r o c.
Proof. intros Hc Ho. exists m. apply list_elem_of_bind. exists (ToChildren m). split; [cbn; apply list_elem_of_fmap; by exists c | done]. Qed.
Lemma sends_one r o m c : c ∈ rt_children r → ToChild (peer_of c) m ∈ o → sends_to r o c.
Proof. intros Hc Ho. exists m. apply list_elem_of_bind. eexists. split; [|exact Ho]. cbn. apply list_elem_of_fmap. exists c. split; [done|]. by apply list_elem_of_filter. Qed.

Record hands_out (r : Z) (k msg : bytes) (s s' : tserver) (o : list tout) : Prop := {
  ho_same : tab s' = tab s ∧ client_table s' = client_table s;
  ho_wf : rs_wf (pending_tls_requests s') ∧ rs_wf (completed_tls_requests s');
  ho_pend k' : k' ≠ k → rs_get (pending_tls_requests s') k' = rs_get (pending_tls_requests s) k';
  ho_sub k' p : p ∈ peers (pending_tls_requests s') k' → p ∈ peers (pending_tls_requests s) k';
  ho_comp k' c : k' ≠ k → is_done s' k' c ↔ is_done s k' c;
  ho_owes c : ¬ owes s' k c;
  ho_sent c : c ∈ rt_children r → owes s k c → sends_to r o c;
  ho_done c : c ∈ rt_children r → is_done s' k c → is_done s k c ∨ sends_to r o c;
  ho_out x : x ∈ o → x = ToChildren msg ∨ ∃ p, x = ToChild p msg;
}.

Lemma send_results_ok r s k msg : rs_wf (pending_tls_requests s) → rs_wf (completed_tls_requests s) → (∀ p, p ∈ peers (pending_tls_requests s) k → ∃ c, p = peer_of c) →
  hands_out r k msg s (fst (handle_tls_send_results dist_model s k msg)) (snd (handle_tls_send_results dist_model s k msg)).
Proof.
  intros W1 W2 Hp. unfold handle_tls_send_results. destruct (peer_requested _ k NODE_PEER_ALL) eqn:E.
  { apply peer_requested_spec in E. split; cbn [fst snd]; try done; try tauto; [intros c [_ []]; by left | intros c _ [_ []]; by left | by intros x Hx%not_elem_of_nil]. }
  assert (NODE_PEER_ALL ∉ peers (completed_tls_requests s) k) as E' by (rewrite <- peer_requested_spec; congruence).
  destruct dist_model.
  - split; cbn [fst snd set_completed set_pending pending_tls_requests completed_tls_requests tab client_table].
    + done.
    + split; [by apply rs_clear_wf | by apply rs_add_wf].
    + intros k' Hk. by rewrite rs_get_clear, decide_False.
    + intros k' p. rewrite peers_clear by done. case_decide; [by intros ?%not_elem_of_nil | done].
    + intros k' c Hk. unfold is_done. cbn [set_completed set_pending completed_tls_requests pending_tls_requests]. by rewrite peers_add, decide_False.
    + intros c [Hc _]. cbn [set_completed set_pending completed_tls_requests pending_tls_requests] in Hc. rewrite peers_clear, decide_True in Hc by done. by apply not_elem_of_nil in Hc.
    + intros c Hc _. apply (sends_all r _ msg); [done | by left].
    + intros c Hc _. right. apply (sends_all r _ msg); [done | by left].
    + intros x ->%list_elem_of_singleton. by left.
  - destruct (rs_get (pending_tls_requests s) k) as [nodes|] eqn:G.
    2:{ assert (peers (pending_tls_requests s) k = []) as E0 by (unfold peers; by rewrite G).
        split; cbn [fst snd]; try done; try tauto; [intros c [Hc _]; rewrite E0 in Hc; by apply not_elem_of_nil in Hc | intros c _ [Hc _]; rewrite E0 in Hc; by apply not_elem_of_nil in Hc | by intros x Hx%not_elem_of_nil]. }
    assert (peers (pending_tls_requests s) k = nodes) as E0 by (unfold peers; by rewrite G). rewrite E0 in Hp.
    destruct (send_to_nodes (completed_tls_requests s) k msg nodes) as [t o] eqn:Hs.
    destruct (send_to_nodes_spec _ _ _ _ _ _ W2 Hp Hs) as (A & B & C & D).
    split; cbn [fst snd set_completed set_pending pending_tls_requests completed_tls_requests tab client_table].
    + done.
    + split; [by apply rs_clear_wf | done].
    + intros k' Hk. by rewrite rs_get_clear, decide_False.
    + intros k' p. rewrite peers_clear by done. case_decide; [by intros ?%not_elem_of_nil | done].
    + intros k' c Hk. unfold is_done. cbn [set_completed set_pending completed_tls_requests pending_tls_requests]. by rewrite B.
    + intros c [Hc _]. cbn [set_completed set_pending completed_tls_requests pending_tls_requests] in Hc. rewrite peers_clear, decide_True in Hc by done. by apply not_elem_of_nil in Hc.
    + intros c Hc [Ho1 Ho2]. rewrite E0 in Ho1. apply (sends_one r _ msg); [done|]. apply D. exists (peer_of c). split; [done|]. split; [done|]. intros ?. apply Ho2. by right.
    + intros c Hc Hd. destruct (decide (is_done s k c)) as [?|Hnd]; [by left|]. right. apply (sends_one r _ msg); [done|]. apply D. exists (peer_of c). split; [done|].
      unfold is_done in Hd, Hnd. cbn [set_completed set_pending completed_tls_requests pending_tls_requests] in Hd. rewrite !C in Hd. split; [|tauto].
      destruct Hd as [[?|Ha] | [?|?]]; [tauto | | tauto | done]. destruct (Hp _ Ha) as (c' & Ec). destruct (not_special c') as (_ & _ & ?). congruence.
    + intros x Hx. apply D in Hx as (p & -> & _). right. by exists p.
Qed.

Lemma found_by_canon i j v : canon i = canon j → found_by i v → found_by j v.
Proof. intros E (st & q & H1 & H2 & H3). exists st, q. split; [done|]. split; [congruence | done]. Qed.

Lemma asks_spec i c : asks i c = true ↔ c_open c = true ∧ ∃ j, tls_info c = Some j ∧ canon j = canon i.
Proof.
  unfold asks. rewrite andb_true_iff. destruct (tls_info c) as [j|].
  - rewrite equal_canon, bool_decide_eq_true. split; [intros [? ?]; split; [done | by exists j] | intros [? (j' & [= <-] & ?)]; done].
  - split; [by intros [_ ?] | by intros [_ (j & ? & _)]].
Qed.
Lemma answered_clients nc l i v x : x ∈ client_answers nc l i (fst v) (snd v) → ∃ n q, x = ToClient n q (fst v) (snd v) ∧ canon q = canon i.
Proof.
  revert nc. induction l as [|c l IH]; intros nc; cbn [client_answers]; [by intros ?%not_elem_of_nil|].
  rewrite elem_of_app. intros [Hx | Hx]; [|by eapply IH]. destruct (tls_info c) as [q|] eqn:E; [|by apply not_elem_of_nil in Hx].
  destruct (asks i c) eqn:Ea; [|by apply not_elem_of_nil in Hx]. apply list_elem_of_singleton in Hx as ->.
  apply asks_spec in Ea as (_ & j & Ej & Hj). exists nc, q. split; [done|]. congruence.
Qed.

(** Nobody who is told an answer waits for it any more. *)
Lemma waits_cleared s i l j : (∀ nc c k, client_table s !! nc = Some c → tls_info c = Some k → c_open c = true ∧ info_ok k) →
  l = clear_answered i (client_table s) → waits (set_clients l s) j → waits s j ∧ j ≠ i.
Proof.
  intros Hok -> (nc & c & Hc & Hj). cbn [set_clients client_table] in Hc. unfold clear_answered in Hc. rewrite list_lookup_fmap in Hc.
  destruct (client_table s !! nc) as [c0|] eqn:E; [|done]. cbn in Hc. injection Hc as <-. destruct (asks i c0) eqn:Ea; [done|].
  split; [by exists nc, c0|]. intros ->. destruct (Hok _ _ _ E Hj) as [Ho _].
  assert (asks i c0 = true) as Ht; [|congruence]. apply asks_spec. split; [done|]. by exists i.
Qed.

(** The messages that an answer makes. *)
Lemma outputs_down r o msg c b : 0 <= r < rt_size → (∀ x, x ∈ o → x = ToChildren msg ∨ (∃ p, x = ToChild p msg) ∨ ∃ n q sz al, x = ToClient n q sz al) →
  (c, b) ∈ (o ≫= to_children peer_of r) → c ∈ rt_children r ∧ b = msg.
Proof.
  intros Hr Ho Hx. apply list_elem_of_bind in Hx as (x & Hx & Hxo). destruct (Ho _ Hxo) as [-> | [(p & ->) | (n & q & sz & al & ->)]]; cbn in Hx.
  - apply list_elem_of_fmap in Hx as (? & [= -> ->] & ?). done.
  - apply list_elem_of_fmap in Hx as (? & [= -> ->] & Hf). apply list_elem_of_filter in Hf as [_ ?]. done.
  - by apply not_elem_of_nil in Hx.
Qed.

Lemma noted_peers s k from k' p : rs_wf (pending_tls_requests s) →
  p ∈ peers (pending_tls_requests (note_requestor s k from)) k' ↔ p ∈ peers (pending_tls_requests s) k' ∨ k' = k ∧ p = from ∧ from ≠ NODE_PEER_CLIENT.
Proof.
  intros Hwf. unfold note_requestor. destruct (Z.eqb_spec from NODE_PEER_CLIENT); [tauto|]. cbn [set_pending pending_tls_requests].
  rewrite peers_add by done. case_decide as Ek; [subst k'; rewrite elem_of_add_peer; tauto|]. split; [by left | intros [? | [-> _]]; done].
Qed.

Lemma process_tls sv u d a r s i v from u' d' :
  inv sv u d a → 0 <= r < rt_size → info_ok i → found_by i v →
  (r ≠ 0 → ∀ j, hit (sv r) j → hit s j) → (r ≠ 0 → hit s i) → (r ≠ 0 → ∀ j w, static_tls_info_lookup (tab s) j = Some w → found_by j w) → (r = 0 → calculated (tab s)) →
  pending_tls_requests s = pending_tls_requests (note_requestor (sv r) (key i) from) → completed_tls_requests s = completed_tls_requests (sv r) →
  (from = NODE_PEER_CLIENT ∨ ∃ c, c ∈ rt_children r ∧ from = peer_of c) →
  (∀ j, waits s j → waits (sv r) j ∨ j = i) →
  (∀ nc c j, client_table s !! nc = Some c → tls_info c = Some j → c_open c = true ∧ info_ok j) →
  (∀ x, x ∈ u' → x ∈ u) →
  (∀ c b, (c, b) ∈ u → (c, b) ∈ u' ∨ c ∈ rt_children r ∧ asks_for b i ∧ from = peer_of c) →
  (∀ x, x ∈ d' → x ∈ d) →
  (∀ c b, (c, b) ∈ d → (c, b) ∈ d' ∨ c = r ∧ ∃ w, tells b i w) →
  ∃ s' o, handle_tls_process_result dist_model s i (key i) (fst v) (snd v) = Some (s', o) ∧
    inv (upd sv r s') (u' ++ (o ≫= to_parent r)) (d' ++ (o ≫= to_children peer_of r)) (a ++ (o ≫= to_client r)).
Proof.
  intros I Hr Hi Hv T1 T2 T3 T4 Ep Ec Hfrom Hw Hcl U1 U2 D1 D2. destruct (calc_range _ _ Hv) as [Hrange _].
  destruct (result_ok i v Hi Hrange) as (msg & Em & Hmsg). unfold handle_tls_process_result. rewrite Em. cbn [mbind option_bind].
  destruct (i_wf _ _ _ _ I r) as [W1 W2].
  assert (rs_wf (pending_tls_requests s)) as W1' by (rewrite Ep; unfold note_requestor; case_match; [done | by apply rs_add_wf]).
  assert (∀ k p, p ∈ peers (pending_tls_requests s) k ↔ p ∈ peers (pending_tls_requests (sv r)) k ∨ k = key i ∧ p = from ∧ from ≠ NODE_PEER_CLIENT) as Hpend.
  { intros k p. rewrite Ep. by apply noted_peers. }
  assert (∀ k p, p ∈ peers (pending_tls_requests s) k → ∃ c, p = peer_of c) as Hpeer.
  { intros k p [Hp | (_ & -> & Hne)]%Hpend; [by eapply (i_pend _ _ _ _ I)|]. destruct Hfrom as [? | (c & _ & ->)]; [done | by exists c]. }
  pose proof (send_results_ok r s (key i) msg W1' ltac:(by rewrite Ec) (Hpeer _)) as HO.
  destruct (handle_tls_send_results dist_model s (key i) msg) as [s1 o1]. cbn [fst snd] in HO. destruct HO as [[O1 O2] [O3 O4] O5 O6 O7 O8 O9 O10 O11].
  set (o := o1 ++ client_answers 0 (client_table s1) i (fst v) (snd v)). eexists _, o. split; [reflexivity|].
  assert (∀ x, x ∈ o → x = ToChildren msg ∨ (∃ p, x = ToChild p msg) ∨ ∃ n q, x = ToClient n q (fst v) (snd v) ∧ canon q = canon i) as Hout.
  { intros x. unfold o. rewrite elem_of_app. intros [Hx | Hx]; [destruct (O11 _ Hx); [by left | right; by left]|]. right; right. by eapply answered_clients. }
  assert (o ≫= to_parent r = []) as ->.
  { destruct (o ≫= to_parent r) as [|x l] eqn:E; [done|]. exfalso. assert (x ∈ o ≫= to_parent r) as Hx by (rewrite E; by left).
    apply list_elem_of_bind in Hx as (y & Hy & Hyo). destruct (Hout _ Hyo) as [-> | [(? & ->) | (? & ? & -> & _)]]; cbn in Hy; by apply not_elem_of_nil in Hy. }
  rewrite app_nil_r.
  assert (∀ c b, (c, b) ∈ (o ≫= to_children peer_of r) → c ∈ rt_children r ∧ b = msg) as Hdown.
  { intros c b. apply outputs_down; [done|]. intros x Hx. destruct (Hout _ Hx) as [? | [? | (n & q & ? & _)]]; [by left | right; by left | right; right; by eexists _, _, _, _]. }
  assert (∀ c, sends_to r o1 c → sends_to r o c) as Hmono by (intros c (b & Hb); exists b; unfold o; rewrite bind_app; apply elem_of_app; by left).
  assert (∀ k c, is_done s k c ↔ is_done (sv r) k c) as Hdn by (intros; unfold is_done; by rewrite Ec).
  assert (∀ k c, owes (sv r) k c → owes s k c) as How by (intros k c [A B]; split; [apply Hpend; by left | by rewrite Hdn]).
  assert (∀ nc c j, client_table s1 !! nc = Some c → tls_info c = Some j → c_open c = true ∧ info_ok j) as Hcl1 by (by rewrite O2).
  eapply (settle_step _ _ _ _ _ _ _ _ _ (sends_to r o) i I Hr Hi).
  - split.
    + intros j Hr0 Hj. destruct (T1 Hr0 _ Hj) as [w Hw']. exists w. cbn [set_clients tab]. by rewrite O1.
    + intros Hr0. destruct (T2 Hr0) as [w Hw']. exists w. cbn [set_clients tab]. by rewrite O1.
    + intros k Hk. cbn [set_clients pending_tls_requests]. rewrite O5, Ep by done. unfold note_requestor. case_match; [done|]. cbn [set_pending pending_tls_requests]. by rewrite rs_get_add, decide_False by done.
    + exact O8.
    + intros c Hc Ho. apply Hmono, O9; [done | by apply How].
    + intros k c Hk. rewrite <- Hdn. by apply O7.
    + intros c Hc Hd. rewrite <- Hdn. destruct (O10 c Hc Hd); [by left | right; by apply Hmono].
    + intros j Hj. destruct (waits_cleared s1 i _ j Hcl1 eq_refl Hj) as [Hj1 Hji]. split; [|done].
      assert (waits s j) as Hj2 by (unfold waits in *; by rewrite <- O2). destruct (Hw _ Hj2); done.
  - done.
  - intros c b Hb. destruct (U2 _ _ Hb) as [? | (Hc & Hbi & Ef)]; [by left|]. right. split; [done|]. split; [done|].
    destruct (decide (is_done (sv r) (key i) c)) as [?|Hnd]; [by right|]. left. apply Hmono, O9; [done|]. split; [|by rewrite Hdn].
    apply Hpend. right. split; [done|]. split; [done|]. rewrite Ef. apply not_special.
  - intros c b Hb. rewrite elem_of_app. destruct (D2 _ _ Hb) as [? | ?]; [left; by left | by right].
  - intros c b. rewrite elem_of_app. intros [Hb | Hb]; [left; by apply D1|]. destruct (Hdown _ _ Hb) as [Hc ->]. right. split; [done|]. by exists v.
  - intros c Hc (b & Hb). destruct (Hdown _ _ Hb) as [_ ->]. exists msg, v. split; [apply elem_of_app; by right | done].
  - exact O3.
  - exact O4.
  - intros k p Hp. cbn [set_clients pending_tls_requests] in Hp. by apply O6, Hpeer in Hp.
  - intros nc c j Hc Hj. cbn [set_clients client_table] in Hc. unfold clear_answered in Hc. rewrite list_lookup_fmap in Hc.
    destruct (client_table s1 !! nc) as [c0|] eqn:E; [|done]. cbn in Hc. injection Hc as <-. destruct (asks i c0); [done|]. by eapply Hcl1.
  - cbn [set_clients tab]. by rewrite O1.
  - cbn [set_clients tab]. by rewrite O1.
  - intros q j w. rewrite elem_of_app. intros [Hx | Hx]; [by left|]. right. apply list_elem_of_bind in Hx as (y & Hy & Hyo).
    destruct (Hout _ Hyo) as [-> | [(? & ->) | (n & q' & -> & Hq)]]; cbn in Hy; [by apply not_elem_of_nil in Hy | by apply not_elem_of_nil in Hy |].
    apply list_elem_of_singleton in Hy as [= -> -> ->]. eapply found_by_canon; [symmetry; exact Hq|]. by destruct v.
Qed.

Lemma request_step sv u d a r s i from u' s' o :
  inv sv u d a → 0 <= r < rt_size → info_ok i →
  tab s = tab (sv r) → pending_tls_requests s = pending_tls_requests (sv r) → completed_tls_requests s = completed_tls_requests (sv r) →
  (from = NODE_PEER_CLIENT ∨ ∃ c, c ∈ rt_children r ∧ from = peer_of c) →
  (∀ j, waits s j → waits (sv r) j ∨ j = i) →
  (∀ nc c j, client_table s !! nc = Some c → tls_info c = Some j → c_open c = true ∧ info_ok j) →
  (∀ x, x ∈ u' → x ∈ u) →
  (∀ c b, (c, b) ∈ u → (c, b) ∈ u' ∨ c ∈ rt_children r ∧ asks_for b i ∧ from = peer_of c) →
  handle_tls_request calc dist_model (r =? 0) s i from = Some (s', o) →
  inv (upd sv r s') (u' ++ (o ≫= to_parent r)) (d ++ (o ≫= to_children peer_of r)) (a ++ (o ≫= to_client r)).
Proof.
  intros I Hr Hi Et Ep Ec Hfrom Hw Hcl U1 U2. unfold handle_tls_request.
  assert (∀ q, tab (note_requestor q (key i) from) = tab q ∧ completed_tls_requests (note_requestor q (key i) from) = completed_tls_requests q ∧ client_table (note_requestor q (key i) from) = client_table q) as Hnote
    by (intros q; unfold note_requestor; case_match; done).
  destruct (Hnote s) as (N1 & N2 & N3).
  assert (pending_tls_requests (note_requestor s (key i) from) = pending_tls_requests (note_requestor (sv r) (key i) from)) as N4
    by (unfold note_requestor; case_match; cbn [set_pending pending_tls_requests]; by rewrite Ep).
  assert (∀ j, waits (note_requestor s (key i) from) j → waits (sv r) j ∨ j = i) as N5 by (intros j; unfold waits at 1; rewrite N3; apply Hw).
  assert (∀ nc c j, client_table (note_requestor s (key i) from) !! nc = Some c → tls_info c = Some j → c_open c = true ∧ info_ok j) as N6 by (by rewrite N3).
  rewrite Et. destruct (static_tls_info_lookup (tab (sv r)) i) as [[sz al]|] eqn:El.
  - intros E. assert (found_by i (sz, al)) as Hf.
    { destruct (decide (r = 0)) as [->|]; [|by eapply (i_tab _ _ _ _ I)]. exists (tab (sv 0)), i. split; [apply I|]. split; [done | by left]. }
    destruct (process_tls sv u d a r (note_requestor s (key i) from) i (sz, al) from u' d I Hr Hi Hf) as (s1 & o1 & E1 & I1); try done.
    + intros _ j. unfold hit. by rewrite N1, Et.
    + intros _. exists (sz, al). by rewrite N1, Et.
    + intros Hr0 j w. rewrite N1, Et. by apply (i_tab _ _ _ _ I).
    + intros ->. rewrite N1, Et. apply I.
    + by rewrite N2.
    + intros c b Hb. by left.
    + cbn [fst snd] in E1. rewrite E1 in E. by injection E as -> ->.
  - destruct (Z.eqb_spec r 0) as [->|Hr0].
    + destruct (calc (tab (sv 0)) i) as [[t [sz al]]|] eqn:Ecal; [|done]. cbn [mbind option_bind]. intros E.
      assert (found_by i (sz, al)) as Hf. { exists (tab (sv 0)), i. split; [apply I|]. split; [done|]. right. by exists t. }
      destruct (process_tls sv u d a 0 (set_tab t (note_requestor s (key i) from)) i (sz, al) from u' d I Hr Hi Hf) as (s1 & o1 & E1 & I1); try done.
      * intros _. eapply calculated_next; [apply I | exact Ecal].
      * by rewrite <- Ec, <- N2.
      * intros c b Hb. by left.
      * cbn [fst snd] in E1. rewrite E1 in E. by injection E as -> ->.
    + assert (¬ hit (sv r) i) as Hnh by (intros [w Hw']; congruence).
      destruct (i_wf _ _ _ _ I r) as [W1 W2].
      assert (∀ k p, p ∈ peers (pending_tls_requests (note_requestor s (key i) from)) k ↔ p ∈ peers (pending_tls_requests (sv r)) k ∨ k = key i ∧ p = from ∧ from ≠ NODE_PEER_CLIENT) as Hpend.
      { intros k p. rewrite N4. by apply noted_peers. }
      assert (∀ u1, (asked u1 r i ∨ rs_get (pending_tls_requests (sv r)) (key i) ≠ None) →
        (∀ x, x ∈ u' → x ∈ u1) → (∀ c b, (c, b) ∈ u1 → (c, b) ∈ u ∨ c = r ∧ asks_for b i) → inv (upd sv r (note_requestor s (key i) from)) u1 d a) as Hstep.
      { intros u1 A1 A2 A3. apply (ask_step sv u d a r _ u1 i I); try done; try lia; try congruence.
        - rewrite N4. unfold note_requestor. case_match; [done | by apply rs_add_wf].
        - intros k Hk. rewrite N4. unfold note_requestor. case_match; [done|]. cbn [set_pending pending_tls_requests]. by rewrite rs_get_add, decide_False.
        - intros p Hp. apply Hpend. by left.
        - intros k p [Hp | (_ & -> & Hne)]%Hpend; [by eapply (i_pend _ _ _ _ I)|]. destruct Hfrom as [? | (c & _ & ->)]; [done | by exists c].
        - intros c b Hb. destruct (U2 _ _ Hb) as [? | (Hc & Hbi & ->)]; [left; by apply A2|]. right. split; [done|]. split; [done|]. apply Hpend. right. split; [done|]. split; [done | apply not_special]. }
      unfold handle_tls_send_request. rewrite Ep. unfold been_requested. destruct (rs_get (pending_tls_requests (sv r)) (key i)) eqn:G.
      * intros [= <- <-]. cbn. rewrite !app_nil_r. apply Hstep; [by right | done |]. intros c b Hb. left. by apply U1.
      * destruct (request_ok i Hi) as (b & Eb & Hb). rewrite Eb. cbn [mbind option_bind]. intros [= <- <-]. cbn. rewrite (proj2 (Z.eqb_neq _ _)) by done. cbn. rewrite !app_nil_r.
        apply Hstep; [left; exists b; split; [apply elem_of_app; right; by left | done] | intros x Hx; apply elem_of_app; by left|].
        intros c b' [Hx | [= -> ->]%list_elem_of_singleton]%elem_of_app; [left; by apply U1 | by right].
Qed.

(** ** Runs *)

Definition inv_of (S : sys) : Prop := inv (servers S) (up S) (down S) (answers S).

Lemma delete_elem {A} (l : list A) n x y : l !! n = Some x → y ∈ l → y ∈ delete n l ∨ y = x.
Proof.
  intros Hn Hy. apply list_elem_of_lookup in Hy as (m & Hm). destruct (decide (m = n)) as [->|Hne]; [right; congruence|]. left.
  rewrite delete_take_drop, elem_of_app. destruct (decide (m < n)%nat).
  - left. apply list_elem_of_lookup. exists m. by rewrite lookup_take_lt.
  - right. apply list_elem_of_lookup. exists (m - S n)%nat. rewrite lookup_drop. rewrite <- Hm. f_equal. lia.
Qed.
Lemma init_tls S : init S → inv_of S.
Proof.
  intros (H & Hu & Hd & Ha). unfold inv_of. rewrite Hu, Hd, Ha.
  assert (∀ r, tab (servers S r) = no_tables) as Ht by apply H. assert (∀ r k, peers (pending_tls_requests (servers S r)) k = []) as Hp by (intros r k; destruct (H r) as (_ & -> & _); unfold peers; by rewrite rs_get_new).
  assert (∀ r k, peers (completed_tls_requests (servers S r)) k = []) as Hc by (intros r k; destruct (H r) as (_ & _ & -> & _); unfold peers; by rewrite rs_get_new).
  assert (∀ r i, ¬ needs r (servers S r) i) as Hn.
  { intros r i [(nc & c & E1 & E2) | (c & _ & E & _)]; [|rewrite Hp in E; by apply not_elem_of_nil in E].
    destruct (H r) as (_ & _ & _ & HF). apply (Forall_lookup_1 _ _ _ _ HF) in E1. congruence. }
  constructor; try (by intros * ?%not_elem_of_nil).
  - intros r. destruct (H r) as (_ & -> & -> & _). split; apply rs_new_wf.
  - intros r k p. rewrite Hp. by intros ?%not_elem_of_nil.
  - intros r nc c i E1 E2. destruct (H r) as (_ & _ & _ & HF). apply (Forall_lookup_1 _ _ _ _ HF) in E1. congruence.
  - intros r i v _. rewrite Ht. unfold static_tls_info_lookup, executable_hash_lookup, chain, no_tables. cbn [executables]. by rewrite lookup_empty.
  - rewrite Ht. constructor.
  - intros i _. apply Hn.
  - intros r i _ _ Hx. by apply Hn in Hx.
  - intros r i _ _. destruct (H r) as (_ & -> & _). by rewrite rs_get_new.
  - intros r c i _ _ _ [E|E]; rewrite Hc in E; by apply not_elem_of_nil in E.
Qed.

Lemma put_tls S r s o u d : inv (upd (servers S) r s) (u ++ (o ≫= to_parent r)) (d ++ (o ≫= to_children peer_of r)) (answers S ++ (o ≫= to_client r)) → inv_of (put peer_of S r s o u d).
Proof. done. Qed.

Lemma step_tls S l S' : inv_of S → can_ask S l → exec peer_of dist_model calc S l = Next S' → inv_of S'.
Proof.
  intros I. destruct l as [r nc m|n|n]; cbn [exec can_ask].
  - intros (Hr & Hc & i & Hi & Hm). unfold handle_client_static_tls_req. rewrite Hm. cbn [mbind option_bind]. rewrite Hc. cbn [mbind option_bind tls_info c_open].
    destruct (handle_tls_request _ _ _ _ _ _) as [[s' o]|] eqn:E; [|done]. intros [= <-]. apply put_tls.
    eapply request_step; try exact E; try done; [by left | | | by left].
    + intros j (n & c & Hn & Hj). cbn [set_clients client_table] in Hn. destruct (decide (n = nc)) as [->|Hne].
      * rewrite list_lookup_insert_eq in Hn by (by eapply lookup_lt_Some). injection Hn as <-. right. cbn in Hj. congruence.
      * rewrite list_lookup_insert_ne in Hn by done. left. by exists n, c.
    + intros n c j Hn Hj. cbn [set_clients client_table] in Hn. destruct (decide (n = nc)) as [->|Hne].
      * rewrite list_lookup_insert_eq in Hn by (by eapply lookup_lt_Some). injection Hn as <-. cbn in Hj |- *. split; [done | congruence].
      * rewrite list_lookup_insert_ne in Hn by done. by eapply (i_clients _ _ _ _ I).
  - intros _. destruct (up S !! n) as [[c m]|] eqn:En; [|done]. destruct (i_up _ _ _ _ I c m) as (Hc & i & Hi & Hm); [by eapply list_elem_of_lookup_2|].
    destruct (tree_parent c Hc) as (Hp & Hpc & _). unfold handle_static_tls_req. rewrite Hm. cbn [mbind option_bind].
    destruct (handle_tls_request _ _ _ _ _ _) as [[s' o]|] eqn:E; [|done]. intros [= <-]. apply put_tls.
    eapply request_step; try exact E; try done; [right; by exists c | by left | apply (i_clients _ _ _ _ I) | intros x; apply list_elem_of_delete_inv |].
    intros c' b Hb. destruct (delete_elem _ _ _ _ En Hb) as [? | [= -> ->]]; [by left | by right].
  - intros _. destruct (down S !! n) as [[r m]|] eqn:En; [|done]. destruct (i_down _ _ _ _ I r m) as (Hr & i & v & Hi & (Hm & Hsz & Hal) & Hv); [by eapply list_elem_of_lookup_2|].
    unfold handle_static_tls_resp. rewrite Hm, Hsz, Hal. cbn [mbind option_bind]. destruct v as [sz al]. cbn [fst snd].
    destruct (calc_range _ _ Hv) as [_ Hne].
    set (s := set_tab _ _). assert (∀ j, static_tls_info_lookup (tab s) j = if bool_decide (canon i = canon j) then Some (sz, al) else static_tls_info_lookup (tab (servers S r)) j) as Hl.
    { intros j. unfold s. cbn [set_tab tab]. unfold static_tls_info_lookup, static_tls_info_add. rewrite lookup_add. case_bool_decide; [|done]. cbn [mbind option_bind exe_tls exe_align].
      destruct (Z.eqb_spec sz (-1)), (Z.eqb_spec al (-1)); try done. by subst. }
    destruct (process_tls (servers S) (up S) (down S) (answers S) r s i (sz, al) NODE_PEER_CLIENT (up S) (delete n (down S)) I ltac:(lia) Hi Hv) as (s' & o & E & I'); try done.
    + intros _ j [w Hw]. unfold hit. rewrite Hl. case_bool_decide; by eexists.
    + intros _. exists (sz, al). rewrite Hl. by rewrite bool_decide_true.
    + intros Hr0 j w. rewrite Hl. case_bool_decide as Ec; [|by apply (i_tab _ _ _ _ I)]. intros [= <-]. by eapply found_by_canon.
    + lia.
    + by left.
    + by left.
    + apply (i_clients _ _ _ _ I).
    + by left.
    + intros x. apply list_elem_of_delete_inv.
    + intros c b Hb. destruct (delete_elem _ _ _ _ En Hb) as [? | [= -> ->]]; [by left|]. right. split; [done|]. exists (sz, al). done.
    + cbn [fst snd] in E. rewrite E. cbn [next]. intros [= <-]. apply put_tls. done.
Qed.

Lemma reach_tls S : reach peer_of dist_model calc S → inv_of S.
Proof. induction 1 as [S Hi | S l S' _ IH Ha E]; [by apply init_tls | by eapply step_tls]. Qed.

(** When no message is on the way, nobody waits. *)
Lemma nobody_waits S r i : inv_of S → up S = [] → down S = [] → 0 <= r < rt_size → info_ok i → ¬ needs r (servers S r) i.
Proof.
  intros I Hu Hd Hr Hi. cut (∀ n : nat, ∀ r, 0 <= r < rt_size → r <= Z.of_nat n → ¬ needs r (servers S r) i); [intros Hc; apply (Hc (Z.to_nat r)); lia|].
  clear r Hr. induction n as [|n IH]; intros r Hr Hn Hneed.
  - assert (r = 0) as -> by lia. by eapply (i_root _ _ _ _ I).
  - destruct (decide (r = 0)) as [->|Hr0]; [by eapply (i_root _ _ _ _ I)|].
    destruct (i_need _ _ _ _ I r i ltac:(lia) Hi Hneed) as [(b & Hb & _) | [Ho | (b & v & Hb & _)]]; [rewrite Hu in Hb; by apply not_elem_of_nil in Hb | | rewrite Hd in Hb; by apply not_elem_of_nil in Hb].
    assert (0 < r < rt_size) as Hr1 by lia. destruct (tree_parent r Hr1) as (Hp & Hpc & _). pose proof (rt_parent_lt r Hr1). apply (IH (rt_parent r)); [lia | lia |]. right. by exists r.
Qed.

(** ** How many messages there are *)

Definition base : Z := rt_size + 1.
Definition down_weight (x : Z * bytes) : Z := base ^ (rt_size - fst x).
Definition up_weight (x : Z * bytes) : Z := base ^ rt_size + fst x.
Definition total (w : Z * bytes → Z) (l : list (Z * bytes)) : Z := fold_right (λ x n, w x + n) 0 l.
(** The number of deliveries that can follow. *)
Definition messages_left (S : sys) : Z := total up_weight (up S) + total down_weight (down S).

Lemma tls_weight_app w l k : total w (l ++ k) = total w l + total w k.
Proof. induction l as [|x l IH]; cbn [total fold_right app]; [done|]. unfold total in *. lia. Qed.
Lemma weight_delete w l n x : l !! n = Some x → total w l = total w (delete n l) + w x.
Proof. intros H. rewrite <- (take_drop_middle l n x H) at 1. rewrite delete_take_drop, !tls_weight_app. cbn [total fold_right]. fold (total w (drop (S n) l)). lia. Qed.

Lemma total_down r l : 0 <= r < rt_size → NoDup l.*1 → (∀ x, x ∈ l → fst x ∈ rt_children r) → total down_weight l < base ^ (rt_size - r).
Proof.
  intros Hr Hnd Hin. assert (∀ x, x ∈ l → r < fst x < rt_size) as Hlt.
  { intros x Hx. destruct (tree_child r (fst x) Hr (Hin x Hx)) as (H1 & H2 & _). pose proof (rt_parent_lt _ H1). lia. }
  assert (Z.of_nat (length l) <= rt_size) as Hlen.
  { rewrite <- (length_fmap fst l). transitivity (Z.of_nat (length (seqZ 0 rt_size))); [|rewrite length_seqZ; lia].
    apply Nat2Z.inj_le, submseteq_length, NoDup_submseteq; [done|]. intros c (x & -> & Hx)%list_elem_of_fmap. apply elem_of_seqZ. specialize (Hlt x Hx). lia. }
  assert (0 < base ^ (rt_size - r - 1)) as Hpos by (apply Z.pow_pos_nonneg; unfold base; lia).
  assert (total down_weight l <= Z.of_nat (length l) * base ^ (rt_size - r - 1)) as Hle.
  { clear Hnd Hlen. induction l as [|x l IH]; [done|]. cbn [total fold_right length]. fold (total down_weight l).
    assert (down_weight x <= base ^ (rt_size - r - 1)) by (unfold down_weight; apply Z.pow_le_mono_r; [unfold base; lia|]; specialize (Hlt x ltac:(by left)); lia).
    specialize (IH ltac:(intros; apply Hin; by right) ltac:(intros; apply Hlt; by right)). lia. }
  replace (rt_size - r) with (rt_size - r - 1 + 1) by lia. rewrite Z.pow_add_r, Z.pow_1_r by lia. unfold base in *. nia.
Qed.

(** Nobody is sent an answer twice. *)
Lemma nodes_once t k msg nodes : rs_wf t →
  ∃ ps, snd (send_to_nodes t k msg nodes) = (λ p, ToChild p msg) <$> ps ∧ NoDup ps ∧ ∀ p, p ∈ ps → p ∉ peers t k.
Proof.
  revert t. induction nodes as [|n nodes IH]; intros t Hwf; cbn [send_to_nodes].
  { exists []. split; [done|]. split; [constructor|]. by intros p ?%not_elem_of_nil. }
  destruct (_ || _); [by apply IH|]. destruct (peer_requested t k n) eqn:E; [by apply IH|].
  destruct (IH (rs_add t k n) (rs_add_wf _ _ _ Hwf)) as (ps & E1 & Hnd & Hps). destruct (send_to_nodes _ _ _ _) as [t' o]. cbn [snd] in *. subst o.
  assert (∀ p, p ∈ ps → p ≠ n ∧ p ∉ peers t k) as Hps'.
  { intros p Hp. specialize (Hps p Hp). rewrite peers_add, decide_True, elem_of_add_peer in Hps by done. tauto. }
  exists (n :: ps). split; [done|]. split; [constructor; [|done]; intros Hn; by destruct (Hps' n Hn)|].
  intros p [-> | Hp]%elem_of_cons; [rewrite <- peer_requested_spec; congruence | by apply Hps'].
Qed.

Lemma outputs_once r o ps msg l : 0 <= r < rt_size → o = [] ∨ o = [ToChildren msg] ∨ o = (λ p, ToChild p msg) <$> ps ∧ NoDup ps →
  (∀ x, x ∈ l → ∃ n q sz al, x = ToClient n q sz al) → NoDup ((o ++ l) ≫= to_children peer_of r).*1.
Proof.
  intros Hr Ho Hl. assert (l ≫= to_children peer_of r = []) as E.
  { induction l as [|x l IH]; [done|]. rewrite bind_cons, IH by (intros; apply Hl; by right). destruct (Hl x ltac:(by left)) as (? & ? & ? & ? & ->). done. }
  rewrite bind_app, E, app_nil_r. clear E Hl. destruct Ho as [-> | [-> | [-> Hnd]]].
  - constructor.
  - cbn. rewrite app_nil_r, <- list_fmap_compose. cbn. rewrite list_fmap_id. by apply rt_children_NoDup.
  - induction Hnd as [|p ps Hp Hnd IH]; [constructor|]. cbn [fmap list_fmap]. rewrite bind_cons, fmap_app. apply NoDup_app. split; [|split; [|exact IH]].
    + cbn. rewrite <- list_fmap_compose. cbn. rewrite list_fmap_id. apply NoDup_filter. by apply rt_children_NoDup.
    + intros c Hc Hc'. cbn in Hc. rewrite <- list_fmap_compose in Hc. cbn in Hc. rewrite list_fmap_id in Hc. apply list_elem_of_filter in Hc as [Hcp _].
      apply list_elem_of_fmap in Hc' as ((c1 & b) & -> & Hx). apply list_elem_of_bind in Hx as (y & Hy & Hyo). apply list_elem_of_fmap in Hyo as (p' & -> & Hp').
      cbn in Hy. apply list_elem_of_fmap in Hy as (c2 & [= -> ->] & Hf). apply list_elem_of_filter in Hf as [Hf _]. cbn in Hcp. congruence.
Qed.

(** What is sent for an answer weighs less than the answer. *)
Lemma process_weight r s i k sz al s' o : 0 <= r < rt_size → rs_wf (completed_tls_requests s) → handle_tls_process_result dist_model s i k sz al = Some (s', o) →
  o ≫= to_parent r = [] ∧ total down_weight (o ≫= to_children peer_of r) < base ^ (rt_size - r).
Proof.
  intros Hr Hwf. unfold handle_tls_process_result. destruct (result_msg i sz al) as [msg|]; [|done]. cbn [mbind option_bind].
  assert (∃ ps, snd (handle_tls_send_results dist_model s k msg) = [] ∨ snd (handle_tls_send_results dist_model s k msg) = [ToChildren msg] ∨
    snd (handle_tls_send_results dist_model s k msg) = ((λ p, ToChild p msg) <$> ps) ∧ NoDup ps) as (ps & Hps).
  { unfold handle_tls_send_results. destruct (peer_requested _ _ _); [exists []; by left|]. destruct dist_model; [exists []; right; by left|].
    destruct (rs_get _ _) as [nodes|]; [|exists []; by left]. destruct (nodes_once (completed_tls_requests s) k msg nodes Hwf) as (ps & E & Hnd & _).
    destruct (send_to_nodes _ _ _ _) as [t o1]. exists ps. right; right. by split. }
  destruct (handle_tls_send_results dist_model s k msg) as [s1 o1]. cbn [snd] in Hps. intros [= <- <-].
  assert (∀ x, x ∈ client_answers 0 (client_table s1) i sz al → ∃ n q sz al, x = ToClient n q sz al) as Hl
    by (intros x Hx; destruct (answered_clients 0 (client_table s1) i (sz, al) x Hx) as (n & q & -> & _); by eexists _, _, _, _).
  assert (∀ x, x ∈ o1 ++ client_answers 0 (client_table s1) i sz al → x = ToChildren msg ∨ (∃ p, x = ToChild p msg) ∨ ∃ n q sz al, x = ToClient n q sz al) as Hout.
  { intros x [Hx|Hx]%elem_of_app; [|right; right; by apply Hl]. destruct Hps as [-> | [-> | [-> _]]]; [by apply not_elem_of_nil in Hx | apply list_elem_of_singleton in Hx; by left |].
    apply list_elem_of_fmap in Hx as (p & -> & _). right; left. by exists p. }
  split.
  - set (o := o1 ++ _) in *. destruct (o ≫= to_parent r) as [|x l] eqn:E; [done|]. exfalso. assert (x ∈ o ≫= to_parent r) as Hx by (rewrite E; by left).
    apply list_elem_of_bind in Hx as (y & Hy & Hyo). destruct (Hout _ Hyo) as [-> | [(? & ->) | (? & ? & ? & ? & ->)]]; cbn in Hy; by apply not_elem_of_nil in Hy.
  - apply total_down; [done | by eapply outputs_once |]. intros [c b] Hx. by eapply outputs_down in Hx as [? _].
Qed.

Lemma weight_step S l S' : inv_of S → (∀ r nc m, l ≠ Ask r nc m) → exec peer_of dist_model calc S l = Next S' → messages_left S' < messages_left S.
Proof.
  intros I Hl. destruct l as [r nc m|n|n]; cbn [exec]; [by edestruct Hl | |].
  - destruct (up S !! n) as [[c m]|] eqn:En; [|done]. destruct (i_up _ _ _ _ I c m) as (Hc & i & Hi & Hm); [by eapply list_elem_of_lookup_2|].
    destruct (tree_parent c Hc) as (Hp & _ & _). pose proof (rt_parent_lt c Hc) as Hlt. destruct (i_wf _ _ _ _ I (rt_parent c)) as [_ W]. set (r := rt_parent c) in *.
    unfold handle_static_tls_req. rewrite Hm. cbn [mbind option_bind]. destruct (handle_tls_request _ _ _ _ _ _) as [[s' o]|] eqn:E; [|done]. intros [= <-].
    assert (total up_weight (o ≫= to_parent r) + total down_weight (o ≫= to_children peer_of r) < up_weight (c, m)) as Hw.
    { assert (base ^ (rt_size - r) <= base ^ rt_size) as Hb by (apply Z.pow_le_mono_r; unfold base; lia).
      assert (∀ s, completed_tls_requests (note_requestor s (key i) (peer_of c)) = completed_tls_requests s) as Hn by (intros s; unfold note_requestor; by case_match).
      revert E. unfold handle_tls_request. destruct (static_tls_info_lookup _ _) as [[sz al]|].
      { intros E. apply (process_weight r) in E as [-> ?]; [|done | by rewrite Hn]. unfold up_weight. cbn [total fold_right fst]. lia. }
      destruct (r =? 0).
      { destruct (calc _ _) as [[t [sz al]]|]; [|done]. cbn [mbind option_bind]. intros E. apply (process_weight r) in E as [-> ?]; [|done | cbn [set_tab completed_tls_requests]; by rewrite Hn]. unfold up_weight. cbn [total fold_right fst]. lia. }
      assert (0 < base ^ rt_size) by (apply Z.pow_pos_nonneg; unfold base; lia).
      unfold handle_tls_send_request. case_match; [intros [= <- <-]; unfold up_weight; cbn; lia|]. destruct (static_tls_info_encode _ _) as [b|]; [|done]. intros [= <- <-].
      unfold up_weight. cbn. destruct (r =? 0); cbn; lia. }
    unfold messages_left, put. cbn [up down]. rewrite !tls_weight_app, (weight_delete up_weight (up S) n _ En). lia.
  - destruct (down S !! n) as [[r m]|] eqn:En; [|done]. destruct (i_down _ _ _ _ I r m) as (Hr & i & v & Hi & (Hm & _) & _); [by eapply list_elem_of_lookup_2|].
    destruct (i_wf _ _ _ _ I r) as [_ W]. unfold handle_static_tls_resp. rewrite Hm. cbn [mbind option_bind].
    destruct (handle_tls_process_result _ _ _ _ _ _) as [[s' o]|] eqn:E; [|done]. intros [= <-]. apply (process_weight r) in E as [Eu Hw]; [|lia | done].
    unfold messages_left, put. cbn [up down]. rewrite Eu, !tls_weight_app, (weight_delete down_weight (down S) n _ En). cbn [total fold_right]. unfold down_weight at 4. cbn [fst]. unfold total in *. lia.
Qed.

(** A message that has been sent can be delivered, unless the root's calculation crashes. *)
Lemma no_fault S : inv_of S →
  (∀ n, exec peer_of dist_model calc S (Up n) = Fault → ∃ i, calc (tab (servers S 0)) i = None) ∧ (∀ n, exec peer_of dist_model calc S (Down n) ≠ Fault).
Proof.
  intros I. assert (∀ s i v k, info_ok i → found_by i v → handle_tls_process_result dist_model s i k (fst v) (snd v) ≠ None) as Hp.
  { intros s i v k Hi Hv. destruct (result_ok i v Hi (proj1 (calc_range _ _ Hv))) as (msg & Em & _). unfold handle_tls_process_result. rewrite Em. cbn [mbind option_bind].
    by destruct (handle_tls_send_results _ _ _ _). }
  split; intros n; cbn [exec].
  - destruct (up S !! n) as [[c m]|] eqn:En; [|done]. destruct (i_up _ _ _ _ I c m) as (Hc & i & Hi & Hm); [by eapply list_elem_of_lookup_2|].
    unfold handle_static_tls_req. rewrite Hm. cbn [mbind option_bind]. set (r := rt_parent c). unfold handle_tls_request.
    destruct (static_tls_info_lookup (tab (servers S r)) i) as [[sz al]|] eqn:El.
    { assert (found_by i (sz, al)) as Hf.
      { destruct (decide (r = 0)) as [E|]; [|by eapply (i_tab _ _ _ _ I)]. rewrite E in El. exists (tab (servers S 0)), i. split; [apply I|]. split; [done | by left]. }
      pose proof (Hp (note_requestor (servers S r) (key i) (peer_of c)) i (sz, al) (key i) Hi Hf) as Hne. cbn [fst snd] in Hne. by destruct (handle_tls_process_result _ _ _ _ _ _) as [[? ?]|]. }
    destruct (Z.eqb_spec r 0) as [E|Hr].
    + rewrite E in El |- *. destruct (calc (tab (servers S 0)) i) as [[t [sz al]]|] eqn:Ecal; [|intros _; by exists i]. cbn [mbind option_bind].
      assert (found_by i (sz, al)) as Hf. { exists (tab (servers S 0)), i. split; [apply I|]. split; [done|]. right. by exists t. }
      pose proof (Hp (set_tab t (note_requestor (servers S 0) (key i) (peer_of c))) i (sz, al) (key i) Hi Hf) as Hne. cbn [fst snd] in Hne. by destruct (handle_tls_process_result _ _ _ _ _ _) as [[? ?]|].
    + unfold handle_tls_send_request. case_match; [done|]. destruct (request_ok i Hi) as (b & Eb & _). rewrite Eb. done.
  - destruct (down S !! n) as [[r m]|] eqn:En; [|done]. destruct (i_down _ _ _ _ I r m) as (Hr & i & v & Hi & (Hm & Hsz & Hal) & Hv); [by eapply list_elem_of_lookup_2|].
    unfold handle_static_tls_resp. rewrite Hm, Hsz, Hal. cbn [mbind option_bind].
    pose proof (Hp (set_tab (static_tls_info_add (tab (servers S r)) i (fst v) (snd v)) (servers S r)) i v (key i) Hi Hv) as Hne. by destruct (handle_tls_process_result _ _ _ _ _ _) as [[? ?]|].
Qed.
End inv.

(** Deliveries of messages, while nobody asks anything new. *)
Inductive deliveries {R} `{RequestorStore R} {T : RankTree} (peer_of : Z → node_peer_t) (dist_model : dist_model_t) (calc : tables → static_tls_info_t → option (tables * (Z * Z)))
    : nat → sys (R := R) → sys (R := R) → Prop :=
  | deliveries_none S : deliveries peer_of dist_model calc 0 S S
  | deliveries_more n S l S' S'' : (∀ r nc m, l ≠ Ask r nc m) → exec peer_of dist_model calc S l = Next S' → deliveries peer_of dist_model calc n S' S'' → deliveries peer_of dist_model calc (Datatypes.S n) S S''.

Section answered.
Context {R : Type} `{RS : RequestorStore R} {T : RankTree}.
Context (peer_of : Z → node_peer_t) (dist_model : dist_model_t).
Context (open_file : bytes → option bytes) (run_loader : loader_call → option (list bytes)) (audit subaudit : option bytes) (fuel : nat).
Definition root_calc : tables → static_tls_info_t → option (tables * (Z * Z)) := handle_calculate_total_static_tls_needed open_file run_loader audit subaudit fuel.

Lemma root_range i v : found_by root_calc i v → in_range v ∧ v ≠ (-1, -1).
Proof.
  assert (∀ st, calculated root_calc st → values_ok open_file st) as Hok.
  { induction 1 as [|st j st' w _ IH E]; [apply no_tables_ok | by eapply calculated_good in E as [? _]]. }
  assert (∀ w, good w → in_range w ∧ w ≠ (-1, -1)) as Hg by (intros w [? ?]; split; [done | intros ->; cbn [snd] in *; lia]).
  intros (st & j & Hst%Hok & _ & [Hl | (st' & Hc)]); apply Hg; [by eapply lookup_good | by eapply calculated_good in Hc as [_ ?]].
Qed.

Context (peer_special : ∀ c, peer_of c ∉ [NODE_PEER_NULL; NODE_PEER_CLIENT; NODE_PEER_ALL]).

Lemma deliveries_bound n S S' : inv_of peer_of root_calc S → deliveries (R := R) peer_of dist_model root_calc n S S' →
  inv_of peer_of root_calc S' ∧ Z.of_nat n + messages_left S' <= messages_left S.
Proof.
  intros I D. induction D as [S | n S l S' S'' Hl E D IH]; [split; [done | lia]|].
  pose proof (weight_step peer_of dist_model root_calc S l S' I Hl E) as Hw.
  assert (inv_of peer_of root_calc S') as I' by (eapply (step_tls peer_of dist_model root_calc); try done; [exact root_range | by destruct l as [r nc m| |]; [edestruct Hl|..]]).
  destruct (IH I') as [? ?]. split; [done | lia].
Qed.

Lemma messages_left_nonneg S : inv_of (R := R) peer_of root_calc S → 0 <= messages_left S.
Proof.
  intros I. assert (∀ w l, (∀ x, x ∈ l → 0 <= w x) → 0 <= total w l) as Ht.
  { intros w l. induction l as [|x l IH]; intros Hx; cbn [total fold_right]; [done|]. specialize (IH ltac:(intros; apply Hx; by right)). specialize (Hx x ltac:(by left)). unfold total in *. lia. }
  assert (∀ c b, (c, b) ∈ up S ∨ (c, b) ∈ down S → 0 < c < rt_size) as Hc by (intros c b [Hb|Hb]; [by apply (i_up _ _ _ _ _ _ I) in Hb as [? _] | by apply (i_down _ _ _ _ _ _ I) in Hb as [? _]]).
  unfold messages_left. apply Z.add_nonneg_nonneg; apply Ht; intros [c b] Hb.
  - specialize (Hc c b ltac:(by left)). unfold up_weight, base. cbn [fst]. assert (0 <= (rt_size + 1) ^ rt_size) by (apply Z.pow_nonneg; lia). lia.
  - specialize (Hc c b ltac:(by right)). unfold down_weight, base. apply Z.pow_nonneg. lia.
Qed.

End answered.

(** ** An example *)

Definition tree2 : RankTree := Cobo.cobo_rank_tree 2 ltac:(lia).
#[local] Existing Instance Requestors.table_store.
Definition demo_peer (c : Z) : node_peer_t := Z.abs c + 3.
Definition demo_root_calc := root_calc demo_files quiet_loader None None 2.
Definition demo_start : sys (R := Requestors.table) := mk_sys (λ _, mk_tserver no_tables rs_new rs_new [mk_client true None]) [] [] [].
Definition demo_exec := exec (T := tree2) (R := Requestors.table) demo_peer LDCS_PUSH demo_root_calc.
Definition state_of (S : sys (R := Requestors.table)) (x : result) : sys := match x with Next S' => S' | _ => S end.
Definition demo_question : bytes := default [] (static_tls_info_encode TlsCalc.demo_info 100).
Definition demo_1 : sys := state_of demo_start (demo_exec demo_start (Ask 1 0 demo_question)).
Definition demo_2 : sys := state_of demo_1 (demo_exec demo_1 (Up 0)).
Definition demo_3 : sys := state_of demo_2 (demo_exec demo_2 (Down 0)).

Lemma demo_peer_special c : demo_peer c ∉ [NODE_PEER_NULL; NODE_PEER_CLIENT; NODE_PEER_ALL].
Proof.
  unfold demo_peer, NODE_PEER_NULL, NODE_PEER_CLIENT, NODE_PEER_ALL. rewrite !not_elem_of_cons.
  split; [lia|]. split; [lia|]. split; [lia | apply not_elem_of_nil].
Qed.
Lemma state_of_next S x : match x with Next _ => true | _ => false end = true → x = Next (state_of S x).
Proof. by destruct x. Qed.

Lemma demo_reach : reach (T := tree2) demo_peer LDCS_PUSH demo_root_calc demo_3.
Proof.
  apply (reach_step _ _ _ demo_2 (Down 0)); [|done | apply state_of_next; vm_compute; reflexivity].
  apply (reach_step _ _ _ demo_1 (Up 0)); [|done | apply state_of_next; vm_compute; reflexivity].
  apply (reach_step _ _ _ demo_start (Ask 1 0 demo_question)); [| |apply state_of_next; vm_compute; reflexivity].
  - apply reach_init. split; [|done]. intros r. repeat (split; [done|]). by constructor.
  - split; [vm_compute; split; [discriminate | reflexivity]|]. split; [reflexivity|]. exists TlsCalc.demo_info. split; [split; [repeat constructor | vm_compute; reflexivity] | vm_compute; reflexivity].
Qed.

End TlsAnswers.
