(* ===== verification/SlurmArgs.v ===== *)
(** * Arguments of the SLURM plugin

    [slurm_plugin/encode_decode.c] and the handling of command lines in [plugin_utils.c] and
    [slurm_plugin.c].  The parameters of a session travel from one part of the plugin to another as a
    string in an environment variable, and the options of the site and of the user are
    put together and taken apart again.

    Memory is modelled by its size: a read or write outside a buffer gives [None]. *)

From Stdlib Require Import Ascii String ZArith Lia.
From stdpp Require Import strings numbers gmap list.
From S2P Require Import Prelude Bytes.

Module SlurmArgs.

(** ** Numbers in [sscanf] *)

(** An optional sign and digits, after white space; what is behind them. *)
Definition scan_number (s : bytes) : option (bool * Z * bytes) :=
  let s1 := skip_space s in
  let '(neg, s2) :=
    match s1 with
    | c :: s' => if byte_val c =? 45 then (true, s') else if byte_val c =? 43 then (false, s') else (false, s1)
    | [] => (false, [])
    end in
  match digits_of s2 with
  | [] => None
  | ds => Some (neg, dec_value ds, drop (length ds) s2)
  end.

(** [%u] and [%lu] read an [unsigned long], [%d] a [long]; both saturate. *)
Definition conv_u (w : Z) (neg : bool) (v : Z) : Z :=
  (if 2 ^ 64 <=? v then 2 ^ 64 - 1 else wrap64 (if neg then - v else v)) mod 2 ^ w.
Definition conv_d (neg : bool) (v : Z) : Z := to_signed 32 (if neg then Z.max (- v) (- 2 ^ 63) else Z.min v (2 ^ 63 - 1)).

Definition scan_u (w : Z) (s : bytes) : option (Z * bytes) := '(neg, v, r) ← scan_number s; Some (conv_u w neg v, r).
Definition scan_d (s : bytes) : option (Z * bytes) := '(neg, v, r) ← scan_number s; Some (conv_d neg v, r).

Definition COLON : ascii := ":".
Definition scan_colon (s : bytes) : option bytes := match s with c :: s' => if Ascii.eqb c COLON then Some s' else None | [] => None end.

(** ** The configuration of a session *)

Record config := mk_config {
  port : Z;
  num_ports : Z;
  unique_id : Z;
  security_type : Z;
  spindle_argv : list bytes;
}.

Definition INT32_CHAR_LEN : Z := 12.
Definition INT64_CHAR_LEN : Z := 22.

Definition config_len (argv : list bytes) : Z :=
  fold_left (λ len a, len + Z.of_nat (length a) + INT32_CHAR_LEN + 2) argv (INT32_CHAR_LEN * 5 + INT64_CHAR_LEN + 6 + 1).

(** [snprintf (buf + used, len - used, ...)]: at most [len - used - 1] characters are stored; the number of characters
    that would be needed is added to [used]. *)
Definition print_at (len : Z) (st : bytes * Z) (s : bytes) : bytes * Z :=
  let '(buf, used) := st in (take (Z.to_nat used) buf ++ take (Z.to_nat (len - used - 1)) s, used + Z.of_nat (length s)).

Definition encodeSpindleConfig (c : config) : option bytes :=
  let len := config_len (spindle_argv c) in
  let head := dec (port c) ++ COLON :: dec (num_ports c) ++ COLON :: dec (unique_id c) ++ COLON :: dec (security_type c) ++
              COLON :: dec (Z.of_nat (length (spindle_argv c))) in
  let '(configstr, used) :=
    fold_left (λ st a, print_at len st (COLON :: dec (Z.of_nat (length a)) ++ COLON :: a)) (spindle_argv c) (print_at len ([], 0) head) in
  if (used <? len) && (used + 1 <? len) then Some configstr else None.

(** [sscanf (encodedstr + pos, ":%d:%n", &strsize, &bytes_read)]: [None] without a number; [bytes_read] keeps its value
    when the second colon is missing. *)
Definition scan_size (s : bytes) (bytes_read : Z) : option (Z * Z) :=
  s1 ← scan_colon s;
  '(strsize, s2) ← scan_d s1;
  Some (strsize, match scan_colon s2 with Some s3 => Z.of_nat (length s) - Z.of_nat (length s3) | None => bytes_read end).

(** The strings of the arguments: [None] when bytes behind the end are read, [Some None] for the result -1. *)
Fixpoint decode_args (n : nat) (encodedstr : bytes) (pos bytes_read : Z) : option (option (list bytes)) :=
  match n with
  | O => Some (Some [])
  | S n' =>
      let encoded_len := Z.of_nat (length encodedstr) in
      if encoded_len <? pos then None
      else match scan_size (drop (Z.to_nat pos) encodedstr) bytes_read with
           | None => Some None
           | Some (strsize, bytes_read') =>
               if (strsize <? 0) || (4096 <? strsize) then Some None
               else
                 let pos' := pos + bytes_read' in
                 if encoded_len <? pos' then Some None
                 else if encoded_len + 1 <? pos' + strsize then None
                 else
                   let s := cstr (take (Z.to_nat strsize) (drop (Z.to_nat pos') encodedstr)) in
                   r ← decode_args n' encodedstr (pos' + strsize) bytes_read';
                   Some (l ← r; Some (s :: l))
           end
  end.

Definition scan_head (s : bytes) : option (Z * Z * Z * Z * Z * bytes) :=
  '(p, s) ← scan_u 32 s; s ← scan_colon s;
  '(np, s) ← scan_u 32 s; s ← scan_colon s;
  '(u, s) ← scan_u 64 s; s ← scan_colon s;
  '(sec, s) ← scan_u 32 s; s ← scan_colon s;
  '(argc, s) ← scan_d s;
  Some (p, np, u, sec, argc, s).

Definition decodeSpindleConfig (encodedstr : bytes) : option (option config) :=
  match scan_head encodedstr with
  | None => Some None
  | Some (p, np, u, sec, argc, rest) =>
      let bytes_read := Z.of_nat (length encodedstr) - Z.of_nat (length rest) in
      if (argc <? 0) || (1024 <=? argc) then Some None
      else
        r ← decode_args (Z.to_nat argc) encodedstr bytes_read bytes_read;
        Some (argv ← r; Some (mk_config p np u sec argv))
  end.

(** ** Command lines *)

Definition SPACE : ascii := " ".
Definition BACKSLASH : ascii := "\".

(** The arguments with spaces between them; no string when there is nothing in them. *)
Definition encodeCmdArgs (sargv : list bytes) : option bytes :=
  match sargv with
  | [] => None
  | _ =>
      match filter (λ a, a ≠ []) sargv with
      | [] => None
      | a :: l => Some (a ++ mjoin ((λ x, SPACE :: x) <$> l))
      end
  end.

Definition unescape (c : ascii) : ascii :=
  if Ascii.eqb c "a" then byte_of 7 else if Ascii.eqb c "b" then byte_of 8 else if Ascii.eqb c "f" then byte_of 12
  else if Ascii.eqb c "n" then byte_of 10 else if Ascii.eqb c "r" then byte_of 13 else if Ascii.eqb c "t" then byte_of 9
  else if Ascii.eqb c "v" then byte_of 11 else if Ascii.eqb c "0" then NUL else c.

(** [target] has room for [size] characters, [argv] for [slots] pointers. *)
Definition put (size : Z) (target : bytes) (c : ascii) : option bytes := if Z.of_nat (length target) <? size then Some (target ++ [c]) else None.
Definition push (size slots : Z) (argv : list bytes) (target : bytes) : option (list bytes) :=
  if (Z.of_nat (length target) <? size) && (Z.of_nat (length argv) <? slots) then Some (argv ++ [cstr target]) else None.

Fixpoint decode_loop (size slots : Z) (cmd target : bytes) (argv : list bytes) : option (bytes * list bytes) :=
  match cmd with
  | [] => Some (target, argv)
  | c :: cmd' =>
      if Ascii.eqb c BACKSLASH then
        match cmd' with
        | d :: cmd'' => t ← put size target (unescape d); decode_loop size slots cmd'' t argv
        | [] => t ← put size target c; decode_loop size slots cmd' t argv
        end
      else if Ascii.eqb c SPACE then
        match target with
        | [] => decode_loop size slots cmd' [] argv
        | _ => argv' ← push size slots argv target; decode_loop size slots cmd' [] argv'
        end
      else t ← put size target c; decode_loop size slots cmd' t argv
  end.

Definition num_spaces (cmd : bytes) : Z := Z.of_nat (length (filter (λ c, c = SPACE) cmd)).

Definition decodeCmdArgs (cmd : bytes) : option (list bytes) :=
  match cmd with
  | [] => Some []
  | _ =>
      let size := Z.of_nat (length cmd) + 1 in
      let slots := num_spaces cmd + 2 in
      '(target, argv) ← decode_loop size slots cmd [] [];
      argv' ← match target with [] => Some argv | _ => push size slots argv target end;
      match argv' with
      | [] => Some []
      | _ => if Z.of_nat (length argv') <? slots then Some argv' else None
      end
  end.

(** What [process_spindle_args] makes of the options of the site and of the user. *)
Definition combined_options (site_argv : list bytes) (user_options : option bytes) : bytes :=
  let site_options := default [] (encodeCmdArgs site_argv) in
  let user_options := default [] user_options in
  site_options ++ (match site_options, user_options with _ :: _, _ :: _ => [SPACE] | _, _ => [] end) ++ user_options ++ [SPACE].

Definition combined_args (site_argv : list bytes) (user_options : option bytes) : option (list bytes) :=
  decodeCmdArgs (combined_options site_argv user_options).

(** ** What is encoded is decoded *)

Definition stops (t : bytes) : Prop := match t with c :: _ => isdigit c = false | [] => True end.

Lemma scan_number_dec z t : 0 <= z < 10 ^ 20 → stops t → scan_number (dec z ++ t) = Some (false, z, t).
Proof.
  intros Hz Ht. unfold dec. rewrite (proj2 (Z.ltb_ge _ _)) by lia. destruct (dec_digits_spec 20 z [] Hz ltac:(lia)) as (ds & E & Hne & Hds & Hv).
  rewrite E, app_nil_r. assert (digits_of (ds ++ t) = ds) as Hd by by apply digits_of_stop. destruct ds as [|c ds]; [done|].
  assert (isdigit c = true) as Hc by by apply Forall_cons in Hds as [? _]. unfold isdigit in Hc. bool_to_prop.
  unfold scan_number. cbn [app skip_space]. assert (isspace c = false) as ->.
  { unfold isspace. apply orb_false_iff. split; [apply Z.eqb_neq; lia|]. apply andb_false_iff. right. apply Z.leb_gt. lia. }
  rewrite (proj2 (Z.eqb_neq _ _)), (proj2 (Z.eqb_neq (byte_val c) 43)) by lia. change (c :: ds ++ t) with ((c :: ds) ++ t). rewrite Hd.
  cbv iota. unfold dec_value. rewrite Hv, drop_app_exact by done. do 3 f_equal.
Qed.

Lemma scan_u_dec w z t : 0 <= w <= 64 → 0 <= z < 2 ^ w → stops t → scan_u w (dec z ++ t) = Some (z, t).
Proof.
  intros Hw Hz Ht. assert (2 ^ w <= 2 ^ 64) by (apply Z.pow_le_mono_r; lia). unfold scan_u. rewrite scan_number_dec by (done || lia). cbn [mbind option_bind].
  unfold conv_u. rewrite (proj2 (Z.leb_gt _ _)) by lia. unfold wrap64. rewrite (Z.mod_small z) by lia. by rewrite Z.mod_small.
Qed.

Lemma scan_d_dec z t : 0 <= z < 2 ^ 31 → stops t → scan_d (dec z ++ t) = Some (z, t).
Proof.
  intros Hz Ht. unfold scan_d. rewrite scan_number_dec by (done || lia). cbn [mbind option_bind]. unfold conv_d. rewrite Z.min_l by lia. by rewrite to_signed_id by lia.
Qed.

(** Numbers of 32 and 64 bits, fewer than 1024 arguments of at most 4096 characters. *)
Record config_ok (c : config) : Prop := {
  ok_port : 0 <= port c < 2 ^ 32;
  ok_num_ports : 0 <= num_ports c < 2 ^ 32;
  ok_unique_id : 0 <= unique_id c < 2 ^ 64;
  ok_security : 0 <= security_type c < 2 ^ 32;
  ok_argc : Z.of_nat (length (spindle_argv c)) < 1024;
  ok_args : Forall (λ a, no_nul a = true ∧ Z.of_nat (length a) <= 4096) (spindle_argv c);
}.

Definition arg_text (a : bytes) : bytes := COLON :: dec (Z.of_nat (length a)) ++ COLON :: a.
Definition args_text (l : list bytes) : bytes := mjoin (arg_text <$> l).
Definition head_text (c : config) : bytes :=
  dec (port c) ++ COLON :: dec (num_ports c) ++ COLON :: dec (unique_id c) ++ COLON :: dec (security_type c) ++ COLON :: dec (Z.of_nat (length (spindle_argv c))).

Lemma dec_size z k : 0 <= z < 10 ^ Z.of_nat (S k) → (length (dec z) ≤ S k)%nat.
Proof. intros Hz. unfold dec. rewrite (proj2 (Z.ltb_ge _ _)) by lia. pose proof (dec_digits_length 20 z [] k Hz). cbn in *. lia. Qed.

Lemma args_len l k : fold_left (λ len (a : bytes), len + Z.of_nat (length a) + INT32_CHAR_LEN + 2) l k = k + fold_left (λ len (a : bytes), len + Z.of_nat (length a) + INT32_CHAR_LEN + 2) l 0.
Proof. revert k. induction l as [|a l IH]; intros k; cbn [fold_left]; [lia|]. rewrite IH, (IH (0 + _ + _ + _)). lia. Qed.

Lemma print_args l : ∀ buf used len, used = Z.of_nat (length buf) → Forall (λ a : bytes, Z.of_nat (length a) <= 4096) l →
  used + fold_left (λ len (a : bytes), len + Z.of_nat (length a) + INT32_CHAR_LEN + 2) l 0 < len →
  ∃ u, fold_left (λ st a, print_at len st (COLON :: dec (Z.of_nat (length a)) ++ COLON :: a)) l (buf, used) = (buf ++ args_text l, u) ∧
    u = Z.of_nat (length (buf ++ args_text l)) ∧ u <= used + fold_left (λ len (a : bytes), len + Z.of_nat (length a) + INT32_CHAR_LEN + 2) l 0.
Proof.
  induction l as [|a l IH]; intros buf used len Hu Hl Hlen; cbn [fold_left].
  - exists used. unfold args_text. cbn. rewrite app_nil_r. split_and!; [done|done|lia].
  - apply Forall_cons in Hl as [Ha Hl]. cbn [fold_left] in Hlen. rewrite args_len in Hlen |- *.
    pose proof (dec_size (Z.of_nat (length a)) 4 ltac:(cbn; lia)) as Hd. unfold INT32_CHAR_LEN in Hlen |- *.
    assert (length (arg_text a) ≤ length a + 7)%nat as Hat by (unfold arg_text; cbn [length]; rewrite length_app; cbn [length]; lia).
    assert (0 <= fold_left (λ len (a : bytes), len + Z.of_nat (length a) + INT32_CHAR_LEN + 2) l 0) as Hpos.
    { clear. induction l as [|a l IH]; cbn [fold_left]; [done|]. rewrite args_len. unfold INT32_CHAR_LEN in *. lia. }
    unfold INT32_CHAR_LEN in Hpos.
    assert (print_at len (buf, used) (COLON :: dec (Z.of_nat (length a)) ++ COLON :: a) = (buf ++ arg_text a, used + Z.of_nat (length (arg_text a)))) as ->.
    { unfold print_at. change (COLON :: dec (Z.of_nat (length a)) ++ COLON :: a) with (arg_text a). rewrite !take_ge by lia. done. }
    destruct (IH (buf ++ arg_text a) (used + Z.of_nat (length (arg_text a))) len) as (u & E & Hlu & Hle).
    + rewrite length_app. lia.
    + done.
    + unfold INT32_CHAR_LEN. lia.
    + exists u. rewrite E. unfold args_text. cbn [fmap list_fmap mjoin list_join]. fold args_text. unfold args_text in *. rewrite app_assoc. split_and!; [done|done|].
      unfold INT32_CHAR_LEN in Hle. lia.
Qed.

Lemma head_size c : config_ok c → (length (head_text c) ≤ 66)%nat.
Proof.
  intros [H1 H2 H3 H4 H5 _]. unfold head_text. repeat (rewrite length_app || cbn [length]).
  pose proof (dec_size (port c) 9 ltac:(cbn; lia)). pose proof (dec_size (num_ports c) 9 ltac:(cbn; lia)). pose proof (dec_size (unique_id c) 19 ltac:(cbn; lia)).
  pose proof (dec_size (security_type c) 9 ltac:(cbn; lia)). pose proof (dec_size (Z.of_nat (length (spindle_argv c))) 3 ltac:(cbn; lia)). lia.
Qed.

Lemma encoded_text c : config_ok c → encodeSpindleConfig c = Some (head_text c ++ args_text (spindle_argv c)).
Proof.
  intros Hc. pose proof (head_size c Hc) as Hh. unfold encodeSpindleConfig. fold (head_text c). unfold config_len. rewrite args_len. unfold INT32_CHAR_LEN, INT64_CHAR_LEN.
  match goal with |- context [print_at ?l _ _] => set (len := l) end.
  assert (0 <= fold_left (λ len (a : bytes), len + Z.of_nat (length a) + 12 + 2) (spindle_argv c) 0) as Hpos.
  { generalize (spindle_argv c). intros l. induction l as [|a l IH]; cbn [fold_left]; [done|]. pose proof (args_len l (0 + Z.of_nat (length a) + 12 + 2)) as E. unfold INT32_CHAR_LEN in E. rewrite E. lia. }
  assert (print_at len ([], 0) (head_text c) = (head_text c, Z.of_nat (length (head_text c)))) as ->.
  { unfold print_at. rewrite !take_ge by (cbn [length]; lia). done. }
  destruct (print_args (spindle_argv c) (head_text c) (Z.of_nat (length (head_text c))) len) as (u & E & Hu & Hle).
  - done.
  - eapply Forall_impl; [apply (ok_args c Hc)|]. by intros a [_ ?].
  - unfold INT32_CHAR_LEN. lia.
  - rewrite E. unfold INT32_CHAR_LEN in Hle. rewrite (proj2 (Z.ltb_lt u len)), (proj2 (Z.ltb_lt (u + 1) len)) by lia. done.
Qed.

Lemma scan_colon_cons s : scan_colon (COLON :: s) = Some s.
Proof. done. Qed.

Lemma decode_args_text l : ∀ pre br, Forall (λ a, no_nul a = true ∧ Z.of_nat (length a) <= 4096) l →
  decode_args (length l) (pre ++ args_text l) (Z.of_nat (length pre)) br = Some (Some l).
Proof.
  induction l as [|a l IH]; intros pre br Hl; cbn [length decode_args]; [done|]. apply Forall_cons in Hl as [[Hn Ha] Hl].
  change (args_text (a :: l)) with (arg_text a ++ args_text l). rewrite (proj2 (Z.ltb_ge _ _)) by (rewrite length_app; lia).
  rewrite Nat2Z.id, drop_app_exact by done.
  assert (scan_size (arg_text a ++ args_text l) br = Some (Z.of_nat (length a), Z.of_nat (length (arg_text a)) - Z.of_nat (length a))) as ->.
  { unfold scan_size, arg_text. cbn [app]. rewrite scan_colon_cons. cbn [mbind option_bind]. rewrite <- app_assoc. cbn [app].
    rewrite scan_d_dec by (done || lia). cbn [mbind option_bind]. rewrite scan_colon_cons. do 2 f_equal. cbn [length]. rewrite !length_app. cbn [length]. rewrite !length_app. lia. }
  rewrite (proj2 (Z.ltb_ge (Z.of_nat (length a)) 0)), (proj2 (Z.ltb_ge 4096 _)) by lia. cbn [orb].
  assert (length (arg_text a) = S (length (dec (Z.of_nat (length a)))) + S (length a))%nat as Hat by (unfold arg_text; cbn [length]; rewrite length_app; cbn [length]; lia).
  rewrite (proj2 (Z.ltb_ge _ (Z.of_nat (length pre) + _))) by (rewrite !length_app; lia). rewrite (proj2 (Z.ltb_ge _ (Z.of_nat (length pre) + _ + _))) by (rewrite !length_app; lia).
  set (front := pre ++ COLON :: dec (Z.of_nat (length a)) ++ [COLON]).
  assert (pre ++ arg_text a ++ args_text l = (front ++ a) ++ args_text l) as Ea.
  { unfold front, arg_text. rewrite <- !app_assoc. cbn. by rewrite <- !app_assoc. }
  assert (Z.to_nat (Z.of_nat (length pre) + (Z.of_nat (length (arg_text a)) - Z.of_nat (length a))) = length front) as ->.
  { unfold front. rewrite length_app. cbn [length]. rewrite length_app. cbn [length]. lia. }
  assert (Z.of_nat (length pre) + (Z.of_nat (length (arg_text a)) - Z.of_nat (length a)) + Z.of_nat (length a) = Z.of_nat (length (front ++ a))) as ->.
  { unfold front. rewrite !length_app. cbn [length]. rewrite length_app. cbn [length]. lia. }
  rewrite Ea, IH by done. cbn [mbind option_bind]. rewrite <- app_assoc, drop_app_exact, Nat2Z.id, take_app_exact by done. by rewrite cstr_id.
Qed.

Lemma scan_head_text c t : config_ok c → stops t →
  scan_head (head_text c ++ t) = Some (port c, num_ports c, unique_id c, security_type c, Z.of_nat (length (spindle_argv c)), t).
Proof.
  intros [H1 H2 H3 H4 H5 _] Ht. unfold scan_head, head_text. repeat (rewrite <- app_assoc; cbn [app]).
  rewrite scan_u_dec by (done || lia). cbn [mbind option_bind]. rewrite scan_colon_cons. cbn [mbind option_bind].
  rewrite scan_u_dec by (done || lia). cbn [mbind option_bind]. rewrite scan_colon_cons. cbn [mbind option_bind].
  rewrite scan_u_dec by (done || lia). cbn [mbind option_bind]. rewrite scan_colon_cons. cbn [mbind option_bind].
  rewrite scan_u_dec by (done || lia). cbn [mbind option_bind]. rewrite scan_colon_cons. cbn [mbind option_bind].
  rewrite scan_d_dec by (done || lia). done.
Qed.

Lemma args_text_stops l : stops (args_text l).
Proof. by destruct l. Qed.

(** the configuration that one part of the SLURM plugin writes is the one that the other part reads: the text of a
    configuration with fewer than 1024 arguments of at most 4096 characters fits the buffer that is allocated for it,
    no assertion fails, and decoding it stays within the text and gives the same numbers and arguments, whatever
    characters the arguments have. *)
Theorem slurm_config_roundtrip c : config_ok c → ∃ s, encodeSpindleConfig c = Some s ∧ decodeSpindleConfig s = Some (Some c).
Proof.
  intros Hc. exists (head_text c ++ args_text (spindle_argv c)). split; [by apply encoded_text|].
  unfold decodeSpindleConfig. rewrite scan_head_text by (done || apply args_text_stops). pose proof (ok_argc c Hc).
  rewrite (proj2 (Z.ltb_ge (Z.of_nat _) 0)), (proj2 (Z.leb_gt 1024 _)) by lia. cbn [orb].
  assert (Z.of_nat (length (head_text c ++ args_text (spindle_argv c))) - Z.of_nat (length (args_text (spindle_argv c))) = Z.of_nat (length (head_text c))) as -> by (rewrite length_app; lia).
  rewrite Nat2Z.id, decode_args_text by apply Hc. cbn. by destruct c.
Qed.

Definition demo_config : config := mk_config 21940 25 4294967299 2 [lit "--no-mpi"; lit "-d :3:"; []].

Lemma slurm_config_roundtrip_witness : config_ok demo_config ∧ ∃ s, encodeSpindleConfig demo_config = Some s ∧ decodeSpindleConfig s = Some (Some demo_config).
Proof.
  assert (config_ok demo_config) as H. { split; try (by vm_compute). repeat (apply Forall_cons_2; [by vm_compute|]). apply Forall_nil_2. }
  split; [exact H|]. exact (slurm_config_roundtrip demo_config H).
Defined.

(** The size of an argument is not compared with what is left of the text: it is read behind its end. *)
Lemma config_overread : decodeSpindleConfig (lit "1:1:1:1:1:9:abc") = None.
Proof. by vm_compute. Qed.

(** ** Command lines are taken apart at spaces *)

(** What stands between spaces that are not escaped. *)
Definition cons_head (c : ascii) (l : list bytes) : list bytes := match l with w :: l' => (c :: w) :: l' | [] => [[c]] end.
Fixpoint chunks (cmd : bytes) : list bytes :=
  match cmd with
  | [] => [[]]
  | c :: cmd' =>
      if Ascii.eqb c BACKSLASH then match cmd' with d :: cmd'' => cons_head (unescape d) (chunks cmd'') | [] => [[c]] end
      else if Ascii.eqb c SPACE then [] :: chunks cmd'
      else cons_head c (chunks cmd')
  end.
Definition words (cmd : bytes) : list bytes := cstr <$> filter (λ w, w ≠ []) (chunks cmd).

(** The chunks, with [target] in front of the first one. *)
Definition prepend (target : bytes) (l : list bytes) : list bytes := match l with w :: l' => (target ++ w) :: l' | [] => [target] end.

Lemma prepend_cons_head target c l : prepend target (cons_head c l) = prepend (target ++ [c]) l.
Proof. destruct l as [|w l]; cbn; [done|]. by rewrite <- app_assoc. Qed.

Lemma chunks_ne cmd : chunks cmd ≠ [].
Proof.
  destruct cmd as [|c cmd]; cbn; [done|]. destruct (Ascii.eqb c BACKSLASH); [destruct cmd as [|d cmd]; [done|]; by destruct (chunks cmd)|].
  destruct (Ascii.eqb c SPACE); [done|]. by destruct (chunks cmd).
Qed.

Definition spaces_in (cmd : bytes) : nat := length (filter (λ c, c = SPACE) cmd).

Lemma spaces_cons c cmd : (spaces_in cmd ≤ spaces_in (c :: cmd))%nat.
Proof. unfold spaces_in. rewrite filter_cons. case_decide; cbn; lia. Qed.

Lemma decode_loop_words size slots cmd : ∀ target argv,
  Z.of_nat (length target) + Z.of_nat (length cmd) < size → Z.of_nat (length argv) + Z.of_nat (spaces_in cmd) + 1 < slots →
  ∃ target' argv', decode_loop size slots cmd target argv = Some (target', argv') ∧
    argv' ++ (if decide (target' = []) then [] else [cstr target']) = argv ++ (cstr <$> filter (λ w, w ≠ []) (prepend target (chunks cmd))) ∧
    Z.of_nat (length target') < size ∧ Z.of_nat (length argv') + 1 < slots.
Proof.
  remember (length cmd) as n eqn:Hn. revert cmd Hn. induction (lt_wf n) as [n _ IH]. intros cmd -> target argv Ht Ha. destruct cmd as [|c cmd]; cbn [decode_loop chunks].
  - exists target, argv. cbn [spaces_in] in Ha. cbn [length] in Ht. split; [done|]. split; [|lia]. cbn [prepend]. rewrite app_nil_r, filter_cons. destruct (decide (target = [])) as [->|Hne]; [by rewrite decide_False by (intros H; by apply H)|]. by rewrite decide_True.
  - cbn [length] in Ht. pose proof (spaces_cons c cmd) as Hsp. destruct (Ascii.eqb c BACKSLASH) eqn:Eb.
    + destruct cmd as [|d cmd].
      * unfold put. rewrite (proj2 (Z.ltb_lt _ _)) by (cbn [length] in *; lia). cbn [mbind option_bind decode_loop]. exists (target ++ [c]), argv. split; [done|].
        cbn [prepend]. assert (target ++ [c] ≠ []) as Hne by (by destruct target). rewrite (decide_False (P := target ++ [c] = [])) by done. rewrite filter_cons, decide_True by done. cbn. rewrite length_app. cbn [length] in *. split; [done|]. lia.
      * unfold put. rewrite (proj2 (Z.ltb_lt _ _)) by (cbn [length] in *; lia). cbn [mbind option_bind]. rewrite prepend_cons_head. pose proof (spaces_cons d cmd).
        apply (IH (length cmd)); [cbn; lia|done|rewrite length_app; cbn [length] in *; lia|lia].
    + destruct (Ascii.eqb c SPACE) eqn:Es.
      * apply Ascii.eqb_eq in Es. subst c. assert (spaces_in (SPACE :: cmd) = S (spaces_in cmd)) as Hs by (unfold spaces_in; by rewrite filter_cons, decide_True).
        destruct target as [|x target].
        -- destruct (IH (length cmd) ltac:(cbn; lia) cmd eq_refl [] argv) as (t' & a' & E1 & E2 & E3); [cbn in *; lia|lia|]. exists t', a'. split; [done|]. split; [|done]. rewrite E2.
           cbn [prepend app]. rewrite filter_cons, decide_False by (intros H; by apply H). by destruct (chunks cmd) eqn:Ec; [destruct (chunks_ne cmd)|].
        -- unfold push. rewrite (proj2 (Z.ltb_lt _ size)), (proj2 (Z.ltb_lt _ slots)) by (cbn [length] in *; lia). cbn [andb mbind option_bind].
           destruct (IH (length cmd) ltac:(cbn; lia) cmd eq_refl [] (argv ++ [cstr (x :: target)])) as (t' & a' & E1 & E2 & E3); [cbn in *; lia|rewrite length_app; cbn [length]; lia|].
           exists t', a'. split; [done|]. split; [|done]. rewrite E2. cbn [prepend app]. rewrite filter_cons, decide_True by done. rewrite app_nil_r, <- app_assoc.
           by destruct (chunks cmd) eqn:Ec; [destruct (chunks_ne cmd)|].
      * unfold put. rewrite (proj2 (Z.ltb_lt _ _)) by lia. cbn [mbind option_bind]. rewrite prepend_cons_head.
        apply (IH (length cmd)); [cbn; lia|done|rewrite length_app; cbn [length]; lia|lia].
Qed.

(** The buffers are large enough for every command line. *)
Lemma decoded_words cmd : decodeCmdArgs cmd = Some (words cmd).
Proof.
  destruct cmd as [|c cmd]; [done|]. unfold decodeCmdArgs. set (l := c :: cmd). unfold num_spaces.
  destruct (decode_loop_words (Z.of_nat (length l) + 1) (Z.of_nat (spaces_in l) + 2) l [] []) as (t' & a' & E1 & E2 & E3 & E4); [cbn [length]; lia|cbn [length]; lia|].
  fold (spaces_in l). rewrite E1. cbn [mbind option_bind]. cbn [app] in E2. unfold words. assert (prepend [] (chunks l) = chunks l) as Hp by (destruct (chunks l) eqn:Ec; [by destruct (chunks_ne l)|done]).
  rewrite Hp in E2. destruct t' as [|x t'].
  - rewrite decide_True, app_nil_r in E2 by done. rewrite <- E2. cbn [mbind option_bind]. destruct a'; [done|]. by rewrite (proj2 (Z.ltb_lt _ _)) by lia.
  - rewrite decide_False in E2 by done. unfold push. rewrite (proj2 (Z.ltb_lt _ _)), (proj2 (Z.ltb_lt _ (Z.of_nat (spaces_in l) + 2))) by lia. cbn [andb mbind option_bind]. rewrite <- E2.
    destruct (a' ++ [cstr (x :: t')]) eqn:Ea; [by destruct a'|]. rewrite <- Ea. rewrite (proj2 (Z.ltb_lt _ _)); [done|]. rewrite length_app. cbn [length]. lia.
Qed.

(** Arguments without spaces, backslashes and zero bytes. *)
Definition plain (a : bytes) : Prop := Forall (λ c, c ≠ SPACE ∧ c ≠ BACKSLASH ∧ c ≠ NUL) a.

Lemma chunks_plain a : ∀ s, plain a → chunks (a ++ SPACE :: s) = a :: chunks s.
Proof.
  induction a as [|c a IH]; intros s Ha; [done|]. apply Forall_cons in Ha as [(H1 & H2 & _) Ha]. cbn [app chunks].
  rewrite (proj2 (Ascii.eqb_neq c BACKSLASH)), (proj2 (Ascii.eqb_neq c SPACE)) by done. by rewrite IH.
Qed.

Lemma plain_cstr a : plain a → cstr a = a.
Proof.
  intros Ha. apply cstr_id. apply forallb_forall. intros c Hc%list_elem_of_In. apply negb_true_iff. destruct (is_nul c) eqn:E; [|done].
  apply is_nul_true in E. subst c. pose proof (proj1 (Forall_forall _ _) Ha _ Hc) as (_ & _ & H). done.
Qed.

Lemma words_plain a s : plain a → words (a ++ SPACE :: s) = (if decide (a = []) then [] else [a]) ++ words s.
Proof.
  intros Ha. unfold words. rewrite chunks_plain, filter_cons by done. destruct (decide (a = [])) as [->|Hne]; [by rewrite decide_False by (intros H; by apply H)|].
  rewrite decide_True by done. cbn. by rewrite plain_cstr.
Qed.

Lemma words_space s : words (SPACE :: s) = words s.
Proof. unfold words. change (chunks (SPACE :: s)) with ([] :: chunks s). rewrite filter_cons, decide_False by (intros H; by apply H). done. Qed.

Lemma words_joined l : ∀ s, Forall plain l → Forall (λ a, a ≠ []) l → words (mjoin ((λ x, SPACE :: x) <$> l) ++ SPACE :: s) = l ++ words s.
Proof.
  induction l as [|a l IH]; intros s Hl Hne; [apply words_space|]. apply Forall_cons in Hl as [Ha Hl]. apply Forall_cons in Hne as [Hna Hne].
  change (mjoin ((λ x, SPACE :: x) <$> a :: l)) with (SPACE :: a ++ mjoin ((λ x, SPACE :: x) <$> l)). cbn [app]. rewrite words_space, <- app_assoc, <- (IH s Hl Hne).
  destruct l as [|a' l].
  - change (mjoin ((λ x, SPACE :: x) <$> [])) with ([] : bytes). cbn [app]. rewrite words_plain, decide_False, words_space by done. done.
  - change (mjoin ((λ x, SPACE :: x) <$> a' :: l)) with (SPACE :: a' ++ mjoin ((λ x, SPACE :: x) <$> l)). cbn [app]. rewrite words_plain, decide_False, words_space by done. done.
Qed.

(** The text of arguments, and then something after a space. *)
Lemma words_encoded l s : Forall plain l → words (default [] (encodeCmdArgs l) ++ SPACE :: s) = filter (λ a, a ≠ []) l ++ words s.
Proof.
  intros Hl. unfold encodeCmdArgs. assert (Forall plain (filter (λ a, a ≠ []) l)) as Hf.
  { apply Forall_forall. intros a [_ Ha]%list_elem_of_filter. by apply (proj1 (Forall_forall _ _) Hl). }
  assert (Forall (λ a, a ≠ []) (filter (λ a, a ≠ []) l)) as Hne by (apply Forall_forall; by intros a [? _]%list_elem_of_filter).
  destruct l as [|a0 l0]; [apply words_space|]. destruct (filter (λ a, a ≠ []) (a0 :: l0)) as [|a l']; [apply words_space|]. cbn [default from_option]. unfold id. rewrite <- app_assoc.
  rewrite <- words_space. pose proof (words_joined (a :: l') s Hf Hne) as H. change (mjoin ((λ x, SPACE :: x) <$> a :: l')) with ((SPACE :: a) ++ mjoin ((λ x, SPACE :: x) <$> l')) in H.
  by rewrite <- app_assoc in H.
Qed.

(** the options of the site and of the user reach the front end as the arguments that they were: decoding a command
    line stays within the buffers that are allocated for it, whatever is in it, and gives the words between the spaces
    that are not escaped; arguments without spaces and backslashes, put together with [encodeCmdArgs], come out as they
    were, in their order, those of the site first. *)
Theorem command_line_roundtrip site user : Forall plain site → Forall plain user →
  combined_args site (encodeCmdArgs user) = Some (filter (λ a, a ≠ []) (site ++ user)) ∧ ∀ cmd, decodeCmdArgs cmd = Some (words cmd).
Proof.
  intros Hs Hu. split; [|apply decoded_words]. unfold combined_args. rewrite decoded_words. f_equal. rewrite filter_app. unfold combined_options.
  assert (words (default [] (encodeCmdArgs user) ++ [SPACE]) = filter (λ a, a ≠ []) user) as Eu by (rewrite words_encoded by done; apply app_nil_r).
  assert (∀ l, Forall plain l → default [] (encodeCmdArgs l) = [] → filter (λ a, a ≠ []) l = []) as Hnil.
  { intros l Hl E. pose proof (words_encoded l [] Hl) as H. rewrite E in H. cbn [app] in H. rewrite words_space in H. symmetry in H. apply app_eq_nil in H. by destruct H. }
  destruct (default [] (encodeCmdArgs site)) as [|c sl] eqn:Es.
  - rewrite (Hnil site Hs Es). exact Eu.
  - destruct (default [] (encodeCmdArgs user)) as [|d ul] eqn:Eus.
    + rewrite (Hnil user Hu Eus). pose proof (words_encoded site [] Hs) as H. by rewrite Es in H.
    + rewrite <- Eu, <- (words_encoded site _ Hs), Es. cbn [app]. done.
Qed.

Lemma command_line_roundtrip_witness :
  combined_args [lit "--no-hide"; []; lit "--port=21940"] (encodeCmdArgs [lit "--pull"; lit "-p"; lit "/a:/b"]) =
    Some [lit "--no-hide"; lit "--port=21940"; lit "--pull"; lit "-p"; lit "/a:/b"].
Proof.
  assert (∀ l, forallb (forallb (λ c, negb (Ascii.eqb c SPACE) && negb (Ascii.eqb c BACKSLASH) && negb (Ascii.eqb c NUL))) l = true → Forall plain l) as Hp.
  { intros l H. apply Forall_forall. intros a Ha. apply Forall_forall. intros c Hc. rewrite forallb_forall in H. specialize (H a (proj1 (list_elem_of_In _ _) Ha)).
    rewrite forallb_forall in H. specialize (H c (proj1 (list_elem_of_In _ _) Hc)). rewrite !andb_true_iff, !negb_true_iff, !Ascii.eqb_neq in H. tauto. }
  apply (command_line_roundtrip [lit "--no-hide"; []; lit "--port=21940"] [lit "--pull"; lit "-p"; lit "/a:/b"]); apply Hp; reflexivity.
Defined.

(** An argument of the site with a space becomes two. *)
Lemma site_spaces_split : combined_args [lit "--test a"] None = Some [lit "--test"; lit "a"].
Proof. by vm_compute. Qed.

(** ** The string that a child process returns *)

(** What [dropPrivilegeAndRun] writes to the pipe in the child; [None] when it gives up. *)
Definition write_output (child_output_str : option bytes) : option bytes :=
  let s := default [] child_output_str in
  let output_len := Z.of_nat (length s) in
  if 32 * 1024 <? output_len then None
  else Some (le64 output_len ++ if output_len =? 0 then [] else s ++ [NUL]).

(** What the parent makes of the bytes of the pipe. *)
Definition read_output (p : bytes) : option bytes :=
  if (length p <? 8)%nat then None
  else
    let len := rd_u 8 p 0 in
    if 32 * 1024 <=? len then None
    else if Z.of_nat (length p - 8) <? len then None
    else Some (take (Z.to_nat len) (drop 8 p)).

(** What the child writes the parent reads, up to a length of 32 kB. *)
Lemma output_roundtrip s : Z.of_nat (length s) < 32 * 1024 → ∃ p, write_output (Some s) = Some p ∧ read_output p = Some s.
Proof.
  intros Hs. unfold write_output. cbn [default from_option]. unfold id. rewrite (proj2 (Z.ltb_ge _ _)) by lia. eexists. split; [done|]. set (rest := if Z.of_nat (length s) =? 0 then [] else s ++ [NUL]).
  assert (length (le64 (Z.of_nat (length s))) = 8%nat) as L8 by apply le_encode_length. assert (take (length s) rest = s ∧ (length s ≤ length rest)%nat) as [Ht Hl].
  { unfold rest. destruct (_ =? 0) eqn:E; bool_to_prop; [destruct s; [done|cbn in E; lia]|]. rewrite take_app_exact, length_app by done. split; [done|lia]. }
  unfold read_output. rewrite length_app, L8, (proj2 (Nat.ltb_ge _ _)) by lia. rewrite rd_u_front by done. unfold le64. rewrite le_decode_encode_small by (cbn; lia).
  rewrite (proj2 (Z.leb_gt _ _)), (proj2 (Z.ltb_ge _ _)) by lia. rewrite drop_app_exact by (by rewrite le_encode_length). by rewrite Nat2Z.id, Ht.
Qed.

(** With exactly 32 kB the child succeeds and the parent fails. *)
Lemma output_limit s : Z.of_nat (length s) = 32 * 1024 → ∃ p, write_output (Some s) = Some p ∧ read_output p = None.
Proof.
  intros Hs. unfold write_output. cbn [default from_option]. unfold id. rewrite Hs. change (32 * 1024 <? 32 * 1024) with false. change (32 * 1024 =? 0) with false. cbv iota. eexists. split; [done|].
  unfold read_output. case_match; [done|]. rewrite rd_u_front by apply le_encode_length. done.
Qed.

(** ** The process of the front end *)

Definition registerFEPid (pid : Z) : bytes := dec pid ++ [byte_of 10].
(** 32 bytes at most are read; a number that is not positive is refused. *)
Definition readFEPid (file : option bytes) : option Z :=
  match file with
  | None => Some 0
  | Some s => let pid_result := default 0 (scan_int (take 32 s)) in if pid_result <=? 0 then None else Some pid_result
  end.

Lemma fepid_roundtrip pid : 0 < pid < 2 ^ 31 → readFEPid (Some (registerFEPid pid)) = Some pid.
Proof.
  intros Hp. unfold readFEPid, registerFEPid. pose proof (dec_length pid ltac:(lia)). rewrite take_ge by (rewrite length_app; cbn [length]; lia). rewrite scan_dec by (done || lia). cbn [default from_option]. unfold id.
  by rewrite (proj2 (Z.leb_gt _ _)) by lia.
Qed.

End SlurmArgs.
