(* ===== verification/SlurmHosts.v ===== *)
(** * Host lists of SLURM

    SLURM names the hosts of a job in short form, such as [n[1-3,7],login].  [getHostsParse] of
    [slurm_plugin/plugin_utils.c] expands such a list, [isFEHost] decides which host has the front end.

    A pointer into a string is what is left of the string from there.  [None] stands for a write behind the end of a
    buffer, and for a loop that does not end. *)

From Stdlib Require Import Ascii String ZArith Lia.
From stdpp Require Import strings numbers gmap list.
From S2P Require Import Prelude Bytes.

Module SlurmHosts.

Definition OPEN : ascii := "[".
Definition CLOSE : ascii := "]".
Definition COMMA : ascii := ",".
Definition DASH : ascii := "-".

(** [strchr]: what begins with the character. *)
Fixpoint strchr (c : ascii) (s : bytes) : option bytes :=
  match s with [] => None | d :: s' => if Ascii.eqb d c then Some s else strchr c s' end.

(** ** The list that grows *)

Record host_list_t := mk_hlist {
  hosts : option (list bytes);
  size : Z;
}.

Definition addHost (host : bytes) (hlist : host_list_t) : option host_list_t :=
  let '(hs, sz) :=
    match hosts hlist with
    | None => ([], if size hlist =? 0 then 8 else size hlist + 1)
    | Some hs => (hs, size hlist)
    end in
  let cur := Z.of_nat (length hs) in
  let sz := if sz <=? cur + 2 then sz * 2 else sz in
  if cur + 1 <? sz then Some (mk_hlist (Some (hs ++ [host])) sz) else None.

(** ** Ranges *)

Definition atoi_u (s : bytes) : Z := wrap32 (default 0 (scan_int s)).

Definition expandNumberRange (range : bytes) : option (bytes * Z * Z) :=
  match range with
  | c :: _ =>
      if isdigit c then
        let pos := drop (length (digits_of range)) range in
        let number_start := atoi_u range in
        match pos with
        | d :: pos' =>
            if Ascii.eqb d COMMA || Ascii.eqb d CLOSE then Some (pos', number_start, number_start)
            else if Ascii.eqb d DASH then
              match pos' with
              | e :: _ =>
                  if isdigit e then
                    let next := drop (S (length (digits_of pos'))) pos' in
                    let number_end := atoi_u pos' in
                    if number_end <? number_start then None else Some (next, number_start, number_end)
                  else None
              | [] => None
              end
            else None
        | [] => None
        end
      else None
  | [] => None
  end.

(** The digits of the [int] that the number becomes; none for 0. *)
Fixpoint count_digits (fuel : nat) (i : Z) : nat :=
  match fuel with O => O | S fuel' => if i =? 0 then O else S (count_digits fuel' (Z.quot i 10)) end.
Definition charLengthOfNumber (num : Z) : nat := count_digits 10 (to_signed 32 num).

(** The name that fits the buffer that is allocated for it. *)
Definition host_name (prefix suffix : bytes) (i : Z) : bytes :=
  let prefix_len := length prefix in
  let suffix_len := S (length suffix) in
  let number_len := charLengthOfNumber i in
  take (prefix_len + number_len + suffix_len) (prefix ++ dec i ++ suffix).

(** ** One name in short form *)

(** The loops over the numbers of a range and over the ranges, with what is done for a host.  A range that ends with the
    largest number has no end. *)
Section loops.
  Context (expand : bytes → host_list_t → option host_list_t).

Fixpoint add_numbers (prefix suffix : bytes) (n : nat) (i : Z) (hlist : host_list_t) : option host_list_t :=
  match n with
  | O => Some hlist
  | S n' =>
      let host := host_name prefix suffix i in
      hlist' ← match strchr OPEN host with Some _ => expand host hlist | None => addHost host hlist end;
      add_numbers prefix suffix n' (i + 1) hlist'
  end.

Fixpoint add_ranges (fuel : nat) (prefix suffix close_bracket pos : bytes) (hlist : host_list_t) : option (host_list_t * Z) :=
  match fuel with
  | O => None
  | S fuel' =>
      match expandNumberRange pos with
      | None => Some (hlist, -1)
      | Some (pos', number_start, number_end) =>
          if number_end =? 2 ^ 32 - 1 then None
          else
            hlist' ← add_numbers prefix suffix (Z.to_nat (number_end - number_start + 1)) number_start hlist;
            if (length close_bracket <? length pos')%nat then add_ranges fuel' prefix suffix close_bracket pos' hlist' else Some (hlist', 0)
      end
  end.
End loops.

(** The result of a call for a name that was made from this one is ignored.  [fuel]: the depth of the calls. *)
Fixpoint expandOneShortHost (fuel : nat) (start : bytes) (hlist : host_list_t) : option (host_list_t * Z) :=
  match fuel with
  | O => None
  | S fuel' =>
      match strchr OPEN start with
      | None => hlist' ← addHost start hlist; Some (hlist', 0)
      | Some open_bracket =>
          match strchr CLOSE open_bracket with
          | None => Some (hlist, -1)
          | Some close_bracket =>
              let prefix := take (length start - length open_bracket) start in
              let suffix := drop 1 close_bracket in
              add_ranges (λ host hl, fst <$> expandOneShortHost fuel' host hl) (S (length start)) prefix suffix close_bracket (drop 1 open_bracket) hlist
          end
      end
  end.

(** ** The whole list *)

Definition brackets (s : bytes) : nat := length (filter (λ c, c = OPEN) s).

(** [seg]: the characters from [start] to [pos]. *)
Fixpoint parse_hosts (rest seg : bytes) (in_bracket : Z) (hlist : host_list_t) : option (option host_list_t) :=
  match rest with
  | [] => Some (Some hlist)
  | c :: rest' =>
      let in_bracket := if Ascii.eqb c OPEN then in_bracket + 1 else in_bracket in
      let in_bracket := if Ascii.eqb c CLOSE then in_bracket - 1 else in_bracket in
      if (in_bracket =? 0) && (Ascii.eqb c COMMA || is_nul c) then
        match expandOneShortHost (S (brackets seg)) seg hlist with
        | None => None
        | Some (hlist', result) => if result =? -1 then Some None else parse_hosts rest' [] in_bracket hlist'
        end
      else parse_hosts rest' (seg ++ [c]) in_bracket hlist
  end.

(** [None] inside is the null pointer. *)
Definition getHostsParse (num_hosts : Z) (shortlist : bytes) : option (option (list bytes)) :=
  r ← parse_hosts (shortlist ++ [NUL]) [] 0 (mk_hlist None num_hosts);
  Some (hl ← r; hosts hl).

(** ** Hosts from the commands of SLURM *)

Definition host_char (c : ascii) : bool :=
  let v := byte_val c in ((48 <=? v) && (v <=? 57)) || ((97 <=? v) && (v <=? 122)) || ((65 <=? v) && (v <=? 90)) || (v =? 45) || (v =? 95) || (v =? 46).
Fixpoint cut_host (s : bytes) : bytes := match s with [] => [] | c :: s' => if host_char c then c :: cut_host s' else [] end.

(** The lines that [scontrol] prints: [None] when there are more or fewer hosts than expected. *)
Fixpoint scontrol_lines (num_hosts : Z) (lines hostlist : list bytes) : option (list bytes) :=
  match lines with
  | [] => if Z.of_nat (length hostlist) =? num_hosts then Some hostlist else None
  | s :: lines' =>
      match cut_host s with
      | [] => scontrol_lines num_hosts lines' hostlist
      | h => if num_hosts <=? Z.of_nat (length hostlist) then None else scontrol_lines num_hosts lines' (hostlist ++ [h])
      end
  end.
Definition getHostsScontrol (num_hosts : Z) (lines : list bytes) : option (list bytes) := scontrol_lines num_hosts lines [].

(** [sinfo]: the first line that the command prints for a host. *)
Fixpoint getHostAddrSinfo (sinfo : bytes → option bytes) (hostlist : list bytes) : option (list bytes) :=
  match hostlist with
  | [] => Some []
  | [] :: _ => None
  | h :: hs => s ← sinfo h; l ← getHostAddrSinfo sinfo hs; Some (cut_host s :: l)
  end.

(** ** The host of the front end *)

(** [strcmp]: whether the first string is greater. *)
Fixpoint strcmp_gt (s t : bytes) : bool :=
  match s, t with
  | [], _ => false
  | _ :: _, [] => true
  | c :: s', d :: t' => if byte_val c =? byte_val d then strcmp_gt s' t' else byte_val d <? byte_val c
  end.

(** [None] when the list ends before [num_hosts] names. *)
Fixpoint last_of (hostlist : list bytes) (num_hosts : nat) (last_host : option bytes) : option (option bytes) :=
  match num_hosts with
  | O => Some last_host
  | S n =>
      match hostlist with
      | [] => None
      | h :: hs => last_of hs n (match last_host with None => Some h | Some l => if strcmp_gt h l then Some h else Some l end)
      end
  end.

Fixpoint short_name (s : bytes) : bytes := match s with [] => [] | c :: s' => if Ascii.eqb c "." then [] else c :: short_name s' end.

(** [hostname]: what [gethostname] gives. *)
Definition isFEHost (hostname : option bytes) (hostlist : list bytes) (num_hosts : Z) : option Z :=
  l ← last_of hostlist (Z.to_nat num_hosts) None;
  match l with
  | None => Some (-1)
  | Some last_host =>
      if bool_decide (last_host = lit "localhost") then Some 1
      else match hostname with
           | None => Some (-1)
           | Some host => Some (if bool_decide (short_name (take 255 host) = short_name last_host) then 1 else 0)
           end
  end.

(** ** What a short form means *)

(** A number, or the numbers from one to another. *)
Definition range : Type := Z * option Z.
Inductive part := Text (t : bytes) | Ranges (l : list range).

Definition print_range (r : range) : bytes := match r with (a, None) => dec a | (a, Some b) => dec a ++ DASH :: dec b end.
Fixpoint print_ranges (l : list range) : bytes :=
  match l with [] => [] | [r] => print_range r | r :: l' => print_range r ++ COMMA :: print_ranges l' end.
Definition print_part (p : part) : bytes := match p with Text t => t | Ranges l => OPEN :: print_ranges l ++ [CLOSE] end.
Definition print_expr (e : list part) : bytes := mjoin (print_part <$> e).
Fixpoint print_list (es : list (list part)) : bytes :=
  match es with [] => [] | [e] => print_expr e | e :: es' => print_expr e ++ COMMA :: print_list es' end.

Definition numbers (r : range) : list Z := match r with (a, b) => seqZ a (default a b - a + 1) end.
(** The hosts, the numbers of the first brackets changing last. *)
Fixpoint expansion (e : list part) : list bytes :=
  match e with
  | [] => [[]]
  | Text t :: e' => app t <$> expansion e'
  | Ranges l :: e' => i ← mjoin (numbers <$> l); app (dec i) <$> expansion e'
  end.

Definition text_ok (t : bytes) : Prop := Forall (λ c, c ≠ OPEN ∧ c ≠ CLOSE ∧ c ≠ COMMA ∧ c ≠ NUL) t.
Definition range_ok (r : range) : Prop := 0 <= r.1 < 2 ^ 31 ∧ match r.2 with Some b => r.1 <= b < 2 ^ 31 | None => True end.
Definition part_ok (p : part) : Prop := match p with Text t => text_ok t | Ranges l => l ≠ [] ∧ Forall range_ok l end.

(** *** The list *)

Definition hlist_ok (hl : host_list_t) : Prop :=
  match hosts hl with None => 0 <= size hl | Some hs => Z.of_nat (length hs) + 1 < size hl end.
Definition names (hl : host_list_t) : list bytes := default [] (hosts hl).

Lemma addHost_ok host hl : hlist_ok hl → ∃ hl', addHost host hl = Some hl' ∧ hlist_ok hl' ∧ hosts hl' = Some (names hl ++ [host]).
Proof.
  unfold hlist_ok, addHost, names. destruct hl as [[hs|] sz]; cbn [hosts size default from_option]; unfold id; intros Hok.
  - set (sz' := if sz <=? _ then sz * 2 else sz). assert (Z.of_nat (length hs) + 2 < sz') as H by (unfold sz'; case_match; bool_to_prop; lia).
    rewrite (proj2 (Z.ltb_lt _ _)) by lia. eexists. split; [done|]. cbn. rewrite length_app. cbn [length]. split; [lia|done].
  - set (sz0 := if sz =? 0 then 8 else sz + 1). assert (2 <= sz0) as H0 by (unfold sz0; case_match; bool_to_prop; lia). cbn [length].
    set (sz' := if sz0 <=? _ then sz0 * 2 else sz0). assert (2 < sz') as H by (unfold sz'; case_match; bool_to_prop; lia).
    rewrite (proj2 (Z.ltb_lt _ _)) by lia. eexists. split; [done|]. cbn. split; [lia|done].
Qed.

(** What [hl'] has more than [hl]. *)
Definition added (hl : host_list_t) (l : list bytes) (hl' : host_list_t) : Prop := hlist_ok hl' ∧ names hl' = names hl ++ l ∧ (l ≠ [] → is_Some (hosts hl')) ∧ (is_Some (hosts hl) → is_Some (hosts hl')).

Lemma addHost_added host hl : hlist_ok hl → ∃ hl', addHost host hl = Some hl' ∧ added hl [host] hl'.
Proof.
  intros Hok. destruct (addHost_ok host hl Hok) as (hl' & E & Hok' & Hh). exists hl'. split; [done|]. split; [done|]. unfold names at 1. rewrite Hh. split; [done|]. split; by eexists.
Qed.

Lemma added_trans hl l hl1 l' hl2 : added hl l hl1 → added hl1 l' hl2 → added hl (l ++ l') hl2.
Proof.
  intros (_ & E1 & H1 & K1) (Ho & E2 & H2 & K2). split; [done|]. split; [by rewrite E2, E1, app_assoc|]. split; [|by intros ?%K1%K2].
  intros Hne. destruct l; [by apply H2|]. by apply K2, H1.
Qed.

Lemma added_nil hl : hlist_ok hl → added hl [] hl.
Proof. intros H. split; [done|]. split; [by rewrite app_nil_r|]. by split. Qed.

(** *** Numbers *)

Lemma dec_digits_isdigit z : 0 <= z < 2 ^ 31 → ∃ c ds, dec z = c :: ds ∧ Forall (λ c, isdigit c = true) (c :: ds).
Proof.
  intros Hz. unfold dec. rewrite (proj2 (Z.ltb_ge _ _)) by lia. destruct (dec_digits_spec 20 z []) as (ds & E & Hne & Hds & _); [cbn; lia|lia|].
  rewrite E, app_nil_r. destruct ds as [|c ds]; [done|]. by exists c, ds.
Qed.

Lemma atoi_u_dec z t : 0 <= z < 2 ^ 31 → match t with c :: _ => isdigit c = false | [] => True end → atoi_u (dec z ++ t) = z.
Proof. intros Hz Ht. unfold atoi_u. rewrite scan_dec by (done || lia). cbn. unfold wrap32. apply Z.mod_small. lia. Qed.

(** A range, and what is behind it, which begins with a comma or a bracket. *)
Lemma expand_range r c t : range_ok r → c = COMMA ∨ c = CLOSE →
  expandNumberRange (print_range r ++ c :: t) = Some (t, r.1, default r.1 r.2).
Proof.
  destruct r as [a [b|]]; intros [Ha Hb] Hc; cbn [fst snd] in *; (assert (isdigit c = false) as Hd by (by destruct Hc as [-> | ->])).
  - destruct (dec_digits_isdigit a Ha) as (x & ds & Ea & Hds). destruct (dec_digits_isdigit b ltac:(lia)) as (y & es & Eb & Hes). cbn [print_range]. rewrite <- app_assoc. cbn [app].
    pose proof (atoi_u_dec a (DASH :: dec b ++ c :: t) Ha eq_refl) as Aa. pose proof (atoi_u_dec b (c :: t) ltac:(lia) Hd) as Ab.
    pose proof (digits_of_stop (dec a) (DASH :: dec b ++ c :: t) ltac:(by rewrite Ea) eq_refl) as Da. pose proof (digits_of_stop (dec b) (c :: t) ltac:(by rewrite Eb) Hd) as Db.
    unfold expandNumberRange. rewrite Da, Aa, drop_app_exact by done. rewrite Ea at 1. cbn [app]. apply Forall_cons in Hds as [-> _].
    cbn [orb]. change (Ascii.eqb DASH COMMA || Ascii.eqb DASH CLOSE) with false. change (Ascii.eqb DASH DASH) with true. cbv iota.
    rewrite Db, Ab. rewrite Eb at 1. cbn [app]. apply Forall_cons in Hes as [-> _]. rewrite (proj2 (Z.ltb_ge _ _)) by lia. cbn [default from_option]. unfold id.
    do 3 f_equal. change (dec b ++ c :: t) with (dec b ++ [c] ++ t). rewrite app_assoc. apply drop_app_exact. rewrite length_app. cbn. lia.
  - destruct (dec_digits_isdigit a Ha) as (x & ds & Ea & Hds). cbn [print_range]. pose proof (atoi_u_dec a (c :: t) Ha Hd) as Aa.
    pose proof (digits_of_stop (dec a) (c :: t) ltac:(by rewrite Ea) Hd) as Da. unfold expandNumberRange. rewrite Da, Aa, drop_app_exact by done. rewrite Ea at 1. cbn [app].
    apply Forall_cons in Hds as [-> _]. assert (Ascii.eqb c COMMA || Ascii.eqb c CLOSE = true) as -> by (by destruct Hc as [-> | ->]). done.
Qed.

Lemma count_digits_pos fuel : ∀ i k, 0 <= i → 10 ^ Z.of_nat k <= i → (k < fuel)%nat → (S k ≤ count_digits fuel i)%nat.
Proof.
  induction fuel as [|fuel IH]; intros i k Hi Hk Hf; [lia|]. cbn [count_digits]. assert (0 < 10 ^ Z.of_nat k) by (apply Z.pow_pos_nonneg; lia). rewrite (proj2 (Z.eqb_neq _ _)) by lia.
  destruct k as [|k]; [lia|]. rewrite Z.quot_div_nonneg by lia. assert (S k ≤ count_digits fuel (i / 10))%nat; [|lia]. rewrite Nat2Z.inj_succ, Z.pow_succ_r in Hk by lia.
  apply IH; [apply Z.div_pos; lia| |lia]. apply Z.div_le_lower_bound; lia.
Qed.

(** The number of characters that are counted is enough, one more being allocated for the suffix. *)
Lemma number_fits i : 0 <= i < 2 ^ 31 → (length (dec i) ≤ S (charLengthOfNumber i))%nat.
Proof.
  intros Hi. unfold charLengthOfNumber. rewrite to_signed_id by lia. assert (0 < i → (length (dec i) ≤ count_digits 10 i)%nat) as H.
  { intros Hp. unfold dec. rewrite (proj2 (Z.ltb_ge _ _)) by lia. assert (∃ k, (k < 10)%nat ∧ 10 ^ Z.of_nat k <= i < 10 ^ Z.of_nat (S k)) as (k & Hk & Hlo & Hhi).
    { destruct (Z_lt_dec i 10); [exists 0%nat; cbn; lia|]. destruct (Z_lt_dec i 100); [exists 1%nat; cbn; lia|]. destruct (Z_lt_dec i 1000); [exists 2%nat; cbn; lia|]. 
      destruct (Z_lt_dec i 10000); [exists 3%nat; cbn; lia|]. destruct (Z_lt_dec i 100000); [exists 4%nat; cbn; lia|]. destruct (Z_lt_dec i 1000000); [exists 5%nat; cbn; lia|]. 
      destruct (Z_lt_dec i 10000000); [exists 6%nat; cbn; lia|]. destruct (Z_lt_dec i 100000000); [exists 7%nat; cbn; lia|]. destruct (Z_lt_dec i 1000000000); [exists 8%nat; cbn; lia|]. 
      exists 9%nat; cbn; lia. }
    pose proof (dec_digits_length 20 i [] k ltac:(lia)). pose proof (count_digits_pos 10 i k ltac:(lia) Hlo Hk). cbn [length] in *. lia. }
  destruct (decide (i = 0)) as [->|Hne]; [cbn; lia|]. specialize (H ltac:(lia)). lia.
Qed.

Lemma host_name_whole prefix suffix i : 0 <= i < 2 ^ 31 → host_name prefix suffix i = prefix ++ dec i ++ suffix.
Proof. intros Hi. unfold host_name. apply take_ge. rewrite !length_app. pose proof (number_fits i Hi). lia. Qed.

(** *** Searching *)

Lemma strchr_none c s : Forall (λ d, d ≠ c) s → strchr c s = None.
Proof. induction 1 as [|d s Hd _ IH]; cbn; [done|]. by rewrite (proj2 (Ascii.eqb_neq _ _)). Qed.

Lemma strchr_app c s t : Forall (λ d, d ≠ c) s → strchr c (s ++ c :: t) = Some (c :: t).
Proof. induction 1 as [|d s Hd _ IH]; cbn; [by rewrite Ascii.eqb_refl|]. by rewrite (proj2 (Ascii.eqb_neq _ _)). Qed.

Lemma text_ne t c : text_ok t → c = OPEN ∨ c = CLOSE ∨ c = COMMA ∨ c = NUL → Forall (λ d, d ≠ c) t.
Proof. intros Ht Hc. eapply Forall_impl; [exact Ht|]. cbn. intros d (H1 & H2 & H3 & H4). destruct Hc as [-> |[-> |[-> | ->]]]; done. Qed.

Lemma dec_text i : 0 <= i < 2 ^ 31 → text_ok (dec i).
Proof.
  intros Hi. destruct (dec_digits_isdigit i Hi) as (c & ds & -> & Hds). eapply Forall_impl; [exact Hds|]. cbn. intros d Hd. repeat split; intros ->; done.
Qed.

Lemma print_range_ne r c : range_ok r → c = OPEN ∨ c = CLOSE ∨ c = COMMA ∨ c = NUL → Forall (λ d, d ≠ c) (print_range r).
Proof.
  destruct r as [a [b|]]; intros [Ha Hb] Hc; cbn in *; [|by apply text_ne; [apply dec_text|]]. apply Forall_app_2; [by apply text_ne; [apply dec_text|]|].
  constructor; [by destruct Hc as [-> |[-> |[-> | ->]]]|]. apply text_ne; [apply dec_text; lia|done].
Qed.

Lemma print_ranges_ne l c : Forall range_ok l → c = OPEN ∨ c = CLOSE ∨ c = NUL → Forall (λ d, d ≠ c) (print_ranges l).
Proof.
  intros Hl Hc. induction Hl as [|r l Hr Hl IH]; cbn; [constructor|]. assert (Forall (λ d, d ≠ c) (print_range r)) as H by (apply print_range_ne; [done|tauto]).
  destruct l; [done|]. apply Forall_app_2; [done|]. constructor; [by destruct Hc as [-> |[-> | ->]]|done].
Qed.

Lemma print_ranges_cons r l t : l ≠ [] → print_ranges (r :: l) ++ t = print_range r ++ COMMA :: print_ranges l ++ t.
Proof. intros Hl. cbn. destruct l as [|r' l]; [done|]. by rewrite <- app_assoc. Qed.

(** *** The loops *)

(** What the call for a name with brackets adds. *)
Definition expands (f : bytes → host_list_t → option host_list_t) (e : list part) : Prop :=
  ∀ t hl, text_ok t → hlist_ok hl → ∃ hl', f (t ++ print_expr e) hl = Some hl' ∧ added hl (app t <$> expansion e) hl'.

Lemma no_open e t : Forall part_ok e → text_ok t → strchr OPEN (t ++ print_expr e) = None → expansion e = [print_expr e].
Proof.
  intros He. revert t. induction He as [|[u|l] e Hp He IH]; intros t Ht Hn; cbn.
  - done.
  - rewrite (IH (t ++ u)); [done|by apply Forall_app_2|]. by rewrite <- app_assoc.
  - exfalso. unfold print_expr in Hn. cbn in Hn. rewrite strchr_app in Hn by (apply text_ne; [done|by left]). done.
Qed.

Lemma add_numbers_ok f e t : Forall part_ok e → text_ok t → expands f e →
  ∀ n i hl, 0 <= i → i + Z.of_nat n <= 2 ^ 31 → hlist_ok hl →
  ∃ hl', add_numbers f t (print_expr e) n i hl = Some hl' ∧ added hl (j ← seqZ i (Z.of_nat n); app (t ++ dec j) <$> expansion e) hl'.
Proof.
  intros He Ht Hf. induction n as [|n IH]; intros i hl Hi Hn Hok.
  - exists hl. split; [done|]. by apply added_nil.
  - cbn [add_numbers]. assert (text_ok (t ++ dec i)) as Hti by (apply Forall_app_2; [done|apply dec_text; lia]). rewrite host_name_whole, app_assoc by lia.
    assert (∃ hl1, match strchr OPEN ((t ++ dec i) ++ print_expr e) with Some _ => f ((t ++ dec i) ++ print_expr e) hl | None => addHost ((t ++ dec i) ++ print_expr e) hl end = Some hl1 ∧
      added hl (app (t ++ dec i) <$> expansion e) hl1) as (hl1 & -> & H1).
    { destruct (strchr OPEN ((t ++ dec i) ++ print_expr e)) eqn:E; [by apply Hf|]. rewrite (no_open e (t ++ dec i)) by done. by apply addHost_added. }
    cbn [mbind option_bind]. destruct (IH (i + 1) hl1) as (hl' & E & H2); [lia|lia|by destruct H1|]. exists hl'. split; [done|].
    rewrite seqZ_cons by lia. cbn [mbind list_bind]. rewrite Z.add_1_r in H2. replace (Z.pred (Z.of_nat (S n))) with (Z.of_nat n) by lia. by eapply added_trans.
Qed.

Lemma add_ranges_ok f e t : Forall part_ok e → text_ok t → expands f e →
  ∀ l fuel hl, (length l < fuel)%nat → l ≠ [] → Forall range_ok l → hlist_ok hl →
  ∃ hl', add_ranges f fuel t (print_expr e) (CLOSE :: print_expr e) (print_ranges l ++ CLOSE :: print_expr e) hl = Some (hl', 0) ∧
    added hl (i ← mjoin (numbers <$> l); app (t ++ dec i) <$> expansion e) hl'.
Proof.
  intros He Ht Hf. induction l as [|r l IH]; intros fuel hl Hfu Hne Hl Hok; [done|]. destruct fuel as [|fuel]; [cbn in Hfu; lia|]. apply Forall_cons in Hl as [Hr Hl].
  cbn [add_ranges]. destruct r as [a b]. pose proof Hr as [Ha Hb]. cbn [fst snd] in Ha, Hb. set (b' := default a b). assert (a <= b' < 2 ^ 31) as Hb'. { unfold b'. destruct b; cbn; unfold id; lia. }
  destruct (add_numbers_ok f e t He Ht Hf (Z.to_nat (b' - a + 1)) a hl) as (hl1 & E1 & H1); [lia|lia|done|]. rewrite Z2Nat.id in H1 by lia.
  destruct l as [|r' l].
  - cbn [print_ranges]. rewrite expand_range by (done || by right). cbn [fst snd]. fold b'. rewrite (proj2 (Z.eqb_neq _ _)) by lia. rewrite E1. cbn [mbind option_bind].
    rewrite (proj2 (Nat.ltb_ge _ _)) by (cbn; lia). exists hl1. split; [done|]. cbn [fmap list_fmap mjoin list_join]. unfold numbers. fold b'. by rewrite app_nil_r.
  - rewrite print_ranges_cons by done. rewrite expand_range by (done || by left). cbn [fst snd]. fold b'. rewrite (proj2 (Z.eqb_neq _ _)) by lia. rewrite E1. cbn [mbind option_bind].
    rewrite (proj2 (Nat.ltb_lt _ _)). 2: { rewrite length_app. cbn [length]. apply Forall_cons in Hl as [[Hra Hrb] _]. destruct r' as [a2 b2].
      destruct (dec_digits_isdigit a2 Hra) as (c & ds & Ed & _). cbn [print_ranges]. destruct l; cbn [print_range]; destruct b2; rewrite ?length_app, ?Ed; cbn; lia. }
    destruct (IH fuel hl1) as (hl' & E2 & H2); [cbn in *; lia|done|done|by destruct H1|]. exists hl'. split; [done|].
    change (mjoin (numbers <$> (a, b) :: r' :: l)) with (numbers (a, b) ++ mjoin (numbers <$> r' :: l)). rewrite bind_app. eapply added_trans; [|done]. unfold numbers. by fold b'.
Qed.

(** *** One name *)

Fixpoint depth (e : list part) : nat := match e with [] => 0 | Text _ :: e' => depth e' | Ranges _ :: e' => S (depth e') end.

Lemma fmap_bind_app (t : bytes) (l : list Z) (X : list bytes) : app t <$> (i ← l; app (dec i) <$> X) = (i ← l; app (t ++ dec i) <$> X).
Proof.
  induction l as [|i l IH]; [done|]. rewrite !bind_cons, fmap_app, IH. f_equal. rewrite <- list_fmap_compose. apply list_fmap_ext. intros k x _. cbn. by rewrite app_assoc.
Qed.

Lemma expand_one e : ∀ fuel t hl, Forall part_ok e → text_ok t → hlist_ok hl → (depth e < fuel)%nat →
  ∃ hl', expandOneShortHost fuel (t ++ print_expr e) hl = Some (hl', 0) ∧ added hl (app t <$> expansion e) hl'.
Proof.
  induction e as [|[u|l] e IH]; intros fuel t hl He Ht Hok Hf.
  - destruct fuel as [|fuel]; [lia|]. cbn. rewrite app_nil_r, strchr_none by (apply text_ne; [done|by left]). destruct (addHost_added t hl Hok) as (hl' & -> & H). by exists hl'.
  - apply Forall_cons in He as [Hp He]. change (print_expr (Text u :: e)) with (u ++ print_expr e). rewrite app_assoc.
    destruct (IH fuel (t ++ u) hl) as (hl' & E & H); [done|by apply Forall_app_2|done|done|]. exists hl'. split; [done|]. cbn. rewrite <- list_fmap_compose.
    erewrite list_fmap_ext; [done|]. intros i x _. cbn. by rewrite app_assoc.
  - apply Forall_cons in He as [[Hne Hl] He]. destruct fuel as [|fuel]; [lia|]. change (print_expr (Ranges l :: e)) with ((OPEN :: print_ranges l ++ [CLOSE]) ++ print_expr e). cbn [app]. rewrite <- app_assoc. cbn [app].
    cbn [expandOneShortHost]. rewrite strchr_app by (apply text_ne; [done|by left]).
    pose proof (strchr_app CLOSE (OPEN :: print_ranges l) (print_expr e) ltac:(constructor; [done|apply print_ranges_ne; [done|tauto]])) as Hcl. cbn [app] in Hcl. rewrite Hcl.
    rewrite length_app, Nat.add_sub, take_app_exact by done. cbn [drop].
    destruct (add_ranges_ok (λ host hl, fst <$> expandOneShortHost fuel host hl) e t He Ht) with (l := l) (fuel := S (length t + length (OPEN :: print_ranges l ++ CLOSE :: print_expr e))) (hl := hl) as (hl' & E & H).
    + intros t' hl0 Ht' Hok0. destruct (IH fuel t' hl0) as (hl' & E & H); [done|done|done| |].
      * cbn in Hf. lia.
      * exists hl'. by rewrite E.
    + assert (length l ≤ length (print_ranges l))%nat; [|cbn [length]; rewrite length_app; lia]. clear -Hl. induction Hl as [|[a b] l [Ha _] _ IH]; [cbn; lia|].
      destruct (dec_digits_isdigit a Ha) as (c & ds & Ed & _). cbn [print_ranges length]. destruct l as [|r l]; [destruct b; cbn; rewrite ?length_app, Ed; cbn; lia|]. rewrite length_app. cbn [length] in *. lia.
    + done.
    + done.
    + done.
    + exists hl'. split; [done|]. cbn [expansion]. by rewrite fmap_bind_app.
Qed.

(** *** The list of names *)

Lemma brackets_app s u : brackets (s ++ u) = (brackets s + brackets u)%nat.
Proof. unfold brackets. by rewrite filter_app, length_app. Qed.

Lemma brackets_none s : Forall (λ d, d ≠ OPEN) s → brackets s = 0%nat.
Proof. unfold brackets. induction 1 as [|d s Hd _ IH]; [done|]. by rewrite filter_cons, decide_False. Qed.

Lemma brackets_depth e : Forall part_ok e → brackets (print_expr e) = depth e.
Proof.
  induction 1 as [|[u|l] e Hp He IH]; [done| |].
  - change (print_expr (Text u :: e)) with (u ++ print_expr e). rewrite brackets_app, IH, brackets_none by (apply text_ne; [done|by left]). done.
  - destruct Hp as [_ Hl]. change (print_expr (Ranges l :: e)) with (((OPEN :: print_ranges l) ++ [CLOSE]) ++ print_expr e). rewrite !brackets_app, IH. cbn [depth].
    change (OPEN :: print_ranges l) with ([OPEN] ++ print_ranges l). rewrite brackets_app, (brackets_none (print_ranges l)) by (apply print_ranges_ne; [done|by left]). done.
Qed.

(** Characters that are passed over. *)
Lemma parse_skip k s : ∀ rest seg hl, Forall (λ d, d ≠ OPEN ∧ d ≠ CLOSE ∧ (k = 0 → d ≠ COMMA ∧ d ≠ NUL)) s →
  parse_hosts (s ++ rest) seg k hl = parse_hosts rest (seg ++ s) k hl.
Proof.
  induction s as [|d s IH]; intros rest seg hl Hs; [by rewrite app_nil_r|]. apply Forall_cons in Hs as [(H1 & H2 & H3) Hs]. cbn [app parse_hosts].
  rewrite (proj2 (Ascii.eqb_neq d OPEN)), (proj2 (Ascii.eqb_neq d CLOSE)) by done. assert ((k =? 0) && (Ascii.eqb d COMMA || is_nul d) = false) as ->.
  { destruct (k =? 0) eqn:E; [|done]. bool_to_prop. destruct (H3 E) as [Hc Hn]. rewrite (proj2 (Ascii.eqb_neq d COMMA)) by done. cbn. destruct (is_nul d) eqn:En; [|done]. by apply is_nul_true in En. }
  rewrite IH by done. by rewrite <- app_assoc.
Qed.

Lemma parse_expr e : ∀ rest seg hl, Forall part_ok e → parse_hosts (print_expr e ++ rest) seg 0 hl = parse_hosts rest (seg ++ print_expr e) 0 hl.
Proof.
  induction e as [|[u|l] e IH]; intros rest seg hl He; [by rewrite app_nil_r| |]; apply Forall_cons in He as [Hp He].
  - change (print_expr (Text u :: e)) with (u ++ print_expr e). rewrite <- app_assoc, parse_skip. 2: { eapply Forall_impl; [exact Hp|]. cbn. tauto. }
    rewrite IH by done. by rewrite app_assoc.
  - destruct Hp as [_ Hl]. change (print_expr (Ranges l :: e)) with ((OPEN :: print_ranges l ++ [CLOSE]) ++ print_expr e). cbn [app]. rewrite <- !app_assoc. cbn [app parse_hosts].
    change (Ascii.eqb OPEN OPEN) with true. change (Ascii.eqb OPEN CLOSE) with false. cbn [Z.add Z.eqb andb]. change (0 + 1 =? 0) with false. cbn [andb].
    rewrite (parse_skip 1). 2: { pose proof (print_ranges_ne l OPEN Hl ltac:(tauto)) as Ho. pose proof (print_ranges_ne l CLOSE Hl ltac:(tauto)) as Hc.
      apply Forall_forall. intros d Hd. split; [by apply (proj1 (Forall_forall _ _) Ho)|]. split; [by apply (proj1 (Forall_forall _ _) Hc)|lia]. }
    cbn [parse_hosts]. change (Ascii.eqb CLOSE OPEN) with false. change (Ascii.eqb CLOSE CLOSE) with true. cbn [andb]. change (1 - 1) with 0. change ((0 =? 0) && (Ascii.eqb CLOSE COMMA || is_nul CLOSE)) with false. cbv iota.
    rewrite IH by done. f_equal. rewrite <- !app_assoc. done.
Qed.

(** The end of a name. *)
Lemma parse_end e c rest hl : Forall part_ok e → hlist_ok hl → c = COMMA ∨ c = NUL →
  ∃ hl', parse_hosts (print_expr e ++ c :: rest) [] 0 hl = parse_hosts rest [] 0 hl' ∧ added hl (expansion e) hl'.
Proof.
  intros He Hok Hc. rewrite parse_expr by done. cbn [app parse_hosts]. assert (Ascii.eqb c OPEN = false) as -> by (by destruct Hc as [-> | ->]).
  assert (Ascii.eqb c CLOSE = false) as -> by (by destruct Hc as [-> | ->]). assert (Ascii.eqb c COMMA || is_nul c = true) as -> by (by destruct Hc as [-> | ->]). cbn [Z.eqb andb].
  rewrite brackets_depth by done. destruct (expand_one e (S (depth e)) [] hl He) as (hl' & E & H); [constructor|done|lia|]. cbn [app] in E. rewrite E. change (0 =? -1) with false. cbv iota.
  exists hl'. split; [done|]. assert (app [] <$> expansion e = expansion e) as Hid by (rewrite <- (list_fmap_id (expansion e)) at 2; by apply list_fmap_ext). by rewrite Hid in H.
Qed.

Lemma parse_list es : ∀ hl, es ≠ [] → Forall (Forall part_ok) es → hlist_ok hl →
  ∃ hl', parse_hosts (print_list es ++ [NUL]) [] 0 hl = Some (Some hl') ∧ added hl (mjoin (expansion <$> es)) hl'.
Proof.
  induction es as [|e es IH]; intros hl Hne Hes Hok; [done|]. apply Forall_cons in Hes as [He Hes]. destruct es as [|e' es].
  - cbn [print_list]. destruct (parse_end e NUL [] hl He Hok ltac:(by right)) as (hl' & -> & H). exists hl'. split; [done|]. cbn. by rewrite app_nil_r.
  - change (print_list (e :: e' :: es)) with (print_expr e ++ COMMA :: print_list (e' :: es)). rewrite <- app_assoc. cbn [app].
    destruct (parse_end e COMMA (print_list (e' :: es) ++ [NUL]) hl He Hok ltac:(by left)) as (hl1 & -> & H1). destruct (IH hl1) as (hl' & E & H2); [done|done|by destruct H1|].
    exists hl'. split; [done|]. by eapply added_trans.
Qed.

Lemma expansion_ne e : Forall part_ok e → expansion e ≠ [].
Proof.
  induction 1 as [|[u|l] e Hp He IH]; cbn; [done| |].
  - by destruct (expansion e).
  - destruct Hp as [Hne Hl]. destruct l as [|[a b] l]; [done|]. apply Forall_cons in Hl as [[Ha Hb] _]. cbn [fmap list_fmap mjoin list_join numbers fst snd] in *.
    rewrite bind_app. rewrite seqZ_cons by (destruct b; cbn; unfold id; lia). rewrite bind_cons. by destruct (expansion e).
Qed.

(** C27: a list of hosts in the short form of SLURM is expanded to the hosts that it stands for, in its order: names with
    any number of brackets, each with single numbers and ranges of numbers without leading zeros, separated by commas.
    The array of the hosts and the buffers for the names are large enough, whatever number of hosts was announced. *)
Theorem host_list_expanded num_hosts es : 0 <= num_hosts → es ≠ [] → Forall (Forall part_ok) es →
  getHostsParse num_hosts (print_list es) = Some (Some (mjoin (expansion <$> es))).
Proof.
  intros Hn Hne Hes. unfold getHostsParse. destruct (parse_list es (mk_hlist None num_hosts) Hne Hes Hn) as (hl' & E & (_ & H & Hs & _)). rewrite E. cbn [mbind option_bind]. f_equal.
  assert (mjoin (expansion <$> es) ≠ []) as Hj. { destruct es as [|e es]; [done|]. apply Forall_cons in Hes as [He _]. cbn. intros Hn'. apply app_eq_nil in Hn' as [Hn' _]. by apply (expansion_ne e). }
  destruct (Hs Hj) as [hs Eh]. unfold names in H. rewrite Eh in H. cbn in H. by rewrite Eh, H.
Qed.

Definition demo_hosts : list (list part) := [[Text (lit "r"); Ranges [(1, Some 2)]; Text (lit "n"); Ranges [(0, None); (9, Some 11)]]; [Text (lit "login")]].

Lemma host_list_expanded_witness : print_list demo_hosts = lit "r[1-2]n[0,9-11],login" ∧
  getHostsParse 9 (lit "r[1-2]n[0,9-11],login") =
    Some (Some (lit <$> ["r1n0"; "r1n9"; "r1n10"; "r1n11"; "r2n0"; "r2n9"; "r2n10"; "r2n11"; "login"]%string)).
Proof.
  split; [by vm_compute|]. refine (eq_trans (host_list_expanded 9 demo_hosts _ _ _) _); [lia|done| |by vm_compute].
  repeat (apply Forall_cons_2 || apply Forall_nil_2 || split || cbn; try lia; try done).
Defined.

(** Leading zeros of the numbers are lost. *)
Lemma zeros_lost : getHostsParse 2 (lit "node[01-02]") = Some (Some [lit "node1"; lit "node2"]).
Proof. by vm_compute. Qed.

(** With fewer names than were announced the search for the host of the front end runs behind the end of the list. *)
Lemma short_list_overrun : getHostsParse 3 (lit "n[1-2]") = Some (Some [lit "n1"; lit "n2"]) ∧ isFEHost (Some (lit "n1")) [lit "n1"; lit "n2"] 3 = None.
Proof. by vm_compute. Qed.

(** Lines with one host each. *)
Lemma scontrol_hosts hs : Forall (λ h, h ≠ [] ∧ Forall (λ c, host_char c = true) h) hs →
  getHostsScontrol (Z.of_nat (length hs)) ((λ h, h ++ [byte_of 10]) <$> hs) = Some hs.
Proof.
  intros Hh. unfold getHostsScontrol. assert (∀ acc n, n = Z.of_nat (length acc + length hs) → scontrol_lines n ((λ h, h ++ [byte_of 10]) <$> hs) acc = Some (acc ++ hs)) as H.
  { induction Hh as [|h hs [Hne Hc] _ IH]; intros acc n ->; cbn [fmap list_fmap scontrol_lines].
    - rewrite Nat.add_0_r, Z.eqb_refl, app_nil_r. done.
    - assert (cut_host (h ++ [byte_of 10]) = h) as ->. { clear -Hc. induction Hc as [|c h Hc _ IH]; [done|]. cbn. by rewrite Hc, IH. }
      destruct h as [|c h]; [done|]. rewrite (proj2 (Z.leb_gt _ _)) by (cbn; lia). rewrite IH; [by rewrite <- app_assoc|]. rewrite length_app. cbn [length]. lia. }
  by rewrite H.
Qed.

End SlurmHosts.
