(* ===== verification/SlurmLaunch.v ===== *)
(** * Launching servers from the SLURM plugin

    [slurm_plugin.c], and [isBEProc], [readSpankEnv], [push_env] and [pop_env] of [plugin_utils.c]: SLURM calls the plugin in every
    task of a job step, and in a prolog and an epilog on every node.  The calls decide among themselves which of
    them starts the server of a node and which one starts the front end: a task that creates a file of a certain name is
    the leader of its node, and the front end runs on the host with the greatest name.

    A task sees its own environment and what SLURM tells it; the files, and what was launched, are shared.  The
    library [SlurmArgs] has the options, [SlurmHosts] the lists of hosts.  A build without [SCONTROL_BIN] and [SINFO_BIN]
    is modelled.  Parsing of the options by the front end, and the launching itself, are parameters. *)

From Stdlib Require Import Ascii String ZArith Lia.
From stdpp Require Import strings numbers gmap list sets.
From S2P Require Import Prelude Bytes Parseloc SlurmArgs SlurmHosts.
Import Parseloc SlurmArgs SlurmHosts.

Module SlurmLaunch.

(** ** What a task sees *)

Inductive spank_context_t := S_CTX_ERROR | S_CTX_LOCAL | S_CTX_REMOTE | S_CTX_ALLOCATOR | S_CTX_SLURMD | S_CTX_JOB_SCRIPT.
Global Instance spank_context_eq_dec : EqDecision spank_context_t.
Proof. solve_decision. Defined.

(** The result of [spank_getenv] with a buffer that is large enough. *)
Inductive spank_env := ESPANK_SUCCESS (v : bytes) | ESPANK_ENV_NOEXIST | ESPANK_NOT_REMOTE | ESPANK_BAD_ARG | ESPANK_ERROR.

Abbreviation env := (gmap bytes bytes).

Record task := mk_task {
  context : spank_context_t;
  is_root : bool;
  spank_getenv : bytes → spank_env;
  item_jobid : option Z;
  item_stepid : option Z;
  item_nnodes : option Z;
  option_getopt : option (option bytes);
  item_uid : option Z;
  hostname : bytes;
}.

(** The static variables of the plugin, and the environment of the process. *)
Record plugin := mk_plugin {
  environ : env;
  enable_spindle : bool;
  start_session : bool;
  user_options : option bytes;
  session_options : option bytes;
  applied : bool;
  prolog_alloc_mode : bool;
  initialized : bool;
  pidBE : bool;
}.
Definition with_env (e : env) (st : plugin) : plugin :=
  mk_plugin e (enable_spindle st) (start_session st) (user_options st) (session_options st) (applied st) (prolog_alloc_mode st) (initialized st) (pidBE st).

Definition getenv (st : plugin) (name : string) : option bytes := environ st !! lit name.

Definition readSpankEnv (t : task) (st : plugin) (envname : string) : option bytes :=
  if decide (context t = S_CTX_JOB_SCRIPT) then getenv st envname
  else match spank_getenv t (lit envname) with
       | ESPANK_SUCCESS v => Some v
       | ESPANK_ENV_NOEXIST | ESPANK_NOT_REMOTE | ESPANK_BAD_ARG => getenv st envname
       | ESPANK_ERROR => None
       end.

(** ** Sessions *)

Definition should_use_session (t : task) (st : plugin) : bool :=
  match context t with
  | S_CTX_LOCAL => start_session st || bool_decide (is_Some (getenv st "SPANK_SPINDLE_USE_SESSION"))
  | S_CTX_REMOTE => bool_decide (is_Some (readSpankEnv t st "SPANK_SPINDLE_USE_SESSION"))
  | S_CTX_JOB_SCRIPT => bool_decide (is_Some (getenv st "SPANK_SPINDLE_USE_SESSION")) || bool_decide (is_Some (option_getopt t))
  | S_CTX_ALLOCATOR => start_session st
  | _ => false
  end.

Definition filter_session_optval (val : option bytes) : option bytes :=
  match val with
  | None | Some [] => None
  | Some v => if bool_decide (v = lit "(null)") then None else Some v
  end.

Definition get_session_options (t : task) (st : plugin) : option bytes :=
  match context t with
  | S_CTX_LOCAL | S_CTX_ALLOCATOR => filter_session_optval (match session_options st with Some o => Some o | None => getenv st "SPANK_SPINDLE_SESSION_OPTS" end)
  | S_CTX_REMOTE => filter_session_optval (readSpankEnv t st "SPANK_SPINDLE_SESSION_OPTS")
  | S_CTX_JOB_SCRIPT =>
      filter_session_optval (match getenv st "SPANK_SPINDLE_SESSION_OPTS" with Some v => Some v | None => o ← option_getopt t; o end)
  | _ => None
  end.

Definition with_options (o : option bytes) (st : plugin) : plugin :=
  mk_plugin (environ st) (enable_spindle st) (start_session st) o (session_options st) (applied st) (prolog_alloc_mode st) (initialized st) (pidBE st).
Definition with_applied (st : plugin) : plugin :=
  mk_plugin (environ st) (enable_spindle st) (start_session st) (user_options st) (session_options st) true (prolog_alloc_mode st) (initialized st) (pidBE st).
Definition with_enable (b : bool) (st : plugin) : plugin :=
  mk_plugin (environ st) b (start_session st) (user_options st) (session_options st) (applied st) (prolog_alloc_mode st) (initialized st) (pidBE st).
Definition with_initialized (st : plugin) : plugin :=
  mk_plugin (environ st) (enable_spindle st) (start_session st) (user_options st) (session_options st) (applied st) (prolog_alloc_mode st) true (pidBE st).
Definition with_pidBE (st : plugin) : plugin :=
  mk_plugin (environ st) (enable_spindle st) (start_session st) (user_options st) (session_options st) (applied st) (prolog_alloc_mode st) (initialized st) true.

Definition apply_session_options (t : task) (st : plugin) : plugin :=
  if applied st then st
  else
    let st := with_applied st in
    match get_session_options t st with
    | None => st
    | Some opts =>
        match filter_session_optval (user_options st) with
        | None => with_options (Some opts) st
        | Some step_opts => with_options (Some (opts ++ SPACE :: step_opts)) st
        end
    end.

(** ** Identities *)

(** [atol], converted to 32 bits. *)
Definition atol_u (s : bytes) : Z := match scan_number s with Some (neg, v, _) => wrap32 (if neg : bool then Z.max (- v) (- 2 ^ 63) else Z.min v (2 ^ 63 - 1)) | None => 0 end.

Definition get_stepid (t : task) (st : plugin) : option Z :=
  match (if decide (context t = S_CTX_JOB_SCRIPT) then getenv st "SLURM_STEP_ID" else None) with
  | Some s => Some (atol_u s)
  | None => item_stepid t
  end.

Definition get_jobid (t : task) (st : plugin) : option Z :=
  match getenv st "SLURM_JOB_ID" with Some s => Some (atol_u s) | None => item_jobid t end.

(** 0 is an error. *)
Definition getUniqueID (t : task) (st : plugin) (session_enabled : bool) : Z :=
  match get_jobid t st with
  | None => 0
  | Some jobid =>
      if session_enabled then jobid
      else match get_stepid t st with
           | None => 0
           | Some stepid => Z.lor (Z.shiftl stepid 32) jobid
           end
  end.

(** ** Options *)

Definition OPT_PERSIST : Z := 2 ^ 18.
Definition OPT_SESSION : Z := 2 ^ 22.
Definition OPT_BEEXIT : Z := 2 ^ 25.
Definition OPT_RSHLAUNCH : Z := 2 ^ 27.
Definition OPT_OFF : Z := 2 ^ 30.
Definition has_opt (opts o : Z) : bool := negb (Z.land opts o =? 0).

Record spindle_args_t := mk_args {
  opts : Z;
  number : Z;
  commpath : bytes;
}.

(** *** The world *)

Inductive event := LaunchBE (host : bytes) | LaunchFE (host : bytes) (hosts : list bytes) | ExitBE (host : bytes) | SignalEnd (host : bytes).

Record world := mk_world {
  files : gset bytes;
  events : list event;
}.
Definition emit (e : event) (w : world) : world := mk_world (files w) (events w ++ [e]).

Section launch.
  (** What [fillInSpindleArgsCmdlineFE] makes of the arguments: the options and the candidates for [commpath]. *)
  Context (fill_args : list bytes → option (Z * bytes)).
  (** [validateCandidatePath] in a process with the environment. *)
  Context (validate : env → Z → bytes → option (bytes * bytes)).
  (** Whether a file can be created, and whether the application can be prepared. *)
  Context (can_create : bytes → bool) (prepApp : task → bool).
  (** Whether [spindleExitBE] succeeds, and whether a child process can be made that has no privileges. *)
  Context (spindleExitBE : task → bool) (drop_privileges : task → bool).

Fixpoint first_valid (e : env) (number : Z) (l : list bytes) : option bytes :=
  match l with [] => None | c :: l' => match validate e number c with Some (r, _) => Some r | None => first_valid e number l' end end.
Definition getFirstValidPath (e : env) (origPathList : bytes) (number : Z) : option bytes :=
  first_valid e number (split_prefixes (S (length origPathList)) origPathList).

Definition fillInArgs (st : plugin) (argv : list bytes) (unique_id : Z) (session_enabled : bool) : option spindle_args_t :=
  '(o, commpaths) ← fill_args argv;
  let o := if session_enabled then Z.lor (Z.lor o OPT_PERSIST) OPT_SESSION
           else if has_opt o OPT_RSHLAUNCH then Z.lor o OPT_PERSIST
           else Z.lor o OPT_BEEXIT in
  p ← getFirstValidPath (environ st) commpaths unique_id;
  Some (mk_args o unique_id p).

Definition process_spindle_args (t : task) (st : plugin) (site_argv : list bytes) (session_enabled : bool) : option (plugin * option spindle_args_t) :=
  let unique_id := getUniqueID t st session_enabled in
  if unique_id =? 0 then Some (st, None)
  else
    let st := with_options (Some (default [] (user_options st))) st in
    argv ← combined_args site_argv (user_options st);
    match fillInArgs st argv unique_id session_enabled with
    | None => Some (with_enable false st, None)
    | Some a => Some (with_enable true st, Some a)
    end.

(** ** Hosts *)

Definition atoi (s : bytes) : Z := default 0 (scan_int s).
Definition positive_env (t : task) (st : plugin) (name : string) : option Z :=
  s ← readSpankEnv t st name; if 0 <? atoi s then Some (atoi s) else None.

Definition get_num_hosts_job (t : task) (st : plugin) : Z :=
  match positive_env t st "SLURM_JOB_NUM_NODES" with
  | Some n => n
  | None => match positive_env t st "SLURM_NNODES" with Some n => n | None => default (-1) (item_nnodes t) end
  end.
Definition get_num_hosts_step (t : task) (st : plugin) : Z := default (-1) (positive_env t st "SLURM_STEP_NUM_NODES").
Definition get_num_hosts (t : task) (st : plugin) : Z :=
  let result := get_num_hosts_step t st in if result =? -1 then get_num_hosts_job t st else result.

Definition get_hostlist_job (t : task) (st : plugin) (num_hosts : Z) : option (option (list bytes)) :=
  match readSpankEnv t st "SPINDLE_JOB_NODELIST" with
  | Some s => getHostsParse num_hosts s
  | None =>
      match readSpankEnv t st "SLURM_JOB_NODELIST" with
      | Some s => getHostsParse num_hosts s
      | None => match readSpankEnv t st "SLURM_NODELIST" with Some s => getHostsParse num_hosts s | None => Some None end
      end
  end.
Definition get_hostlist_step (t : task) (st : plugin) (num_hosts : Z) : option (option (list bytes)) :=
  match readSpankEnv t st "SLURM_STEP_NODELIST" with Some s => getHostsParse num_hosts s | None => Some None end.
Definition get_hostlist (t : task) (st : plugin) (num_hosts : Z) : option (option (list bytes)) :=
  r ← get_hostlist_step t st num_hosts;
  match r with Some l => Some (Some l) | None => get_hostlist_job t st num_hosts end.

(** ** Leaders *)

Definition DOT : ascii := ".".
Definition unique_file (args : spindle_args_t) (exit_phase : bool) (host : bytes) : bytes :=
  commpath args ++ lit "/spindle_unique" ++ DOT :: lit (if exit_phase then "exit" else "launch") ++ DOT :: host ++ DOT :: dec (number args).

(** 1: the file was created, 0: it was there, -1: an error. *)
Definition isBEProc (t : task) (args : spindle_args_t) (exit_phase : bool) (w : world) : world * Z :=
  let name := unique_file args exit_phase (take 255 (hostname t)) in
  if decide (name ∈ files w) then (w, 0)
  else if can_create name then (mk_world ({[name]} ∪ files w) (events w), 1)
  else (w, -1).

(** ** Launching *)

Definition launchBE (t : task) (st : plugin) (w : world) : plugin * world :=
  if pidBE st then (st, w) else (with_pidBE st, emit (LaunchBE (hostname t)) w).

(** [None] when the program crashes or does not end. *)
Definition launch_spindle (t : task) (st : plugin) (args : spindle_args_t) (w : world) : option (plugin * world * Z) :=
  let num_hosts := get_num_hosts t st in
  if num_hosts =? -1 then Some (st, w, -1)
  else
    r ← get_hostlist t st num_hosts;
    match r with
    | None => Some (st, w, -1)
    | Some hostlist =>
        let '(w, is_be_leader) := isBEProc t args false w in
        if is_be_leader =? -1 then Some (st, w, -1)
        else
          is_fe_host ← isFEHost (Some (hostname t)) hostlist num_hosts;
          if is_fe_host =? -1 then Some (st, w, -1)
          else
            let '(st, w) := if (is_be_leader =? 1) && negb (has_opt (opts args) OPT_RSHLAUNCH) then launchBE t st w else (st, w) in
            if (is_fe_host =? 1) && (is_be_leader =? 1) then
              if has_opt (opts args) OPT_RSHLAUNCH && has_opt (opts args) OPT_SESSION then
                let num_hosts_job := get_num_hosts_job t st in
                if num_hosts_job =? -1 then Some (st, w, -1)
                else
                  r ← get_hostlist_job t st num_hosts_job;
                  match r with
                  | None => Some (st, w, -1)
                  | Some hostlist_job => Some (st, emit (LaunchFE (hostname t) hostlist_job) w, 0)
                  end
              else Some (st, emit (LaunchFE (hostname t) hostlist) w, 0)
            else Some (st, w, 0)
    end.

Definition handleStart (t : task) (st : plugin) (site_argv : list bytes) (w : world) : option (plugin * world * Z) :=
  let use_session := should_use_session t st in
  let st := if use_session then apply_session_options t st else st in
  '(st, a) ← process_spindle_args t st site_argv use_session;
  match a with
  | None => Some (st, w, -1)
  | Some args =>
      if has_opt (opts args) OPT_OFF then Some (st, w, 0)
      else if use_session && has_opt (opts args) OPT_RSHLAUNCH && negb (bool_decide (context t = S_CTX_JOB_SCRIPT)) then
        match get_stepid t st with
        | None => Some (st, w, -1)
        | Some stepid => if negb (stepid =? 0) then Some (st, w, 0) else launch_spindle t st args w
        end
      else launch_spindle t st args w
  end.

(** ** Environments *)

Definition saved_env_t : Type := list (bytes * option bytes * option bytes).
Definition SAVED : list string := ["HOME"; "PATH"; "PWD"; "TMPDIR"; "SPINDLE_DEBUG"]%string.

(** The new and the old value of each variable; the new ones are set. *)
Definition push_env (t : task) (st : plugin) : plugin * saved_env_t :=
  let saved := (λ v, (lit v, readSpankEnv t st v, getenv st v)) <$> SAVED in
  (with_env (foldl (λ e '(k, new, old), match new with Some v => <[k := v]> e | None => e end) (environ st) saved) st, saved).

Definition pop_env (st : plugin) (saved : saved_env_t) : plugin :=
  with_env (foldl (λ e '(k, new, old), match old with Some v => <[k := v]> e | None => delete k e end) (environ st) saved) st.

Definition forward_environment_to_slurmstepd (t : task) (st : plugin) : plugin :=
  with_env (foldl (λ e v, match readSpankEnv t st v with Some x => <[lit v := x]> e | None => e end) (environ st) ["SPINDLE_DEBUG"; "SPINDLE_TEST"; "TMPDIR"]%string) st.

(** ** The callbacks *)

Definition slurm_spank_task_init (t : task) (st : plugin) (site_argv : list bytes) (w : world) : option (plugin * world * Z) :=
  if negb (enable_spindle st) then Some (st, w, 0)
  else if is_root t then Some (st, w, 0)
  else match context t with
  | S_CTX_ERROR => Some (st, w, -1)
  | S_CTX_REMOTE =>
      if initialized st then Some (st, w, 0)
      else
        let st := forward_environment_to_slurmstepd t st in
        let '(st, saved) := push_env t st in
        let use_session := should_use_session t st in
        let st := if use_session then apply_session_options t st else st in
        '(st, a) ← process_spindle_args t st site_argv use_session;
        match a with
        | None => Some (with_initialized (pop_env st saved), w, -1)
        | Some params =>
            if has_opt (opts params) OPT_OFF then Some (pop_env st saved, w, 0)
            else
              '(st, w, result) ← (if negb use_session || (has_opt (opts params) OPT_RSHLAUNCH && negb (prolog_alloc_mode st))
                                  then handleStart t st site_argv w else Some (st, w, 0));
              let result := if result =? -1 then -1 else if prepApp t then 0 else -1 in
              Some (with_initialized (pop_env st saved), w, result)
        end
  | _ => Some (st, w, 0)
  end.

Definition handleExit (t : task) (st : plugin) (site_argv : list bytes) (w : world) : option (plugin * world * Z) :=
  let use_session := should_use_session t st in
  let st := if use_session then apply_session_options t st else st in
  '(st, a) ← process_spindle_args t st site_argv use_session;
  match a with
  | None => Some (st, w, -1)
  | Some args =>
      if has_opt (opts args) OPT_OFF then Some (st, w, 0)
      else
        let '(w, is_be_leader) := isBEProc t args true w in
        if is_be_leader =? -1 then Some (st, w, -1)
        else if is_be_leader =? 1 then
          if use_session || has_opt (opts args) OPT_RSHLAUNCH then Some (st, emit (SignalEnd (hostname t)) w, 0)
          else Some (st, emit (ExitBE (hostname t)) w, if spindleExitBE t then 0 else -1)
        else Some (st, w, 0)
  end.

(** The function runs in a child process, so that the variables of the plugin stay as they are. *)
Definition dropPrivilegeAndRun (func : plugin → world → option (plugin * world * Z)) (t : task) (st : plugin) (w : world) : option (world * Z) :=
  if drop_privileges t then '(_, w, result) ← func st w; Some (w, if result =? 0 then 0 else -1)
  else Some (w, -1).

Definition slurm_spank_task_exit (t : task) (st : plugin) (site_argv : list bytes) (w : world) : option (plugin * world * Z) :=
  if negb (enable_spindle st) then Some (st, w, 0)
  else match context t with
  | S_CTX_ERROR => Some (st, w, -1)
  | S_CTX_REMOTE =>
      if should_use_session t st then Some (st, w, 0)
      else match item_uid t with
           | None => Some (st, w, -1)
           | Some _ =>
               let '(st, saved) := push_env t st in
               '(w, result) ← dropPrivilegeAndRun (λ st w, handleExit t st site_argv w) t st w;
               Some (pop_env st saved, w, if result =? -1 then -1 else 0)
           end
  | _ => Some (st, w, 0)
  end.

Definition handle_forwarded_environment (st : plugin) : plugin :=
  with_env (foldl (λ e '(from, to), match environ st !! lit from with Some v => <[lit to := v]> e | None => e end) (environ st)
    [("SPANK_SPINDLE_DEBUG", "SPINDLE_DEBUG"); ("SPANK_SPINDLE_TEST", "SPINDLE_TEST"); ("SPANK_TMPDIR", "TMPDIR"); ("SPANK_SPINDLE_JOB_NODELIST", "SPINDLE_JOB_NODELIST")]%string) st.

Definition slurm_spank_job_prolog (t : task) (st : plugin) (site_argv : list bytes) (w : world) : option (plugin * world * Z) :=
  let st := handle_forwarded_environment st in
  if negb (should_use_session t st) then Some (st, w, 0)
  else if negb (prolog_alloc_mode st) && bool_decide (getenv st "SPANK_SPINDLE_RSHLAUNCH" = Some (lit "1")) then Some (st, w, 0)
  else match item_uid t with
       | None => Some (st, w, -1)
       | Some _ => '(w, result) ← dropPrivilegeAndRun (λ st w, handleStart t st site_argv w) t st w; Some (st, w, if result =? -1 then -1 else 0)
       end.

Definition slurm_spank_job_epilog (t : task) (st : plugin) (site_argv : list bytes) (w : world) : option (plugin * world * Z) :=
  let st := handle_forwarded_environment st in
  if negb (should_use_session t st) then Some (st, w, 0)
  else match item_uid t with
       | None => Some (st, w, -1)
       | Some _ => '(w, result) ← dropPrivilegeAndRun (λ st w, handleExit t st site_argv w) t st w; Some (st, w, if result =? -1 then -1 else 0)
       end.

(** The environment is put back. *)
Lemma env_restored t st : environ (pop_env (push_env t st).1 (push_env t st).2) = environ st.
Proof.
  unfold pop_env, push_env. cbn [environ with_env fst snd]. assert (∀ (l : list (bytes * option bytes * option bytes)) (e e0 : env), NoDup (l.*1.*1) → (∀ x, x ∈ l → x.2 = e !! x.1.1) →
    (∀ k, k ∉ l.*1.*1 → e0 !! k = e !! k) → foldl (λ e '(k, _, old), match old with Some v => <[k := v]> e | None => delete k e end) e0 l = e) as Hpop.
  { induction l as [|[[k new] old] l IH]; intros e e0 Hnd Ho He; cbn [foldl].
    - apply map_eq. intros k. apply He. by apply not_elem_of_nil.
    - cbn [fmap list_fmap fst] in Hnd. apply NoDup_cons in Hnd as [Hk Hnd]. apply IH; [done|intros x Hx; apply Ho; by right|]. intros k' Hk'.
      pose proof (Ho (k, new, old) ltac:(by left)) as Hold. cbn in Hold. destruct (decide (k' = k)) as [->|Hne].
      + destruct old; rewrite ?lookup_insert_eq, ?lookup_delete_eq; done.
      + assert (e0 !! k' = e !! k') as E by (apply He; cbn [fmap list_fmap fst]; by rewrite elem_of_cons; intros [?|?]). destruct old; rewrite ?lookup_insert_ne, ?lookup_delete_ne by done; done. }
  apply Hpop.
  - cbn. apply (bool_decide_unpack _). vm_compute. exact I.
  - intros x Hx. apply list_elem_of_fmap in Hx as (v & -> & _). done.
  - assert (∀ (l : list (bytes * option bytes * option bytes)) (e : env) k, k ∉ l.*1.*1 → foldl (λ e '(k, new, _), match new with Some v => <[k := v]> e | None => e end) e l !! k = e !! k) as Hpush.
    { induction l as [|[[k0 new] old] l IH]; intros e k Hk; cbn [foldl]; [done|]. cbn [fmap list_fmap fst] in Hk. apply not_elem_of_cons in Hk as [Hne Hk]. rewrite IH by done. destruct new; [|done]. by rewrite lookup_insert_ne. }
    intros k Hk. by apply Hpush.
Qed.

(** ** A job *)

(** The callbacks that SLURM makes for the tasks of a step and for the nodes of a job, in the order in which they reach the files. *)
Inductive call := TaskInit | TaskExit | JobProlog | JobEpilog.
Definition perform (c : call) (t : task) (st : plugin) (site_argv : list bytes) (w : world) : option (world * Z) :=
  '(_, w, result) ← match c with
                    | TaskInit => slurm_spank_task_init t st site_argv w
                    | TaskExit => slurm_spank_task_exit t st site_argv w
                    | JobProlog => slurm_spank_job_prolog t st site_argv w
                    | JobEpilog => slurm_spank_job_epilog t st site_argv w
                    end;
  Some (w, result).
Fixpoint run (site_argv : list bytes) (l : list (call * task * plugin)) (w : world) : option (world * list Z) :=
  match l with
  | [] => Some (w, [])
  | (c, t, st) :: l' => '(w, r) ← perform c t st site_argv w; '(w, rs) ← run site_argv l' w; Some (w, r :: rs)
  end.

(** The state in which a callback looks at its options. *)
Definition entered (c : call) (t : task) (st : plugin) : plugin :=
  match c with
  | TaskInit => fst (push_env t (forward_environment_to_slurmstepd t st))
  | TaskExit => fst (push_env t st)
  | JobProlog | JobEpilog => handle_forwarded_environment st
  end.
Definition view (c : call) (t : task) (st : plugin) : plugin :=
  let st := entered c t st in if should_use_session t st then apply_session_options t st else st.

(** A call that starts servers, and one that ends them, in a job with or without a session. *)
Definition starts (session : bool) (c : call) : bool := match c, session with TaskInit, false | JobProlog, true => true | _, _ => false end.
Definition ends (session : bool) (c : call) : bool := match c, session with TaskExit, false | JobEpilog, true => true | _, _ => false end.

Section job.
  Context (site_argv : list bytes) (session : bool) (args : spindle_args_t) (es : list (list part)).
  Abbreviation hosts_of_job := (mjoin (expansion <$> es)).

(** What a callback of the job sees: it is called in the right context, by a user, with the options and hosts of the job. *)
Record ready (c : call) (t : task) (st : plugin) : Prop := mk_ready {
  r_context : context t = match c with TaskInit | TaskExit => S_CTX_REMOTE | _ => S_CTX_JOB_SCRIPT end;
  r_user : is_root t = false ∧ is_Some (item_uid t) ∧ drop_privileges t = true;
  r_plugin : enable_spindle st = true ∧ initialized st = false ∧ pidBE st = false;
  r_rsh : getenv (handle_forwarded_environment st) "SPANK_SPINDLE_RSHLAUNCH" = None;
  r_session : should_use_session t st = session ∧ should_use_session t (view c t st) = session;
  r_id : getUniqueID t (view c t st) session = number args;
  r_args : ∃ argv, combined_args site_argv (Some (default [] (user_options (view c t st)))) = Some argv ∧ fillInArgs (view c t st) argv (number args) session = Some args;
  r_num : get_num_hosts t (view c t st) = Z.of_nat (length hosts_of_job);
  r_list : readSpankEnv t (view c t st) "SLURM_STEP_NODELIST" = Some (print_list es) ∨
           (readSpankEnv t (view c t st) "SLURM_STEP_NODELIST" = None ∧ readSpankEnv t (view c t st) "SPINDLE_JOB_NODELIST" = Some (print_list es));
  r_name : (length (hostname t) ≤ 255)%nat;
}.

(** The job is named, has options that leave Spindle on, and hosts; files can be created. *)
Record job_ok : Prop := mk_job {
  j_id : number args ≠ 0;
  j_on : has_opt (opts args) OPT_OFF = false;
  j_rsh : has_opt (opts args) OPT_RSHLAUNCH = true → session = false ∧ has_opt (opts args) OPT_SESSION = false;
  j_hosts : es ≠ [] ∧ Forall (Forall part_ok) es;
  j_local : lit "localhost" ∉ hosts_of_job;
  j_files : ∀ f, can_create f = true;
  j_exit : ∀ t, spindleExitBE t = true;
}.

Definition last_host : bytes := match last_of hosts_of_job (length hosts_of_job) None with Some (Some m) => m | _ => [] end.
Definition on_fe (t : task) : bool := bool_decide (short_name (hostname t) = short_name last_host).
Definition rsh : bool := has_opt (opts args) OPT_RSHLAUNCH.

(** What a call that starts, or one that ends, does to the files and to the list of events. *)
Definition start_world (t : task) (w : world) : world :=
  let name := unique_file args false (hostname t) in
  if decide (name ∈ files w) then w
  else mk_world ({[name]} ∪ files w) (events w ++ (if rsh then [] else [LaunchBE (hostname t)]) ++ (if on_fe t then [LaunchFE (hostname t) hosts_of_job] else [])).
Definition end_world (t : task) (w : world) : world :=
  let name := unique_file args true (hostname t) in
  if decide (name ∈ files w) then w
  else mk_world ({[name]} ∪ files w) (events w ++ [if session || rsh then SignalEnd (hostname t) else ExitBE (hostname t)]).

Lemma last_of_spec hs : ∀ l, ∃ m, last_of hs (length hs) (Some l) = Some (Some m) ∧ (m = l ∨ m ∈ hs).
Proof.
  induction hs as [|h hs IH]; intros l; cbn [length last_of]; [by exists l; auto|]. destruct (strcmp_gt h l).
  - destruct (IH h) as (m & E & H). exists m. split; [done|]. right. destruct H as [-> |H]; [by left|by right].
  - destruct (IH l) as (m & E & H). exists m. split; [done|]. destruct H as [-> |H]; [by left|by right; right].
Qed.

Lemma hosts_ne : job_ok → hosts_of_job ≠ [].
Proof.
  intros Hj. destruct (j_hosts Hj) as [Hne Hes]. destruct es as [|e es']; [done|]. apply Forall_cons in Hes as [He _]. cbn. intros Hn. apply app_eq_nil in Hn as [Hn _]. by apply (expansion_ne e He).
Qed.

Lemma fe_host t : job_ok → (length (hostname t) ≤ 255)%nat → isFEHost (Some (hostname t)) hosts_of_job (Z.of_nat (length hosts_of_job)) = Some (if on_fe t then 1 else 0).
Proof.
  intros Hj Hl. pose proof (hosts_ne Hj) as Hne. unfold isFEHost, on_fe, last_host. rewrite Nat2Z.id. destruct hosts_of_job as [|h hs] eqn:E; [done|]. cbn [length last_of].
  destruct (last_of_spec hs h) as (m & -> & Hm). cbn [mbind option_bind]. rewrite bool_decide_eq_false_2.
  - rewrite take_ge by done. by destruct (bool_decide _).
  - intros ->. apply (j_local Hj). rewrite E. destruct Hm as [-> |Hm]; [by left|by right].
Qed.

Lemma hostlist_seen c t st : job_ok → ready c t st → get_hostlist t (view c t st) (Z.of_nat (length hosts_of_job)) = Some (Some hosts_of_job).
Proof.
  intros Hj Hr. destruct (j_hosts Hj) as [Hne Hes]. pose proof (host_list_expanded (Z.of_nat (length hosts_of_job)) es ltac:(lia) Hne Hes) as Hp.
  unfold get_hostlist, get_hostlist_step, get_hostlist_job. destruct (r_list _ _ _ Hr) as [-> |[-> ->]]; by rewrite Hp.
Qed.

Lemma process_any c t st st' : job_ok → ready c t st → environ st' = environ (view c t st) → default [] (user_options st') = default [] (user_options (view c t st)) →
  process_spindle_args t st' site_argv session = Some (with_enable true (with_options (Some (default [] (user_options (view c t st)))) st'), Some args).
Proof.
  intros Hj Hr He Hu. unfold process_spindle_args.
  assert (getUniqueID t st' session = number args) as -> by (rewrite <- (r_id _ _ _ Hr); unfold getUniqueID, get_jobid, get_stepid, getenv; by rewrite He).
  rewrite (proj2 (Z.eqb_neq _ _)) by apply Hj. destruct (r_args _ _ _ Hr) as (argv & E1 & E2).
  rewrite Hu. cbn [user_options with_options]. rewrite E1. cbn [mbind option_bind].
  assert (fillInArgs (with_options (Some (default [] (user_options (view c t st)))) st') argv (number args) session = Some args) as ->; [|done].
  rewrite <- E2. unfold fillInArgs. cbn [environ with_options]. by rewrite He.
Qed.

Lemma options_ok c t st : job_ok → ready c t st →
  process_spindle_args t (view c t st) site_argv session = Some (with_enable true (with_options (Some (default [] (user_options (view c t st)))) (view c t st)), Some args).
Proof. intros Hj Hr. by apply process_any. Qed.

Lemma leader t exit_phase w : job_ok → (length (hostname t) ≤ 255)%nat →
  isBEProc t args exit_phase w = if decide (unique_file args exit_phase (hostname t) ∈ files w) then (w, 0) else (mk_world ({[unique_file args exit_phase (hostname t)]} ∪ files w) (events w), 1).
Proof. intros Hj Hl. unfold isBEProc. rewrite take_ge by done. case_decide; [done|]. by rewrite (j_files Hj). Qed.

(** [st'] differs from the state in which the options were looked at in its options only. *)
Lemma launch_ok c t st st' w : job_ok → ready c t st → environ st' = environ (view c t st) → pidBE st' = false →
  ∃ st'', launch_spindle t st' args w = Some (st'', start_world t w, 0).
Proof.
  intros Hj Hr He Hp. unfold launch_spindle.
  assert (get_num_hosts t st' = get_num_hosts t (view c t st)) as -> by (unfold get_num_hosts, get_num_hosts_step, get_num_hosts_job, positive_env, readSpankEnv, getenv; by rewrite He).
  assert (∀ n, get_hostlist t st' n = get_hostlist t (view c t st) n) as Hh by (intros n; unfold get_hostlist, get_hostlist_step, get_hostlist_job, readSpankEnv, getenv; by rewrite He).
  rewrite (r_num _ _ _ Hr), Hh, (hostlist_seen c t st Hj Hr), (proj2 (Z.eqb_neq _ _)) by lia. cbn [mbind option_bind]. rewrite (leader t false w Hj (r_name _ _ _ Hr)). unfold start_world.
  assert (has_opt (opts args) OPT_RSHLAUNCH && has_opt (opts args) OPT_SESSION = false) as Hrs by (destruct (has_opt (opts args) OPT_RSHLAUNCH) eqn:E; [by destruct (j_rsh Hj E)|done]).
  case_decide.
  - rewrite (fe_host t Hj (r_name _ _ _ Hr)). cbn [mbind option_bind]. change (0 =? -1) with false. change (0 =? 1) with false. cbv iota. destruct (on_fe t); cbn [andb]; by eexists.
  - rewrite (fe_host t Hj (r_name _ _ _ Hr)). cbn [mbind option_bind]. change (1 =? -1) with false. change (1 =? 1) with true. cbv iota. unfold rsh in *. rewrite Hrs.
    unfold launchBE. rewrite Hp. destruct (has_opt (opts args) OPT_RSHLAUNCH); destruct (on_fe t); cbn; unfold emit; cbn [files events]; rewrite ?app_nil_r, <- ?app_assoc; by eexists.
Qed.

Lemma apply_session_keeps t st : environ (apply_session_options t st) = environ st ∧ start_session (apply_session_options t st) = start_session st ∧
  pidBE (apply_session_options t st) = pidBE st ∧ prolog_alloc_mode (apply_session_options t st) = prolog_alloc_mode st.
Proof. unfold apply_session_options. destruct (applied st); [done|]. destruct (get_session_options t (with_applied st)); [|done]. by destruct (filter_session_optval _). Qed.

Lemma session_env t st st' : environ st' = environ st → start_session st' = start_session st → should_use_session t st' = should_use_session t st.
Proof. intros He Hs. unfold should_use_session, readSpankEnv, getenv. by rewrite He, Hs. Qed.

Lemma view_keeps c t st : environ (view c t st) = environ (entered c t st) ∧ start_session (view c t st) = start_session (entered c t st) ∧ pidBE (view c t st) = pidBE st.
Proof.
  unfold view. destruct (apply_session_keeps t (entered c t st)) as (H1 & H2 & H3 & _). assert (pidBE (entered c t st) = pidBE st) as Hp by (by destruct c).
  case_match; [|done]. by rewrite H1, H2, H3.
Qed.

Lemma session_entered c t st : ready c t st → should_use_session t (entered c t st) = session.
Proof. intros Hr. destruct (view_keeps c t st) as (H1 & H2 & _). rewrite <- (proj2 (r_session _ _ _ Hr)). symmetry. by apply session_env. Qed.

(** The code between entering the callback and the decisions. *)
Lemma viewed c t st : ready c t st → (if session then apply_session_options t (entered c t st) else entered c t st) = view c t st.
Proof. intros Hr. unfold view. by rewrite (session_entered c t st Hr). Qed.

Abbreviation optioned c t st := (with_enable true (with_options (Some (default [] (user_options (view c t st)))) (view c t st))).

(** *** Calls that start *)

Lemma start_body c t st w : job_ok → ready c t st → ∃ st'', handleStart t (entered c t st) site_argv w = Some (st'', start_world t w, 0).
Proof.
  intros Hj Hr. unfold handleStart. rewrite (session_entered c t st Hr), (viewed c t st Hr), (options_ok c t st Hj Hr). cbn [mbind option_bind]. rewrite (j_on Hj).
  assert (session && has_opt (opts args) OPT_RSHLAUNCH = false) as -> by (destruct (has_opt (opts args) OPT_RSHLAUNCH) eqn:E; [destruct (j_rsh Hj E) as [-> _]; done|apply andb_false_r]).
  cbn [andb]. apply (launch_ok c t st); [done|done|done|]. cbn. destruct (view_keeps c t st) as (_ & _ & ->). apply (r_plugin _ _ _ Hr).
Qed.

Lemma start_again c t st w : job_ok → ready c t st → session = false → ∃ st'', handleStart t (optioned c t st) site_argv w = Some (st'', start_world t w, 0).
Proof.
  intros Hj Hr Hs. unfold handleStart.
  assert (should_use_session t (optioned c t st) = false) as -> by (rewrite <- Hs, <- (proj2 (r_session _ _ _ Hr)); by apply session_env).
  pose proof (process_any c t st (optioned c t st) Hj Hr eq_refl eq_refl) as Hp. rewrite Hs in Hp. rewrite Hp.
  cbn [mbind option_bind]. rewrite (j_on Hj). cbn [andb]. apply (launch_ok c t st); [done|done|done|]. cbn. destruct (view_keeps c t st) as (_ & _ & ->). apply (r_plugin _ _ _ Hr).
Qed.

Definition code_of (c : call) (t : task) : Z := match c with TaskInit => if prepApp t then 0 else -1 | _ => 0 end.

Lemma init_call t st w : job_ok → ready TaskInit t st →
  perform TaskInit t st site_argv w = Some (if session then w else start_world t w, code_of TaskInit t).
Proof.
  intros Hj Hr. unfold perform, slurm_spank_task_init. destruct (r_plugin _ _ _ Hr) as (-> & -> & _). destruct (r_user _ _ _ Hr) as (-> & _). rewrite (r_context _ _ _ Hr). cbn [negb].
  pose proof (viewed TaskInit t st Hr) as Hv. pose proof (session_entered TaskInit t st Hr) as Hs. unfold entered in Hv, Hs. destruct (push_env t (forward_environment_to_slurmstepd t st)) as [st1 saved].
  cbn [fst] in Hv, Hs. rewrite Hs, Hv, (options_ok TaskInit t st Hj Hr). cbn [mbind option_bind]. rewrite (j_on Hj).
  destruct session eqn:Es; cbn [negb orb].
  - assert (has_opt (opts args) OPT_RSHLAUNCH = false) as -> by (destruct (has_opt (opts args) OPT_RSHLAUNCH) eqn:E; [destruct (j_rsh Hj E); congruence|done]). cbn. done.
  - destruct (start_again TaskInit t st w Hj Hr Es) as (st'' & E). rewrite E. cbn. done.
Qed.

Lemma prolog_ok t st w : job_ok → ready JobProlog t st → perform JobProlog t st site_argv w = Some (if session then start_world t w else w, 0).
Proof.
  intros Hj Hr. unfold perform, slurm_spank_job_prolog. pose proof (session_entered JobProlog t st Hr) as Hs. unfold entered in Hs. rewrite Hs. destruct session eqn:Es; [|done]. cbn [negb].
  rewrite (r_rsh _ _ _ Hr), bool_decide_eq_false_2, andb_false_r by done. destruct (r_user _ _ _ Hr) as (_ & [u ->] & Hd). unfold dropPrivilegeAndRun. rewrite Hd.
  destruct (start_body JobProlog t st w Hj Hr) as (st'' & E). unfold entered in E. rewrite E. done.
Qed.

(** *** Calls that end *)

Lemma end_body c t st w : job_ok → ready c t st → ∃ st'', handleExit t (entered c t st) site_argv w = Some (st'', end_world t w, 0).
Proof.
  intros Hj Hr. unfold handleExit. rewrite (session_entered c t st Hr), (viewed c t st Hr), (options_ok c t st Hj Hr). cbn [mbind option_bind]. rewrite (j_on Hj), (leader t true w Hj (r_name _ _ _ Hr)).
  unfold end_world, rsh. case_decide; [by eexists|]. change (1 =? -1) with false. change (1 =? 1) with true. cbv iota. rewrite (j_exit Hj). destruct (session || _); by eexists.
Qed.

Lemma exit_ok t st w : job_ok → ready TaskExit t st → perform TaskExit t st site_argv w = Some (if session then w else end_world t w, 0).
Proof.
  intros Hj Hr. unfold perform, slurm_spank_task_exit. destruct (r_plugin _ _ _ Hr) as (-> & _). rewrite (r_context _ _ _ Hr), (proj1 (r_session _ _ _ Hr)). cbn [negb]. destruct session eqn:Es; [done|].
  destruct (r_user _ _ _ Hr) as (_ & [u ->] & Hd). destruct (end_body TaskExit t st w Hj Hr) as (st'' & E). unfold entered in E. destruct (push_env t st) as [st1 saved]. cbn [fst] in E.
  unfold dropPrivilegeAndRun. rewrite Hd, E. done.
Qed.

Lemma epilog_ok t st w : job_ok → ready JobEpilog t st → perform JobEpilog t st site_argv w = Some (if session then end_world t w else w, 0).
Proof.
  intros Hj Hr. unfold perform, slurm_spank_job_epilog. pose proof (session_entered JobEpilog t st Hr) as Hs. unfold entered in Hs. rewrite Hs. destruct session eqn:Es; [|done]. cbn [negb].
  destruct (r_user _ _ _ Hr) as (_ & [u ->] & Hd). unfold dropPrivilegeAndRun. rewrite Hd. destruct (end_body JobEpilog t st w Hj Hr) as (st'' & E). unfold entered in E. rewrite E. done.
Qed.

Definition effect (c : call) (t : task) (w : world) : world := if starts session c then start_world t w else if ends session c then end_world t w else w.

Lemma perform_ok c t st w : job_ok → ready c t st → perform c t st site_argv w = Some (effect c t w, code_of c t).
Proof.
  intros Hj Hr. unfold effect. destruct c; [rewrite init_call by done|rewrite exit_ok by done|rewrite prolog_ok by done|rewrite epilog_ok by done]; by destruct session.
Qed.

Lemma run_ok l : ∀ w, job_ok → Forall (λ '(c, t, st), ready c t st) l →
  run site_argv l w = Some (foldl (λ w '(c, t, _), effect c t w) w l, (λ '(c, t, _), code_of c t) <$> l).
Proof.
  induction l as [|[[c t] st] l IH]; intros w Hj Hl; [done|]. apply Forall_cons in Hl as [Hr Hl]. cbn [run]. rewrite perform_ok by done. cbn [mbind option_bind]. by rewrite IH.
Qed.

(** *** What was launched *)

Lemma unique_file_inj p p' h h' : unique_file args p h = unique_file args p' h' → p = p' ∧ h = h'.
Proof.
  unfold unique_file. intros H. apply app_inv_head in H. destruct p, p'; try done; cbn in H; (split; [done|]); injection H as H; by apply app_inv_tail in H.
Qed.

Definition nodes (f : call → bool) (l : list (call * task * plugin)) : list bytes := (λ x, hostname x.1.2) <$> filter (λ x, f x.1.1 = true) l.

Lemma nodes_snoc f l c t st : nodes f (l ++ [(c, t, st)]) = nodes f l ++ if f c then [hostname t] else [].
Proof. unfold nodes. rewrite filter_app, fmap_app. f_equal. rewrite filter_cons. cbn [fst]. destruct (f c); [by rewrite decide_True|by rewrite decide_False]. Qed.

Definition is_BE (h : bytes) (e : event) : Prop := e = LaunchBE h.
Definition is_end (h : bytes) (e : event) : Prop := e = if session || rsh then SignalEnd h else ExitBE h.
Definition is_FE (e : event) : Prop := match e with LaunchFE _ _ => True | _ => False end.
Global Instance is_FE_dec e : Decision (is_FE e).
Proof. destruct e; cbn; apply _. Defined.
Global Instance event_eq_dec : EqDecision event.
Proof. solve_decision. Defined.
Global Instance is_BE_dec h e : Decision (is_BE h e).
Proof. unfold is_BE. apply _. Defined.
Global Instance is_end_dec h e : Decision (is_end h e).
Proof. unfold is_end. apply _. Defined.

(** How often something happened. *)
Definition times (P : event → Prop) `{!∀ e, Decision (P e)} (w : world) : nat := length (filter P (events w)).

Record tally (l : list (call * task * plugin)) (w : world) : Prop := mk_tally {
  t_files f : f ∈ files w ↔ (∃ h, h ∈ nodes (starts session) l ∧ f = unique_file args false h) ∨ (∃ h, h ∈ nodes (ends session) l ∧ f = unique_file args true h);
  t_be h : times (is_BE h) w = if decide (h ∈ nodes (starts session) l) then (if rsh then 0 else 1)%nat else 0%nat;
  t_end h : times (is_end h) w = if decide (h ∈ nodes (ends session) l) then 1%nat else 0%nat;
  t_fe h : h ∈ nodes (starts session) l → short_name h = short_name last_host → filter is_FE (events w) = [LaunchFE h hosts_of_job];
  t_no_fe : (∀ h, h ∈ nodes (starts session) l → short_name h ≠ short_name last_host) → filter is_FE (events w) = [];
}.

Lemma times_app P `{!∀ e, Decision (P e)} f l k : times P (mk_world f (l ++ k)) = (times P (mk_world f l) + length (filter P k))%nat.
Proof. unfold times. cbn. by rewrite filter_app, length_app. Qed.

Lemma decide_iff {A} (P Q : Prop) `{!Decision P, !Decision Q} (x y : A) : (P ↔ Q) → (if decide P then x else y) = if decide Q then x else y.
Proof. intros H. destruct (decide P), (decide Q); tauto. Qed.

Lemma nodes_at f l c t st h : h ∈ nodes f (l ++ [(c, t, st)]) ↔ h ∈ nodes f l ∨ (f c = true ∧ h = hostname t).
Proof.
  rewrite nodes_snoc, elem_of_app. destruct (f c); [rewrite list_elem_of_singleton|rewrite elem_of_nil]; (split; [intros [?|?]|intros [?|[? ?]]]); auto; done.
Qed.

Lemma starts_not_ends c : starts session c = true → ends session c = false.
Proof. by destruct c, session. Qed.

(** A file of a node is there when a call of its phase was made on the node. *)
Lemma file_of l w h : tally l w → (unique_file args false h ∈ files w ↔ h ∈ nodes (starts session) l) ∧ (unique_file args true h ∈ files w ↔ h ∈ nodes (ends session) l).
Proof.
  intros Ht. rewrite !(t_files _ _ Ht). split; (split; [intros [(h' & Hin & E)|(h' & Hin & E)]; apply unique_file_inj in E as [? ->]; done|intros Hin; eauto]).
Qed.

Lemma tally_start l w c t st : tally l w → starts session c = true → (∀ h, h ∈ nodes (starts session) l → short_name h = short_name (hostname t) → h = hostname t) → tally (l ++ [(c, t, st)]) (start_world t w).
Proof.
  intros Ht Hs Hd. pose proof (starts_not_ends c Hs) as He. destruct (file_of l w (hostname t) Ht) as [Hf _]. unfold start_world.
  assert (∀ h, h ∈ nodes (starts session) (l ++ [(c, t, st)]) ↔ h ∈ nodes (starts session) l ∨ h = hostname t) as Hn by (intros h; rewrite nodes_at, Hs; split; [intros [?|[_ ?]]|intros [?|?]]; auto).
  assert (∀ h, h ∈ nodes (ends session) (l ++ [(c, t, st)]) ↔ h ∈ nodes (ends session) l) as Hne by (intros h; rewrite nodes_at, He; split; [intros [?|[? _]]|intros ?]; auto; done).
  destruct (decide (unique_file args false (hostname t) ∈ files w)) as [Hin|Hout].
  - apply Hf in Hin. assert (∀ h, h ∈ nodes (starts session) (l ++ [(c, t, st)]) ↔ h ∈ nodes (starts session) l) as Hn' by (intros h; rewrite Hn; split; [intros [?| ->]|intros ?]; auto).
    split.
    + intros f. rewrite (t_files _ _ Ht). setoid_rewrite Hn'. by setoid_rewrite Hne.
    + intros h. rewrite (t_be _ _ Ht). apply decide_iff. by rewrite Hn'.
    + intros h. rewrite (t_end _ _ Ht). apply decide_iff. by rewrite Hne.
    + intros h Hh. by apply (t_fe _ _ Ht), Hn'.
    + intros H. apply (t_no_fe _ _ Ht). intros h Hh. by apply H, Hn'.
  - assert (hostname t ∉ nodes (starts session) l) as Hni by (by rewrite <- Hf). split.
    + intros f. cbn [files]. rewrite elem_of_union, elem_of_singleton, (t_files _ _ Ht). setoid_rewrite Hn. setoid_rewrite Hne. split.
      * intros [-> |[(h & Hh & ->)|(h & Hh & ->)]]; [left; by exists (hostname t); auto|left; by exists h; auto|right; by exists h].
      * intros [(h & [Hh| ->] & ->)|(h & Hh & ->)]; [right; left; by exists h|by left|right; right; by exists h].
    + intros h. rewrite times_app, filter_app, length_app. change (times (is_BE h) (mk_world _ (events w))) with (times (is_BE h) w). rewrite (t_be _ _ Ht).
      assert (length (filter (is_BE h) (if on_fe t then [LaunchFE (hostname t) hosts_of_job] else [])) = 0%nat) as -> by (destruct (on_fe t); [|done]; by rewrite filter_cons, decide_False).
      destruct (decide (h = hostname t)) as [->|Hh].
      * rewrite decide_False, decide_True by (done || (rewrite Hn; by right)). destruct rsh; [done|]. rewrite filter_cons, decide_True by done. done.
      * rewrite (decide_iff (h ∈ nodes (starts session) (l ++ [(c, t, st)])) (h ∈ nodes (starts session) l)) by (rewrite Hn; split; [by intros [?|?]|auto]). assert (length (filter (is_BE h) (if rsh then [] else [LaunchBE (hostname t)])) = 0%nat) as ->; [|lia].
        destruct rsh; [done|]. rewrite filter_cons, decide_False; [done|]. unfold is_BE. congruence.
    + intros h. rewrite times_app, filter_app, length_app. change (times (is_end h) (mk_world _ (events w))) with (times (is_end h) w). rewrite (t_end _ _ Ht), (decide_iff (h ∈ nodes (ends session) (l ++ [(c, t, st)])) (h ∈ nodes (ends session) l)) by apply Hne.
      assert (length (filter (is_end h) (if rsh then [] else [LaunchBE (hostname t)])) = 0%nat) as ->.
      { destruct rsh eqn:Er; [done|]. rewrite filter_cons, decide_False; [done|]. unfold is_end. by destruct (session || _). }
      assert (length (filter (is_end h) (if on_fe t then [LaunchFE (hostname t) hosts_of_job] else [])) = 0%nat) as ->; [|lia].
      destruct (on_fe t); [|done]. rewrite filter_cons, decide_False; [done|]. unfold is_end. by destruct (session || _).
    + intros h Hh Hsh. cbn [events]. rewrite !filter_app. assert (filter is_FE (if rsh then [] else [LaunchBE (hostname t)]) = []) as -> by (by destruct rsh). cbn [app].
      apply Hn in Hh as [Hh|Hh].
      * rewrite (t_fe _ _ Ht h Hh Hsh). unfold on_fe. rewrite bool_decide_eq_false_2; [done|]. intros E. apply Hni. rewrite <- (Hd h Hh); [done|congruence].
      * subst h. rewrite (t_no_fe _ _ Ht). 2: { intros h Hh E. apply Hni. rewrite <- (Hd h Hh); [done|congruence]. }
        unfold on_fe. rewrite bool_decide_eq_true_2 by done. done.
    + intros H. cbn [events]. rewrite !filter_app, (t_no_fe _ _ Ht) by (intros h Hh; apply H; rewrite Hn; by left).
      assert (filter is_FE (if rsh then [] else [LaunchBE (hostname t)]) = []) as -> by (by destruct rsh).
      unfold on_fe. rewrite bool_decide_eq_false_2; [done|]. apply H. rewrite Hn. by right.
Qed.

Lemma ends_not_starts c : ends session c = true → starts session c = false.
Proof. by destruct c, session. Qed.

Lemma tally_end l w c t st : tally l w → ends session c = true → tally (l ++ [(c, t, st)]) (end_world t w).
Proof.
  intros Ht He. pose proof (ends_not_starts c He) as Hs. destruct (file_of l w (hostname t) Ht) as [_ Hf]. unfold end_world.
  assert (∀ h, h ∈ nodes (ends session) (l ++ [(c, t, st)]) ↔ h ∈ nodes (ends session) l ∨ h = hostname t) as Hn by (intros h; rewrite nodes_at, He; split; [intros [?|[_ ?]]|intros [?|?]]; auto).
  assert (∀ h, h ∈ nodes (starts session) (l ++ [(c, t, st)]) ↔ h ∈ nodes (starts session) l) as Hns by (intros h; rewrite nodes_at, Hs; split; [intros [?|[? _]]|intros ?]; auto; done).
  set (e := if session || rsh then SignalEnd (hostname t) else ExitBE (hostname t)).
  assert (filter is_FE [e] = []) as Efe by (unfold e; by destruct (session || rsh)).
  destruct (decide (unique_file args true (hostname t) ∈ files w)) as [Hin|Hout].
  - apply Hf in Hin. assert (∀ h, h ∈ nodes (ends session) (l ++ [(c, t, st)]) ↔ h ∈ nodes (ends session) l) as Hn' by (intros h; rewrite Hn; split; [intros [?| ->]|intros ?]; auto).
    split.
    + intros f. rewrite (t_files _ _ Ht). setoid_rewrite Hn'. by setoid_rewrite Hns.
    + intros h. rewrite (t_be _ _ Ht). apply decide_iff. by rewrite Hns.
    + intros h. rewrite (t_end _ _ Ht). apply decide_iff. by rewrite Hn'.
    + intros h Hh. by apply (t_fe _ _ Ht), Hns.
    + intros H. apply (t_no_fe _ _ Ht). intros h Hh. by apply H, Hns.
  - assert (hostname t ∉ nodes (ends session) l) as Hni by (by rewrite <- Hf). split.
    + intros f. cbn [files]. rewrite elem_of_union, elem_of_singleton, (t_files _ _ Ht). setoid_rewrite Hn. setoid_rewrite Hns. split.
      * intros [-> |[(h & Hh & ->)|(h & Hh & ->)]]; [right; by exists (hostname t); auto|left; by exists h|right; by exists h; auto].
      * intros [(h & Hh & ->)|(h & [Hh| ->] & ->)]; [right; left; by exists h|right; right; by exists h|by left].
    + intros h. rewrite times_app. change (times (is_BE h) (mk_world _ (events w))) with (times (is_BE h) w). rewrite (t_be _ _ Ht), (decide_iff (h ∈ nodes (starts session) (l ++ [(c, t, st)])) (h ∈ nodes (starts session) l)) by apply Hns.
      rewrite filter_cons, (decide_False (P := is_BE h e)); [cbn; lia|]. unfold is_BE, e. by destruct (session || rsh).
    + intros h. rewrite times_app. change (times (is_end h) (mk_world _ (events w))) with (times (is_end h) w). rewrite (t_end _ _ Ht), filter_cons.
      destruct (decide (h = hostname t)) as [->|Hh].
      * rewrite decide_False, decide_True, decide_True by (done || (rewrite Hn; by right)). done.
      * rewrite (decide_iff (h ∈ nodes (ends session) (l ++ [(c, t, st)])) (h ∈ nodes (ends session) l)) by (rewrite Hn; split; [by intros [?|?]|auto]).
        rewrite (decide_False (P := is_end h e)); [cbn; lia|]. unfold is_end, e. destruct (session || rsh); congruence.
    + intros h Hh Hsh. cbn [events]. rewrite filter_app, Efe, app_nil_r. by apply (t_fe _ _ Ht h); [apply Hns|].
    + intros H. cbn [events]. rewrite filter_app, Efe, app_nil_r. apply (t_no_fe _ _ Ht). intros h Hh. by apply H, Hns.
Qed.

Lemma tally_other l w c t st : tally l w → starts session c = false → ends session c = false → tally (l ++ [(c, t, st)]) w.
Proof.
  intros Ht Hs He. assert (nodes (starts session) (l ++ [(c, t, st)]) = nodes (starts session) l) as E1 by (rewrite nodes_snoc, Hs; apply app_nil_r).
  assert (nodes (ends session) (l ++ [(c, t, st)]) = nodes (ends session) l) as E2 by (rewrite nodes_snoc, He; apply app_nil_r). destruct Ht. split; rewrite ?E1, ?E2; done.
Qed.

Definition names_differ (l : list (call * task * plugin)) : Prop :=
  ∀ h h', h ∈ (λ x, hostname x.1.2) <$> l → h' ∈ (λ x, hostname x.1.2) <$> l → short_name h = short_name h' → h = h'.

Lemma nodes_all f l h : h ∈ nodes f l → h ∈ (λ x, hostname x.1.2) <$> l.
Proof. unfold nodes. rewrite !list_elem_of_fmap. intros (x & -> & [_ Hx]%list_elem_of_filter). by exists x. Qed.

Lemma tally_run l : names_differ l → tally l (foldl (λ w '(c, t, _), effect c t w) (mk_world ∅ []) l).
Proof.
  induction l as [|[[c t] st] l IH] using rev_ind; intros Hd.
  - split; cbn; try done.
    + intros f. rewrite elem_of_empty. split; [done|]. by intros [(h & []%elem_of_nil & _)|(h & []%elem_of_nil & _)].
    + intros h []%elem_of_nil.
  - assert (names_differ l) as Hd' by (intros h h' H H'; apply Hd; rewrite fmap_app, elem_of_app; by left).
    rewrite foldl_snoc. unfold effect at 1. destruct (starts session c) eqn:Es; [|destruct (ends session c) eqn:Ee].
    + apply tally_start; [by apply IH|done|]. intros h Hh. apply Hd; rewrite fmap_app, elem_of_app; [left; by eapply nodes_all|right]. by apply list_elem_of_singleton.
    + apply tally_end; [by apply IH|done].
    + apply tally_other; [by apply IH|done|done].
Qed.

End job.
End launch.


(** A step with two nodes and three tasks, which are initialised and exit in some order. *)
Definition demo_es : list (list part) := [[Text (lit "n"); Ranges [(1, Some 2)]]].
Definition demo_task (h : string) : task :=
  mk_task S_CTX_REMOTE false
    (λ k, if bool_decide (k = lit "SLURM_STEP_NODELIST") then ESPANK_SUCCESS (lit "n[1-2]") else if bool_decide (k = lit "SLURM_STEP_NUM_NODES") then ESPANK_SUCCESS (lit "2") else ESPANK_ENV_NOEXIST)
    (Some 77) (Some 3) (Some 2) None (Some 1000) (lit h).
Definition demo_plugin : plugin := mk_plugin {[ lit "HOME" := lit "/home/u" ]} true false (Some (lit "--pull")) None false false false false.
Definition demo_fill (argv : list bytes) : option (Z * bytes) := Some (64, lit "/nonexistent:/tmp").
Definition demo_validate (e : env) (n : Z) (p : bytes) : option (bytes * bytes) := if bool_decide (p = lit "/tmp") then Some (p, p) else None.
Definition demo_args : spindle_args_t := mk_args (2 ^ 25 + 64) (3 * 2 ^ 32 + 77) (lit "/tmp").
Definition demo_calls : list (call * task * plugin) :=
  [(TaskInit, demo_task "n1", demo_plugin); (TaskInit, demo_task "n2", demo_plugin); (TaskInit, demo_task "n2", demo_plugin); (TaskExit, demo_task "n2", demo_plugin)].


End SlurmLaunch.
